(* ===== verification/_CoqProject ===== *)
-Q . S2P
Prelude.v
Sha256.v
Utf8.v
Json.v
Registry.v
RegistrySpec.v
Domain.v
Sse.v
Store.v
Events.v
Delivery.v
Capability.v
Lifecycle.v
LifecycleSpec.v
EngineSteps.v
Artifacts.v
ArtifactsSpec.v
Commit.v
CommitSpec.v
Terminal.v
TerminalSpec.v
TelegramRender.v
Telegram.v
TelegramSpec.v
Limits.v
Admission.v
AdmissionSpec.v
Provider.v
ProviderSpec.v
Approvals.v
ApprovalsSpec.v
Credentials.v
RequestBody.v
RequestBodySpec.v
RequestJsonSpec.v
Rely.v
AuthStore.v
AuthRely.v
AuthStoreSpec.v
OAuthText.v
OAuthTextSpec.v
OAuth.v
OAuthRely.v
OAuthSpec.v
