(* ===== verification/Prelude.v ===== *)
(** * rustscript-agent: a verification library

    The program is an agent service: a gateway admits runs, each run drives a
    RustScript program through a third-party virtual machine, the program
    calls a language model and tools, and every step is stored before anyone
    can see it.  This library models the Rust sources under [src/src] and
    proves what makes them correct.

    ** The parts and where they are modelled

    Text and values.
    - [Utf8]: what the sources use of Rust's [str].
    - [Json]: [serde_json] values, VM values, the conversions of [domain.rs].
    - [Sha256]: the digest of [registry.rs] and [capabilities/hash.rs].

    Contracts and records.
    - [Domain]: durable identifiers, message content, bounds and redaction of
      [domain.rs].
    - [Store]: the gateway's records and the rebuild of the store from a
      database load ([gateway/store.rs], [sqlite_storage_rows.rs]).
    - [Events]: the event schema and the committer interface of [events.rs].
    - [Registry], [RegistrySpec]: tool descriptors, schema limits, admission
      and the frozen snapshot ([registry.rs], [tool_schema.rs]).

    A run's life.
    - [Sse]: the incremental EventSource framer of [transport/sse.rs].
    - [Delivery]: live delivery of script events ([runtime/delivery.rs]).
    - [Capability], [Lifecycle], [LifecycleSpec]: approval gates and the
      engine that issues, closes and recovers execution tokens
      ([capabilities/types.rs], [capabilities/lifecycle.rs]).
    - [Commit], [CommitSpec]: the service's durable commits of tool and
      provider steps ([service.rs], [tool_result.rs]).
    - [Terminal], [TerminalSpec]: how a run ends ([service.rs],
      [runtime/rss_runner.rs]).
    - [EngineSteps], [Artifacts], [ArtifactsSpec]: what one engine step does to
      tokens and resources, and the artifacts of a run
      ([capabilities/artifacts.rs]): quotas, one result per call, guards the
      engine retracts.  Each step of a call that takes a lock or calls the engine
      may be followed by steps of other calls; engine operations are single
      steps, though the code releases the engine's lock around the durable
      commit and before it releases resources.
    - [Limits]: names, the byte budget of an admission, provider profiles and
      run limits of [config.rs].
    - [Admission], [AdmissionSpec]: how a request becomes a run
      ([service.rs], [admit_blocking] and what it calls): validation, replay,
      workspace resolution, preparation, the durable command, publication, the
      retry loop, workspace binding, stored contexts and their reload.
    - [Provider], [ProviderSpec]: the durable provider host
      ([durable_provider.rs] and the provider operations of [service.rs]):
      turns and step keys, request boundaries, retries, replay, canonical steps
      and the envelopes read back from storage.
    - [Approvals], [ApprovalsSpec]: pending approvals ([service.rs],
      [durable_provider.rs]): previews bound to live calls, listing, resolution,
      the script's approval operations.
    - [Credentials]: credential identifiers, PKCE material and account claims
      ([auth/token.rs], [auth/pkce.rs], [auth/oauth/codex_metadata.rs]).
    - [RequestBody], [RequestBodySpec], [RequestJsonSpec]: bodies with injected
      secrets ([auth/request_body.rs]).
    - [Rely]: a small rely/guarantee logic for computations that other threads
      interrupt, used by the next two.
    - [AuthStore], [AuthRely], [AuthStoreSpec]: the credential store
      ([auth/store.rs]): secret slots, issued handles, locks, the credential
      file and its generations.
    - [OAuthText], [OAuthTextSpec], [OAuth], [OAuthRely], [OAuthSpec]: the OAuth
      host ([auth/oauth.rs]): texts, strict JSON and admission checks, then
      flows, callbacks, transport, sanitised answers and streams.
    - [TelegramRender], [Telegram], [TelegramSpec]: the Telegram adapter
      ([gateway/telegram.rs], [gateway/telegram_render.rs]): chunks and
      edits, the client's retries, the poll loop with its offset and duplicate
      windows, reset epochs, replay and the delivery of a run's events.

    The parts meet where the code makes them meet: the delivery task and the
    committers append to the records of [Store]; the lifecycle engine calls a
    durable lifecycle, an interface ([DurableToolLifecycle]) that [Commit]
    implements with the committers; terminal commits, stops and the janitor
    act on the same store and run handles; the OAuth host takes its secrets from
    the credential store and leaves new ones in its slots.

    ** How the code is represented

    A Rust [String] is a [string] of UTF-8 bytes, a byte vector a list of
    bytes, a character its encoding.  Machine integers are [Z] with the
    wrapping, saturating or checked operation written out.  [HashMap] and
    [BTreeMap] are [gmap]s, [serde_json]'s map an association list sorted by
    key.  Fallible code returns [result]; [let?] is the [?] operator.  Stateful
    code takes and returns the state; locks delimit critical sections, and
    what other threads do between two of them is a function argument.  Clocks,
    fresh identifiers and storage replies are arguments or streams.

    Third-party code is a parameter.  [serde_json]'s text ([JsonText], with
    the documented laws [JsonTextLaws] and the instance [CompactText]), the
    iteration order of VM maps ([VmMapOrder]), the [jsonschema] crate
    ([JsonSchemaCrate]), storage and its replies ([StoreReaders] and command
    functions), the [ring] crate ([Ring]), the [url] crate ([UrlCrate]),
    [serde_json]'s event stream and string texts ([JsonStream], [JsonStrings]),
    the file system, clocks and locks of the credential store ([AuthHost]) and
    the transport, browser and callback source of the OAuth host ([OAuthDeps])
    are classes or arguments; theorems that use their laws have a witness with
    a concrete instance.

    ** What the theorems show

    - Durable before visible: an event is published only after the storage
      command that carries it succeeded, for live delivery, step commits and
      terminal commits; a failed commit changes nothing in memory.
    - At most once: a tool call is started, closed and committed at most once;
      the lifecycle engine refines an abstract machine that says so; while
      the log retains it, a committed result comes back from a replay.
    - Logs stay well formed: consecutive sequence numbers, no duplicates,
      within the retention bound; a load rebuilds a consistent store.
    - Runs end: finishing a run ends it whatever storage and other threads do,
      a committed terminal status is final, parked terminals are counted exactly and their retries stop.
    - Text is exact: the framer equals a whole-stream parser, the digest is
      SHA-256 as published, identifiers and content are bounded and round-trip.
    - The registry: inspection of a schema equals a recursive definition of
      the limits, admission is characterised exactly, frozen validators answer
      as fresh ones, errors are bounded.
    - Artifacts: whatever calls and engine operations interleave, quotas and the
      byte count are exact, a result is kept only for a call that is open or
      durably committed, one per call, and stays once committed; reads return
      what the same owner and generation put.
    - Admission, against arbitrary interference between lock acquisitions: a
      run is stored before it is visible, a key names one run, permits are
      conserved, the store stays well formed, a refused request leaves nothing
      behind, the loop ends by its deadline, a stored context is read back.
      The byte budget accepts exactly what fits the storage host's rows, apart
      from the parts of a workspace binding it does not count.
    - The durable provider: the model is asked only behind a stored boundary and
      within the retry budget, a step key names one answer as long as its
      events are kept, across restarts, a valid answer reaches the script as it
      was stored, and nothing secret in a request influences what is stored or
      published, except through the answer to it.
    - Approvals: a decision is sent only when it is due, what is approved is
      what was shown, previews stay bounded and out of storage.
    - Authentication, against arbitrary interference of other threads that do
      only what the host's and the store's own calls do: a stored secret is
      handed out once and an authorization code submitted once, a save
      publishes one credential at the next generation, a request goes only
      where the policy allows and with admitted headers, a callback is accepted
      only with its flow's state (or with none, if the flow is given up at that
      moment), answers lose their secrets and nothing else, the tokens among
      them are kept in slots and flows as they came, a stream stays within its bound, injected bodies read back.
    - The Telegram adapter: updates are handled once and in order as long as
      their numbers stay below the largest [i64], where the offset wraps, the chat
      shows exactly the streamed text, a reset silences old renderers for
      good, delivery cursors only advance, client calls return.  Three
      theorems state defects: a replay below the retained floor never ends, a
      throttled edit loses text at a message's limit, and a long tool-call
      identifier loses the call's result.

    ** Fuel

    The schema inspection counts a node per turn and stops above 4096, so 4097
    turns are enough; its totality is part of its theorem.  The terminal retry
    loop is bounded by its deadline.  All other recursions are structural.
    The loop of an admission takes one turn more than the clock readings before
    its deadline, which is enough by [admission_ends_by_deadline].

    A client call runs with one turn more than its retry budgets, which is
    enough by [request_bounded].  The replay loop takes any fuel; that none is
    enough below the floor is a theorem.

    ** Not modelled

    Operating-system and network effects (confined files, processes, the HTTPS
    transport, browsers, terminals) and the adapters of the OAuth host to the
    virtual machine, the RustScript scripts under [src/rss] and the virtual machine
    that runs them, the tokio runtime, HTTP routing, YAML parsing, and process
    start-up.  They call libraries that are not part of the sources, or only
    wire the modelled parts together. *)

From stdpp Require Export base strings gmap list.
From Stdlib Require Export ZArith Lia Sorting.Sorted.
From Stdlib Require Import Strings.Byte Strings.Ascii.

(** ** Results and early returns

    [Result<A, E>] of the source.  [let? x := c in k] is the [?] operator. *)

Inductive result (A E : Type) : Type :=
| Ok (a : A)
| Err (e : E).

Arguments Ok {A E} a.
Arguments Err {A E} e.

Declare Scope rust_scope.
Delimit Scope rust_scope with rust.
Open Scope rust_scope.

Notation "'let?' x ':=' c 'in' k" :=
  (match c with Ok x => k | Err e => Err e end)
  (at level 10, x name, c at level 100, k at level 200) : rust_scope.

Notation "'let?' ''' p ':=' c 'in' k" :=
  (match c with Ok p => k | Err e => Err e end)
  (at level 10, p pattern, c at level 100, k at level 200) : rust_scope.

Definition is_ok {A E} (r : result A E) : bool :=
  match r with Ok _ => true | Err _ => false end.

Definition map_err {A E F} (f : E -> F) (r : result A E) : result A F :=
  match r with Ok a => Ok a | Err e => Err (f e) end.

Definition result_map {A B E} (f : A -> B) (r : result A E) : result B E :=
  match r with Ok a => Ok (f a) | Err e => Err e end.

(** [Option::ok_or]. *)
Definition ok_or {A E} (o : option A) (e : E) : result A E :=
  match o with Some a => Ok a | None => Err e end.

Lemma ok_or_Ok {A E} (o : option A) (e : E) a : ok_or o e = Ok a -> o = Some a.
Proof. destruct o; naive_solver. Qed.

Lemma map_err_Ok {A E F} (f : E -> F) (r : result A E) a :
  map_err f r = Ok a -> r = Ok a.
Proof. destruct r; naive_solver. Qed.

(** ** Fallible state

    A computation that threads a state and ends with a value or an early
    return, for code that interleaves both. *)

Definition FS (S E A : Type) : Type := S -> S * result A E.

Definition fs_ret {S E A} (a : A) : FS S E A := fun s => (s, Ok a).
Definition fs_fail {S E A} (e : E) : FS S E A := fun s => (s, Err e).
Definition fs_lift {S E A} (r : result A E) : FS S E A := fun s => (s, r).
Definition fs_guard {S E} (b : bool) (e : E) : FS S E unit := if b then fs_ret tt else fs_fail e.

Definition fs_bind {S E A B} (m : FS S E A) (k : A -> FS S E B) : FS S E B := fun s =>
  match m s with
  | (s', Ok a) => k a s'
  | (s', Err e) => (s', Err e)
  end.

(** [match m { .. }] on the result of a call. *)
Definition fs_match {S E A B} (m : FS S E A) (k : result A E -> FS S E B) : FS S E B := fun s =>
  let '(s, r) := m s in k r s.

Notation "'let*' x ':=' m 'in' k" := (fs_bind m (fun x => k))
  (at level 10, x binder, m at level 100, k at level 200, only parsing) : rust_scope.

Section FallibleState.
Context {S E : Type}.

Lemma fs_bind_inv {A B} (m : FS S E A) (k : A -> FS S E B) s s' r :
  fs_bind m k s = (s', r) ->
  (exists s1 a, m s = (s1, Ok a) /\ k a s1 = (s', r)) \/ (exists e, m s = (s', Err e) /\ r = Err e).
Proof.
  unfold fs_bind. destruct (m s) as [s1 [a|e]]; [by left; eauto|]. intros [= <- <-]. right. eauto.
Qed.

Lemma fs_bind_Ok {A B} (m : FS S E A) (k : A -> FS S E B) s s1 a : m s = (s1, Ok a) -> fs_bind m k s = k a s1.
Proof. unfold fs_bind. by intros ->. Qed.

Lemma fs_bind_Err {A B} (m : FS S E A) (k : A -> FS S E B) s s1 e :
  m s = (s1, Err e) -> fs_bind m k s = (s1, Err e).
Proof. unfold fs_bind. by intros ->. Qed.

(** An answer is reached only through every step. *)
Lemma fs_bind_done {A B} (m : FS S E A) (k : A -> FS S E B) s s' b :
  fs_bind m k s = (s', Ok b) -> exists s1 a, m s = (s1, Ok a) /\ k a s1 = (s', Ok b).
Proof. intros [H|(e & _ & [=])]%fs_bind_inv. done. Qed.

Lemma fs_guard_done b (e : E) (s s' : S) : fs_guard b e s = (s', Ok tt) -> b = true /\ s' = s.
Proof. by destruct b; intros [= <-]. Qed.

Lemma fs_lift_done {A} (r : result A E) (s s' : S) a : fs_lift r s = (s', Ok a) -> r = Ok a /\ s' = s.
Proof. by intros [= <- ->]. Qed.
End FallibleState.

(** ** Machine integers

    [u64] and [usize] (64-bit targets) are [Z] in their range; [i64] likewise.
    The operations the source uses write their overflow behaviour out. *)

Definition u64_max : Z := 18446744073709551615.
Definition usize_max : Z := u64_max.
Definition i64_max : Z := 9223372036854775807.
Definition i64_min : Z := -9223372036854775808.

Definition is_u64 (z : Z) : bool := (0 <=? z)%Z && (z <=? u64_max)%Z.
Definition is_i64 (z : Z) : bool := (i64_min <=? z)%Z && (z <=? i64_max)%Z.

Definition wrap64 (z : Z) : Z := (z mod 2 ^ 64)%Z.
Definition wrap32 (z : Z) : Z := (z mod 2 ^ 32)%Z.

Definition saturating_add (a b : Z) : Z := Z.min u64_max (a + b).
Definition saturating_sub (a b : Z) : Z := Z.max 0 (a - b).
Definition checked_add (a b : Z) : option Z :=
  if (a + b <=? u64_max)%Z then Some (a + b)%Z else None.

Lemma wrap64_range z : (0 <= wrap64 z < 2 ^ 64)%Z.
Proof. apply Z.mod_pos_bound. lia. Qed.

Lemma wrap32_range z : (0 <= wrap32 z < 2 ^ 32)%Z.
Proof. apply Z.mod_pos_bound. lia. Qed.

Lemma wrap64_small z : (0 <= z < 2 ^ 64)%Z -> wrap64 z = z.
Proof. apply Z.mod_small. Qed.

(** ** Strings and bytes

    A Rust [String] is its UTF-8 bytes, a [string]; a [Vec<u8>] is a
    [list byte].  [slen] is [str::len], in bytes. *)

Abbreviation byte := Byte.byte.

#[export] Instance byte_eq_dec : EqDecision byte.
Proof. intros x y. apply Byte.byte_eq_dec. Defined.

Definition s2b (s : string) : list byte := String.list_byte_of_string s.
Definition b2s (bs : list byte) : string := String.string_of_list_byte bs.

Definition bval (b : byte) : Z := Z.of_N (Byte.to_N b).
Definition blen (bs : list byte) : Z := Z.of_nat (length bs).
Definition slen (s : string) : Z := blen (s2b s).

Definition is_empty (s : string) : bool :=
  match s with EmptyString => true | String _ _ => false end.

(** [str] equality and bytewise order, as the source's [==] and [Ord]. *)
Definition str_eqb (a b : string) : bool := bool_decide (a = b).

Lemma str_eqb_spec a b : reflect (a = b) (str_eqb a b).
Proof. apply bool_decide_reflect. Qed.

Lemma str_eqb_refl a : str_eqb a a = true.
Proof. by apply bool_decide_eq_true. Qed.

Lemma str_eqb_true a b : str_eqb a b = true <-> a = b.
Proof. apply bool_decide_eq_true. Qed.

Lemma str_eqb_false a b : str_eqb a b = false <-> a <> b.
Proof. apply bool_decide_eq_false. Qed.

Lemma b2s_s2b s : b2s (s2b s) = s.
Proof. apply String.string_of_list_byte_of_string. Qed.

Lemma s2b_b2s bs : s2b (b2s bs) = bs.
Proof. apply String.list_byte_of_string_of_list_byte. Qed.

Lemma s2b_inj s t : s2b s = s2b t -> s = t.
Proof. intros H. by rewrite <- (b2s_s2b s), H, b2s_s2b. Qed.

Lemma s2b_cons c s : s2b (String c s) = byte_of_ascii c :: s2b s.
Proof. done. Qed.

Lemma s2b_app s t : s2b (s +:+ t) = s2b s ++ s2b t.
Proof.
  induction s as [|c s IH]; [done|].
  change (String c s +:+ t) with (String c (s +:+ t)). by rewrite !s2b_cons, IH.
Qed.

Lemma slen_app s t : slen (s +:+ t) = (slen s + slen t)%Z.
Proof. unfold slen, blen. rewrite s2b_app, length_app. lia. Qed.

Lemma slen_nonneg s : (0 <= slen s)%Z.
Proof. unfold slen, blen. lia. Qed.

Lemma slen_zero s : slen s = 0%Z <-> s = EmptyString.
Proof.
  unfold slen, blen. split; [|by intros ->].
  destruct s; [done|]. rewrite s2b_cons. cbn. lia.
Qed.

Lemma bval_range b : (0 <= bval b <= 255)%Z.
Proof. unfold bval. pose proof (Byte.to_N_bounded b). lia. Qed.

Lemma bval_inj a b : bval a = bval b -> a = b.
Proof.
  unfold bval. intros H. apply N2Z.inj in H.
  pose proof (Byte.of_to_N a) as Ha. pose proof (Byte.of_to_N b) as Hb.
  rewrite H in Ha. congruence.
Qed.

(** [starts_with] on bytes. *)
Fixpoint starts_with (bs pre : list byte) {struct pre} : bool :=
  match pre, bs with
  | [], _ => true
  | p :: pre', b :: bs' => bool_decide (p = b) && starts_with bs' pre'
  | _ :: _, [] => false
  end.

Lemma starts_with_spec bs pre :
  starts_with bs pre = true <-> exists rest, bs = pre ++ rest.
Proof.
  revert bs. induction pre as [|p pre IH]; intros bs; cbn.
  - split; [|done]. intros _. by exists bs.
  - destruct bs as [|b bs].
    + split; [done|]. intros (rest & Hr). discriminate.
    + rewrite andb_true_iff, bool_decide_eq_true, IH. split.
      * intros (-> & rest & ->). by exists rest.
      * intros (rest & [= -> ->]). eauto.
Qed.

(** [split_once] and [split] at a one-byte separator, and [join]. *)
Fixpoint split_once (sep : byte) (bs : list byte) : option (list byte * list byte) :=
  match bs with
  | [] => None
  | b :: bs' =>
      if bool_decide (b = sep) then Some ([], bs')
      else (fun '(f, v) => (b :: f, v)) <$> split_once sep bs'
  end.

Fixpoint split_on (sep : byte) (bs : list byte) : list (list byte) :=
  match bs with
  | [] => [[]]
  | b :: bs' =>
      if bool_decide (b = sep) then [] :: split_on sep bs'
      else match split_on sep bs' with
           | piece :: pieces => (b :: piece) :: pieces
           | [] => [[b]]
           end
  end.

Fixpoint join_with (sep : list byte) (pieces : list (list byte)) : list byte :=
  match pieces with
  | [] => []
  | [piece] => piece
  | piece :: rest => piece ++ sep ++ join_with sep rest
  end.

Lemma split_once_Some sep bs f v : split_once sep bs = Some (f, v) -> bs = f ++ sep :: v.
Proof.
  revert f. induction bs as [|b bs IH]; intros f; cbn; [done|].
  case_bool_decide as Hb; [intros [= <- <-]; by subst|].
  destruct (split_once sep bs) as [[f' v']|]; cbn; [|done].
  intros [= <- <-]. cbn. by rewrite <- IH.
Qed.

Lemma split_once_app sep f v : sep ∉ f -> split_once sep (f ++ sep :: v) = Some (f, v).
Proof.
  induction f as [|b f IH]; cbn; intros Hf.
  - by rewrite bool_decide_eq_true_2.
  - apply not_elem_of_cons in Hf as [Hb Hf]. rewrite bool_decide_eq_false_2 by done. by rewrite IH.
Qed.

Lemma split_once_None sep f : sep ∉ f -> split_once sep f = None.
Proof.
  induction f as [|b f IH]; cbn; intros Hf; [done|].
  apply not_elem_of_cons in Hf as [Hb Hf]. rewrite bool_decide_eq_false_2 by done. by rewrite IH.
Qed.

Lemma split_on_piece sep f : sep ∉ f -> split_on sep f = [f].
Proof.
  induction f as [|b f IH]; cbn; intros Hf; [done|].
  apply not_elem_of_cons in Hf as [Hb Hf]. rewrite bool_decide_eq_false_2 by done. by rewrite IH.
Qed.

Lemma split_on_app sep f r : sep ∉ f -> split_on sep (f ++ sep :: r) = f :: split_on sep r.
Proof.
  induction f as [|b f IH]; cbn; intros Hf; [by rewrite bool_decide_eq_true_2|].
  apply not_elem_of_cons in Hf as [Hb Hf]. rewrite bool_decide_eq_false_2 by done. by rewrite IH.
Qed.

(** Pieces without the separator are read back as they were joined. *)
Lemma split_on_join sep pieces :
  pieces <> [] -> Forall (fun p => sep ∉ p) pieces -> split_on sep (join_with [sep] pieces) = pieces.
Proof.
  intros Hne Hall. induction Hall as [|p ps Hp Hps IH]; [done|].
  destruct ps as [|q ps]; [by apply split_on_piece|].
  change (join_with [sep] (p :: q :: ps)) with (p ++ sep :: join_with [sep] (q :: ps)).
  rewrite split_on_app by done. by rewrite IH.
Qed.

(** ** Vectors

    [drain(0..n)] keeps the elements after the first [n]. *)

Definition last_opt {A} (l : list A) : option A := last l.

(** Keeps the last [n] elements: a push followed by the [drain] of the excess. *)
Lemma fold_left_same {A B} (f g : A -> B -> A) l a :
  (forall a b, f a b = g a b) -> fold_left f l a = fold_left g l a.
Proof. intros E. revert a. induction l as [|b l IH]; intros a; [done|]. cbn. by rewrite E, IH. Qed.

Lemma fold_left_keeps {A B} (P : A -> Prop) (f : A -> B -> A) l a :
  P a -> (forall a b, P a -> P (f a b)) -> P (fold_left f l a).
Proof. intros Ha Hf. revert a Ha. induction l; cbn; auto. Qed.

Definition keep_last {A} (n : nat) (l : list A) : list A := drop (length l - n) l.

Lemma keep_last_length {A} n (l : list A) : length (keep_last n l) = min n (length l).
Proof. unfold keep_last. rewrite length_drop. lia. Qed.

Lemma keep_last_suffix {A} n (l : list A) : exists pre, l = pre ++ keep_last n l.
Proof. exists (take (length l - n) l). unfold keep_last. by rewrite take_drop. Qed.

Lemma keep_last_all {A} n (l : list A) : length l <= n -> keep_last n l = l.
Proof. intros. unfold keep_last. by replace (length l - n) with 0 by lia. Qed.

Lemma keep_last_snoc {A} n (l : list A) x : 0 < n -> last (keep_last n (l ++ [x])) = Some x.
Proof.
  intros Hn. pose proof (keep_last_length n (l ++ [x])) as Hk. rewrite length_app in Hk. cbn in Hk.
  destruct (keep_last_suffix n (l ++ [x])) as [pre Hpre].
  destruct (keep_last n (l ++ [x])) as [|y k] eqn:E; [cbn in Hk; lia|].
  assert (last (l ++ [x]) = Some x) as Hl by apply last_snoc. by rewrite Hpre, last_app_cons in Hl.
Qed.

Lemma last_snoc_app {A} (l : list A) x : last (l ++ [x]) = Some x.
Proof. apply last_snoc. Qed.

Lemma elem_of_suffix {A} (x : A) l pre suf : l = pre ++ suf -> x ∈ suf -> x ∈ l.
Proof. intros -> H. apply elem_of_app. by right. Qed.

(** [existsb] over a decidable string field: the source's [iter().any(..)]. *)
Lemma existsb_exists_iff {A} (f : A -> bool) l :
  existsb f l = true <-> exists x, x ∈ l /\ f x = true.
Proof.
  rewrite existsb_exists. split; intros (x & Hx & Hf); exists x; split; auto;
  by apply list_elem_of_In.
Qed.

Lemma existsb_false_iff {A} (f : A -> bool) l :
  existsb f l = false <-> forall x, x ∈ l -> f x = false.
Proof.
  split.
  - intros H x Hx. destruct (f x) eqn:Hf; [|done].
    assert (existsb f l = true) as Ht by (apply existsb_exists_iff; eauto). congruence.
  - intros H. destruct (existsb f l) eqn:E; [|done].
    apply existsb_exists_iff in E as (x & Hx & Hf). by rewrite H in Hf.
Qed.

(** [forM_result f l] runs a fallible function over a list, stopping at the
    first error: a [for] loop with [?] in its body. *)
Fixpoint try_map {A B E} (f : A -> result B E) (l : list A) : result (list B) E :=
  match l with
  | [] => Ok []
  | x :: l' => let? y := f x in let? ys := try_map f l' in Ok (y :: ys)
  end.

Lemma try_map_Ok {A B E} (f : A -> result B E) l ys :
  try_map f l = Ok ys <-> Forall2 (fun x y => f x = Ok y) l ys.
Proof.
  revert ys. induction l as [|x l IH]; intros ys; cbn.
  - split; [intros [= <-]; constructor | by inversion 1].
  - split.
    + destruct (f x) eqn:Hx; [|done]. destruct (try_map f l) eqn:Hl; [|done].
      intros [= <-]. constructor; [done|]. by apply IH.
    + inversion 1 as [|? y ? ys' Hx Hl]; subst. rewrite Hx.
      apply IH in Hl. by rewrite Hl.
Qed.

(** A [for] loop over an accumulator that may return early with an error. *)
Fixpoint try_fold {S A E} (f : S -> A -> result S E) (s : S) (l : list A) : result S E :=
  match l with
  | [] => Ok s
  | x :: l' => let? s' := f s x in try_fold f s' l'
  end.

Lemma try_fold_app {S A E} (f : S -> A -> result S E) s l1 l2 :
  try_fold f s (l1 ++ l2) = let? s' := try_fold f s l1 in try_fold f s' l2.
Proof.
  revert s. induction l1 as [|x l1 IH]; intros s; cbn; [done|]. by destruct (f s x).
Qed.

(** A loop invariant over the elements already consumed. *)
Lemma try_fold_inv {S A E} (P : list A -> S -> Prop) (f : S -> A -> result S E) s l s' :
  P [] s ->
  (forall done x s s', P done s -> f s x = Ok s' -> P (done ++ [x]) s') ->
  try_fold f s l = Ok s' -> P l s'.
Proof.
  intros H0 Hstep.
  assert (forall pre s, P pre s -> try_fold f s l = Ok s' -> P (pre ++ l) s') as Hgo;
    [|intros Hl; by apply (Hgo [] s)].
  clear H0. induction l as [|x l IH]; intros pre s0 Hp; cbn.
  - intros [= <-]. by rewrite app_nil_r.
  - destruct (f s0 x) as [s1|] eqn:E1; [|done]. intros Hl.
    change (x :: l) with ([x] ++ l). rewrite app_assoc. eapply IH; eauto.
Qed.

(** ** Stable sorting: [sort_by_key]

    [le] compares keys; an element is placed before the first one whose key is
    not smaller, so equal keys keep their order. *)
Section sort_by_key.
Context {A K : Type} (le : K -> K -> bool) (key : A -> K).

Fixpoint insert_by_key (x : A) (l : list A) : list A :=
  match l with
  | [] => [x]
  | y :: l' => if le (key x) (key y) then x :: l else y :: insert_by_key x l'
  end.

Definition sort_by_key (l : list A) : list A := foldr insert_by_key [] l.

Lemma insert_by_key_perm x l : Permutation (insert_by_key x l) (x :: l).
Proof.
  induction l as [|y l IH]; cbn; [done|]. case_match; [done|]. rewrite IH. constructor.
Qed.

Lemma sort_by_key_perm l : Permutation (sort_by_key l) l.
Proof. induction l as [|x l IH]; cbn; [done|]. by rewrite insert_by_key_perm, IH. Qed.

Definition key_le (x y : A) : Prop := le (key x) (key y) = true.

Hypothesis le_total : forall a b, le a b = true \/ le b a = true.
Hypothesis le_trans : forall a b c, le a b = true -> le b c = true -> le a c = true.

Lemma insert_by_key_sorted x l : StronglySorted key_le l -> StronglySorted key_le (insert_by_key x l).
Proof.
  induction 1 as [|y l Hl IH Hy]; cbn; [repeat constructor|].
  destruct (le (key x) (key y)) eqn:E.
  - repeat constructor; try done. eapply Forall_impl; [exact Hy|].
    intros z Hz. unfold key_le in *. eauto.
  - constructor; [done|]. rewrite insert_by_key_perm. constructor; [|done].
    destruct (le_total (key x) (key y)) as [H'|H']; [congruence|exact H'].
Qed.

Lemma sort_by_key_sorted l : StronglySorted key_le (sort_by_key l).
Proof. induction l as [|x l IH]; cbn; [constructor|]. by apply insert_by_key_sorted. Qed.
End sort_by_key.

(** A property of every entry holds of a smaller map. *)
Lemma map_Forall_sub {A} (P : string -> A -> Prop) (m1 m2 : gmap string A) :
  m1 ⊆ m2 -> map_Forall P m2 -> map_Forall P m1.
Proof. intros Hs Hm k x Hk. apply Hm. by eapply lookup_weaken. Qed.

(** ** Automation *)

Create HintDb agent.
#[export] Hint Resolve slen_nonneg bval_range wrap64_range wrap32_range : agent.

Create Rewrite HintDb agent_rw.
#[export] Hint Rewrite @length_app @b2s_s2b s2b_b2s s2b_app slen_app str_eqb_refl : agent_rw.

(** Splits every [if]/[match] a guard sequence tests, in the hypotheses. *)
Ltac split_guards :=
  repeat (case_match; simplify_eq/=).

(** Turns boolean tests in the context into propositions. *)
Ltac bool_to_prop :=
  repeat match goal with
  | H : _ && _ = true |- _ => apply andb_true_iff in H as [? ?]
  | H : _ && _ = false |- _ => apply andb_false_iff in H
  | H : _ || _ = true |- _ => apply orb_true_iff in H
  | H : _ || _ = false |- _ => apply orb_false_iff in H as [? ?]
  | H : negb _ = true |- _ => apply negb_true_iff in H
  | H : negb _ = false |- _ => apply negb_false_iff in H
  | H : str_eqb _ _ = true |- _ => apply str_eqb_true in H
  | H : str_eqb _ _ = false |- _ => apply str_eqb_false in H
  | H : bool_decide _ = true |- _ => apply bool_decide_eq_true in H
  | H : bool_decide _ = false |- _ => apply bool_decide_eq_false in H
  | H : (_ <=? _)%Z = true |- _ => apply Z.leb_le in H
  | H : (_ <=? _)%Z = false |- _ => apply Z.leb_gt in H
  | H : (_ <? _)%Z = true |- _ => apply Z.ltb_lt in H
  | H : (_ <? _)%Z = false |- _ => apply Z.ltb_ge in H
  | H : (_ >=? _)%Z = true |- _ => rewrite Z.geb_leb in H
  | H : (_ >=? _)%Z = false |- _ => rewrite Z.geb_leb in H
  | H : (_ =? _)%Z = true |- _ => apply Z.eqb_eq in H
  | H : (_ =? _)%Z = false |- _ => apply Z.eqb_neq in H
  end.

Ltac crush_guards := split_guards; bool_to_prop; try done; try lia; eauto with agent.
