(* ===== verification/Sha256.v ===== *)
(** * SHA-256 ([src/registry.rs], [src/capabilities/hash.rs])

    The digest the registry and the content store use, kept at the width of its
    words, the hash of a whole input against the published definition (FIPS
    180-4): its padding, its constants, its message schedule. *)

From S2P Require Import Prelude.
From Stdlib Require Import Strings.Byte.

Module Sha256.

(** ** Words *)

(** [u32::rotate_right], [wrapping_add], [!]. *)
Definition rotate_right (w : Z) (n : Z) : Z := Z.lor (Z.shiftr w n) (wrap32 (Z.shiftl w (32 - n))).
Definition wrapping_add (a b : Z) : Z := wrap32 (a + b).
Definition not32 (w : Z) : Z := Z.lxor w (2 ^ 32 - 1).

Definition byte_of_Z (z : Z) : byte := default Byte.x00 (Byte.of_N (Z.to_N (z mod 256))).

(** [to_be_bytes] of a word of [n] bytes; [u32::from_be_bytes]. *)
Fixpoint to_be_bytes (n : nat) (z : Z) : list byte :=
  match n with
  | O => []
  | S n' => to_be_bytes n' (z / 256) ++ [byte_of_Z z]
  end.

Definition from_be_bytes (bs : list byte) : Z := fold_left (fun acc b => acc * 256 + bval b)%Z bs 0%Z.

(** [{word:08x}]. *)
Definition hex_digit (d : Z) : byte := byte_of_Z (if (d <? 10)%Z then 48 + d else 87 + d).

Fixpoint hex (n : nat) (z : Z) : list byte :=
  match n with
  | O => []
  | S n' => hex n' (z / 16) ++ [hex_digit (z mod 16)]
  end.

(** ** Constants *)

Definition INITIAL : list Z :=
  ([0x6a09_e667; 0xbb67_ae85; 0x3c6e_f372; 0xa54f_f53a; 0x510e_527f; 0x9b05_688c;
   0x1f83_d9ab; 0x5be0_cd19])%Z.

Definition ROUND_CONSTANTS : list Z :=
  ([0x428a_2f98; 0x7137_4491; 0xb5c0_fbcf; 0xe9b5_dba5; 0x3956_c25b; 0x59f1_11f1;
   0x923f_82a4; 0xab1c_5ed5; 0xd807_aa98; 0x1283_5b01; 0x2431_85be; 0x550c_7dc3;
   0x72be_5d74; 0x80de_b1fe; 0x9bdc_06a7; 0xc19b_f174; 0xe49b_69c1; 0xefbe_4786;
   0x0fc1_9dc6; 0x240c_a1cc; 0x2de9_2c6f; 0x4a74_84aa; 0x5cb0_a9dc; 0x76f9_88da;
   0x983e_5152; 0xa831_c66d; 0xb003_27c8; 0xbf59_7fc7; 0xc6e0_0bf3; 0xd5a7_9147;
   0x06ca_6351; 0x1429_2967; 0x27b7_0a85; 0x2e1b_2138; 0x4d2c_6dfc; 0x5338_0d13;
   0x650a_7354; 0x766a_0abb; 0x81c2_c92e; 0x9272_2c85; 0xa2bf_e8a1; 0xa81a_664b;
   0xc24b_8b70; 0xc76c_51a3; 0xd192_e819; 0xd699_0624; 0xf40e_3585; 0x106a_a070;
   0x19a4_c116; 0x1e37_6c08; 0x2748_774c; 0x34b0_bcb5; 0x391c_0cb3; 0x4ed8_aa4a;
   0x5b9c_ca4f; 0x682e_6ff3; 0x748f_82ee; 0x78a5_636f; 0x84c8_7814; 0x8cc7_0208;
   0x90be_fffa; 0xa450_6ceb; 0xbef9_a3f7; 0xc671_78f2])%Z.

(** ** Compression *)

Definition at_ (l : list Z) (i : nat) : Z := default 0%Z (l !! i).

Definition word (block : list byte) (i : nat) : Z := from_be_bytes (take 4 (drop (i * 4) block)).

Definition small_sigma0 (w : Z) : Z := Z.lxor (Z.lxor (rotate_right w 7) (rotate_right w 18)) (Z.shiftr w 3).
Definition small_sigma1 (w : Z) : Z := Z.lxor (Z.lxor (rotate_right w 17) (rotate_right w 19)) (Z.shiftr w 10).

Definition schedule_step (schedule : list Z) (i : nat) : list Z :=
  <[i := wrapping_add (wrapping_add (wrapping_add (at_ schedule (i - 16)) (small_sigma0 (at_ schedule (i - 15))))
           (at_ schedule (i - 7))) (small_sigma1 (at_ schedule (i - 2)))]> schedule.

Definition schedule_of (block : list byte) : list Z :=
  fold_left schedule_step (seq 16 48) (map (word block) (seq 0 16) ++ replicate 48 0%Z).

Definition round (schedule : list Z) (s : Z * Z * Z * Z * Z * Z * Z * Z) (i : nat) :
    Z * Z * Z * Z * Z * Z * Z * Z :=
  let '(a, b, c, d, e, f, g, h) := s in
  let s1 := Z.lxor (Z.lxor (rotate_right e 6) (rotate_right e 11)) (rotate_right e 25) in
  let choice := Z.lxor (Z.land e f) (Z.land (not32 e) g) in
  let temporary1 := wrapping_add (wrapping_add (wrapping_add (wrapping_add h s1) choice)
                      (at_ ROUND_CONSTANTS i)) (at_ schedule i) in
  let s0 := Z.lxor (Z.lxor (rotate_right a 2) (rotate_right a 13)) (rotate_right a 22) in
  let majority := Z.lxor (Z.lxor (Z.land a b) (Z.land a c)) (Z.land b c) in
  let temporary2 := wrapping_add s0 majority in
  (wrapping_add temporary1 temporary2, a, b, c, wrapping_add d temporary1, e, f, g).

Definition sha256_compress (state : list Z) (block : list byte) : list Z :=
  let start := (at_ state 0, at_ state 1, at_ state 2, at_ state 3, at_ state 4, at_ state 5, at_ state 6,
                at_ state 7) in
  let '(a, b, c, d, e, f, g, h) := fold_left (round (schedule_of block)) (seq 0 64) start in
  map (fun p => wrapping_add (fst p) (snd p)) (zip state [a; b; c; d; e; f; g; h]).

(** ** The digest *)

(** [as_chunks::<64>]: whole chunks and the remainder. *)
Fixpoint as_chunks (fuel : nat) (bs : list byte) : list (list byte) * list byte :=
  match fuel with
  | O => ([], bs)
  | S fuel' =>
      if bool_decide (64 <= length bs) then
        let '(chunks, rest) := as_chunks fuel' (drop 64 bs) in (take 64 bs :: chunks, rest)
      else ([], bs)
  end.

Definition chunks (bs : list byte) : list (list byte) * list byte := as_chunks (length bs) bs.

(** [buffer[at..at + src.len()].copy_from_slice(src)]. *)
Definition copy_at (start : nat) (src buffer : list byte) : list byte :=
  take start buffer ++ src ++ drop (start + length src) buffer.

Definition final_blocks (remainder : list byte) (bit_length : Z) : list byte :=
  let buffer := copy_at 0 remainder (replicate 128 Byte.x00) in
  let buffer := <[length remainder := Byte.x80]> buffer in
  let final_len := if bool_decide (length remainder < 56) then 64 else 128 in
  take final_len (copy_at (final_len - 8) (to_be_bytes 8 bit_length) buffer).

Definition bit_length (bs : list byte) : Z := wrap64 (wrap64 (blen bs) * 8).

Definition sha256_state (bs : list byte) : list Z :=
  let '(whole, remainder) := chunks bs in
  let state := fold_left sha256_compress whole INITIAL in
  fold_left sha256_compress (fst (chunks (final_blocks remainder (bit_length bs)))) state.

Definition sha256_hex (bs : list byte) : string := b2s (concat (map (hex 8) (sha256_state bs))).

Definition content_hash (bs : list byte) : string := "sha256:" +:+ sha256_hex bs.

(** ** The published definition *)

(** The number of zero bytes between the mark and the length: the least one that
    leaves eight bytes of the last block. *)
Definition zeros (n : nat) : nat := (119 - n mod 64) mod 64.

Definition padded (bs : list byte) : list byte :=
  bs ++ [Byte.x80] ++ replicate (zeros (length bs)) Byte.x00 ++ to_be_bytes 8 (wrap64 (8 * blen bs)).

Definition block (bs : list byte) (i : nat) : list byte := take 64 (drop (64 * i) bs).

Definition blocks (bs : list byte) : list (list byte) := map (block bs) (seq 0 (length bs / 64)).

(** The message schedule, word after word. *)
Fixpoint schedule_words (b : list byte) (n : nat) : list Z :=
  match n with
  | O => map (word b) (seq 0 16)
  | S n' =>
      let w := schedule_words b n' in
      let t := 16 + n' in
      w ++ [wrap32 (small_sigma1 (at_ w (t - 2)) + at_ w (t - 7) + small_sigma0 (at_ w (t - 15)) + at_ w (t - 16))]
  end.

Definition ch (x y z : Z) : Z := Z.lxor (Z.land x y) (Z.land (not32 x) z).
Definition maj (x y z : Z) : Z := Z.lxor (Z.lxor (Z.land x y) (Z.land x z)) (Z.land y z).
Definition big_sigma0 (x : Z) : Z := Z.lxor (Z.lxor (rotate_right x 2) (rotate_right x 13)) (rotate_right x 22).
Definition big_sigma1 (x : Z) : Z := Z.lxor (Z.lxor (rotate_right x 6) (rotate_right x 11)) (rotate_right x 25).

Definition fips_round (w : list Z) (v : Z * Z * Z * Z * Z * Z * Z * Z) (t : nat) :
    Z * Z * Z * Z * Z * Z * Z * Z :=
  let '(a, b, c, d, e, f, g, h) := v in
  let t1 := (h + big_sigma1 e + ch e f g + at_ ROUND_CONSTANTS t + at_ w t)%Z in
  let t2 := (big_sigma0 a + maj a b c)%Z in
  (wrap32 (t1 + t2), a, b, c, wrap32 (d + t1), e, f, g).

Definition fips_step (hash : list Z) (b : list byte) : list Z :=
  let '(a, b, c, d, e, f, g, h) :=
    fold_left (fips_round (schedule_words b 48)) (seq 0 64)
      (at_ hash 0, at_ hash 1, at_ hash 2, at_ hash 3, at_ hash 4, at_ hash 5, at_ hash 6, at_ hash 7) in
  map (fun p => wrap32 (fst p + snd p)) (zip hash [a; b; c; d; e; f; g; h]).

Definition fips_sha256 (bs : list byte) : list Z := fold_left fips_step (blocks (padded bs)) INITIAL.

(** ** Words and schedules *)

Lemma wrapping_add_2 a b c : wrapping_add (wrapping_add a b) c = wrap32 (a + b + c).
Proof. unfold wrapping_add, wrap32. apply Zplus_mod_idemp_l. Qed.

Lemma wrapping_add_3 a b c d :
  wrapping_add (wrapping_add (wrapping_add a b) c) d = wrap32 (a + b + c + d).
Proof. rewrite (wrapping_add_2 a b c). apply (wrapping_add_2 (a + b) c d). Qed.

Lemma wrapping_add_4 a b c d e :
  wrapping_add (wrapping_add (wrapping_add (wrapping_add a b) c) d) e = wrap32 (a + b + c + d + e).
Proof. rewrite (wrapping_add_3 a b c d). apply (wrapping_add_2 (a + b + c) d e). Qed.

Lemma round_fips w v t : round w v t = fips_round w v t.
Proof.
  destruct v as [[[[[[[a b] c] d] e] f] g] h]. unfold round, fips_round. cbv zeta.
  fold (ch e f g) (maj a b c) (big_sigma0 a) (big_sigma1 e).
  rewrite (wrapping_add_4 h (big_sigma1 e)).
  assert (forall x y z, wrapping_add (wrap32 x) (wrapping_add y z) = wrap32 (x + (y + z))) as ->.
  { intros. unfold wrapping_add, wrap32. by rewrite Zplus_mod_idemp_l, Zplus_mod_idemp_r. }
  assert (forall x y, wrapping_add x (wrap32 y) = wrap32 (x + y)) as ->; [|done].
  intros. unfold wrapping_add, wrap32. by rewrite Zplus_mod_idemp_r.
Qed.

Lemma schedule_words_length b n : length (schedule_words b n) = 16 + n.
Proof. induction n as [|n IH]; [done|]. cbn [schedule_words]. rewrite length_app, IH. cbn. lia. Qed.

Lemma at_app_l (l k : list Z) i : i < length l -> at_ (l ++ k) i = at_ l i.
Proof. intros Hi. unfold at_. by rewrite lookup_app_l. Qed.

(** The array filled in place holds the words computed so far. *)
Lemma schedule_fill b n :
  n <= 48 ->
  fold_left schedule_step (seq 16 n) (map (word b) (seq 0 16) ++ replicate 48 0%Z) =
  schedule_words b n ++ replicate (48 - n) 0%Z.
Proof.
  induction n as [|n IH]; intros Hn; [done|].
  rewrite seq_S, fold_left_app, IH by lia. cbn [fold_left schedule_words].
  replace (48 - n) with (S (48 - S n)) by lia. cbn [replicate].
  pose proof (schedule_words_length b n) as Hl. unfold schedule_step.
  rewrite !at_app_l by lia. rewrite insert_app_r_alt by lia. rewrite Hl, Nat.sub_diag. cbn [insert list_insert].
  rewrite <- app_assoc. cbn [app]. f_equal. f_equal. rewrite wrapping_add_3. f_equal. lia.
Qed.

Lemma schedule_of_words b : schedule_of b = schedule_words b 48.
Proof. unfold schedule_of. rewrite schedule_fill by lia. apply app_nil_r. Qed.

Lemma compress_fips state b : sha256_compress state b = fips_step state b.
Proof.
  unfold sha256_compress, fips_step. rewrite schedule_of_words.
  rewrite (fold_left_same (round (schedule_words b 48)) (fips_round (schedule_words b 48)));
    [reflexivity|apply round_fips].
Qed.

(** ** Blocks and padding *)

Lemma block_drop bs i : block (drop 64 bs) i = block bs (S i).
Proof. unfold block. rewrite drop_drop. f_equal. f_equal. lia. Qed.

Lemma blocks_step bs : 64 <= length bs -> blocks bs = take 64 bs :: blocks (drop 64 bs).
Proof.
  intros Hl. unfold blocks. rewrite length_drop.
  replace (length bs / 64) with (S ((length bs - 64) / 64)).
  - cbn [seq map]. f_equal. rewrite <- seq_shift, map_map. apply map_ext. intros i. by rewrite block_drop.
  - replace (length bs) with (length bs - 64 + 1 * 64) at 2 by lia. rewrite Nat.div_add by lia. lia.
Qed.

Lemma blocks_short bs : length bs < 64 -> blocks bs = [].
Proof. intros Hl. unfold blocks. by rewrite Nat.div_small. Qed.

Lemma as_chunks_blocks fuel bs :
  length bs <= fuel -> as_chunks fuel bs = (blocks bs, drop (64 * (length bs / 64)) bs).
Proof.
  revert bs. induction fuel as [|fuel IH]; intros bs Hf; cbn [as_chunks].
  { destruct bs; [done|cbn in Hf; lia]. }
  case_bool_decide as Hl.
  - rewrite IH by (rewrite length_drop; lia). rewrite (blocks_step bs) by done. f_equal.
    rewrite drop_drop, length_drop. f_equal.
    replace (length bs) with (length bs - 64 + 1 * 64) at 2 by lia. rewrite Nat.div_add by lia. lia.
  - rewrite blocks_short, Nat.div_small by lia. done.
Qed.

Lemma blocks_app k a b : length a = 64 * k -> blocks (a ++ b) = blocks a ++ blocks b.
Proof.
  revert a. induction k as [|k IH]; intros a Ha; [by destruct a|].
  rewrite (blocks_step (a ++ b)), (blocks_step a) by (rewrite ?length_app; lia).
  rewrite take_app_le, drop_app_le by lia. cbn [app]. f_equal. apply IH. rewrite length_drop. lia.
Qed.

Lemma to_be_bytes_length n z : length (to_be_bytes n z) = n.
Proof. revert z. induction n as [|n IH]; intros z; [done|]. cbn. rewrite length_app, IH. cbn. lia. Qed.

Lemma final_blocks_padding r bits :
  length r < 64 ->
  final_blocks r bits = r ++ [Byte.x80] ++ replicate (zeros (length r)) Byte.x00 ++ to_be_bytes 8 bits.
Proof.
  intros Hr. unfold final_blocks, copy_at. cbv zeta. rewrite take_0, Nat.add_0_l, drop_replicate. cbn [app].
  rewrite insert_app_r_alt, Nat.sub_diag by lia.
  replace (128 - length r) with (S (127 - length r)) by lia. cbn [replicate insert list_insert].
  unfold zeros. rewrite (Nat.mod_small (length r) 64) by lia.
  set (fl := if bool_decide (length r < 56) then 64 else 128).
  assert (exists z, fl - 8 = length r + S z /\ (119 - length r) mod 64 = z /\ z <= 127 - length r) as (z & Hfl & Hz & Hle).
  { exists (fl - 9 - length r). unfold fl. case_bool_decide.
    - replace (119 - length r) with (64 - 9 - length r + 1 * 64) by lia. rewrite Nat.Div0.mod_add, Nat.mod_small; lia.
    - rewrite Nat.mod_small; lia. }
  rewrite Hfl, Hz. replace fl with (length r + S z + 8) by lia.
  rewrite take_app_add, firstn_cons, take_replicate, Nat.min_l by done.
  rewrite (app_assoc _ (to_be_bytes 8 bits)), take_app_length'.
  - by rewrite <- app_assoc.
  - rewrite !length_app, to_be_bytes_length. cbn. rewrite length_replicate. lia.
Qed.

(** The whole chunks and the remainder of an input. *)
Lemma split_input bs :
  exists whole rest, bs = whole ++ rest /\ length whole = 64 * (length bs / 64) /\
    length rest = length bs mod 64 /\ chunks bs = (blocks whole, rest).
Proof.
  exists (take (64 * (length bs / 64)) bs), (drop (64 * (length bs / 64)) bs).
  pose proof (Nat.Div0.mul_div_le (length bs) 64). pose proof (Nat.div_mod_eq (length bs) 64).
  pose proof (Nat.mod_upper_bound (length bs) 64 ltac:(lia)).
  assert (length (take (64 * (length bs / 64)) bs) = 64 * (length bs / 64)) as Hw by (rewrite length_take; lia).
  split_and!; [by rewrite take_drop|done|rewrite length_drop; lia|].
  unfold chunks. rewrite as_chunks_blocks by done. f_equal.
  rewrite <- (take_drop (64 * (length bs / 64)) bs) at 1.
  rewrite (blocks_app (length bs / 64)), (blocks_short (drop _ _)), app_nil_r by (rewrite ?length_drop; lia). done.
Qed.

Lemma padded_split bs whole rest :
  bs = whole ++ rest -> length rest = length bs mod 64 ->
  padded bs = whole ++ final_blocks rest (bit_length bs).
Proof.
  intros Hbs Hr. pose proof (Nat.mod_upper_bound (length bs) 64 ltac:(lia)).
  rewrite final_blocks_padding by lia. unfold padded.
  assert (zeros (length bs) = zeros (length rest)) as -> by (unfold zeros; by rewrite Hr, Nat.Div0.mod_mod).
  assert (wrap64 (8 * blen bs) = bit_length bs) as ->.
  { unfold bit_length, wrap64. by rewrite Zmult_mod_idemp_l, Z.mul_comm. }
  rewrite Hbs at 1. by rewrite <- app_assoc.
Qed.

Lemma compress_all_fips l st : fold_left sha256_compress l st = fold_left fips_step l st.
Proof. apply fold_left_same. intros. apply compress_fips. Qed.

(** C23. The digest is SHA-256 as published (FIPS 180-4): processing whole
    chunks and then the buffered remainder is hashing the padded message block
    by block, the schedule filled in place is the published recurrence, and
    the rounds are the published rounds. *)
Theorem sha256_matches_fips bs : sha256_state bs = fips_sha256 bs.
Proof.
  destruct (split_input bs) as (whole & rest & Hbs & Hw & Hr & Hc).
  unfold sha256_state, fips_sha256. rewrite Hc, (padded_split bs whole rest Hbs Hr).
  unfold chunks. rewrite as_chunks_blocks by done.
  rewrite (blocks_app _ whole _ Hw), fold_left_app, !compress_all_fips. done.
Qed.

(** The zeros of the padding are the fewest that leave room for the length. *)
Lemma zeros_least n : (n + 1 + zeros n) mod 64 = 56 /\ forall k, (n + 1 + k) mod 64 = 56 -> zeros n <= k.
Proof.
  unfold zeros. pose proof (Nat.mod_upper_bound n 64 ltac:(lia)).
  pose proof (Nat.div_mod_eq n 64). set (q := n / 64) in *. set (m := n mod 64) in *.
  pose proof (Nat.div_mod_eq (119 - m) 64) as E. pose proof (Nat.mod_upper_bound (119 - m) 64 ltac:(lia)).
  split.
  - replace (n + 1 + (119 - m) mod 64) with (56 + (q + 1 - (119 - m) / 64) * 64) by lia.
    by rewrite Nat.Div0.mod_add.
  - intros k Hk. pose proof (Nat.div_mod_eq (n + 1 + k) 64). lia.
Qed.

(** ** Constants *)

Definition primes : list Z :=
  filter (fun p => forallb (fun d => negb (p mod d =? 0)%Z) (map Z.of_nat (seq 2 (Z.to_nat p - 2))) = true)
    (map Z.of_nat (seq 2 310)).

(** The first 32 bits of the fractional part of the [k]-th root of [p]. *)
Definition is_root_fraction (k : Z) (p c : Z) : Prop :=
  exists whole, (0 <= c < 2 ^ 32)%Z /\
    ((whole * 2 ^ 32 + c) ^ k <= p * 2 ^ (32 * k) < (whole * 2 ^ 32 + c + 1) ^ k)%Z.

(** Looks for the whole part below 20. *)
Definition root_fraction_check (k p c : Z) : bool :=
  existsb (fun n => let x := (Z.of_nat n * 2 ^ 32 + c)%Z in
    (0 <=? c)%Z && (c <? 2 ^ 32)%Z && (x ^ k <=? p * 2 ^ (32 * k))%Z && (p * 2 ^ (32 * k) <? (x + 1) ^ k)%Z)
    (seq 0 20).

Lemma root_fraction_check_ok k p c : root_fraction_check k p c = true -> is_root_fraction k p c.
Proof.
  unfold root_fraction_check. intros (n & _ & Hn)%existsb_exists_iff. bool_to_prop. by exists (Z.of_nat n).
Qed.

Lemma root_fractions k ps cs :
  length ps = length cs -> forallb (fun pc => root_fraction_check k (fst pc) (snd pc)) (zip ps cs) = true ->
  Forall2 (is_root_fraction k) ps cs.
Proof.
  revert cs. induction ps as [|p ps IH]; intros [|c cs] Hl Hc; try done.
  apply andb_true_iff in Hc as [Hc Hcs]. constructor; [by apply root_fraction_check_ok|].
  apply IH; [by injection Hl|exact Hcs].
Qed.

(** The constants are the published ones: the initial state are the first
    32 bits of the fractional parts of the square roots of the first eight
    primes, the round constants those of the cube roots of the first 64. *)
Lemma sha256_constants :
  Forall2 (is_root_fraction 2) (take 8 primes) INITIAL /\
  Forall2 (is_root_fraction 3) primes ROUND_CONSTANTS.
Proof. split; apply root_fractions; vm_compute; reflexivity. Qed.

(** ** The text of a digest *)

Definition lower_hex (b : byte) : bool :=
  ((48 <=? bval b) && (bval b <=? 57) || (97 <=? bval b) && (bval b <=? 102))%Z.

Lemma byte_of_Z_val z : (0 <= z < 256)%Z -> bval (byte_of_Z z) = z.
Proof.
  intros Hz. unfold byte_of_Z, bval. rewrite Z.mod_small by lia.
  destruct (Byte.of_N (Z.to_N z)) as [b|] eqn:E; cbn.
  - apply Byte.to_of_N in E. rewrite E. lia.
  - apply Byte.of_N_None_iff in E. lia.
Qed.

Lemma hex_digit_lower d : (0 <= d < 16)%Z -> lower_hex (hex_digit d) = true.
Proof.
  intros Hd. unfold lower_hex, hex_digit. destruct (Z.ltb_spec d 10); rewrite byte_of_Z_val by lia;
    apply orb_true_iff; [left|right]; apply andb_true_iff; split; apply Z.leb_le; lia.
Qed.

Lemma hex_lower n z : length (hex n z) = n /\ Forall (fun b => lower_hex b = true) (hex n z).
Proof.
  revert z. induction n as [|n IH]; intros z; [by split|]. cbn. destruct (IH (z / 16)%Z) as [Hl Hf]. split.
  - rewrite length_app, Hl. cbn. lia.
  - apply Forall_app. split; [done|]. repeat constructor. apply hex_digit_lower, Z.mod_pos_bound. lia.
Qed.

Lemma compress_length state b : length state = 8 -> length (sha256_compress state b) = 8.
Proof.
  intros Hl. unfold sha256_compress. destruct (fold_left _ _ _) as [[[[[[[? ?] ?] ?] ?] ?] ?] ?].
  rewrite length_map, length_zip_with, Hl. done.
Qed.

Lemma compress_all_length l state : length state = 8 -> length (fold_left sha256_compress l state) = 8.
Proof. intros Hl. apply (fold_left_keeps (fun state => length state = 8)); [exact Hl|apply compress_length]. Qed.

Lemma sha256_state_length bs : length (sha256_state bs) = 8.
Proof. unfold sha256_state. destruct (chunks bs). by repeat apply compress_all_length. Qed.

(** A digest is 64 lower-case hexadecimal digits. *)
Lemma sha256_hex_text bs :
  length (s2b (sha256_hex bs)) = 64 /\ Forall (fun b => lower_hex b = true) (s2b (sha256_hex bs)).
Proof.
  unfold sha256_hex. rewrite s2b_b2s.
  pose proof (sha256_state_length bs) as Hl.
  assert (forall l, length (concat (map (hex 8) l)) = 8 * length l /\
                    Forall (fun b => lower_hex b = true) (concat (map (hex 8) l))) as Hc.
  { induction l as [|w l [IH1 IH2]]; [by split|]. cbn [map concat length].
    destruct (hex_lower 8 w). rewrite length_app. split; [lia|by apply Forall_app]. }
  destruct (Hc (sha256_state bs)). rewrite Hl in *. done.
Qed.

(** Published test vectors. *)
Example sha256_abc :
  sha256_hex (s2b "abc") = "ba7816bf8f01cfea414140de5dae2223b00361a396177a9cb410ff61f20015ad".
Proof. vm_compute. reflexivity. Qed.

Example sha256_two_blocks :
  sha256_hex (s2b "abcdbcdecdefdefgefghfghighijhijkijkljklmklmnlmnomnopnopq") =
  "248d6a61d20638b8e5c026930c3e6039a33ce45964ff2167f6ecedd419db06c1".
Proof. vm_compute. reflexivity. Qed.

End Sha256.
