(* ===== verification/Utf8.v ===== *)
(** * UTF-8 text

    The part of Rust's [str] the sources use: well-formedness
    ([std::str::from_utf8]), the decomposition of a string into its characters
    ([chars], [char_indices]), character boundaries ([is_char_boundary]) and
    the truncations built from them.  A character is represented by its UTF-8
    encoding, so [len_utf8] is its length. *)

From S2P Require Import Prelude.

(** ** Characters of a byte sequence *)

(** Continuation bytes [10xxxxxx]; [is_char_boundary] tests exactly this. *)
Definition is_cont (b : byte) : bool := (128 <=? bval b)%Z && (bval b <=? 191)%Z.

Abbreviation char := (list byte).

(** Characters start at the bytes that are not continuation bytes. *)
Fixpoint split_chars (bs : list byte) : list char :=
  match bs with
  | [] => []
  | b :: bs' =>
      match split_chars bs' with
      | (b' :: c) :: cs => if is_cont b' then (b :: b' :: c) :: cs else [b] :: (b' :: c) :: cs
      | cs => [b] :: cs
      end
  end.

Definition chars (s : string) : list char := split_chars (s2b s).

Definition len_utf8 (c : char) : nat := length c.

Definition of_chars (cs : list char) : string := b2s (concat cs).

(** ** Well-formedness: [std::str::from_utf8] (Unicode table 3-7) *)

Definition in_range (lo hi : Z) (b : byte) : bool := (lo <=? bval b)%Z && (bval b <=? hi)%Z.

Definition wf_char1 (b0 : byte) : bool := in_range 0 127 b0.
Definition wf_char2 (b0 b1 : byte) : bool := in_range 194 223 b0 && is_cont b1.
Definition wf_char3 (b0 b1 b2 : byte) : bool :=
  is_cont b2 &&
  ((in_range 224 224 b0 && in_range 160 191 b1)
   || (in_range 225 236 b0 && is_cont b1)
   || (in_range 237 237 b0 && in_range 128 159 b1)
   || (in_range 238 239 b0 && is_cont b1)).
Definition wf_char4 (b0 b1 b2 b3 : byte) : bool :=
  is_cont b2 && is_cont b3 &&
  ((in_range 240 240 b0 && in_range 144 191 b1)
   || (in_range 241 243 b0 && is_cont b1)
   || (in_range 244 244 b0 && in_range 128 143 b1)).

Definition wf_char (c : char) : bool :=
  match c with
  | [b0] => wf_char1 b0
  | [b0; b1] => wf_char2 b0 b1
  | [b0; b1; b2] => wf_char3 b0 b1 b2
  | [b0; b1; b2; b3] => wf_char4 b0 b1 b2 b3
  | _ => false
  end.

Fixpoint utf8_valid (bs : list byte) : bool :=
  match bs with
  | [] => true
  | b0 :: r0 =>
      if wf_char1 b0 then utf8_valid r0 else
      match r0 with
      | [] => false
      | b1 :: r1 =>
          if wf_char2 b0 b1 then utf8_valid r1 else
          match r1 with
          | [] => false
          | b2 :: r2 =>
              if wf_char3 b0 b1 b2 then utf8_valid r2 else
              match r2 with
              | [] => false
              | b3 :: r3 => if wf_char4 b0 b1 b2 b3 then utf8_valid r3 else false
              end
          end
      end
  end.

Definition str_valid (s : string) : bool := utf8_valid (s2b s).

(** ** Indices and boundaries *)

(** [char_indices]: each character with its byte offset. *)
Fixpoint indices_from (off : nat) (cs : list char) : list (nat * char) :=
  match cs with
  | [] => []
  | c :: cs' => (off, c) :: indices_from (off + length c) cs'
  end.

Definition char_indices (s : string) : list (nat * char) := indices_from 0 (chars s).

(** [&s[..i]]. *)
Definition str_take (i : nat) (s : string) : string := b2s (take i (s2b s)).

Definition is_char_boundary (bs : list byte) (i : nat) : bool :=
  match i with
  | O => true
  | _ => match bs !! i with
         | Some b => negb (is_cont b)
         | None => bool_decide (i = length bs)
         end
  end.

(** [while !value.is_char_boundary(end) { end -= 1; }]. *)
Fixpoint floor_boundary (bs : list byte) (i : nat) : nat :=
  match i with
  | O => O
  | S i' => if is_char_boundary bs i then i else floor_boundary bs i'
  end.

(** [String::from_utf8_lossy]: each maximal ill-formed piece becomes U+FFFD. *)
Definition replacement : list byte := [Byte.xef; Byte.xbf; Byte.xbd].

Definition second3_ok (b0 b1 : byte) : bool :=
  (in_range 224 224 b0 && in_range 160 191 b1)
  || (in_range 225 236 b0 && is_cont b1)
  || (in_range 237 237 b0 && in_range 128 159 b1)
  || (in_range 238 239 b0 && is_cont b1).
Definition second4_ok (b0 b1 : byte) : bool :=
  (in_range 240 240 b0 && in_range 144 191 b1)
  || (in_range 241 243 b0 && is_cont b1)
  || (in_range 244 244 b0 && in_range 128 143 b1).

Fixpoint from_utf8_lossy (bs : list byte) : list byte :=
  match bs with
  | [] => []
  | b0 :: r0 =>
      if wf_char1 b0 then b0 :: from_utf8_lossy r0 else
      match r0 with
      | [] => replacement
      | b1 :: r1 =>
          if wf_char2 b0 b1 then b0 :: b1 :: from_utf8_lossy r1 else
          if second3_ok b0 b1 then
            match r1 with
            | [] => replacement
            | b2 :: r2 =>
                if is_cont b2 then b0 :: b1 :: b2 :: from_utf8_lossy r2
                else replacement ++ from_utf8_lossy r1
            end
          else if second4_ok b0 b1 then
            match r1 with
            | [] => replacement
            | b2 :: r2 =>
                if is_cont b2 then
                  match r2 with
                  | [] => replacement
                  | b3 :: r3 =>
                      if is_cont b3 then b0 :: b1 :: b2 :: b3 :: from_utf8_lossy r3
                      else replacement ++ from_utf8_lossy r2
                  end
                else replacement ++ from_utf8_lossy r1
            end
          else replacement ++ from_utf8_lossy r0
      end
  end.

(** ASCII character classes, on a character's encoding. *)
Definition is_ascii (c : char) : bool :=
  match c with [b] => in_range 0 127 b | _ => false end.
Definition is_ascii_graphic (c : char) : bool :=
  match c with [b] => in_range 33 126 b | _ => false end.
Definition is_ascii_control (c : char) : bool :=
  match c with [b] => in_range 0 31 b || in_range 127 127 b | _ => false end.

Definition is_ascii_alphanumeric (b : byte) : bool :=
  in_range 48 57 b || in_range 65 90 b || in_range 97 122 b.

(** [str::to_ascii_lowercase]. *)
Definition ascii_lower (b : byte) : byte :=
  if in_range 65 90 b then default b (Byte.of_N (Byte.to_N b + 32)) else b.
Definition to_ascii_lowercase (s : string) : string := b2s (map ascii_lower (s2b s)).

(** [str::eq_ignore_ascii_case]. *)
Definition eq_ignore_ascii_case (a b : string) : bool :=
  str_eqb (to_ascii_lowercase a) (to_ascii_lowercase b).

(** Decimal digits, as [str::parse] reads them. *)
Fixpoint digits_value (acc : Z) (bs : list byte) : option Z :=
  match bs with
  | [] => Some acc
  | b :: bs' => if in_range 48 57 b then digits_value (acc * 10 + (bval b - 48)) bs' else None
  end.

Definition parse_digits (bs : list byte) : option Z :=
  match bs with [] => None | _ => digits_value 0 bs end.

(** [char::is_control]: U+0000 to U+001F and U+007F to U+009F. *)
Definition is_control (c : char) : bool :=
  match c with
  | [b] => in_range 0 31 b || in_range 127 127 b
  | [b0; b1] => in_range 194 194 b0 && in_range 128 159 b1
  | _ => false
  end.

(** [char::is_whitespace]: the White_Space property of Unicode. *)
Definition is_whitespace (c : char) : bool :=
  match c with
  | [b] => in_range 9 13 b || in_range 32 32 b
  | [b0; b1] => in_range 194 194 b0 && (in_range 133 133 b1 || in_range 160 160 b1)
  | [b0; b1; b2] =>
      (in_range 225 225 b0 && in_range 154 154 b1 && in_range 128 128 b2)
      || (in_range 226 226 b0 && in_range 128 128 b1
          && (in_range 128 138 b2 || in_range 168 169 b2 || in_range 175 175 b2))
      || (in_range 226 226 b0 && in_range 129 129 b1 && in_range 159 159 b2)
      || (in_range 227 227 b0 && in_range 128 128 b1 && in_range 128 128 b2)
  | _ => false
  end.

(** [str::trim_matches] with a character predicate, and [str::trim]. *)
Fixpoint trim_start_matches (p : char -> bool) (cs : list char) : list char :=
  match cs with
  | [] => []
  | c :: cs' => if p c then trim_start_matches p cs' else cs
  end.
Definition trim_chars (p : char -> bool) (cs : list char) : list char :=
  rev (trim_start_matches p (rev (trim_start_matches p cs))).
Definition trim (s : string) : string := of_chars (trim_chars is_whitespace (chars s)).

(** ** Lemmas *)

Lemma concat_split_chars bs : concat (split_chars bs) = bs.
Proof.
  induction bs as [|b bs IH]; [done|]. cbn.
  destruct (split_chars bs) as [|[|b' c] cs]; cbn in *; [congruence..|].
  destruct (is_cont b'); cbn; congruence.
Qed.

Lemma of_chars_chars s : of_chars (chars s) = s.
Proof. unfold of_chars, chars. by rewrite concat_split_chars, b2s_s2b. Qed.

Lemma split_chars_nonempty bs c : c ∈ split_chars bs -> c <> [].
Proof.
  revert c. induction bs as [|b bs IH]; intros c; cbn; [by inversion 1|].
  destruct (split_chars bs) as [|[|b' d] ds]; [intros ->%list_elem_of_singleton; done|..].
  - rewrite elem_of_cons. intros [->|H]; [done|by apply IH].
  - destruct (is_cont b'); rewrite !elem_of_cons; intros H.
    + destruct H as [->|H]; [done|]. apply IH. by right.
    + destruct H as [->|[->|H]]; [done..|apply IH; by right].
Qed.

(** The first character of a nonempty sequence starts with its first byte. *)
Lemma split_chars_head b bs :
  exists c cs, split_chars (b :: bs) = (b :: c) :: cs.
Proof.
  cbn. destruct (split_chars bs) as [|[|b' c] cs]; [by eexists _, _..|].
  destruct (is_cont b'); by eexists _, _.
Qed.

(** The lead byte determines the width of a well-formed character. *)
Lemma in_range_iff lo hi b : in_range lo hi b = true <-> (lo <= bval b <= hi)%Z.
Proof. unfold in_range. rewrite andb_true_iff, !Z.leb_le. done. Qed.

Lemma is_cont_iff b : is_cont b = true <-> (128 <= bval b <= 191)%Z.
Proof. apply in_range_iff. Qed.

Lemma not_cont_of b : (bval b < 128 \/ 191 < bval b)%Z -> is_cont b = false.
Proof. intros H. destruct (is_cont b) eqn:E; [|done]. apply is_cont_iff in E. lia. Qed.

Lemma wf_char1_lead b0 : wf_char1 b0 = true -> (bval b0 <= 127)%Z.
Proof. unfold wf_char1. rewrite in_range_iff. lia. Qed.

Lemma wf_char2_lead b0 b1 :
  wf_char2 b0 b1 = true -> (194 <= bval b0 <= 223)%Z /\ is_cont b1 = true.
Proof. unfold wf_char2. rewrite andb_true_iff, in_range_iff. done. Qed.

Lemma wf_char3_lead b0 b1 b2 :
  wf_char3 b0 b1 b2 = true ->
  (224 <= bval b0 <= 239)%Z /\ is_cont b1 = true /\ is_cont b2 = true.
Proof.
  unfold wf_char3. rewrite andb_true_iff, !orb_true_iff, !andb_true_iff, !in_range_iff, !is_cont_iff.
  lia.
Qed.

Lemma wf_char4_lead b0 b1 b2 b3 :
  wf_char4 b0 b1 b2 b3 = true ->
  (240 <= bval b0 <= 244)%Z /\ is_cont b1 = true /\ is_cont b2 = true /\ is_cont b3 = true.
Proof.
  unfold wf_char4. rewrite !andb_true_iff, !orb_true_iff, !andb_true_iff, !in_range_iff, !is_cont_iff.
  lia.
Qed.

Ltac wf_leads :=
  repeat match goal with
  | H : wf_char1 _ = true |- _ => apply wf_char1_lead in H
  | H : wf_char2 _ _ = true |- _ => apply wf_char2_lead in H as [? _]
  | H : wf_char3 _ _ _ = true |- _ => apply wf_char3_lead in H as [? _]
  | H : wf_char4 _ _ _ _ = true |- _ => apply wf_char4_lead in H as [? _]
  end.

(** A character never starts with a continuation byte, and continues with
    continuation bytes only. *)
Lemma wf_char_shape c :
  wf_char c = true ->
  exists b rest, c = b :: rest /\ is_cont b = false /\ Forall (fun x => is_cont x = true) rest.
Proof.
  intros H. destruct c as [|b0 [|b1 [|b2 [|b3 [|]]]]]; try done; cbn in H.
  all: eexists _, _; split; [reflexivity|].
  - apply wf_char1_lead in H. split; [by apply not_cont_of; lia|done].
  - apply wf_char2_lead in H as [? ?]. split; [by apply not_cont_of; lia|by repeat constructor].
  - apply wf_char3_lead in H as (? & ? & ?).
    split; [by apply not_cont_of; lia|by repeat constructor].
  - apply wf_char4_lead in H as (? & ? & ? & ?).
    split; [by apply not_cont_of; lia|by repeat constructor].
Qed.

Lemma wf_char_length c : wf_char c = true -> 1 <= length c <= 4.
Proof. destruct c as [|b0 [|b1 [|b2 [|b3 [|]]]]]; cbn; try done; lia. Qed.

Lemma split_chars_cons_char b rest bs :
  Forall (fun x => is_cont x = true) rest ->
  (forall b', head bs = Some b' -> is_cont b' = false) ->
  split_chars (b :: rest ++ bs) = (b :: rest) :: split_chars bs.
Proof.
  revert b. induction rest as [|r rest IH]; intros b Hr Hb; cbn [app].
  - destruct bs as [|b' bs]; [done|].
    destruct (split_chars_head b' bs) as (c & cs & E).
    cbn [split_chars] in *. rewrite E. by rewrite (Hb b').
  - inversion Hr as [|? ? Hcr Hrest]; subst.
    pose proof (IH r Hrest Hb) as E. cbn [split_chars] in *. rewrite E, Hcr. done.
Qed.

Lemma split_chars_concat cs :
  Forall (fun c => wf_char c = true) cs -> split_chars (concat cs) = cs.
Proof.
  induction 1 as [|c cs Hc Hcs IH]; [done|]. cbn [concat].
  apply wf_char_shape in Hc as (b & rest & -> & Hb & Hr). cbn [app].
  rewrite split_chars_cons_char; [by rewrite IH|done|].
  intros b' Hb'. destruct Hcs as [|d ds Hd _]; [done|].
  apply wf_char_shape in Hd as (b2 & rest2 & -> & Hb2 & _). cbn in Hb'. congruence.
Qed.

Lemma utf8_valid_app c bs :
  wf_char c = true -> utf8_valid bs = true -> utf8_valid (c ++ bs) = true.
Proof.
  intros Hc Hbs.
  destruct c as [|b0 [|b1 [|b2 [|b3 [|]]]]]; cbn in Hc |- *; try done.
  - by rewrite Hc.
  - destruct (wf_char1 b0) eqn:?; [wf_leads; lia|]. by rewrite Hc.
  - destruct (wf_char1 b0) eqn:?; [wf_leads; lia|].
    destruct (wf_char2 b0 b1) eqn:?; [wf_leads; lia|]. by rewrite Hc.
  - destruct (wf_char1 b0) eqn:?; [wf_leads; lia|].
    destruct (wf_char2 b0 b1) eqn:?; [wf_leads; lia|].
    destruct (wf_char3 b0 b1 b2) eqn:?; [wf_leads; lia|]. by rewrite Hc.
Qed.

Lemma utf8_valid_chars bs :
  utf8_valid bs = true -> exists cs, bs = concat cs /\ Forall (fun c => wf_char c = true) cs.
Proof.
  induction bs as [bs IH] using (induction_ltof1 _ (@length byte)). unfold ltof in IH.
  destruct bs as [|b0 r0]; [by exists []|]. cbn. intros H.
  assert (Hstep : forall c rest, b0 :: r0 = c ++ rest -> c <> [] -> wf_char c = true ->
            utf8_valid rest = true ->
            exists cs, b0 :: r0 = concat cs /\ Forall (fun c => wf_char c = true) cs).
  { intros c rest Heq Hne Hc Hv. destruct (IH rest) as (cs & -> & Hcs); [|done|].
    - rewrite Heq, length_app. destruct c; [done|cbn; lia].
    - exists (c :: cs). split; [done|]. by constructor. }
  repeat case_match; simplify_eq; try done.
  - by apply (Hstep [b0] r0).
  - by eapply (Hstep [b0; _] _).
  - by eapply (Hstep [b0; _; _] _).
  - by eapply (Hstep [b0; _; _; _] _).
Qed.

Lemma utf8_valid_concat cs :
  Forall (fun c => wf_char c = true) cs -> utf8_valid (concat cs) = true.
Proof. induction 1 as [|c cs Hc _ IH]; [done|]. by apply utf8_valid_app. Qed.

(** Well-formedness is that every character is a well-formed encoding. *)
Lemma utf8_valid_iff bs :
  utf8_valid bs = true <-> Forall (fun c => wf_char c = true) (split_chars bs).
Proof.
  split.
  - intros (cs & -> & Hcs)%utf8_valid_chars. by rewrite split_chars_concat.
  - intros H. rewrite <- (concat_split_chars bs). by apply utf8_valid_concat.
Qed.

(** A character whose lead byte is ASCII is that byte. *)
Lemma wf_char_ascii x r : (bval x < 128)%Z -> wf_char (x :: r) = true -> r = [].
Proof.
  intros Hx H. destruct r as [|b1 [|b2 [|b3 [|]]]]; cbn in H; try done; wf_leads; lia.
Qed.

(** Text cuts at an ASCII byte. *)
Lemma utf8_valid_ascii_split a x b :
  (bval x < 128)%Z -> utf8_valid (a ++ x :: b) = true ->
  utf8_valid a = true /\ utf8_valid b = true.
Proof.
  intros Hx (cs & Hcs & Hwf)%utf8_valid_chars. revert a Hcs.
  induction Hwf as [|c cs Hc Hwf IH]; intros a Hcs; cbn in Hcs.
  { by destruct a. }
  apply app_eq_inv in Hcs as [(k & -> & Hk)|(k & -> & Hk)].
  - destruct (IH k) as [Hv Hb]; [done|]. split; [by apply utf8_valid_app|done].
  - destruct k as [|y k]; cbn in Hk.
    + destruct (IH []) as [_ Hb]; [done|]. rewrite app_nil_r in Hc.
      split; [|done]. rewrite <- (app_nil_r a). by apply utf8_valid_app.
    + injection Hk as -> ->. destruct a as [|a0 a]; cbn [app] in Hc.
      * apply wf_char_ascii in Hc as ->; [|done]. cbn. split; [done|]. by apply utf8_valid_concat.
      * apply wf_char_shape in Hc as (? & ? & [= <- <-] & _ & Hr).
        rewrite Forall_app, Forall_cons in Hr. destruct Hr as (_ & Hxc & _).
        apply is_cont_iff in Hxc. lia.
Qed.

Lemma utf8_valid_app_ok a b :
  utf8_valid a = true -> utf8_valid b = true -> utf8_valid (a ++ b) = true.
Proof.
  intros (cs & -> & Ha)%utf8_valid_chars Hb.
  induction Ha as [|c cs Hc _ IH]; cbn; [done|]. rewrite <- app_assoc. by apply utf8_valid_app.
Qed.

(** The lossy decoding is always well formed, and exact on well-formed input. *)
Lemma from_utf8_lossy_valid bs : utf8_valid (from_utf8_lossy bs) = true.
Proof.
  induction bs as [bs IH] using (induction_ltof1 _ (@length byte)). unfold ltof in IH.
  assert (forall r, length r < length bs -> utf8_valid (replacement ++ from_utf8_lossy r) = true)
    as Hrep by (intros r Hr; apply (utf8_valid_app replacement); [done|by apply IH]).
  assert (forall c r, wf_char c = true -> length r < length bs ->
            utf8_valid (c ++ from_utf8_lossy r) = true)
    as Hkeep by (intros c r Hc Hr; apply utf8_valid_app; [done|by apply IH]).
  destruct bs as [|b0 r0]; [done|]. cbn [from_utf8_lossy].
  destruct (wf_char1 b0) eqn:H1; [apply (Hkeep [b0]); [done|cbn; lia]|].
  destruct r0 as [|b1 r1]; [done|].
  destruct (wf_char2 b0 b1) eqn:H2; [apply (Hkeep [b0; b1]); [done|cbn; lia]|].
  destruct (second3_ok b0 b1) eqn:H3.
  { destruct r1 as [|b2 r2]; [done|]. destruct (is_cont b2) eqn:Hb2; [|apply Hrep; cbn; lia].
    apply (Hkeep [b0; b1; b2]); [|cbn; lia]. cbn. unfold wf_char3. by rewrite Hb2. }
  destruct (second4_ok b0 b1) eqn:H4; [|apply Hrep; cbn; lia].
  destruct r1 as [|b2 r2]; [done|]. destruct (is_cont b2) eqn:Hb2; [|apply Hrep; cbn; lia].
  destruct r2 as [|b3 r3]; [done|]. destruct (is_cont b3) eqn:Hb3; [|apply Hrep; cbn; lia].
  apply (Hkeep [b0; b1; b2; b3]); [|cbn; lia]. cbn. unfold wf_char4. by rewrite Hb2, Hb3.
Qed.

Lemma from_utf8_lossy_id bs : utf8_valid bs = true -> from_utf8_lossy bs = bs.
Proof.
  intros (cs & -> & Hcs)%utf8_valid_chars.
  induction Hcs as [|c cs Hc _ IH]; [done|]. cbn [concat].
  destruct c as [|b0 [|b1 [|b2 [|b3 [|]]]]]; try done; cbn in Hc; cbn [app from_utf8_lossy].
  - by rewrite Hc, IH.
  - destruct (wf_char1 b0) eqn:?; [wf_leads; lia|]. by rewrite Hc, IH.
  - destruct (wf_char1 b0) eqn:?; [wf_leads; lia|].
    destruct (wf_char2 b0 b1) eqn:?; [wf_leads; lia|].
    unfold wf_char3 in Hc. apply andb_true_iff in Hc as [Hb Hs].
    unfold second3_ok. by rewrite Hs, Hb, IH.
  - destruct (wf_char1 b0) eqn:?; [wf_leads; lia|].
    destruct (wf_char2 b0 b1) eqn:?; [wf_leads; lia|].
    pose proof (wf_char4_lead _ _ _ _ Hc) as [Hl _].
    destruct (second3_ok b0 b1) eqn:H3.
    { unfold second3_ok in H3. rewrite !orb_true_iff, !andb_true_iff, !in_range_iff in H3. lia. }
    unfold wf_char4 in Hc. rewrite !andb_true_iff in Hc. destruct Hc as [[Hb2 Hb3] Hs].
    unfold second4_ok. by rewrite Hs, Hb2, Hb3, IH.
Qed.

Lemma chars_of_chars cs :
  Forall (fun c => wf_char c = true) cs -> chars (of_chars cs) = cs.
Proof. intros H. unfold chars, of_chars. rewrite s2b_b2s. by apply split_chars_concat. Qed.

Lemma chars_wf s : str_valid s = true -> Forall (fun c => wf_char c = true) (chars s).
Proof. apply utf8_valid_iff. Qed.

Lemma of_chars_valid cs :
  Forall (fun c => wf_char c = true) cs -> str_valid (of_chars cs) = true.
Proof. intros H. unfold str_valid, of_chars. rewrite s2b_b2s. by apply utf8_valid_concat. Qed.

Lemma slen_of_chars cs : slen (of_chars cs) = Z.of_nat (length (concat cs)).
Proof. unfold slen, of_chars. by rewrite s2b_b2s. Qed.

Lemma length_chars_le s : (Z.of_nat (length (chars s)) <= slen s)%Z.
Proof.
  assert (slen s = Z.of_nat (length (concat (chars s)))) as ->.
  { unfold slen, blen, chars. by rewrite concat_split_chars. }
  assert (forall c, c ∈ chars s -> c <> []) as H by (intros c; apply split_chars_nonempty).
  induction (chars s) as [|c cs IH]; cbn; [lia|]. rewrite length_app.
  assert (c <> []) by (apply H; by left). destruct c; [done|]. cbn.
  assert (Z.of_nat (length cs) <= Z.of_nat (length (concat cs)))%Z; [|lia].
  apply IH. intros d Hd. apply H. by right.
Qed.

Lemma indices_from_lookup off cs n :
  indices_from off cs !! n = (fun c => (off + length (concat (take n cs)), c)) <$> cs !! n.
Proof.
  revert off n. induction cs as [|c cs IH]; intros off [|n]; cbn; [done|done| |].
  - by rewrite Nat.add_0_r.
  - rewrite IH. destruct (cs !! n); cbn; [|done]. rewrite length_app. do 2 f_equal. lia.
Qed.

Lemma take_concat_prefix {A} n (cs : list (list A)) :
  take (length (concat (take n cs))) (concat cs) = concat (take n cs).
Proof.
  rewrite <- (take_drop n cs) at 2. rewrite concat_app. by rewrite take_app_length.
Qed.

(** The byte prefix up to the [n]-th character holds its first [n] characters. *)
Lemma str_take_nth_char s n off c :
  char_indices s !! n = Some (off, c) -> str_take off s = of_chars (take n (chars s)).
Proof.
  unfold char_indices. rewrite indices_from_lookup. cbn.
  destruct (chars s !! n) eqn:E; cbn; [|done]. intros [= <- <-].
  unfold str_take, of_chars. f_equal.
  rewrite <- (concat_split_chars (s2b s)). apply take_concat_prefix.
Qed.

Lemma char_indices_nth_None s n :
  char_indices s !! n = None <-> length (chars s) <= n.
Proof.
  unfold char_indices. rewrite indices_from_lookup.
  rewrite fmap_None. apply lookup_ge_None.
Qed.

Lemma floor_boundary_le bs i : floor_boundary bs i <= i.
Proof. induction i as [|i IH]; cbn -[is_char_boundary]; [lia|]. case_match; lia. Qed.

Lemma floor_boundary_is_boundary bs i : is_char_boundary bs (floor_boundary bs i) = true.
Proof. induction i as [|i IH]; cbn -[is_char_boundary]; [done|]. by case_match. Qed.

#[export] Hint Resolve chars_wf of_chars_valid chars_of_chars : agent.

(** ** Trimming *)

Lemma trim_start_nil p cs : trim_start_matches p cs = [] <-> Forall (fun c => p c = true) cs.
Proof.
  induction cs as [|c cs IH]; [done|]. cbn. rewrite Forall_cons.
  destruct (p c); [rewrite IH; intuition|]. split; [done|intros [? _]; done].
Qed.

Lemma trim_chars_nil p cs : trim_chars p cs = [] <-> Forall (fun c => p c = true) cs.
Proof.
  unfold trim_chars. split.
  - intros H%(f_equal (@rev _)). rewrite rev_involutive in H. apply trim_start_nil in H.
    rewrite Forall_forall in H. destruct (trim_start_matches p cs) as [|c r] eqn:E.
    { by apply trim_start_nil. }
    exfalso. assert (p c = false) as Hc.
    { clear H. induction cs as [|d cs IH]; [done|]. cbn in E. destruct (p d) eqn:Ed; [by apply IH|].
      by injection E as -> ->. }
    specialize (H c). rewrite Hc in H. discriminate H.
    cbn. apply elem_of_app. right. by left.
  - intros H%trim_start_nil. by rewrite H.
Qed.

Lemma elem_of_trim_start p cs c : c ∈ trim_start_matches p cs -> c ∈ cs.
Proof. induction cs as [|d cs IH]; [done|]. cbn. case_match; [|done]. right. by apply IH. Qed.

Lemma elem_of_trim p cs c : c ∈ trim_chars p cs -> c ∈ cs.
Proof.
  unfold trim_chars. intros Hin%list_elem_of_In%in_rev%list_elem_of_In%elem_of_trim_start.
  apply list_elem_of_In, in_rev, list_elem_of_In in Hin. by apply elem_of_trim_start in Hin.
Qed.

(** A string is blank exactly when it is made of white space. *)
Lemma trim_empty s : trim s = EmptyString <-> Forall (fun c => is_whitespace c = true) (chars s).
Proof.
  rewrite <- trim_chars_nil. unfold trim, of_chars. split; [|by intros ->].
  intros E%(f_equal s2b). rewrite s2b_b2s in E. change (s2b EmptyString) with (@nil byte) in E.
  destruct (trim_chars is_whitespace (chars s)) as [|c cs] eqn:Ec; [done|]. exfalso.
  cbn [concat] in E. apply app_eq_nil in E as [-> _].
  assert ([] ∈ chars s) as Hin by (apply (elem_of_trim is_whitespace); rewrite Ec; by left).
  by apply split_chars_nonempty in Hin.
Qed.

(** ** Cutting at a boundary keeps text well formed *)

Lemma boundary_app c bs i :
  wf_char c = true -> is_char_boundary (c ++ bs) i = true ->
  i = 0 \/ (length c <= i /\ is_char_boundary bs (i - length c) = true).
Proof.
  intros Hc Hb. destruct i as [|i]; [by left|right].
  destruct (wf_char_shape c Hc) as (b & rest & -> & _ & Hr). unfold is_char_boundary in Hb.
  change (((b :: rest) ++ bs) !! S i) with ((rest ++ bs) !! i) in Hb. cbn [length].
  destruct (decide (i < length rest)) as [Hlt|Hge].
  { exfalso. destruct (lookup_lt_is_Some_2 rest i Hlt) as [x Hx].
    rewrite lookup_app_l, Hx in Hb by done. rewrite Forall_forall in Hr.
    apply list_elem_of_lookup_2, Hr in Hx. by rewrite Hx in Hb. }
  split; [lia|]. replace (S i - S (length rest)) with (i - length rest) by lia.
  rewrite lookup_app_r in Hb by lia. unfold is_char_boundary.
  destruct (i - length rest) as [|k] eqn:E; [done|].
  destruct (bs !! S k); [done|]. apply bool_decide_eq_true in Hb. apply bool_decide_eq_true.
  cbn [app length] in Hb. rewrite length_app in Hb. lia.
Qed.

Lemma take_boundary_valid bs i :
  utf8_valid bs = true -> is_char_boundary bs i = true -> utf8_valid (take i bs) = true.
Proof.
  intros (cs & -> & Hcs)%utf8_valid_chars. revert i. induction Hcs as [|c cs Hc _ IH]; intros i Hb.
  { cbn. by rewrite take_nil. }
  cbn [concat] in *. apply boundary_app in Hb as [-> | [Hle Hb]]; [done| |done].
  rewrite take_app_ge by done. apply utf8_valid_app; [done|]. by apply IH.
Qed.

Lemma cut_valid s i : str_valid s = true -> str_valid (str_take (floor_boundary (s2b s) i) s) = true.
Proof.
  unfold str_valid, str_take. rewrite s2b_b2s. intros Hs.
  apply take_boundary_valid; [done|]. apply floor_boundary_is_boundary.
Qed.
