(* ===== verification/Json.v ===== *)
(** * JSON and VM values ([src/domain.rs], value conversions)

    [serde_json::Value] without [preserve_order]: an object is the list of its
    fields in strictly increasing key order, as [BTreeMap] iterates them.
    [Value] of the RustScript VM is an opaque third-party type of which the
    sources use the variants; the order in which a VM map iterates its entries
    is a parameter.  Rendering JSON as text is [serde_json]'s, a parameter too. *)

From S2P Require Import Prelude Utf8.
From Stdlib Require Import SpecFloat.
From stdpp Require Import pretty.
From Stdlib Require Import Strings.Byte Strings.Ascii.

(** ** Strings in byte order *)

Fixpoint bytes_ltb (a b : list byte) : bool :=
  match a, b with
  | [], [] => false
  | [], _ :: _ => true
  | _ :: _, [] => false
  | x :: a', y :: b' =>
      if (bval x <? bval y)%Z then true
      else if (bval y <? bval x)%Z then false else bytes_ltb a' b'
  end.

Definition str_ltb (s t : string) : bool := bytes_ltb (s2b s) (s2b t).

Lemma bytes_ltb_irrefl a : bytes_ltb a a = false.
Proof. induction a as [|x a IH]; cbn; [done|]. by rewrite Z.ltb_irrefl. Qed.

Lemma bytes_ltb_trans a b c : bytes_ltb a b = true -> bytes_ltb b c = true -> bytes_ltb a c = true.
Proof.
  revert b c. induction a as [|x a IH]; intros [|y b] [|z c]; cbn; try done.
  intros H1 H2. repeat case_match; bool_to_prop; try done; try lia. by eapply IH.
Qed.

Lemma bytes_ltb_total a b : bytes_ltb a b = false -> bytes_ltb b a = false -> a = b.
Proof.
  revert b. induction a as [|x a IH]; intros [|y b]; cbn; try done.
  intros H1 H2. repeat case_match; bool_to_prop; try done; try lia.
  f_equal; [apply bval_inj; lia|by apply IH].
Qed.

Lemma str_ltb_irrefl s : str_ltb s s = false.
Proof. apply bytes_ltb_irrefl. Qed.

Lemma str_ltb_trans s t u : str_ltb s t = true -> str_ltb t u = true -> str_ltb s u = true.
Proof. apply bytes_ltb_trans. Qed.

Lemma str_ltb_total s t : str_ltb s t = false -> str_ltb t s = false -> s = t.
Proof. intros H1 H2. apply s2b_inj. by apply bytes_ltb_total. Qed.

Lemma str_ltb_asym s t : str_ltb s t = true -> str_ltb t s = false.
Proof.
  intros H. destruct (str_ltb t s) eqn:E; [|done].
  by rewrite <- (str_ltb_irrefl s), (str_ltb_trans s t s).
Qed.

(** ** Ordered maps with string keys: [serde_json::Map] *)

Section Obj.
Context {V : Type}.

Fixpoint obj_get (k : string) (m : list (string * V)) : option V :=
  match m with
  | [] => None
  | (k', v) :: m' => if str_eqb k k' then Some v else obj_get k m'
  end.

(** [Map::insert]. *)
Fixpoint obj_insert (k : string) (v : V) (m : list (string * V)) : list (string * V) :=
  match m with
  | [] => [(k, v)]
  | (k', v') :: m' =>
      if str_ltb k k' then (k, v) :: m
      else if str_eqb k k' then (k, v) :: m'
      else (k', v') :: obj_insert k v m'
  end.

(** [collect] into a map and the [json!({..})] literals: insertion in order. *)
Definition obj_of_list (l : list (string * V)) : list (string * V) :=
  fold_left (fun m kv => obj_insert (fst kv) (snd kv) m) l [].

Definition obj_remove (k : string) (m : list (string * V)) : list (string * V) :=
  List.filter (fun kv => negb (str_eqb k (fst kv))) m.

Fixpoint obj_sorted (m : list (string * V)) : bool :=
  match m with
  | [] => true
  | (k, _) :: m' =>
      match m' with
      | [] => true
      | (k', _) :: _ => str_ltb k k' && obj_sorted m'
      end
  end.

Lemma obj_sorted_cons k v m :
  obj_sorted ((k, v) :: m) = true <->
  Forall (fun kv => str_ltb k (fst kv) = true) m /\ obj_sorted m = true.
Proof.
  revert k v. induction m as [|[k' v'] m IH]; intros k v; [done|].
  change (obj_sorted ((k, v) :: (k', v') :: m))
    with (str_ltb k k' && obj_sorted ((k', v') :: m)).
  rewrite andb_true_iff, Forall_cons. cbn [fst]. split.
  - intros [Hk Hs]. split; [|done]. split; [done|]. apply IH in Hs as [Hs _].
    eapply Forall_impl; [exact Hs|]. cbn. intros [k2 v2]. by apply str_ltb_trans.
  - intros [[Hk _] Hs]. done.
Qed.

Lemma obj_insert_keys k v m kv :
  kv ∈ obj_insert k v m -> kv = (k, v) \/ kv ∈ m.
Proof.
  induction m as [|[k' v'] m IH]; cbn.
  - rewrite list_elem_of_singleton. auto.
  - repeat case_match; rewrite !elem_of_cons; intuition.
Qed.

Lemma obj_insert_sorted k v m : obj_sorted m = true -> obj_sorted (obj_insert k v m) = true.
Proof.
  induction m as [|[k' v'] m IH]; [done|]. cbn [obj_insert].
  intros Hs. pose proof Hs as [Hk Hm]%obj_sorted_cons.
  destruct (str_ltb k k') eqn:Hlt.
  { apply obj_sorted_cons. split; [|done]. constructor; [done|].
    eapply Forall_impl; [exact Hk|]. cbn. intros [? ?]. by apply str_ltb_trans. }
  destruct (str_eqb_spec k k') as [->|Hne]; [by apply obj_sorted_cons|].
  apply obj_sorted_cons. split; [|by apply IH].
  apply Forall_forall. intros kv [->|Hin]%obj_insert_keys; cbn.
  - destruct (str_ltb k' k) eqn:E; [done|]. exfalso. apply Hne. by apply str_ltb_total.
  - by rewrite Forall_forall in Hk; apply Hk.
Qed.

Lemma obj_of_list_sorted l : obj_sorted (obj_of_list l) = true.
Proof.
  unfold obj_of_list. assert (obj_sorted (@nil (string * V)) = true) as H by done.
  revert H. generalize (@nil (string * V)). induction l as [|[k v] l IH]; intros m Hm; [done|].
  cbn. by apply IH, obj_insert_sorted.
Qed.

Lemma obj_get_insert k k' v m :
  obj_get k (obj_insert k' v m) = if str_eqb k k' then Some v else obj_get k m.
Proof.
  induction m as [|[k2 v2] m IH]; [done|]. cbn [obj_insert].
  destruct (str_ltb k' k2) eqn:Hlt; [done|].
  destruct (str_eqb_spec k' k2) as [->|Hne].
  - cbn. by destruct (str_eqb k k2).
  - cbn. rewrite IH.
    destruct (str_eqb_spec k k2), (str_eqb_spec k k'); congruence.
Qed.

Lemma obj_get_remove k k' m :
  obj_get k (obj_remove k' m) = if str_eqb k k' then None else obj_get k m.
Proof.
  induction m as [|[k0 v0] m IH]; [by destruct (str_eqb k k')|].
  unfold obj_remove in *. cbn. destruct (str_eqb k' k0) eqn:E0; cbn; rewrite IH.
  - apply str_eqb_true in E0 as ->. by destruct (str_eqb k k0).
  - destruct (str_eqb k k0) eqn:E1; [|done]. apply str_eqb_true in E1 as ->.
    destruct (str_eqb k0 k') eqn:E2; [|done]. apply str_eqb_true in E2 as ->.
    by rewrite str_eqb_refl in E0.
Qed.

Lemma obj_get_elem k v m : obj_get k m = Some v -> (k, v) ∈ m.
Proof.
  induction m as [|[k' v'] m IH]; cbn; [done|].
  destruct (str_eqb_spec k k') as [->|]; [intros [= ->]; by left|]. right. auto.
Qed.

Lemma obj_get_sorted_elem k v m : obj_sorted m = true -> (k, v) ∈ m -> obj_get k m = Some v.
Proof.
  induction m as [|[k' v'] m IH]; [by inversion 2|]. intros Hs Hin.
  apply obj_sorted_cons in Hs as [Hk Hm]. cbn.
  apply elem_of_cons in Hin as [[= -> ->]|Hin]; [by rewrite str_eqb_refl|].
  destruct (str_eqb_spec k k') as [->|]; [|by apply IH].
  rewrite Forall_forall in Hk. specialize (Hk _ Hin). cbn in Hk. by rewrite str_ltb_irrefl in Hk.
Qed.

(** A sorted map is determined by its lookups. *)
Lemma obj_ext m1 m2 :
  obj_sorted m1 = true -> obj_sorted m2 = true ->
  (forall k, obj_get k m1 = obj_get k m2) -> m1 = m2.
Proof.
  revert m2. induction m1 as [|[k1 v1] m1 IH]; intros [|[k2 v2] m2] H1 H2 Hext.
  - done.
  - specialize (Hext k2). cbn in Hext. by rewrite str_eqb_refl in Hext.
  - specialize (Hext k1). cbn in Hext. by rewrite str_eqb_refl in Hext.
  - pose proof H1 as [Hk1 Hm1]%obj_sorted_cons. pose proof H2 as [Hk2 Hm2]%obj_sorted_cons.
    assert (k1 = k2) as ->.
    { apply str_ltb_total.
      - destruct (str_ltb k1 k2) eqn:E; [|done]. exfalso.
        specialize (Hext k1). cbn in Hext. rewrite str_eqb_refl in Hext.
        destruct (str_eqb_spec k1 k2) as [->|]; [by rewrite str_ltb_irrefl in E|].
        symmetry in Hext. apply obj_get_elem in Hext.
        rewrite Forall_forall in Hk2. specialize (Hk2 _ Hext). cbn in Hk2.
        by rewrite (str_ltb_asym _ _ E) in Hk2.
      - destruct (str_ltb k2 k1) eqn:E; [|done]. exfalso.
        specialize (Hext k2). cbn in Hext. rewrite str_eqb_refl in Hext.
        destruct (str_eqb_spec k2 k1) as [->|]; [by rewrite str_ltb_irrefl in E|].
        apply obj_get_elem in Hext.
        rewrite Forall_forall in Hk1. specialize (Hk1 _ Hext). cbn in Hk1.
        by rewrite (str_ltb_asym _ _ E) in Hk1. }
    pose proof (Hext k2) as Hv. cbn in Hv. rewrite str_eqb_refl in Hv. injection Hv as ->.
    f_equal. apply IH; [done..|]. intros k. specialize (Hext k). cbn in Hext.
    destruct (str_eqb_spec k k2) as [Hk|]; [|done]. rewrite Hk. clear Hext.
    assert (forall m, Forall (fun kv : string * V => str_ltb k2 (fst kv) = true) m ->
              obj_get k2 m = None) as Hnone.
    { intros m Hm. destruct (obj_get k2 m) as [v|] eqn:E; [|done]. apply obj_get_elem in E.
      rewrite Forall_forall in Hm. specialize (Hm _ E). cbn in Hm. by rewrite str_ltb_irrefl in Hm. }
    by rewrite !Hnone.
Qed.

Lemma obj_get_fold k l m :
  obj_sorted m = true -> NoDup (map fst l) ->
  obj_get k (fold_left (fun m kv => obj_insert (fst kv) (snd kv) m) l m) =
  match obj_get k l with Some v => Some v | None => obj_get k m end.
Proof.
  revert m. induction l as [|[k' v'] l IH]; intros m Hm Hl; [done|]. cbn.
  apply NoDup_cons in Hl as [Hk' Hl]. rewrite IH by (done || by apply obj_insert_sorted).
  rewrite obj_get_insert by done.
  destruct (str_eqb_spec k k') as [->|]; [|done].
  destruct (obj_get k' l) as [v|] eqn:E; [|done].
  exfalso. apply Hk'. apply obj_get_elem in E. by apply (list_elem_of_fmap_2 fst) in E.
Qed.

(** Collecting any enumeration of a sorted map's entries rebuilds the map. *)
Lemma obj_sorted_NoDup m : obj_sorted m = true -> NoDup (map fst m).
Proof.
  intros Hm. induction m as [|[k v] m IH]; [constructor|].
  apply obj_sorted_cons in Hm as [Hk Hm]. constructor; [|by apply IH].
  intros ([k' v'] & Heq & Hin)%list_elem_of_fmap. cbn in Heq. subst k'.
  rewrite Forall_forall in Hk. specialize (Hk _ Hin). cbn in Hk. by rewrite str_ltb_irrefl in Hk.
Qed.

Lemma obj_of_list_permutation m l :
  obj_sorted m = true -> Permutation l m -> obj_of_list l = m.
Proof.
  intros Hm Hp. apply obj_ext; [apply obj_of_list_sorted|done|]. intros k.
  pose proof (obj_sorted_NoDup m Hm) as Hnd.
  assert (NoDup (map fst l)) as Hndl by (by rewrite Hp).
  unfold obj_of_list. rewrite obj_get_fold by done. cbn.
  destruct (obj_get k l) as [v|] eqn:E.
  - symmetry. apply obj_get_sorted_elem; [done|]. rewrite <- Hp. by apply obj_get_elem.
  - destruct (obj_get k m) as [v|] eqn:E2; [|done]. exfalso.
    apply obj_get_elem in E2. rewrite <- Hp in E2.
    clear -E E2 Hndl. induction l as [|[k' v'] l IH]; [by inversion E2|]. cbn in E.
    apply elem_of_cons in E2 as [[= -> ->]|Hin]; [by rewrite str_eqb_refl in E|].
    destruct (str_eqb_spec k k'); [done|]. apply NoDup_cons in Hndl as [_ Hndl]. by apply IH.
Qed.

End Obj.

(** Iterating over the sorted keys of a map. *)
Lemma sort_sorted_strings l :
  StronglySorted (fun a b => str_ltb a b = true) l ->
  sort_by_key (fun a b => negb (str_ltb b a)) (fun k => k) l = l.
Proof.
  induction 1 as [|x l Hl IH Hx]; [done|].
  change (sort_by_key ?le ?key (x :: l)) with (insert_by_key le key x (sort_by_key le key l)).
  rewrite IH. destruct Hx as [|y l Hy _]; [done|]. cbn [insert_by_key].
  by rewrite (str_ltb_asym _ _ Hy).
Qed.

Lemma obj_keys_sorted {V} (m : list (string * V)) :
  obj_sorted m = true -> StronglySorted (fun a b => str_ltb a b = true) (map fst m).
Proof.
  induction m as [|[k v] m IH]; [constructor|]. intros [Hk Hm]%obj_sorted_cons.
  constructor; [by apply IH|]. by apply Forall_map.
Qed.

Lemma fold_insert_lookup {V} (m : list (string * V)) :
  obj_sorted m = true ->
  fold_left (fun acc key => match obj_get key m with Some v => obj_insert key v acc | None => acc end)
    (map fst m) [] = obj_of_list m.
Proof.
  intros Hm. unfold obj_of_list.
  assert (forall l acc, (forall kv, kv ∈ l -> obj_get (fst kv) m = Some (snd kv)) ->
    fold_left (fun acc key => match obj_get key m with Some v => obj_insert key v acc | None => acc end)
      (map fst l) acc = fold_left (fun m kv => obj_insert (fst kv) (snd kv) m) l acc) as Hl.
  { induction l as [|kv l IH]; intros acc Hkv; [done|]. cbn. rewrite Hkv by by left.
    apply IH. intros. apply Hkv. by right. }
  apply Hl. intros [k v] Hin. by apply obj_get_sorted_elem.
Qed.

(** ** Values *)

Abbreviation f64 := spec_float.

Definition f64_is_finite (f : f64) : bool :=
  match f with S754_zero _ | S754_finite _ _ _ => true | _ => false end.

(** [n as f64], rounding to nearest even. *)
Definition f64_of_int (n : Z) : f64 := binary_normalize 53 1024 n 0 false.

(** [serde_json::Number]. *)
Inductive Number :=
| PosInt (n : Z)
| NegInt (n : Z)
| Float (f : f64).

Inductive Json :=
| JNull
| JBool (b : bool)
| JNumber (n : Number)
| JString (s : string)
| JArray (l : list Json)
| JObject (m : list (string * Json)).

(** The VM's [Value]; a map is the list of its entries in iteration order. *)
Inductive VmValue :=
| VNull
| VInt (n : Z)
| VFloat (f : f64)
| VBool (b : bool)
| VString (s : string)
| VBytes (bs : list byte)
| VArray (l : list VmValue)
| VMap (m : list (VmValue * VmValue))
| VCallable.

(** Structural induction through arrays and objects. *)
Section json_induction.
Variable P : Json -> Prop.
Hypothesis Hnull : P JNull.
Hypothesis Hbool : forall b, P (JBool b).
Hypothesis Hnum : forall n, P (JNumber n).
Hypothesis Hstr : forall s, P (JString s).
Hypothesis Harr : forall l, Forall P l -> P (JArray l).
Hypothesis Hobj : forall m, Forall (fun kv => P (snd kv)) m -> P (JObject m).

Fixpoint json_ind' (j : Json) : P j :=
  match j with
  | JNull => Hnull
  | JBool b => Hbool b
  | JNumber n => Hnum n
  | JString s => Hstr s
  | JArray l =>
      Harr l ((fix go l := match l return Forall P l with
                           | [] => List.Forall_nil P
                           | x :: l' => List.Forall_cons P x l' (json_ind' x) (go l')
                           end) l)
  | JObject m =>
      Hobj m ((fix go m := match m return Forall (fun kv => P (snd kv)) m with
                           | [] => List.Forall_nil _
                           | kv :: m' =>
                               List.Forall_cons (fun kv : string * Json => P (snd kv)) kv m'
                                 (json_ind' (snd kv)) (go m')
                           end) m)
  end.
End json_induction.

(** Equality of values. *)
#[export] Instance f64_eq_dec : EqDecision f64.
Proof. solve_decision. Defined.
#[export] Instance number_eq_dec : EqDecision Number.
Proof. solve_decision. Defined.

Fixpoint json_eqb (a b : Json) : bool :=
  match a, b with
  | JNull, JNull => true
  | JBool x, JBool y => Bool.eqb x y
  | JNumber x, JNumber y => bool_decide (x = y)
  | JString x, JString y => str_eqb x y
  | JArray l, JArray l' =>
      (fix go l l' := match l, l' with
        | [], [] => true
        | x :: l, y :: l' => json_eqb x y && go l l'
        | _, _ => false
        end) l l'
  | JObject m, JObject m' =>
      (fix go m m' := match m, m' with
        | [], [] => true
        | (k, x) :: m, (k', y) :: m' => str_eqb k k' && json_eqb x y && go m m'
        | _, _ => false
        end) m m'
  | _, _ => false
  end.

Lemma json_eqb_spec a b : json_eqb a b = true <-> a = b.
Proof.
  revert b. induction a as [|b0|n0|s0|l IH|m IH] using json_ind'; intros b; destruct b as [|b'|n'|s'|l'|m']; cbn;
    try (split; [done|congruence]); try done.
  - rewrite Bool.eqb_true_iff. split; congruence.
  - rewrite bool_decide_eq_true. split; congruence.
  - rewrite str_eqb_true. split; congruence.
  - transitivity (l = l'); [|split; congruence]. revert l'. induction IH as [|x l Hx _ IHl]; intros [|y l']; try done.
    rewrite andb_true_iff, Hx, IHl. split; [by intros [-> ->]|by intros [= -> ->]].
  - transitivity (m = m'); [|split; congruence]. revert m'. induction IH as [|[k x] m Hx _ IHm]; intros [|[k' y] m']; try done.
    rewrite !andb_true_iff, str_eqb_true, Hx, IHm. cbn. split; [by intros [[-> ->] ->]|by intros [= -> -> ->]].
Qed.

#[export] Instance json_eq_dec : EqDecision Json.
Proof.
  intros a b. destruct (json_eqb a b) eqn:E; [left; by apply json_eqb_spec|right].
  intros H. apply json_eqb_spec in H. congruence.
Defined.

(** Accessors of [serde_json]. *)
Definition number_of_i64 (n : Z) : Number := if (0 <=? n)%Z then PosInt n else NegInt n.

Definition num_as_i64 (n : Number) : option Z :=
  match n with
  | PosInt n => if (n <=? i64_max)%Z then Some n else None
  | NegInt n => Some n
  | Float _ => None
  end.
Definition num_as_u64 (n : Number) : option Z :=
  match n with PosInt n => Some n | _ => None end.
Definition num_as_f64 (n : Number) : option f64 :=
  Some (match n with PosInt n | NegInt n => f64_of_int n | Float f => f end).
Definition num_from_f64 (f : f64) : option Number :=
  if f64_is_finite f then Some (Float f) else None.

Definition jint (n : Z) : Json := JNumber (number_of_i64 n).
Definition as_str (j : Json) : option string := match j with JString s => Some s | _ => None end.
Definition as_bool (j : Json) : option bool := match j with JBool b => Some b | _ => None end.
Definition as_u64 (j : Json) : option Z := match j with JNumber n => num_as_u64 n | _ => None end.
Definition as_array (j : Json) : option (list Json) := match j with JArray l => Some l | _ => None end.
Definition as_object (j : Json) : option (list (string * Json)) :=
  match j with JObject m => Some m | _ => None end.

(** [Value::get(key)]. *)
Definition jget (k : string) (j : Json) : option Json :=
  match j with JObject m => obj_get k m | _ => None end.

(** [json!({..})]. *)
Definition jobj (l : list (string * Json)) : Json := JObject (obj_of_list l).

(** [value[key] = v] on an object. *)
Definition jset (k : string) (v : Json) (j : Json) : Json :=
  match j with JObject m => JObject (obj_insert k v m) | _ => j end.

(** A value [serde_json] can hold: keys strictly increasing, numbers in their
    range, text well formed. *)
Definition number_ok (n : Number) : bool :=
  match n with
  | PosInt n => is_u64 n
  | NegInt n => is_i64 n && (n <? 0)%Z
  | Float f => f64_is_finite f
  end.

Fixpoint json_ok (j : Json) : bool :=
  match j with
  | JNull | JBool _ => true
  | JNumber n => number_ok n
  | JString s => str_valid s
  | JArray l => forallb json_ok l
  | JObject m => obj_sorted m && forallb (fun kv => str_valid (fst kv) && json_ok (snd kv)) m
  end.

(** ** Third-party interfaces *)

(** [serde_json]'s compact rendering ([Value::to_string], [to_vec]), and what
    its documentation fixes of it: RFC 8259 text without white space, integers
    in decimal, members in the map's order.  The text of floats and of strings
    that need escapes stays abstract. *)
Class JsonText := json_text : Json -> string.

Definition dquote : string := String "034"%char EmptyString.

(** Printable ASCII without the quote and the backslash: needs no escape. *)
Definition plain_byte (b : byte) : bool :=
  in_range 32 126 b && negb (bval b =? 34)%Z && negb (bval b =? 92)%Z.
Definition plain (s : string) : bool := forallb plain_byte (s2b s).

Class JsonTextLaws `{JsonText} : Prop := {
  json_text_valid j : json_ok j = true -> str_valid (json_text j) = true;
  json_text_null : json_text JNull = "null";
  json_text_bool b : json_text (JBool b) = if b then "true" else "false";
  json_text_pos n : json_text (JNumber (PosInt n)) = pretty n;
  json_text_neg n : json_text (JNumber (NegInt n)) = pretty n;
  json_text_plain s : plain s = true -> json_text (JString s) = dquote +:+ s +:+ dquote;
  json_text_array l :
    json_text (JArray l) = "[" +:+ String.concat "," (map json_text l) +:+ "]";
  json_text_object m :
    json_text (JObject m) =
      "{" +:+ String.concat "," (map (fun kv =>
        json_text (JString (fst kv)) +:+ ":" +:+ json_text (snd kv)) m) +:+ "}"
}.

(** The order in which the VM iterates a map built from a list of entries with
    distinct keys: some enumeration of exactly those entries. *)
Class VmMapOrder := {
  vm_entries : list (VmValue * VmValue) -> list (VmValue * VmValue);
  vm_entries_perm l : NoDup (map fst l) -> Permutation (vm_entries l) l
}.

(** Decimal text of a number below [10^k] is at most [k] digits long. *)
Lemma pretty_N_go_length k x t :
  (x < 10 ^ N.of_nat k)%N -> (slen (pretty_N_go x t) <= Z.of_nat k + slen t)%Z.
Proof.
  revert x t. induction k as [|k IH]; intros x t Hx.
  - replace x with 0%N by (cbn in Hx; lia). rewrite pretty_N_go_0. lia.
  - destruct (decide (x = 0)%N) as [->|Hx0]; [rewrite pretty_N_go_0; lia|].
    rewrite pretty_N_go_step by lia. etrans; [apply IH|].
    + apply N.Div0.div_lt_upper_bound. rewrite Nat2N.inj_succ, N.pow_succ_r' in Hx. lia.
    + unfold slen, blen. rewrite s2b_cons. cbn [length]. lia.
Qed.

Lemma pretty_pos_length n : (0 <= n <= u64_max)%Z -> (slen (pretty n) <= 20)%Z.
Proof.
  intros Hn. destruct n as [|p|p]; [done| |lia].
  change (pretty (Z.pos p)) with (pretty (N.pos p)). unfold pretty, pretty_N.
  case_decide; [done|]. apply (pretty_N_go_length 20).
  apply N2Z.inj_lt. change (Z.of_N (10 ^ N.of_nat 20)) with 100000000000000000000%Z.
  unfold u64_max in Hn. lia.
Qed.

(** Computes the length of concrete pieces of text. *)
Ltac slen_norm :=
  rewrite !slen_app;
  repeat match goal with
  | |- context [slen (String ?a ?b)] =>
      let v := eval vm_compute in (slen (String a b)) in change (slen (String a b)) with v
  | |- context [slen dquote] => change (slen dquote) with 1%Z
  end.

(** ** A renderer that meets the laws

    Used to show that they can hold; its text for floats is a fixed one. *)
Module CompactText.

Definition hex_digit (n : N) : ascii :=
  ascii_of_N (if (n <? 10)%N then 48 + n else 87 + n)%N.

Definition escape_byte (b : byte) : string :=
  let n := Byte.to_N b in
  let bs c := String "092"%char (String c EmptyString) in
  if (n =? 34)%N then bs "034"%char
  else if (n =? 92)%N then bs "092"%char
  else if (n =? 8)%N then bs "b"%char
  else if (n =? 9)%N then bs "t"%char
  else if (n =? 10)%N then bs "n"%char
  else if (n =? 12)%N then bs "f"%char
  else if (n =? 13)%N then bs "r"%char
  else if (n <? 32)%N then
    bs "u"%char +:+ "00" +:+ String (hex_digit (n / 16)) (String (hex_digit (n mod 16)) EmptyString)
  else b2s [b].

Definition escape (s : string) : string := String.concat EmptyString (map escape_byte (s2b s)).

Definition number_text (n : Number) : string :=
  match n with PosInt n | NegInt n => pretty n | Float _ => "0.5" end.

Fixpoint text (j : Json) : string :=
  match j with
  | JNull => "null"
  | JBool b => if b then "true" else "false"
  | JNumber n => number_text n
  | JString s => dquote +:+ escape s +:+ dquote
  | JArray l => "[" +:+ String.concat "," (map text l) +:+ "]"
  | JObject m =>
      "{" +:+ String.concat "," (map (fun kv =>
        (dquote +:+ escape (fst kv) +:+ dquote) +:+ ":" +:+ text (snd kv)) m) +:+ "}"
  end.

Lemma escape_plain_byte b : plain_byte b = true -> escape_byte b = b2s [b].
Proof. by destruct b. Qed.

Lemma concat_nil_cons a l :
  String.concat EmptyString (a :: l) = a +:+ String.concat EmptyString l.
Proof.
  destruct l; [|done]. change (a = a +:+ EmptyString). apply s2b_inj.
  by rewrite s2b_app, app_nil_r.
Qed.

Lemma escape_plain s : plain s = true -> escape s = s.
Proof.
  unfold plain, escape. intros Hp. rewrite <- (b2s_s2b s) at 2.
  induction (s2b s) as [|b bs IH]; [done|]. cbn in Hp. apply andb_true_iff in Hp as [Hb Hp].
  rewrite map_cons, concat_nil_cons, IH, escape_plain_byte by done. done.
Qed.

Definition ascii_only (bs : list byte) : bool := forallb (in_range 0 127) bs.

Lemma ascii_only_valid bs : ascii_only bs = true -> utf8_valid bs = true.
Proof.
  induction bs as [|b bs IH]; [done|]. intros [Hb Hbs]%andb_true_iff.
  apply (utf8_valid_app [b]); [done|by apply IH].
Qed.

Lemma valid_app a b : str_valid a = true -> str_valid b = true -> str_valid (a +:+ b) = true.
Proof. unfold str_valid. rewrite s2b_app. apply utf8_valid_app_ok. Qed.

Lemma valid_join sep l :
  str_valid sep = true -> Forall (fun s => str_valid s = true) l ->
  str_valid (String.concat sep l) = true.
Proof.
  intros Hsep. induction 1 as [|s l Hs Hl IH]; [done|].
  destruct l; [done|]. change (str_valid (s +:+ sep +:+ String.concat sep (s0 :: l)) = true).
  auto using valid_app.
Qed.

Lemma pretty_ascii n : ascii_only (s2b (pretty (n : N))) = true.
Proof.
  assert (forall x t, ascii_only (s2b t) = true -> ascii_only (s2b (pretty_N_go x t)) = true) as Hgo.
  { induction x as [x IH] using (well_founded_induction N.lt_wf_0). intros t Ht.
    destruct (decide (x = 0)%N) as [->|Hx]; [by rewrite pretty_N_go_0|].
    rewrite pretty_N_go_step by lia. apply IH; [apply N.div_lt; lia|].
    rewrite s2b_cons. cbn. rewrite andb_true_iff. split; [|done].
    unfold pretty_N_char. repeat case_match; done. }
  unfold pretty, pretty_N. case_decide; [done|]. by apply Hgo.
Qed.

Lemma pretty_Z_valid n : str_valid (pretty (n : Z)) = true.
Proof.
  destruct n as [|p|p]; [done|apply ascii_only_valid, pretty_ascii|].
  change (pretty (Z.neg p)) with ("-" +:+ pretty (N.pos p)).
  apply valid_app; [done|apply ascii_only_valid, pretty_ascii].
Qed.

Lemma escape_byte_ascii b : in_range 0 127 b = true -> ascii_only (s2b (escape_byte b)) = true.
Proof. by destruct b. Qed.

Lemma escape_byte_high b : (128 <= bval b)%Z -> escape_byte b = b2s [b].
Proof. destruct b; vm_compute; done || (intros H; by exfalso; apply H). Qed.

Lemma s2b_escape bs :
  s2b (String.concat EmptyString (map escape_byte bs)) = concat (map (fun b => s2b (escape_byte b)) bs).
Proof.
  induction bs as [|b bs IH]; [done|].
  rewrite map_cons, concat_nil_cons, s2b_app, IH. done.
Qed.

Lemma escape_char_valid c :
  wf_char c = true -> utf8_valid (concat (map (fun b => s2b (escape_byte b)) c)) = true.
Proof.
  intros Hc. destruct (wf_char_shape c Hc) as (b & rest & -> & Hb & Hrest).
  destruct (Z_lt_le_dec (bval b) 128) as [Hlt|Hge].
  - rewrite (wf_char_ascii b rest) by done. cbn. rewrite app_nil_r.
    apply ascii_only_valid, escape_byte_ascii, in_range_iff. pose proof (bval_range b). lia.
  - assert (concat (map (fun b => s2b (escape_byte b)) (b :: rest)) = b :: rest) as ->.
    { cbn. rewrite escape_byte_high, s2b_b2s by done. cbn. f_equal.
      clear Hc. induction Hrest as [|x r Hx%is_cont_iff _ IH]; [done|].
      cbn. rewrite escape_byte_high, s2b_b2s, IH by lia. done. }
    rewrite <- (app_nil_r (b :: rest)). by apply utf8_valid_app.
Qed.

Lemma escape_valid s : str_valid s = true -> str_valid (escape s) = true.
Proof.
  unfold str_valid, escape. intros (cs & -> & Hcs)%utf8_valid_chars. rewrite s2b_escape.
  induction Hcs as [|c cs Hc _ IH]; [done|]. cbn [concat].
  rewrite map_app, concat_app. by apply utf8_valid_app_ok; [apply escape_char_valid|].
Qed.

Lemma text_valid j : json_ok j = true -> str_valid (text j) = true.
Proof.
  induction j as [|b|n|s|l IH|m IH] using json_ind'; intros Hok;
    cbn [json_ok text] in *; try done.
  - by destruct b.
  - destruct n; [apply pretty_Z_valid..|done].
  - auto using valid_app, escape_valid.
  - rewrite forallb_forall in Hok. rewrite Forall_forall in IH.
    apply valid_app; [done|]. apply valid_app; [|done]. apply valid_join; [done|].
    apply Forall_forall. intros t (x & -> & Hx)%list_elem_of_fmap.
    apply IH; [done|]. apply Hok. by apply list_elem_of_In.
  - apply andb_true_iff in Hok as [_ Hok]. rewrite forallb_forall in Hok. rewrite Forall_forall in IH.
    apply valid_app; [done|]. apply valid_app; [|done]. apply valid_join; [done|].
    apply Forall_forall. intros t (x & -> & Hx)%list_elem_of_fmap.
    pose proof (Hok x ltac:(by apply list_elem_of_In)) as [Hk Hv]%andb_true_iff.
    repeat apply valid_app; auto using escape_valid.
Qed.

#[export] Instance compact_text : JsonText := text.
#[export] Instance compact_text_laws : JsonTextLaws.
Proof.
  split; intros; try done; [by apply text_valid|]. cbn. by rewrite escape_plain.
Qed.

End CompactText.

(** ** Conversions *)

Module Convert.
Section convert.
Context `{JsonText, VmMapOrder}.

Fixpoint json_to_vm_value (value : Json) : VmValue :=
  match value with
  | JNull => VNull
  | JBool b => VBool b
  | JNumber n =>
      match num_as_i64 n with
      | Some i => VInt i
      | None => match num_as_f64 n with Some f => VFloat f | None => VNull end
      end
  | JString s => VString s
  | JArray l => VArray (map json_to_vm_value l)
  | JObject m => VMap (vm_entries (map (fun kv => (VString (fst kv), json_to_vm_value (snd kv))) m))
  end.

(** The key under which an entry is kept: a string as it is, any other value
    as the text of its JSON form. *)
Definition key_string (key : VmValue) (as_json : Json) : string :=
  match key with
  | VString s => s
  | _ => json_text as_json
  end.

Fixpoint vm_value_to_json (value : VmValue) : Json :=
  match value with
  | VNull => JNull
  | VInt n => jint n
  | VFloat f => match num_from_f64 f with Some n => JNumber n | None => JNull end
  | VBool b => JBool b
  | VString s => JString s
  | VBytes bs => JString (b2s (from_utf8_lossy bs))
  | VArray l => JArray (map vm_value_to_json l)
  | VMap m =>
      JObject (obj_of_list (map (fun kv =>
        (key_string (fst kv) (vm_value_to_json (fst kv)), vm_value_to_json (snd kv))) m))
  | VCallable => JString "<callable>"
  end.

Definition vm_map_key_to_string (value : VmValue) : string :=
  key_string value (vm_value_to_json value).

Definition input_text (input : Json) : string :=
  match input with
  | JString text => text
  | JNull => EmptyString
  | other => json_text other
  end.

(** What a trip through the VM keeps of a number: everything, except that an
    integer above [i64::MAX] becomes the nearest [f64]. *)
Definition vm_number (n : Number) : Json :=
  match n with
  | PosInt n =>
      if (n <=? i64_max)%Z then JNumber (PosInt n)
      else match num_from_f64 (f64_of_int n) with Some m => JNumber m | None => JNull end
  | n => JNumber n
  end.

Fixpoint vm_image (j : Json) : Json :=
  match j with
  | JNumber n => vm_number n
  | JArray l => JArray (map vm_image l)
  | JObject m => JObject (map (fun kv => (fst kv, vm_image (snd kv))) m)
  | j => j
  end.

Definition fits_vm (n : Number) : bool :=
  match n with PosInt n => (n <=? i64_max)%Z | _ => true end.

Fixpoint json_fits_vm (j : Json) : bool :=
  match j with
  | JNumber n => fits_vm n
  | JArray l => forallb json_fits_vm l
  | JObject m => forallb (fun kv => json_fits_vm (snd kv)) m
  | _ => true
  end.

Lemma obj_sorted_map {A B} (f : A -> B) m :
  obj_sorted (map (fun kv : string * A => (fst kv, f (snd kv))) m) = obj_sorted m.
Proof.
  induction m as [|[k v] m IH]; [done|]. destruct m as [|[k' v'] m]; [done|].
  cbn in *. by rewrite IH.
Qed.

Lemma vm_keys_NoDup {A} (m : list (string * A)) :
  obj_sorted m = true -> NoDup (map (fun kv => VString (fst kv)) m).
Proof.
  intros Hm%obj_sorted_NoDup. rewrite <- (map_map fst VString).
  apply NoDup_fmap_2; [|done]. by intros ?? [= ->].
Qed.

Lemma vm_number_spec n :
  number_ok n = true ->
  vm_value_to_json (json_to_vm_value (JNumber n)) = vm_number n.
Proof.
  destruct n as [n|n|f]; cbn; intros Hn.
  - destruct (n <=? i64_max)%Z; cbn; [|done].
    unfold jint, number_of_i64. unfold is_u64 in Hn. bool_to_prop.
    destruct (Z.leb_spec 0 n); [done|lia].
  - unfold jint, number_of_i64. bool_to_prop. destruct (Z.leb_spec 0 n); [lia|done].
  - unfold num_from_f64. by rewrite Hn.
Qed.

Lemma vm_image_spec j :
  json_ok j = true -> vm_value_to_json (json_to_vm_value j) = vm_image j.
Proof.
  induction j as [|b|n|s|l IH|m IH] using json_ind'; intros Hok; try done.
  - by apply vm_number_spec.
  - cbn in *. f_equal. rewrite map_map. apply map_ext_in. intros x Hx.
    rewrite forallb_forall in Hok. rewrite Forall_forall in IH.
    apply IH; [by apply list_elem_of_In|by apply Hok].
  - cbn in *. apply andb_true_iff in Hok as [Hs Hok]. f_equal.
    apply obj_of_list_permutation; [by rewrite obj_sorted_map|].
    rewrite vm_entries_perm by (rewrite map_map; by apply vm_keys_NoDup).
    rewrite map_map. cbn.
    apply Permutation_refl'. apply map_ext_in. intros [k v] Hx. cbn. f_equal.
    rewrite forallb_forall in Hok. specialize (Hok _ Hx). cbn in Hok.
    apply andb_true_iff in Hok as [_ Hok].
    rewrite Forall_forall in IH. apply (IH (k, v)); [by apply list_elem_of_In|done].
Qed.

Lemma vm_image_fits j : json_fits_vm j = true -> vm_image j = j.
Proof.
  induction j as [|b|n|s|l IH|m IH] using json_ind'; intros Hf; try done.
  - destruct n; cbn in *; [by rewrite Hf|done..].
  - cbn in *. f_equal. rewrite forallb_forall in Hf. rewrite Forall_forall in IH.
    rewrite <- map_id. apply map_ext_in. intros x Hx. apply IH; [by apply list_elem_of_In|auto].
  - cbn in *. f_equal. rewrite forallb_forall in Hf. rewrite Forall_forall in IH.
    rewrite <- map_id. apply map_ext_in. intros [k v] Hx. cbn. f_equal.
    apply (IH (k, v)); [by apply list_elem_of_In|by apply (Hf (k, v))].
Qed.

(** Converting a JSON value to a VM value and back yields the same value,
    whatever order the VM iterates its maps in, except that an integer above
    [i64::MAX] comes back as the nearest [f64]; a value without such integers
    comes back unchanged. *)
Theorem vm_roundtrip j :
  json_ok j = true ->
  vm_value_to_json (json_to_vm_value j) = vm_image j /\
  (json_fits_vm j = true -> vm_value_to_json (json_to_vm_value j) = j).
Proof.
  intros Hok. rewrite vm_image_spec by done. split; [done|apply vm_image_fits].
Qed.

End convert.

(** A VM that iterates its maps backwards, and a renderer. *)
#[local] Instance backwards_order : VmMapOrder.
Proof.
  refine {| vm_entries l := rev l |}. intros l _. symmetry. apply Permutation_rev.
Defined.
#[local] Existing Instance CompactText.compact_text.

Lemma vm_roundtrip_witness :
  let j := jobj [("n", jint 7); ("big", JNumber (PosInt 9223372036854775809));
                 ("a", JArray [JNull; JString "x"])] in
  json_ok j = true /\ vm_value_to_json (json_to_vm_value j) = vm_image j.
Proof.
  intros j. split; [reflexivity|]. apply (vm_roundtrip j). reflexivity.
Defined.

End Convert.
