(* ===== verification/Registry.v ===== *)
(** * The tool registry ([src/registry.rs], [src/tool_schema.rs])

    Descriptors of the tools a run may call, admitted once into an immutable
    snapshot: structural limits first, then the JSON Schema meta-validation,
    then the identity digest and one compiled argument validator per tool.
    The [jsonschema] crate is a parameter; the rest is translated, including
    the work list that walks a schema before it is serialised. *)

From S2P Require Import Prelude Utf8 Json Sha256.
From stdpp Require Import pretty gmap.

Module Registry.

(** ** [tool_schema.rs] *)

Record ToolDescriptor := {
  name : string;
  description : string;
  toolset : string;
  risk_class : string;
  schema : Json
}.

(** [serde_json::to_value] through the derived [Serialize]. *)
Definition descriptor_to_value (d : ToolDescriptor) : Json :=
  jobj [("name", JString (name d)); ("description", JString (description d));
        ("toolset", JString (toolset d)); ("risk_class", JString (risk_class d));
        ("schema", schema d)].

Definition MAX_POLICY_ERROR_BYTES : nat := 128.

(** Cuts a string at the last character boundary within the limit. *)
Definition cut_at_boundary (value : string) (limit : nat) : string :=
  if (slen value <=? Z.of_nat limit)%Z then value
  else str_take (floor_boundary (s2b value) limit) value.

Definition bounded_policy_value (value : string) : string := cut_at_boundary value MAX_POLICY_ERROR_BYTES.

Inductive Toolset := Coding | Process.

Definition toolset_as_str (t : Toolset) : string :=
  match t with Coding => "coding" | Process => "process" end.

Definition toolset_try_from (value : string) : result Toolset string :=
  if str_eqb value "coding" then Ok Coding
  else if str_eqb value "process" then Ok Process
  else Err (bounded_policy_value value).

Inductive RiskClass := RiskRead | RiskWrite | RiskExecute.

Definition risk_class_as_str (r : RiskClass) : string :=
  match r with RiskRead => "read" | RiskWrite => "write" | RiskExecute => "execute" end.

Definition risk_class_try_from (value : string) : result RiskClass string :=
  if str_eqb value "read" then Ok RiskRead
  else if str_eqb value "write" then Ok RiskWrite
  else if str_eqb value "execute" then Ok RiskExecute
  else Err (bounded_policy_value value).

(** ** Limits *)

Definition MAX_REGISTRY_ENTRIES : nat := 64.
Definition MAX_TOOL_NAME_BYTES : Z := 64.
Definition MAX_DESCRIPTION_BYTES : Z := 4096.
Definition MAX_SCHEMA_BYTES : Z := 65536.
Definition MAX_SCHEMA_NODES : Z := 4096.
Definition MAX_SCHEMA_DEPTH : Z := 128.
Definition MAX_DIAGNOSTIC_BYTES : Z := 512.
Definition MAX_ERROR_FIELD_BYTES : nat := 128.
Definition MAX_POINTER_BYTES : Z := 256.
Definition MAX_RISK_CLASS_BYTES : Z := 7.
Definition MAX_TOOLSET_BYTES : Z := 7.

(** ** Bounded diagnostics *)

(** The loop of [bounded_pointer], [bounded_token] and [bounded_message]:
    characters outside a class become [?], and the loop ends before the text
    would outgrow the limit. *)
Fixpoint push_bounded (keep : char -> bool) (limit : Z) (bounded : string) (cs : list char) : string :=
  match cs with
  | [] => bounded
  | character :: cs' =>
      let replacement := if keep character then character else s2b "?" in
      if (limit <? slen bounded + Z.of_nat (len_utf8 replacement))%Z then bounded
      else push_bounded keep limit (bounded +:+ b2s replacement) cs'
  end.

Definition pointer_char (c : char) : bool := is_ascii_graphic c || bool_decide (c = s2b "/").
Definition message_char (c : char) : bool := is_ascii c && negb (is_ascii_control c).

Definition bounded_pointer (pointer : string) : string :=
  let bounded := push_bounded pointer_char MAX_POINTER_BYTES EmptyString (chars pointer) in
  if is_empty bounded then "/" else bounded.

Definition bounded_token (value : string) (limit : Z) : string :=
  push_bounded is_ascii_graphic limit EmptyString (chars value).

Definition bounded_message (value : string) (limit : Z) : string :=
  push_bounded message_char limit EmptyString (chars value).

Definition bounded_string (value : string) (limit : nat) : string := cut_at_boundary value limit.

(** ** Errors *)

Inductive ToolRegistryError :=
| TooManyEntries (limit : nat)
| EmptyName
| InvalidToolName (name : string)
| ToolNameTooLong (name : string) (limit : Z)
| EmptyDescription (name : string)
| DescriptionTooLong (name : string) (limit : Z)
| EmptyRiskClass (name : string)
| UnsupportedRiskClass (name risk_class : string)
| UnsupportedToolset (name toolset : string)
| DuplicateName (name : string)
| SchemaTooLarge (name : string) (limit actual : Z)
| SchemaTooComplex (name : string) (limit actual : Z)
| SchemaTooDeep (name : string) (limit actual : Z)
| UnsupportedSchemaDialect (name : string)
| InvalidSchema (name reason : string).

Inductive SchemaValidationErrorKind :=
| KInvalidRoot | KInvalidKeyword | KUnsupportedSchemaDialect | KSchemaTooLarge
| KSchemaTooComplex | KSchemaTooDeep | KMetaSchema.

(** The derived [Debug] text. *)
Definition kind_debug (k : SchemaValidationErrorKind) : string :=
  match k with
  | KInvalidRoot => "InvalidRoot"
  | KInvalidKeyword => "InvalidKeyword"
  | KUnsupportedSchemaDialect => "UnsupportedSchemaDialect"
  | KSchemaTooLarge => "SchemaTooLarge"
  | KSchemaTooComplex => "SchemaTooComplex"
  | KSchemaTooDeep => "SchemaTooDeep"
  | KMetaSchema => "MetaSchema"
  end.

Record SchemaValidationError := {
  sve_path : string;
  sve_keyword : string;
  sve_kind : SchemaValidationErrorKind;
  sve_message : string
}.

Definition new_with_message (path keyword : string) (kind : SchemaValidationErrorKind)
    (message : string) : SchemaValidationError :=
  {| sve_path := path; sve_keyword := keyword; sve_kind := kind;
     sve_message := bounded_message message MAX_DIAGNOSTIC_BYTES |}.

Definition schema_error_new (path keyword : string) (kind : SchemaValidationErrorKind) :
    SchemaValidationError :=
  let path := bounded_pointer path in
  let keyword := bounded_token keyword (Z.of_nat MAX_ERROR_FIELD_BYTES) in
  let message := "keyword=" +:+ keyword +:+ " kind=" +:+ kind_debug kind +:+ " path=" +:+ path in
  {| sve_path := path; sve_keyword := keyword; sve_kind := kind;
     sve_message := bounded_message message MAX_DIAGNOSTIC_BYTES |}.

Inductive SchemaPreflightError :=
| PInvalidRoot
| PUnsupportedSchemaDialect (path : string)
| PSchemaTooLarge (actual : Z)
| PSchemaTooComplex (actual : Z)
| PSchemaTooDeep (actual : Z).

Definition schema_preflight_error (error : SchemaPreflightError) : SchemaValidationError :=
  match error with
  | PInvalidRoot => schema_error_new "/" "schema" KInvalidRoot
  | PUnsupportedSchemaDialect path => schema_error_new path "$schema" KUnsupportedSchemaDialect
  | PSchemaTooLarge _ => schema_error_new "/" "schema" KSchemaTooLarge
  | PSchemaTooComplex _ => schema_error_new "/" "schema" KSchemaTooComplex
  | PSchemaTooDeep _ => schema_error_new "/" "schema" KSchemaTooDeep
  end.

(** ** The [jsonschema] crate *)

Inductive Draft := Draft4 | Draft6 | Draft7 | Draft201909 | Draft202012 | DraftUnknown.

Inductive ValidationErrorKind :=
| AdditionalItems | AdditionalProperties | AnyOf | BacktrackLimitExceeded | RegexEngineFailure
| Constant | Contains | ContentEncoding | ContentMediaType | Custom | Enum | ExclusiveMaximum
| ExclusiveMinimum | FalseSchema | Format | FromUtf8 | MaxItems | Maximum | MaxLength
| MaxProperties | MinItems | Minimum | MinLength | MinProperties | MultipleOf | Not
| OneOfMultipleValid | OneOfNotValid | Pattern | PropertyNames | Required | Type_
| UnevaluatedItems | UnevaluatedProperties | UniqueItems | Referencing.

(** What the sources read of a validation error: [instance_path().to_string()],
    [kind()], [kind().keyword()] and [to_string()]. *)
Record ValidationError := {
  instance_path : string;
  error_kind : ValidationErrorKind;
  error_keyword : string;
  error_text : string
}.

(** The crate's entry points: validation of a schema against the meta-schema of
    a draft, all errors of the draft 2020-12 meta-schema, compilation of a
    schema under a draft, and validation of an instance. *)
Class JsonSchemaCrate := {
  Validator : Type;
  meta_validate : Draft -> Json -> result unit ValidationError;
  meta_errors_202012 : Json -> list ValidationError;
  draft_new : Draft -> Json -> result Validator ValidationError;
  validate : Validator -> Json -> result unit ValidationError
}.

(** The pieces in which [serde_json::to_writer] hands the compact text of a
    value to its writer. *)
Class JsonChunks := json_chunks : Json -> list string.
Class JsonChunksLaw `{JsonText} `{JsonChunks} : Prop :=
  json_chunks_text j : String.concat EmptyString (json_chunks j) = json_text j.

Definition validation_kind_name (kind : ValidationErrorKind) : string :=
  match kind with
  | AdditionalItems => "AdditionalItems"
  | AdditionalProperties => "AdditionalProperties"
  | AnyOf => "AnyOf"
  | BacktrackLimitExceeded => "BacktrackLimitExceeded"
  | RegexEngineFailure => "RegexEngineFailure"
  | Constant => "Constant"
  | Contains => "Contains"
  | ContentEncoding => "ContentEncoding"
  | ContentMediaType => "ContentMediaType"
  | Custom => "Custom"
  | Enum => "Enum"
  | ExclusiveMaximum => "ExclusiveMaximum"
  | ExclusiveMinimum => "ExclusiveMinimum"
  | FalseSchema => "FalseSchema"
  | Format => "Format"
  | FromUtf8 => "FromUtf8"
  | MaxItems => "MaxItems"
  | Maximum => "Maximum"
  | MaxLength => "MaxLength"
  | MaxProperties => "MaxProperties"
  | MinItems => "MinItems"
  | Minimum => "Minimum"
  | MinLength => "MinLength"
  | MinProperties => "MinProperties"
  | MultipleOf => "MultipleOf"
  | Not => "Not"
  | OneOfMultipleValid => "OneOfMultipleValid"
  | OneOfNotValid => "OneOfNotValid"
  | Pattern => "Pattern"
  | PropertyNames => "PropertyNames"
  | Required => "Required"
  | Type_ => "Type"
  | UnevaluatedItems => "UnevaluatedItems"
  | UnevaluatedProperties => "UnevaluatedProperties"
  | UniqueItems => "UniqueItems"
  | Referencing => "Referencing"
  end.

(** ** Dialects *)

Definition MAX_SCHEMA_DIALECT_BYTES : Z := slen "https://json-schema.org/draft/2020-12/schema#".

(** [str::strip_suffix] of the one-byte pattern [#]. *)
Definition strip_hash (uri : string) : string :=
  let bs := s2b uri in
  if bool_decide (last bs = Some Byte.x23) then b2s (removelast bs) else uri.

Definition supported_schema_draft (uri : string) : option Draft :=
  let base := strip_hash uri in
  if (MAX_SCHEMA_DIALECT_BYTES <? slen uri)%Z then None
  else if str_eqb base "http://json-schema.org/draft-04/schema" then Some Draft4
  else if str_eqb base "http://json-schema.org/draft-06/schema" then Some Draft6
  else if str_eqb base "http://json-schema.org/draft-07/schema" then Some Draft7
  else if str_eqb base "https://json-schema.org/draft/2019-09/schema" then Some Draft201909
  else if str_eqb base "https://json-schema.org/draft/2020-12/schema" then Some Draft202012
  else None.

(** ** Pointers *)

Fixpoint push_segment_chars (path : string) (cs : list char) : string :=
  match cs with
  | [] => path
  | character :: cs' =>
      let push encoded :=
        if (MAX_POINTER_BYTES - slen path <? slen encoded)%Z then path
        else push_segment_chars (path +:+ encoded) cs' in
      if bool_decide (character = s2b "~") then push "~0"
      else if bool_decide (character = s2b "/") then push "~1"
      else if is_ascii_graphic character then
        if (slen path =? MAX_POINTER_BYTES)%Z then path
        else push_segment_chars (path +:+ b2s character) cs'
      else push "?"
  end.

Definition push_pointer_segment (path segment : string) : string :=
  if (MAX_POINTER_BYTES <=? slen path)%Z then
    if (MAX_POINTER_BYTES <? slen path)%Z then
      str_take (floor_boundary (s2b path) (Z.to_nat MAX_POINTER_BYTES)) path
    else path
  else push_segment_chars (path +:+ "/") (chars segment).

Definition child_pointer (path segment : string) : string := push_pointer_segment path segment.

Definition schema_string_serialized_lower_bound (value : string) : option Z :=
  let actual := saturating_add (slen value) 2 in
  if (MAX_SCHEMA_BYTES <? actual)%Z then Some actual else None.

(** ** The size-limited writer *)

Record SizeLimitWriter := { w_size : Z; w_limit : Z; w_overflowed : bool }.

Definition writer_write (w : SizeLimitWriter) (bytes : string) : SizeLimitWriter * bool :=
  if (saturating_sub (w_limit w) (w_size w) <? slen bytes)%Z then
    ({| w_size := saturating_add (w_limit w) 1; w_limit := w_limit w; w_overflowed := true |}, false)
  else
    ({| w_size := w_size w + slen bytes; w_limit := w_limit w; w_overflowed := w_overflowed w |}, true).

(** [write_all] of each piece in turn; an empty piece is not written, and the
    first error ends the serialisation. *)
Fixpoint write_chunks (w : SizeLimitWriter) (pieces : list string) : SizeLimitWriter * bool :=
  match pieces with
  | [] => (w, true)
  | p :: pieces' =>
      if is_empty p then write_chunks w pieces'
      else match writer_write w p with
           | (w', true) => write_chunks w' pieces'
           | (w', false) => (w', false)
           end
  end.

(** ** Inspection of a schema before it is serialised *)

Abbreviation work := (Json * Z * string)%type.

Section Inspect.
Context `{JsonText} `{JsonChunks}.

(** The checks on the strings of one value: itself, or its keys in order. *)
Fixpoint keys_too_large (keys : list string) : option Z :=
  match keys with
  | [] => None
  | key :: keys' =>
      match schema_string_serialized_lower_bound key with
      | Some actual => Some actual
      | None => keys_too_large keys'
      end
  end.

Definition strings_too_large (value : Json) : option Z :=
  match value with
  | JString s => schema_string_serialized_lower_bound s
  | JObject m => keys_too_large (map fst m)
  | _ => None
  end.

(** [for .. in children.rev() { pending.push(..) }]; the top of the stack is
    the head of the list. *)
Definition push_children (depth : Z) (path : string) (children : list (string * Json))
    (pending : list work) : list work :=
  fold_left (fun p kv => (snd kv, depth + 1, push_pointer_segment path (fst kv))%Z :: p)
    (rev children) pending.

Definition indexed (l : list Json) : list (string * Json) :=
  imap (fun i j => (pretty i, j)) l.

(** The common end of the object and array cases. *)
Definition visit_children (nodes depth : Z) (path : string) (children : list (string * Json))
    (pending : list work) : result (Z * list work) SchemaPreflightError :=
  if (depth =? MAX_SCHEMA_DEPTH)%Z && negb (bool_decide (children = [])) then
    Err (PSchemaTooDeep (depth + 1))
  else
    let frontier :=
      saturating_add (saturating_add nodes (Z.of_nat (length pending))) (Z.of_nat (length children)) in
    if (MAX_SCHEMA_NODES <? frontier)%Z then Err (PSchemaTooComplex frontier)
    else Ok (nodes, push_children depth path children pending).

(** One turn of the loop on the popped value. *)
Definition inspect_value (nodes : Z) (item : work) (pending : list work) :
    result (Z * list work) SchemaPreflightError :=
  let '(value, depth, path) := item in
  match strings_too_large value with
  | Some actual => Err (PSchemaTooLarge actual)
  | None =>
      if (MAX_SCHEMA_DEPTH <? depth)%Z then Err (PSchemaTooDeep depth) else
      let nodes := saturating_add nodes 1 in
      if (MAX_SCHEMA_NODES <? nodes)%Z then Err (PSchemaTooComplex nodes) else
      match value with
      | JObject m =>
          match obj_get "$schema" m with
          | Some (JString uri) =>
              match supported_schema_draft uri with
              | None => Err (PUnsupportedSchemaDialect (child_pointer path "$schema"))
              | Some _ => visit_children nodes depth path m pending
              end
          | _ => visit_children nodes depth path m pending
          end
      | JArray l => visit_children nodes depth path (indexed l) pending
      | _ => Ok (nodes, pending)
      end
  end.

(** [while let Some(..) = pending.pop()]; [None] when the fuel runs out. *)
Fixpoint inspect_loop (fuel : nat) (nodes : Z) (pending : list work) :
    option (result unit SchemaPreflightError) :=
  match pending with
  | [] => Some (Ok tt)
  | item :: pending' =>
      match fuel with
      | O => None
      | S fuel' =>
          match inspect_value nodes item pending' with
          | Err e => Some (Err e)
          | Ok (nodes', pending'') => inspect_loop fuel' nodes' pending''
          end
      end
  end.

Definition check_serialized (schema : Json) : result unit SchemaPreflightError :=
  let writer := {| w_size := 0; w_limit := MAX_SCHEMA_BYTES; w_overflowed := false |} in
  match write_chunks writer (json_chunks schema) with
  | (_, true) => Ok tt
  | (w, false) =>
      if w_overflowed w then Err (PSchemaTooLarge (MAX_SCHEMA_BYTES + 1)) else Err PInvalidRoot
  end.

(** Each turn counts a node and the loop ends above the node limit. *)
Definition inspect_fuel : nat := Z.to_nat MAX_SCHEMA_NODES + 1.

Definition inspect_schema_limits (schema : Json) : option (result unit SchemaPreflightError) :=
  match schema with
  | JBool _ | JObject _ =>
      match inspect_loop inspect_fuel 0 [(schema, 0%Z, EmptyString)] with
      | Some (Ok _) => Some (check_serialized schema)
      | other => other
      end
  | _ => Some (Err PInvalidRoot)
  end.

End Inspect.

(** ** Meta-schema validation *)

Definition declared_schema_draft (schema : Json) : option Draft :=
  object ← as_object schema;
  declared ← obj_get "$schema" object;
  uri ← as_str declared;
  supported_schema_draft uri.

(** [str::replace] of a two-byte pattern. *)
Fixpoint replace2 (a b to : byte) (bs : list byte) : list byte :=
  match bs with
  | x :: r =>
      match r with
      | y :: r' =>
          if bool_decide (x = a) && bool_decide (y = b) then to :: replace2 a b to r'
          else x :: replace2 a b to r
      | [] => bs
      end
  | [] => []
  end.

(** [rsplit('/').next()]: the text after the last slash, all of it if none. *)
Fixpoint after_last_slash (seg bs : list byte) : list byte :=
  match bs with
  | [] => seg
  | b :: bs' => if bool_decide (b = Byte.x2f) then after_last_slash [] bs' else after_last_slash (seg ++ [b]) bs'
  end.

Definition schema_keyword_from_pointer (pointer fallback : string) : string :=
  let segment := after_last_slash [] (s2b pointer) in
  let candidate :=
    if bool_decide (segment = []) then fallback
    else b2s (replace2 Byte.x7e Byte.x30 Byte.x7e (replace2 Byte.x7e Byte.x31 Byte.x2f segment)) in
  bounded_token candidate (Z.of_nat MAX_ERROR_FIELD_BYTES).

Definition schema_validation_error (error : ValidationError) : SchemaValidationError :=
  let path := bounded_pointer (instance_path error) in
  let keyword := schema_keyword_from_pointer (instance_path error) (error_keyword error) in
  let kind := validation_kind_name (error_kind error) in
  new_with_message path keyword KMetaSchema
    ("keyword=" +:+ keyword +:+ " kind=" +:+ kind +:+ " path=" +:+ path).

Definition strip_slash (path : string) : string :=
  match s2b path with
  | b :: bs => if bool_decide (b = Byte.x2f) then b2s bs else path
  | [] => path
  end.

Definition prefix_legacy_tuple_error (index : nat) (error : SchemaValidationError) :
    SchemaValidationError :=
  let suffix := strip_slash (sve_path error) in
  let raw_path :=
    if is_empty suffix then "/items/" +:+ pretty index
    else "/items/" +:+ pretty index +:+ "/" +:+ suffix in
  let path := bounded_pointer raw_path in
  new_with_message path (sve_keyword error) KMetaSchema
    ("keyword=" +:+ sve_keyword error +:+ " kind=" +:+ kind_debug (sve_kind error) +:+ " path=" +:+ path).

Definition root_legacy_tuple_items (schema : Json) : option (list Json) :=
  object ← as_object schema;
  items ← obj_get "items" object;
  as_array items.

Definition is_type_kind (k : ValidationErrorKind) : bool :=
  match k with Type_ => true | _ => false end.

Definition is_root_legacy_tuple_items_error (schema : Json) (instance_path : string)
    (kind : ValidationErrorKind) : bool :=
  str_eqb instance_path "/items" && is_type_kind kind &&
  match root_legacy_tuple_items schema with Some _ => true | None => false end.

Section Validate.
Context `{JsonText} `{JsonChunks} `{JsonSchemaCrate}.

Fixpoint validate_items_from (index : nat) (items : list Json) : result unit SchemaValidationError :=
  match items with
  | [] => Ok tt
  | item :: items' =>
      match meta_validate Draft7 item with
      | Err error => Err (prefix_legacy_tuple_error index (schema_validation_error error))
      | Ok _ => validate_items_from (S index) items'
      end
  end.

Definition validate_legacy_tuple_items (items : list Json) : result unit SchemaValidationError :=
  match items with
  | [] => Err (schema_error_new "/items" "items" KMetaSchema)
  | _ => validate_items_from 0 items
  end.

Fixpoint first_modern_error (schema : Json) (errors : list ValidationError) :
    result unit SchemaValidationError :=
  match errors with
  | [] => Ok tt
  | error :: errors' =>
      if is_root_legacy_tuple_items_error schema (instance_path error) (error_kind error)
      then first_modern_error schema errors'
      else Err (schema_validation_error error)
  end.

Definition validate_modern_schema_with_legacy_compatibility (schema : Json) :
    result unit SchemaValidationError :=
  let? _ := match root_legacy_tuple_items schema with
            | Some items => validate_legacy_tuple_items items
            | None => Ok tt
            end in
  let? _ := map_err schema_validation_error (meta_validate Draft7 schema) in
  first_modern_error schema (meta_errors_202012 schema).

(** [None] only if the inspection ran out of fuel. *)
Definition validate_json_schema (schema : Json) : option (result unit SchemaValidationError) :=
  inspected ← inspect_schema_limits schema;
  Some (
    let? _ := map_err schema_preflight_error inspected in
    match schema with
    | JBool _ => Ok tt
    | _ =>
        match declared_schema_draft schema with
        | Some DraftUnknown => Err (schema_error_new "/$schema" "$schema" KUnsupportedSchemaDialect)
        | Some draft => map_err schema_validation_error (meta_validate draft schema)
        | None => validate_modern_schema_with_legacy_compatibility schema
        end
    end).

Definition compile_instance_validator (schema : Json) : result Validator string :=
  let compiled :=
    match declared_schema_draft schema with
    | Some DraftUnknown | None => draft_new Draft7 schema
    | Some draft => draft_new draft schema
    end in
  map_err (fun error => bounded_message (error_text error) MAX_DIAGNOSTIC_BYTES) compiled.

(** The diagnostic for arguments that do not match their schema. *)
Definition argument_error (error : ValidationError) : string :=
  let path := bounded_pointer (instance_path error) in
  let keyword := bounded_token (error_keyword error) (Z.of_nat MAX_ERROR_FIELD_BYTES) in
  bounded_message ("keyword=" +:+ keyword +:+ " path=" +:+ path) MAX_DIAGNOSTIC_BYTES.

Definition validate_tool_arguments (schema arguments : Json) : result unit string :=
  let? validator := compile_instance_validator schema in
  map_err argument_error (validate validator arguments).

End Validate.

(** ** Canonical form and identity *)

Fixpoint canonicalize_json (value : Json) : Json :=
  match value with
  | JArray values => JArray (map canonicalize_json values)
  | JObject object =>
      let canonical := map (fun kv => (fst kv, canonicalize_json (snd kv))) object in
      let keys := sort_by_key (fun a b => negb (str_ltb b a)) (fun k => k) (map fst object) in
      JObject (fold_left (fun acc key =>
                 match obj_get key canonical with
                 | Some v => obj_insert key v acc
                 | None => acc
                 end) keys [])
  | scalar => scalar
  end.

Definition registry_identity `{JsonText} (entries : list ToolDescriptor) : string :=
  let value := JArray (map descriptor_to_value entries) in
  let canonical := canonicalize_json value in
  "sha256:" +:+ Sha256.sha256_hex (s2b (json_text canonical)).

(** ** Admission *)

Definition is_provider_safe_tool_name (name : string) : bool :=
  forallb (fun b => is_ascii_alphanumeric b || bool_decide (b = Byte.x5f) || bool_decide (b = Byte.x2d))
    (s2b name).

Definition blank (s : string) : bool := is_empty (trim s).

Section Admission.
Context `{JsonText} `{JsonChunks} `{JsonSchemaCrate}.

Definition map_preflight_error (d : ToolDescriptor) (error : SchemaPreflightError) : ToolRegistryError :=
  match error with
  | PSchemaTooLarge actual => SchemaTooLarge (name d) MAX_SCHEMA_BYTES actual
  | PSchemaTooComplex actual => SchemaTooComplex (name d) MAX_SCHEMA_NODES actual
  | PSchemaTooDeep actual => SchemaTooDeep (name d) MAX_SCHEMA_DEPTH actual
  | PUnsupportedSchemaDialect _ => UnsupportedSchemaDialect (name d)
  | PInvalidRoot =>
      InvalidSchema (name d) (sve_message (schema_error_new "/" "schema" KInvalidRoot))
  end.

(** The checks before the schema, with the set of names seen so far. *)
Definition preflight_fields (d : ToolDescriptor) (names : gset string) :
    result (gset string) ToolRegistryError :=
  if (MAX_TOOL_NAME_BYTES <? slen (name d))%Z then
    Err (ToolNameTooLong (bounded_string (name d) MAX_ERROR_FIELD_BYTES) MAX_TOOL_NAME_BYTES)
  else if blank (name d) then Err EmptyName
  else if negb (is_provider_safe_tool_name (name d)) then
    Err (InvalidToolName (bounded_string (name d) MAX_ERROR_FIELD_BYTES))
  else if bool_decide (name d ∈ names) then Err (DuplicateName (name d))
  else if (MAX_DESCRIPTION_BYTES <? slen (description d))%Z then
    Err (DescriptionTooLong (name d) MAX_DESCRIPTION_BYTES)
  else if blank (description d) then Err (EmptyDescription (name d))
  else if (MAX_RISK_CLASS_BYTES <? slen (risk_class d))%Z then
    Err (UnsupportedRiskClass (name d) (bounded_string (risk_class d) MAX_ERROR_FIELD_BYTES))
  else if blank (risk_class d) then Err (EmptyRiskClass (name d))
  else if negb (is_ok (risk_class_try_from (risk_class d))) then
    Err (UnsupportedRiskClass (name d) (bounded_string (risk_class d) MAX_ERROR_FIELD_BYTES))
  else if (MAX_TOOLSET_BYTES <? slen (toolset d))%Z || negb (is_ok (toolset_try_from (toolset d))) then
    Err (UnsupportedToolset (name d) (bounded_string (toolset d) MAX_ERROR_FIELD_BYTES))
  else Ok ({[name d]} ∪ names).

Definition preflight_descriptor (d : ToolDescriptor) (names : gset string) :
    option (result (gset string) ToolRegistryError) :=
  match preflight_fields d names with
  | Err e => Some (Err e)
  | Ok names' =>
      inspected ← inspect_schema_limits (schema d);
      Some (let? _ := map_err (map_preflight_error d) inspected in Ok names')
  end.

Record ToolRegistrySnapshot := {
  entries : list ToolDescriptor;
  descriptors : list ToolDescriptor;
  names : list string;
  identity : string;
  validators : list Validator
}.

(** First pass: [collected] and [names] grow together. *)
Fixpoint collect_entries (collected : list ToolDescriptor) (names : gset string)
    (input : list ToolDescriptor) : option (result (list ToolDescriptor) ToolRegistryError) :=
  match input with
  | [] => Some (Ok collected)
  | entry :: input' =>
      if bool_decide (length collected = MAX_REGISTRY_ENTRIES) then
        Some (Err (TooManyEntries MAX_REGISTRY_ENTRIES))
      else
        checked ← preflight_descriptor entry names;
        match checked with
        | Err e => Some (Err e)
        | Ok names' => collect_entries (collected ++ [entry]) names' input'
        end
  end.

Fixpoint validate_schemas (collected : list ToolDescriptor) : option (result unit ToolRegistryError) :=
  match collected with
  | [] => Some (Ok tt)
  | entry :: rest =>
      checked ← validate_json_schema (schema entry);
      match checked with
      | Err error => Some (Err (InvalidSchema (name entry) (sve_message error)))
      | Ok _ => validate_schemas rest
      end
  end.

Definition compile_validators (collected : list ToolDescriptor) :
    result (list Validator) ToolRegistryError :=
  try_map (fun entry => map_err (InvalidSchema (name entry)) (compile_instance_validator (schema entry)))
    collected.

(** [ToolRegistry::new]; [None] only if an inspection ran out of fuel. *)
Definition registry_new (input : list ToolDescriptor) :
    option (result ToolRegistrySnapshot ToolRegistryError) :=
  collected ← collect_entries [] ∅ input;
  match collected with
  | Err e => Some (Err e)
  | Ok collected =>
      validated ← validate_schemas collected;
      Some (
        let? _ := validated in
        let? validators := compile_validators collected in
        Ok {| entries := collected; descriptors := collected; names := map name collected;
              identity := registry_identity collected; validators := validators |})
  end.

(** ** The snapshot *)

Fixpoint position (n : string) (l : list ToolDescriptor) : option nat :=
  match l with
  | [] => None
  | d :: l' => if str_eqb (name d) n then Some 0 else S <$> position n l'
  end.

Definition entry (s : ToolRegistrySnapshot) (n : string) : option ToolDescriptor :=
  List.find (fun d => str_eqb (name d) n) (entries s).

Definition schemas (s : ToolRegistrySnapshot) : Json :=
  JArray (map descriptor_to_value (descriptors s)).

(** [None] where indexing the validators would panic. *)
Definition validate_arguments (s : ToolRegistrySnapshot) (n : string) (arguments : Json) :
    option (result unit string) :=
  match position n (entries s) with
  | None => Some (Err (bounded_message "unknown tool" MAX_DIAGNOSTIC_BYTES))
  | Some index =>
      validator ← validators s !! index;
      Some (map_err argument_error (validate validator arguments))
  end.

Definition frozen_argument_validator (s : ToolRegistrySnapshot) (n : string) :
    option (option Validator) :=
  match position n (entries s) with
  | None => Some None
  | Some index => validator ← validators s !! index; Some (Some validator)
  end.

End Admission.

End Registry.
