(* ===== verification/RegistrySpec.v ===== *)
(** * What the tool registry guarantees

    The inspection of a schema against a recursive definition of the limits,
    admission of a registry as an equivalence, the snapshot's own invariant
    and accessors, and the bounds of every diagnostic. *)

From S2P Require Import Prelude Utf8 Json Sha256 Registry.
From stdpp Require Import pretty gmap.
Import Registry.

(** ** Bounded text *)

Definition one_byte (keep : char -> bool) : Prop := forall c, keep c = true -> exists b, c = [b].

Definition replaced (keep : char -> bool) (c : char) : char := if keep c then c else s2b "?".

Lemma replaced_one keep c : one_byte keep -> length (replaced keep c) = 1.
Proof. intros Hk. unfold replaced. destruct (keep c) eqn:E; [|done]. by destruct (Hk c E) as [b ->]. Qed.

Lemma b2s_app a b : b2s (a ++ b) = b2s a +:+ b2s b.
Proof. apply s2b_inj. by rewrite s2b_app, !s2b_b2s. Qed.

Lemma str_app_nil_r s : s +:+ EmptyString = s.
Proof. apply s2b_inj. by rewrite s2b_app, app_nil_r. Qed.

Lemma str_app_assoc a b c : (a +:+ b) +:+ c = a +:+ b +:+ c.
Proof. apply s2b_inj. by rewrite !s2b_app, app_assoc. Qed.

Lemma slen_b2s bs : slen (b2s bs) = Z.of_nat (length bs).
Proof. unfold slen, blen. by rewrite s2b_b2s. Qed.

(** The loop keeps as many replaced characters as fit. *)
Lemma push_bounded_eq keep limit s cs :
  one_byte keep -> (slen s <= limit)%Z ->
  push_bounded keep limit s cs =
    s +:+ b2s (take (Z.to_nat (limit - slen s)) (concat (map (replaced keep) cs))).
Proof.
  intros Hk. revert s. induction cs as [|c cs IH]; intros s Hs; cbn [push_bounded map concat].
  - by rewrite take_nil, str_app_nil_r.
  - change (if keep c then c else s2b "?") with (replaced keep c).
    pose proof (replaced_one keep c Hk) as H1. unfold len_utf8. rewrite H1.
    destruct (replaced keep c) as [|b [|]]; try discriminate H1. cbn [app].
    destruct (Z.ltb_spec limit (slen s + Z.of_nat 1)).
    + replace (Z.to_nat (limit - slen s)) with 0 by lia. by rewrite str_app_nil_r.
    + assert (slen (s +:+ b2s [b]) = slen s + 1)%Z as Hl by (rewrite slen_app, slen_b2s; done).
      rewrite IH by lia. rewrite Hl.
      replace (Z.to_nat (limit - slen s)) with (S (Z.to_nat (limit - (slen s + 1)))) by lia.
      cbn [take]. rewrite str_app_assoc, <- b2s_app. done.
Qed.

(** Printable ASCII, with and without the space. *)
Definition printable (s : string) : bool := forallb (in_range 32 126) (s2b s).
Definition graphic (s : string) : bool := forallb (in_range 33 126) (s2b s).

Definition classed (p : byte -> bool) (keep : char -> bool) : Prop :=
  forall c, keep c = true -> exists b, c = [b] /\ p b = true.

Lemma classed_one p keep : classed p keep -> one_byte keep.
Proof. intros H c Hc. destruct (H c Hc) as (b & -> & _). by exists b. Qed.

Lemma push_bounded_class p keep limit cs :
  classed p keep -> p Byte.x3f = true -> (0 <= limit)%Z ->
  let t := push_bounded keep limit EmptyString cs in
  (slen t <= limit)%Z /\ forallb p (s2b t) = true.
Proof.
  intros Hk Hq Hl t. subst t. rewrite push_bounded_eq by (by eauto using classed_one). cbn [String.append].
  change (slen EmptyString) with 0%Z. rewrite Z.sub_0_r. change (EmptyString +:+ ?x) with x.
  rewrite slen_b2s, s2b_b2s, length_take. split; [lia|].
  apply forallb_forall. intros b Hb%list_elem_of_In.
  apply (subseteq_take _ _ _) in Hb. apply list_elem_of_In, in_concat in Hb as (c & Hc & Hb).
  apply in_map_iff in Hc as (c0 & <- & _). unfold replaced in Hb.
  destruct (keep c0) eqn:E; [|by destruct Hb as [<-|[]]].
  destruct (Hk c0 E) as (b0 & -> & Hp). by destruct Hb as [<-|[]].
Qed.

Lemma classed_graphic : classed (in_range 33 126) is_ascii_graphic.
Proof. intros [|b [|]] H; try discriminate H. by exists b. Qed.

Lemma classed_pointer : classed (in_range 33 126) pointer_char.
Proof.
  intros c [H|H%bool_decide_eq_true]%orb_true_iff; [by apply classed_graphic|].
  subst c. by exists Byte.x2f.
Qed.

Lemma classed_message : classed (in_range 32 126) message_char.
Proof.
  intros [|b [|]] [H1 H2]%andb_true_iff; try discriminate H1. exists b. split; [done|].
  cbn in H1, H2. apply in_range_iff. apply in_range_iff in H1.
  apply negb_true_iff, orb_false_iff in H2 as [H2 H3].
  assert (~ (0 <= bval b <= 31)%Z) by (rewrite <- in_range_iff; congruence).
  assert (~ (127 <= bval b <= 127)%Z) by (rewrite <- in_range_iff; congruence). lia.
Qed.

Lemma bounded_message_ok v limit : (0 <= limit)%Z ->
  (slen (bounded_message v limit) <= limit)%Z /\ printable (bounded_message v limit) = true.
Proof. intros H. apply push_bounded_class; [apply classed_message|done|done]. Qed.

Lemma bounded_token_ok v limit : (0 <= limit)%Z ->
  (slen (bounded_token v limit) <= limit)%Z /\ graphic (bounded_token v limit) = true.
Proof. intros H. apply push_bounded_class; [apply classed_graphic|done|done]. Qed.

Lemma bounded_pointer_ok v :
  (1 <= slen (bounded_pointer v) <= MAX_POINTER_BYTES)%Z /\ graphic (bounded_pointer v) = true.
Proof.
  unfold bounded_pointer.
  destruct (push_bounded_class (in_range 33 126) pointer_char MAX_POINTER_BYTES (chars v)
              classed_pointer eq_refl ltac:(done)) as [Hl Hg].
  destruct (push_bounded _ _ _ _) as [|a t] eqn:E; [done|]. cbn [is_empty].
  split; [|done]. split; [|done]. unfold slen, blen. rewrite s2b_cons. cbn [length]. lia.
Qed.

(** Pointers built while walking a schema never outgrow their limit, so the
    remaining room is never computed below zero. *)
Lemma push_segment_chars_le path cs :
  (slen path <= MAX_POINTER_BYTES)%Z -> (slen (push_segment_chars path cs) <= MAX_POINTER_BYTES)%Z.
Proof.
  revert path. induction cs as [|c cs IH]; intros path Hp; cbn [push_segment_chars]; [done|].
  repeat case_match; bool_to_prop; try done; apply IH; rewrite slen_app; try lia.
  destruct c as [|b [|]]; try discriminate. change (slen (b2s [b])) with 1%Z. lia.
Qed.

Lemma push_pointer_segment_le path segment :
  (slen (push_pointer_segment path segment) <= MAX_POINTER_BYTES)%Z.
Proof.
  unfold push_pointer_segment. repeat case_match; bool_to_prop.
  - unfold str_take. rewrite slen_b2s, length_take.
    pose proof (floor_boundary_le (s2b path) (Z.to_nat MAX_POINTER_BYTES)).
    unfold MAX_POINTER_BYTES in *. lia.
  - done.
  - apply push_segment_chars_le. rewrite slen_app. change (slen "/") with 1%Z. lia.
Qed.

(** ** The size-limited writer *)

Fixpoint total_slen (l : list string) : Z :=
  match l with [] => 0 | s :: l' => slen s + total_slen l' end.

Lemma total_slen_nonneg l : (0 <= total_slen l)%Z.
Proof. induction l as [|s l IH]; cbn; [done|]. pose proof (slen_nonneg s). lia. Qed.

Lemma total_slen_concat l : total_slen l = slen (String.concat EmptyString l).
Proof.
  induction l as [|s l IH]; [done|].
  rewrite CompactText.concat_nil_cons, slen_app, <- IH. done.
Qed.

(** Writing succeeds exactly within the limit, and a failure is an overflow. *)
Lemma write_chunks_ok pieces w :
  (0 <= w_size w <= w_limit w)%Z ->
  let r := write_chunks w pieces in
  snd r = bool_decide (w_size w + total_slen pieces <= w_limit w)%Z /\
  (snd r = false -> w_overflowed (fst r) = true).
Proof.
  revert w. induction pieces as [|p pieces IH]; intros w Hw; cbn [write_chunks].
  { split; [|done]. symmetry. apply bool_decide_eq_true. cbn. lia. }
  change (total_slen (p :: pieces)) with (slen p + total_slen pieces)%Z.
  pose proof (total_slen_nonneg pieces). pose proof (slen_nonneg p).
  destruct (is_empty p) eqn:Hp.
  { destruct p; [|done]. change (slen EmptyString) with 0%Z. by apply IH. }
  unfold writer_write. destruct (Z.ltb_spec (saturating_sub (w_limit w) (w_size w)) (slen p)) as [Hlt|Hge];
    unfold saturating_sub in *.
  - split; [|done]. symmetry. apply bool_decide_eq_false. cbn [w_size w_limit]. lia.
  - set (w' := {| w_size := _ |}). destruct (IH w') as [H1 H2]; [unfold w'; cbn [w_size w_limit]; lia|].
    rewrite H1. split; [|by rewrite <- H1]. apply bool_decide_ext. unfold w'. cbn [w_size w_limit]. lia.
Qed.

(** ** The limits of a schema, recursively *)

Definition children_of (j : Json) : list (string * Json) :=
  match j with JObject m => m | JArray l => indexed l | _ => [] end.

Definition declares_supported (j : Json) : bool :=
  match j with
  | JObject m =>
      match obj_get "$schema" m with
      | Some (JString uri) => match supported_schema_draft uri with Some _ => true | None => false end
      | _ => true
      end
  | _ => true
  end.

Definition fits_budget (s : string) : bool := (slen s + 2 <=? MAX_SCHEMA_BYTES)%Z.

(** Strings and keys of one value fit the budget, its dialect is supported. *)
Definition value_fits (j : Json) : bool :=
  match j with
  | JString s => fits_budget s
  | JObject m => forallb fits_budget (map fst m)
  | _ => true
  end && declares_supported j.

Fixpoint values_fit (j : Json) : bool :=
  value_fits j &&
  match j with
  | JArray l => forallb values_fit l
  | JObject m => forallb (fun kv => values_fit (snd kv)) m
  | _ => true
  end.

Fixpoint node_count (j : Json) : Z :=
  (1 + match j with
       | JArray l => fold_right (fun c n => node_count c + n) 0 l
       | JObject m => fold_right (fun kv n => node_count (snd kv) + n) 0 m
       | _ => 0
       end)%Z.

Fixpoint height (j : Json) : Z :=
  match j with
  | JArray l => fold_right (fun c n => Z.max (1 + height c) n) 0 l
  | JObject m => fold_right (fun kv n => Z.max (1 + height (snd kv)) n) 0 m
  | _ => 0
  end%Z.

Definition is_schema_root (j : Json) : bool :=
  match j with JBool _ | JObject _ => true | _ => false end.

(** What a schema must be to pass the inspection. *)
Definition schema_admissible `{JsonText} (j : Json) : bool :=
  is_schema_root j && values_fit j && (node_count j <=? MAX_SCHEMA_NODES)%Z &&
  (height j <=? MAX_SCHEMA_DEPTH)%Z && (slen (json_text j) <=? MAX_SCHEMA_BYTES)%Z.

(** The recursions through the list of children. *)
Definition sum_nodes (l : list Json) : Z := fold_right (fun c n => node_count c + n)%Z 0%Z l.

Lemma sum_nodes_cons c l : sum_nodes (c :: l) = (node_count c + sum_nodes l)%Z.
Proof. done. Qed.

Lemma snd_indexed l : map snd (indexed l) = l.
Proof.
  unfold indexed. change (map snd ?x) with (snd <$> x). rewrite fmap_imap.
  apply list_eq. intros i. rewrite list_lookup_imap. by destruct (l !! i).
Qed.

Lemma values_fit_children j :
  values_fit j = value_fits j && forallb values_fit (map snd (children_of j)).
Proof.
  destruct j as [| | | |l|m]; try reflexivity.
  - cbn [children_of]. by rewrite snd_indexed.
  - cbn [children_of values_fit]. f_equal. induction m as [|kv m IH]; cbn; by rewrite ?IH.
Qed.

Lemma node_count_children j : node_count j = (1 + sum_nodes (map snd (children_of j)))%Z.
Proof.
  destruct j as [| | | |l|m]; try done; cbn [children_of]; [by rewrite snd_indexed|].
  cbn. f_equal. by induction m as [|kv m IH]; cbn; [|rewrite IH].
Qed.

Lemma height_children j d :
  (d + height j <= MAX_SCHEMA_DEPTH)%Z <->
  (d <= MAX_SCHEMA_DEPTH)%Z /\
  Forall (fun c => d + 1 + height c <= MAX_SCHEMA_DEPTH)%Z (map snd (children_of j)).
Proof.
  assert (forall l, (d + fold_right (fun c n => Z.max (1 + height c) n) 0 l <= MAX_SCHEMA_DEPTH)%Z <->
    (d <= MAX_SCHEMA_DEPTH)%Z /\ Forall (fun c => d + 1 + height c <= MAX_SCHEMA_DEPTH)%Z l) as Hl.
  { induction l as [|c l IH]; cbn [fold_right].
    - rewrite Forall_nil. split; [intros; split; [lia|done]|lia].
    - rewrite Forall_cons. split; [intros H; destruct IH as [IH _]; destruct IH; [lia|]; split; [done|split; [lia|done]]|].
      intros (H1 & H2 & H3). destruct IH as [_ IH]. specialize (IH (conj H1 H3)). lia. }
  destruct j as [| | | |l|m]; cbn [children_of map height];
    try (split; [intros; split; [lia|constructor]|lia]).
  - by rewrite snd_indexed.
  - rewrite <- Hl. replace (fold_right _ _ m) with (fold_right (fun c n => Z.max (1 + height c) n) 0 (map snd m))%Z;
      [done|]. by induction m as [|kv m IH]; cbn; [|rewrite IH].
Qed.

Lemma node_count_pos j : (1 <= node_count j)%Z.
Proof.
  induction j as [| | | |l IH|m IH] using json_ind'; cbn; try lia.
  - assert (0 <= fold_right (fun c n => node_count c + n) 0 l)%Z; [|lia].
    induction IH as [|c l Hc _ IHl]; cbn; lia.
  - assert (0 <= fold_right (fun kv n => node_count (snd kv) + n) 0 m)%Z; [|lia].
    induction IH as [|c l Hc _ IHl]; cbn; lia.
Qed.

Lemma sum_nodes_length l : (Z.of_nat (length l) <= sum_nodes l)%Z.
Proof.
  induction l as [|c l IH]; [done|].
  rewrite sum_nodes_cons. cbn [length]. pose proof (node_count_pos c). lia.
Qed.

Lemma sum_nodes_app a b : sum_nodes (a ++ b) = (sum_nodes a + sum_nodes b)%Z.
Proof. induction a as [|c a IH]; [done|]. cbn [app]. rewrite !sum_nodes_cons, IH. lia. Qed.

(** ** The inspection loop *)

Section InspectionProofs.
Context `{JsonText} `{JsonChunks}.

Definition below (d : Z) (p : string) (j : Json) : list work :=
  map (fun kv => (snd kv, d + 1, push_pointer_segment p (fst kv))%Z) (children_of j).

Lemma push_children_eq d p ch pending :
  push_children d p ch pending =
    map (fun kv => (snd kv, d + 1, push_pointer_segment p (fst kv))%Z) ch ++ pending.
Proof.
  unfold push_children. revert pending. induction ch as [|kv ch IH]; intros pending; [done|].
  cbn [rev map app]. rewrite fold_left_app, IH. done.
Qed.

Lemma keys_too_large_None keys : keys_too_large keys = None <-> forallb fits_budget keys = true.
Proof.
  induction keys as [|k keys IH]; [done|]. cbn.
  unfold schema_string_serialized_lower_bound, saturating_add, fits_budget, MAX_SCHEMA_BYTES, u64_max in *.
  destruct (Z.leb_spec (slen k + 2) 65536), (Z.ltb_spec 65536 (Z.min 18446744073709551615 (slen k + 2)));
    try lia; cbn; done.
Qed.

Lemma strings_too_large_None j :
  strings_too_large j = None <->
  match j with
  | JString s => fits_budget s
  | JObject m => forallb fits_budget (map fst m)
  | _ => true
  end = true.
Proof.
  destruct j; try done; [|apply keys_too_large_None].
  rewrite <- (andb_true_r (fits_budget s)). rewrite <- (keys_too_large_None [s]). cbn.
  by destruct (schema_string_serialized_lower_bound s).
Qed.

Lemma visit_children_cases n d p ch pending :
  (0 <= n)%Z ->
  (visit_children n d p ch pending = Ok (n, push_children d p ch pending) /\
   (ch = [] \/ d <> MAX_SCHEMA_DEPTH) /\
   (n + Z.of_nat (length pending) + Z.of_nat (length ch) <= MAX_SCHEMA_NODES)%Z) \/
  (exists e, visit_children n d p ch pending = Err e /\
   ((ch <> [] /\ d = MAX_SCHEMA_DEPTH) \/
    (MAX_SCHEMA_NODES < n + Z.of_nat (length pending) + Z.of_nat (length ch))%Z)).
Proof.
  intros Hn. unfold visit_children.
  destruct ((d =? MAX_SCHEMA_DEPTH)%Z && negb (bool_decide (ch = []))) eqn:E.
  { apply andb_true_iff in E as [E1%Z.eqb_eq E2%negb_true_iff%bool_decide_eq_false].
    right. eexists. split; [done|]. by left. }
  assert (ch = [] \/ d <> MAX_SCHEMA_DEPTH) as Hd.
  { apply andb_false_iff in E as [E|E]; [right; lia|left].
    by apply negb_false_iff, bool_decide_eq_true in E. }
  unfold saturating_add, u64_max, MAX_SCHEMA_NODES.
  case_match; bool_to_prop; [right; eexists; split; [done|]; right; lia|].
  left. split; [done|]. split; [done|lia].
Qed.

(** The turn on a value, with the object and array cases merged. *)
Lemma inspect_value_eq n j d p pending :
  inspect_value n (j, d, p) pending =
  match strings_too_large j with
  | Some actual => Err (PSchemaTooLarge actual)
  | None =>
      if (MAX_SCHEMA_DEPTH <? d)%Z then Err (PSchemaTooDeep d) else
      if (MAX_SCHEMA_NODES <? saturating_add n 1)%Z then Err (PSchemaTooComplex (saturating_add n 1)) else
      if negb (declares_supported j) then Err (PUnsupportedSchemaDialect (child_pointer p "$schema")) else
      match j with
      | JObject _ | JArray _ => visit_children (saturating_add n 1) d p (children_of j) pending
      | _ => Ok (saturating_add n 1, pending)
      end
  end.
Proof.
  unfold inspect_value. destruct (strings_too_large j); [done|].
  destruct (MAX_SCHEMA_DEPTH <? d)%Z; [done|].
  destruct (MAX_SCHEMA_NODES <? saturating_add n 1)%Z; [done|].
  destruct j as [| | | | |m]; try done. cbn [declares_supported children_of].
  destruct (obj_get "$schema" m) as [[]|]; try done. by destruct (supported_schema_draft _).
Qed.

Lemma inspect_value_ok n j d p pending r :
  (0 <= n <= MAX_SCHEMA_NODES)%Z -> inspect_value n (j, d, p) pending = Ok r ->
  value_fits j = true /\ (d <= MAX_SCHEMA_DEPTH)%Z /\ (n + 1 <= MAX_SCHEMA_NODES)%Z /\
  r = ((n + 1)%Z, below d p j ++ pending).
Proof.
  rewrite inspect_value_eq. intros Hn Hr.
  assert (saturating_add n 1 = n + 1)%Z as Hs
    by (unfold saturating_add, u64_max, MAX_SCHEMA_NODES in *; lia).
  rewrite Hs in Hr. destruct (strings_too_large j) eqn:E1; [done|]. apply strings_too_large_None in E1.
  case_match; [done|]. case_match; [done|]. destruct (declares_supported j) eqn:E2; [|done].
  bool_to_prop. unfold value_fits. split; [by rewrite E1, E2|]. split; [lia|]. split; [lia|].
  unfold below. rewrite <- push_children_eq.
  destruct (visit_children_cases (n + 1) d p (children_of j) pending) as [(Hc & _)|(e & Hc & _)]; [lia| |];
    rewrite Hc in Hr; destruct j; cbn in Hr |- *; congruence.
Qed.

Lemma inspect_value_complete n j d p pending :
  (0 <= n)%Z -> value_fits j = true -> (d <= MAX_SCHEMA_DEPTH)%Z ->
  (children_of j = [] \/ d <> MAX_SCHEMA_DEPTH) ->
  (n + 1 + Z.of_nat (length pending) + Z.of_nat (length (children_of j)) <= MAX_SCHEMA_NODES)%Z ->
  inspect_value n (j, d, p) pending = Ok ((n + 1)%Z, below d p j ++ pending).
Proof.
  intros Hn [Hv Hs]%andb_true_iff Hd Hc Hb. rewrite inspect_value_eq.
  apply strings_too_large_None in Hv. rewrite Hv, Hs.
  assert (saturating_add n 1 = n + 1)%Z as -> by (unfold saturating_add, u64_max, MAX_SCHEMA_NODES in *; lia).
  case_match; bool_to_prop; [lia|]. case_match; bool_to_prop; [lia|]. cbn [negb].
  unfold below. rewrite <- push_children_eq.
  destruct (visit_children_cases (n + 1) d p (children_of j) pending) as [(Hr & _)|(e & _ & Hr)]; [lia| |];
    [|destruct Hr as [[? ?]|?]; [tauto|lia]].
  rewrite Hr. by destruct j.
Qed.

Definition item_fits (w : work) : Prop :=
  let '(j, d, _) := w in values_fit j = true /\ (d + height j <= MAX_SCHEMA_DEPTH)%Z.
Definition jsons (pending : list work) : list Json := map (fun w => fst (fst w)) pending.

Lemma jsons_below d p j pending : jsons (below d p j ++ pending) = map snd (children_of j) ++ jsons pending.
Proof. unfold jsons, below. rewrite map_app, map_map. done. Qed.

Lemma item_fits_step j d p :
  item_fits (j, d, p) <->
  value_fits j = true /\ (d <= MAX_SCHEMA_DEPTH)%Z /\ Forall item_fits (below d p j).
Proof.
  unfold item_fits at 1. rewrite values_fit_children, andb_true_iff, height_children, forallb_forall.
  unfold below. rewrite !Forall_map, !Forall_forall. cbn.
  setoid_rewrite in_map_iff. setoid_rewrite list_elem_of_In. split.
  - intros ([H1 H2] & H3 & H4). repeat split; try done; naive_solver.
  - intros (H1 & H2 & H3). repeat split; try done; [|naive_solver].
    intros c ([k v] & <- & Hin). by apply H3 in Hin as [? _].
Qed.

Lemma inspect_loop_sound fuel n pending :
  (0 <= n <= MAX_SCHEMA_NODES)%Z -> inspect_loop fuel n pending = Some (Ok tt) ->
  Forall item_fits pending /\ (n + sum_nodes (jsons pending) <= MAX_SCHEMA_NODES)%Z.
Proof.
  revert n pending. induction fuel as [|fuel IH]; intros n [|[[j d] p] pending] Hn Hl; cbn in Hl;
    try (split; [constructor|cbn; lia]); [done|].
  change (match _ with Ok _ => _ | Err _ => _ end) with
    (match inspect_value n (j, d, p) pending with
     | Err e => Some (Err e)
     | Ok (nodes', pending'') => inspect_loop fuel nodes' pending''
     end) in Hl.
  destruct (inspect_value n (j, d, p) pending) as [[n' pd]|e] eqn:E; [|done].
  apply inspect_value_ok in E as (H1 & H2 & H3 & [= -> ->]); [|done].
  apply IH in Hl as [Hf Hs]; [|lia]. apply Forall_app in Hf as [Hf1 Hf2].
  rewrite jsons_below, sum_nodes_app in Hs.
  split; [constructor; [by apply item_fits_step|done]|].
  cbn [jsons map fst]. rewrite sum_nodes_cons, node_count_children. unfold jsons in Hs. lia.
Qed.

Lemma below_not_deep j d p :
  Forall item_fits (below d p j) -> children_of j = [] \/ d <> MAX_SCHEMA_DEPTH.
Proof.
  unfold below. destruct (children_of j) as [|[k c] ch]; [by left|]. intros Hf. right.
  apply Forall_cons in Hf as [[_ Hh] _]. apply (height_children c) in Hh as [Hh _]. cbn in Hh. lia.
Qed.

Lemma inspect_loop_complete fuel n pending :
  (0 <= n)%Z -> (MAX_SCHEMA_NODES + 1 <= n + Z.of_nat fuel)%Z ->
  Forall item_fits pending -> (n + sum_nodes (jsons pending) <= MAX_SCHEMA_NODES)%Z ->
  inspect_loop fuel n pending = Some (Ok tt).
Proof.
  revert n pending. induction fuel as [|fuel IH]; intros n [|[[j d] p] pending] Hn Hb Hf Hs; try done.
  { cbn [jsons map fst] in Hs. rewrite sum_nodes_cons in Hs. pose proof (node_count_pos j).
    pose proof (sum_nodes_length (jsons pending)). unfold jsons in *. lia. }
  apply Forall_cons in Hf as [Hi Hf]. apply item_fits_step in Hi as (H1 & H2 & H3).
  cbn [jsons map fst] in Hs. rewrite sum_nodes_cons, node_count_children in Hs.
  pose proof (sum_nodes_length (map snd (children_of j))) as Hl1.
  pose proof (sum_nodes_length (jsons pending)) as Hl2.
  unfold jsons in Hl2. rewrite length_map in Hl1, Hl2.
  cbn [inspect_loop]. rewrite inspect_value_complete by (eauto using below_not_deep || lia).
  apply IH; [lia|lia|by apply Forall_app|]. rewrite jsons_below, sum_nodes_app. unfold jsons. lia.
Qed.

Lemma inspect_loop_total fuel n pending :
  (0 <= n <= MAX_SCHEMA_NODES)%Z -> (MAX_SCHEMA_NODES + 1 <= n + Z.of_nat fuel)%Z ->
  inspect_loop fuel n pending <> None.
Proof.
  revert n pending. induction fuel as [|fuel IH]; intros n [|[[j d] p] pending] Hn Hb; try done; [lia|].
  cbn [inspect_loop]. destruct (inspect_value n (j, d, p) pending) as [[n' pd]|e] eqn:E; [|done].
  apply inspect_value_ok in E as (_ & _ & ? & [= -> ->]); [|done]. apply IH; lia.
Qed.

End InspectionProofs.

(** ** Inspection as a whole *)

Lemma check_serialized_ok `{JsonText} `{JsonChunks} `{!JsonChunksLaw} j :
  check_serialized j = Ok tt <-> (slen (json_text j) <= MAX_SCHEMA_BYTES)%Z.
Proof.
  unfold check_serialized. set (w := {| w_size := 0; w_limit := _; w_overflowed := _ |}).
  destruct (write_chunks_ok (json_chunks j) w) as [Hs _]; [done|].
  rewrite total_slen_concat, json_chunks_text in Hs. change (w_size w) with 0%Z in Hs.
  change (w_limit w) with MAX_SCHEMA_BYTES in Hs. rewrite Z.add_0_l in Hs.
  destruct (write_chunks w (json_chunks j)) as [w' []]; cbn in Hs.
  - symmetry in Hs. by apply bool_decide_eq_true in Hs.
  - symmetry in Hs. apply bool_decide_eq_false in Hs. by split; [destruct (w_overflowed w')|].
Qed.

Lemma inspect_cases `{JsonText} `{JsonChunks} `{!JsonChunksLaw} j :
  exists r, inspect_schema_limits j = Some r /\ (r = Ok tt <-> schema_admissible j = true).
Proof.
  unfold schema_admissible, inspect_schema_limits.
  assert (is_schema_root j = true -> exists r,
    match inspect_loop inspect_fuel 0 [(j, 0%Z, EmptyString)] with
    | Some (Ok _) => Some (check_serialized j) | other => other end = Some r /\
    (r = Ok tt <-> values_fit j && (node_count j <=? MAX_SCHEMA_NODES)%Z &&
       (height j <=? MAX_SCHEMA_DEPTH)%Z && (slen (json_text j) <=? MAX_SCHEMA_BYTES)%Z = true)) as Hmain.
  { intros _.
    destruct (inspect_loop inspect_fuel 0 [(j, 0%Z, EmptyString)]) as [[[]|e]|] eqn:E.
    - eexists. split; [done|]. rewrite !andb_true_iff, !Z.leb_le. apply inspect_loop_sound in E as [Hf Hn]; [|done].
      apply Forall_singleton in Hf as [Hv Hh]. cbn in Hn. rewrite check_serialized_ok. intuition lia.
    - eexists. split; [done|]. rewrite !andb_true_iff, !Z.leb_le. split; [done|]. intros (((Hv & Hn) & Hh) & _). exfalso.
      rewrite inspect_loop_complete in E; [done|done|unfold inspect_fuel; lia| |].
      + apply Forall_singleton. split; [done|lia].
      + cbn. lia.
    - exfalso. revert E. apply inspect_loop_total; [done|unfold inspect_fuel; lia]. }
  destruct j as [| | | | |m]; cbn [is_schema_root andb];
    try (eexists; split; [done|]; split; done); by apply Hmain.
Qed.

(** Inspecting a schema always ends, and accepts exactly the schemas that
    are booleans or objects with at most 4096 values nested at most 128 deep,
    whose strings and keys fit the byte budget, whose declared dialects are
    supported at every level, and whose compact text is at most 65536 bytes. *)
Theorem inspect_schema_limits_spec `{JsonText} `{JsonChunks} `{!JsonChunksLaw} j :
  exists r, inspect_schema_limits j = Some r /\ (r = Ok tt <-> schema_admissible j = true).
Proof. apply inspect_cases. Qed.

(** ** Canonical form *)

(** Maps are kept sorted, so canonicalisation changes nothing. *)
Lemma canonicalize_json_id j : json_ok j = true -> canonicalize_json j = j.
Proof.
  induction j as [| | | |l IH|m IH] using json_ind'; try done; cbn [json_ok canonicalize_json]; intros Hok.
  - f_equal. rewrite forallb_forall in Hok. rewrite <- (map_id l) at 2. apply map_ext_Forall.
    rewrite Forall_forall in IH |- *. intros x Hx. apply IH; [done|]. apply Hok. by apply list_elem_of_In.
  - apply andb_true_iff in Hok as [Hs Hf]. rewrite forallb_forall in Hf. rewrite Forall_forall in IH.
    assert (map (fun kv => (fst kv, canonicalize_json (snd kv))) m = m) as ->.
    { rewrite <- (map_id m) at 2. apply map_ext_Forall. apply Forall_forall. intros [k v] Hin.
      cbn. f_equal. apply (IH (k, v) Hin). apply list_elem_of_In, Hf in Hin.
      by apply andb_true_iff in Hin as [_ ?]. }
    rewrite sort_sorted_strings by by apply obj_keys_sorted.
    rewrite fold_insert_lookup by done. f_equal. by apply obj_of_list_permutation.
Qed.

(** ** Admission *)

(** The checks on a descriptor's own fields. *)
Definition fields_ok (d : ToolDescriptor) : bool :=
  (1 <=? slen (name d))%Z && (slen (name d) <=? MAX_TOOL_NAME_BYTES)%Z &&
  is_provider_safe_tool_name (name d) &&
  (slen (description d) <=? MAX_DESCRIPTION_BYTES)%Z && negb (blank (description d)) &&
  bool_decide (risk_class d ∈ ["read"; "write"; "execute"]) &&
  bool_decide (toolset d ∈ ["coding"; "process"]).

Definition descriptor_ok `{JsonText} (d : ToolDescriptor) : bool :=
  fields_ok d && schema_admissible (schema d).

Lemma safe_name_blank n : is_provider_safe_tool_name n = true -> blank n = is_empty n.
Proof.
  intros Hs. destruct n as [|a n]; [done|]. unfold blank.
  destruct (trim (String a n)) eqn:Ht; [|done]. exfalso. apply trim_empty in Ht.
  unfold chars in Ht. rewrite s2b_cons in Ht.
  destruct (split_chars_head (Ascii.byte_of_ascii a) (s2b n)) as (c & cs & Ec). rewrite Ec in Ht.
  apply Forall_cons in Ht as [Hw _]. unfold is_provider_safe_tool_name in Hs.
  rewrite s2b_cons in Hs. cbn [forallb] in Hs. apply andb_true_iff in Hs as [Hs _].
  destruct c as [|c1 [|c2 [|]]]; cbn in Hw; try done; destruct (Ascii.byte_of_ascii a); try discriminate Hs;
    cbn in Hw; discriminate Hw.
Qed.

Lemma risk_class_known v : is_ok (risk_class_try_from v) = bool_decide (v ∈ ["read"; "write"; "execute"]).
Proof.
  unfold risk_class_try_from. symmetry.
  destruct (str_eqb_spec v "read") as [->|]; [done|].
  destruct (str_eqb_spec v "write") as [->|]; [done|].
  destruct (str_eqb_spec v "execute") as [->|]; [done|]. apply bool_decide_eq_false.
  rewrite !elem_of_cons, elem_of_nil. tauto.
Qed.

Lemma toolset_known v : is_ok (toolset_try_from v) = bool_decide (v ∈ ["coding"; "process"]).
Proof.
  unfold toolset_try_from. symmetry.
  destruct (str_eqb_spec v "coding") as [->|]; [done|].
  destruct (str_eqb_spec v "process") as [->|]; [done|].
  apply bool_decide_eq_false. rewrite !elem_of_cons, elem_of_nil. tauto.
Qed.

Lemma slen_pos_iff s : (1 <= slen s)%Z <-> is_empty s = false.
Proof.
  destruct s as [|a s]; [by vm_compute; split|]. unfold slen, blen. rewrite s2b_cons. cbn [length is_empty].
  split; [done|lia].
Qed.

(** An early return against a conjunction of conditions that excludes it. *)
Ltac refused := split; [discriminate|intros Hall; exfalso; destruct_and! Hall; (congruence || lia || tauto)].

Lemma known_risk_short v :
  v ∈ ["read"; "write"; "execute"] -> (MAX_RISK_CLASS_BYTES <? slen v)%Z = false /\ blank v = false.
Proof. rewrite !elem_of_cons, elem_of_nil. by intros [-> | [-> | [-> | []]]]. Qed.

Lemma known_toolset_short v : v ∈ ["coding"; "process"] -> (MAX_TOOLSET_BYTES <? slen v)%Z = false.
Proof. rewrite !elem_of_cons, elem_of_nil. by intros [-> | [-> | []]]. Qed.

Lemma preflight_fields_ok d seen r :
  preflight_fields d seen = Ok r <->
  fields_ok d = true /\ (name d ∉ seen) /\ r = {[name d]} ∪ seen.
Proof.
  unfold preflight_fields, fields_ok. rewrite risk_class_known, toolset_known.
  rewrite !andb_true_iff, !Z.leb_le, !bool_decide_eq_true, negb_true_iff, slen_pos_iff.
  destruct (Z.ltb_spec MAX_TOOL_NAME_BYTES (slen (name d))); [refused|].
  destruct (is_provider_safe_tool_name (name d)) eqn:Hs;
    [rewrite safe_name_blank by done|destruct (blank (name d)); refused].
  destruct (is_empty (name d)); [refused|]. cbn [negb].
  case_bool_decide; [refused|].
  destruct (Z.ltb_spec MAX_DESCRIPTION_BYTES (slen (description d))); [refused|].
  destruct (blank (description d)); [refused|].
  destruct (decide (risk_class d ∈ ["read"; "write"; "execute"])) as [Hr|Hr]; cycle 1.
  { rewrite (bool_decide_eq_false_2 (risk_class d ∈ _)) by done. cbn [negb]. repeat case_match; refused. }
  destruct (known_risk_short _ Hr) as [-> ->].
  rewrite (bool_decide_eq_true_2 (risk_class d ∈ _)) by done. cbn [negb].
  destruct (decide (toolset d ∈ ["coding"; "process"])) as [Ht|Ht]; cycle 1.
  { rewrite (bool_decide_eq_false_2 (toolset d ∈ _)), orb_true_r by done. refused. }
  rewrite known_toolset_short, (bool_decide_eq_true_2 (toolset d ∈ _)) by done. cbn [negb orb].
  split; [intros [= <-]; tauto|by intros (_ & _ & ->)].
Qed.

Section AdmissionProofs.
Context `{JsonText} `{JsonChunks} `{!JsonChunksLaw} `{JsonSchemaCrate}.

Lemma preflight_cases d seen :
  exists r, preflight_descriptor d seen = Some r /\
  (forall seen', r = Ok seen' <-> descriptor_ok d = true /\ (name d ∉ seen) /\ seen' = {[name d]} ∪ seen).
Proof.
  unfold preflight_descriptor, descriptor_ok.
  destruct (preflight_fields d seen) as [seen1|e] eqn:E; cycle 1.
  { eexists. split; [done|]. intros seen'. split; [done|]. rewrite andb_true_iff. intros ((Hf & _) & Hn & ->).
    assert (preflight_fields d seen = Ok ({[name d]} ∪ seen)) by (by apply preflight_fields_ok). congruence. }
  apply preflight_fields_ok in E as (Hf & Hn & ->). rewrite Hf. cbn [andb].
  destruct (inspect_cases (schema d)) as (r & -> & Hr). cbn. eexists. split; [done|]. intros seen'.
  rewrite <- Hr. destruct r as [[]|e]; cbn; [|by split; [|intros [? _]]].
  split; [intros [= <-]|intros (_ & _ & ->)]; done.
Qed.

Lemma collect_cases collected seen input :
  (forall n, n ∈ seen <-> n ∈ map name collected) -> NoDup (map name collected) ->
  length collected <= MAX_REGISTRY_ENTRIES ->
  exists r, collect_entries collected seen input = Some r /\
  (forall out, r = Ok out <->
    out = collected ++ input /\ length out <= MAX_REGISTRY_ENTRIES /\ NoDup (map name out) /\
    Forall (fun d => descriptor_ok d = true) input).
Proof.
  revert collected seen. induction input as [|d input IH]; intros collected seen Hseen Hnd Hlen.
  { eexists. split; [done|]. intros out. rewrite app_nil_r. split; [intros [= <-]|intros (-> & _)]; done. }
  cbn [collect_entries]. case_bool_decide as Hfull.
  { eexists. split; [done|]. intros out. split; [done|]. intros (-> & Hl & _). exfalso.
    rewrite length_app in Hl. cbn in Hl. lia. }
  destruct (preflight_cases d seen) as (r & -> & Hr). cbn [mbind option_bind].
  destruct r as [seen'|e]; cycle 1.
  { eexists. split; [done|]. intros out. split; [done|]. intros (-> & _ & Hnd' & [Hd _]%Forall_cons).
    assert (@Err (gset string) _ e = Ok ({[name d]} ∪ seen)) as Hok; [|discriminate Hok].
    apply Hr. split; [done|]. split; [|done]. rewrite Hseen. intros Hin.
    rewrite map_app in Hnd'. apply NoDup_app in Hnd' as (_ & Hnd' & _). apply (Hnd' _ Hin). by left. }
  destruct (proj1 (Hr seen') eq_refl) as (Hd & Hn & ->).
  destruct (IH (collected ++ [d]) ({[name d]} ∪ seen)) as (r & -> & Hout).
  - intros n. rewrite elem_of_union, elem_of_singleton, map_app, elem_of_app, Hseen. cbn.
    rewrite list_elem_of_singleton. tauto.
  - rewrite map_app. apply NoDup_app. split; [done|]. split; [|apply NoDup_singleton].
    intros x Hx Hin%list_elem_of_singleton. subst x. by rewrite Hseen in Hn.
  - rewrite length_app. cbn. lia.
  - eexists. split; [done|]. intros out. rewrite Hout, <- app_assoc, Forall_cons. tauto.
Qed.

Definition schema_valid (d : ToolDescriptor) : Prop := validate_json_schema (schema d) = Some (Ok tt).

Lemma validate_json_schema_total j : exists r, validate_json_schema j = Some r.
Proof. unfold validate_json_schema. destruct (inspect_cases j) as (r & -> & _). cbn. eauto. Qed.

Lemma validate_schemas_cases l :
  exists r, validate_schemas l = Some r /\ (r = Ok tt <-> Forall schema_valid l).
Proof.
  induction l as [|d l (r & IH & Hr)]; [by exists (Ok tt)|]. cbn [validate_schemas].
  destruct (validate_json_schema_total (schema d)) as [v Hv]. rewrite Hv. cbn [mbind option_bind].
  unfold schema_valid in *. destruct v as [[]|e].
  - exists r. split; [done|]. rewrite Forall_cons. tauto.
  - eexists. split; [done|]. rewrite Forall_cons. split; [done|intros [? _]; congruence].
Qed.

Definition compiles (d : ToolDescriptor) (v : Validator) : Prop :=
  compile_instance_validator (schema d) = Ok v.

Lemma compile_validators_Ok l vs : compile_validators l = Ok vs <-> Forall2 compiles l vs.
Proof.
  unfold compile_validators, compiles. rewrite try_map_Ok.
  split; intros Hf; (eapply Forall2_impl; [exact Hf|]); intros d v; cbn; destruct (compile_instance_validator (schema d)); cbn; congruence.
Qed.

(** The snapshot a list of descriptors is admitted to. *)
Definition admitted (input : list ToolDescriptor) (s : ToolRegistrySnapshot) : Prop :=
  length input <= MAX_REGISTRY_ENTRIES /\ NoDup (map name input) /\
  Forall (fun d => descriptor_ok d = true) input /\ Forall schema_valid input /\
  Forall2 compiles input (validators s) /\
  entries s = input /\ descriptors s = input /\ names s = map name input /\
  identity s = registry_identity input.

Lemma registry_new_cases input :
  exists r, registry_new input = Some r /\ (forall s, r = Ok s <-> admitted input s).
Proof.
  unfold registry_new, admitted.
  destruct (collect_cases [] ∅ input) as (r & -> & Hr).
  { intros n. split; intros Hin; [by apply not_elem_of_empty in Hin|by apply elem_of_nil in Hin]. }
  { constructor. }
  { cbn. lia. }
  cbn [app mbind option_bind] in *. destruct r as [out|e]; cycle 1.
  { eexists. split; [done|]. intros s. split; [done|]. intros (? & ? & ? & _).
    assert (@Err (list ToolDescriptor) _ e = Ok input) as Hok by (by apply Hr). discriminate Hok. }
  destruct (proj1 (Hr out) eq_refl) as (-> & Hl & Hnd & Hd).
  destruct (validate_schemas_cases input) as (r & -> & Hv). cbn. eexists. split; [done|]. intros s.
  rewrite <- Hv. destruct r as [[]|e]; [|by split; [|intros (_ & _ & _ & ? & _)]].
  destruct (compile_validators input) as [vs|e] eqn:Hc.
  - apply compile_validators_Ok in Hc. split; [by intros [= <-]|].
    intros (_ & _ & _ & _ & Hvs & He & Hds & Hn & Hi). apply compile_validators_Ok in Hvs, Hc.
    rewrite Hvs in Hc. destruct s; cbn in *. congruence.
  - split; [done|]. intros (_ & _ & _ & _ & Hvs & _). apply compile_validators_Ok in Hvs. congruence.
Qed.

(** C9. Building a registry always ends, and succeeds exactly for at most 64
    descriptors with distinct provider-safe names whose fields and schemas
    are within the limits, whose schemas the meta-schema accepts and the
    validator compiles; the snapshot then holds those descriptors in order,
    one compiled validator each, their names and their identity digest. *)
Theorem registry_new_spec input :
  exists r, registry_new input = Some r /\ (forall s, r = Ok s <-> admitted input s).
Proof. apply registry_new_cases. Qed.

Lemma position_find n l :
  match position n l with
  | None => List.find (fun d => str_eqb (name d) n) l = None
  | Some i => exists d, l !! i = Some d /\ List.find (fun d => str_eqb (name d) n) l = Some d
  end.
Proof.
  induction l as [|d l IH]; [done|]. cbn [position List.find].
  destruct (str_eqb (name d) n); [by exists d|].
  destruct (position n l) as [i|]; cbn; [|done]. exact IH.
Qed.

(** Every lookup in an admitted snapshot is within bounds, and the frozen
    validator of a tool accepts and rejects arguments, with the same
    diagnostic, as compiling the tool's schema anew would. *)
Theorem validate_arguments_frozen input s n arguments :
  registry_new input = Some (Ok s) ->
  validate_arguments s n arguments =
    Some (match entry s n with
          | Some d => validate_tool_arguments (schema d) arguments
          | None => Err "unknown tool"
          end).
Proof.
  intros Hnew. destruct (registry_new_cases input) as (r & Hr & Hs). rewrite Hnew in Hr. injection Hr as <-.
  destruct (proj1 (Hs s) eq_refl) as (_ & _ & _ & _ & Hc & He & _).
  unfold validate_arguments, entry. rewrite He. pose proof (position_find n input) as Hp.
  destruct (position n input) as [i|]; [|by rewrite Hp].
  destruct Hp as (d & Hd & ->). destruct (Forall2_lookup_l _ _ _ _ _ Hc Hd) as (v & Hv & Hcv).
  rewrite Hv. cbn. unfold validate_tool_arguments. by rewrite Hcv.
Qed.

(** The identity is the digest of the text that [schemas] renders. *)
Lemma identity_of_schemas input s :
  registry_new input = Some (Ok s) -> json_ok (schemas s) = true ->
  identity s = Sha256.content_hash (s2b (json_text (schemas s))).
Proof.
  intros Hnew Hok. destruct (registry_new_cases input) as (r & Hr & Hs). rewrite Hnew in Hr. injection Hr as <-.
  destruct (proj1 (Hs s) eq_refl) as (_ & _ & _ & _ & _ & _ & Hd & _ & Hi).
  rewrite Hi. unfold registry_identity, schemas in *. rewrite Hd in *. by rewrite canonicalize_json_id.
Qed.

(** ** Errors *)

Definition preflight_error_wf (e : SchemaPreflightError) : Prop :=
  match e with
  | PInvalidRoot => True
  | PUnsupportedSchemaDialect path => (slen path <= MAX_POINTER_BYTES)%Z
  | PSchemaTooLarge actual => (MAX_SCHEMA_BYTES < actual)%Z
  | PSchemaTooComplex actual => (MAX_SCHEMA_NODES < actual)%Z
  | PSchemaTooDeep actual => (MAX_SCHEMA_DEPTH < actual)%Z
  end.

Lemma visit_children_error n d p ch pending e :
  visit_children n d p ch pending = Err e -> preflight_error_wf e.
Proof.
  unfold visit_children. repeat case_match; intros [= <-]; cbn [preflight_error_wf]; bool_to_prop; lia.
Qed.

Lemma lower_bound_error s a : schema_string_serialized_lower_bound s = Some a -> (MAX_SCHEMA_BYTES < a)%Z.
Proof. unfold schema_string_serialized_lower_bound. case_match; [|done]. intros [= <-]. by bool_to_prop. Qed.

Lemma strings_too_large_error j a : strings_too_large j = Some a -> (MAX_SCHEMA_BYTES < a)%Z.
Proof.
  destruct j as [| | | | |m]; try done; cbn; [apply lower_bound_error|].
  induction m as [|[k v] m IH]; [done|]. cbn.
  destruct (schema_string_serialized_lower_bound k) eqn:E; [|done]. intros [= <-].
  by eapply lower_bound_error.
Qed.

Lemma inspect_value_error n w pending e : inspect_value n w pending = Err e -> preflight_error_wf e.
Proof.
  destruct w as [[j d] p]. rewrite inspect_value_eq.
  destruct (strings_too_large j) eqn:E; [intros [= <-]; by eapply strings_too_large_error|].
  repeat case_match; try done; bool_to_prop; try (intros [= <-]; cbn [preflight_error_wf]);
    try lia; eauto using visit_children_error.
  unfold child_pointer. apply push_pointer_segment_le.
Qed.

Lemma inspect_error j e : inspect_schema_limits j = Some (Err e) -> preflight_error_wf e.
Proof.
  unfold inspect_schema_limits.
  assert (forall fuel n pending, inspect_loop fuel n pending = Some (Err e) -> preflight_error_wf e) as Hl.
  { induction fuel as [|fuel IH]; intros n [|w pending]; try done. cbn [inspect_loop].
    destruct (inspect_value n w pending) as [[]|] eqn:E; [apply IH|]. intros [= <-].
    by eapply inspect_value_error. }
  assert (check_serialized j = Err e -> preflight_error_wf e) as Hc.
  { unfold check_serialized. repeat case_match; try done; intros [= <-]; cbn; done || lia. }
  destruct j; try by intros [= <-].
  all: destruct (inspect_loop _ _ _) as [[u|e']|] eqn:E; intros Hr; try discriminate Hr.
  all: injection Hr as Hr; (by apply Hc) || (subst e'; by eapply Hl).
Qed.

(** A schema diagnostic holds short printable text only. *)
Definition diagnostic_wf (e : SchemaValidationError) : Prop :=
  ((1 <= slen (sve_path e) <= MAX_POINTER_BYTES)%Z /\ graphic (sve_path e) = true) /\
  ((slen (sve_keyword e) <= Z.of_nat MAX_ERROR_FIELD_BYTES)%Z /\ graphic (sve_keyword e) = true) /\
  ((slen (sve_message e) <= MAX_DIAGNOSTIC_BYTES)%Z /\ printable (sve_message e) = true).

Lemma schema_error_new_wf p k kind : diagnostic_wf (schema_error_new p k kind).
Proof.
  split; [apply bounded_pointer_ok|]. split; [by apply bounded_token_ok|by apply bounded_message_ok].
Qed.

Lemma schema_validation_error_wf e : diagnostic_wf (schema_validation_error e).
Proof.
  split; [apply bounded_pointer_ok|]. split; [by apply bounded_token_ok|by apply bounded_message_ok].
Qed.

Lemma prefix_legacy_wf i e : diagnostic_wf e -> diagnostic_wf (prefix_legacy_tuple_error i e).
Proof. intros (_ & Hk & _). split; [apply bounded_pointer_ok|]. split; [done|by apply bounded_message_ok]. Qed.

#[local] Hint Resolve schema_error_new_wf schema_validation_error_wf prefix_legacy_wf : core.

Lemma validate_modern_wf j e :
  validate_modern_schema_with_legacy_compatibility j = Err e -> diagnostic_wf e.
Proof.
  unfold validate_modern_schema_with_legacy_compatibility.
  assert (forall items, validate_legacy_tuple_items items = Err e -> diagnostic_wf e) as Hi.
  { assert (forall items i, validate_items_from i items = Err e -> diagnostic_wf e) as Hf.
    { induction items as [|x items IH]; intros i; [done|]. cbn.
      destruct (meta_validate Draft7 x); [apply IH|]. intros [= <-]. auto. }
    intros [|x items]; [|apply Hf]. intros [= <-]. apply schema_error_new_wf. }
  assert (forall errors, first_modern_error j errors = Err e -> diagnostic_wf e) as Hm.
  { induction errors as [|x errors IH]; [done|]. cbn. case_match; [done|]. intros [= <-]. auto. }
  destruct (root_legacy_tuple_items j) as [items|].
  - destruct (validate_legacy_tuple_items items) eqn:E; [|intros [= ->]; by eapply Hi].
    destruct (meta_validate Draft7 j); cbn; [apply Hm|intros [= <-]; auto].
  - destruct (meta_validate Draft7 j); cbn; [apply Hm|intros [= <-]; auto].
Qed.

Lemma validate_json_schema_wf j e : validate_json_schema j = Some (Err e) -> diagnostic_wf e.
Proof.
  unfold validate_json_schema. destruct (inspect_schema_limits j) as [[u|pe]|]; [|..|done]; cbn.
  - intros [= Hv]. destruct j as [| | | | |m]; [..|]; try discriminate Hv.
    all: destruct (declared_schema_draft _) as [[]|];
      try (destruct (meta_validate _ _); try discriminate Hv; injection Hv as <-; auto);
      try (injection Hv as <-; auto); by eapply validate_modern_wf.
  - intros [= <-]. destruct pe; apply schema_error_new_wf.
Qed.

Definition text_within (limit : Z) (s : string) : Prop := str_valid s = true /\ (slen s <= limit)%Z.

Abbreviation field := (text_within (Z.of_nat MAX_ERROR_FIELD_BYTES)).

Definition registry_error_wf (e : ToolRegistryError) : Prop :=
  match e with
  | TooManyEntries limit => limit = MAX_REGISTRY_ENTRIES
  | EmptyName => True
  | InvalidToolName n | EmptyDescription n | EmptyRiskClass n | DuplicateName n
  | UnsupportedSchemaDialect n | ToolNameTooLong n _ | DescriptionTooLong n _ => field n
  | UnsupportedRiskClass n v | UnsupportedToolset n v => field n /\ field v
  | SchemaTooLarge n limit actual | SchemaTooComplex n limit actual | SchemaTooDeep n limit actual =>
      field n /\ (limit < actual)%Z
  | InvalidSchema n reason =>
      field n /\ (slen reason <= MAX_DIAGNOSTIC_BYTES)%Z /\ printable reason = true
  end.

(** The descriptor's strings are Rust strings. *)
Definition descriptor_text (d : ToolDescriptor) : Prop :=
  str_valid (name d) = true /\ str_valid (risk_class d) = true /\ str_valid (toolset d) = true.

Lemma bounded_string_field v : str_valid v = true -> field (bounded_string v MAX_ERROR_FIELD_BYTES).
Proof.
  intros Hv. unfold bounded_string, cut_at_boundary. case_match; bool_to_prop; [done|].
  split; [by apply cut_valid|]. unfold str_take. rewrite slen_b2s, length_take.
  pose proof (floor_boundary_le (s2b v) MAX_ERROR_FIELD_BYTES). lia.
Qed.

Lemma short_name_field d :
  descriptor_text d -> (slen (name d) <= MAX_TOOL_NAME_BYTES)%Z -> field (name d).
Proof. intros (Hn & _) Hl. split; [done|]. unfold MAX_TOOL_NAME_BYTES, MAX_ERROR_FIELD_BYTES in *. lia. Qed.

Lemma preflight_error_ok d seen e :
  descriptor_text d -> preflight_descriptor d seen = Some (Err e) -> registry_error_wf e.
Proof.
  intros Hd. pose proof Hd as (Hn & Hr & Ht). unfold preflight_descriptor.
  destruct (preflight_fields d seen) as [s|e'] eqn:E.
  - apply preflight_fields_ok in E as (Hf & _). unfold fields_ok in Hf. bool_to_prop.
    assert (field (name d)) by by apply short_name_field.
    destruct (inspect_schema_limits (schema d)) as [[u|pe]|] eqn:Ei; try done. intros [= <-].
    apply inspect_error in Ei. destruct pe; cbn in Ei |- *; done.
  - intros [= <-]. revert E. unfold preflight_fields.
    destruct (Z.ltb_spec MAX_TOOL_NAME_BYTES (slen (name d))) as [|Hl];
      [intros [= <-]; by apply bounded_string_field|].
    pose proof (short_name_field d Hd Hl) as Hnf.
    repeat (case_match; [intros [= <-]; cbn [registry_error_wf]; eauto using bounded_string_field|]).
    done.
Qed.

Lemma collect_error_ok input collected seen e :
  Forall descriptor_text input -> collect_entries collected seen input = Some (Err e) -> registry_error_wf e.
Proof.
  intros Hd. revert collected seen. induction Hd as [|d input Hd _ IH]; intros collected seen; [done|].
  cbn [collect_entries]. case_bool_decide; [by intros [= <-]|].
  destruct (preflight_descriptor d seen) as [[s|e']|] eqn:E; cbn; [apply IH| |done].
  intros [= <-]. by eapply preflight_error_ok.
Qed.

Lemma validate_schemas_error_ok l e :
  Forall (fun d => field (name d)) l -> validate_schemas l = Some (Err e) -> registry_error_wf e.
Proof.
  induction 1 as [|d l Hd _ IH]; [done|]. cbn.
  destruct (validate_json_schema (schema d)) as [[u|e']|] eqn:E; cbn; [done| |done]. intros [= <-].
  split; [done|]. by apply validate_json_schema_wf in E as (_ & _ & ?).
Qed.

Lemma compile_instance_error j m :
  compile_instance_validator j = Err m -> (slen m <= MAX_DIAGNOSTIC_BYTES)%Z /\ printable m = true.
Proof.
  unfold compile_instance_validator.
  destruct (declared_schema_draft j) as [[]|]; (destruct (draft_new _ j); cbn; [done|]);
    intros [= <-]; by apply bounded_message_ok.
Qed.

Lemma compile_error_ok l e :
  Forall (fun d => field (name d)) l -> compile_validators l = Err e -> registry_error_wf e.
Proof.
  unfold compile_validators. induction 1 as [|d l Hd _ IH]; [done|]. cbn [try_map].
  destruct (compile_instance_validator (schema d)) as [v|m] eqn:E; cbn [map_err].
  - destruct (try_map _ l); [done|]. intros [= <-]. by apply IH.
  - intros [= <-]. split; [done|]. by apply (compile_instance_error (schema d)).
Qed.

(** A snapshot's parts agree: at most 64 tools with distinct names of the
    admitted shape, the same descriptors under every view, a validator each. *)
Definition snapshot_wf (s : ToolRegistrySnapshot) : Prop :=
  length (entries s) <= MAX_REGISTRY_ENTRIES /\ NoDup (names s) /\
  Forall (fun d => descriptor_ok d = true) (entries s) /\
  descriptors s = entries s /\ names s = map name (entries s) /\
  length (validators s) = length (entries s).

(** Whatever descriptors are offered, building a registry ends with a
    well-formed snapshot or with a well-formed error: texts in an error are
    valid and at most 128 bytes, reasons printable and at most 512, and a
    reported size really exceeds the limit it is reported with. *)
Theorem registry_outcome_wf input :
  Forall descriptor_text input ->
  exists r, registry_new input = Some r /\
    match r with Ok s => snapshot_wf s | Err e => registry_error_wf e end.
Proof.
  intros Hd. destruct (registry_new_cases input) as (r & Hnew & Hr). exists r. split; [done|].
  destruct r as [s|e].
  { destruct (proj1 (Hr s) eq_refl) as (? & ? & ? & _ & Hc & He & Hds & Hn & _).
    apply Forall2_length in Hc. unfold snapshot_wf. rewrite He, Hds, Hn, <- Hc. by repeat split. }
  unfold registry_new in Hnew. destruct (collect_entries [] ∅ input) as [[out|e']|] eqn:E; cbn in Hnew;
    [|injection Hnew as ->; by eapply collect_error_ok|done].
  destruct (collect_cases [] ∅ input) as (r & Hc & Hout); [set_solver|constructor|cbn; lia|].
  rewrite E in Hc. injection Hc as <-. destruct (proj1 (Hout out) eq_refl) as (-> & _ & _ & Hok).
  assert (Forall (fun d => field (name d)) input) as Hf.
  { rewrite Forall_forall in Hd, Hok |- *. intros d Hin. apply short_name_field; [by apply Hd|].
    apply Hok in Hin. unfold descriptor_ok, fields_ok in Hin. by bool_to_prop. }
  cbn [app] in *. destruct (validate_schemas input) as [[u|e']|] eqn:Ev; cbn in Hnew; [| |done].
  - destruct (compile_validators input) as [vs|e'] eqn:Ec; [done|]. injection Hnew as ->.
    by eapply compile_error_ok.
  - injection Hnew as ->. by eapply validate_schemas_error_ok.
Qed.

End AdmissionProofs.

(** ** A registry with one tool *)
Module RegistryExample.
#[local] Existing Instance CompactText.compact_text.

#[local] Instance whole_text : JsonChunks := fun j => [json_text j].
#[local] Instance whole_text_law : JsonChunksLaw.
Proof. done. Defined.

(** A stand-in for the schema crate: a validator is its schema, and only the
    schema [false] rejects. *)
#[local] Instance permissive : JsonSchemaCrate := {|
  Validator := Json;
  meta_validate := fun _ _ => Ok tt;
  meta_errors_202012 := fun _ => [];
  draft_new := fun _ j => Ok j;
  validate := fun v _ =>
    match v with
    | JBool false => Err {| instance_path := EmptyString; error_kind := FalseSchema;
                            error_keyword := "falseSchema"; error_text := "false" |}
    | _ => Ok tt
    end
|}.

Definition read_file : ToolDescriptor :=
  {| name := "read_file"; description := "Reads a file"; toolset := "coding"; risk_class := "read";
     schema := jobj [("type", JString "object");
                     ("$schema", JString "http://json-schema.org/draft-07/schema#")] |}.

Definition snapshot : ToolRegistrySnapshot :=
  {| entries := [read_file]; descriptors := [read_file]; names := ["read_file"];
     identity := registry_identity [read_file]; validators := [schema read_file] |}.

Lemma inspect_schema_limits_spec_witness :
  exists r, inspect_schema_limits (schema read_file) = Some r /\
    (r = Ok tt <-> schema_admissible (schema read_file) = true).
Proof. apply (inspect_schema_limits_spec (schema read_file)). Defined.

Lemma registry_new_spec_witness :
  exists r, registry_new [read_file] = Some r /\ (forall s, r = Ok s <-> admitted [read_file] s).
Proof. apply (registry_new_spec [read_file]). Defined.

Lemma validate_arguments_frozen_witness :
  registry_new [read_file] = Some (Ok snapshot) /\
  validate_arguments snapshot "read_file" (JObject []) =
    Some (match entry snapshot "read_file" with
          | Some d => validate_tool_arguments (schema d) (JObject [])
          | None => Err "unknown tool"
          end).
Proof.
  split; [vm_compute; reflexivity|].
  apply (validate_arguments_frozen [read_file] snapshot "read_file" (JObject [])). vm_compute. reflexivity.
Defined.

Lemma registry_outcome_wf_witness :
  exists r, registry_new [read_file; read_file] = Some r /\
    match r with Ok s => snapshot_wf s | Err e => registry_error_wf e end.
Proof.
  apply (registry_outcome_wf [read_file; read_file]). repeat constructor; vm_compute; reflexivity.
Defined.

(** Duplicate names and schemas of an unknown dialect are refused. *)
Example duplicate_refused :
  registry_new [read_file; read_file] = Some (Err (DuplicateName "read_file")).
Proof. vm_compute. reflexivity. Qed.

Example dialect_refused :
  inspect_schema_limits (jobj [("properties", jobj [("x", jobj [("$schema", JString "urn:mine")])])]) =
  Some (Err (PUnsupportedSchemaDialect "/properties/x/$schema")).
Proof. vm_compute. reflexivity. Qed.

End RegistryExample.
