(* ===== verification/Domain.v ===== *)
(** * Canonical domain contracts ([src/domain.rs])

    The idempotency hash, the stable durable identifiers, UTF-8 safe
    truncation, and the encoding of message content: content blocks are bounded
    before they are stored and decoded from every shape the store may hold.
    The (de)serialisation [serde] derives for a block is an interface with the
    law the attributes of the struct document; [DerivedSerde] is an
    implementation of it that follows those attributes. *)

From S2P Require Import Prelude Utf8 Json.
From stdpp Require Import pretty.
From Stdlib Require Import Strings.Byte.

(** ** Hash *)

Definition fnv_offset : Z := 0xcbf29ce484222325.
Definition fnv_prime : Z := 0x00000100000001b3.

Definition fnv_step (hash : Z) (b : byte) : Z := wrap64 (Z.lxor hash (bval b) * fnv_prime).

Definition fnv1a64 (bytes : list byte) : Z := fold_left fnv_step bytes fnv_offset.

(** ** Truncation *)

Definition truncate_for_log (message : string) (max_chars : nat) : string :=
  match char_indices message !! max_chars with
  | Some (index, _) => str_take index message
  | None => message
  end.

Definition MAX_DURABLE_TEXT_CHARS : nat := N.to_nat 65536.
Definition MAX_DURABLE_ID_BYTES : nat := 128.

Definition truncate_utf8_chars (text : string) (max_chars : nat) : string * bool :=
  match char_indices text !! max_chars with
  | Some (index, _) => (str_take index text, true)
  | None => (text, false)
  end.

(** ** Durable identifiers *)

Definition provider_pending_may_retry
    (has_durable_response request_is_idempotent has_effect : bool) : bool :=
  negb has_durable_response && request_is_idempotent && negb has_effect.

(** The [scan] over the characters: stops at the first one that does not fit. *)
Fixpoint scan_width (bytes : nat) (cs : list char) : list char :=
  match cs with
  | [] => []
  | ch :: cs' =>
      if bool_decide (MAX_DURABLE_ID_BYTES < bytes + len_utf8 ch) then []
      else ch :: scan_width (bytes + len_utf8 ch) cs'
  end.

Definition bound_durable_id (id : string) : string :=
  if (slen id <=? Z.of_nat MAX_DURABLE_ID_BYTES)%Z then id
  else of_chars (scan_width 0 (chars id)).

Definition durable_tool_event_id (run_id tool_call_id event_type : string) : string :=
  bound_durable_id (run_id +:+ ":tool:" +:+ tool_call_id +:+ ":" +:+ event_type).

Definition durable_provider_event_id (run_id : string) (turn : Z) (event_type : string) : string :=
  bound_durable_id (run_id +:+ ":turn:" +:+ pretty turn +:+ ":" +:+ event_type).

Definition durable_message_id (run_id kind key : string) : string :=
  bound_durable_id (run_id +:+ ":" +:+ kind +:+ ":" +:+ key).

(** ** Lemmas on truncation and identifiers *)

Lemma truncate_utf8_chars_spec t n :
  truncate_utf8_chars t n =
  (of_chars (take n (chars t)), bool_decide (n < length (chars t))).
Proof.
  unfold truncate_utf8_chars. destruct (char_indices t !! n) as [[off c]|] eqn:E.
  - rewrite (str_take_nth_char _ _ _ _ E), bool_decide_eq_true_2; [done|].
    destruct (decide (n < length (chars t))) as [|Hn]; [done|].
    assert (char_indices t !! n = None) by (apply char_indices_nth_None; lia). congruence.
  - apply char_indices_nth_None in E. rewrite take_ge by done.
    rewrite of_chars_chars, bool_decide_eq_false_2; [done|lia].
Qed.

Lemma truncate_for_log_spec t n : truncate_for_log t n = fst (truncate_utf8_chars t n).
Proof. unfold truncate_for_log, truncate_utf8_chars. by repeat case_match. Qed.

Lemma chars_truncated t n :
  str_valid t = true -> chars (of_chars (take n (chars t))) = take n (chars t).
Proof. intros Ht. apply chars_of_chars, Forall_take. by apply chars_wf. Qed.

Lemma truncate_twice t n :
  str_valid t = true ->
  truncate_utf8_chars (fst (truncate_utf8_chars t n)) n = (fst (truncate_utf8_chars t n), false).
Proof.
  intros Ht. rewrite (truncate_utf8_chars_spec t). cbn [fst].
  rewrite truncate_utf8_chars_spec, chars_truncated by done.
  rewrite take_take, Nat.min_id, bool_decide_eq_false_2; [done|].
  rewrite length_take. lia.
Qed.

(** Truncation at a character bound cuts a string to its first [max_chars]
    characters, never inside a multi-byte scalar, reports the cut exactly when
    there were more, and is idempotent; log truncation is the same cut. *)
Theorem truncate_utf8_chars_correct t n :
  str_valid t = true ->
  let '(t', cut) := truncate_utf8_chars t n in
  str_valid t' = true /\
  chars t' = take n (chars t) /\
  (cut = true <-> n < length (chars t)) /\
  (cut = false -> t' = t) /\
  truncate_utf8_chars t' n = (t', false) /\
  truncate_for_log t n = t'.
Proof.
  intros Ht. pose proof (truncate_twice t n Ht) as Htt. pose proof (truncate_for_log_spec t n) as Hl.
  destruct (truncate_utf8_chars t n) as [t' cut] eqn:E. cbn in Htt, Hl.
  rewrite truncate_utf8_chars_spec in E. injection E as <- <-. split_and!; try done.
  - apply of_chars_valid, Forall_take. by apply chars_wf.
  - by apply chars_truncated.
  - apply bool_decide_eq_true.
  - intros Hc%bool_decide_eq_false. rewrite take_ge by lia. apply of_chars_chars.
Qed.

Lemma truncate_utf8_chars_correct_witness :
  let '(t', cut) := truncate_utf8_chars "café noir" 4 in
  str_valid t' = true /\ cut = true.
Proof.
  pose proof (truncate_utf8_chars_correct "café noir" 4 eq_refl) as H.
  destruct (truncate_utf8_chars _ _) as [t' cut] eqn:E. destruct H as (Hv & _ & Hc & _).
  split; [exact Hv|]. apply Hc. vm_compute. lia.
Defined.

Lemma scan_width_take n cs :
  n <= MAX_DURABLE_ID_BYTES ->
  exists k, scan_width n cs = take k cs /\
    n + length (concat (take k cs)) <= MAX_DURABLE_ID_BYTES /\
    (k < length cs -> MAX_DURABLE_ID_BYTES < n + length (concat (take (S k) cs))).
Proof.
  revert n. induction cs as [|c cs IH]; intros n Hn.
  - exists 0. cbn. split_and!; [done|lia|lia].
  - cbn [scan_width]. destruct (bool_decide _) eqn:E; bool_to_prop; unfold len_utf8 in *.
    + exists 0. cbn. rewrite take_0, app_nil_r. split_and!; [done|lia|lia].
    + destruct (IH (n + length c)) as (k & -> & Hle & Hmax); [lia|].
      exists (S k). cbn [take concat app length]. rewrite !length_app. split_and!; [done|lia|].
      intros Hk. assert (k < length cs) as Hk' by (cbn in Hk; lia). specialize (Hmax Hk').
      cbn [take concat] in *. lia.
Qed.

Lemma length_concat_take_S (cs : list char) k c :
  cs !! k = Some c -> length (concat (take (S k) cs)) = length (concat (take k cs)) + length c.
Proof.
  intros Hk. rewrite (take_S_r _ _ _ Hk), concat_app, length_app. cbn. rewrite app_nil_r. done.
Qed.

(** A durable identifier is valid text of at most 128 bytes: the whole
    identifier when it fits, and otherwise the longest prefix of whole
    characters that does, which is at least 125 bytes long. *)
Theorem bound_durable_id_correct id :
  str_valid id = true ->
  let r := bound_durable_id id in
  str_valid r = true /\
  (slen r <= 128)%Z /\
  (exists rest, id = r +:+ rest) /\
  ((slen id <= 128)%Z -> r = id) /\
  ((128 < slen id)%Z -> (125 <= slen r)%Z).
Proof.
  intros Hv r. subst r. unfold bound_durable_id.
  destruct (Z.leb_spec (slen id) (Z.of_nat MAX_DURABLE_ID_BYTES)) as [Hle|Hgt];
    change (Z.of_nat MAX_DURABLE_ID_BYTES) with 128%Z in *.
  { split_and!; [done|done| |done|lia]. exists EmptyString. apply s2b_inj.
    by rewrite s2b_app, app_nil_r. }
  destruct (scan_width_take 0 (chars id)) as (k & -> & Hk & Hmax); [unfold MAX_DURABLE_ID_BYTES; lia|].
  unfold MAX_DURABLE_ID_BYTES in *. rewrite !slen_of_chars. split_and!; [| |  |lia|].
  - apply of_chars_valid, Forall_take. by apply chars_wf.
  - lia.
  - exists (of_chars (drop k (chars id))). apply s2b_inj.
    rewrite s2b_app. unfold of_chars. rewrite !s2b_b2s, <- concat_app, take_drop.
    unfold chars. by rewrite concat_split_chars.
  - intros _. destruct (decide (k < length (chars id))) as [Hlt|Hge].
    + specialize (Hmax Hlt). destruct (lookup_lt_is_Some_2 _ _ Hlt) as [c Hc].
      rewrite (length_concat_take_S _ _ _ Hc) in Hmax.
      pose proof (chars_wf _ Hv) as Hwf. rewrite Forall_lookup in Hwf.
      pose proof (wf_char_length _ (Hwf _ _ Hc)). lia.
    + rewrite take_ge in Hk by lia. exfalso. unfold slen, blen in Hgt.
      unfold chars in Hk. rewrite concat_split_chars in Hk. lia.
Qed.

Lemma bound_durable_id_correct_witness :
  let r := bound_durable_id (durable_message_id "3f1c" "tool" "call_1") in
  str_valid r = true /\ (slen r <= 128)%Z.
Proof.
  pose proof (bound_durable_id_correct (durable_message_id "3f1c" "tool" "call_1")
                ltac:(vm_compute; reflexivity)) as (Hv & Hl & _).
  split; [exact Hv|exact Hl].
Defined.

(** *** Identity of tool steps *)

Definition colon : byte := Byte.x3a.
Definition no_colon (s : string) : bool := forallb (fun b => negb (bool_decide (b = colon))) (s2b s).

Lemma no_colon_spec s : no_colon s = true -> colon ∉ s2b s.
Proof.
  unfold no_colon. rewrite forallb_forall. intros Hf Hin.
  apply list_elem_of_In, Hf in Hin. apply negb_true_iff, bool_decide_eq_false in Hin. done.
Qed.

Lemma split_first {A} (x : A) a a' b b' :
  x ∉ a -> x ∉ a' -> a ++ x :: b = a' ++ x :: b' -> a = a' /\ b = b'.
Proof.
  revert a'. induction a as [|y a IH]; intros [|y' a'] Ha Ha' E; cbn in E; simplify_eq; try done.
  - exfalso. apply Ha'. left.
  - exfalso. apply Ha. left.
  - apply not_elem_of_cons in Ha as [_ Ha], Ha' as [_ Ha'].
    destruct (IH a' Ha Ha') as [-> ->]; [congruence|done].
Qed.

Lemma split_last {A} (x : A) a a' b b' :
  x ∉ b -> x ∉ b' -> a ++ x :: b = a' ++ x :: b' -> a = a' /\ b = b'.
Proof.
  intros Hb Hb' E. apply (f_equal reverse) in E. rewrite !reverse_app, !reverse_cons in E.
  rewrite <- !(assoc_L (++)) in E. apply split_first in E as [E1 E2]; [|by rewrite elem_of_reverse..].
  apply (inj reverse) in E1, E2. done.
Qed.

Lemma bound_durable_id_short id : (slen id <= 128)%Z -> bound_durable_id id = id.
Proof.
  intros Hle. unfold bound_durable_id. by rewrite (proj2 (Z.leb_le _ _)).
Qed.

(** Cutting past a prefix that already fills the bound forgets what follows. *)
Lemma bound_durable_id_nonempty id :
  str_valid id = true -> id <> EmptyString -> bound_durable_id id <> EmptyString.
Proof.
  intros Hv Hne. unfold bound_durable_id. case_match; [done|].
  destruct (s2b id) as [|b bs] eqn:Hb; [by apply (s2b_inj id EmptyString) in Hb|].
  destruct (split_chars_head b bs) as (ch & cs & Hch).
  pose proof (chars_wf _ Hv) as Hwf. unfold chars in *. rewrite Hb, Hch in *.
  apply Forall_cons in Hwf as [Hlen%wf_char_length _]. cbn [scan_width].
  rewrite bool_decide_eq_false_2 by (unfold MAX_DURABLE_ID_BYTES, len_utf8; lia).
  intros E. apply (f_equal s2b) in E. unfold of_chars in E. by rewrite s2b_b2s in E.
Qed.

Lemma scan_width_full n cs ds :
  n <= MAX_DURABLE_ID_BYTES -> MAX_DURABLE_ID_BYTES <= n + length (concat cs) ->
  Forall (fun c => c <> []) ds -> scan_width n (cs ++ ds) = scan_width n cs.
Proof.
  revert n. induction cs as [|c cs IH]; intros n Hn Hle Hds; cbn in Hle.
  - destruct Hds as [|d ds Hd _]; [done|]. cbn. rewrite bool_decide_eq_true_2; [done|].
    unfold len_utf8. destruct d; [done|]. cbn. lia.
  - cbn [app scan_width]. case_bool_decide as E; [done|]. f_equal.
    unfold len_utf8 in *. rewrite length_app in Hle. apply IH; [lia|lia|done].
Qed.

Lemma chars_app s t :
  str_valid s = true -> str_valid t = true -> chars (s +:+ t) = chars s ++ chars t.
Proof.
  intros Hs%chars_wf Ht%chars_wf.
  rewrite <- (of_chars_chars s) at 1. rewrite <- (of_chars_chars t) at 1.
  rewrite <- (chars_of_chars (chars s ++ chars t)) by (by apply Forall_app).
  f_equal. apply s2b_inj. unfold of_chars. by rewrite s2b_app, !s2b_b2s, concat_app.
Qed.

Lemma bound_durable_id_full p s :
  str_valid p = true -> str_valid s = true -> (128 <= slen p)%Z ->
  bound_durable_id (p +:+ s) = of_chars (scan_width 0 (chars p)).
Proof.
  intros Hp Hs Hlen.
  assert (of_chars (scan_width 0 (chars (p +:+ s))) = of_chars (scan_width 0 (chars p))) as E.
  { rewrite chars_app by done. f_equal. apply scan_width_full.
    - unfold MAX_DURABLE_ID_BYTES. lia.
    - unfold chars. rewrite concat_split_chars. unfold slen, blen in Hlen.
      unfold MAX_DURABLE_ID_BYTES. lia.
    - apply Forall_forall. intros c. apply split_chars_nonempty. }
  rewrite <- E. unfold bound_durable_id.
  destruct (Z.leb_spec (slen (p +:+ s)) (Z.of_nat MAX_DURABLE_ID_BYTES)) as [Hle|]; [|done].
  rewrite slen_app in Hle. change (Z.of_nat MAX_DURABLE_ID_BYTES) with 128%Z in Hle.
  assert (s = EmptyString) as -> by (apply slen_zero; pose proof (slen_nonneg s); lia).
  assert (slen p = 128%Z) by (pose proof (slen_nonneg EmptyString); lia).
  rewrite E. destruct (scan_width_take 0 (chars p)) as (k & -> & _ & Hmax);
    [unfold MAX_DURABLE_ID_BYTES; lia|].
  assert (length (concat (chars p)) = 128) as Hc.
  { unfold chars. rewrite concat_split_chars. unfold slen, blen in *. lia. }
  assert (length (chars p) <= k) as Hk.
  { destruct (decide (k < length (chars p))) as [Hlt|]; [|lia]. specialize (Hmax Hlt).
    assert (length (concat (take (S k) (chars p))) <= length (concat (chars p))) as Hm.
    { rewrite <- (take_drop (S k) (chars p)) at 2. rewrite concat_app, length_app. lia. }
    unfold MAX_DURABLE_ID_BYTES in Hmax. lia. }
  rewrite take_ge, of_chars_chars by done. apply s2b_inj. by rewrite s2b_app, app_nil_r.
Qed.

(** Event identifiers of tool steps that fit in 128 bytes identify the run,
    the call and the event type, whatever the call identifier contains (run
    identifiers and event types hold no colon). *)
Theorem durable_tool_event_id_inj r r' c c' e e' :
  no_colon r = true -> no_colon r' = true -> no_colon e = true -> no_colon e' = true ->
  (slen r + slen c + slen e + 7 <= 128)%Z -> (slen r' + slen c' + slen e' + 7 <= 128)%Z ->
  durable_tool_event_id r c e = durable_tool_event_id r' c' e' ->
  r = r' /\ c = c' /\ e = e'.
Proof.
  intros Hr%no_colon_spec Hr'%no_colon_spec He%no_colon_spec He'%no_colon_spec Hl Hl' E.
  unfold durable_tool_event_id in E.
  rewrite !bound_durable_id_short in E
    by (rewrite !slen_app; change (slen ":tool:") with 6%Z; change (slen ":") with 1%Z; lia).
  apply (f_equal s2b) in E. rewrite !s2b_app in E.
  change (s2b ":tool:") with (colon :: s2b "tool:") in E. cbn [app] in E.
  apply split_first in E as [Er E]; [|done..].
  change (s2b ":") with [colon] in E. rewrite !(assoc_L (++)) in E.
  rewrite <- !(assoc_L (++) _ [colon]) in E. cbn [app] in E.
  apply split_last in E as [Ec Ee]; [|done..].
  apply app_inv_head in Ec. split_and!; by apply s2b_inj.
Qed.

Lemma durable_tool_event_id_inj_witness :
  durable_tool_event_id "r1" "a:b" "tool.output" <> durable_tool_event_id "r1" "a:b" "tool.completed".
Proof.
  intros E. apply durable_tool_event_id_inj in E as (_ & _ & Ee);
    [discriminate Ee|reflexivity..|vm_compute; discriminate|vm_compute; discriminate].
Defined.

Lemma durable_tool_event_id_nonempty r c e :
  str_valid r = true -> str_valid c = true -> str_valid e = true ->
  durable_tool_event_id r c e <> EmptyString.
Proof.
  intros Hr Hc He. apply bound_durable_id_nonempty; [by repeat (apply CompactText.valid_app; try done)|].
  intros E%(f_equal s2b). rewrite !s2b_app in E. by destruct (s2b r).
Qed.

(** Once run and call identifier fill the 128 bytes, the event type no
    longer reaches the identifier: every step of the call has the same one. *)
Lemma durable_tool_event_id_collides r c e e' :
  str_valid r = true -> str_valid c = true -> str_valid e = true -> str_valid e' = true ->
  (121 <= slen r + slen c)%Z ->
  durable_tool_event_id r c e = durable_tool_event_id r c e'.
Proof.
  intros Hr Hc He He' Hlen. unfold durable_tool_event_id.
  assert (forall e, r +:+ ":tool:" +:+ c +:+ ":" +:+ e = (r +:+ ":tool:" +:+ c +:+ ":") +:+ e) as Ha.
  { intros x. apply s2b_inj. by rewrite !s2b_app, <- !(assoc_L (++)). }
  assert (str_valid (r +:+ ":tool:" +:+ c +:+ ":") = true) as Hp.
  { repeat (apply CompactText.valid_app; try done). }
  rewrite !Ha, !bound_durable_id_full; try done;
    rewrite !slen_app; change (slen ":tool:") with 6%Z; change (slen ":") with 1%Z; lia.
Qed.

(** ** Content blocks *)

Module Content.

Record LlmContentBlock := {
  block_type : string;
  text : option string;
  tool_call_id : option string;
  name : option string;
  arguments_json : option string;
  arguments : option Json;
  content : option string;
  is_error : option bool;
  result_ : option Json;
  error : option Json;
  artifact : option Json;
  truncated : option bool
}.

Definition default_block : LlmContentBlock := {|
  block_type := EmptyString; text := None; tool_call_id := None; name := None;
  arguments_json := None; arguments := None; content := None; is_error := None;
  result_ := None; error := None; artifact := None; truncated := None |}.

(** [Option<Value>] reads [null] as [None], so [Some null] is not written back
    as itself. *)
Definition not_null (o : option Json) : bool :=
  match o with Some JNull => false | _ => true end.

Definition block_storable (b : LlmContentBlock) : bool :=
  not_null (arguments b) && not_null (result_ b) && not_null (error b) && not_null (artifact b).

(** The derived [Serialize]/[Deserialize] of the block. *)
Class BlockSerde := {
  block_to_value : LlmContentBlock -> Json;
  block_from_value : Json -> option LlmContentBlock;
  block_value_roundtrip b :
    block_storable b = true -> block_from_value (block_to_value b) = Some b
}.

Definition text_block (t : string) : LlmContentBlock :=
  let '(t, cut) := truncate_utf8_chars t MAX_DURABLE_TEXT_CHARS in
  {| block_type := "text"; text := Some t; tool_call_id := None; name := None;
     arguments_json := None; arguments := None; content := None; is_error := None;
     result_ := None; error := None; artifact := None;
     truncated := if cut then Some true else None |}.

(** [if arguments_json.is_none() { .. arguments.take() .. } else { None }]:
    both the encoder and the decoder keep the arguments as text. *)
Section content.
Context `{JsonText}.

Definition arguments_text (b : LlmContentBlock) : option string :=
  match arguments_json b with
  | Some a => Some a
  | None => match arguments b with Some v => Some (json_text v) | None => None end
  end.

(** [if let Some(Value::Array(items)) = &artifact { artifact = items.first().cloned() }]. *)
Definition first_artifact (a : option Json) : option Json :=
  match a with Some (JArray items) => head items | other => other end.

Definition bound_structured_json (value : Json) (retain_error_code : bool) : Json * bool :=
  let original_bytes := slen (json_text value) in
  if (original_bytes <=? Z.of_nat MAX_DURABLE_TEXT_CHARS)%Z then (value, false)
  else
    let redacted := obj_insert "truncated" (JBool true) [] in
    let redacted := obj_insert "redacted" (JBool true) redacted in
    let redacted := obj_insert "original_bytes" (JNumber (PosInt original_bytes)) redacted in
    let redacted :=
      if retain_error_code then
        match jget "code" value with
        | Some code => obj_insert "code" code redacted
        | None => redacted
        end
      else redacted in
    (JObject redacted, true).

Definition bound_text (t : option string) : option string * bool :=
  match t with
  | Some t => let '(t, cut) := truncate_utf8_chars t MAX_DURABLE_TEXT_CHARS in (Some t, cut)
  | None => (None, false)
  end.

Definition bound_json (v : option Json) (retain_error_code : bool) : option Json * bool :=
  match v with
  | Some v => let '(v, cut) := bound_structured_json v retain_error_code in (Some v, cut)
  | None => (None, false)
  end.

Definition bound_content_block (block : LlmContentBlock) : LlmContentBlock :=
  let cut0 := match truncated block with Some b => b | None => false end in
  let '(text', cut1) := bound_text (text block) in
  let '(content', cut2) := bound_text (content block) in
  let '(arguments_json', cut3) := bound_text (arguments_text block) in
  let '(result', cut4) := bound_json (result_ block) false in
  let '(error', cut5) := bound_json (error block) true in
  {| block_type := block_type block; text := text'; tool_call_id := tool_call_id block;
     name := name block; arguments_json := arguments_json'; arguments := None;
     content := content'; is_error := is_error block; result_ := result'; error := error';
     artifact := first_artifact (artifact block);
     truncated := if cut0 || cut1 || cut2 || cut3 || cut4 || cut5 then Some true else None |}.

Context `{BlockSerde}.

Definition encode_message_content (blocks : list LlmContentBlock) : Json :=
  JArray (map (fun b => block_to_value (bound_content_block b)) blocks).

Definition decode_one_block (value : Json) : LlmContentBlock :=
  let block := match block_from_value value with
               | Some b => b
               | None => text_block (json_text value)
               end in
  {| block_type := block_type block; text := text block; tool_call_id := tool_call_id block;
     name := name block; arguments_json := arguments_text block; arguments := None;
     content := content block; is_error := is_error block; result_ := result_ block;
     error := error block; artifact := first_artifact (artifact block);
     truncated := match truncated block with Some false => None | t => t end |}.

Definition decode_message_blocks (value : Json) : list LlmContentBlock :=
  match value with
  | JArray items => map decode_one_block items
  | JString t => [text_block t]
  | JObject m =>
      match obj_get "type" m ≫= as_str with
      | Some _ => [decode_one_block value]
      | None =>
          match obj_get "text" m with
          | Some (JString t) => [text_block t]
          | Some other => [text_block (json_text other)]
          | None => [text_block (json_text value)]
          end
      end
  | JNull => []
  | other => [text_block (json_text other)]
  end.

Definition decode_message_content (value : Json) : Json :=
  JArray (map block_to_value (decode_message_blocks value)).

End content.

(** *** The derived (de)serialisation

    [rename = "type"], [default] and [skip_serializing_if] on every option,
    [alias = "artifacts"]; a struct is read from an object, ignoring unknown
    keys and refusing a field given twice, or from a sequence of its fields. *)

Definition ins {A} (k : string) (f : A -> Json) (o : option A) (m : list (string * Json)) :=
  match o with Some a => obj_insert k (f a) m | None => m end.

Definition derived_fields (b : LlmContentBlock) : list (string * Json) :=
  let m := obj_insert "type" (JString (block_type b)) [] in
  let m := ins "text" JString (text b) m in
  let m := ins "tool_call_id" JString (tool_call_id b) m in
  let m := ins "name" JString (name b) m in
  let m := ins "arguments_json" JString (arguments_json b) m in
  let m := ins "arguments" (fun v => v) (arguments b) m in
  let m := ins "content" JString (content b) m in
  let m := ins "is_error" JBool (is_error b) m in
  let m := ins "result" (fun v => v) (result_ b) m in
  let m := ins "error" (fun v => v) (error b) m in
  let m := ins "artifact" (fun v => v) (artifact b) m in
  ins "truncated" JBool (truncated b) m.

Definition derived_to_value (b : LlmContentBlock) : Json := JObject (derived_fields b).

(** An optional field: absent or [null] is [None]; otherwise it must parse. *)
Definition opt_field {A} (parse : Json -> option A) (v : option Json) : option (option A) :=
  match v with
  | None | Some JNull => Some None
  | Some v => match parse v with Some a => Some (Some a) | None => None end
  end.

Definition fields_to_block (get : nat -> option Json) : option LlmContentBlock :=
  t ← get 0 ≫= as_str;
  text' ← opt_field as_str (get 1);
  tool_call_id' ← opt_field as_str (get 2);
  name' ← opt_field as_str (get 3);
  arguments_json' ← opt_field as_str (get 4);
  arguments' ← opt_field Some (get 5);
  content' ← opt_field as_str (get 6);
  is_error' ← opt_field as_bool (get 7);
  result' ← opt_field Some (get 8);
  error' ← opt_field Some (get 9);
  artifact' ← opt_field Some (get 10);
  truncated' ← opt_field as_bool (get 11);
  Some {| block_type := t; text := text'; tool_call_id := tool_call_id'; name := name';
          arguments_json := arguments_json'; arguments := arguments'; content := content';
          is_error := is_error'; result_ := result'; error := error'; artifact := artifact';
          truncated := truncated' |}.

Definition field_names : list string :=
  ["type"; "text"; "tool_call_id"; "name"; "arguments_json"; "arguments"; "content";
   "is_error"; "result"; "error"; "artifact"; "truncated"].

Definition object_field (m : list (string * Json)) (i : nat) : option Json :=
  k ← field_names !! i;
  match obj_get k m with
  | Some v => Some v
  | None => if str_eqb k "artifact" then obj_get "artifacts" m else None
  end.

Definition derived_from_value (v : Json) : option LlmContentBlock :=
  match v with
  | JObject m =>
      match obj_get "artifact" m, obj_get "artifacts" m with
      | Some _, Some _ => None
      | _, _ => fields_to_block (object_field m)
      end
  | JArray l => if bool_decide (length l <= 12) then fields_to_block (fun i => l !! i) else None
  | _ => None
  end.

Lemma obj_get_ins {A} k k' (f : A -> Json) o m :
  obj_get k (ins k' f o m) =
  if str_eqb k k' then match o with Some a => Some (f a) | None => obj_get k m end
  else obj_get k m.
Proof. destruct o; cbn; [apply obj_get_insert|by destruct (str_eqb k k')]. Qed.

Lemma opt_field_Some {A} (parse : Json -> option A) (f : A -> Json) o :
  (forall a, parse (f a) = Some a) -> (forall a, o = Some a -> f a <> JNull) ->
  opt_field parse (match o with Some a => Some (f a) | None => None end) = Some o.
Proof.
  intros Hp Hn. destruct o as [a|]; [|done]. cbn. rewrite Hp.
  specialize (Hn a eq_refl). by destruct (f a).
Qed.

Lemma not_null_Some o a : not_null o = true -> o = Some a -> a <> JNull.
Proof. by intros H -> ->. Qed.

Lemma obj_get_ins_ne {A} k k' (f : A -> Json) o m :
  str_eqb k k' = false -> obj_get k (ins k' f o m) = obj_get k m.
Proof. intros E. by rewrite obj_get_ins, E. Qed.

Lemma obj_get_ins_eq {A} k (f : A -> Json) o m :
  obj_get k m = None ->
  obj_get k (ins k f o m) = match o with Some a => Some (f a) | None => None end.
Proof. intros E. by rewrite obj_get_ins, str_eqb_refl, E. Qed.

(** Looks a literal key up in [derived_fields]. *)
Ltac derived_get :=
  unfold derived_fields; cbv zeta;
  repeat (rewrite obj_get_ins_ne by (vm_compute; reflexivity));
  try (rewrite obj_get_ins_eq; [reflexivity|]);
  repeat (rewrite obj_get_ins_ne by (vm_compute; reflexivity));
  rewrite obj_get_insert; vm_compute; reflexivity.

Lemma derived_no_alias b : obj_get "artifacts" (derived_fields b) = None.
Proof. derived_get. Qed.

Lemma derived_get_strings b :
  obj_get "type" (derived_fields b) = Some (JString (block_type b)) /\
  obj_get "text" (derived_fields b) = match text b with Some a => Some (JString a) | None => None end /\
  obj_get "tool_call_id" (derived_fields b) =
    match tool_call_id b with Some a => Some (JString a) | None => None end /\
  obj_get "name" (derived_fields b) = match name b with Some a => Some (JString a) | None => None end /\
  obj_get "arguments_json" (derived_fields b) =
    match arguments_json b with Some a => Some (JString a) | None => None end /\
  obj_get "content" (derived_fields b) =
    match content b with Some a => Some (JString a) | None => None end.
Proof. repeat split; derived_get. Qed.

Lemma derived_get_values b :
  obj_get "arguments" (derived_fields b) =
    match arguments b with Some a => Some a | None => None end /\
  obj_get "is_error" (derived_fields b) =
    match is_error b with Some a => Some (JBool a) | None => None end /\
  obj_get "result" (derived_fields b) = match result_ b with Some a => Some a | None => None end /\
  obj_get "error" (derived_fields b) = match error b with Some a => Some a | None => None end /\
  obj_get "artifact" (derived_fields b) =
    match artifact b with Some a => Some a | None => None end /\
  obj_get "truncated" (derived_fields b) =
    match truncated b with Some a => Some (JBool a) | None => None end.
Proof. repeat split; derived_get. Qed.

Lemma derived_object_field b i k :
  field_names !! i = Some k -> object_field (derived_fields b) i = obj_get k (derived_fields b).
Proof.
  intros Hk. unfold object_field. rewrite Hk. cbn.
  destruct (obj_get k _) eqn:E; [done|]. case_match; [|done]. apply derived_no_alias.
Qed.

Lemma derived_value_roundtrip b :
  block_storable b = true -> derived_from_value (derived_to_value b) = Some b.
Proof.
  intros Hs. unfold block_storable in Hs. bool_to_prop.
  unfold derived_from_value, derived_to_value. rewrite derived_no_alias.
  assert (fields_to_block (object_field (derived_fields b)) = Some b) as Hb.
  { unfold fields_to_block. repeat (erewrite derived_object_field by reflexivity).
    destruct (derived_get_strings b) as (-> & -> & -> & -> & -> & ->).
    destruct (derived_get_values b) as (-> & -> & -> & -> & -> & ->).
    repeat (rewrite (opt_field_Some as_str JString) by done).
    repeat (rewrite (opt_field_Some as_bool JBool) by done).
    repeat (rewrite (opt_field_Some Some (fun v => v)) by eauto using not_null_Some).
    by destruct b. }
  by destruct (obj_get "artifact" _).
Qed.

#[export] Instance derived_serde : BlockSerde := {|
  block_to_value := derived_to_value; block_from_value := derived_from_value;
  block_value_roundtrip := derived_value_roundtrip |}.

(** *** Bounds *)

Section bounds.
Context `{JsonTextLaws}.

Definition MAX : Z := Z.of_nat MAX_DURABLE_TEXT_CHARS.

(** The text fits the machine: its length is a [usize]. *)
Definition json_fits (v : Json) : bool := json_ok v && (slen (json_text v) <=? u64_max)%Z.

Definition opt_forallb {A} (f : A -> bool) (o : option A) : bool :=
  match o with Some a => f a | None => true end.

Definition block_wf (b : LlmContentBlock) : bool :=
  opt_forallb str_valid (text b) && opt_forallb str_valid (content b) &&
  opt_forallb str_valid (arguments_json b) && opt_forallb json_ok (arguments b) &&
  opt_forallb json_fits (result_ b) && opt_forallb json_fits (error b).

(** The error code that survives redaction is itself short. *)
Definition code_short (v : Json) : bool :=
  match jget "code" v with Some c => (slen (json_text c) <=? 65400)%Z | None => true end.

Lemma redacted_text (n : Z) :
  json_text (JObject [("original_bytes", JNumber (PosInt n)); ("redacted", JBool true);
                      ("truncated", JBool true)]) =
  "{" +:+ (((dquote +:+ "original_bytes" +:+ dquote) +:+ ":" +:+ pretty n) +:+ "," +:+
           ((dquote +:+ "redacted" +:+ dquote) +:+ ":" +:+ "true") +:+ "," +:+
           ((dquote +:+ "truncated" +:+ dquote) +:+ ":" +:+ "true")) +:+ "}".
Proof.
  rewrite json_text_object. cbn [map fst snd].
  rewrite !json_text_plain, json_text_pos, !json_text_bool by reflexivity. reflexivity.
Qed.

Lemma redacted_code_text (c : Json) (n : Z) :
  json_text (JObject [("code", c); ("original_bytes", JNumber (PosInt n)); ("redacted", JBool true);
                      ("truncated", JBool true)]) =
  "{" +:+ (((dquote +:+ "code" +:+ dquote) +:+ ":" +:+ json_text c) +:+ "," +:+
           ((dquote +:+ "original_bytes" +:+ dquote) +:+ ":" +:+ pretty n) +:+ "," +:+
           ((dquote +:+ "redacted" +:+ dquote) +:+ ":" +:+ "true") +:+ "," +:+
           ((dquote +:+ "truncated" +:+ dquote) +:+ ":" +:+ "true")) +:+ "}".
Proof.
  rewrite json_text_object. cbn [map fst snd].
  rewrite !json_text_plain, json_text_pos, !json_text_bool by reflexivity. reflexivity.
Qed.

(** The replacement, by cases. *)
Lemma bound_structured_json_cases v retain :
  ((slen (json_text v) <= MAX)%Z /\ bound_structured_json v retain = (v, false)) \/
  ((MAX < slen (json_text v))%Z /\
   let n := slen (json_text v) in
   bound_structured_json v retain =
   (JObject (match (if retain then jget "code" v else None) with
             | Some c => [("code", c)]
             | None => []
             end ++ [("original_bytes", JNumber (PosInt n)); ("redacted", JBool true);
                     ("truncated", JBool true)]), true)).
Proof.
  unfold bound_structured_json, MAX.
  destruct (Z.leb_spec (slen (json_text v)) (Z.of_nat MAX_DURABLE_TEXT_CHARS)) as [Hle|Hgt].
  - by left.
  - right. split; [done|]. destruct retain; [|reflexivity]. by destruct (jget "code" v).
Qed.

Lemma bound_structured_json_size v retain :
  json_fits v = true -> (retain = true -> code_short v = true) ->
  (slen (json_text (fst (bound_structured_json v retain))) <= MAX)%Z.
Proof.
  intros Hf Hc. unfold json_fits in Hf. bool_to_prop. pose proof (slen_nonneg (json_text v)).
  assert (slen (pretty (slen (json_text v))) <= 20)%Z by (apply pretty_pos_length; lia).
  destruct (bound_structured_json_cases v retain) as [[Hle ->]|[Hgt ->]]; [done|].
  cbn [fst]. change MAX with 65536%Z.
  destruct retain; [specialize (Hc eq_refl); unfold code_short in Hc; destruct (jget "code" v)|];
    cbn [app]; bool_to_prop.
  - rewrite redacted_code_text. slen_norm. lia.
  - rewrite redacted_text. slen_norm. lia.
  - rewrite redacted_text. slen_norm. lia.
Qed.

(** A value within the bound is left alone, so bounding twice is bounding once. *)
Lemma bound_structured_json_small v retain :
  (slen (json_text v) <= MAX)%Z -> bound_structured_json v retain = (v, false).
Proof.
  intros Hle. destruct (bound_structured_json_cases v retain) as [[_ ->]|[Hgt _]]; [done|lia].
Qed.

(** An oversized error whose [code] member is itself oversized stays
    oversized after redaction: the code is copied whole. *)
Theorem redaction_keeps_oversized_code v c :
  jget "code" v = Some c -> (MAX < slen (json_text v))%Z ->
  (slen (json_text c) < slen (json_text (fst (bound_structured_json v true))))%Z.
Proof.
  intros Hc Hgt. destruct (bound_structured_json_cases v true) as [[Hle _]|[_ ->]]; [lia|].
  rewrite Hc. cbn [fst app]. rewrite redacted_code_text. slen_norm.
  pose proof (slen_nonneg (pretty (slen (json_text v)))). lia.
Qed.

Definition text_bounded (t : option string) : bool :=
  opt_forallb (fun t => str_valid t && bool_decide (length (chars t) <= MAX_DURABLE_TEXT_CHARS)) t.

Definition json_bounded (v : option Json) : bool :=
  opt_forallb (fun v => (slen (json_text v) <=? MAX)%Z) v.

(** Every field of a stored block is within its bound. *)
Definition block_bounded (b : LlmContentBlock) : bool :=
  text_bounded (text b) && text_bounded (content b) && text_bounded (arguments_json b) &&
  json_bounded (result_ b) && json_bounded (error b) && bool_decide (arguments b = None).

(** The artifact is at most one list deep. *)
Definition artifact_flat (b : LlmContentBlock) : bool :=
  match first_artifact (artifact b) with Some (JArray _) => false | _ => true end.

Lemma first_artifact_flat b :
  artifact_flat b = true -> first_artifact (first_artifact (artifact b)) = first_artifact (artifact b).
Proof. unfold artifact_flat. by destruct (first_artifact (artifact b)) as [[]|]. Qed.

Lemma bound_text_bounded t : opt_forallb str_valid t = true -> text_bounded (fst (bound_text t)) = true.
Proof.
  destruct t as [t|]; [|done]. cbn. intros Ht.
  rewrite truncate_utf8_chars_spec. cbn. rewrite chars_truncated by done.
  rewrite of_chars_valid by (by apply Forall_take, chars_wf). cbn.
  apply bool_decide_eq_true. rewrite length_take. lia.
Qed.

Lemma bound_text_id t : text_bounded t = true -> bound_text t = (t, false).
Proof.
  destruct t as [t|]; [|done]. unfold text_bounded, opt_forallb, bound_text. intros Ht. bool_to_prop.
  rewrite truncate_utf8_chars_spec, take_ge, of_chars_chars, bool_decide_eq_false_2; [done|lia|done].
Qed.

Lemma bound_json_bounded v retain :
  opt_forallb json_fits v = true -> (retain = true -> opt_forallb code_short v = true) ->
  json_bounded (fst (bound_json v retain)) = true.
Proof.
  destruct v as [v|]; [|done]. unfold bound_json, json_bounded, opt_forallb. intros Hf Hc.
  pose proof (bound_structured_json_size v retain Hf Hc) as Hs.
  destruct (bound_structured_json v retain). cbn in *. by apply Z.leb_le.
Qed.

Lemma bound_json_id v retain : json_bounded v = true -> bound_json v retain = (v, false).
Proof.
  destruct v as [v|]; [|done]. unfold json_bounded, opt_forallb, bound_json. intros Hv%Z.leb_le.
  by rewrite bound_structured_json_small.
Qed.

Lemma arguments_text_valid b :
  opt_forallb str_valid (arguments_json b) = true -> opt_forallb json_ok (arguments b) = true ->
  opt_forallb str_valid (arguments_text b) = true.
Proof.
  unfold arguments_text. destruct (arguments_json b); [done|].
  destruct (arguments b); [|done]. cbn. intros _. apply json_text_valid.
Qed.

Lemma bound_content_block_bounded b :
  block_wf b = true -> opt_forallb code_short (error b) = true ->
  block_bounded (bound_content_block b) = true.
Proof.
  intros Hwf Hc. unfold block_wf in Hwf. bool_to_prop. unfold block_bounded, bound_content_block.
  pose proof (bound_text_bounded (text b) ltac:(done)).
  pose proof (bound_text_bounded (content b) ltac:(done)).
  pose proof (bound_text_bounded (arguments_text b) ltac:(by apply arguments_text_valid)).
  pose proof (bound_json_bounded (result_ b) false ltac:(done) ltac:(done)).
  pose proof (bound_json_bounded (error b) true ltac:(done) ltac:(done)).
  destruct (bound_text (text b)), (bound_text (content b)), (bound_text (arguments_text b)),
    (bound_json (result_ b) false), (bound_json (error b) true). cbn in *.
  by repeat (apply andb_true_iff; split).
Qed.

(** A bounded block is only changed in its artifact and its flag. *)
Lemma bound_content_block_fix b :
  block_bounded b = true -> first_artifact (artifact b) = artifact b ->
  truncated b <> Some false -> bound_content_block b = b.
Proof.
  intros Hb Ha Ht. unfold block_bounded in Hb. bool_to_prop. unfold bound_content_block.
  assert (arguments_text b = arguments_json b) as ->.
  { unfold arguments_text. destruct (arguments_json b); [done|]. by replace (arguments b) with (@None Json). }
  rewrite !bound_text_id, !bound_json_id by done. cbn. rewrite !orb_false_r, Ha.
  destruct b; cbn in *. subst. by destruct truncated0 as [[]|].
Qed.

Lemma bound_content_block_truncated b : truncated (bound_content_block b) <> Some false.
Proof. unfold bound_content_block. repeat case_match; done. Qed.

Lemma bound_content_block_artifact b :
  artifact (bound_content_block b) = first_artifact (artifact b).
Proof. unfold bound_content_block. by repeat case_match. Qed.

(** Bounding a content block leaves every text field valid and within
    65,536 characters, [result] and [error] within 65,536 bytes of JSON, the
    arguments in their textual form only, and bounding again changes nothing. *)
Theorem bound_content_block_correct b :
  block_wf b = true -> opt_forallb code_short (error b) = true -> artifact_flat b = true ->
  block_bounded (bound_content_block b) = true /\
  bound_content_block (bound_content_block b) = bound_content_block b.
Proof.
  intros Hwf Hc Ha. pose proof (bound_content_block_bounded b Hwf Hc) as Hb. split; [done|].
  apply bound_content_block_fix; [done| |apply bound_content_block_truncated].
  rewrite bound_content_block_artifact. by apply first_artifact_flat.
Qed.

Context `{BlockSerde}.

(** What the stored form keeps: no [null] payloads, a flat artifact. *)
Definition block_keeps (b : LlmContentBlock) : bool :=
  not_null (result_ b) && not_null (error b) && not_null (first_artifact (artifact b)) &&
  artifact_flat b.

Lemma bound_json_not_null v retain : not_null v = true -> not_null (fst (bound_json v retain)) = true.
Proof.
  destruct v as [v|]; [|done]. cbn. intros Hv.
  destruct (bound_structured_json_cases v retain) as [[_ ->]|[_ ->]]; cbn; [done|].
  by destruct v.
Qed.

Lemma bound_content_block_storable b :
  block_keeps b = true -> block_storable (bound_content_block b) = true.
Proof.
  unfold block_keeps, block_storable. intros Hk. bool_to_prop.
  rewrite bound_content_block_artifact. unfold bound_content_block.
  pose proof (bound_json_not_null (result_ b) false ltac:(done)).
  pose proof (bound_json_not_null (error b) true ltac:(done)).
  destruct (bound_text (text b)), (bound_text (content b)), (bound_text (arguments_text b)),
    (bound_json (result_ b) false), (bound_json (error b) true). cbn in *.
  by repeat (apply andb_true_iff; split).
Qed.

Lemma decode_one_bounded b :
  block_keeps b = true ->
  decode_one_block (block_to_value (bound_content_block b)) = bound_content_block b.
Proof.
  intros Hk. unfold decode_one_block.
  rewrite block_value_roundtrip by (by apply bound_content_block_storable).
  rewrite bound_content_block_artifact, first_artifact_flat
    by (unfold block_keeps in Hk; by bool_to_prop).
  unfold bound_content_block, arguments_text. repeat case_match; cbn in *; by simplify_eq.
Qed.

(** Decoding what was encoded yields the bounded blocks, in order: nothing
    else of a block is lost between a write and a read. *)
Theorem message_content_roundtrip blocks :
  forallb block_keeps blocks = true ->
  decode_message_blocks (encode_message_content blocks) = map bound_content_block blocks.
Proof.
  unfold encode_message_content, decode_message_blocks. rewrite forallb_forall. intros Hk.
  rewrite map_map. apply map_ext_in. intros b Hb. by apply decode_one_bounded, Hk.
Qed.

End bounds.

(** *** Witnesses *)

Section witnesses.
#[local] Existing Instance CompactText.compact_text.
#[local] Existing Instance CompactText.compact_text_laws.

Definition sample_block : LlmContentBlock := {|
  block_type := "tool_result"; text := Some "done"; tool_call_id := Some "call_1"; name := None;
  arguments_json := None; arguments := Some (jobj [("path", JString "/tmp")]); content := None;
  is_error := Some false; result_ := Some (jobj [("ok", JBool true)]); error := None;
  artifact := Some (JArray [JString "a1"; JString "a2"]); truncated := None |}.

Lemma redaction_keeps_oversized_code_witness :
  let v := jobj [("code", JString (String.concat EmptyString (repeat "0123456789abcdef" 5000)))] in
  (MAX < slen (json_text (fst (bound_structured_json v true))))%Z.
Proof.
  intros v.
  pose proof (redaction_keeps_oversized_code v
    (JString (String.concat EmptyString (repeat "0123456789abcdef" 5000)))
    ltac:(reflexivity) ltac:(vm_compute; reflexivity)) as Hlt.
  etrans; [|exact Hlt]. vm_compute. reflexivity.
Defined.

Lemma bound_content_block_correct_witness :
  block_wf sample_block = true /\ block_bounded (bound_content_block sample_block) = true.
Proof.
  split; [vm_compute; reflexivity|].
  apply (bound_content_block_correct sample_block); vm_compute; reflexivity.
Defined.

Lemma message_content_roundtrip_witness :
  decode_message_blocks (encode_message_content [sample_block]) =
  map bound_content_block [sample_block].
Proof. apply (message_content_roundtrip [sample_block]). vm_compute. reflexivity. Defined.

End witnesses.

End Content.
