(* ===== verification/Sse.v ===== *)
(** * EventSource framing ([src/transport/sse.rs])

    The incremental framer the authenticated streams feed byte by byte, and a
    whole-stream reference parser it is proved equal to.  [SseFramer] is the
    source's struct; every operation returns the state it leaves behind with
    the value or error it answers, since the state survives an error. *)

From S2P Require Import Prelude Utf8.
From Stdlib Require Import Strings.Byte.

Module Sse.

(** ** The framer *)

Definition BOM : list byte := [xef; xbb; xbf].
Definition CR : byte := x0d.
Definition LF : byte := x0a.
Definition COLON : byte := x3a.
Definition SPACE : byte := x20.

Inductive FrameError :=
| LineTooLong
| DataTooLong
| InvalidUtf8.

Record SseFramer := mk_framer {
  max_line_bytes : Z;
  max_data_bytes : Z;
  prefix : list byte;
  bom_decided : bool;
  after_cr : bool;
  line : list byte;
  data : list byte;
  has_data : bool
}.

Definition new (max_line_bytes max_data_bytes : Z) : SseFramer :=
  mk_framer max_line_bytes max_data_bytes [] false false [] [] false.

Definition set_prefix (s : SseFramer) p d :=
  mk_framer (max_line_bytes s) (max_data_bytes s) p d (after_cr s) (line s) (data s) (has_data s).
Definition set_after_cr (s : SseFramer) a :=
  mk_framer (max_line_bytes s) (max_data_bytes s) (prefix s) (bom_decided s) a (line s) (data s) (has_data s).
Definition set_line (s : SseFramer) l :=
  mk_framer (max_line_bytes s) (max_data_bytes s) (prefix s) (bom_decided s) (after_cr s) l (data s) (has_data s).
Definition set_data (s : SseFramer) d h :=
  mk_framer (max_line_bytes s) (max_data_bytes s) (prefix s) (bom_decided s) (after_cr s) (line s) d h.

(** [strip_prefix(' ').unwrap_or(value)]. *)
Definition strip_space (v : list byte) : list byte :=
  match v with b :: v' => if bool_decide (b = SPACE) then v' else v | [] => v end.

Definition field_value (text : list byte) : list byte * list byte :=
  let '(field, value) := default (text, []) (split_once COLON text) in
  (field, strip_space value).

Definition DATA_FIELD : list byte := s2b "data".

Definition answer : Type := result (option (list byte)) FrameError.

Definition process_line (s0 : SseFramer) : SseFramer * answer :=
  let text := line s0 in
  let s := set_line s0 [] in
  if negb (utf8_valid text) then (s, Err InvalidUtf8) else
  match text with
  | [] =>
      if has_data s then (set_data s [] false, Ok (Some (data s))) else (s, Ok None)
  | c :: _ =>
      if bool_decide (c = COLON) then (s, Ok None) else
      let '(field, value) := field_value text in
      if bool_decide (field = DATA_FIELD) then
        let added := (blen value + (if has_data s then 1 else 0))%Z in
        match checked_add (blen (data s)) added with
        | Some total =>
            if (total <=? max_data_bytes s)%Z then
              let d := if has_data s then data s ++ [LF] else data s in
              (set_data s (d ++ value) true, Ok None)
            else (s, Err DataTooLong)
        | None => (s, Err DataTooLong)
        end
      else (s, Ok None)
  end.

Definition process_byte (s0 : SseFramer) (b : byte) : SseFramer * answer :=
  let s := if after_cr s0 then set_after_cr s0 false else s0 in
  if after_cr s0 && bool_decide (b = LF) then (s, Ok None) else
  if bool_decide (b = CR) then process_line (set_after_cr s true) else
  if bool_decide (b = LF) then process_line s else
  if (max_line_bytes s <=? blen (line s))%Z then (s, Err LineTooLong)
  else (set_line s (line s ++ [b]), Ok None).

(** The [for byte in pending] loop, with its early returns. *)
Fixpoint process_pending (s : SseFramer) (pending : list byte) : SseFramer * answer :=
  match pending with
  | [] => (s, Ok None)
  | b :: rest =>
      match process_byte s b with
      | (s', Ok None) => process_pending s' rest
      | r => r
      end
  end.

Definition push_byte (s : SseFramer) (b : byte) : SseFramer * answer :=
  if negb (bom_decided s) then
    let p := prefix s ++ [b] in
    if bool_decide (p = BOM) then (set_prefix s [] true, Ok None) else
    if starts_with BOM p then (set_prefix s p false, Ok None) else
    process_pending (set_prefix s [] true) p
  else process_byte s b.

Definition discard_pending (s : SseFramer) : SseFramer :=
  mk_framer (max_line_bytes s) (max_data_bytes s) [] (bom_decided s) (after_cr s) [] [] false.

(** Feeding a byte sequence and keeping the records, up to the first error. *)
Fixpoint collect (s : SseFramer) (bs : list byte) : SseFramer * result (list (list byte)) FrameError :=
  match bs with
  | [] => (s, Ok [])
  | b :: bs' =>
      match push_byte s b with
      | (s', Err e) => (s', Err e)
      | (s', Ok r) =>
          let '(s'', rs) := collect s' bs' in
          (s'', result_map (fun l => match r with Some x => x :: l | None => l end) rs)
      end
  end.

(** ** Reference parser

    The stream without its byte-order mark is cut into lines (ended by LF, CR
    or CRLF) and an unterminated rest; the lines are then interpreted one by
    one.  There is no per-byte state here. *)

Definition strip_lf (bs : list byte) : list byte :=
  match bs with b :: r => if bool_decide (b = LF) then r else bs | [] => [] end.

Definition push_line (l : list byte) (r : list (list byte) * list byte) :=
  (l :: fst r, snd r).
Definition extend_line (b : byte) (r : list (list byte) * list byte) :=
  match r with
  | ([], rest) => ([], b :: rest)
  | (l :: ls, rest) => ((b :: l) :: ls, rest)
  end.

Fixpoint split_lines (bs : list byte) : list (list byte) * list byte :=
  match bs with
  | [] => ([], [])
  | b :: r =>
      if bool_decide (b = LF) then push_line [] (split_lines r)
      else if bool_decide (b = CR) then
        push_line [] (match r with
                      | b' :: r' => if bool_decide (b' = LF) then split_lines r' else split_lines r
                      | [] => ([], [])
                      end)
      else extend_line b (split_lines r)
  end.

Inductive line_kind :=
| Blank
| Ignored
| Data (value : list byte).

Definition classify (text : list byte) : line_kind :=
  match text with
  | [] => Blank
  | c :: _ =>
      if bool_decide (c = COLON) then Ignored else
      let '(field, value) := field_value text in
      if bool_decide (field = DATA_FIELD) then Data value else Ignored
  end.

Definition join_data (acc : option (list byte)) (value : list byte) : list byte :=
  match acc with Some d => d ++ [LF] ++ value | None => value end.

Section reference.
Variables max_line max_data : Z.

(** Interprets the complete lines in order; [acc] is the item being built. *)
Fixpoint interp (acc : option (list byte)) (ls : list (list byte)) (rest : list byte)
    : result (list (list byte)) FrameError :=
  match ls with
  | [] => if (blen rest <=? max_line)%Z then Ok [] else Err LineTooLong
  | l :: ls' =>
      if negb (blen l <=? max_line)%Z then Err LineTooLong else
      if negb (utf8_valid l) then Err InvalidUtf8 else
      match classify l with
      | Ignored => interp acc ls' rest
      | Blank =>
          match acc with
          | Some d => result_map (cons d) (interp None ls' rest)
          | None => interp None ls' rest
          end
      | Data v =>
          let d := join_data acc v in
          if (blen d <=? max_data)%Z then interp (Some d) ls' rest else Err DataTooLong
      end
  end.

Definition sse_reference (bs : list byte) : result (list (list byte)) FrameError :=
  let body := if starts_with bs BOM then drop 3 bs else bs in
  let held := starts_with BOM bs && negb (bool_decide (bs = BOM)) in
  if held then Ok [] else
  let '(ls, rest) := split_lines body in interp None ls rest.
End reference.

(** Without limits: the data values of each block of lines ended by a blank
    line, joined by line feeds; blocks without data give no item. *)
Fixpoint blocks (cur : list (list byte)) (ls : list (list byte)) : list (list (list byte)) :=
  match ls with
  | [] => []
  | l :: ls' =>
      match classify l with
      | Blank => cur :: blocks [] ls'
      | Ignored => blocks cur ls'
      | Data v => blocks (cur ++ [v]) ls'
      end
  end.

Fixpoint join_values (vs : list (list byte)) : list byte :=
  match vs with
  | [] => []
  | [v] => v
  | v :: vs' => v ++ [LF] ++ join_values vs'
  end.

Definition items (ls : list (list byte)) : list (list byte) :=
  map join_values (filter (fun vs => ~ (vs = [])) (blocks [] ls)).

(** ** Invariant *)

Record framer_ok (s : SseFramer) : Prop := {
  ok_limits : (0 <= max_line_bytes s)%Z /\ (0 <= max_data_bytes s <= usize_max)%Z;
  ok_line : (blen (line s) <= max_line_bytes s)%Z;
  ok_data : (blen (data s) <= max_data_bytes s)%Z;
  ok_no_data : has_data s = false -> data s = [];
  ok_prefix : exists rest, BOM = prefix s ++ rest /\ rest <> [];
  ok_decided : bom_decided s = true -> prefix s = [];
  ok_undecided : bom_decided s = false -> line s = [] /\ after_cr s = false /\ has_data s = false;
  ok_after_cr : after_cr s = true -> line s = [];
  ok_no_eol : (CR ∉ line s) /\ (LF ∉ line s);
  ok_text : utf8_valid (data s) = true
}.

(** ** Lines *)

Lemma split_lines_app l bs :
  CR ∉ l -> LF ∉ l ->
  split_lines (l ++ bs) =
  match split_lines bs with
  | ([], rest) => ([], l ++ rest)
  | (l1 :: ls, rest) => ((l ++ l1) :: ls, rest)
  end.
Proof.
  intros Hcr Hlf. induction l as [|b l IH]; cbn [app].
  - by destruct (split_lines bs) as [[|] ?].
  - apply not_elem_of_cons in Hcr as [Hb Hcr]. apply not_elem_of_cons in Hlf as [Hb' Hlf].
    cbn [split_lines]. rewrite !bool_decide_eq_false_2 by congruence.
    rewrite IH by done. by destruct (split_lines bs) as [[|] ?].
Qed.

Lemma split_lines_LF l r :
  CR ∉ l -> LF ∉ l -> split_lines (l ++ LF :: r) = push_line l (split_lines r).
Proof.
  intros. rewrite split_lines_app by done. cbn [split_lines].
  rewrite bool_decide_eq_true_2 by done.
  destruct (split_lines r) as [ls rest]. cbn. by rewrite app_nil_r.
Qed.

Lemma split_lines_CR l r :
  CR ∉ l -> LF ∉ l -> split_lines (l ++ CR :: r) = push_line l (split_lines (strip_lf r)).
Proof.
  intros. rewrite split_lines_app by done. cbn [split_lines].
  rewrite bool_decide_eq_false_2 by done. rewrite bool_decide_eq_true_2 by done.
  assert (match r with
          | [] => ([], [])
          | b' :: r' => if bool_decide (b' = LF) then split_lines r' else split_lines r
          end = split_lines (strip_lf r)) as ->.
  { destruct r as [|b' r']; [done|]. cbn [strip_lf]. by case_bool_decide. }
  cbn. destruct (split_lines (strip_lf r)). cbn. by rewrite app_nil_r.
Qed.

(** ** One line, one byte *)

Definition acc_of (s : SseFramer) : option (list byte) :=
  if has_data s then Some (data s) else None.

Lemma process_line_classify s :
  framer_ok s ->
  process_line s =
  let s' := set_line s [] in
  if negb (utf8_valid (line s)) then (s', Err InvalidUtf8) else
  match classify (line s) with
  | Ignored => (s', Ok None)
  | Blank => if has_data s then (set_data s' [] false, Ok (Some (data s))) else (s', Ok None)
  | Data v =>
      if (blen (join_data (acc_of s) v) <=? max_data_bytes s)%Z
      then (set_data s' (join_data (acc_of s) v) true, Ok None)
      else (s', Err DataTooLong)
  end.
Proof.
  intros [[_ Hmax] _ _ Hnd _ _ _ _ _ _]. unfold process_line, classify.
  destruct (negb _); [done|]. destruct (line s) as [|c l]; [done|].
  case_bool_decide; [done|]. destruct (field_value (c :: l)) as [field value].
  case_bool_decide; [|done]. unfold acc_of, checked_add, usize_max in *. cbn.
  destruct (has_data s) eqn:Hh; cbn.
  - rewrite <- (app_assoc (data s)). unfold blen. rewrite !length_app. cbn.
    crush_guards.
  - rewrite Hnd by done. cbn. unfold blen. cbn.
    crush_guards.
Qed.

Lemma strip_space_valid v : utf8_valid v = true -> utf8_valid (strip_space v) = true.
Proof.
  destruct v as [|b v]; [done|]. cbn [strip_space]. case_bool_decide as Hb; [|done]. subst b.
  intros H. by apply (utf8_valid_ascii_split [] SPACE v).
Qed.

Lemma classify_data_valid l v :
  utf8_valid l = true -> classify l = Data v -> utf8_valid v = true.
Proof.
  unfold classify, field_value. destruct l as [|c l]; [done|]. intros Hl.
  case_bool_decide; [done|].
  destruct (split_once COLON (c :: l)) as [[f v0]|] eqn:E; cbn -[strip_space].
  - case_bool_decide; [|done]. intros [= <-]. apply strip_space_valid.
    apply split_once_Some in E. rewrite E in Hl.
    by apply (utf8_valid_ascii_split f COLON v0).
  - case_bool_decide; [|done]. by intros [= <-].
Qed.

Lemma join_data_valid acc v :
  (forall d, acc = Some d -> utf8_valid d = true) -> utf8_valid v = true ->
  utf8_valid (join_data acc v) = true.
Proof.
  intros Hacc Hv. destruct acc as [d|]; [|done]. cbn.
  apply utf8_valid_app_ok; [by apply Hacc|]. by apply (utf8_valid_app [LF]).
Qed.

Lemma acc_of_valid s d : framer_ok s -> acc_of s = Some d -> utf8_valid d = true.
Proof. intros Hok. unfold acc_of. destruct (has_data s); [|done]. intros [= <-]. apply Hok. Qed.

(** The items a framer answers are valid text within the data limit. *)
Definition item_ok (s : SseFramer) (a : answer) : Prop :=
  match a with
  | Ok (Some d) => (blen d <= max_data_bytes s)%Z /\ utf8_valid d = true
  | _ => True
  end.

Ltac framer_inv :=
  split; unfold blen in *; cbn in *; auto; try lia; try congruence;
  try (split; apply not_elem_of_nil).

Lemma process_line_ok s :
  framer_ok s -> bom_decided s = true ->
  framer_ok (fst (process_line s)) /\ item_ok s (snd (process_line s)) /\
  bom_decided (fst (process_line s)) = true.
Proof.
  intros Hok Hd. rewrite process_line_classify by done. pose proof Hok as [].
  assert (framer_ok (set_line s [])) as Hs.
  { framer_inv. }
  destruct (negb (utf8_valid (line s))) eqn:Hv; [done|].
  destruct (classify (line s)) as [| |v] eqn:Hc; [| done |].
  - destruct (has_data s) eqn:Hh; [|done]. cbn. split; [|by auto].
    destruct Hs as []; framer_inv.
  - case_match eqn:Hb; [|done]. cbn. split; [|by auto]. bool_to_prop.
    destruct Hs as []; framer_inv.
    apply join_data_valid; [intros d; by apply acc_of_valid|].
    by apply (classify_data_valid (line s)).
Qed.

Lemma set_after_cr_ok s a :
  framer_ok s -> bom_decided s = true -> (a = true -> line s = []) -> framer_ok (set_after_cr s a).
Proof. intros [] Hd Ha. split; cbn; auto. congruence. Qed.

Definition clear_cr (s : SseFramer) : SseFramer := if after_cr s then set_after_cr s false else s.

Lemma clear_cr_ok s : framer_ok s -> bom_decided s = true -> framer_ok (clear_cr s).
Proof. intros. unfold clear_cr. case_match; [|done]. by apply set_after_cr_ok. Qed.

Lemma process_line_after_cr s a :
  process_line (set_after_cr s a) =
  (set_after_cr (fst (process_line s)) a, snd (process_line s)).
Proof.
  unfold process_line. cbn. destruct (negb _); [done|].
  destruct (line s); [by destruct (has_data s)|].
  case_bool_decide; [done|]. destruct (field_value _). case_bool_decide; [|done].
  destruct (checked_add _ _); [|done]. by case_match.
Qed.

Lemma process_line_line s : line (fst (process_line s)) = [].
Proof.
  unfold process_line. cbn. destruct (negb _); [done|].
  destruct (line s); [by destruct (has_data s)|].
  case_bool_decide; [done|]. destruct (field_value _). case_bool_decide; [|done].
  destruct (checked_add _ _); [|done]. by case_match.
Qed.

Lemma process_line_limits s :
  max_line_bytes (fst (process_line s)) = max_line_bytes s /\
  max_data_bytes (fst (process_line s)) = max_data_bytes s /\
  after_cr (fst (process_line s)) = after_cr s.
Proof.
  unfold process_line. cbn. destruct (negb _); [done|].
  destruct (line s); [by destruct (has_data s)|].
  case_bool_decide; [done|]. destruct (field_value _). case_bool_decide; [|done].
  destruct (checked_add _ _); [|done]. by case_match.
Qed.

Lemma process_byte_ok s b :
  framer_ok s -> bom_decided s = true ->
  framer_ok (fst (process_byte s b)) /\ item_ok s (snd (process_byte s b)) /\
  bom_decided (fst (process_byte s b)) = true.
Proof.
  intros Hok Hd. pose proof (clear_cr_ok s Hok Hd) as Hcl.
  assert (bom_decided (clear_cr s) = true /\ max_data_bytes (clear_cr s) = max_data_bytes s)
    as [Hdc Hmc] by (unfold clear_cr; by case_match).
  unfold process_byte. fold (clear_cr s). 
  assert (item_ok s = item_ok (clear_cr s)) as -> by (unfold item_ok; by rewrite Hmc).
  destruct (after_cr s && _); [done|].
  destruct (bool_decide (b = CR)) eqn:Hcr.
  - rewrite process_line_after_cr. destruct (process_line_ok (clear_cr s)) as (? & ? & ?); [done..|].
    cbn [fst snd]. split; [|done].
    apply set_after_cr_ok; [done..|]. intros _. apply process_line_line.
  - destruct (bool_decide (b = LF)) eqn:Hlf; [by apply process_line_ok|].
    case_match; [done|]. cbn. split; [|done]. bool_to_prop.
    destruct Hcl as [? ? ? ? ? ? ? ? [??] ?].
    split; cbn; auto; try congruence.
    + unfold blen in *. rewrite length_app. cbn. lia.
    + intros Hcl. exfalso. revert Hcl. unfold clear_cr. case_match; [done|congruence].
    + rewrite !not_elem_of_app, !list_elem_of_singleton. intuition congruence.
Qed.

(** ** The framer against the reference *)

Definition with_record {A} (r : option A) (l : list A) : list A :=
  match r with Some x => x :: l | None => l end.

(** What the reference gives on the bytes still to come, from a framer state. *)
Definition interp_from (s : SseFramer) (bs : list byte) : result (list (list byte)) FrameError :=
  let '(ls, rest) := split_lines (line s ++ (if after_cr s then strip_lf bs else bs)) in
  interp (max_line_bytes s) (max_data_bytes s) (acc_of s) ls rest.

Lemma result_map_id {A E} (r : result A E) : result_map (fun l => l) r = r.
Proof. by destruct r. Qed.

(** Completing the current line with the rest of the stream after it. *)
Lemma process_line_interp s (after : list byte) :
  framer_ok s ->
  (let '(ls, rest) := push_line (line s) (split_lines after) in
   interp (max_line_bytes s) (max_data_bytes s) (acc_of s) ls rest) =
  match process_line s with
  | (_, Err e) => Err e
  | (s', Ok r) =>
      result_map (with_record r)
        (let '(ls, rest) := split_lines after in
         interp (max_line_bytes s') (max_data_bytes s') (acc_of s') ls rest)
  end.
Proof.
  intros Hok. rewrite process_line_classify by done. destruct (split_lines after) as [ls rest].
  cbn [push_line fst snd interp].
  replace (blen (line s) <=? max_line_bytes s)%Z with true by (symmetry; apply Z.leb_le, Hok).
  cbn [negb]. destruct (negb (utf8_valid (line s))); [done|].
  destruct (classify (line s)) as [| |v].
  - unfold acc_of at 1. destruct (has_data s) eqn:Hh; cbn.
    + done.
    + rewrite result_map_id. unfold acc_of. cbn. by rewrite Hh.
  - cbn. by rewrite result_map_id.
  - case_match; [|done]. cbn. by rewrite result_map_id.
Qed.

Lemma interp_from_clear s b bs :
  framer_ok s -> after_cr s && bool_decide (b = LF) = false ->
  interp_from s (b :: bs) = interp_from (clear_cr s) (b :: bs).
Proof.
  intros Hok Hb. unfold interp_from, clear_cr. destruct (after_cr s) eqn:Hc; [|by rewrite Hc].
  cbn in *. by rewrite Hb.
Qed.

Lemma clear_cr_after s : after_cr (clear_cr s) = false.
Proof. unfold clear_cr. by destruct (after_cr s) eqn:?. Qed.

Lemma interp_too_long max_line max_data acc l bs :
  CR ∉ l -> LF ∉ l -> (max_line < blen l)%Z ->
  (let '(ls, rest) := split_lines (l ++ bs) in interp max_line max_data acc ls rest)
  = Err LineTooLong.
Proof.
  intros Hcr Hlf Hl. rewrite split_lines_app by done.
  destruct (split_lines bs) as [[|l1 ls] rest]; cbn; unfold blen in *;
    rewrite length_app; crush_guards.
Qed.

Lemma process_byte_interp s b bs :
  framer_ok s -> bom_decided s = true ->
  interp_from s (b :: bs) =
  match process_byte s b with
  | (_, Err e) => Err e
  | (s', Ok r) => result_map (with_record r) (interp_from s' bs)
  end.
Proof.
  intros Hok Hd. unfold process_byte. fold (clear_cr s).
  destruct (after_cr s && bool_decide (b = LF)) eqn:Hskip.
  { apply andb_true_iff in Hskip as [Hc Hb]. unfold interp_from, clear_cr. rewrite Hc.
    cbn. rewrite Hb, result_map_id. done. }
  rewrite interp_from_clear by done. pose proof (clear_cr_ok s Hok Hd) as Hcl.
  pose proof (clear_cr_after s) as Hac. pose proof Hcl.(ok_no_eol _) as [Hncr Hnlf].
  revert Hcl Hac Hncr Hnlf. generalize (clear_cr s). clear s Hok Hd Hskip.
  intros s Hok Hac Hncr Hnlf. unfold interp_from at 1. rewrite Hac.
  destruct (bool_decide (b = CR)) eqn:Hcr.
  { bool_to_prop. subst b. rewrite split_lines_CR, process_line_interp by done.
    rewrite process_line_after_cr. pose proof (process_line_line s) as Hl.
    destruct (process_line s) as [s' [r|e]]; [|done]. cbn in Hl.
    unfold interp_from. cbn. by rewrite Hl. }
  destruct (bool_decide (b = LF)) eqn:Hlf.
  { bool_to_prop. subst b. rewrite split_lines_LF, process_line_interp by done.
    pose proof (process_line_line s) as Hl. pose proof (process_line_limits s) as (_ & _ & Ha).
    destruct (process_line s) as [s' [r|e]]; [|done]. cbn in Hl, Ha.
    unfold interp_from. by rewrite Hl, Ha, Hac. }
  bool_to_prop. rewrite cons_middle, app_assoc.
  assert (CR ∉ line s ++ [b]) by (rewrite elem_of_app, list_elem_of_singleton; intuition congruence).
  assert (LF ∉ line s ++ [b]) by (rewrite elem_of_app, list_elem_of_singleton; intuition congruence).
  destruct (max_line_bytes s <=? blen (line s))%Z eqn:Hlen; bool_to_prop.
  - apply interp_too_long; [done..|]. unfold blen in *. rewrite length_app. cbn. lia.
  - unfold interp_from. cbn. by rewrite Hac, result_map_id.
Qed.

Lemma process_byte_decided s b : bom_decided s = true -> push_byte s b = process_byte s b.
Proof. intros Hd. unfold push_byte. by rewrite Hd. Qed.

Lemma collect_decided s bs :
  framer_ok s -> bom_decided s = true -> snd (collect s bs) = interp_from s bs.
Proof.
  revert s. induction bs as [|b bs IH]; intros s Hok Hd; cbn.
  - unfold interp_from. destruct (ok_no_eol s Hok) as [Hc Hl].
    assert ((if after_cr s then strip_lf [] else []) = []) as -> by by destruct (after_cr s).
    rewrite split_lines_app by done. cbn. rewrite app_nil_r.
    replace (_ <=? _)%Z with true; [done|]. symmetry. apply Z.leb_le, Hok.
  - rewrite process_byte_decided, process_byte_interp by done.
    pose proof (process_byte_ok s b Hok Hd) as (Hok' & _ & Hd').
    destruct (process_byte s b) as [s' [r|e]]; [|done]. cbn in *.
    rewrite <- IH by done. by destruct (collect s' bs).
Qed.

(** ** The byte-order mark *)

Definition decided (max_line max_data : Z) : SseFramer :=
  mk_framer max_line max_data [] true false [] [] false.

Lemma decided_ok max_line max_data :
  (0 <= max_line)%Z -> (0 <= max_data <= usize_max)%Z -> framer_ok (decided max_line max_data).
Proof.
  intros. framer_inv. exists BOM. split; [done|]. done.
Qed.

Lemma new_ok max_line max_data :
  (0 <= max_line)%Z -> (0 <= max_data <= usize_max)%Z -> framer_ok (new max_line max_data).
Proof.
  intros. framer_inv. exists BOM. split; [done|]. done.
Qed.

(** Bytes of the mark are neither line ends nor items: held back and replayed,
    they act as if they had been fed one by one. *)
Lemma process_byte_plain s b s' r :
  b <> CR -> b <> LF -> process_byte s b = (s', Ok r) ->
  bom_decided s' = bom_decided s /\ r = None.
Proof.
  intros Hc Hl. unfold process_byte. rewrite !(bool_decide_eq_false_2 (b = _)) by done.
  rewrite andb_false_r. case_match; [done|]. intros [= <- <-]. split; [|done].
  cbn. by destruct (after_cr s).
Qed.

Lemma process_pending_collect s pre b rest :
  bom_decided s = true -> Forall (fun b => b <> CR /\ b <> LF) pre ->
  snd (match process_pending s (pre ++ [b]) with
       | (s', Err e) => (s', Err e)
       | (s', Ok r) =>
           let '(s'', rs) := collect s' rest in
           (s'', result_map (with_record r) rs)
       end) = snd (collect s (pre ++ b :: rest)).
Proof.
  intros Hd Hpre. revert s Hd. induction Hpre as [|x pre [Hc Hl] _ IH]; intros s Hd; cbn.
  - rewrite process_byte_decided by done.
    by destruct (process_byte s b) as [s' [[r|]|e]].
  - rewrite process_byte_decided by done.
    destruct (process_byte s x) as [s' [r|e]] eqn:E; [|done].
    apply process_byte_plain in E as [Hd' ->]; [|done..].
    rewrite IH by congruence. by destruct (collect s' (pre ++ b :: rest)) as [? []].
Qed.

Lemma collect_fresh_held max_line max_data p bs :
  starts_with BOM p = true -> p <> BOM ->
  forall b, snd (collect (set_prefix (decided max_line max_data) p false) (b :: bs)) =
    if bool_decide (p ++ [b] = BOM) then snd (collect (decided max_line max_data) bs)
    else if starts_with BOM (p ++ [b])
    then snd (collect (set_prefix (decided max_line max_data) (p ++ [b]) false) bs)
    else snd (collect (decided max_line max_data) (p ++ b :: bs)).
Proof.
  intros Hp Hne b. cbn. unfold push_byte. cbn [negb set_prefix bom_decided prefix].
  destruct (bool_decide (p ++ [b] = BOM)) eqn:HB.
  { unfold set_prefix. cbn. fold (decided max_line max_data).
    by destruct (collect (decided max_line max_data) bs) as [? []]. }
  destruct (starts_with BOM (p ++ [b])) eqn:HS.
  { unfold set_prefix. cbn.
    destruct (collect _ bs) as [? []]; done. }
  change (set_prefix (set_prefix (decided max_line max_data) p false) [] true)
    with (decided max_line max_data).
  apply process_pending_collect; [done|].
  apply starts_with_spec in Hp as (rest & Hr).
  assert (Forall (fun b => b <> CR /\ b <> LF) BOM) as HF by (repeat constructor; done).
  rewrite Hr, Forall_app in HF. apply HF.
Qed.

Ltac byte_tests :=
  repeat first
    [ rewrite (bool_decide_eq_false_2 (_ = _)) by (unfold BOM; congruence)
    | rewrite (bool_decide_eq_true_2 (_ = _)) by done ];
  cbn [andb negb].

Lemma collect_new_held max_line max_data bs :
  snd (collect (new max_line max_data) bs) =
  if starts_with BOM bs && negb (bool_decide (bs = BOM)) then Ok []
  else snd (collect (decided max_line max_data) (if starts_with bs BOM then drop 3 bs else bs)).
Proof.
  change (new max_line max_data) with (set_prefix (decided max_line max_data) [] false).
  destruct bs as [|b0 bs]; [done|]. rewrite collect_fresh_held by done. cbn [app starts_with BOM].
  destruct (decide (b0 = xef)) as [->|H0]; byte_tests; [|done].
  destruct bs as [|b1 bs]; [done|]. rewrite collect_fresh_held by done. cbn [app starts_with BOM].
  destruct (decide (b1 = xbb)) as [->|H1]; byte_tests; [|done].
  destruct bs as [|b2 bs]; [done|]. rewrite collect_fresh_held by done. cbn [app starts_with BOM].
  destruct (decide (b2 = xbf)) as [->|H2]; byte_tests; [|done].
  by destruct bs.
Qed.

Lemma collect_decided_lines max_line max_data bs :
  (0 <= max_line)%Z -> (0 <= max_data <= usize_max)%Z ->
  snd (collect (decided max_line max_data) bs) =
  let '(ls, rest) := split_lines bs in interp max_line max_data None ls rest.
Proof. intros. rewrite collect_decided by (done || by apply decided_ok). done. Qed.

(** ** Items as joined data values *)

Definition acc_values (cur : list (list byte)) : option (list byte) :=
  match cur with [] => None | _ => Some (join_values cur) end.

Lemma join_values_cons v w vs :
  join_values (v :: w :: vs) = v ++ [LF] ++ join_values (w :: vs).
Proof. done. Qed.

Lemma join_values_snoc cur v : join_data (acc_values cur) v = join_values (cur ++ [v]).
Proof.
  destruct cur as [|c cur]; [done|]. cbn [acc_values join_data].
  revert c. induction cur as [|d cur IH]; intros c; [done|].
  cbn [app]. rewrite !join_values_cons. rewrite app_comm_cons, <- IH. by rewrite <- !app_assoc.
Qed.

Lemma interp_items max_line max_data cur ls rest rs :
  interp max_line max_data (acc_values cur) ls rest = Ok rs ->
  rs = map join_values (filter (fun vs => ~ (vs = [])) (blocks cur ls)).
Proof.
  revert cur rs. induction ls as [|l ls IH]; intros cur rs; cbn [interp blocks].
  - case_match; [|done]. by intros [= <-].
  - do 2 (case_match; [done|]). destruct (classify l) as [| |v]; [|by apply IH|].
    + destruct cur as [|c cur].
      * rewrite filter_cons_False by naive_solver. apply (IH []).
      * cbn [acc_values]. rewrite filter_cons_True by done.
        destruct (interp _ _ None ls rest) as [rs'|] eqn:E; [|done].
        intros [= <-]. cbn. f_equal. by apply (IH []).
    + case_match; [|done]. rewrite join_values_snoc. intros Hi. apply IH.
      by destruct cur.
Qed.

Definition strip_bom (bs : list byte) : list byte := if starts_with bs BOM then drop 3 bs else bs.

Lemma held_no_lines bs :
  starts_with BOM bs && negb (bool_decide (bs = BOM)) = true ->
  fst (split_lines (strip_bom bs)) = [].
Proof.
  intros [Hb Hn]%andb_true_iff. bool_to_prop. apply starts_with_spec in Hb as (rest & Hr).
  unfold strip_bom.
  destruct bs as [|b0 [|b1 [|b2 [|]]]]; unfold BOM in Hr; simplify_eq/=; try done.
Qed.

(** ** Preservation *)

Lemma process_byte_max_data s b :
  max_data_bytes (fst (process_byte s b)) = max_data_bytes s.
Proof.
  assert (max_data_bytes (clear_cr s) = max_data_bytes s) as <- by (unfold clear_cr; by case_match).
  unfold process_byte. fold (clear_cr s).
  destruct (after_cr s && _); [done|].
  destruct (bool_decide (b = CR)).
  - rewrite process_line_after_cr. cbn. apply process_line_limits.
  - destruct (bool_decide (b = LF)); [apply process_line_limits|]. by case_match.
Qed.

Lemma process_pending_ok s p :
  framer_ok s -> bom_decided s = true ->
  framer_ok (fst (process_pending s p)) /\ item_ok s (snd (process_pending s p)).
Proof.
  revert s. induction p as [|x p IH]; intros s Hs Hd; [done|]. cbn.
  destruct (process_byte_ok s x Hs Hd) as (Hs' & Hi & Hd').
  pose proof (process_byte_max_data s x) as Hm.
  destruct (process_byte s x) as [s' [[r|]|e]]; cbn in *; try done.
  destruct (IH s' Hs' Hd') as [? Hi']. split; [done|]. unfold item_ok in *. by rewrite <- Hm.
Qed.

Lemma push_byte_ok s b :
  framer_ok s -> framer_ok (fst (push_byte s b)) /\ item_ok s (snd (push_byte s b)).
Proof.
  intros Hok. unfold push_byte. destruct (bom_decided s) eqn:Hd; cbn [negb].
  { by destruct (process_byte_ok s b Hok Hd) as (? & ? & _). }
  destruct (ok_undecided s Hok Hd) as (Hl & Ha & Hh).
  assert (framer_ok (set_prefix s [] true)) as Hs.
  { destruct Hok as []. framer_inv. by exists BOM. }
  destruct (bool_decide (prefix s ++ [b] = BOM)) eqn:HB; [done|]. bool_to_prop.
  destruct (starts_with BOM (prefix s ++ [b])) eqn:Hp.
  - split; [|done]. destruct Hok as []. framer_inv.
    apply starts_with_spec in Hp as (rest & Hr). exists rest. split; [done|].
    intros ->. rewrite app_nil_r in Hr. congruence.
  - change (item_ok s) with (item_ok (set_prefix s [] true)). by apply process_pending_ok.
Qed.

Lemma discard_pending_ok s : framer_ok s -> framer_ok (discard_pending s).
Proof.
  intros [].
  assert (bom_decided s = false -> after_cr s = false) by naive_solver.
  framer_inv. by exists BOM.
Qed.

(** ** Properties *)

(** C10. The incremental framer equals the whole-stream reference parser: on
    every byte sequence, whatever its byte-order mark, line ends, comments,
    malformed text and limits, feeding the bytes one at a time yields exactly
    the reference's items or its first error. *)
Theorem framer_matches_reference max_line max_data bs :
  (0 <= max_line <= usize_max)%Z -> (0 <= max_data <= usize_max)%Z ->
  snd (collect (new max_line max_data) bs) = sse_reference max_line max_data bs.
Proof.
  intros Hl Hd. rewrite collect_new_held. unfold sse_reference.
  case_match; [done|]. apply collect_decided_lines; lia.
Qed.

Lemma framer_matches_reference_witness :
  snd (collect (new 32 8) (BOM ++ s2b "data: a" ++ [CR; LF] ++ s2b "data:b" ++ [LF; LF])) =
  sse_reference 32 8 (BOM ++ s2b "data: a" ++ [CR; LF] ++ s2b "data:b" ++ [LF; LF]).
Proof. apply framer_matches_reference; vm_compute; split; discriminate. Defined.

(** When a stream frames without error, its items are, in order, the data
    values of each block of lines ended by a blank line, joined by single line
    feeds; comments and other fields never contribute, a block without a data
    field gives no item, and an unterminated block gives none either. *)
Theorem framer_items max_line max_data bs rs :
  (0 <= max_line <= usize_max)%Z -> (0 <= max_data <= usize_max)%Z ->
  snd (collect (new max_line max_data) bs) = Ok rs ->
  rs = items (fst (split_lines (strip_bom bs))).
Proof.
  intros Hl Hd. rewrite collect_new_held. case_match eqn:Hheld.
  - intros [= <-]. by rewrite held_no_lines.
  - rewrite collect_decided_lines by lia. fold (strip_bom bs).
    destruct (split_lines (strip_bom bs)) as [ls rest]. apply (interp_items _ _ []).
Qed.

Lemma framer_items_witness :
  [s2b "a" ++ [LF] ++ s2b "b"; []] =
  items (fst (split_lines (strip_bom
    (s2b ":c" ++ [LF] ++ s2b "data: a" ++ [CR] ++ s2b "data:b" ++ [LF; LF] ++ s2b "data:" ++ [LF; LF])))).
Proof.
  apply (framer_items 32 8); [vm_compute; split; discriminate..|].
  vm_compute. reflexivity.
Defined.

(** Every operation keeps the framer within its limits: the pending line
    and item never exceed them, the pending item is valid text, and every item
    answered is valid text of at most the configured number of bytes, also
    after an error and after a discard. *)
Theorem framer_invariant s b :
  framer_ok s ->
  framer_ok (fst (push_byte s b)) /\ item_ok s (snd (push_byte s b)) /\
  framer_ok (discard_pending s).
Proof. intros Hok. destruct (push_byte_ok s b Hok). auto using discard_pending_ok. Qed.

Lemma framer_invariant_witness :
  framer_ok (fst (push_byte (new 8 8) x64)) /\ item_ok (new 8 8) (snd (push_byte (new 8 8) x64)) /\
  framer_ok (discard_pending (new 8 8)).
Proof. apply framer_invariant, new_ok; vm_compute; [discriminate|split; discriminate]. Defined.

End Sse.
