(* ===== verification/Store.v ===== *)
(** * The in-memory gateway store ([src/gateway/store.rs], [src/sqlite_storage_rows.rs])

    Sessions, runs, jobs and idempotency records, and the load that rebuilds
    them from the rows of the durable store.  [HashMap] and [BTreeMap] are
    [gmap]s; where the source iterates a [HashMap] the result does not depend
    on the order except for which of several errors is reported.  Parsing JSON
    text and the derived reader of a workspace binding are parameters. *)

From S2P Require Import Prelude Utf8 Json Domain.
From stdpp Require Import pretty.

(** ** Records *)

Record GatewayEvent := {
  ge_event_id : string;
  ge_seq : Z;
  ge_event : string;
  ge_run_id : string;
  ge_timestamp : Z;
  ge_data : Json
}.

Definition is_terminal_event (e : GatewayEvent) : bool :=
  str_eqb (ge_event e) "run.completed" || str_eqb (ge_event e) "run.cancelled"
  || str_eqb (ge_event e) "run.failed".

(** The JSON document of an event's SSE frame ([into_sse]); the frame around
    it is the HTTP framework's. *)
Definition sse_payload (e : GatewayEvent) : list (string * Json) :=
  let payload := obj_insert "event_id" (JString (ge_event_id e)) [] in
  let payload := obj_insert "seq" (JNumber (PosInt (ge_seq e))) payload in
  let payload := obj_insert "event" (JString (ge_event e)) payload in
  let payload := obj_insert "run_id" (JString (ge_run_id e)) payload in
  let payload := obj_insert "timestamp" (JNumber (PosInt (ge_timestamp e))) payload in
  match ge_data e with
  | JObject fields => fold_left (fun m kv => obj_insert (fst kv) (snd kv) m) fields payload
  | data => obj_insert "data" data payload
  end.

(** [sender] says whether the run's live channel is still open. *)
Record RunRecord := {
  rr_run_id : string;
  rr_session_id : string;
  rr_parent_run_id : option string;
  rr_status : string;
  rr_events : list GatewayEvent;
  rr_sender : bool;
  rr_cancel_requested : bool
}.

Record WorkspaceBinding := {
  wb_selector : string;
  wb_canonical_path : string;
  wb_selected_name : option string;
  wb_generation : Z
}.

Record SessionView := {
  sv_id : string;
  sv_object : string;
  sv_title : option string;
  sv_model : string;
  sv_provider : option string;
  sv_source : string;
  sv_system_prompt : option string;
  sv_workspace : option WorkspaceBinding;
  sv_created_at : Z;
  sv_updated_at : Z;
  sv_message_count : nat;
  sv_end_reason : option string
}.

Record SessionMessage := {
  sm_id : string;
  sm_session_id : string;
  sm_role : string;
  sm_content : Json;
  sm_created_at : Z;
  sm_run_id : option string;
  sm_finish_reason : option string;
  sm_name : option string;
  sm_tool_call_id : option string;
  sm_parent_message_id : option string;
  sm_token_estimate : option Z;
  sm_metadata : Json;
  sm_ordinal : option Z
}.

Record SessionRecord := { sr_view : SessionView; sr_messages : list SessionMessage }.

Record JobView := {
  jv_id : string;
  jv_name : string;
  jv_schedule : Json;
  jv_prompt : string;
  jv_deliver : Json;
  jv_skills : list string;
  jv_repeat : option Z;
  jv_enabled : bool;
  jv_created_at : Z;
  jv_updated_at : Z;
  jv_last_run_at : option Z
}.

Record JobRecord := { jr_view : JobView; jr_output : option Json }.

Record IdempotencyRecord := {
  ir_request_hash : string;
  ir_run_id : string;
  ir_workspace_identity_json : option string
}.

Record GatewayStore := {
  gs_sessions : gmap string SessionRecord;
  gs_runs : gmap string RunRecord;
  gs_jobs : gmap string JobRecord;
  gs_idempotency : gmap string IdempotencyRecord
}.

(** A failed storage command: its typed code and message. *)
Record StorageError := { se_code : string; se_message : string }.

Definition storage_error_text (e : StorageError) : string := se_code e +:+ ": " +:+ se_message e.

(** ** Rows *)

Abbreviation row := (list Json).

Definition sqlite_storage_cell (value : Json) : result Json string :=
  match as_object value with
  | None => Ok value
  | Some obj =>
      match obj_get "kind" obj ≫= as_str with
      | None => Ok value
      | Some kind =>
          let field k := match obj_get k obj with Some v => v | None => JNull end in
          Ok (if str_eqb kind "int" then field "int_value"
              else if str_eqb kind "float" then field "float_value"
              else if str_eqb kind "text" then field "text_value"
              else if str_eqb kind "blob" then field "blob_value"
              else if str_eqb kind "null" then JNull
              else value)
      end
  end.

Definition sqlite_storage_row (r : Json) : result row string :=
  match jget "cells" r ≫= as_array with
  | Some cells => try_map sqlite_storage_cell cells
  | None =>
      match as_array r with
      | None => Err "storage row is not an array or SqliteRow"
      | Some arr => try_map sqlite_storage_cell arr
      end
  end.

Definition sqlite_storage_row_list (value : Json) : result (list row) string :=
  let? rows := ok_or (as_array value) "storage rows value is not an array" in
  try_map sqlite_storage_row rows.

Definition sqlite_storage_rows (data : Json) : result (list row) string :=
  match jget "rows" data with
  | Some rows => sqlite_storage_row_list rows
  | None =>
      match as_array data with
      | Some _ => sqlite_storage_row_list data
      | None => Err "storage result omitted rows"
      end
  end.

Definition sqlite_storage_first_row (data : Json) : option row :=
  match sqlite_storage_rows data with Ok rows => head rows | Err _ => None end.

Definition as_i64 (j : Json) : option Z :=
  match j with JNumber n => num_as_i64 n | _ => None end.

Definition load_rows (data : Json) (key : string) : result (list row) string :=
  let? nested := ok_or (jget key data) ("load.all result omitted " +:+ key +:+ " rows") in
  map_err (fun error => "load.all " +:+ key +:+ ": " +:+ error) (sqlite_storage_rows nested).

Definition string_cell (r : row) (index : nat) (label : string) : result string string :=
  ok_or (r !! index ≫= as_str) ("load.all row missing " +:+ label).

Definition optional_string (r : row) (index : nat) : option string :=
  match r !! index ≫= as_str with
  | Some value => if is_empty value then None else Some value
  | None => None
  end.

Definition int_cell (r : row) (index : nat) (label : string) : result Z string :=
  ok_or (r !! index ≫= as_i64) ("load.all row missing " +:+ label).

(** [serde_json::from_str], with its error text, and the derived reader of a
    workspace binding. *)
Class StoreReaders := {
  json_parse : string -> result Json string;
  workspace_from_value : Json -> option WorkspaceBinding
}.

(** [value as u64] of an [i64]. *)
Definition i64_as_u64 (z : Z) : Z := wrap64 z.

Section rows.
Context `{StoreReaders}.

Definition json_cell (r : row) (index : nat) (label : string) : result Json string :=
  match r !! index with
  | Some (JString t) => map_err (fun error => "decode " +:+ label +:+ ": " +:+ error) (json_parse t)
  | Some other => Ok other
  | None => Err ("load.all row missing " +:+ label)
  end.

Definition json_optional_cell (r : row) (index : nat) (label : string) : result (option Json) string :=
  match r !! index with
  | Some (JString t) =>
      if is_empty t then Ok None
      else map_err (fun error => "decode " +:+ label +:+ ": " +:+ error) (result_map Some (json_parse t))
  | Some JNull | None => Ok None
  | Some other => Ok (Some other)
  end.

Definition json_array_strings (r : row) (index : nat) (label : string) : result (list string) string :=
  let? value := json_cell r index label in
  let? items := ok_or (as_array value) (label +:+ " is not an array") in
  try_map (fun item => ok_or (as_str item) (label +:+ " contains a non-string")) items.

(** ** Loading *)

Definition memory_status (db_status : string) : string :=
  if str_eqb db_status "completed" then "completed"
  else if str_eqb db_status "failed" then "failed"
  else if str_eqb db_status "cancelled" then "cancelled"
  else "started".

Definition load_session (r : row) : result SessionRecord string :=
  let? id := string_cell r 0 "session id" in
  let? metadata := json_optional_cell r 13 "session metadata" in
  let metadata := default JNull metadata in
  let? workspace :=
    match jget "workspace" metadata with
    | None | Some JNull => Ok None
    | Some value =>
        match workspace_from_value value with
        | Some w => Ok (Some w)
        | None => Err "invalid workspace binding metadata"
        end
    end in
  let? model := string_cell r 10 "session model" in
  let? source := string_cell r 2 "session platform" in
  let? created_at := int_cell r 15 "session created_at" in
  let? updated_at := int_cell r 16 "session updated_at" in
  Ok {| sr_view := {|
          sv_id := id; sv_object := "hermes.session"; sv_title := optional_string r 17;
          sv_model := model; sv_provider := optional_string r 11; sv_source := source;
          sv_system_prompt := optional_string r 9; sv_workspace := workspace;
          sv_created_at := i64_as_u64 created_at; sv_updated_at := i64_as_u64 updated_at;
          sv_message_count := 0; sv_end_reason := optional_string r 18 |};
        sr_messages := [] |}.

Definition insert_session (sessions : gmap string SessionRecord) (r : row) :
    result (gmap string SessionRecord) string :=
  let? s := load_session r in
  match sessions !! sv_id (sr_view s) with
  | Some _ => Err ("duplicate session row: " +:+ sv_id (sr_view s))
  | None => Ok (<[sv_id (sr_view s) := s]> sessions)
  end.

Context `{JsonText, Content.BlockSerde}.

(** The body of the message loop; the session must already be known. *)
Definition load_message (sessions : gmap string SessionRecord) (r : row) :
    result SessionMessage string :=
  let? session_id := string_cell r 2 "message session id" in
  match sessions !! session_id with
  | None => Err ("message references unknown session: " +:+ session_id)
  | Some _ =>
      let? id := string_cell r 1 "message id" in
      let? role := string_cell r 3 "message role" in
      let? content := json_cell r 4 "message content" in
      let? created_at := int_cell r 13 "message created_at" in
      let? metadata := json_optional_cell r 10 "message metadata" in
      Ok {| sm_id := id; sm_session_id := session_id; sm_role := role;
            sm_content := Content.decode_message_content content;
            sm_created_at := i64_as_u64 created_at; sm_run_id := optional_string r 11;
            sm_finish_reason := optional_string r 12; sm_name := optional_string r 5;
            sm_tool_call_id := optional_string r 6; sm_parent_message_id := optional_string r 7;
            sm_token_estimate :=
              match r !! 8 ≫= as_i64 with
              | Some v => if (v =? 0)%Z then None else Some v
              | None => None
              end;
            sm_metadata := default JNull metadata; sm_ordinal := head r ≫= as_i64 |}
  end.

(** [entry(key).or_default().push(x)]. *)
Definition push_group {A} (groups : gmap string (list A)) (k : string) (x : A) :
    gmap string (list A) :=
  <[k := default [] (groups !! k) ++ [x]]> groups.

Definition group_with {A} (load : row -> result A string) (key : A -> string)
    (groups : gmap string (list A)) (r : row) : result (gmap string (list A)) string :=
  let? x := load r in
  Ok (push_group groups (key x) x).

Definition group_message (sessions : gmap string SessionRecord) :=
  group_with (load_message sessions) sm_session_id.

(** [(ordinal.unwrap_or(0), created_at)] in the order of pairs. *)
Definition message_key (m : SessionMessage) : Z * Z := (default 0%Z (sm_ordinal m), sm_created_at m).
Definition message_key_le (a b : Z * Z) : bool :=
  (fst a <? fst b)%Z || ((fst a =? fst b)%Z && (snd a <=? snd b)%Z).
Definition sort_messages : list SessionMessage -> list SessionMessage :=
  sort_by_key message_key_le message_key.

Definition set_messages (messages : list SessionMessage) (s : SessionRecord) : SessionRecord := {|
  sr_view :=
    let v := sr_view s in
    {| sv_id := sv_id v; sv_object := sv_object v; sv_title := sv_title v; sv_model := sv_model v;
       sv_provider := sv_provider v; sv_source := sv_source v;
       sv_system_prompt := sv_system_prompt v; sv_workspace := sv_workspace v;
       sv_created_at := sv_created_at v; sv_updated_at := sv_updated_at v;
       sv_message_count := length messages; sv_end_reason := sv_end_reason v |};
  sr_messages := messages |}.

Definition attach_messages (sessions : gmap string SessionRecord)
    (group : string * list SessionMessage) : gmap string SessionRecord :=
  alter (set_messages (sort_messages (snd group))) (fst group) sessions.

Definition load_run (sessions : gmap string SessionRecord) (r : row) : result RunRecord string :=
  let? run_id := string_cell r 0 "run id" in
  let? session_id := string_cell r 1 "run session id" in
  match sessions !! session_id with
  | None => Err ("run references unknown session: " +:+ session_id)
  | Some _ =>
      let? status := string_cell r 3 "run status" in
      Ok {| rr_run_id := run_id; rr_session_id := session_id;
            rr_parent_run_id := optional_string r 2; rr_status := memory_status status;
            rr_events := []; rr_sender := true; rr_cancel_requested := false |}
  end.

Definition insert_run (sessions : gmap string SessionRecord) (runs : gmap string RunRecord) (r : row) :
    result (gmap string RunRecord) string :=
  let? run := load_run sessions r in
  match runs !! rr_run_id run with
  | Some _ => Err ("duplicate run row: " +:+ rr_run_id run)
  | None => Ok (<[rr_run_id run := run]> runs)
  end.

Definition check_parent (runs : gmap string RunRecord) (_ : unit) (run : RunRecord) :
    result unit string :=
  match rr_parent_run_id run with
  | Some parent =>
      match runs !! parent with
      | Some _ => Ok tt
      | None => Err ("run references unknown parent run: " +:+ parent)
      end
  | None => Ok tt
  end.

Definition load_event (runs : gmap string RunRecord) (r : row) : result GatewayEvent string :=
  let? run_id := string_cell r 1 "event run id" in
  match runs !! run_id with
  | None => Err ("event references unknown run: " +:+ run_id)
  | Some _ =>
      let? event_id := string_cell r 2 "event id" in
      let? seq := int_cell r 0 "event seq" in
      let? event := string_cell r 3 "event type" in
      let? timestamp := int_cell r 5 "event created_at" in
      let? data := json_cell r 4 "event payload" in
      Ok {| ge_event_id := event_id; ge_seq := i64_as_u64 seq; ge_event := event;
            ge_run_id := run_id; ge_timestamp := i64_as_u64 timestamp; ge_data := data |}
  end.

Definition group_event (runs : gmap string RunRecord) := group_with (load_event runs) ge_run_id.

Definition sort_events : list GatewayEvent -> list GatewayEvent := sort_by_key Z.leb ge_seq.

(** The check of one sorted group: consecutive sequences, no event id twice. *)
Fixpoint check_sequence (run_id : string) (first_seq : Z) (index : nat) (seen : gset string)
    (events : list GatewayEvent) : result unit string :=
  match events with
  | [] => Ok tt
  | e :: events' =>
      let expected_seq := wrap64 (first_seq + Z.of_nat index) in
      if negb (ge_seq e =? expected_seq)%Z || bool_decide (ge_event_id e ∈ seen) then
        Err ("event sequence gap or duplicate for run " +:+ run_id +:+ ": expected "
             +:+ pretty expected_seq +:+ ", got " +:+ pretty (ge_seq e))
      else check_sequence run_id first_seq (S index) ({[ge_event_id e]} ∪ seen) events'
  end.

Definition set_events (events : list GatewayEvent) (run : RunRecord) : RunRecord :=
  {| rr_run_id := rr_run_id run; rr_session_id := rr_session_id run;
     rr_parent_run_id := rr_parent_run_id run; rr_status := rr_status run; rr_events := events;
     rr_sender := rr_sender run; rr_cancel_requested := rr_cancel_requested run |}.

Definition attach_events (runs : gmap string RunRecord) (group : string * list GatewayEvent) :
    result (gmap string RunRecord) string :=
  let events := sort_events (snd group) in
  let first_seq := match head events with Some e => ge_seq e | None => 1%Z end in
  let? _ := check_sequence (fst group) first_seq 0 ∅ events in
  Ok (alter (set_events events) (fst group) runs).

Definition load_job (r : row) : result JobRecord string :=
  let? id := string_cell r 0 "job id" in
  let? repeat := int_cell r 6 "job repeat" in
  let? name := string_cell r 1 "job name" in
  let? schedule := json_cell r 2 "job schedule" in
  let? prompt := string_cell r 3 "job prompt" in
  let? deliver := json_cell r 4 "job deliver" in
  let? skills := json_array_strings r 5 "job skills" in
  let? enabled := int_cell r 7 "job enabled" in
  let? created_at := int_cell r 9 "job created_at" in
  let? updated_at := int_cell r 10 "job updated_at" in
  let? last := int_cell r 11 "job last_run_at" in
  let? output := json_optional_cell r 8 "job output" in
  Ok {| jr_view := {|
          jv_id := id; jv_name := name; jv_schedule := schedule; jv_prompt := prompt;
          jv_deliver := deliver; jv_skills := skills;
          jv_repeat := if (0 <? repeat)%Z then Some repeat else None;
          jv_enabled := negb (enabled =? 0)%Z; jv_created_at := i64_as_u64 created_at;
          jv_updated_at := i64_as_u64 updated_at;
          jv_last_run_at := if (0 <? last)%Z then Some (i64_as_u64 last) else None |};
        jr_output := output |}.

Definition insert_job (jobs : gmap string JobRecord) (r : row) : result (gmap string JobRecord) string :=
  let? job := load_job r in
  match jobs !! jv_id (jr_view job) with
  | Some _ => Err ("duplicate job row: " +:+ jv_id (jr_view job))
  | None => Ok (<[jv_id (jr_view job) := job]> jobs)
  end.

Definition insert_idempotency (idempotency : gmap string IdempotencyRecord) (r : row) :
    result (gmap string IdempotencyRecord) string :=
  let? key := string_cell r 1 "idempotency key" in
  let? state := string_cell r 5 "idempotency state" in
  if str_eqb state "completed" then
    let? response := json_cell r 6 "idempotency response" in
    let? request_hash := string_cell r 2 "idempotency request hash" in
    let? run_id := string_cell r 4 "idempotency resource id" in
    let record := {| ir_request_hash := request_hash; ir_run_id := run_id;
                     ir_workspace_identity_json := json_text <$> jget "workspace_identity" response |} in
    match idempotency !! key with
    | Some _ => Err ("duplicate idempotency row: " +:+ key)
    | None => Ok (<[key := record]> idempotency)
    end
  else Ok idempotency.

Definition from_load (data : Json) : result GatewayStore string :=
  let? session_rows := load_rows data "sessions" in
  let? message_rows := load_rows data "messages" in
  let? run_rows := load_rows data "runs" in
  let? event_rows := load_rows data "events" in
  let? job_rows := load_rows data "jobs" in
  let? idempotency_rows := load_rows data "idempotency" in
  let? sessions := try_fold insert_session ∅ session_rows in
  let? messages_by_session := try_fold (group_message sessions) ∅ message_rows in
  let sessions' := foldl attach_messages sessions (map_to_list messages_by_session) in
  let? runs := try_fold (insert_run sessions') ∅ run_rows in
  let? _ := try_fold (check_parent runs) tt (map_to_list runs).*2 in
  let? events_by_run := try_fold (group_event runs) ∅ event_rows in
  let? runs' := try_fold attach_events runs (map_to_list events_by_run) in
  let? jobs := try_fold insert_job ∅ job_rows in
  let? idempotency := try_fold insert_idempotency ∅ idempotency_rows in
  Ok {| gs_sessions := sessions'; gs_runs := runs'; gs_jobs := jobs; gs_idempotency := idempotency |}.

(** [append_message]; the fresh identifier and the clock are arguments. *)
Definition append_message (uuid : string) (now : Z) (view : SessionView) (messages : list SessionMessage)
    (role : string) (content : Json) (run_id finish_reason : option string) :
    SessionView * list SessionMessage * SessionMessage :=
  let message := {|
    sm_id := uuid; sm_session_id := sv_id view; sm_role := role;
    sm_content := Content.decode_message_content content; sm_created_at := now; sm_run_id := run_id;
    sm_finish_reason := finish_reason; sm_name := None; sm_tool_call_id := None;
    sm_parent_message_id := None; sm_token_estimate := None; sm_metadata := JNull;
    sm_ordinal := None |} in
  let messages := messages ++ [message] in
  ({| sv_id := sv_id view; sv_object := sv_object view; sv_title := sv_title view;
      sv_model := sv_model view; sv_provider := sv_provider view; sv_source := sv_source view;
      sv_system_prompt := sv_system_prompt view; sv_workspace := sv_workspace view;
      sv_created_at := sv_created_at view; sv_updated_at := now;
      sv_message_count := length messages; sv_end_reason := sv_end_reason view |}, messages, message).

(** ** Lemmas on grouping and on loops over maps *)

Lemma push_group_lookup {A} (groups : gmap string (list A)) k x k' :
  default [] (push_group groups k x !! k') =
  default [] (groups !! k') ++ (if decide (k = k') then [x] else []).
Proof.
  unfold push_group. case_decide as Hk.
  - subst. by rewrite lookup_insert_eq.
  - rewrite lookup_insert_ne by done. by rewrite app_nil_r.
Qed.

(** Grouping rows is parsing them all, in order, and filtering by key. *)
Lemma group_with_spec {A} (load : row -> result A string) key rows groups :
  try_fold (group_with load key) ∅ rows = Ok groups ->
  exists xs, try_map load rows = Ok xs /\
    forall k, default [] (groups !! k) = filter (fun x => key x = k) xs.
Proof.
  apply (try_fold_inv (fun rows groups => exists xs, try_map load rows = Ok xs /\
    forall k, default [] (groups !! k) = filter (fun x => key x = k) xs)).
  - exists []. split; [done|]. intros k. by rewrite lookup_empty.
  - intros pre r g g' (xs & Hxs & Hk) Hg. unfold group_with in Hg.
    destruct (load r) as [x|] eqn:Hx; [|done]. injection Hg as <-.
    exists (xs ++ [x]). split.
    + apply try_map_Ok in Hxs. apply try_map_Ok, Forall2_app; [done|]. by repeat constructor.
    + intros k. by rewrite push_group_lookup, Hk, filter_app.
Qed.

(** A loop that alters one key per entry of a map alters each key once. *)
Lemma foldl_alter_lookup {A B} (f : B -> A -> A) (l : list (string * B)) (m : gmap string A) k :
  NoDup l.*1 ->
  foldl (fun m kv => alter (f (snd kv)) (fst kv) m) m l !! k =
  match (list_to_map l : gmap string B) !! k with
  | Some b => f b <$> m !! k
  | None => m !! k
  end.
Proof.
  revert m. induction l as [|[k' b] l IH]; intros m Hnd; cbn; [by rewrite lookup_empty|].
  apply NoDup_cons in Hnd as [Hk' Hnd]. rewrite IH by done. cbn.
  destruct (decide (k' = k)) as [->|Hne].
  - rewrite not_elem_of_list_to_map_1 by done. rewrite lookup_insert_eq, lookup_alter_eq. done.
  - rewrite lookup_insert_ne, lookup_alter_ne by done. done.
Qed.

Lemma foldl_alter_map {A B} (f : B -> A -> A) (g : gmap string B) (m : gmap string A) k :
  foldl (fun m kv => alter (f (snd kv)) (fst kv) m) m (map_to_list g) !! k =
  match g !! k with Some b => f b <$> m !! k | None => m !! k end.
Proof.
  rewrite foldl_alter_lookup by apply NoDup_fst_map_to_list. by rewrite list_to_map_to_list.
Qed.

Lemma attach_events_loop l runs runs' :
  try_fold attach_events runs l = Ok runs' ->
  runs' = foldl (fun m kv => alter (set_events (sort_events (snd kv))) (fst kv) m) runs l /\
  Forall (fun kv => let events := sort_events (snd kv) in
    check_sequence (fst kv) (match head events with Some e => ge_seq e | None => 1%Z end) 0 ∅ events
    = Ok tt) l.
Proof.
  revert runs. induction l as [|[k es] l IH]; intros runs; cbn.
  - intros [= <-]. split; [done|constructor].
  - unfold attach_events at 1. cbn.
    destruct (check_sequence _ _ _ _ _) as [[]|] eqn:E; [|done].
    intros [-> Hf]%IH. split; [done|]. by constructor.
Qed.

(** Consecutive sequence numbers, and every event identifier once. *)
Definition consecutive (events : list GatewayEvent) : Prop :=
  forall i e0 e, head events = Some e0 -> events !! i = Some e ->
  ge_seq e = wrap64 (ge_seq e0 + Z.of_nat i).

Lemma check_sequence_spec run_id first index seen events :
  check_sequence run_id first index seen events = Ok tt <->
  (forall i e, events !! i = Some e -> ge_seq e = wrap64 (first + Z.of_nat (index + i))) /\
  NoDup (map ge_event_id events) /\ (forall e, e ∈ events -> ge_event_id e ∉ seen).
Proof.
  revert index seen. induction events as [|e events IH]; intros index seen; cbn [check_sequence map].
  - split; [|done]. intros _. split_and!; [done|constructor|by inversion 1].
  - destruct (negb _ || _) eqn:E.
    + split; [done|]. intros (Hs & _ & Hseen). exfalso.
      specialize (Hs 0 e eq_refl). rewrite Nat.add_0_r in Hs.
      specialize (Hseen e ltac:(left)). rewrite Hs, Z.eqb_refl in E.
      cbn in E. by apply bool_decide_eq_true in E.
    + bool_to_prop. rewrite IH. split.
      * intros (Hs & Hnd & Hseen). split_and!.
        -- intros [|i] e' He'; cbn in He'.
           ++ injection He' as <-. by rewrite Nat.add_0_r.
           ++ rewrite (Hs i e' He'). f_equal. lia.
        -- constructor; [|done]. intros (e' & He & Hin)%list_elem_of_fmap.
           specialize (Hseen e' Hin). set_solver.
        -- intros e' [->|Hin]%elem_of_cons; [done|]. specialize (Hseen e' Hin). set_solver.
      * intros (Hs & Hnd & Hseen). apply NoDup_cons in Hnd as [He Hnd]. split_and!; [|done|].
        -- intros i e' He'. rewrite (Hs (S i) e' He'). f_equal. lia.
        -- intros e' Hin. apply not_elem_of_union. split; [|apply Hseen; by right].
           rewrite elem_of_singleton. intros Heq. apply He, list_elem_of_fmap. eauto.
Qed.

(** ** What a load establishes *)

Definition session_wf (k : string) (s : SessionRecord) : Prop :=
  sv_id (sr_view s) = k /\
  sv_message_count (sr_view s) = length (sr_messages s) /\
  Forall (fun m => sm_session_id m = k) (sr_messages s) /\
  StronglySorted (key_le message_key_le message_key) (sr_messages s).

Definition run_wf (store : GatewayStore) (k : string) (r : RunRecord) : Prop :=
  rr_run_id r = k /\
  is_Some (gs_sessions store !! rr_session_id r) /\
  (forall p, rr_parent_run_id r = Some p -> is_Some (gs_runs store !! p)) /\
  rr_status r ∈ ["completed"; "failed"; "cancelled"; "started"] /\
  Forall (fun e => ge_run_id e = k) (rr_events r) /\
  consecutive (rr_events r) /\
  NoDup (map ge_event_id (rr_events r)).

Definition store_wf (store : GatewayStore) : Prop :=
  map_Forall session_wf (gs_sessions store) /\
  map_Forall (run_wf store) (gs_runs store) /\
  map_Forall (fun k j => jv_id (jr_view j) = k) (gs_jobs store).

(** The intermediate values of a load that succeeded. *)
Lemma from_load_inv data store :
  from_load data = Ok store ->
  exists srows mrows rrows erows jrows sessions mgroups runs egroups,
    (load_rows data "sessions" = Ok srows /\ load_rows data "messages" = Ok mrows /\
     load_rows data "runs" = Ok rrows /\ load_rows data "events" = Ok erows) /\
    try_fold insert_session ∅ srows = Ok sessions /\
    try_fold (group_message sessions) ∅ mrows = Ok mgroups /\
    gs_sessions store = foldl attach_messages sessions (map_to_list mgroups) /\
    try_fold (insert_run (gs_sessions store)) ∅ rrows = Ok runs /\
    try_fold (check_parent runs) tt (map_to_list runs).*2 = Ok tt /\
    try_fold (group_event runs) ∅ erows = Ok egroups /\
    try_fold attach_events runs (map_to_list egroups) = Ok (gs_runs store) /\
    try_fold insert_job ∅ jrows = Ok (gs_jobs store).
Proof.
  unfold from_load. intros Hl.
  destruct (load_rows data "sessions") as [srows|] eqn:E1; [|done].
  destruct (load_rows data "messages") as [mrows|] eqn:E2; [|done].
  destruct (load_rows data "runs") as [rrows|] eqn:E3; [|done].
  destruct (load_rows data "events") as [erows|] eqn:E4; [|done].
  destruct (load_rows data "jobs") as [jrows|] eqn:E5; [|done].
  destruct (load_rows data "idempotency") as [irows|] eqn:E6; [|done].
  destruct (try_fold insert_session ∅ srows) as [sessions|] eqn:F1; [|done].
  destruct (try_fold (group_message sessions) ∅ mrows) as [mgroups|] eqn:F2; [|done].
  destruct (try_fold (insert_run _) ∅ rrows) as [runs|] eqn:F3; [|done].
  destruct (try_fold (check_parent runs) tt _) as [[]|] eqn:F4; [|done].
  destruct (try_fold (group_event runs) ∅ erows) as [egroups|] eqn:F5; [|done].
  destruct (try_fold attach_events runs _) as [runs'|] eqn:F6; [|done].
  destruct (try_fold insert_job ∅ jrows) as [jobs|] eqn:F7; [|done].
  destruct (try_fold insert_idempotency ∅ irows) as [idem|] eqn:F8; [|done].
  injection Hl as <-. exists srows, mrows, rrows, erows, jrows, sessions, mgroups, runs, egroups.
  split_and!; done.
Qed.

Lemma load_session_fresh r s :
  load_session r = Ok s -> sr_messages s = [] /\ sv_message_count (sr_view s) = 0.
Proof. unfold load_session. intros Hs. split_guards; done. Qed.

Lemma insert_session_loop rows sessions :
  try_fold insert_session ∅ rows = Ok sessions ->
  map_Forall (fun k s => sv_id (sr_view s) = k /\ sr_messages s = [] /\
                         sv_message_count (sr_view s) = 0) sessions.
Proof.
  apply (try_fold_inv (fun _ sessions => map_Forall (fun k s => sv_id (sr_view s) = k /\
    sr_messages s = [] /\ sv_message_count (sr_view s) = 0) sessions)); [apply map_Forall_empty|].
  intros _ r m m' Hm Hr. unfold insert_session in Hr.
  destruct (load_session r) as [s|] eqn:Hs; [|done]. destruct (m !! _); [done|]. injection Hr as <-.
  apply map_Forall_insert_2; [|done]. split; [done|by eapply load_session_fresh].
Qed.

Lemma message_key_le_total a b : message_key_le a b = true \/ message_key_le b a = true.
Proof. unfold message_key_le. destruct a, b; cbn. rewrite !orb_true_iff, !andb_true_iff, !Z.ltb_lt, !Z.leb_le, !Z.eqb_eq. lia. Qed.

Lemma message_key_le_trans a b c :
  message_key_le a b = true -> message_key_le b c = true -> message_key_le a c = true.
Proof.
  unfold message_key_le. destruct a, b, c; cbn.
  rewrite !orb_true_iff, !andb_true_iff, !Z.ltb_lt, !Z.leb_le, !Z.eqb_eq. lia.
Qed.

(** The messages of a loaded session are its rows, sorted. *)
Lemma loaded_messages rows sessions groups k s :
  try_fold insert_session ∅ rows = Ok sessions ->
  foldl attach_messages sessions (map_to_list groups) !! k = Some s ->
  sv_id (sr_view s) = k /\ sr_messages s = sort_messages (default [] (groups !! k)) /\
  sv_message_count (sr_view s) = length (sr_messages s).
Proof.
  intros Hs%insert_session_loop Hk.
  pose proof (foldl_alter_map (fun g => set_messages (sort_messages g)) groups sessions k) as Hf.
  unfold attach_messages in Hk. rewrite Hf in Hk. clear Hf.
  destruct (groups !! k) as [g|].
  - apply fmap_Some in Hk as (s0 & Hs0 & ->). destruct (Hs _ _ Hs0) as (Hid & _). done.
  - destruct (Hs _ _ Hk) as (Hid & Hm & Hc). rewrite Hm, Hc. done.
Qed.

Definition fresh_run (sessions : gmap string SessionRecord) (k : string) (r : RunRecord) : Prop :=
  rr_run_id r = k /\ is_Some (sessions !! rr_session_id r) /\
  rr_status r ∈ ["completed"; "failed"; "cancelled"; "started"] /\ rr_events r = [].

Lemma memory_status_vocabulary t : memory_status t ∈ ["completed"; "failed"; "cancelled"; "started"].
Proof. unfold memory_status. repeat case_match; set_solver. Qed.

Lemma insert_run_loop sessions rows runs :
  try_fold (insert_run sessions) ∅ rows = Ok runs -> map_Forall (fresh_run sessions) runs.
Proof.
  apply (try_fold_inv (fun _ runs => map_Forall (fresh_run sessions) runs)); [apply map_Forall_empty|].
  intros _ r m m' Hm Hr. unfold insert_run in Hr.
  destruct (load_run sessions r) as [run|] eqn:Hl; [|done]. destruct (m !! _); [done|].
  injection Hr as <-. apply map_Forall_insert_2; [|done]. split; [done|].
  unfold load_run in Hl. split_guards. split_and!; [by eexists|apply memory_status_vocabulary|done].
Qed.

Lemma check_parent_loop runs l :
  try_fold (check_parent runs) tt l = Ok tt ->
  Forall (fun r => forall p, rr_parent_run_id r = Some p -> is_Some (runs !! p)) l.
Proof.
  induction l as [|r l IH]; cbn; [constructor|]. unfold check_parent at 1.
  destruct (rr_parent_run_id r) as [q|] eqn:Hq.
  - destruct (runs !! q) eqn:Hr; [|done]. intros Hl. constructor; [|by apply IH].
    intros p [= <-]%(eq_trans (eq_sym Hq)). by rewrite Hr.
  - intros Hl. constructor; [|by apply IH]. congruence.
Qed.

(** The events of a loaded run are its rows, sorted, and pass the check. *)
Lemma loaded_events runs groups runs' k r :
  try_fold attach_events runs (map_to_list groups) = Ok runs' ->
  runs' !! k = Some r ->
  (exists r0, runs !! k = Some r0 /\
    (r = set_events (sort_events (default [] (groups !! k))) r0 \/ (groups !! k = None /\ r = r0))) /\
  consecutive (sort_events (default [] (groups !! k))) /\
  NoDup (map ge_event_id (sort_events (default [] (groups !! k)))).
Proof.
  intros [-> Hall]%attach_events_loop Hk.
  rewrite (foldl_alter_map (fun es => set_events (sort_events es))) in Hk.
  destruct (groups !! k) as [es|] eqn:Hg.
  - apply fmap_Some in Hk as (r0 & Hr0 & ->). split; [eauto|]. cbn.
    rewrite Forall_forall in Hall. specialize (Hall (k, es) ltac:(by apply elem_of_map_to_list)).
    cbn in Hall. apply check_sequence_spec in Hall as (Hs & Hnd & _). split; [|done].
    intros i e0 e He0 He. rewrite (Hs i e He), He0. done.
  - split; [eauto|]. cbn. split; [by intros ???|constructor].
Qed.

Lemma attach_events_dom runs groups runs' k :
  try_fold attach_events runs (map_to_list groups) = Ok runs' ->
  is_Some (runs !! k) -> is_Some (runs' !! k).
Proof.
  intros [-> _]%attach_events_loop [r Hr].
  rewrite (foldl_alter_map (fun es => set_events (sort_events es))), Hr.
  destruct (groups !! k); cbn; eauto.
Qed.

Lemma group_forall {A} (key : A -> string) (sort : list A -> list A) k xs :
  (forall l, Permutation (sort l) l) ->
  Forall (fun x => key x = k) (sort (filter (fun x => key x = k) xs)).
Proof. intros Hp. rewrite Hp. apply Forall_forall. intros x Hx. by apply list_elem_of_filter in Hx as [? _]. Qed.

Lemma insert_job_loop rows jobs :
  try_fold insert_job ∅ rows = Ok jobs -> map_Forall (fun k j => jv_id (jr_view j) = k) jobs.
Proof.
  apply (try_fold_inv (fun _ jobs => map_Forall (fun k j => jv_id (jr_view j) = k) jobs));
    [apply map_Forall_empty|].
  intros _ r m m' Hm Hr. unfold insert_job in Hr.
  destruct (load_job r) as [j|] eqn:Hl; [|done]. destruct (m !! _); [done|]. injection Hr as <-.
  by apply map_Forall_insert_2.
Qed.

(** C11. A load that succeeds rebuilds a consistent store: keys name their
    records, messages are counted, belong to their session and are ordered,
    every run has its session, its parent and a known status, and its events
    are its own, with consecutive sequence numbers and distinct identifiers. *)
Theorem from_load_wf data store : from_load data = Ok store -> store_wf store.
Proof.
  intros (srows & mrows & rrows & erows & jrows & sessions & mgroups & runs & egroups & _ &
    Hs & Hm & Hss & Hr & Hp & He & Hrs & Hj)%from_load_inv.
  destruct (group_with_spec _ _ _ _ Hm) as (ms & _ & Hms).
  destruct (group_with_spec _ _ _ _ He) as (es & _ & Hes). split_and!.
  - intros k s Hk. rewrite Hss in Hk.
    destruct (loaded_messages _ _ _ _ _ Hs Hk) as (Hid & Hmsg & Hc).
    split_and!; [done|done|..]; rewrite Hmsg.
    + rewrite Hms. apply group_forall. apply sort_by_key_perm.
    + apply sort_by_key_sorted; [apply message_key_le_total|apply message_key_le_trans].
  - intros k r Hk. destruct (loaded_events _ _ _ _ _ Hrs Hk) as ((r0 & Hr0 & Hcase) & Hcons & Hnd).
    destruct (insert_run_loop _ _ _ Hr k r0 Hr0) as (Hid & Hsess & Hst & Hnil).
    apply check_parent_loop in Hp. rewrite Forall_forall in Hp.
    specialize (Hp r0 ltac:(apply list_elem_of_fmap; exists (k, r0); split; [done|by apply elem_of_map_to_list])).
    assert (forall p, rr_parent_run_id r0 = Some p -> is_Some (gs_runs store !! p)) as Hp'
      by (intros p Hpp; eapply attach_events_dom; eauto).
    destruct Hcase as [->|[Hnone ->]]; cbn.
    + split_and!; try done. rewrite Hes. apply group_forall. apply sort_by_key_perm.
    + split_and!; try done; rewrite Hnil; [constructor|by intros ???|constructor].
  - by eapply insert_job_loop.
Qed.

(** Nothing is dropped, added or reordered by a load: the messages of each
    session are exactly its decoded rows in a stable order of ordinal and time,
    and the events of each run exactly its rows in sequence order. *)
Theorem from_load_complete data store :
  from_load data = Ok store ->
  exists mrows erows sessions runs ms es,
    load_rows data "messages" = Ok mrows /\ load_rows data "events" = Ok erows /\
    try_map (load_message sessions) mrows = Ok ms /\ try_map (load_event runs) erows = Ok es /\
    (forall k s, gs_sessions store !! k = Some s ->
       sr_messages s = sort_messages (filter (fun m => sm_session_id m = k) ms)) /\
    (forall k r, gs_runs store !! k = Some r ->
       rr_events r = sort_events (filter (fun e => ge_run_id e = k) es)).
Proof.
  intros (srows & mrows & rrows & erows & jrows & sessions & mgroups & runs & egroups &
    (_ & Hmr & _ & Her) & Hs & Hm & Hss & Hr & Hp & He & Hrs & Hj)%from_load_inv.
  destruct (group_with_spec _ _ _ _ Hm) as (ms & Hpm & Hms).
  destruct (group_with_spec _ _ _ _ He) as (es & Hpe & Hes).
  exists mrows, erows, sessions, runs, ms, es. split_and!; try done.
  - intros k s Hk. rewrite Hss in Hk. rewrite <- Hms. by eapply loaded_messages.
  - intros k r Hk. destruct (loaded_events _ _ _ _ _ Hrs Hk) as ((r0 & Hr0 & Hcase) & _).
    rewrite <- Hes. destruct Hcase as [->|[Hnone ->]]; [done|].
    rewrite Hnone. cbn. by destruct (insert_run_loop _ _ _ Hr k r0 Hr0) as (_ & _ & _ & ->).
Qed.

End rows.

(** A dump with one session, two messages out of order, a run and its events. *)
Module LoadExample.
#[local] Existing Instance CompactText.compact_text.

#[local] Existing Instance Content.derived_serde.

#[local] Instance no_text : StoreReaders := {|
  json_parse _ := Err "no JSON text"; workspace_from_value _ := None |}.

Definition s0 (t : string) : Json := JString t.
Definition blank : Json := JNull.

Definition session_row : Json :=
  JArray [s0 "s1"; blank; s0 "api"; blank; blank; blank; blank; blank; blank; blank; s0 "model";
          blank; blank; JNull; blank; jint 10; jint 11; blank; blank].

Definition message_row (ordinal : Z) (id : string) : Json :=
  JArray [jint ordinal; s0 id; s0 "s1"; s0 "user"; JArray []; blank; blank; blank; jint 0; blank;
          JNull; blank; blank; jint 12].

Definition event_row (seq : Z) (id : string) : Json :=
  JArray [jint seq; s0 "r1"; s0 id; s0 "model.started"; jobj []; jint 13].

Definition dump : Json :=
  jobj [("sessions", JArray [session_row]);
        ("messages", JArray [message_row 2 "m2"; message_row 1 "m1"]);
        ("runs", JArray [JArray [s0 "r1"; s0 "s1"; blank; s0 "completed"]]);
        ("events", JArray [event_row 5 "e5"; event_row 4 "e4"]);
        ("jobs", JArray []); ("idempotency", JArray [])].

Definition loaded : GatewayStore :=
  match from_load dump with
  | Ok s => s
  | Err _ => {| gs_sessions := ∅; gs_runs := ∅; gs_jobs := ∅; gs_idempotency := ∅ |}
  end.

Lemma from_load_wf_witness :
  store_wf loaded /\ (sr_messages <$> gs_sessions loaded !! "s1") <> Some [].
Proof.
  split; [|by vm_compute]. apply (from_load_wf dump loaded). by vm_compute.
Defined.

Lemma from_load_complete_witness :
  exists ms, (sr_messages <$> gs_sessions loaded !! "s1") =
             Some (sort_messages (filter (fun m => sm_session_id m = "s1") ms)).
Proof.
  destruct (from_load_complete dump loaded ltac:(by vm_compute))
    as (_ & _ & _ & _ & ms & _ & _ & _ & _ & _ & Hm & _).
  exists ms. destruct (gs_sessions loaded !! "s1") as [s|] eqn:E; [|by vm_compute in E].
  cbn. by rewrite (Hm _ _ E).
Defined.

End LoadExample.
