(* ===== verification/Events.v ===== *)
(** * The agent event schema ([src/events.rs])

    Which events a script may emit, the errors of a durable append, and the
    committer interface through which tool steps reach durable storage, with
    the methods the trait provides by default. *)

From S2P Require Import Prelude Utf8 Json Domain.

(** ** Schema *)

Definition CANONICAL_SCRIPT_EVENTS : list string :=
  ["model.started"; "model.delta"; "model.completed"; "tool.requested"; "approval.required";
   "approval.resolved"; "tool.started"; "tool.output"; "tool.completed"; "tool.failed";
   "compact.started"; "compact.completed"; "subagent.started"; "subagent.completed"].

Definition SERVICE_OWNED_EVENTS : list string :=
  ["run.started"; "run.completed"; "run.cancelled"; "run.failed"; "message.delta"].

(** Lookup of a string key in a VM map. *)
Fixpoint vm_get (k : string) (entries : list (VmValue * VmValue)) : option VmValue :=
  match entries with
  | [] => None
  | (VString k', v) :: entries' => if str_eqb k k' then Some v else vm_get k entries'
  | _ :: entries' => vm_get k entries'
  end.

Definition contains (l : list string) (s : string) : bool := existsb (str_eqb s) l.

Definition validate_script_event (value : VmValue) : result string string :=
  match value with
  | VMap entries =>
      match vm_get "type" entries with
      | Some (VString event_type) =>
          if contains CANONICAL_SCRIPT_EVENTS event_type then Ok event_type
          else if contains SERVICE_OWNED_EVENTS event_type then
            Err "script events must not use service-owned event types"
          else Err "script event type is not a canonical agent event"
      | _ => Err "script event payload must carry a string 'type' field"
      end
  | _ => Err "script event payload must be a map"
  end.

Definition script_event_data `{JsonText} (value : VmValue) : Json := Convert.vm_value_to_json value.

Definition schema_violation_error (reason : string) : Json :=
  jobj [("status", JString "failed"); ("error_code", JString "invalid_event_schema");
        ("error_message",
          JString ("script event rejected by the agent event schema: " +:+ reason))].

(** ** Durable commits *)

Inductive EventCommitError :=
| Terminal
| Cancelled
| PersistFailed (message : string)
| MissingParent
| Corrupt (message : string).

Lemma contains_spec l s : contains l s = true <-> s ∈ l.
Proof.
  unfold contains. rewrite existsb_exists_iff. split.
  - intros (x & Hx & ->%str_eqb_true). done.
  - intros Hs. exists s. by rewrite str_eqb_refl.
Qed.

(** A script event is accepted exactly when it is a map whose [type] is one
    of the canonical names, which is then its type; no service-owned name, in
    particular no terminal event, is ever accepted. *)
Theorem validate_script_event_spec value t :
  (validate_script_event value = Ok t <->
   exists entries, value = VMap entries /\ vm_get "type" entries = Some (VString t) /\
                   t ∈ CANONICAL_SCRIPT_EVENTS) /\
  ~ (validate_script_event value = Ok t /\ t ∈ SERVICE_OWNED_EVENTS).
Proof.
  assert (validate_script_event value = Ok t <->
    exists entries, value = VMap entries /\ vm_get "type" entries = Some (VString t) /\
                    t ∈ CANONICAL_SCRIPT_EVENTS) as Hiff.
  { unfold validate_script_event. split.
    - intros Hv. destruct value; try done. exists m. split; [done|].
      destruct (vm_get "type" m) as [[]|]; try done.
      destruct (contains CANONICAL_SCRIPT_EVENTS s) eqn:E; [|by case_match].
      injection Hv as <-. split; [done|by apply contains_spec].
    - intros (entries & -> & -> & Ht). by rewrite (proj2 (contains_spec _ _) Ht). }
  split; [done|]. intros [(_ & _ & _ & Hc)%Hiff Hs].
  unfold SERVICE_OWNED_EVENTS, CANONICAL_SCRIPT_EVENTS in *.
  repeat (apply elem_of_cons in Hs as [->|Hs]; [by set_solver|]). by inversion Hs.
Qed.

(** ** The committer interface

    [DurableEventCommitter]: [S] is what the committer may change.  The
    defaults are those of the trait. *)
Class DurableEventCommitter (S R : Type) := {
  is_terminal : S -> bool;
  stop_requested : S -> bool;
  commit : string -> Json -> S -> S * result unit EventCommitError;
  commit_step : string -> Json -> option R -> S -> S * result unit EventCommitError;
  prepare_tool_parent : string -> string -> S -> result (string * string) EventCommitError;
  replay_durable_tool_result : string -> string -> S -> result (option R) EventCommitError;
  commit_pair : string * Json -> string * Json -> S -> S * result unit EventCommitError
}.

Definition stop_requested_default {S} (_ : S) : bool := false.

Definition commit_step_default {S R} (commit : string -> Json -> S -> S * result unit EventCommitError)
    (event_type : string) (data : Json) (_ : option R) (s : S) : S * result unit EventCommitError :=
  commit event_type data s.

Definition prepare_tool_parent_default {S} (_ name : string) (_ : S) :
    result (string * string) EventCommitError := Ok (EmptyString, name).

Definition replay_default {S R} (_ _ : string) (_ : S) : result (option R) EventCommitError := Ok None.

Definition commit_pair_default {S} (commit : string -> Json -> S -> S * result unit EventCommitError)
    (first second : string * Json) (s : S) : S * result unit EventCommitError :=
  match commit (fst first) (snd first) s with
  | (s', Ok _) => commit (fst second) (snd second) s'
  | (s', Err e) => (s', Err e)
  end.
