(* ===== verification/Delivery.v ===== *)
(** * Live event delivery ([src/runtime/delivery.rs])

    The delivery task of one run: script events are validated, given the next
    sequence number, persisted, applied to memory and only then published.

    The task shares the store with the rest of the service.  Its critical
    section holds the commit gate but gives the store lock up while it
    persists, so each step carries what other threads may do to the store
    before it and while it persists.  The durable store is a parameter: a state
    and an append that answers.  Identifiers and clock readings are inputs.
    Effects are recorded in a trace, in the order the code performs them. *)

From S2P Require Import Prelude Utf8 Json Domain Store Events.

Section Delivery.
Context `{JsonText}.

(** ** Candidates *)

Definition over_limit_data : Json :=
  jobj [("truncated", JBool true); ("original_bytes", JString "over_limit")].

(** [run.events.last().map(|event| event.seq + 1).unwrap_or(1)]. *)
Definition next_seq (run : RunRecord) : Z :=
  match last (rr_events run) with Some e => wrap64 (ge_seq e + 1) | None => 1%Z end.

Definition event_candidate (uuid : string) (now : Z) (run : RunRecord) (event_type : string)
    (data : Json) (max_event_bytes : Z) : GatewayEvent := {|
  ge_event_id := uuid;
  ge_seq := next_seq run;
  ge_event := event_type;
  ge_run_id := rr_run_id run;
  ge_timestamp := now;
  ge_data := if (max_event_bytes <? slen (json_text data))%Z then over_limit_data else data |}.

Definition apply_event_locked (run : RunRecord) (event : GatewayEvent) (max_events_per_run : nat) :
    RunRecord :=
  if existsb (fun existing => str_eqb (ge_event_id existing) (ge_event_id event)) (rr_events run) then run
  else set_events (keep_last max_events_per_run (rr_events run ++ [event])) run.

(** ** The task *)

Record Config := { max_event_bytes : Z; max_events_per_run : nat }.

(** The durable event store: [GatewayPersistence::event_append]. *)
Context {D : Type} (event_append : Json -> D -> D * result Json string).

Inductive Effect :=
| EPersist (payload : Json) (ok : bool)
| EApply (e : GatewayEvent)
| EPublish (e : GatewayEvent).

Record State := {
  st_store : GatewayStore;
  st_durable : D;
  st_trace : list Effect;
  st_emitted : nat;
  st_dropped : nat
}.

(** One received value, with the identifiers and clocks it consumes and the
    interference before the step and while it persists. *)
Record Received := {
  rc_value : VmValue;
  rc_uuid : string;
  rc_now : Z;
  rc_persist_now : Z;
  rc_before : GatewayStore -> GatewayStore;
  rc_during : GatewayStore -> GatewayStore
}.

Inductive DeliverOutcome :=
| Published (e : GatewayEvent)
| RunEnded
| PersistError (error : string)
| Panic.

Record DeliveryOutcome := {
  schema_violation : option string;
  persist_failed : bool;
  delivered : nat
}.

Definition run_ended (status : string) : bool :=
  str_eqb status "completed" || str_eqb status "failed" || str_eqb status "cancelled"
  || str_eqb status "terminal_pending".

Definition append_payload (config : Config) (run_id : string) (event : GatewayEvent) (now : Z) : Json :=
  jobj [("run_id", JString run_id); ("event_id", JString (ge_event_id event));
        ("event_type", JString (ge_event event)); ("payload_json", JString (json_text (ge_data event)));
        ("now_ms", JNumber (PosInt now));
        ("max_events", JNumber (PosInt (Z.of_nat (max_events_per_run config))));
        ("seq", JNumber (PosInt (ge_seq event)))].

Definition with_runs (runs : gmap string RunRecord) (s : GatewayStore) : GatewayStore :=
  {| gs_sessions := gs_sessions s; gs_runs := runs; gs_jobs := gs_jobs s;
     gs_idempotency := gs_idempotency s |}.

Definition set_store (store : GatewayStore) (s : State) : State :=
  {| st_store := store; st_durable := st_durable s; st_trace := st_trace s;
     st_emitted := st_emitted s; st_dropped := st_dropped s |}.

Definition log_effect (e : Effect) (s : State) : State :=
  {| st_store := st_store s; st_durable := st_durable s; st_trace := st_trace s ++ [e];
     st_emitted := st_emitted s; st_dropped := st_dropped s |}.

Definition count_emitted (s : State) : State :=
  {| st_store := st_store s; st_durable := st_durable s; st_trace := st_trace s;
     st_emitted := S (st_emitted s); st_dropped := st_dropped s |}.

Definition count_dropped (s : State) : State :=
  {| st_store := st_store s; st_durable := st_durable s; st_trace := st_trace s;
     st_emitted := st_emitted s; st_dropped := S (st_dropped s) |}.

(** [persistence.event_append(&payload).map(|_| ())]; without persistence the
    append succeeds. *)
Definition persist (persistence : bool) (payload : Json) (s : State) : State * result unit string :=
  if persistence then
    let '(d, r) := event_append payload (st_durable s) in
    let s' := {| st_store := st_store s; st_durable := d; st_trace := st_trace s;
                 st_emitted := st_emitted s; st_dropped := st_dropped s |} in
    (log_effect (EPersist payload (is_ok r)) s', result_map (fun _ => tt) r)
  else (s, Ok tt).

(** The critical section on the blocking thread. *)
Definition deliver_one (persistence : bool) (config : Config) (run_id : string) (event_type : string)
    (data : Json) (rc : Received) (s : State) : State * DeliverOutcome :=
  match gs_runs (st_store s) !! run_id with
  | None => (s, RunEnded)
  | Some run =>
      if run_ended (rr_status run) then (s, RunEnded)
      else
        let event := event_candidate (rc_uuid rc) (rc_now rc) run event_type data
                       (max_event_bytes config) in
        match persist persistence (append_payload config run_id event (rc_persist_now rc)) s with
        | (s1, Ok _) =>
            let s2 := set_store (rc_during rc (st_store s1)) s1 in
            match gs_runs (st_store s2) !! run_id with
            | None => (s2, RunEnded)
            | Some run =>
                let run' := apply_event_locked run event (max_events_per_run config) in
                let s3 := set_store (with_runs (<[run_id := run']> (gs_runs (st_store s2)))
                                       (st_store s2)) s2 in
                let s4 := log_effect (EApply event) s3 in
                if rr_sender run' then (s4, Published event) else (s4, Panic)
            end
        | (s1, Err error) => (set_store (rc_during rc (st_store s1)) s1, PersistError error)
        end
  end.

(** The receive loop: [None] is the panic of the task. *)
Fixpoint run_delivery_task (persistence : bool) (config : Config) (run_id : string)
    (received : list Received) (outcome : DeliveryOutcome) (s : State) :
    State * option DeliveryOutcome :=
  match received with
  | [] => (s, Some outcome)
  | rc :: received' =>
      let s := set_store (rc_before rc (st_store s)) s in
      match validate_script_event (rc_value rc) with
      | Err reason =>
          let outcome := {|
            schema_violation := match schema_violation outcome with Some r => Some r | None => Some reason end;
            persist_failed := persist_failed outcome; delivered := delivered outcome |} in
          run_delivery_task persistence config run_id received' outcome (count_dropped s)
      | Ok event_type =>
          match deliver_one persistence config run_id event_type (script_event_data (rc_value rc)) rc s with
          | (s', Published event) =>
              let outcome := {| schema_violation := schema_violation outcome;
                                persist_failed := persist_failed outcome;
                                delivered := S (delivered outcome) |} in
              run_delivery_task persistence config run_id received' outcome
                (log_effect (EPublish event) (count_emitted s'))
          | (s', RunEnded) => (s', Some outcome)
          | (s', PersistError _) =>
              let outcome := {| schema_violation := schema_violation outcome; persist_failed := true;
                                delivered := delivered outcome |} in
              run_delivery_task persistence config run_id received' outcome (count_dropped s')
          | (s', Panic) => (s', None)
          end
      end
  end.

Definition initial_outcome : DeliveryOutcome :=
  {| schema_violation := None; persist_failed := false; delivered := 0 |}.

(** ** The event log of a run *)

Definition log_wf (max : nat) (run : RunRecord) : Prop :=
  consecutive (rr_events run) /\
  NoDup (map ge_event_id (rr_events run)) /\
  Forall (fun e => ge_run_id e = rr_run_id run) (rr_events run) /\
  length (rr_events run) <= max.

Lemma wrap64_add_l a b : wrap64 (wrap64 a + b) = wrap64 (a + b).
Proof. unfold wrap64. apply Zplus_mod_idemp_l. Qed.

Lemma consecutive_snoc run e :
  consecutive (rr_events run) -> ge_seq e = next_seq run ->
  Forall (fun e => wrap64 (ge_seq e) = ge_seq e) (rr_events run) ->
  wrap64 (ge_seq e) = ge_seq e -> consecutive (rr_events run ++ [e]).
Proof.
  unfold next_seq. intros Hc Hseq Hr Hre i e0 e' H0 Hi.
  destruct (rr_events run) as [|h es] eqn:Hes.
  - destruct i as [|i]; cbn in *; simplify_eq. by rewrite Z.add_0_r.
  - cbn in H0. injection H0 as <-. rewrite <- Hes in *.
    apply lookup_app_Some in Hi as [Hi|[Hge Hi]]; [by apply (Hc i h); [by rewrite Hes|]|].
    destruct (i - length (rr_events run)) as [|n] eqn:Hn; [|by rewrite lookup_cons in Hi].
    injection Hi as <-. rewrite Hseq, last_lookup.
    destruct (rr_events run !! pred (length (rr_events run))) as [l|] eqn:Hl.
    + rewrite (Hc _ h l ltac:(by rewrite Hes) Hl), wrap64_add_l. f_equal.
      assert (length (rr_events run) <> 0) by (by rewrite Hes). lia.
    + apply lookup_ge_None in Hl. rewrite Hes in Hl. cbn in Hl. lia.
Qed.

Lemma consecutive_drop n events : consecutive events -> consecutive (drop n events).
Proof.
  intros Hc i e0 e H0 Hi. rewrite lookup_drop in Hi.
  rewrite head_lookup, lookup_drop, Nat.add_0_r in H0.
  destruct events as [|h es] eqn:Hes; [by destruct n|]. rewrite <- Hes in *.
  assert (head events = Some h) as Hh by (by rewrite Hes).
  rewrite (Hc _ h e Hh Hi), (Hc _ h e0 Hh H0), wrap64_add_l. f_equal. lia.
Qed.

Lemma apply_event_locked_status run e max : rr_status (apply_event_locked run e max) = rr_status run.
Proof. unfold apply_event_locked. by case_match. Qed.

Lemma existsb_ids (events : list GatewayEvent) id :
  existsb (fun x => str_eqb (ge_event_id x) id) events = true <-> id ∈ map ge_event_id events.
Proof.
  rewrite existsb_exists_iff. split.
  - intros (x & Hx & <-%str_eqb_true). apply list_elem_of_fmap. eauto.
  - intros (x & -> & Hx)%list_elem_of_fmap. exists x. by rewrite str_eqb_refl.
Qed.

Lemma Forall_keep_last {A} (P : A -> Prop) n l : Forall P l -> Forall P (keep_last n l).
Proof. apply Forall_drop. Qed.

(** The log with every sequence number a [u64]. *)
Definition log_ok (max : nat) (run : RunRecord) : Prop :=
  log_wf max run /\ Forall (fun e => is_u64 (ge_seq e) = true) (rr_events run).

Lemma next_seq_u64 run : is_u64 (next_seq run) = true.
Proof.
  unfold next_seq. destruct (last (rr_events run)) as [l|]; [|done].
  unfold is_u64, u64_max. pose proof (wrap64_range (ge_seq l + 1)).
  apply andb_true_iff. split; apply Z.leb_le; lia.
Qed.

Lemma is_u64_wrap z : is_u64 z = true -> wrap64 z = z.
Proof. intros Hz. unfold is_u64, u64_max in Hz. bool_to_prop. apply wrap64_small. lia. Qed.

Lemma apply_fresh run e max :
  ge_event_id e ∉ map ge_event_id (rr_events run) ->
  apply_event_locked run e max = set_events (keep_last max (rr_events run ++ [e])) run.
Proof.
  intros Hf. unfold apply_event_locked. destruct (existsb _ _) eqn:Ex; [|done].
  by apply existsb_ids in Ex.
Qed.

(** Applying an event that carries the next sequence number. *)
Lemma apply_next_keeps_log run e max :
  log_ok max run -> ge_seq e = next_seq run -> ge_run_id e = rr_run_id run ->
  log_ok max (apply_event_locked run e max).
Proof.
  intros [(Hc & Hnd & Hid & Hlen) Hu] Hseq Hrun.
  assert (is_u64 (ge_seq e) = true) as Hue by (rewrite Hseq; apply next_seq_u64).
  destruct (decide (ge_event_id e ∈ map ge_event_id (rr_events run))) as [Hin|Hfresh].
  { unfold apply_event_locked. by apply existsb_ids in Hin as ->. }
  rewrite apply_fresh by done. unfold log_ok, log_wf. cbn. split_and!.
  - apply consecutive_drop, consecutive_snoc; auto using is_u64_wrap. eapply Forall_impl; eauto using is_u64_wrap.
  - unfold keep_last. rewrite <- skipn_map.
    apply (sublist_NoDup _ (map ge_event_id (rr_events run ++ [e]))); [|apply sublist_drop].
    rewrite map_app. apply NoDup_app. split_and!; [done| |by apply NoDup_singleton].
    intros x Hx ->%list_elem_of_singleton. done.
  - by apply Forall_keep_last, Forall_app; repeat constructor.
  - rewrite keep_last_length. lia.
  - apply Forall_keep_last, Forall_app. by repeat constructor.
Qed.

Lemma apply_fresh_last run e max :
  ge_event_id e ∉ map ge_event_id (rr_events run) -> 0 < max ->
  last (rr_events (apply_event_locked run e max)) = Some e.
Proof. intros Hf Hmax. rewrite apply_fresh by done. by apply keep_last_snoc. Qed.

(** Applying the next candidate to a run keeps its log well formed:
    consecutive sequence numbers, no identifier twice, only its own events,
    and at most the configured number of them, the newest being kept. *)
Theorem apply_candidate_keeps_log uuid now run event_type data bytes max :
  log_ok max run ->
  let e := event_candidate uuid now run event_type data bytes in
  let run' := apply_event_locked run e max in
  log_ok max run' /\
  (uuid ∉ map ge_event_id (rr_events run) -> 0 < max -> last (rr_events run') = Some e).
Proof. intros Hl e run'. split; [by apply apply_next_keeps_log|]. intros. by apply apply_fresh_last. Qed.

(** ** Order of effects *)

(** What one received value may add to the trace. *)
Inductive step_trace (config : Config) (run_id : string) : bool -> list Effect -> Prop :=
| TraceNothing : step_trace config run_id false []
| TraceFailed payload : step_trace config run_id false [EPersist payload false]
| TraceVanished payload : step_trace config run_id false [EPersist payload true]
| TracePanicked e now :
    step_trace config run_id false [EPersist (append_payload config run_id e now) true; EApply e]
| TracePublished e now :
    step_trace config run_id true
      [EPersist (append_payload config run_id e now) true; EApply e; EPublish e].

Lemma persist_true payload s s' r :
  persist true payload s = (s', r) ->
  st_store s' = st_store s /\ st_trace s' = st_trace s ++ [EPersist payload (is_ok r)].
Proof.
  unfold persist. destruct (event_append payload (st_durable s)) as [d [v|e]]; intros [= <- <-]; done.
Qed.

Lemma deliver_one_trace config run_id t data rc s s' o :
  deliver_one true config run_id t data rc s = (s', o) ->
  match o with
  | Published e => exists now,
      st_trace s' = st_trace s ++ [EPersist (append_payload config run_id e now) true; EApply e]
  | _ => exists new, st_trace s' = st_trace s ++ new /\ step_trace config run_id false new
  end.
Proof.
  assert (forall s : State, st_trace s = st_trace s ++ []) as Hnil by (intros; by rewrite app_nil_r).
  unfold deliver_one. destruct (gs_runs (st_store s) !! run_id) as [run|].
  2: { intros [= <- <-]. eauto using step_trace. }
  destruct (run_ended (rr_status run)); [intros [= <- <-]; eauto using step_trace|].
  destruct (persist true _ s) as [s1 [[]|err]] eqn:Hp; apply persist_true in Hp as [_ Hp].
  - cbn in Hp. destruct (gs_runs _ !! run_id) as [run2|].
    2: { intros [= <- <-]. eauto using step_trace. }
    destruct (rr_sender _); intros [= <- <-]; cbn; rewrite Hp, <- app_assoc; eauto using step_trace.
  - intros [= <- <-]. eauto using step_trace.
Qed.

(** The trace of a task is the concatenation of its steps; the published count
    is the number of publishing steps. *)
Lemma run_delivery_trace config run_id received outcome s s' r :
  run_delivery_task true config run_id received outcome s = (s', r) ->
  exists steps : list (bool * list Effect),
    Forall (fun x => step_trace config run_id (fst x) (snd x)) steps /\
    st_trace s' = st_trace s ++ concat (map snd steps) /\
    (forall o, r = Some o -> delivered o = delivered outcome + length (filter (fun x => fst x = true) steps)).
Proof.
  revert outcome s. induction received as [|rc received IH]; intros outcome s; cbn [run_delivery_task].
  { intros [= <- <-]. exists []. cbn. rewrite app_nil_r. split_and!; [constructor|done|].
    intros o [= <-]. lia. }
  destruct (validate_script_event (rc_value rc)) as [t|reason].
  2: { intros Hr%IH. exact Hr. }
  destruct (deliver_one _ _ _ _ _ _ _) as [s1 o] eqn:Hd. apply deliver_one_trace in Hd.
  destruct o as [e| |err|]; cbn in Hd.
  - destruct Hd as [now Hd]. intros (steps & Hst & Htr & Hn)%IH.
    exists ((true, [EPersist (append_payload config run_id e now) true; EApply e; EPublish e]) :: steps).
    split_and!; [by constructor; [apply TracePublished|]| |].
    + rewrite Htr. cbn. rewrite Hd. by rewrite <- !app_assoc.
    + intros o Ho. rewrite (Hn o Ho), filter_cons_True by done. cbn. lia.
  - destruct Hd as (new & Hd & Hs). intros [= <- <-]. exists [(false, new)]. cbn [map snd concat].
    rewrite app_nil_r. split_and!; [by repeat constructor|done|].
    intros o [= <-]. rewrite filter_cons_False by done. cbn. lia.
  - destruct Hd as (new & Hd & Hs). intros (steps & Hst & Htr & Hn)%IH.
    exists ((false, new) :: steps). split_and!; [by constructor| |].
    + rewrite Htr. cbn. rewrite Hd. by rewrite <- !app_assoc.
    + intros o Ho. by rewrite (Hn o Ho), filter_cons_False.
  - destruct Hd as (new & Hd & Hs). intros [= <- <-]. exists [(false, new)]. cbn [map snd concat].
    rewrite app_nil_r. split_and!; [by repeat constructor|done|done].
Qed.

Lemma step_trace_publish config run_id b new i e :
  step_trace config run_id b new -> new !! i = Some (EPublish e) ->
  exists now, i = 2 /\ new = [EPersist (append_payload config run_id e now) true; EApply e; EPublish e].
Proof.
  destruct 1; intros Hi; repeat (destruct i as [|i]; cbn in Hi; simplify_eq; try done). eauto.
Qed.

Definition is_publish (x : Effect) : bool := match x with EPublish _ => true | _ => false end.

(** C3. Durable before visible: in the trace of a delivery task, whatever other
    threads do to the store, every published event directly follows its own
    application to memory, which directly follows the acknowledged durable
    append of that same event; and the task reports as many deliveries as it
    published events. *)
Theorem delivery_durable_before_visible config run_id received s s' r :
  st_trace s = [] ->
  run_delivery_task true config run_id received initial_outcome s = (s', r) ->
  (forall i e, st_trace s' !! i = Some (EPublish e) ->
     exists j now, i = S (S j) /\ st_trace s' !! S j = Some (EApply e) /\
       st_trace s' !! j = Some (EPersist (append_payload config run_id e now) true)) /\
  (forall o, r = Some o ->
     delivered o = length (filter (fun x => is_publish x = true) (st_trace s'))).
Proof.
  intros Hnil (steps & Hst & Htr & Hn)%run_delivery_trace. rewrite Hnil in Htr. cbn in Htr, Hn.
  rewrite Htr. clear Htr Hnil s s'. split.
  - clear Hn. induction Hst as [|[b new] steps Hnew _ IH]; intros i e Hi; [done|]. cbn in *.
    apply lookup_app_Some in Hi as [Hi|[Hge Hi]].
    + destruct (step_trace_publish _ _ _ _ _ _ Hnew Hi) as (now & -> & ->). by exists 0, now.
    + destruct (IH _ _ Hi) as (j & now & Hj & Ha & Hp).
      exists (length new + j), now. split; [lia|].
      rewrite !lookup_app_r by lia. split; [rewrite <- Ha|rewrite <- Hp]; f_equal; lia.
  - intros o Ho. rewrite (Hn o Ho). clear Hn Ho.
    induction Hst as [|[b new] steps Hnew _ IH]; [done|]. cbn [map snd concat].
    rewrite filter_app, length_app, <- IH, filter_cons. cbn [fst snd] in *. by destruct Hnew.
Qed.

(** ** Ended runs and failed appends *)

(** No run, or one that committed or is committing a terminal state. *)
Definition ended (run_id : string) (store : GatewayStore) : bool :=
  match gs_runs store !! run_id with Some run => run_ended (rr_status run) | None => true end.

Lemma deliver_one_ended persistence config run_id t data rc s :
  ended run_id (st_store s) = true ->
  deliver_one persistence config run_id t data rc s = (s, RunEnded).
Proof.
  unfold ended, deliver_one. destruct (gs_runs (st_store s) !! run_id); [|done]. by intros ->.
Qed.

(** Nothing is persisted, applied or published once the run has ended,
    however many values are still received, as long as no other thread revives
    the run; the task returns, and only counts what it refused. *)
Theorem delivery_silent_after_terminal persistence config run_id received outcome s :
  (forall rc st, rc ∈ received -> ended run_id st = true -> ended run_id (rc_before rc st) = true) ->
  ended run_id (st_store s) = true ->
  exists s' o, run_delivery_task persistence config run_id received outcome s = (s', Some o) /\
    st_trace s' = st_trace s /\ st_durable s' = st_durable s /\ st_emitted s' = st_emitted s /\
    delivered o = delivered outcome /\ persist_failed o = persist_failed outcome.
Proof.
  revert outcome s. induction received as [|rc received IH]; intros outcome s Henv Hs; cbn [run_delivery_task].
  { by exists s, outcome. }
  assert (ended run_id (rc_before rc (st_store s)) = true) as Hs' by (apply Henv; [left|done]).
  destruct (validate_script_event (rc_value rc)) as [t|reason].
  - rewrite deliver_one_ended by done. eexists _, outcome. by split_and!.
  - edestruct IH as (s' & o & Hr & Ht & Hd & He & Hn & Hp); [..|exists s', o; rewrite Hr; by split_and!].
    + intros rc' st Hin. apply Henv. by right.
    + done.
Qed.

(** When the durable append fails, the critical section leaves memory as
    other threads left it and publishes nothing. *)
Theorem deliver_one_failed_append config run_id t data rc s run err :
  gs_runs (st_store s) !! run_id = Some run -> run_ended (rr_status run) = false ->
  snd (event_append (append_payload config run_id
        (event_candidate (rc_uuid rc) (rc_now rc) run t data (max_event_bytes config))
        (rc_persist_now rc)) (st_durable s)) = Err err ->
  exists s', deliver_one true config run_id t data rc s = (s', PersistError err) /\
    st_store s' = rc_during rc (st_store s) /\
    (forall e, EApply e ∈ st_trace s' -> EApply e ∈ st_trace s) /\
    (forall e, EPublish e ∈ st_trace s' -> EPublish e ∈ st_trace s).
Proof.
  intros Hrun Hend Herr. unfold deliver_one, persist. rewrite Hrun, Hend.
  destruct (event_append _ _) as [d r]. cbn in Herr. subst r. cbn. eexists. split; [done|].
  cbn. split_and!; [done|..]; intros e [Hin|Hin%list_elem_of_singleton]%elem_of_app; done.
Qed.

End Delivery.

(** ** Example: one run, a log that accepts every append *)
Module DeliveryExample.
#[local] Existing Instance CompactText.compact_text.

Definition accept (payload : Json) (d : list Json) : list Json * result Json string :=
  (d ++ [payload], Ok JNull).
Definition refuse (payload : Json) (d : list Json) : list Json * result Json string :=
  (d, Err "disk full").

Definition run0 (status : string) : RunRecord := {|
  rr_run_id := "r1"; rr_session_id := "s1"; rr_parent_run_id := None; rr_status := status;
  rr_events := []; rr_sender := true; rr_cancel_requested := false |}.

Definition store0 (status : string) : GatewayStore := {|
  gs_sessions := ∅; gs_runs := {["r1" := run0 status]}; gs_jobs := ∅; gs_idempotency := ∅ |}.

Definition state0 (status : string) : State := {|
  st_store := store0 status; st_durable := [] : list Json; st_trace := []; st_emitted := 0;
  st_dropped := 0 |}.

Definition config0 : Config := {| max_event_bytes := 1000; max_events_per_run := 10 |}.

Definition rc0 (uuid : string) : Received := {|
  rc_value := VMap [(VString "type", VString "model.delta")]; rc_uuid := uuid; rc_now := 1;
  rc_persist_now := 2; rc_before := fun s => s; rc_during := fun s => s |}.

Definition task0 := run_delivery_task accept true config0 "r1" [rc0 "e1"; rc0 "e2"] initial_outcome
  (state0 "running").

Lemma delivery_durable_before_visible_witness :
  length (filter (fun x => is_publish x = true) (st_trace (fst task0))) = 2 /\
  exists j now, st_trace (fst task0) !! j = Some (EPersist (append_payload config0 "r1"
    (event_candidate "e1" 1 (run0 "running") "model.delta"
       (jobj [("type", JString "model.delta")]) 1000) now) true).
Proof.
  split; [by vm_compute|].
  pose proof (delivery_durable_before_visible accept config0 "r1" [rc0 "e1"; rc0 "e2"]
    (state0 "running") (fst task0) (snd task0) eq_refl ltac:(by vm_compute)) as [Hv _].
  destruct (Hv 2 (event_candidate "e1" 1 (run0 "running") "model.delta"
       (jobj [("type", JString "model.delta")]) 1000) ltac:(by vm_compute)) as (j & now & _ & _ & Hp).
  exists j, now. exact Hp.
Defined.

Lemma delivery_silent_after_terminal_witness :
  ended "r1" (store0 "completed") = true /\
  exists s' o, run_delivery_task accept true config0 "r1" [rc0 "e1"] initial_outcome
    (state0 "completed") = (s', Some o) /\ st_trace s' = [].
Proof.
  split; [by vm_compute|].
  destruct (delivery_silent_after_terminal accept true config0 "r1" [rc0 "e1"] initial_outcome
    (state0 "completed")) as (s' & o & Hr & Ht & _).
  - intros rc st ->%list_elem_of_singleton Hst. exact Hst.
  - by vm_compute.
  - exists s', o. split; [exact Hr|exact Ht].
Defined.

Lemma deliver_one_failed_append_witness :
  exists s', deliver_one refuse true config0 "r1" "model.delta" JNull (rc0 "e1") (state0 "running")
    = (s', PersistError "disk full") /\ st_store s' = store0 "running".
Proof.
  destruct (deliver_one_failed_append refuse config0 "r1" "model.delta" JNull (rc0 "e1")
    (state0 "running") (run0 "running") "disk full") as (s' & Hd & Hs & _);
    [by vm_compute..|]. exists s'. split; [exact Hd|exact Hs].
Defined.

Lemma apply_candidate_keeps_log_witness :
  log_ok 10 (apply_event_locked (run0 "running")
    (event_candidate "e1" 1 (run0 "running") "model.delta" JNull 1000) 10).
Proof.
  apply (apply_candidate_keeps_log "e1" 1 (run0 "running") "model.delta" JNull 1000 10).
  split; [|constructor]. split_and!; [by intros ???|constructor|constructor|cbn; lia].
Defined.

End DeliveryExample.
