(* ===== verification/Capability.v ===== *)
(** * Capability types and the approval gates ([src/capabilities/types.rs],
    [src/capabilities/lifecycle.rs])

    Owners, risk classes, prepare metadata, typed lifecycle errors and token
    claims; the approval-gate interface with its two implementations, the gate
    that allows everything and the one-use, fact-checking Guardian gate. *)

From S2P Require Import Prelude Utf8 Json.

(** ** Owners *)

Record CapabilityOwner := { co_profile : string; co_session : string; co_run : string }.

#[export] Instance owner_eq_dec : EqDecision CapabilityOwner.
Proof. solve_decision. Defined.

Definition contains_nul (s : string) : bool := existsb (fun b => (bval b =? 0)%Z) (s2b s).

Definition validate_label (value name : string) : result string string :=
  if is_empty value then Err (name +:+ " must not be empty")
  else if contains_nul value then Err (name +:+ " is invalid")
  else if (128 <? slen value)%Z then Err (name +:+ " exceeds the configured bound")
  else Ok value.

Definition owner_new (profile session run : string) : result CapabilityOwner string :=
  let? profile := validate_label profile "profile" in
  let? session := validate_label session "session" in
  let? run := validate_label run "run" in
  Ok {| co_profile := profile; co_session := session; co_run := run |}.

Definition owner_with_run (o : CapabilityOwner) (run_id : string) : string :=
  co_profile o +:+ "/" +:+ co_session o +:+ "/" +:+ run_id.
Definition owner_key (o : CapabilityOwner) : string := owner_with_run o (co_run o).

(** ** Risk *)

Inductive CapabilityRisk := Read | Write | Execute.

#[export] Instance risk_eq_dec : EqDecision CapabilityRisk.
Proof. solve_decision. Defined.

(** The derived order: constructors in the order of their declaration. *)
Definition risk_rank (r : CapabilityRisk) : nat :=
  match r with Read => 0 | Write => 1 | Execute => 2 end.
Definition risk_gtb (a b : CapabilityRisk) : bool := bool_decide (risk_rank b < risk_rank a).

Definition risk_as_str (r : CapabilityRisk) : string :=
  match r with Read => "read" | Write => "write" | Execute => "execute" end.

(** ** Metadata, records, errors *)

Record PrepareMetadata := {
  pm_run_id : string;
  pm_call_id : string;
  pm_tool_name : string;
  pm_argument_digest : string;
  pm_registry_identity : string;
  pm_risk_class : CapabilityRisk;
  pm_summary : string
}.

#[export] Instance metadata_eq_dec : EqDecision PrepareMetadata.
Proof. solve_decision. Defined.

Record DurableStarted := {
  ds_run_id : string;
  ds_call_id : string;
  ds_tool_name : string;
  ds_argument_digest : string;
  ds_registry_identity : string;
  ds_risk_class : CapabilityRisk;
  ds_summary : string;
  ds_generation : Z
}.

Record LifecycleLimits := {
  max_tool_calls : Z;
  max_output_bytes : Z;
  max_summary_bytes : Z
}.

Inductive LifecycleError :=
| OwnerMismatch (expected actual : string)
| InactiveRun
| MissingParent
| ApprovalDenied (reason : string)
| ApprovalCeiling (requested ceiling : CapabilityRisk)
| DeadlineElapsed
| Cancelled
| DuplicateClose
| TokenUnknown
| LimitExceeded
| StartedCommitFailed (message : string)
| ResultCommitFailed (message : string)
| ResultTooLarge
| Interrupted
| RegistryMismatch
| InvalidMetadata (message : string)
| UnresolvedCall.

Definition error_code (e : LifecycleError) : string :=
  match e with
  | OwnerMismatch _ _ => "owner_mismatch"
  | InactiveRun => "inactive_run"
  | MissingParent => "missing_parent"
  | ApprovalDenied _ => "approval_denied"
  | ApprovalCeiling _ _ => "approval_ceiling"
  | DeadlineElapsed => "deadline_elapsed"
  | Cancelled => "cancelled"
  | DuplicateClose => "duplicate_close"
  | TokenUnknown => "token_unknown"
  | LimitExceeded => "max_tool_calls"
  | StartedCommitFailed _ => "started_commit_failed"
  | ResultCommitFailed _ => "result_commit_failed"
  | ResultTooLarge => "result_too_large"
  | Interrupted => "interrupted"
  | RegistryMismatch => "registry_mismatch"
  | InvalidMetadata _ => "invalid_metadata"
  | UnresolvedCall => "unresolved_call"
  end.

Definition error_message (e : LifecycleError) : string :=
  match e with
  | OwnerMismatch expected actual => "owner mismatch: expected " +:+ expected +:+ ", got " +:+ actual
  | InactiveRun => "run is not active"
  | MissingParent => "durable assistant parent is missing"
  | ApprovalDenied reason => reason
  | ApprovalCeiling requested ceiling =>
      "requested risk " +:+ risk_as_str requested +:+ " exceeds approved ceiling " +:+ risk_as_str ceiling
  | DeadlineElapsed => "deadline elapsed"
  | Cancelled => "run was cancelled"
  | DuplicateClose => "execution token is already closed"
  | TokenUnknown => "execution token is unknown"
  | LimitExceeded => "max_tool_calls exceeded"
  | StartedCommitFailed message | ResultCommitFailed message => message
  | ResultTooLarge => "tool result exceeds output budget"
  | Interrupted => "execution was interrupted"
  | RegistryMismatch => "registry identity does not match frozen snapshot"
  | InvalidMetadata message => message
  | UnresolvedCall => "an unresolved execution token already exists for this call"
  end.

Definition risk_parse (value : string) : result CapabilityRisk LifecycleError :=
  if str_eqb value "read" then Ok Read
  else if str_eqb value "write" then Ok Write
  else if str_eqb value "execute" then Ok Execute
  else Err (InvalidMetadata "unsupported risk class").

(** Claims of an execution token; [deadline] is the monotonic instant, in
    nanoseconds. *)
Record TokenClaims := {
  tc_owner : CapabilityOwner;
  tc_call_id : string;
  tc_tool_name : string;
  tc_argument_digest : string;
  tc_registry_identity : string;
  tc_risk_ceiling : CapabilityRisk;
  tc_output_budget : Z;
  tc_generation : Z;
  tc_deadline : Z;
  tc_deadline_ms : Z;
  tc_workspace : string
}.

Inductive PrepareOutcome :=
| PrepareExecute (execution_token : string) (deadline_ms : Z)
| PrepareReplay (r : Json).

(** ** Approval gates

    [G] is what a gate remembers.  Besides the instant it is handed, a gate
    may read its own clock; the readings it would see are arguments. *)
Class ApprovalGate (G : Type) := {
  gate_attest : CapabilityOwner -> PrepareMetadata -> Z -> Z -> Z -> Z -> Z -> G -> G * result unit LifecycleError;
  gate_authorize_at : PrepareMetadata -> Z -> Z -> Z -> G -> G * result CapabilityRisk LifecycleError
}.

Definition attest_default {G} (_ : CapabilityOwner) (_ : PrepareMetadata) (_ _ _ _ _ : Z) (g : G) :
    G * result unit LifecycleError :=
  (g, Err (ApprovalDenied "approval gate does not accept review attestations")).

Definition allow_all_authorize (metadata : PrepareMetadata) : result CapabilityRisk LifecycleError :=
  Ok (pm_risk_class metadata).

#[export] Instance AllowAllApproval : ApprovalGate unit := {|
  gate_attest := attest_default;
  gate_authorize_at metadata _ _ _ g := (g, allow_all_authorize metadata) |}.

(** *** The Guardian gate *)
Module Guardian.

Record ApprovalAttestation := {
  aa_owner : CapabilityOwner;
  aa_metadata : PrepareMetadata;
  aa_generation : Z;
  aa_expires_at_ms : Z
}.

Record GuardianApprovalGate := {
  gg_max_pending : nat;
  gg_pending : gmap string ApprovalAttestation
}.

Definition new (max_pending : nat) : GuardianApprovalGate :=
  {| gg_max_pending := max max_pending 1; gg_pending := ∅ |}.

Definition denied (reason : string) : LifecycleError := ApprovalDenied reason.

Definition authorize (_ : PrepareMetadata) : result CapabilityRisk LifecycleError :=
  Err (denied "approval context is required").

Definition set_pending (p : gmap string ApprovalAttestation) (g : GuardianApprovalGate) :
    GuardianApprovalGate := {| gg_max_pending := gg_max_pending g; gg_pending := p |}.

(** [clock1] and [clock2] are the gate's own two readings. *)
Definition attest (owner : CapabilityOwner) (metadata : PrepareMetadata)
    (generation now_ms deadline_ms clock1 clock2 : Z) (g : GuardianApprovalGate) :
    GuardianApprovalGate * result unit LifecycleError :=
  if bool_decide (pm_risk_class metadata = Read) then
    (g, Err (denied "read-only actions do not accept write approval"))
  else if (deadline_ms <=? now_ms)%Z || (deadline_ms <=? clock1)%Z then (g, Err DeadlineElapsed)
  else
    let g := set_pending (filter (fun kv => (clock2 < aa_expires_at_ms (snd kv))%Z) (gg_pending g)) g in
    match gg_pending g !! pm_call_id metadata with
    | Some _ => (g, Err (denied "approval for this call is already pending"))
    | None =>
        if bool_decide (gg_max_pending g <= size (gg_pending g)) then
          (g, Err (denied "approval review capacity is exhausted"))
        else
          (set_pending (<[pm_call_id metadata := {|
             aa_owner := owner; aa_metadata := metadata; aa_generation := generation;
             aa_expires_at_ms := deadline_ms |}]> (gg_pending g)) g, Ok tt)
    end.

Definition authorize_at (metadata : PrepareMetadata) (generation now_ms clock1 : Z)
    (g : GuardianApprovalGate) : GuardianApprovalGate * result CapabilityRisk LifecycleError :=
  match gg_pending g !! pm_call_id metadata with
  | None =>
      (g, if bool_decide (pm_risk_class metadata = Read) then Ok Read
          else Err (denied "Guardian approval is required"))
  | Some fact =>
      let g := set_pending (delete (pm_call_id metadata) (gg_pending g)) g in
      (g, if negb (bool_decide (aa_metadata fact = metadata)) then
            Err (denied "approval does not match the original action")
          else if negb (str_eqb (co_run (aa_owner fact)) (pm_run_id metadata)) then
            Err (denied "approval owner does not match the action run")
          else if negb (aa_generation fact =? generation)%Z then
            Err (denied "approval context is stale")
          else if (aa_expires_at_ms fact <=? now_ms)%Z || (aa_expires_at_ms fact <=? clock1)%Z then
            Err DeadlineElapsed
          else Ok (pm_risk_class metadata))
  end.

#[export] Instance guardian_gate : ApprovalGate GuardianApprovalGate := {|
  gate_attest := attest; gate_authorize_at := authorize_at |}.

(** *** What the gate guarantees *)

(** A request to the gate, with the readings of its clock. *)
Inductive Request :=
| Attest (owner : CapabilityOwner) (metadata : PrepareMetadata)
    (generation now_ms deadline_ms clock1 clock2 : Z)
| AuthorizeAt (metadata : PrepareMetadata) (generation now_ms clock1 : Z).

Inductive Reply :=
| Attested (r : result unit LifecycleError)
| Authorized (r : result CapabilityRisk LifecycleError).

Definition serve (g : GuardianApprovalGate) (q : Request) : GuardianApprovalGate * Reply :=
  match q with
  | Attest o m gen now dl c1 c2 => let '(g', r) := attest o m gen now dl c1 c2 g in (g', Attested r)
  | AuthorizeAt m gen now c1 => let '(g', r) := authorize_at m gen now c1 g in (g', Authorized r)
  end.

Fixpoint serve_all (g : GuardianApprovalGate) (qs : list Request) :
    GuardianApprovalGate * list (Request * Reply) :=
  match qs with
  | [] => (g, [])
  | q :: qs' =>
      let '(g', r) := serve g q in
      let '(g'', rs) := serve_all g' qs' in (g'', (q, r) :: rs)
  end.

(** Approvals recorded for a call, and effectful authorisations given to it. *)
Definition attested_for (c : string) (x : Request * Reply) : bool :=
  match x with
  | (Attest _ m _ _ _ _ _, Attested (Ok _)) => str_eqb (pm_call_id m) c
  | _ => false
  end.

Definition authorized_for (c : string) (x : Request * Reply) : bool :=
  match x with
  | (AuthorizeAt m _ _ _, Authorized (Ok r)) =>
      str_eqb (pm_call_id m) c && negb (bool_decide (r = Read))
  | _ => false
  end.

Definition pending_for (c : string) (g : GuardianApprovalGate) : nat :=
  match gg_pending g !! c with Some _ => 1 | None => 0 end.

Definition count {A} (f : A -> bool) (l : list A) : nat := length (List.filter f l).

Record gate_wf (g : GuardianApprovalGate) : Prop := {
  gate_capacity : size (gg_pending g) <= gg_max_pending g;
  gate_facts : map_Forall (fun k f => pm_call_id (aa_metadata f) = k /\
                                      pm_risk_class (aa_metadata f) <> Read) (gg_pending g)
}.

Lemma attest_cases owner m gen now dl c1 c2 g :
  (exists e, snd (attest owner m gen now dl c1 c2 g) = Err e /\
     gg_pending (fst (attest owner m gen now dl c1 c2 g)) ⊆ gg_pending g) \/
  (snd (attest owner m gen now dl c1 c2 g) = Ok tt /\
   pm_risk_class m <> Read /\
   exists p, p ⊆ gg_pending g /\ p !! pm_call_id m = None /\ size p < gg_max_pending g /\
     gg_pending (fst (attest owner m gen now dl c1 c2 g)) =
       <[pm_call_id m := {| aa_owner := owner; aa_metadata := m; aa_generation := gen;
                            aa_expires_at_ms := dl |}]> p).
Proof.
  unfold attest. destruct (bool_decide (pm_risk_class m = Read)) eqn:E1; [left; by eexists|].
  destruct (_ || _); [left; by eexists|]. cbn [gg_pending gg_max_pending set_pending].
  set (p := filter _ (gg_pending g)).
  assert (p ⊆ gg_pending g) as Hp by apply map_filter_subseteq.
  destruct (p !! pm_call_id m) eqn:E2; [left; by eexists|].
  destruct (bool_decide (gg_max_pending g <= size p)) eqn:E3; [left; by eexists|].
  right. bool_to_prop. split_and!; [done|done|]. exists p. split_and!; [done|done|lia|done].
Qed.

Lemma attest_max owner m gen now dl c1 c2 g :
  gg_max_pending (fst (attest owner m gen now dl c1 c2 g)) = gg_max_pending g.
Proof. unfold attest. repeat case_match; done. Qed.

Lemma serve_wf g q : gate_wf g -> gate_wf (fst (serve g q)).
Proof.
  intros [Hc Hf]. destruct q as [o m gen now dl c1 c2|m gen now c1]; cbn.
  - pose proof (attest_max o m gen now dl c1 c2 g) as Hm.
    destruct (attest_cases o m gen now dl c1 c2 g) as [(e & _ & Hs)|(_ & Hr & p & Hp & Hn & Hsz & Hi)];
      destruct (attest o m gen now dl c1 c2 g) as [g' r]; cbn in *.
    + split; [rewrite Hm; etrans; [by apply map_subseteq_size|done]|].
      by eapply map_Forall_sub.
    + split; rewrite Hi.
      * rewrite map_size_insert_None by done. lia.
      * apply map_Forall_insert_2; [done|]. by eapply map_Forall_sub.
  - unfold authorize_at. destruct (gg_pending g !! pm_call_id m) eqn:E; cbn; [|done].
    split; cbn.
    + etrans; [apply map_subseteq_size, delete_subseteq|done].
    + eapply map_Forall_sub; [apply delete_subseteq|done].
Qed.

(** One request against the balance of a call: an authorisation uses up a
    pending fact, only an attestation adds one. *)
Lemma serve_balance g q c :
  gate_wf g ->
  let '(g', r) := serve g q in
  (if authorized_for c (q, r) then 1 else 0) + pending_for c g' <=
  (if attested_for c (q, r) then 1 else 0) + pending_for c g.
Proof.
  intros [_ Hf]. unfold pending_for. destruct q as [o m gen now dl c1 c2|m gen now c1]; cbn [serve].
  - destruct (attest_cases o m gen now dl c1 c2 g) as [(e & He & Hs)|(He & _ & p & Hp & Hn & _ & Hi)];
      destruct (attest o m gen now dl c1 c2 g) as [g' r]; cbn [fst snd] in *; subst r; cbn.
    + destruct (gg_pending g' !! c) eqn:E; [|lia].
      rewrite (lookup_weaken _ _ _ _ E Hs). lia.
    + rewrite Hi. destruct (str_eqb_spec (pm_call_id m) c) as [Hc|Hne]; [subst c|].
      * rewrite lookup_insert_eq. lia.
      * rewrite lookup_insert_ne by done.
        destruct (p !! c) eqn:E; [rewrite (lookup_weaken _ _ _ _ E Hp)|]; lia.
  - unfold authorize_at. destruct (gg_pending g !! pm_call_id m) as [f|] eqn:E; cbn.
    + destruct (str_eqb_spec (pm_call_id m) c) as [Hc|Hne]; [subst c|].
      * rewrite lookup_delete_eq, E. repeat case_match; lia.
      * rewrite lookup_delete_ne by done. repeat case_match; cbn in *; simplify_eq; lia.
    + destruct (bool_decide (pm_risk_class m = Read)); [|lia].
      by rewrite bool_decide_eq_true_2, andb_false_r by done.
Qed.

Lemma serve_all_balance g qs c :
  gate_wf g ->
  let '(g', rs) := serve_all g qs in
  gate_wf g' /\
  count (authorized_for c) rs + pending_for c g' <=
  count (attested_for c) rs + pending_for c g.
Proof.
  revert g. induction qs as [|q qs IH]; intros g Hg; cbn [serve_all].
  { cbn. split; [done|lia]. }
  pose proof (serve_wf g q Hg) as Hg'. pose proof (serve_balance g q c Hg) as Hb.
  destruct (serve g q) as [g1 r]. specialize (IH g1 Hg').
  destruct (serve_all g1 qs) as [g2 rs]. destruct IH as [Hg2 IH]. split; [done|].
  unfold count in *. cbn [List.filter]. destruct (authorized_for c (q, r)), (attested_for c (q, r)); cbn; lia.
Qed.

(** C22. Approvals are one-use: over any sequence of requests to a new Guardian
    gate, a call is authorised beyond reading at most as often as an approval
    was attested for it, and no more approvals are ever pending than the gate's
    capacity. *)
Theorem guardian_one_use max_pending qs c :
  let '(g, rs) := serve_all (new max_pending) qs in
  count (authorized_for c) rs <= count (attested_for c) rs /\
  size (gg_pending g) <= max max_pending 1.
Proof.
  assert (gate_wf (new max_pending)) as Hwf.
  { split; cbn; [rewrite map_size_empty; lia|apply map_Forall_empty]. }
  assert (forall g qs, gg_max_pending (fst (serve_all g qs)) = gg_max_pending g) as Hmax.
  { intros g qs0. revert g. induction qs0 as [|q qs0 IH]; intros g; cbn; [done|].
    specialize (IH (fst (serve g q))). destruct (serve g q) as [g1 r] eqn:E; cbn in IH.
    destruct (serve_all g1 qs0) as [g2 rs]. cbn in *. rewrite IH. destruct q; cbn in E.
    - pose proof (attest_max owner metadata generation now_ms deadline_ms clock1 clock2 g) as Ha.
      destruct (attest _ _ _ _ _ _ _ _) as [g' r']. cbn in Ha. congruence.
    - unfold authorize_at in E. destruct (gg_pending g !! _); by simplify_eq. }
  specialize (Hmax (new max_pending) qs). pose proof (serve_all_balance (new max_pending) qs c Hwf) as Hb.
  destruct (serve_all (new max_pending) qs) as [g rs]. cbn in Hmax, Hb. destruct Hb as [[Hc _] Hb].
  split; [|by rewrite <- Hmax]. unfold pending_for in Hb. cbn in Hb. rewrite lookup_empty in Hb. lia.
Qed.

(** The gate authorises an action beyond reading only on a pending
    attestation of exactly that action, for its run, of the current generation
    and not expired on either clock; whatever the answer, nothing stays pending
    for the call. *)
Theorem guardian_authorize_facts m gen now c1 g r :
  snd (authorize_at m gen now c1 g) = Ok r ->
  gg_pending (fst (authorize_at m gen now c1 g)) !! pm_call_id m = None /\
  r = pm_risk_class m /\
  (r = Read \/
   exists f, gg_pending g !! pm_call_id m = Some f /\ aa_metadata f = m /\
     co_run (aa_owner f) = pm_run_id m /\ aa_generation f = gen /\
     (now < aa_expires_at_ms f)%Z /\ (c1 < aa_expires_at_ms f)%Z).
Proof.
  unfold authorize_at. destruct (gg_pending g !! pm_call_id m) as [f|] eqn:E; cbn.
  - intros Hr. rewrite lookup_delete_eq. split; [done|]. crush_guards; simplify_eq.
    split; [done|]. right. exists f. split_and!; try done; lia.
  - intros Hr. case_bool_decide as Hm; simplify_eq. split_and!; [done|done|by left].
Qed.

Definition sample_metadata : PrepareMetadata := {|
  pm_run_id := "r1"; pm_call_id := "c1"; pm_tool_name := "write_file"; pm_argument_digest := "d";
  pm_registry_identity := "reg"; pm_risk_class := Write; pm_summary := "write" |}.

Definition sample_owner : CapabilityOwner :=
  {| co_profile := "p"; co_session := "s"; co_run := "r1" |}.

Lemma guardian_authorize_facts_witness :
  let g := fst (attest sample_owner sample_metadata 1 10 100 10 10 (new 4)) in
  snd (authorize_at sample_metadata 1 11 12 g) = Ok Write /\
  gg_pending (fst (authorize_at sample_metadata 1 11 12 g)) !! "c1" = None.
Proof.
  intros g. split; [by vm_compute|].
  apply (guardian_authorize_facts sample_metadata 1 11 12 g Write). by vm_compute.
Defined.

End Guardian.
