(* ===== verification/Lifecycle.v ===== *)
(** * The tool lifecycle engine ([src/capabilities/lifecycle.rs])

    One engine per run.  [prepare] checks a call, records its start durably and
    issues an execution token; [authorize] guards each native effect of the
    token; [commit] closes it with a durable result; an interruption (a dropped
    lease, a recovery) closes it without one.

    The state holds the token table, the counters, the durable side and the
    approval gate.  Clock readings, the cancellation flag and issued
    identifiers are streams the engine consumes in order.  Two logs record what
    the engine asks of the outside: the durable calls with their answers, and
    the releases and roll-backs of resources bound to tokens.  Operations of
    one engine run one at a time, as the VM of a run issues them. *)

From S2P Require Import Prelude Utf8 Json Capability.

(** ** The durable side *)

(** [DurableToolLifecycle]: [W] is the durable state; the first three methods
    only read it. *)
Class DurableToolLifecycle (W : Type) := {
  assert_active_run : string -> W -> result unit LifecycleError;
  prepare_parent : string -> string -> string -> W -> result unit LifecycleError;
  replay_result : string -> string -> string -> W -> result (option Json) LifecycleError;
  commit_started : DurableStarted -> W -> W * result unit LifecycleError;
  commit_result : string -> Json -> W -> W * result Json LifecycleError;
  interrupt : string -> W -> W * result unit LifecycleError
}.

(** ** Tokens and state *)

Abbreviation Resource := nat.

Inductive TokenState :=
| TOpen (claims : TokenClaims) (resources : list Resource)
| TCommitted (call_id : string)
| TInterrupted (call_id : string).

Definition token_call_id (state : TokenState) : string :=
  match state with
  | TOpen claims _ => tc_call_id claims
  | TCommitted call_id => call_id
  | TInterrupted call_id => call_id
  end.

Definition is_open (state : TokenState) : bool :=
  match state with TOpen _ _ => true | _ => false end.

Inductive DurableCall :=
| JStarted (record : DurableStarted) (ok : bool)
| JResult (call_id : string) (ok : bool)
| JInterrupt (call_id : string) (ok : bool).

Inductive ResourceCall :=
| RRelease (r : Resource)
| RRollback (r : Resource).

Definition resource_of (x : ResourceCall) : Resource := match x with RRelease r => r | RRollback r => r end.

(** The frozen part of [LifecycleInner]. *)
Record Inner := {
  in_owner : CapabilityOwner;
  in_registry_identity : string;
  in_workspace : string;
  in_limits : LifecycleLimits;
  in_deadline_ms : Z
}.

Record Engine (W G : Type) := mkEngine {
  generation : Z;
  call_count : Z;
  token_states : gmap string TokenState;
  durable : W;
  approval : G;
  ticks : nat;
  issued : nat;
  journal : list DurableCall;
  resource_log : list ResourceCall
}.
Arguments mkEngine {W G}.
Arguments generation {W G}.
Arguments call_count {W G}.
Arguments token_states {W G}.
Arguments durable {W G}.
Arguments approval {W G}.
Arguments ticks {W G}.
Arguments issued {W G}.
Arguments journal {W G}.
Arguments resource_log {W G}.

Section Engine.
Context {W G : Type} `{DurableToolLifecycle W} `{ApprovalGate G} `{JsonText}.
Context (clock : nat -> Z) (instant : nat -> Z) (cancelled : nat -> bool) (issue : nat -> string).
Context (inner : Inner).

Abbreviation St := (Engine W G).

(** ** State and errors: the monad of the operations *)

Definition M (A : Type) : Type := St -> St * result A LifecycleError.

Definition ret {A} (a : A) : M A := fun s => (s, Ok a).
Definition fail {A} (e : LifecycleError) : M A := fun s => (s, Err e).
Definition bind {A B} (m : M A) (k : A -> M B) : M B := fun s =>
  match m s with
  | (s', Ok a) => k a s'
  | (s', Err e) => (s', Err e)
  end.

Definition catch {A} (m : M A) (h : LifecycleError -> M A) : M A := fun s =>
  match m s with
  | (s', Ok a) => (s', Ok a)
  | (s', Err e) => h e s'
  end.

Notation "'let!' x ':=' m 'in' k" := (bind m (fun x => k))
  (at level 10, x name, m at level 100, k at level 200) : rust_scope.

(** [if b { return Err(e); }]. *)
Definition refuse_if (b : bool) (e : LifecycleError) : M unit := if b then fail e else ret tt.

(** A read of the engine, and of its durable side, that may fail. *)
Definition get {A} (f : St -> A) : M A := fun s => (s, Ok (f s)).
Definition ask {A} (f : W -> result A LifecycleError) : M A := fun s => (s, f (durable s)).

Definition tick (s : St) : St :=
  mkEngine (generation s) (call_count s) (token_states s) (durable s) (approval s)
    (S (ticks s)) (issued s) (journal s) (resource_log s).

Definition now_ms : M Z := fun s => (tick s, Ok (clock (ticks s))).
Definition now : M Z := fun s => (tick s, Ok (instant (ticks s))).
Definition is_cancelled : M bool := fun s => (tick s, Ok (cancelled (ticks s))).
Definition issue_token : M string := fun s =>
  (mkEngine (generation s) (call_count s) (token_states s) (durable s) (approval s)
     (ticks s) (S (issued s)) (journal s) (resource_log s), Ok (issue (issued s))).

Definition set_tokens (t : gmap string TokenState) : M unit := fun s =>
  (mkEngine (generation s) (call_count s) t (durable s) (approval s) (ticks s) (issued s)
     (journal s) (resource_log s), Ok tt).

Definition fetch_add_calls : M unit := fun s =>
  (mkEngine (generation s) (wrap64 (call_count s + 1)) (token_states s) (durable s) (approval s)
     (ticks s) (issued s) (journal s) (resource_log s), Ok tt).

Definition fetch_add_generation : M unit := fun s =>
  (mkEngine (wrap64 (generation s + 1)) (call_count s) (token_states s) (durable s) (approval s)
     (ticks s) (issued s) (journal s) (resource_log s), Ok tt).

Definition log_resources (l : list ResourceCall) : M unit := fun s =>
  (mkEngine (generation s) (call_count s) (token_states s) (durable s) (approval s) (ticks s)
     (issued s) (journal s) (resource_log s ++ l), Ok tt).

(** A durable call that may change the durable side, with its journal entry. *)
Definition call {A} (f : W -> W * result A LifecycleError) (entry : bool -> DurableCall) : M A := fun s =>
  let '(w, r) := f (durable s) in
  (mkEngine (generation s) (call_count s) (token_states s) w (approval s) (ticks s) (issued s)
     (journal s ++ [entry (is_ok r)]) (resource_log s), r).

Definition authorize_gate (metadata : PrepareMetadata) (gen now clock1 : Z) : M CapabilityRisk := fun s =>
  let '(g, r) := gate_authorize_at metadata gen now clock1 (approval s) in
  (mkEngine (generation s) (call_count s) (token_states s) (durable s) g (ticks s) (issued s)
     (journal s) (resource_log s), r).

Definition attest_gate (owner : CapabilityOwner) (metadata : PrepareMetadata)
    (gen now deadline clock1 clock2 : Z) : M unit := fun s =>
  let '(g, r) := gate_attest owner metadata gen now deadline clock1 clock2 (approval s) in
  (mkEngine (generation s) (call_count s) (token_states s) (durable s) g (ticks s) (issued s)
     (journal s) (resource_log s), r).

(** ** Results *)

Definition json_size (value : Json) : Z := slen (json_text value).

Definition is_string (j : Json) : bool := match j with JString _ => true | _ => false end.
Definition is_boolean (j : Json) : bool := match j with JBool _ => true | _ => false end.
Definition is_object (j : Json) : bool := match j with JObject _ => true | _ => false end.

(** [if let Some(v) = object.get(k) && !p(v) { return Err(..) }]. *)
Definition optional_field (object : list (string * Json)) (k : string) (p : Json -> bool)
    (message : string) : result unit LifecycleError :=
  match obj_get k object with
  | Some v => if p v then Ok tt else Err (InvalidMetadata message)
  | None => Ok tt
  end.

Definition validate_optional_result_fields (object : list (string * Json)) : result unit LifecycleError :=
  let? _ := optional_field object "truncated" is_boolean "`truncated` must be a boolean" in
  let? _ := optional_field object "data" is_object "`data` must be a map" in
  match obj_get "artifacts" object with
  | Some (JArray items) =>
      if existsb (fun item => negb (is_string item)) items then
        Err (InvalidMetadata "`artifacts` must be an array of strings")
      else Ok tt
  | Some _ => Err (InvalidMetadata "`artifacts` must be an array of strings")
  | None => Ok tt
  end.

Definition validate_canonical_result (r : Json) : result unit LifecycleError :=
  let? object := ok_or (as_object r) (InvalidMetadata "tool result must be a map") in
  let? ok := match obj_get "ok" object with
             | Some (JBool ok) => Ok ok
             | Some _ => Err (InvalidMetadata "`ok` must be a boolean")
             | None => Err (InvalidMetadata "`ok` is required")
             end in
  let? _ :=
    if ok : bool then
      match obj_get "content" object with
      | Some (JString _) => Ok tt
      | _ => Err (InvalidMetadata "success result requires string `content`")
      end
    else
      let error := obj_get "error" object ≫= as_object in
      let? _ := match error ≫= obj_get "code" with
                | Some (JString code) =>
                    if is_empty code
                    then Err (InvalidMetadata "failure result requires string `error.code`")
                    else Ok tt
                | _ => Err (InvalidMetadata "failure result requires string `error.code`")
                end in
      let? _ := match error with
                | Some error => optional_field error "message" is_string "`error.message` must be a string"
                | None => Ok tt
                end in
      optional_field object "content" is_string "failure `content` must be a string" in
  validate_optional_result_fields object.

Definition should_rollback_unpublished (error : LifecycleError) : bool :=
  match error with
  | Cancelled | DeadlineElapsed | ResultTooLarge | ResultCommitFailed _ => true
  | _ => false
  end.

(** ** Operations *)

(** [values().any(|state| token_call_id(state) == call_id)]. *)
Definition call_unresolved (states : gmap string TokenState) (call_id : string) : bool :=
  existsb (fun kv => str_eqb (token_call_id (snd kv)) call_id) (map_to_list states).

Definition owner_differs (owner : CapabilityOwner) : bool := negb (bool_decide (owner = in_owner inner)).

Definition owner_mismatch (actual : string) : LifecycleError :=
  OwnerMismatch (owner_key (in_owner inner)) actual.

Definition metadata_incomplete (metadata : PrepareMetadata) : bool :=
  is_empty (pm_call_id metadata) || is_empty (pm_tool_name metadata).

Definition summary_too_long (metadata : PrepareMetadata) : bool :=
  (max_summary_bytes (in_limits inner) <? slen (pm_summary metadata))%Z.

Definition validate_approval_facts (owner : CapabilityOwner) (metadata : PrepareMetadata) : M unit :=
  let! _ := refuse_if (owner_differs owner || negb (str_eqb (pm_run_id metadata) (co_run (in_owner inner))))
              (owner_mismatch (owner_key owner)) in
  let! _ := ask (assert_active_run (pm_run_id metadata)) in
  let! _ := ask (prepare_parent (pm_run_id metadata) (pm_call_id metadata) (pm_tool_name metadata)) in
  let! _ := refuse_if (negb (str_eqb (pm_registry_identity metadata) (in_registry_identity inner)))
              RegistryMismatch in
  let! _ := refuse_if (metadata_incomplete metadata)
              (InvalidMetadata "call_id and tool name are required") in
  let! _ := refuse_if (summary_too_long metadata)
              (InvalidMetadata "summary exceeds the configured bound") in
  let! now := now_ms in
  let! _ := refuse_if (in_deadline_ms inner <=? now)%Z DeadlineElapsed in
  let! cancelled := is_cancelled in
  refuse_if cancelled Cancelled.

Definition replay_completed (owner : CapabilityOwner) (metadata : PrepareMetadata) : M bool :=
  let! _ := validate_approval_facts owner metadata in
  let! replay := ask (replay_result (pm_run_id metadata) (pm_call_id metadata) (pm_tool_name metadata)) in
  ret (match replay with Some _ => true | None => false end).

Definition attest_approval (owner : CapabilityOwner) (metadata : PrepareMetadata) : M unit :=
  let! _ := validate_approval_facts owner metadata in
  let! replay := ask (replay_result (pm_run_id metadata) (pm_call_id metadata) (pm_tool_name metadata)) in
  let! _ := refuse_if (match replay with Some _ => true | None => false end)
              (ApprovalDenied "completed tool call cannot receive a new approval") in
  let! states := get token_states in
  let! _ := refuse_if (call_unresolved states (pm_call_id metadata)) UnresolvedCall in
  let! gen := get generation in
  let! now := now_ms in
  let! clock1 := now_ms in
  let! clock2 := now_ms in
  attest_gate owner metadata gen now (in_deadline_ms inner) clock1 clock2.

(** [Instant::checked_add]: an instant is an [i64] number of seconds and a
    fraction; here in nanoseconds. *)
Definition instant_max : Z := 2 ^ 63 * 1000000000 - 1.
Definition instant_add_ms (i ms : Z) : option Z :=
  let r := (i + ms * 1000000)%Z in if (r <=? instant_max)%Z then Some r else None.

(** From the approval to the issued token. *)
Definition start_call (metadata : PrepareMetadata) : M PrepareOutcome :=
  let! gen := get generation in
  let! now1 := now_ms in
  let! clock1 := now_ms in
  let! ceiling := authorize_gate metadata gen now1 clock1 in
  let! gen' := get generation in
  let! _ := refuse_if (negb (gen =? gen')%Z)
              (ApprovalDenied "approval context changed during authorization") in
  let record := {|
    ds_run_id := pm_run_id metadata; ds_call_id := pm_call_id metadata;
    ds_tool_name := pm_tool_name metadata; ds_argument_digest := pm_argument_digest metadata;
    ds_registry_identity := pm_registry_identity metadata; ds_risk_class := pm_risk_class metadata;
    ds_summary := pm_summary metadata; ds_generation := gen |} in
  let! _ := call (commit_started record) (JStarted record) in
  let! execution_token := issue_token in
  let! now2 := now_ms in
  let remaining_ms := saturating_sub (in_deadline_ms inner) now2 in
  let! at0 := now in
  let! fallback := now in
  let deadline := default fallback (instant_add_ms at0 remaining_ms) in
  let! states := get token_states in
  let! _ := set_tokens (<[execution_token := TOpen {|
      tc_owner := in_owner inner; tc_call_id := pm_call_id metadata;
      tc_tool_name := pm_tool_name metadata; tc_argument_digest := pm_argument_digest metadata;
      tc_registry_identity := pm_registry_identity metadata; tc_risk_ceiling := ceiling;
      tc_output_budget := max_output_bytes (in_limits inner); tc_generation := gen;
      tc_deadline := deadline; tc_deadline_ms := in_deadline_ms inner;
      tc_workspace := in_workspace inner |} []]> states) in
  let! _ := fetch_add_calls in
  ret (PrepareExecute execution_token (in_deadline_ms inner)).

(** The checks between the replay lookup and the approval. *)
Definition admission_checks (metadata : PrepareMetadata) : M unit :=
  let! states := get token_states in
  let! _ := refuse_if (call_unresolved states (pm_call_id metadata)) UnresolvedCall in
  let! now0 := now_ms in
  let! _ := refuse_if (in_deadline_ms inner <=? now0)%Z DeadlineElapsed in
  let! cancelled := is_cancelled in
  let! _ := refuse_if cancelled Cancelled in
  let! _ := refuse_if (negb (str_eqb (pm_registry_identity metadata) (in_registry_identity inner)))
              RegistryMismatch in
  let! _ := refuse_if (metadata_incomplete metadata)
              (InvalidMetadata "call_id and tool name are required") in
  let! _ := refuse_if (summary_too_long metadata)
              (InvalidMetadata "summary exceeds the configured bound") in
  let! calls := get call_count in
  refuse_if (max_tool_calls (in_limits inner) <=? calls)%Z LimitExceeded.

Definition prepare (owner : CapabilityOwner) (metadata : PrepareMetadata) : M PrepareOutcome :=
  let! _ := refuse_if (owner_differs owner) (owner_mismatch (owner_key owner)) in
  let! _ := refuse_if (negb (str_eqb (pm_run_id metadata) (co_run (in_owner inner))))
              (owner_mismatch (owner_with_run (in_owner inner) (pm_run_id metadata))) in
  let! _ := ask (assert_active_run (pm_run_id metadata)) in
  let! _ := ask (prepare_parent (pm_run_id metadata) (pm_call_id metadata) (pm_tool_name metadata)) in
  let! replay := ask (replay_result (pm_run_id metadata) (pm_call_id metadata) (pm_tool_name metadata)) in
  match replay with
  | Some r => ret (PrepareReplay r)
  | None => let! _ := admission_checks metadata in start_call metadata
  end.

(** The state of a token, or the error of a closed or unknown one. *)
Definition open_claims (token : string) (states : gmap string TokenState) :
    result (TokenClaims * list Resource) LifecycleError :=
  match states !! token with
  | Some (TOpen claims resources) => Ok (claims, resources)
  | Some (TCommitted _) => Err DuplicateClose
  | Some (TInterrupted _) => Err Interrupted
  | None => Err TokenUnknown
  end.

Definition lift {A} (r : result A LifecycleError) : M A := fun s => (s, r).

Definition commit_inner (owner : CapabilityOwner) (token : string) (r : Json) : M Json :=
  let! _ := refuse_if (owner_differs owner) (owner_mismatch (owner_key owner)) in
  let! states := get token_states in
  let! claims_resources := lift (open_claims token states) in
  let claims := fst claims_resources in
  let! _ := refuse_if (negb (bool_decide (tc_owner claims = owner)))
              (OwnerMismatch (owner_key (tc_owner claims)) (owner_key owner)) in
  let! _ := refuse_if (tc_output_budget claims <? json_size r)%Z ResultTooLarge in
  let! now := now_ms in
  let! _ := refuse_if (tc_deadline_ms claims <=? now)%Z DeadlineElapsed in
  let! cancelled := is_cancelled in
  let! _ := refuse_if cancelled Cancelled in
  let! _ := lift (validate_canonical_result r) in
  let! _ := set_tokens (<[token := TCommitted (tc_call_id claims)]> (delete token states)) in
  let! committed :=
    catch (call (commit_result (tc_call_id claims) r) (JResult (tc_call_id claims)))
      (fun error =>
         let! _ := log_resources (map RRollback (snd claims_resources)) in fail error) in
  ret (jobj [("ok", JBool true); ("kind", JString "committed");
             ("call_id", JString (tc_call_id claims)); ("result", committed)]).

Definition rollback_unpublished (token : string) : M unit :=
  let! states := get token_states in
  match states !! token with
  | Some (TOpen _ resources) => log_resources (map RRollback resources)
  | _ => ret tt
  end.

Definition commit (owner : CapabilityOwner) (token : string) (r : Json) : M Json :=
  catch (commit_inner owner token r) (fun error =>
    let! _ := if should_rollback_unpublished error then rollback_unpublished token else ret tt in
    fail error).

(** A lease names its token and says whether it was disarmed. *)
Record ExecutionLease := { el_token : string; el_closed : bool }.

Definition lease (token : string) : M ExecutionLease :=
  let! states := get token_states in
  let! _ := lift (open_claims token states) in
  ret {| el_token := token; el_closed := false |}.

Definition disarm (l : ExecutionLease) : ExecutionLease := {| el_token := el_token l; el_closed := true |}.

Definition authorize (owner : CapabilityOwner) (token : string) (requested : CapabilityRisk) : M TokenClaims :=
  let! _ := refuse_if (owner_differs owner) (owner_mismatch (owner_key owner)) in
  let! cancelled := is_cancelled in
  let! _ := refuse_if cancelled Cancelled in
  let! states := get token_states in
  let! claims_resources := lift (open_claims token states) in
  let claims := fst claims_resources in
  let! _ := refuse_if (negb (bool_decide (tc_owner claims = owner)))
              (OwnerMismatch (owner_key (tc_owner claims)) (owner_key owner)) in
  let! now := now_ms in
  let! _ := refuse_if (tc_deadline_ms claims <=? now)%Z DeadlineElapsed in
  let! gen := get generation in
  let! _ := refuse_if (negb (tc_generation claims =? gen)%Z) Interrupted in
  let! _ := refuse_if (risk_gtb requested (tc_risk_ceiling claims))
              (ApprovalCeiling requested (tc_risk_ceiling claims)) in
  ret claims.

Definition register_resource (token : string) (resource : Resource) : M unit :=
  let! states := get token_states in
  match states !! token with
  | Some (TOpen claims resources) =>
      set_tokens (<[token := TOpen claims (resources ++ [resource])]> states)
  | Some (TCommitted _) => fail DuplicateClose
  | Some (TInterrupted _) => let! _ := log_resources [RRelease resource] in fail Interrupted
  | None => let! _ := log_resources [RRelease resource] in fail TokenUnknown
  end.

(** The open tokens with their calls, in the table's order. *)
Definition open_tokens (states : gmap string TokenState) : list (string * string) :=
  omap (fun kv => match snd kv with
                  | TOpen claims _ => Some (fst kv, tc_call_id claims)
                  | _ => None
                  end) (map_to_list states).

Definition resources_of (states : gmap string TokenState) (token : string) : list Resource :=
  match states !! token with Some (TOpen _ resources) => resources | _ => [] end.

Definition mark_interrupted (states : gmap string TokenState) (open : list (string * string)) :
    gmap string TokenState :=
  foldl (fun states tc => <[fst tc := TInterrupted (snd tc)]> states) states open.

Fixpoint interrupt_all (open : list (string * string)) (recovered : list string) : M (list string) :=
  match open with
  | [] => ret recovered
  | (_, call_id) :: open' =>
      let! _ := call (interrupt call_id) (JInterrupt call_id) in
      interrupt_all open' (recovered ++ [call_id])
  end.

Definition recover_open_tokens : M (list string) :=
  let! states := get token_states in
  let open := open_tokens states in
  let! _ := set_tokens (mark_interrupted states open) in
  let! _ := log_resources (map RRelease (concat (map (fun tc => resources_of states (fst tc)) open))) in
  let! recovered := interrupt_all open [] in
  let! _ := fetch_add_generation in
  ret recovered.

Definition interrupt_token (token : string) : M unit :=
  let! states := get token_states in
  match states !! token with
  | Some (TOpen claims resources) =>
      let! _ := set_tokens (<[token := TInterrupted (tc_call_id claims)]> states) in
      let! _ := log_resources (map RRelease resources) in
      call (interrupt (tc_call_id claims)) (JInterrupt (tc_call_id claims))
  | Some _ => ret tt
  | None => fail TokenUnknown
  end.

Definition drop_lease (l : ExecutionLease) : M unit :=
  if el_closed l then ret tt
  else catch (interrupt_token (el_token l)) (fun _ => ret tt).

(** ** Building an engine *)

(** Whole milliseconds of a duration in nanoseconds, at least one when the
    duration is not zero. *)
Definition positive_duration_ms (nanos : Z) : Z :=
  let ms := (nanos / 1000000)%Z in
  if (u64_max <? ms)%Z then u64_max
  else if (ms =? 0)%Z && negb (nanos =? 0)%Z then 1%Z else ms.

Record Builder := {
  b_owner : option CapabilityOwner;
  b_registry_identity : option string;
  b_workspace : option string;
  b_limits : option LifecycleLimits;
  b_deadline_ms : option Z;
  b_clock : bool;
  b_tokens : bool;
  b_durable : option W;
  b_approval : option G;
  b_generation : Z
}.

Definition required {A} (o : option A) (message : string) : result A LifecycleError :=
  ok_or o (InvalidMetadata message).

Definition build (b : Builder) : result (Inner * St) LifecycleError :=
  let? owner := required (b_owner b) "lifecycle owner is required" in
  let? registry_identity := required (b_registry_identity b) "registry identity is required" in
  let? workspace := required (b_workspace b) "workspace is required" in
  let? limits := required (b_limits b) "lifecycle limits are required" in
  if (max_tool_calls limits =? 0)%Z || (max_output_bytes limits =? 0)%Z
     || (max_summary_bytes limits =? 0)%Z
  then Err (InvalidMetadata "lifecycle limits must be positive")
  else
  let? deadline_ms := required (b_deadline_ms b) "deadline_ms is required" in
  if negb (b_clock b) then Err (InvalidMetadata "clock is required")
  else if negb (b_tokens b) then Err (InvalidMetadata "token issuer is required")
  else
  let? durable := required (b_durable b) "durable lifecycle is required" in
  let? approval := required (b_approval b) "approval gate is required" in
  Ok ({| in_owner := owner; in_registry_identity := registry_identity; in_workspace := workspace;
         in_limits := limits; in_deadline_ms := deadline_ms |},
      mkEngine (b_generation b) 0 ∅ durable approval 0 0 [] []).

(** ** Operations as one step *)

(** What the VM, a lease or the service asks of an engine; [OEnvironment] is
    anything else changing the durable side in between. *)
Inductive Op :=
| OPrepare (owner : CapabilityOwner) (metadata : PrepareMetadata)
| OCommit (owner : CapabilityOwner) (token : string) (r : Json)
| OAuthorize (owner : CapabilityOwner) (token : string) (requested : CapabilityRisk)
| ORegister (token : string) (resource : Resource)
| ORecover
| ODropLease (l : ExecutionLease)
| OAttest (owner : CapabilityOwner) (metadata : PrepareMetadata)
| OReplayCompleted (owner : CapabilityOwner) (metadata : PrepareMetadata)
| OEnvironment (f : W -> W).

Inductive Answer :=
| APrepared (r : result PrepareOutcome LifecycleError)
| ACommitted (r : result Json LifecycleError)
| AAuthorized (r : result TokenClaims LifecycleError)
| ARecovered (r : result (list string) LifecycleError)
| ABool (r : result bool LifecycleError)
| AUnit (r : result unit LifecycleError).

Definition answer {A} (f : result A LifecycleError -> Answer) (m : M A) (s : St) : St * Answer :=
  let '(s', r) := m s in (s', f r).

Definition exec (op : Op) (s : St) : St * Answer :=
  match op with
  | OPrepare owner metadata => answer APrepared (prepare owner metadata) s
  | OCommit owner token r => answer ACommitted (commit owner token r) s
  | OAuthorize owner token requested => answer AAuthorized (authorize owner token requested) s
  | ORegister token resource => answer AUnit (register_resource token resource) s
  | ORecover => answer ARecovered recover_open_tokens s
  | ODropLease l => answer AUnit (drop_lease l) s
  | OAttest owner metadata => answer AUnit (attest_approval owner metadata) s
  | OReplayCompleted owner metadata => answer ABool (replay_completed owner metadata) s
  | OEnvironment f =>
      (mkEngine (generation s) (call_count s) (token_states s) (f (durable s)) (approval s)
         (ticks s) (issued s) (journal s) (resource_log s), AUnit (Ok tt))
  end.

Fixpoint exec_all (ops : list Op) (s : St) : St * list (Op * Answer) :=
  match ops with
  | [] => (s, [])
  | op :: ops' =>
      let '(s1, a) := exec op s in
      let '(s2, rest) := exec_all ops' s1 in (s2, (op, a) :: rest)
  end.

(** ** Quiet computations: they leave tokens, counters and journal alone *)

Definition view (s : St) : gmap string TokenState * Z * nat * list DurableCall * Z :=
  (token_states s, call_count s, issued s, journal s, generation s).

Definition quiet {A} (m : M A) : Prop := forall s, view (fst (m s)) = view s.

Lemma quiet_ret {A} (a : A) : quiet (ret a).
Proof. done. Qed.
Lemma quiet_fail {A} e : quiet (@fail A e).
Proof. done. Qed.
Lemma quiet_refuse_if b e : quiet (refuse_if b e).
Proof. by destruct b. Qed.
Lemma quiet_get {A} (f : St -> A) : quiet (get f).
Proof. done. Qed.
Lemma quiet_ask {A} (f : W -> result A LifecycleError) : quiet (ask f).
Proof. done. Qed.
Lemma quiet_lift {A} (r : result A LifecycleError) : quiet (lift r).
Proof. done. Qed.
Lemma quiet_now_ms : quiet now_ms.
Proof. done. Qed.
Lemma quiet_now : quiet now.
Proof. done. Qed.
Lemma quiet_is_cancelled : quiet is_cancelled.
Proof. done. Qed.
Lemma quiet_log_resources l : quiet (log_resources l).
Proof. done. Qed.
Lemma quiet_authorize_gate m g n c : quiet (authorize_gate m g n c).
Proof. intros s. unfold authorize_gate. by destruct (gate_authorize_at _ _ _ _ _). Qed.
Lemma quiet_attest_gate o m g n d c1 c2 : quiet (attest_gate o m g n d c1 c2).
Proof. intros s. unfold attest_gate. by destruct (gate_attest _ _ _ _ _ _ _ _). Qed.

Lemma quiet_bind {A B} (m : M A) (k : A -> M B) : quiet m -> (forall a, quiet (k a)) -> quiet (bind m k).
Proof.
  intros Hm Hk s. unfold bind. specialize (Hm s). destruct (m s) as [s1 [a|e]]; cbn in *; [|done].
  by rewrite Hk.
Qed.

Lemma quiet_catch {A} (m : M A) h : quiet m -> (forall e, quiet (h e)) -> quiet (catch m h).
Proof.
  intros Hm Hh s. unfold catch. specialize (Hm s). destruct (m s) as [s1 [a|e]]; cbn in *; [done|].
  by rewrite Hh.
Qed.

(** A quiet prefix either fails or hands on a state that looks the same. *)
Lemma bind_quiet_inv {A B} (m : M A) (k : A -> M B) s s' r :
  quiet m -> bind m k s = (s', r) ->
  (exists e, r = Err e /\ view s' = view s) \/
  (exists a s1, m s = (s1, Ok a) /\ view s1 = view s /\ k a s1 = (s', r)).
Proof.
  intros Hm Hb. specialize (Hm s). unfold bind in Hb.
  destruct (m s) as [s1 [a|e]]; cbn in Hm; [right; eauto|].
  left. injection Hb as <- <-. eauto.
Qed.

Lemma bind_Ok {A B} (m : M A) (k : A -> M B) s s' b :
  bind m k s = (s', Ok b) -> exists a s1, m s = (s1, Ok a) /\ k a s1 = (s', Ok b).
Proof. unfold bind. destruct (m s) as [s1 [a|e]]; [eauto|done]. Qed.

Lemma refuse_if_Ok b e s s1 a : refuse_if b e s = (s1, Ok a) -> b = false /\ s1 = s.
Proof. destruct b; cbn; [done|]. by intros [= <-]. Qed.

End Engine.

Ltac quiet_tac :=
  repeat first
    [ apply quiet_bind; [|intros] | apply quiet_catch; [|intros]
    | apply quiet_ret | apply quiet_fail | apply quiet_refuse_if | apply quiet_get | apply quiet_ask
    | apply quiet_lift | apply quiet_now_ms | apply quiet_now | apply quiet_is_cancelled
    | apply quiet_log_resources | apply quiet_authorize_gate | apply quiet_attest_gate
    | case_match ].
