(* ===== verification/LifecycleSpec.v ===== *)
(** * What the lifecycle engine promises, and that it keeps it

    The promise is an abstract machine over calls, without tokens, clocks or
    approvals: a call is started once, within the limit, and then closed at
    most once, by a result or by an interruption.  Its labels are the durable
    calls.  The engine refines it: every operation is a step of the machine
    with the durable calls it made as label. *)

From S2P Require Import Prelude Utf8 Json Capability Lifecycle.
From stdpp Require Import pretty.

(** ** The abstract machine *)

Inductive Phase := Running | Done | Cut.

Abbreviation calls := (gmap string Phase).

Definition failed_start (j : DurableCall) : Prop :=
  match j with JStarted _ false => True | _ => False end.

Definition cut_all (cs : list string) (m : calls) : calls := foldl (fun m c => <[c := Cut]> m) m cs.

(** A prefix of the calls being cut is reported, the last report possibly
    answered with an error. *)
Definition interrupts (cs : list string) (j : list DurableCall) : Prop :=
  exists answers, length answers <= length cs /\
    j = zip_with JInterrupt (take (length answers) cs) answers.

Inductive astep (limit : Z) : calls -> list DurableCall -> calls -> Prop :=
| AStutter m j : Forall failed_start j -> astep limit m j m
| AStart m record :
    m !! ds_call_id record = None -> (Z.of_nat (size m) < limit)%Z ->
    astep limit m [JStarted record true] (<[ds_call_id record := Running]> m)
| ACommit m c ok : m !! c = Some Running -> astep limit m [JResult c ok] (<[c := Done]> m)
| AInterrupt m cs j :
    NoDup cs -> Forall (fun c => m !! c = Some Running) cs -> interrupts cs j ->
    astep limit m j (cut_all cs m).

Inductive asteps (limit : Z) : calls -> list DurableCall -> calls -> Prop :=
| ADone m : asteps limit m [] m
| AThen m j m' j' m'' : astep limit m j m' -> asteps limit m' j' m'' -> asteps limit m (j ++ j') m''.

(** How often a call was started, and closed, in a journal. *)
Definition starts (c : string) (j : DurableCall) : bool :=
  match j with JStarted record true => str_eqb (ds_call_id record) c | _ => false end.
Definition closes (c : string) (j : DurableCall) : bool :=
  match j with JResult c' _ | JInterrupt c' _ => str_eqb c' c | _ => false end.
Definition tally {A} (f : A -> bool) (l : list A) : nat := length (List.filter f l).

Lemma tally_app {A} (f : A -> bool) l1 l2 : tally f (l1 ++ l2) = tally f l1 + tally f l2.
Proof. unfold tally. by rewrite List.filter_app, length_app. Qed.

Lemma tally_zero {A} (f : A -> bool) l : Forall (fun x => f x = false) l -> tally f l = 0.
Proof. induction 1 as [|x l Hx _ IH]; [done|]. unfold tally in *. cbn. by rewrite Hx. Qed.

(** What a phase says of the journal so far. *)
Definition phase_starts (p : option Phase) : nat := match p with None => 0 | _ => 1 end.
Definition phase_closes_max (p : option Phase) : nat :=
  match p with None | Some Running => 0 | _ => 1 end.

Lemma cut_all_lookup cs m c :
  cut_all cs m !! c = if decide (c ∈ cs) then Some Cut else m !! c.
Proof.
  revert m. induction cs as [|c0 cs IH]; intros m.
  - by rewrite decide_False by set_solver.
  - change (cut_all (c0 :: cs) m) with (cut_all cs (<[c0 := Cut]> m)). rewrite IH.
    destruct (decide (c ∈ cs)) as [Hin|Hin]; [by rewrite decide_True by (by right)|].
    destruct (decide (c = c0)) as [->|Hne].
    + rewrite decide_True by left. apply lookup_insert_eq.
    + rewrite lookup_insert_ne by done. by rewrite decide_False by set_solver.
Qed.

Lemma cut_all_size cs m : Forall (fun c => is_Some (m !! c)) cs -> size (cut_all cs m) = size m.
Proof.
  revert m. induction cs as [|c cs IH]; intros m Hcs; [done|]. inversion Hcs as [|? ? Hc Hcs']; subst.
  unfold cut_all in *. cbn. rewrite IH; [by apply map_size_insert_Some|].
  eapply Forall_impl; [exact Hcs'|]. intros c' Hc'. cbn. destruct (decide (c' = c)) as [->|].
  - by rewrite lookup_insert_eq.
  - by rewrite lookup_insert_ne by done.
Qed.

Lemma interrupts_closes cs j c :
  NoDup cs -> interrupts cs j -> tally (closes c) j <= (if decide (c ∈ cs) then 1 else 0).
Proof.
  intros Hnd (answers & Hlen & ->). revert answers Hlen.
  induction Hnd as [|c0 cs Hc0 Hnd IH]; intros [|a answers] Hlen; cbn in Hlen; try (cbn; lia).
  cbn. assert (length answers <= length cs) as Hlen' by lia. specialize (IH answers Hlen').
  unfold tally in *. cbn. destruct (str_eqb_spec c0 c) as [->|Hne]; cbn.
  - rewrite decide_True by left. rewrite decide_False in IH by done. lia.
  - destruct (decide (c ∈ cs)); [rewrite decide_True by (by right)|]; [done|].
    destruct (decide (c ∈ c0 :: cs)); lia.
Qed.

Lemma interrupts_starts cs j c : interrupts cs j -> tally (starts c) j = 0.
Proof.
  intros (answers & _ & ->). apply tally_zero, Forall_forall.
  intros x Hx. apply elem_of_lookup_zip_with in Hx as (i & c' & a & -> & _). done.
Qed.

(** The balance of one step, per call. *)
Lemma astep_balance limit m j m' c :
  astep limit m j m' ->
  phase_starts (m !! c) + tally (starts c) j = phase_starts (m' !! c) /\
  phase_closes_max (m !! c) + tally (closes c) j <= phase_closes_max (m' !! c).
Proof.
  destruct 1 as [m j Hj|m record Hn Hl|m c0 ok Hr|m cs j Hnd Hr Hj].
  - rewrite !tally_zero; [lia|..]; eapply Forall_impl; try exact Hj; by intros [? []|?|?].
  - unfold tally. cbn. destruct (str_eqb_spec (ds_call_id record) c) as [<-|Hne]; cbn.
    + rewrite lookup_insert_eq, Hn. cbn. lia.
    + rewrite lookup_insert_ne by done. lia.
  - unfold tally. cbn. destruct (str_eqb_spec c0 c) as [->|Hne]; cbn.
    + rewrite lookup_insert_eq, Hr. cbn. lia.
    + rewrite lookup_insert_ne by done. lia.
  - rewrite (interrupts_starts cs j c Hj). pose proof (interrupts_closes cs j c Hnd Hj) as Hc.
    rewrite cut_all_lookup. destruct (decide (c ∈ cs)) as [Hin|]; [|lia].
    rewrite Forall_forall in Hr. rewrite (Hr c Hin). cbn. lia.
Qed.

Lemma asteps_balance limit m j m' c :
  asteps limit m j m' ->
  phase_starts (m !! c) + tally (starts c) j = phase_starts (m' !! c) /\
  phase_closes_max (m !! c) + tally (closes c) j <= phase_closes_max (m' !! c).
Proof.
  induction 1 as [m|m j m1 j' m2 Hs _ IH]; [unfold tally; cbn; lia|].
  rewrite !tally_app. destruct (astep_balance _ _ _ _ c Hs). lia.
Qed.

(** Every successful start adds one call, and the limit bounds the calls. *)
Definition any_start (j : DurableCall) : bool := match j with JStarted _ true => true | _ => false end.

Lemma astep_size limit m j m' :
  astep limit m j m' ->
  size m' = size m + tally any_start j /\ ((Z.of_nat (size m) <= limit)%Z -> (Z.of_nat (size m') <= limit)%Z).
Proof.
  destruct 1 as [m j Hj|m record Hn Hl|m c0 ok Hr|m cs j Hnd Hr Hj].
  - rewrite tally_zero; [split; [lia|done]|]. eapply Forall_impl; [exact Hj|]. by intros [? []|?|?].
  - rewrite map_size_insert_None by done. unfold tally. cbn. split; [lia|lia].
  - rewrite map_size_insert_Some by (by rewrite Hr). unfold tally. cbn. split; [lia|done].
  - rewrite cut_all_size by (eapply Forall_impl; [exact Hr|]; by intros c ->).
    rewrite tally_zero; [split; [lia|done]|]. destruct Hj as (answers & _ & ->).
    apply Forall_forall. intros x Hx. by apply elem_of_lookup_zip_with in Hx as (i & c' & a & -> & _).
Qed.

Lemma asteps_size limit m j m' :
  asteps limit m j m' ->
  size m' = size m + tally any_start j /\ ((Z.of_nat (size m) <= limit)%Z -> (Z.of_nat (size m') <= limit)%Z).
Proof.
  induction 1 as [m|m j m1 j' m2 Hs _ IH]; [unfold tally; cbn; lia|].
  rewrite tally_app. destruct (astep_size _ _ _ _ Hs), IH. split; [lia|auto].
Qed.

(** ** The engine against the machine *)

Definition phase (st : TokenState) : Phase :=
  match st with TOpen _ _ => Running | TCommitted _ => Done | TInterrupted _ => Cut end.

Section refinement.
Context {W G : Type} `{DurableToolLifecycle W} `{ApprovalGate G} `{JsonText}.
Context (clock : nat -> Z) (instant : nat -> Z) (cancelled : nat -> bool) (issue : nat -> string).
Context (inner : Inner).

(** Issued identifiers are never repeated (version 4 UUIDs). *)
Hypothesis issue_inj : forall i j, issue i = issue j -> i = j.
Hypothesis limit_u64 : is_u64 (max_tool_calls (in_limits inner)) = true.

Abbreviation St := (Engine W G).
Abbreviation limit := (max_tool_calls (in_limits inner)).

(** The record a start commits, and the claims of the token it issues. *)
Definition record_of (metadata : PrepareMetadata) (gen : Z) : DurableStarted := {|
  ds_run_id := pm_run_id metadata; ds_call_id := pm_call_id metadata;
  ds_tool_name := pm_tool_name metadata; ds_argument_digest := pm_argument_digest metadata;
  ds_registry_identity := pm_registry_identity metadata; ds_risk_class := pm_risk_class metadata;
  ds_summary := pm_summary metadata; ds_generation := gen |}.

Definition claims_for (metadata : PrepareMetadata) (gen : Z) (claims : TokenClaims) : Prop :=
  tc_owner claims = in_owner inner /\ tc_call_id claims = pm_call_id metadata /\
  tc_tool_name claims = pm_tool_name metadata /\
  tc_argument_digest claims = pm_argument_digest metadata /\
  tc_registry_identity claims = pm_registry_identity metadata /\
  tc_output_budget claims = max_output_bytes (in_limits inner) /\
  tc_generation claims = gen /\ tc_deadline_ms claims = in_deadline_ms inner.

(** A state that differs by a refused start only. *)
Definition refused_start (record : DurableStarted) (s s' : St) : Prop :=
  token_states s' = token_states s /\ call_count s' = call_count s /\ issued s' = issued s /\
  generation s' = generation s /\ journal s' = journal s ++ [JStarted record false].

Definition started (record : DurableStarted) (claims : TokenClaims) (s s' : St) : Prop :=
  token_states s' = <[issue (issued s) := TOpen claims []]> (token_states s) /\
  call_count s' = wrap64 (call_count s + 1) /\ issued s' = S (issued s) /\
  generation s' = generation s /\ journal s' = journal s ++ [JStarted record true].

Lemma start_call_cases metadata s s' r :
  start_call clock instant issue inner metadata s = (s', r) ->
  (exists e, r = Err e /\ view s' = view s) \/
  (exists e, r = Err e /\ refused_start (record_of metadata (generation s)) s s') \/
  (exists claims, r = Ok (PrepareExecute (issue (issued s)) (in_deadline_ms inner)) /\
     claims_for metadata (generation s) claims /\
     started (record_of metadata (generation s)) claims s s').
Proof.
  unfold start_call. unfold bind at 1. cbn [get].
  unfold bind at 1. cbn [now_ms]. unfold bind at 1. cbn [now_ms].
  intros Hs. apply bind_quiet_inv in Hs as [Hq|(ceiling & s1 & Hg & Hv & Hs)];
    [left; exact Hq| |apply quiet_authorize_gate].
  unfold bind at 1 in Hs. cbn [get] in Hs.
  injection Hv as Ht Hc Hi Hj Hgen. rewrite Hgen, Z.eqb_refl in Hs. cbn [negb refuse_if] in Hs.
  unfold bind at 1 in Hs. cbn [ret] in Hs. unfold bind at 1 in Hs. cbn [call] in Hs.
  unfold call in Hs. fold (record_of metadata (generation s)) in Hs.
  destruct (commit_started _ (durable s1)) as [w [[]|e]].
  - right. right. cbn in Hs. injection Hs as <- <-. eexists. rewrite Hi. split; [done|].
    refine (conj _ (conj _ _)); cbn; [|by rewrite Ht|by rewrite Hc, Hj, Hgen; split_and!].
    by split_and!.
  - right. left. cbn in Hs. injection Hs as <- <-. exists e. split; [done|].
    unfold refused_start. cbn. rewrite Ht, Hc, Hi, Hj, Hgen. by split_and!.
Qed.

(** Everything that must hold for a call to be started. *)
Record admitted (owner : CapabilityOwner) (metadata : PrepareMetadata) (s : St) : Prop := {
  ad_owner : owner = in_owner inner;
  ad_run : pm_run_id metadata = co_run (in_owner inner);
  ad_active : assert_active_run (pm_run_id metadata) (durable s) = Ok tt;
  ad_parent : prepare_parent (pm_run_id metadata) (pm_call_id metadata) (pm_tool_name metadata)
                (durable s) = Ok tt;
  ad_replay : replay_result (pm_run_id metadata) (pm_call_id metadata) (pm_tool_name metadata)
                (durable s) = Ok None;
  ad_fresh : call_unresolved (token_states s) (pm_call_id metadata) = false;
  ad_deadline : (clock (ticks s) < in_deadline_ms inner)%Z;
  ad_cancelled : cancelled (S (ticks s)) = false;
  ad_registry : pm_registry_identity metadata = in_registry_identity inner;
  ad_complete : pm_call_id metadata <> EmptyString /\ pm_tool_name metadata <> EmptyString;
  ad_summary : (slen (pm_summary metadata) <= max_summary_bytes (in_limits inner))%Z;
  ad_limit : (call_count s < limit)%Z
}.

Lemma is_empty_false t : is_empty t = false -> t <> EmptyString.
Proof. by destruct t. Qed.

Lemma admission_checks_Ok metadata (s s1 : St) u :
  admission_checks clock cancelled inner metadata s = (s1, Ok u) ->
  view s1 = view s /\ durable s1 = durable s /\
  call_unresolved (token_states s) (pm_call_id metadata) = false /\
  (clock (ticks s) < in_deadline_ms inner)%Z /\ cancelled (S (ticks s)) = false /\
  pm_registry_identity metadata = in_registry_identity inner /\
  (pm_call_id metadata <> EmptyString /\ pm_tool_name metadata <> EmptyString) /\
  (slen (pm_summary metadata) <= max_summary_bytes (in_limits inner))%Z /\ (call_count s < limit)%Z.
Proof.
  unfold admission_checks, bind, get, refuse_if, ret, fail, now_ms, is_cancelled, metadata_incomplete, summary_too_long.
  intros Ha. repeat (case_match; cbn in *; simplify_eq). bool_to_prop.
  split_and!; try done; try by apply is_empty_false.
Qed.

Lemma quiet_admission_checks metadata :
  quiet (admission_checks (W := W) (G := G) clock cancelled inner metadata).
Proof. unfold admission_checks. quiet_tac. Qed.

Lemma quiet_authorize owner tok requested :
  quiet (authorize (W := W) (G := G) clock cancelled inner owner tok requested).
Proof. unfold authorize. quiet_tac. Qed.

Lemma quiet_attest_approval owner metadata :
  quiet (attest_approval (W := W) (G := G) clock cancelled inner owner metadata).
Proof. unfold attest_approval, validate_approval_facts. quiet_tac. Qed.

Lemma quiet_replay_completed owner metadata :
  quiet (replay_completed (W := W) (G := G) clock cancelled inner owner metadata).
Proof. unfold replay_completed, validate_approval_facts. quiet_tac. Qed.

(** The three ways a [prepare] can go. *)
Lemma prepare_cases owner metadata s s' r :
  prepare clock instant cancelled issue inner owner metadata s = (s', r) ->
  ((forall t d, r <> Ok (PrepareExecute t d)) /\ view s' = view s) \/
  (exists e, r = Err e /\ refused_start (record_of metadata (generation s)) s s') \/
  (exists claims, r = Ok (PrepareExecute (issue (issued s)) (in_deadline_ms inner)) /\
     admitted owner metadata s /\ claims_for metadata (generation s) claims /\
     started (record_of metadata (generation s)) claims s s').
Proof.
  lazy beta iota delta [prepare bind ask refuse_if ret fail].
  destruct (owner_differs inner owner) eqn:Eo; [intros [= <- <-]; by left|].
  destruct (negb _) eqn:Er; [intros [= <- <-]; by left|].
  destruct (assert_active_run _ _) as [[]|] eqn:Ea; [|intros [= <- <-]; by left].
  destruct (prepare_parent _ _ _ _) as [[]|] eqn:Ep; [|intros [= <- <-]; by left].
  destruct (replay_result _ _ _ _) as [[res|]|] eqn:Ey;
    [intros [= <- <-]; by left| |intros [= <- <-]; by left].
  pose proof (quiet_admission_checks metadata s) as Hv.
  destruct (admission_checks _ _ _ _ s) as [s1 [u|e]] eqn:Ha; [|intros [= <- <-]; by left].
  intros Hs. cbn in Hv.
  apply admission_checks_Ok in Ha as (_ & Hd & Hf & Hc & Hn & Hreg & Hcomp & Hsum & Hlim).
  injection Hv as Ht Hcc Hi Hj Hgen.
  unfold owner_differs in Eo. bool_to_prop. cbn in Er. bool_to_prop.
  apply start_call_cases in Hs as [(e & -> & Hv)|[(e & -> & Hr)|(claims & -> & Hcl & Hst)]].
  - left. split; [done|]. unfold view in *. by rewrite Hv, Ht, Hcc, Hi, Hj, Hgen.
  - right. left. exists e. unfold refused_start in *. by rewrite Ht, Hcc, Hi, Hj, Hgen in Hr.
  - right. right. exists claims. unfold started in *. rewrite Ht, Hcc, Hi, Hj, Hgen in Hst.
    rewrite Hi. rewrite Hgen in Hcl. split; [done|]. split; [by constructor|done].
Qed.

(** *** The relation between tokens and calls *)

Record tracks (T : gmap string TokenState) (n : Z) (k : nat) (m : calls) : Prop := {
  tr_calls c p : m !! c = Some p <->
    exists tok st, T !! tok = Some st /\ token_call_id st = c /\ phase st = p;
  tr_unique t1 t2 st1 st2 : T !! t1 = Some st1 -> T !! t2 = Some st2 ->
    token_call_id st1 = token_call_id st2 -> t1 = t2;
  tr_issued tok st : T !! tok = Some st -> exists i, i < k /\ tok = issue i;
  tr_size : size m = size T;
  tr_count : n = Z.of_nat (size T)
}.

Definition tracked (s : St) (m : calls) : Prop :=
  tracks (token_states s) (call_count s) (issued s) m.

Lemma tracked_view s s' m : view s' = view s -> tracked s m -> tracked s' m.
Proof. unfold tracked. intros Hv. injection Hv as -> -> -> _ _. done. Qed.

(** A new token for a call no token has. *)
Lemma tracks_start T n k m claims :
  tracks T n k m -> call_unresolved T (tc_call_id claims) = false -> (n < limit)%Z ->
  m !! tc_call_id claims = None /\ (Z.of_nat (size m) < limit)%Z /\
  tracks (<[issue k := TOpen claims []]> T) (wrap64 (n + 1)) (S k) (<[tc_call_id claims := Running]> m).
Proof.
  intros Ht Hf Hn. pose proof (tr_size _ _ _ _ Ht). pose proof (tr_count _ _ _ _ Ht).
  assert (forall tok st, T !! tok = Some st -> token_call_id st <> tc_call_id claims) as Hfresh.
  { intros tok st Hs Hc. unfold call_unresolved in Hf. rewrite existsb_false_iff in Hf.
    specialize (Hf (tok, st) ltac:(by apply elem_of_map_to_list)). cbn in Hf.
    by rewrite Hc, str_eqb_refl in Hf. }
  assert (m !! tc_call_id claims = None) as Hm.
  { destruct (m !! tc_call_id claims) as [p|] eqn:E; [|done]. exfalso.
    apply (tr_calls _ _ _ _ Ht) in E as (tok & st & Hs & Hc & _). by apply (Hfresh tok st). }
  assert (T !! issue k = None) as Hk.
  { destruct (T !! issue k) as [st|] eqn:E; [|done]. exfalso.
    apply (tr_issued _ _ _ _ Ht) in E as (i & Hi & Heq). apply issue_inj in Heq. lia. }
  split_and!; [done|lia|]. unfold is_u64, u64_max in limit_u64. bool_to_prop. split.
  - intros c p. destruct (decide (c = tc_call_id claims)) as [->|Hne].
    + rewrite lookup_insert_eq. split.
      * intros [= <-]. exists (issue k), (TOpen claims []). by rewrite lookup_insert_eq.
      * intros (tok & st & Hs & Hc & <-). apply lookup_insert_Some in Hs as [[_ <-]|[_ Hs]]; [done|].
        by apply Hfresh in Hs.
    + rewrite lookup_insert_ne, (tr_calls _ _ _ _ Ht) by done. split.
      * intros (tok & st & Hs & Hc). exists tok, st. rewrite lookup_insert_ne by congruence. done.
      * intros (tok & st & Hs & Hc & Hp). apply lookup_insert_Some in Hs as [[_ <-]|[_ Hs]]; [by subst c|].
        exists tok, st. done.
  - intros t1 t2 st1 st2 H1' H2' Heq.
    apply lookup_insert_Some in H1' as [[<- <-]|[_ H1']], H2' as [[<- <-]|[_ H2']]; try done.
    + exfalso. by eapply Hfresh.
    + exfalso. by eapply Hfresh.
    + by eapply (tr_unique _ _ _ _ Ht).
  - intros tok st Hs. apply lookup_insert_Some in Hs as [[<- _]|[_ Hs]]; [exists k; split; [lia|done]|].
    apply (tr_issued _ _ _ _ Ht) in Hs as (i & Hi & ->). exists i. split; [lia|done].
  - rewrite !map_size_insert_None by done. lia.
  - rewrite map_size_insert_None by done. rewrite wrap64_small by lia. lia.
Qed.

(** A token that changes state but not its call. *)
Lemma tracks_retoken T n k m tok st st' :
  tracks T n k m -> T !! tok = Some st -> token_call_id st' = token_call_id st ->
  tracks (<[tok := st']> T) n k (<[token_call_id st := phase st']> m).
Proof.
  intros Ht Hs Hc. split.
  - intros c p. destruct (decide (c = token_call_id st)) as [->|Hne].
    + rewrite lookup_insert_eq. split.
      * intros [= <-]. exists tok, st'. by rewrite lookup_insert_eq.
      * intros (tok' & st2 & Hs2 & Hc2 & <-).
        apply lookup_insert_Some in Hs2 as [[_ <-]|[Hne Hs2]]; [done|].
        exfalso. apply Hne. by eapply (tr_unique _ _ _ _ Ht).
    + rewrite lookup_insert_ne, (tr_calls _ _ _ _ Ht) by done. split.
      * intros (tok' & st2 & Hs2 & Hc2 & Hp). exists tok', st2.
        rewrite lookup_insert_ne; [done|]. intros ->. congruence.
      * intros (tok' & st2 & Hs2 & Hc2 & Hp).
        apply lookup_insert_Some in Hs2 as [[_ <-]|[_ Hs2]]; [congruence|]. by exists tok', st2.
  - intros t1 t2 st1 st2 H1' H2' Heq.
    apply lookup_insert_Some in H1' as [[<- <-]|[_ H1']], H2' as [[<- <-]|[_ H2']]; try done;
      eapply (tr_unique _ _ _ _ Ht); eauto; congruence.
  - intros t st2 Hs2. apply lookup_insert_Some in Hs2 as [[<- _]|[_ Hs2]];
      by eapply (tr_issued _ _ _ _ Ht).
  - rewrite !map_size_insert_Some; [apply (tr_size _ _ _ _ Ht)|by eexists|].
    exists (phase st). apply (tr_calls _ _ _ _ Ht). by exists tok, st.
  - rewrite map_size_insert_Some by (by eexists). apply (tr_count _ _ _ _ Ht).
Qed.

Lemma tracks_phase T n k m tok st :
  tracks T n k m -> T !! tok = Some st -> m !! token_call_id st = Some (phase st).
Proof. intros Ht Hs. apply (tr_calls _ _ _ _ Ht). by exists tok, st. Qed.

(** *** Closing operations *)

(** Only tokens, journal and outside effects differ. *)
Definition closed_by (T : gmap string TokenState) (j : list DurableCall) (s s' : St) : Prop :=
  token_states s' = T /\ call_count s' = call_count s /\ issued s' = issued s /\
  journal s' = journal s ++ j.

Lemma open_claims_Ok tok T claims rs :
  open_claims tok T = Ok (claims, rs) <-> T !! tok = Some (TOpen claims rs).
Proof. unfold open_claims. destruct (T !! tok) as [[]|]; naive_solver. Qed.

Lemma commit_inner_cases owner tok r s s' a :
  commit_inner clock cancelled inner owner tok r s = (s', a) ->
  ((forall v, a <> Ok v) /\ view s' = view s) \/
  (exists claims rs ok, token_states s !! tok = Some (TOpen claims rs) /\
     closed_by (<[tok := TCommitted (tc_call_id claims)]> (token_states s))
       [JResult (tc_call_id claims) ok] s s' /\ generation s' = generation s).
Proof.
  unfold commit_inner. intros Hs.
  lazy beta iota delta [bind refuse_if get lift ret fail] in Hs.
  destruct (owner_differs inner owner); [injection Hs as <- <-; by left|].
  destruct (open_claims tok (token_states s)) as [[claims rs]|] eqn:Eo; [|injection Hs as <- <-; by left].
  apply open_claims_Ok in Eo. cbn [fst snd] in Hs.
  destruct (negb _); [injection Hs as <- <-; by left|].
  destruct (_ <? _)%Z; [injection Hs as <- <-; by left|]. cbn [now_ms] in Hs.
  destruct (_ <=? _)%Z; [injection Hs as <- <-; by left|]. cbn [is_cancelled] in Hs.
  destruct (cancelled _); [injection Hs as <- <-; by left|].
  destruct (validate_canonical_result r); [|injection Hs as <- <-; by left].
  right. exists claims, rs. cbn [set_tokens] in Hs. unfold catch, call in Hs. cbn in Hs.
  rewrite insert_delete_eq in Hs.
  destruct (commit_result _ _ _) as [w [v|e]]; cbn in Hs; injection Hs as <- <-;
    eexists; (split; [exact Eo|]); by split.
Qed.

Lemma commit_cases owner tok r s s' a :
  commit clock cancelled inner owner tok r s = (s', a) ->
  view s' = view s \/
  (exists claims rs ok, token_states s !! tok = Some (TOpen claims rs) /\
     closed_by (<[tok := TCommitted (tc_call_id claims)]> (token_states s))
       [JResult (tc_call_id claims) ok] s s' /\ generation s' = generation s).
Proof.
  unfold commit, catch. destruct (commit_inner _ _ _ _ _ _ s) as [s1 [v|e]] eqn:Ec; intros Hs.
  - injection Hs as <- <-. apply commit_inner_cases in Ec as [[_ Hv]|Hc]; [by left|by right].
  - assert (view s' = view s1) as Hq.
    { change s' with (fst (s', a)). rewrite <- Hs. revert s1 Ec Hs. intros s1 _ _.
      apply (quiet_bind (W := W) (G := G)); [|by intros]. unfold rollback_unpublished. quiet_tac. }
    injection Hq as Ht Hcc Hi Hj Hg.
    apply commit_inner_cases in Ec as [[_ Hv]|(claims & rs & ok & Ho & Hc & Hgen)].
    + left. rewrite <- Hv. unfold view. by rewrite Ht, Hcc, Hi, Hj, Hg.
    + right. exists claims, rs, ok. unfold closed_by in *. by rewrite Ht, Hcc, Hi, Hj, Hg.
Qed.

Lemma interrupt_token_cases tok s s' a :
  interrupt_token tok s = (s', a) ->
  view s' = view s \/
  (exists claims rs ok, token_states s !! tok = Some (TOpen claims rs) /\
     closed_by (<[tok := TInterrupted (tc_call_id claims)]> (token_states s))
       [JInterrupt (tc_call_id claims) ok] s s' /\ generation s' = generation s).
Proof.
  unfold interrupt_token, bind, get. cbn.
  destruct (token_states s !! tok) as [[claims rs|c|c]|] eqn:E; try (intros [= <- <-]; by left).
  intros Hs. right. exists claims, rs. unfold call in Hs. cbn in Hs.
  destruct (interrupt _ _) as [w r]. injection Hs as <- <-. eexists. split; [done|]. by split.
Qed.

Lemma interrupt_all_cases l done s s' a :
  interrupt_all l done s = (s', a) ->
  exists j, closed_by (token_states s) j s s' /\ generation s' = generation s /\ interrupts l.*2 j /\
    (forall rec, a = Ok rec -> rec = done ++ l.*2).
Proof.
  revert done s. induction l as [|[tok c] l IH]; intros done s; cbn.
  - intros [= <- <-]. exists []. unfold closed_by. rewrite !app_nil_r. split_and!; try done.
    + by exists [].
    + by intros rec [= <-].
  - unfold bind, call. destruct (interrupt c (durable s)) as [w r] eqn:Ei.
    destruct r as [[]|e].
    + intros (j & Hc & Hg & (ans & Hl & ->) & Hr)%IH. cbn in *.
      exists (JInterrupt c true :: zip_with JInterrupt (take (length ans) l.*2) ans).
      unfold closed_by in *. cbn in *. rewrite <- app_assoc in Hc.
      split; [exact Hc|]. split; [exact Hg|]. split.
      * exists (true :: ans). cbn. split; [lia|done].
      * intros rec Hrec. rewrite (Hr rec Hrec), <- app_assoc. done.
    + intros [= <- <-]. exists [JInterrupt c false]. split_and!; try done.
      exists [false]. cbn. split; [lia|]. done.
Qed.

(** *** The open tokens *)

Lemma open_tokens_spec T tok c :
  (tok, c) ∈ open_tokens T <-> exists claims rs, T !! tok = Some (TOpen claims rs) /\ tc_call_id claims = c.
Proof.
  unfold open_tokens. rewrite list_elem_of_omap. split.
  - intros ([t st] & Hin%elem_of_map_to_list & Hst). cbn in Hst. destruct st; simplify_eq. eauto.
  - intros (claims & rs & Hs & <-). exists (tok, TOpen claims rs). split; [by apply elem_of_map_to_list|done].
Qed.

Lemma open_tokens_NoDup T : NoDup (open_tokens T).*1.
Proof.
  unfold open_tokens. pose proof (NoDup_fst_map_to_list T) as Hnd.
  induction (map_to_list T) as [|[t st] l IH]; [constructor|]. apply NoDup_cons in Hnd as [Ht Hnd].
  destruct st as [claims rs|c|c]; [|exact (IH Hnd)..].
  apply (NoDup_cons (t : string)). split; [|exact (IH Hnd)].
  intros ([t' c] & Heq & Hin)%list_elem_of_fmap. cbn in Heq. subst t'. apply Ht.
  apply list_elem_of_omap in Hin as ([t2 st] & Hin & Hst). cbn in Hst. destruct st; simplify_eq.
  apply list_elem_of_fmap. eexists. split; [|exact Hin]. done.
Qed.

Lemma open_calls_NoDup T n k m : tracks T n k m -> NoDup (open_tokens T).*2.
Proof.
  intros Ht. apply NoDup_fmap_2_strong.
  - intros [t1 c1] [t2 c2] (cl1 & rs1 & H1' & Hc1)%open_tokens_spec (cl2 & rs2 & H2' & Hc2)%open_tokens_spec Heq.
    cbn in Heq. f_equal; [|done].
    apply (tr_unique _ _ _ _ Ht _ _ _ _ H1' H2'). cbn. congruence.
  - eapply NoDup_fmap_1, open_tokens_NoDup.
Qed.

Lemma tracks_interrupted l T n k m :
  tracks T n k m -> NoDup l.*1 ->
  Forall (fun tc => exists claims rs, T !! fst tc = Some (TOpen claims rs) /\ tc_call_id claims = snd tc) l ->
  tracks (mark_interrupted T l) n k (cut_all l.*2 m).
Proof.
  revert T m. induction l as [|[tok c] l IH]; intros T m Ht Hnd Hl; [done|]. cbn in *.
  apply NoDup_cons in Hnd as [Htok Hnd]. inversion Hl as [|? ? (claims & rs & Hs & Hc) Hl']; subst.
  cbn in *. apply IH; [|done|].
  - rewrite <- Hc. by apply (tracks_retoken T n k m tok (TOpen claims rs) (TInterrupted (tc_call_id claims))).
  - eapply Forall_impl; [apply Forall_and; split; [exact Hl'|apply Forall_forall; intros x Hx; exact Hx]|].
    intros [t' c'] ((cl & r & Hs' & Hc') & Hin). cbn in *. exists cl, r.
    rewrite lookup_insert_ne; [done|]. intros ->. apply Htok, list_elem_of_fmap.
    eexists. split; [|exact Hin]. done.
Qed.

(** *** The simulation *)

Definition execute (op : Op) := exec clock instant cancelled issue inner op.

Lemma stutter s s' m :
  view s' = view s -> tracked s m ->
  exists j m', journal s' = journal s ++ j /\ astep limit m j m' /\ tracked s' m'.
Proof.
  intros Hv Ht. exists [], m. split_and!; [|by apply AStutter|by eapply tracked_view].
  injection Hv as _ _ _ -> _. by rewrite app_nil_r.
Qed.

Lemma sim_prepare owner metadata s s' r m :
  tracked s m -> prepare clock instant cancelled issue inner owner metadata s = (s', r) ->
  exists j m', journal s' = journal s ++ j /\ astep limit m j m' /\ tracked s' m'.
Proof.
  intros Ht [[_ Hv]|[(e & _ & Hr)|(claims & _ & Ha & Hc & Hs)]]%prepare_cases.
  - by eapply stutter.
  - destruct Hr as (Ht' & Hn & Hi & Hg & Hj). eexists _, m. split; [exact Hj|]. split.
    + apply AStutter. by repeat constructor.
    + unfold tracked. by rewrite Ht', Hn, Hi.
  - destruct Hs as (Ht' & Hn & Hi & Hg & Hj). destruct Hc as (_ & Hcall & _).
    destruct (tracks_start _ _ _ _ claims Ht) as (Hm & Hl & Htr);
      [rewrite Hcall; apply Ha|apply Ha|].
    eexists _, _. split; [exact Hj|]. split; [apply AStart; cbn; [by rewrite <- Hcall|done]|].
    unfold tracked. rewrite Ht', Hn, Hi. cbn. rewrite <- Hcall. exact Htr.
Qed.

Lemma sim_close tok claims rs st' j s s' m m' :
  tracked s m -> token_states s !! tok = Some (TOpen claims rs) ->
  token_call_id st' = tc_call_id claims ->
  closed_by (<[tok := st']> (token_states s)) j s s' ->
  (m !! tc_call_id claims = Some Running -> astep limit m j m') ->
  m' = <[tc_call_id claims := phase st']> m ->
  exists j m', journal s' = journal s ++ j /\ astep limit m j m' /\ tracked s' m'.
Proof.
  intros Ht Hs Hc (Ht' & Hn & Hi & Hj) Ha ->. eexists _, _. split; [exact Hj|].
  pose proof (tracks_phase _ _ _ _ _ _ Ht Hs) as Hp. split; [by apply Ha|].
  unfold tracked. rewrite Ht', Hn, Hi. by apply (tracks_retoken _ _ _ _ _ (TOpen claims rs) st' Ht).
Qed.

Lemma sim_recover s s' r m :
  tracked s m -> recover_open_tokens s = (s', r) ->
  exists j m', journal s' = journal s ++ j /\ astep limit m j m' /\ tracked s' m'.
Proof.
  intros Ht. unfold recover_open_tokens, bind, get. cbn.
  destruct (interrupt_all _ _ _) as [s1 a] eqn:Ei.
  apply interrupt_all_cases in Ei as (j & (Ht' & Hn & Hi & Hj) & _ & Hint & _). cbn in *.
  intros Hs. assert (token_states s' = token_states s1 /\ call_count s' = call_count s1 /\
    issued s' = issued s1 /\ journal s' = journal s1) as (E1 & E2 & E3 & E4)
    by (destruct a; cbn in Hs; by injection Hs as <- <-).
  exists j, (cut_all (open_tokens (token_states s)).*2 m). split_and!; [by rewrite E4| |].
  - apply AInterrupt; [by eapply open_calls_NoDup| |done].
    apply Forall_forall. intros c ([tok c'] & -> & Hin)%list_elem_of_fmap.
    apply open_tokens_spec in Hin as (claims & rs & Hs' & <-).
    apply (tracks_phase _ _ _ _ _ _ Ht Hs').
  - unfold tracked. rewrite E1, E2, E3, Ht', Hn, Hi.
    apply tracks_interrupted; [done|apply open_tokens_NoDup|].
    apply Forall_forall. intros [tok c] Hin. by apply open_tokens_spec in Hin.
Qed.

Lemma sim_step op s s' a m :
  tracked s m -> execute op s = (s', a) ->
  exists j m', journal s' = journal s ++ j /\ astep limit m j m' /\ tracked s' m'.
Proof.
  intros Ht. destruct op; unfold execute, exec, answer.
  - destruct (prepare _ _ _ _ _ _ _ s) as [s1 r] eqn:E. intros [= <- <-]. by eapply sim_prepare.
  - destruct (commit _ _ _ _ _ _ s) as [s1 r0] eqn:E. intros [= <- <-].
    apply commit_cases in E as [Hv|(claims & rs & ok & Hs & Hc & _)]; [by eapply stutter|].
    eapply (sim_close _ claims rs (TCommitted (tc_call_id claims)) _ _ _ _ _ Ht Hs eq_refl Hc); [|done].
    intros Hr. by apply ACommit.
  - destruct (authorize _ _ _ _ _ _ s) as [s1 r] eqn:E. intros [= <- <-]. eapply stutter; [|done].
    change s1 with (fst (s1, r)). rewrite <- E. apply quiet_authorize.
  - destruct (register_resource _ _ s) as [s1 r] eqn:E. intros [= <- <-].
    unfold register_resource, bind, get in E. cbn in E.
    destruct (token_states s !! token) as [[claims rs|c|c]|] eqn:Hs;
      try (injection E as <- <-; by eapply stutter).
    injection E as <- <-.
    eapply (sim_close token claims rs (TOpen claims (rs ++ [resource])) [] _ _ _ m Ht Hs eq_refl).
    + unfold closed_by. cbn. by rewrite app_nil_r.
    + intros _. by apply AStutter.
    + symmetry. apply insert_id. by apply (tracks_phase _ _ _ _ _ _ Ht Hs).
  - destruct (recover_open_tokens s) as [s1 r] eqn:E. intros [= <- <-]. by eapply sim_recover.
  - destruct (drop_lease l s) as [s1 r] eqn:E. intros [= <- <-]. unfold drop_lease, catch in E.
    destruct (el_closed l); [injection E as <- <-; by eapply stutter|].
    destruct (interrupt_token (el_token l) s) as [s2 a] eqn:Ei.
    assert (s1 = s2) as -> by (destruct a; by injection E as <- _).
    apply interrupt_token_cases in Ei as [Hv|(claims & rs & ok & Hs & Hc & _)]; [by eapply stutter|].
    eapply (sim_close _ claims rs (TInterrupted (tc_call_id claims)) _ _ _ _ _ Ht Hs eq_refl Hc); [|done].
    intros Hr. apply (AInterrupt _ m [tc_call_id claims]);
      [by apply NoDup_singleton|by repeat constructor|]. exists [ok]. by split.
  - destruct (attest_approval _ _ _ _ _ s) as [s1 r] eqn:E. intros [= <- <-]. eapply stutter; [|done].
    change s1 with (fst (s1, r)). rewrite <- E. apply quiet_attest_approval.
  - destruct (replay_completed _ _ _ _ _ s) as [s1 r] eqn:E. intros [= <- <-]. eapply stutter; [|done].
    change s1 with (fst (s1, r)). rewrite <- E. apply quiet_replay_completed.
  - intros [= <- <-]. by eapply stutter.
Qed.

Definition execute_all (ops : list Op) := exec_all clock instant cancelled issue inner ops.

Lemma sim_run ops s s' answers m :
  tracked s m -> execute_all ops s = (s', answers) ->
  exists j m', journal s' = journal s ++ j /\ asteps limit m j m' /\ tracked s' m'.
Proof.
  unfold execute_all. revert s m answers. induction ops as [|op ops IH]; intros s m answers Ht; cbn.
  - intros [= <- <-]. exists [], m. rewrite app_nil_r. split_and!; [done|constructor|done].
  - destruct (exec _ _ _ _ _ op s) as [s1 a] eqn:E.
    destruct (exec_all _ _ _ _ _ ops s1) as [s2 rest] eqn:Er. intros [= <- <-].
    destruct (sim_step op s s1 a m Ht E) as (j1 & m1 & Hj1 & Ha & Ht1).
    destruct (IH _ _ _ Ht1 Er) as (j2 & m2 & Hj2 & Has & Ht2).
    exists (j1 ++ j2), m2. rewrite Hj2, Hj1, <- app_assoc. split_and!; [done|by eapply AThen|done].
Qed.

Lemma tracked_initial g w (ap : G) : tracked (mkEngine g 0 ∅ w ap 0 0 [] []) ∅.
Proof.
  split; cbn.
  - intros c p. rewrite lookup_empty. split; [done|]. intros (tok & st & Hs & _).
    by rewrite lookup_empty in Hs.
  - intros ???? Hs. by rewrite lookup_empty in Hs.
  - intros ?? Hs. by rewrite lookup_empty in Hs.
  - done.
  - done.
Qed.

(** ** Theorems *)

Lemma build_initial b s0 : build b = Ok (inner, s0) -> tracked s0 ∅ /\ journal s0 = [].
Proof.
  unfold build. intros Hb. repeat (case_match; try discriminate).
  injection Hb as Hin <-. split; [apply tracked_initial|done].
Qed.

(** C1. The engine refines the abstract machine: whatever operations run on a
    newly built engine, and whatever the durable side answers or others do to
    it, the durable calls made so far are a run of the machine, which reaches
    exactly the phases the token table records. *)
Theorem lifecycle_refines b s0 ops s' answers :
  build b = Ok (inner, s0) -> execute_all ops s0 = (s', answers) ->
  exists m, asteps limit ∅ (journal s') m /\ tracked s' m.
Proof.
  intros [Ht Hj]%build_initial He.
  destruct (sim_run ops s0 s' answers ∅ Ht He) as (j & m & Hj' & Ha & Ht').
  exists m. rewrite Hj', Hj. by split.
Qed.

(** An answered execution of a call. *)
Definition executes (c : string) (x : Op (W := W) * Answer) : bool :=
  match x with
  | (OPrepare _ metadata, APrepared (Ok (PrepareExecute _ _))) => str_eqb (pm_call_id metadata) c
  | _ => false
  end.

Lemma executes_started op s s' a c m :
  tracked s m -> execute op s = (s', a) ->
  exists j, journal s' = journal s ++ j /\ tally (executes c) [(op, a)] <= tally (starts c) j.
Proof.
  intros Ht He. destruct (sim_step op s s' a m Ht He) as (j & m' & Hj & _).
  exists j. split; [done|]. unfold tally. destruct op; try (cbn; lia).
  unfold execute, exec, answer in He. destruct (prepare _ _ _ _ _ _ _ s) as [s1 r] eqn:E.
  injection He as <- <-. cbn. destruct r as [[tok dl|res]|e]; try (cbn; lia).
  apply prepare_cases in E as [[Hne _]|[(e & He & _)|(claims & _ & _ & _ & Hs)]];
    [by destruct (Hne tok dl)|done|].
  destruct Hs as (_ & _ & _ & _ & Hj'). rewrite Hj in Hj'. apply app_inv_head in Hj'. subst j.
  cbn. destruct (str_eqb_spec (pm_call_id metadata) c); cbn; lia.
Qed.

Lemma executes_run ops s s' answers c m :
  tracked s m -> execute_all ops s = (s', answers) ->
  exists j, journal s' = journal s ++ j /\ tally (executes c) answers <= tally (starts c) j.
Proof.
  unfold execute_all. revert s m answers. induction ops as [|op ops IH]; intros s m answers Ht; cbn.
  - intros [= <- <-]. exists []. by rewrite app_nil_r.
  - destruct (exec _ _ _ _ _ op s) as [s1 a] eqn:E.
    destruct (exec_all _ _ _ _ _ ops s1) as [s2 rest] eqn:Er. intros [= <- <-].
    destruct (executes_started op s s1 a c m Ht E) as (j1 & Hj1 & Hle1).
    destruct (sim_step op s s1 a m Ht E) as (j0 & m1 & Hj0 & _ & Ht1).
    destruct (IH _ _ _ Ht1 Er) as (j2 & Hj2 & Hle2).
    exists (j1 ++ j2). rewrite Hj2, Hj1, <- app_assoc. split; [done|].
    change ((op, a) :: rest) with ([(op, a)] ++ rest). rewrite !tally_app. lia.
Qed.

(** C2. No tool call takes effect twice: over any sequence of operations a call
    is answered with at most one execution token and recorded as started at
    most once; it is closed, by a result or an interruption, at most once and
    only after its start; and no more calls start than the limit allows. *)
Theorem tool_call_at_most_once b s0 ops s' answers c :
  build b = Ok (inner, s0) -> execute_all ops s0 = (s', answers) ->
  tally (executes c) answers <= 1 /\
  tally (starts c) (journal s') <= 1 /\
  tally (closes c) (journal s') <= tally (starts c) (journal s') /\
  (Z.of_nat (tally any_start (journal s')) <= limit)%Z.
Proof.
  intros [Ht Hj]%build_initial He.
  destruct (sim_run ops s0 s' answers ∅ Ht He) as (j & m & Hj' & Ha & Ht').
  destruct (executes_run ops s0 s' answers c ∅ Ht He) as (j2 & Hj2 & Hle).
  rewrite Hj in Hj', Hj2. cbn in Hj', Hj2. rewrite <- Hj' in Ha. rewrite <- Hj2 in Hle.
  destruct (asteps_balance _ _ _ _ c Ha) as [Hs Hc]. destruct (asteps_size _ _ _ _ Ha) as [Hsz Hl].
  rewrite lookup_empty in Hs, Hc. cbn in Hs, Hc. rewrite map_size_empty in Hsz, Hl.
  unfold is_u64 in limit_u64. bool_to_prop.
  destruct (m !! c) as [[]|]; cbn in Hs, Hc; split_and!; try lia;
    rewrite <- Hsz; apply Hl; lia.
Qed.

(** A call is handed an execution token only when every check passed: the
    right owner and run, an active run with its durable parent and no result to
    replay, no token for the call yet, time left, no cancellation, the frozen
    registry, complete metadata within bounds and a free slot; and then the
    start is durably recorded before the token exists. *)
Theorem prepare_execute_checked owner metadata s s' tok dl :
  prepare clock instant cancelled issue inner owner metadata s = (s', Ok (PrepareExecute tok dl)) ->
  admitted owner metadata s /\ tok = issue (issued s) /\ dl = in_deadline_ms inner /\
  exists claims, claims_for metadata (generation s) claims /\
    started (record_of metadata (generation s)) claims s s'.
Proof.
  intros [[Hne _]|[(e & He & _)|(claims & Heq & Ha & Hc & Hs)]]%prepare_cases;
    [by destruct (Hne tok dl)|done|]. injection Heq as -> ->. split_and!; try done. by exists claims.
Qed.

(** A native effect is authorised only for an open token of this owner,
    before its deadline, while the run is not cancelled, in the engine's
    current generation, and for at most the risk that was approved; the check
    changes nothing. *)
Theorem authorize_safe owner tok requested (s s' : St) claims :
  authorize clock cancelled inner owner tok requested s = (s', Ok claims) ->
  owner = in_owner inner /\ tc_owner claims = owner /\
  (exists rs, token_states s !! tok = Some (TOpen claims rs)) /\
  cancelled (ticks s) = false /\ (clock (S (ticks s)) < tc_deadline_ms claims)%Z /\
  tc_generation claims = generation s /\
  risk_rank requested <= risk_rank (tc_risk_ceiling claims) /\
  view s' = view s.
Proof.
  intros Ha. assert (view s' = view s) as Hv.
  { change s' with (fst (s', @Ok TokenClaims LifecycleError claims)). rewrite <- Ha. apply quiet_authorize. }
  unfold authorize in Ha. lazy beta iota delta [bind refuse_if get lift ret fail] in Ha.
  destruct (owner_differs inner owner) eqn:Eo; [done|]. cbn [is_cancelled] in Ha.
  destruct (cancelled (ticks s)) eqn:Ec; [done|]. cbn [token_states tick] in Ha.
  destruct (open_claims tok (token_states s)) as [[cl rs]|] eqn:Ep; [|done].
  apply open_claims_Ok in Ep. cbn [fst] in Ha.
  destruct (negb _) eqn:E1; [done|]. cbn [now_ms] in Ha.
  destruct (_ <=? _)%Z eqn:E2; [done|]. cbn [generation tick ticks] in *.
  destruct (negb (_ =? _)%Z) eqn:E3; [done|]. destruct (risk_gtb _ _) eqn:E4; [done|].
  injection Ha as <- <-. unfold owner_differs, risk_gtb in *. bool_to_prop.
  split_and!; try done; try lia; eauto.
Qed.

Lemma mark_interrupted_lookup l T tok :
  NoDup l.*1 ->
  mark_interrupted T l !! tok =
  match (list_to_map l : gmap string string) !! tok with
  | Some c => Some (TInterrupted c)
  | None => T !! tok
  end.
Proof.
  revert T. induction l as [|[t c] l IH]; intros T Hnd; cbn; [by rewrite lookup_empty|].
  apply NoDup_cons in Hnd as [Ht Hnd]. unfold mark_interrupted in *. rewrite IH by done. cbn.
  destruct (decide (t = tok)) as [->|Hne].
  - rewrite not_elem_of_list_to_map_1 by done. by rewrite !lookup_insert_eq.
  - by rewrite !lookup_insert_ne.
Qed.

Lemma recovered_lookup T tok :
  mark_interrupted T (open_tokens T) !! tok =
  match T !! tok with
  | Some (TOpen claims _) => Some (TInterrupted (tc_call_id claims))
  | st => st
  end.
Proof.
  rewrite mark_interrupted_lookup by apply open_tokens_NoDup.
  destruct (list_to_map (open_tokens T) !! tok) as [c|] eqn:E.
  - apply elem_of_list_to_map in E; [|apply open_tokens_NoDup].
    apply open_tokens_spec in E as (claims & rs & -> & <-). done.
  - destruct (T !! tok) as [[claims rs|c|c]|] eqn:Hs; try done.
    apply not_elem_of_list_to_map in E. exfalso. apply E, list_elem_of_fmap.
    exists (tok, tc_call_id claims). split; [done|]. apply open_tokens_spec. eauto.
Qed.

(** Recovery interrupts every open token, leaves closed ones alone and
    releases exactly the resources the open tokens held, whether or not the
    durable interruptions succeed; when they do it reports the interrupted
    calls and moves to the next generation. *)
Theorem recover_closes_open_tokens (s s' : St) r :
  recover_open_tokens s = (s', r) ->
  (forall tok, token_states s' !! tok =
     match token_states s !! tok with
     | Some (TOpen claims _) => Some (TInterrupted (tc_call_id claims))
     | st => st
     end) /\
  resource_log s' = resource_log s ++
    map RRelease (concat (map (fun tc => resources_of (token_states s) (fst tc))
                            (open_tokens (token_states s)))) /\
  match r with
  | Ok recovered => recovered = (open_tokens (token_states s)).*2 /\
                    generation s' = wrap64 (generation s + 1)
  | Err _ => generation s' = generation s
  end.
Proof.
  unfold recover_open_tokens, bind, get, set_tokens, log_resources, ret, fetch_add_generation. cbn.
  assert (forall l d (s1 s2 : St) a, interrupt_all l d s1 = (s2, a) -> resource_log s2 = resource_log s1) as Hlog.
  { intros l. induction l as [|[t c] l IH]; intros d s1 s2 a; cbn; [by intros [= <- _]|].
    unfold bind, call. destruct (interrupt c (durable s1)) as [w [[]|e]]; cbn.
    - intros Hr%IH. exact Hr.
    - by intros [= <- _]. }
  destruct (interrupt_all _ _ _) as [s1 a] eqn:Ei. pose proof (Hlog _ _ _ _ _ Ei) as Hl.
  apply interrupt_all_cases in Ei as (j & (Ht & _) & Hg & _ & Hr). cbn in *.
  destruct a as [rec|e]; intros [= <- <-]; cbn; rewrite Ht, Hl;
    (split; [intros tok; apply recovered_lookup|]); (split; [done|]).
  - split; [by apply Hr|by rewrite Hg].
  - done.
Qed.

(** Closing is final: no operation reopens or otherwise changes a token
    that was committed or interrupted. *)
Theorem closed_tokens_are_final op s s' a m tok st :
  tracked s m -> execute op s = (s', a) ->
  token_states s !! tok = Some st -> is_open st = false ->
  token_states s' !! tok = Some st.
Proof.
  intros Ht He Hs Hst.
  assert (forall s1 : St, view s1 = view s -> token_states s1 !! tok = Some st) as Hview
    by (intros s1 Hv; by injection Hv as -> _ _ _ _).
  assert (forall t claims rs st', token_states s !! t = Some (TOpen claims rs) ->
    <[t := st']> (token_states s) !! tok = Some st) as Hother.
  { intros t claims rs st' Ho. rewrite lookup_insert_ne; [done|]. intros ->.
    rewrite Ho in Hs. injection Hs as <-. done. }
  destruct op; unfold execute, exec, answer in He.
  - destruct (prepare _ _ _ _ _ _ _ s) as [s1 r] eqn:E. injection He as <- <-.
    apply prepare_cases in E as [[_ Hv]|[(e & _ & Hr & _)|(claims & _ & _ & _ & Hr & _)]];
      [by apply Hview|by rewrite Hr|]. rewrite Hr. rewrite lookup_insert_ne; [done|].
    intros <-. apply (tr_issued _ _ _ _ Ht) in Hs as (i & Hi & Heq%issue_inj). lia.
  - destruct (commit _ _ _ _ _ _ s) as [s1 r0] eqn:E. injection He as <- <-.
    apply commit_cases in E as [Hv|(claims & rs & ok & Ho & (Hc & _) & _)]; [by apply Hview|].
    rewrite Hc. by eapply Hother.
  - destruct (authorize _ _ _ _ _ _ s) as [s1 r] eqn:E. injection He as <- <-. apply Hview.
    change s1 with (fst (s1, r)). rewrite <- E. apply quiet_authorize.
  - unfold register_resource, bind, get, set_tokens, log_resources, fail in He. cbn in He.
    destruct (token_states s !! token) as [[claims rs|c|c]|] eqn:Ho; injection He as <- <-; try done.
    by eapply Hother.
  - destruct (recover_open_tokens s) as [s1 r] eqn:E. injection He as <- <-.
    unfold recover_open_tokens, bind, get, set_tokens, log_resources in E. cbn in E.
    destruct (interrupt_all _ _ _) as [s2 b] eqn:Ei.
    apply interrupt_all_cases in Ei as (j & (Ht' & _) & _). cbn in Ht'.
    assert (token_states s1 = token_states s2) as -> by (destruct b; cbn in E; by injection E as <- _).
    rewrite Ht', recovered_lookup, Hs. by destruct st.
  - destruct (drop_lease l s) as [s1 r] eqn:E. injection He as <- <-. unfold drop_lease, catch in E.
    destruct (el_closed l); [by injection E as <- _|].
    destruct (interrupt_token (el_token l) s) as [s2 b] eqn:Ei.
    assert (s1 = s2) as -> by (destruct b; by injection E as <- _).
    apply interrupt_token_cases in Ei as [Hv|(claims & rs & ok & Ho & (Hc & _) & _)]; [by apply Hview|].
    rewrite Hc. by eapply Hother.
  - destruct (attest_approval _ _ _ _ _ s) as [s1 r] eqn:E. injection He as <- <-. apply Hview.
    change s1 with (fst (s1, r)). rewrite <- E. apply quiet_attest_approval.
  - destruct (replay_completed _ _ _ _ _ s) as [s1 r] eqn:E. injection He as <- <-. apply Hview.
    change s1 with (fst (s1, r)). rewrite <- E. apply quiet_replay_completed.
  - by injection He as <- <-.
Qed.

End refinement.

(** ** Canonical results *)

Definition field_is (p : Json -> bool) (k : string) (object : list (string * Json)) : Prop :=
  exists v, obj_get k object = Some v /\ p v = true.
Definition absent_or (p : Json -> bool) (k : string) (object : list (string * Json)) : Prop :=
  forall v, obj_get k object = Some v -> p v = true.
Definition strings_only (j : Json) : bool :=
  match j with JArray items => forallb is_string items | _ => false end.
Definition nonempty_string (j : Json) : bool :=
  match j with JString t => negb (is_empty t) | _ => false end.

(** The shape of a tool result, stated without the order of the checks. *)
Definition canonical (r : Json) : Prop :=
  exists object, r = JObject object /\
  ((obj_get "ok" object = Some (JBool true) /\ field_is is_string "content" object) \/
   (obj_get "ok" object = Some (JBool false) /\
    (exists error, obj_get "error" object = Some (JObject error) /\
       field_is nonempty_string "code" error /\ absent_or is_string "message" error) /\
    absent_or is_string "content" object)) /\
  absent_or is_boolean "truncated" object /\ absent_or is_object "data" object /\
  absent_or strings_only "artifacts" object.

Lemma optional_field_Ok object k p message :
  optional_field object k p message = Ok tt <-> absent_or p k object.
Proof.
  unfold optional_field, absent_or. destruct (obj_get k object) as [v|]; [|by split].
  destruct (p v) eqn:E; split; try done.
  - intros _ v' [= <-]. done.
  - intros Hv. specialize (Hv v eq_refl). congruence.
Qed.

Lemma optional_result_fields_Ok object :
  validate_optional_result_fields object = Ok tt <->
  absent_or is_boolean "truncated" object /\ absent_or is_object "data" object /\
  absent_or strings_only "artifacts" object.
Proof.
  unfold validate_optional_result_fields.
  rewrite <- (optional_field_Ok object "truncated" is_boolean "`truncated` must be a boolean").
  rewrite <- (optional_field_Ok object "data" is_object "`data` must be a map").
  destruct (optional_field object "truncated" _ _) as [[]|]; [|naive_solver].
  destruct (optional_field object "data" _ _) as [[]|]; [|naive_solver].
  unfold absent_or. destruct (obj_get "artifacts" object) as [v|]; [|naive_solver].
  assert (forall items, existsb (fun item => negb (is_string item)) items = negb (forallb is_string items)) as Hneg.
  { intros items. induction items as [|x l IH]; [done|]. cbn. rewrite IH. by destruct (is_string x). }
  destruct v; cbn [strings_only]; try (split; [done|intros (_ & _ & Hv); by specialize (Hv _ eq_refl)]).
  rewrite Hneg. destruct (forallb is_string l) eqn:E; cbn.
  - split; [|done]. intros _. split_and!; try done. by intros v [= <-].
  - split; [done|]. intros (_ & _ & Hv). specialize (Hv _ eq_refl). cbn in Hv. congruence.
Qed.

(** The failure branch. *)
Lemma failure_fields_Ok object :
  (let error := obj_get "error" object ≫= as_object in
   let? _ := match error ≫= obj_get "code" with
             | Some (JString code) =>
                 if is_empty code
                 then Err (InvalidMetadata "failure result requires string `error.code`")
                 else Ok tt
             | _ => Err (InvalidMetadata "failure result requires string `error.code`")
             end in
   let? _ := match error with
             | Some error => optional_field error "message" is_string "`error.message` must be a string"
             | None => Ok tt
             end in
   optional_field object "content" is_string "failure `content` must be a string") = Ok tt <->
  (exists error, obj_get "error" object = Some (JObject error) /\
     field_is nonempty_string "code" error /\ absent_or is_string "message" error) /\
  absent_or is_string "content" object.
Proof.
  rewrite <- (optional_field_Ok object "content" is_string "failure `content` must be a string").
  generalize (optional_field object "content" is_string "failure `content` must be a string").
  intros content. destruct (obj_get "error" object) as [[| | | | |error]|]; cbn;
    try (split; [done|intros ((e & [=] & _) & _)]).
  pose proof (optional_field_Ok error "message" is_string "`error.message` must be a string") as Hm.
  unfold field_is. destruct (obj_get "code" error) as [v|] eqn:Ev.
  2: { split; [done|]. intros ((e & [= <-] & (v & Hv & _) & _) & _). congruence. }
  assert (nonempty_string v = true <-> exists code, v = JString code /\ is_empty code = false) as Hv.
  { destruct v; cbn; try (split; [done|intros (c & [=] & _)]). rewrite negb_true_iff. split; [eauto|].
    by intros (c & [= <-] & ?). }
  split.
  - intros Hc. destruct v as [| | |code| |]; try done. destruct (is_empty code) eqn:Ec; [done|].
    destruct (optional_field error _ _ _) as [[]|]; [|done]. split; [|done].
    exists error. split_and!; [done| |by apply Hm]. exists (JString code). split; [done|]. apply Hv. eauto.
  - intros ((e & [= <-] & (v' & [= <-]%(eq_trans (eq_sym Ev)) & Hne) & Hmsg%Hm) & ->).
    apply Hv in Hne as (code & -> & ->). by rewrite Hmsg.
Qed.

(** A result is accepted at commit exactly when it is canonical: a success
    with string content, or a failure with a non-empty error code and no
    mistyped message or content, and optional fields of their types. *)
Theorem validate_canonical_result_spec r :
  validate_canonical_result r = Ok tt <-> canonical r.
Proof.
  unfold validate_canonical_result, canonical, ok_or.
  destruct r as [| | | | |object]; cbn [as_object]; try (split; [done|]; intros (o & [=] & _)).
  assert (forall P : list (string * Json) -> Prop,
    (exists o, JObject object = JObject o /\ P o) <-> P object) as Hex.
  { intros P. split; [by intros (o & [= <-] & ?)|by exists object]. }
  rewrite Hex. clear Hex. rewrite <- optional_result_fields_Ok.
  generalize (validate_optional_result_fields object). intros rest.
  pose proof (failure_fields_Ok object) as Hf. cbv zeta in Hf.
  destruct (obj_get "ok" object) as [[|[]| | | |]|];
    try (split; [done|intros ([([=] & _)|([=] & _)] & _)]).
  - clear Hf. unfold field_is. destruct (obj_get "content" object) as [v|].
    + destruct v; try (split; [done|intros ([(_ & v & [= <-] & [=])|([=] & _)] & _)]).
      split; [|by intros (_ & ->)]. intros ->. split; [left|done]. eauto.
    + split; [done|]. intros ([(_ & v & [=] & _)|([=] & _)] & _).
  - match type of Hf with ?l = Ok tt <-> _ => destruct l as [[]|] end.
    + split; [|by intros (_ & ->)]. intros ->. split; [right|done]. split; [done|by apply Hf].
    + split; [done|]. intros ([([=] & _)|(_ & Hq)] & _). by apply Hf in Hq.
Qed.

(** ** Example: an engine whose durable side accepts everything *)
Module LifecycleExample.
#[local] Existing Instance CompactText.compact_text.

#[local] Instance accepting : DurableToolLifecycle (list string) := {|
  assert_active_run _ _ := Ok tt;
  prepare_parent _ _ _ _ := Ok tt;
  replay_result _ _ _ _ := Ok None;
  commit_started record w := (w ++ [ds_call_id record], Ok tt);
  commit_result _ r w := (w, Ok r);
  interrupt _ w := (w, Ok tt) |}.

Definition clock0 (n : nat) : Z := Z.of_nat n.
Definition never (_ : nat) : bool := false.
Definition ids (n : nat) : string := pretty (N.of_nat n).

Lemma ids_inj i j : ids i = ids j -> i = j.
Proof. intros E. apply Nat2N.inj. by apply (inj pretty). Qed.

Definition owner0 : CapabilityOwner := Guardian.sample_owner.

Definition builder0 : Builder (W := list string) (G := unit) := {|
  b_owner := Some owner0; b_registry_identity := Some "reg"; b_workspace := Some "/w";
  b_limits := Some {| max_tool_calls := 2; max_output_bytes := 1000; max_summary_bytes := 100 |};
  b_deadline_ms := Some 1000%Z; b_clock := true; b_tokens := true; b_durable := Some [];
  b_approval := Some tt; b_generation := 1 |}.

Definition inner0 : Inner := {|
  in_owner := owner0; in_registry_identity := "reg"; in_workspace := "/w";
  in_limits := {| max_tool_calls := 2; max_output_bytes := 1000; max_summary_bytes := 100 |};
  in_deadline_ms := 1000 |}.

Definition engine0 : Engine (list string) unit := mkEngine 1 0 ∅ [] tt 0 0 [] [].

Definition result0 : Json := jobj [("ok", JBool true); ("content", JString "done")].

(** Prepare, prepare again, commit, commit again, recover. *)
Definition script : list (Op (W := list string)) :=
  [OPrepare owner0 Guardian.sample_metadata; OPrepare owner0 Guardian.sample_metadata;
   OAuthorize owner0 (ids 0) Read; OCommit owner0 (ids 0) result0;
   OCommit owner0 (ids 0) result0; ORecover].

Definition run0 := execute_all clock0 clock0 never ids inner0 script engine0.

Lemma lifecycle_refines_witness :
  exists m, asteps 2 ∅ (journal (fst run0)) m /\ m !! "c1" = Some Done.
Proof.
  destruct (lifecycle_refines clock0 clock0 never ids inner0 ids_inj eq_refl builder0 engine0 script
              (fst run0) (snd run0) eq_refl (surjective_pairing run0)) as (m & Ha & Ht).
  exists m. split; [exact Ha|].
  apply (tr_calls _ _ _ _ _ Ht). exists (ids 0), (TCommitted "c1"). by vm_compute.
Defined.

Lemma tool_call_at_most_once_witness :
  tally (executes "c1") (snd run0) <= 1 /\ tally (starts "c1") (journal (fst run0)) = 1.
Proof.
  split; [|by vm_compute].
  apply (tool_call_at_most_once clock0 clock0 never ids inner0 ids_inj eq_refl builder0 engine0 script
           (fst run0) (snd run0) "c1" eq_refl). apply (surjective_pairing run0).
Defined.

Definition prepared0 := prepare clock0 clock0 never ids inner0 owner0 Guardian.sample_metadata engine0.

Lemma prepare_execute_checked_witness :
  admitted clock0 never inner0 owner0 Guardian.sample_metadata engine0.
Proof.
  apply (prepare_execute_checked clock0 clock0 never ids inner0 owner0 Guardian.sample_metadata
           engine0 (fst prepared0) (ids 0) 1000). by vm_compute.
Defined.

Definition claims0 : TokenClaims := {|
  tc_owner := owner0; tc_call_id := "c1"; tc_tool_name := "write_file"; tc_argument_digest := "d";
  tc_registry_identity := "reg"; tc_risk_ceiling := Write; tc_output_budget := 1000;
  tc_generation := 1; tc_deadline := 996000005; tc_deadline_ms := 1000; tc_workspace := "/w" |}.

Lemma authorize_safe_witness :
  exists rs, token_states (fst prepared0) !! ids 0 = Some (TOpen claims0 rs).
Proof.
  destruct (authorize_safe clock0 never inner0 owner0 (ids 0) Read (fst prepared0)
    (fst (authorize clock0 never inner0 owner0 (ids 0) Read (fst prepared0))) claims0
    ltac:(by vm_compute)) as (_ & _ & Hs & _). exact Hs.
Defined.

Lemma recover_closes_open_tokens_witness :
  token_states (fst (recover_open_tokens (fst prepared0))) !! ids 0 = Some (TInterrupted "c1").
Proof.
  destruct (recover_closes_open_tokens (fst prepared0) (fst (recover_open_tokens (fst prepared0)))
    (snd (recover_open_tokens (fst prepared0))) (surjective_pairing _)) as (Ht & _).
  rewrite (Ht (ids 0)). by vm_compute.
Defined.

Definition prepare_commit : list (Op (W := list string)) :=
  [OPrepare owner0 Guardian.sample_metadata; OCommit owner0 (ids 0) result0].
Definition committed0 := execute_all clock0 clock0 never ids inner0 prepare_commit engine0.
Definition recovered0 := execute clock0 clock0 never ids inner0 ORecover (fst committed0).

Lemma closed_tokens_are_final_witness : token_states (fst recovered0) !! ids 0 = Some (TCommitted "c1").
Proof.
  destruct (sim_run clock0 clock0 never ids inner0 ids_inj eq_refl prepare_commit engine0
    (fst committed0) (snd committed0) ∅ (tracked_initial ids 1 [] tt) (surjective_pairing committed0))
    as (j & m & _ & _ & Ht).
  apply (closed_tokens_are_final clock0 clock0 never ids inner0 ids_inj ORecover (fst committed0)
    (fst recovered0) (snd recovered0) m (ids 0) (TCommitted "c1") Ht (surjective_pairing recovered0)).
  - by vm_compute.
  - reflexivity.
Defined.

End LifecycleExample.
