(* ===== verification/EngineSteps.v ===== *)
(** What one step of the lifecycle engine may do to tokens and resources.

    Every operation is summed up in one relation ([steps_to]): the journal and
    the resource log grow, an open token stays open with what it holds or is
    closed with everything it held accounted for, a closed token stays as it
    is, and only held resources are released or rolled back. *)
From stdpp Require Import base list strings gmap.
From S2P Require Import Prelude Utf8 Json Capability Lifecycle LifecycleSpec.

(** ** What an engine step may do to tokens and resources *)
Module EngineSteps.

Section steps.
Context {W G : Type} `{DurableToolLifecycle W} `{ApprovalGate G} `{JsonText}.
Context (clock : nat -> Z) (instant : nat -> Z) (cancelled : nat -> bool) (issue : nat -> string).
Context (frozen : Inner).
Hypothesis issue_inj : forall i j, issue i = issue j -> i = j.
Abbreviation St := (Engine W G).

(** *** Computations that ask nothing of resources *)

Definition mute {A} (m : M (W := W) (G := G) A) : Prop := forall s, resource_log (fst (m s)) = resource_log s.

Lemma mute_bind {A B} (m : M A) (k : A -> M B) : mute m -> (forall a, mute (k a)) -> mute (bind m k).
Proof.
  intros Hm Hk s. specialize (Hm s). unfold bind. destruct (m s) as [s1 [a|e]]; cbn in *; [|done]. by rewrite Hk.
Qed.
Lemma mute_ret {A} (a : A) : mute (ret a).
Proof. done. Qed.
Lemma mute_refuse b e : mute (refuse_if b e).
Proof. by destruct b. Qed.
Lemma mute_plain {A} (f : St -> A) (g : W -> result A LifecycleError) (r : result A LifecycleError) :
  mute (get f) /\ mute (ask g) /\ mute (lift r) /\ forall e, mute (@fail W G A e).
Proof. done. Qed.
Lemma mute_gate m g n c : mute (authorize_gate m g n c).
Proof. intros s. unfold authorize_gate. by destruct (gate_authorize_at _ _ _ _ _). Qed.
Lemma mute_attest o m g n d c1 c2 : mute (attest_gate o m g n d c1 c2).
Proof. intros s. unfold attest_gate. by destruct (gate_attest _ _ _ _ _ _ _ _). Qed.
Lemma mute_call {A} (f : W -> W * result A LifecycleError) e : mute (call f e).
Proof. intros s. unfold call. by destruct (f _). Qed.

Ltac muting := repeat first
  [ apply mute_bind; [|intros] | apply mute_refuse | apply mute_gate | apply mute_attest | apply mute_call
  | case_match | (intros ?; reflexivity) ].

Lemma mute_authorize owner tok risk : mute (authorize clock cancelled frozen owner tok risk).
Proof. unfold authorize. muting. Qed.
Lemma mute_attest_approval owner metadata : mute (attest_approval clock cancelled frozen owner metadata).
Proof. unfold attest_approval, validate_approval_facts. muting. Qed.
Lemma mute_replay owner metadata : mute (replay_completed clock cancelled frozen owner metadata).
Proof. unfold replay_completed, validate_approval_facts. muting. Qed.
Lemma mute_prepare owner metadata : mute (prepare clock instant cancelled issue frozen owner metadata).
Proof. unfold prepare, admission_checks, start_call. muting. Qed.

(** *** Steps *)

(** A token that was open is open, with what it held; or committed, durably or
    with everything it held rolled back; or interrupted, with everything it
    held released.  A closed one does not change. *)
Definition moves (j : list DurableCall) (L : list ResourceCall) (st st' : TokenState) : Prop :=
  match st with
  | TOpen claims held =>
      (exists held', st' = TOpen claims held' /\ held ⊆ held') \/
      (st' = TCommitted (tc_call_id claims) /\
         (JResult (tc_call_id claims) true ∈ j \/ forall r, r ∈ held -> RRollback r ∈ L)) \/
      (st' = TInterrupted (tc_call_id claims) /\ forall r, r ∈ held -> RRelease r ∈ L)
  | _ => st' = st
  end.

Definition held_by (s : St) (tok : string) (r : Resource) : Prop :=
  exists claims held, token_states s !! tok = Some (TOpen claims held) /\ r ∈ held.

(** [extra] are the resources being registered. *)
Record steps_to (extra : list Resource) (s s' : St) : Prop := {
  st_journal : exists j, journal s' = journal s ++ j;
  st_log : exists L, resource_log s' = resource_log s ++ L /\
    (forall x, x ∈ L -> resource_of x ∈ extra \/ exists tok, held_by s tok (resource_of x)) /\
    forall tok st, token_states s !! tok = Some st ->
      exists st', token_states s' !! tok = Some st' /\ moves (journal s') L st st';
  st_held tok r : held_by s' tok r -> r ∈ extra \/ held_by s tok r
}.

Lemma moves_refl j L st : moves j L st st.
Proof. destruct st; simpl; eauto. Qed.

Lemma still extra (s s' : St) : view s' = view s -> (exists L, resource_log s' = resource_log s ++ L /\
    forall x, x ∈ L -> resource_of x ∈ extra \/ exists tok, held_by s tok (resource_of x)) ->
  steps_to extra s s'.
Proof.
  intros [= Ht _ _ Hj _] (L & HL & Hx). constructor.
  - exists []. by rewrite app_nil_r.
  - exists L. split_and!; [done|done|]. intros tok st Hst. exists st. rewrite Ht. eauto using moves_refl.
  - unfold held_by. rewrite Ht. eauto.
Qed.

Lemma mute_still (extra : list Resource) (s s' : St) : view s' = view s -> resource_log s' = resource_log s -> steps_to extra s s'.
Proof.
  intros Hv Hl. apply still; [done|]. exists []. rewrite app_nil_r. split; [done|]. intros x Hx. by apply elem_of_nil in Hx.
Qed.

(** One open token changes, the others do not. *)
Lemma retoken extra (s s' : St) tok claims held st' j L :
  token_states s !! tok = Some (TOpen claims held) -> token_states s' = <[tok := st']> (token_states s) ->
  journal s' = journal s ++ j -> resource_log s' = resource_log s ++ L ->
  (forall x, x ∈ L -> resource_of x ∈ extra \/ resource_of x ∈ held) ->
  moves (journal s') L (TOpen claims held) st' ->
  (forall claims' held' r, st' = TOpen claims' held' -> r ∈ held' -> r ∈ extra \/ r ∈ held) ->
  steps_to extra s s'.
Proof.
  intros Ho Ht Hj HL Hx Hm Hh. constructor; [by eexists| |].
  - exists L. split_and!; [done| |].
    + intros x [Y|Y]%Hx; [by left|right]. exists tok, claims, held. done.
    + intros t st Hst. rewrite Ht. destruct (decide (t = tok)) as [->|Hne].
      * rewrite Ho in Hst. injection Hst as <-. exists st'. by rewrite lookup_insert_eq.
      * exists st. rewrite lookup_insert_ne by done. eauto using moves_refl.
  - intros t r (c & h & Hl & Hr). rewrite Ht in Hl. destruct (decide (t = tok)) as [->|Hne].
    + rewrite lookup_insert_eq in Hl. injection Hl as ->. destruct (Hh _ _ _ eq_refl Hr) as [|]; [by left|right].
      by exists claims, held.
    + rewrite lookup_insert_ne in Hl by done. right. by exists c, h.
Qed.

(** *** Each operation *)

Lemma elem_of_concat {A} (x : A) ls : x ∈ concat ls <-> exists l, x ∈ l /\ l ∈ ls.
Proof. rewrite list_elem_of_In, in_concat. setoid_rewrite list_elem_of_In. naive_solver. Qed.

Lemma rolled_back (held : list Resource) x : x ∈ map RRollback held -> resource_of x ∈ held.
Proof. by intros (r & -> & ?)%list_elem_of_fmap. Qed.
Lemma released (held : list Resource) x : x ∈ map RRelease held -> resource_of x ∈ held.
Proof. by intros (r & -> & ?)%list_elem_of_fmap. Qed.

Lemma commit_inner_log owner tok r (s s' : St) a :
  commit_inner clock cancelled frozen owner tok r s = (s', a) ->
  (view s' = view s /\ resource_log s' = resource_log s) \/
  exists claims held ok, token_states s !! tok = Some (TOpen claims held) /\
    token_states s' = <[tok := TCommitted (tc_call_id claims)]> (token_states s) /\
    journal s' = journal s ++ [JResult (tc_call_id claims) ok] /\
    resource_log s' = resource_log s ++ (if ok : bool then [] else map RRollback held).
Proof.
  unfold commit_inner. intros Hs. lazy beta iota delta [bind refuse_if get lift ret fail] in Hs.
  destruct (owner_differs frozen owner); [injection Hs as <- <-; by left|].
  destruct (open_claims tok (token_states s)) as [[claims rs]|] eqn:Eo; [|injection Hs as <- <-; by left].
  apply open_claims_Ok in Eo. cbn [fst snd] in Hs.
  destruct (negb _); [injection Hs as <- <-; by left|].
  destruct (_ <? _)%Z; [injection Hs as <- <-; by left|]. cbn [now_ms] in Hs.
  destruct (_ <=? _)%Z; [injection Hs as <- <-; by left|]. cbn [is_cancelled] in Hs.
  destruct (cancelled _); [injection Hs as <- <-; by left|].
  destruct (validate_canonical_result r); [|injection Hs as <- <-; by left].
  right. exists claims, rs. cbn [set_tokens] in Hs. unfold catch, call in Hs. cbn in Hs.
  rewrite insert_delete_eq in Hs.
  destruct (commit_result _ _ _) as [w [v|e]]; cbn in Hs; injection Hs as <- <-; [exists true|exists false];
    (split; [exact Eo|]); cbn; by rewrite ?app_nil_r.
Qed.

Lemma commit_steps owner tok r (s s' : St) a : commit clock cancelled frozen owner tok r s = (s', a) -> steps_to [] s s'.
Proof.
  unfold commit, catch. destruct (commit_inner _ _ _ _ _ _ s) as [s1 b] eqn:Ec. intros Hs.
  apply commit_inner_log in Ec as [[Hv Hl]|(claims & held & ok & Ho & Ht & Hj & Hl)].
  - assert (view s' = view s1 /\ exists L, resource_log s' = resource_log s1 ++ L /\
      forall x, x ∈ L -> exists t, held_by s1 t (resource_of x)) as (Hv' & L & HL & Hx).
    { destruct b as [|e]; [injection Hs as <- <-; split; [done|]; exists []; rewrite app_nil_r; split; [done|]; by intros x Hx%elem_of_nil|].
      unfold bind, rollback_unpublished, bind, get, log_resources, ret, fail in Hs.
      destruct (should_rollback_unpublished e); [destruct (token_states s1 !! tok) as [[c h|?|?]|] eqn:Et|];
        injection Hs as <- <-; (split; [done|]); cbn;
        try by (exists []; rewrite app_nil_r; split; [done|]; intros x Hx%elem_of_nil).
      eexists. split; [done|]. intros x Hx%rolled_back. exists tok, c, h. done. }
    apply still; [congruence|]. exists L. rewrite <- Hl. split; [done|]. intros x (t & Ht)%Hx. right. exists t.
    unfold held_by in *. by injection Hv as <-.
  - assert (token_states s' = token_states s1 /\ journal s' = journal s1 /\ resource_log s' = resource_log s1) as (E1 & E2 & E3).
    { destruct b as [|e]; [by injection Hs as <- <-|].
      unfold bind, rollback_unpublished, bind, get, log_resources, ret, fail in Hs.
      destruct (should_rollback_unpublished e); [rewrite Ht, lookup_insert_eq in Hs|]; by injection Hs as <- <-. }
    rewrite <- E1 in Ht. rewrite <- E2 in Hj. rewrite <- E3 in Hl.
    eapply retoken; [exact Ho|exact Ht|exact Hj|exact Hl| | |done].
    + intros x Hx. right. destruct ok; [by apply elem_of_nil in Hx|by apply rolled_back].
    + simpl. right. left. split; [done|]. destruct ok.
      * left. rewrite Hj. apply elem_of_app. right. by apply list_elem_of_singleton.
      * right. intros r' Hr. apply list_elem_of_fmap. eauto.
Qed.

Lemma interrupt_steps tok (s s' : St) a : interrupt_token tok s = (s', a) -> steps_to [] s s'.
Proof.
  unfold interrupt_token, bind, get. cbn.
  destruct (token_states s !! tok) as [[claims held|c|c]|] eqn:E; try (intros [= <- <-]; by apply mute_still).
  unfold call, log_resources, set_tokens. cbn. destruct (interrupt _ _) as [w r]. intros [= <- <-].
  eapply (retoken _ _ _ tok claims held (TInterrupted (tc_call_id claims))); [done|done|done|done| | |done].
  - intros x Hx. right. by apply released.
  - simpl. right. right. split; [done|]. intros r' Hr. apply list_elem_of_fmap. eauto.
Qed.

Lemma register_steps tok r (s s' : St) a : register_resource tok r s = (s', a) -> steps_to [r] s s'.
Proof.
  unfold register_resource, bind, get, log_resources, set_tokens, fail. cbn.
  destruct (token_states s !! tok) as [[claims held|c|c]|] eqn:E; intros [= <- <-]; cbn.
  - eapply (retoken _ _ _ tok claims held _ [] []); cbn; [done|done|by rewrite app_nil_r|by rewrite app_nil_r| | |].
    + by intros x Hx%elem_of_nil.
    + left. exists (held ++ [r]). split; [done|]. intros y Hy. apply elem_of_app. by left.
    + intros ? ? r' [= <- <-] [?|?]%elem_of_app; [by right|by left].
  - by apply mute_still.
  - apply still; [done|]. eexists. split; [done|]. intros x ->%list_elem_of_singleton. left. by apply list_elem_of_singleton.
  - apply still; [done|]. eexists. split; [done|]. intros x ->%list_elem_of_singleton. left. by apply list_elem_of_singleton.
Qed.

Lemma recover_steps (s s' : St) a : recover_open_tokens s = (s', a) -> steps_to [] s s'.
Proof.
  intros Hr. pose proof Hr as Hr'. apply recover_closes_open_tokens in Hr' as (Ht & Hl & _).
  assert (exists j, journal s' = journal s ++ j) as Hj.
  { unfold recover_open_tokens, bind, get, set_tokens, log_resources in Hr. cbn in Hr.
    destruct (interrupt_all _ _ _) as [s1 b] eqn:Ei. apply interrupt_all_cases in Ei as (j & (_ & _ & _ & Hj) & _).
    exists j. destruct b; cbn in Hr; by injection Hr as <- _. }
  assert (forall tok r, held_by s tok r <-> exists c, (tok, c) ∈ open_tokens (token_states s) /\ r ∈ resources_of (token_states s) tok) as Hh.
  { intros tok r. unfold held_by, resources_of. split.
    - intros (c & h & Ho & Hr'). exists (tc_call_id c). rewrite Ho. split; [|done]. apply open_tokens_spec. eauto.
    - intros (c & (cl & rs & Ho & _)%open_tokens_spec & Hr'). rewrite Ho in Hr'. by exists cl, rs. }
  constructor; [exact Hj| |].
  - eexists. split_and!; [exact Hl| |].
    + intros x (rs & Hx & ((tok & c) & -> & Hin)%list_elem_of_fmap)%released%elem_of_concat. right. exists tok.
      apply Hh. by exists c.
    + intros tok st Hst. exists (match st with TOpen claims _ => TInterrupted (tc_call_id claims) | _ => st end).
      rewrite Ht, Hst. destruct st as [claims held|c|c]; [|done..]. split; [done|]. simpl. right. right.
      split; [done|]. intros r Hr'. apply list_elem_of_fmap. exists r. split; [done|]. apply elem_of_concat.
      exists (resources_of (token_states s) tok). unfold resources_of at 1. rewrite Hst. split; [done|].
      apply list_elem_of_fmap. exists (tok, tc_call_id claims). split; [done|]. apply open_tokens_spec. eauto.
  - intros tok r (c & h & Ho & _). rewrite Ht in Ho. destruct (token_states s !! tok) as [[]|]; done.
Qed.

Lemma prepare_steps owner metadata (s s' : St) r m :
  tracked issue s m -> prepare clock instant cancelled issue frozen owner metadata s = (s', r) -> steps_to [] s s'.
Proof.
  intros Htr Hp. assert (resource_log s' = resource_log s) as Hl.
  { change s' with (fst (s', r)). rewrite <- Hp. apply mute_prepare. }
  apply prepare_cases in Hp as [[_ Hv]|[(e & _ & Ht & _ & _ & _ & Hj)|(claims & _ & _ & _ & Ht & _ & _ & _ & Hj)]].
  - by apply mute_still.
  - constructor; [by eexists| |unfold held_by; rewrite Ht; eauto].
    exists []. rewrite app_nil_r. split_and!; [done|by intros x Hx%elem_of_nil|].
    intros tok st Hst. exists st. rewrite Ht. eauto using moves_refl.
  - assert (token_states s !! issue (issued s) = None) as Hf.
    { destruct (token_states s !! issue (issued s)) as [st|] eqn:E; [|done].
      apply (tr_issued _ _ _ _ _ Htr) in E as (i & Hi & Heq%issue_inj). lia. }
    constructor; [by eexists| |].
    + exists []. rewrite app_nil_r. split_and!; [done|by intros x Hx%elem_of_nil|].
      intros tok st Hst. exists st. rewrite Ht, lookup_insert_ne by congruence. eauto using moves_refl.
    + intros tok r' (c & h & Ho & Hr). right. rewrite Ht in Ho. destruct (decide (tok = issue (issued s))) as [->|].
      * rewrite lookup_insert_eq in Ho. injection Ho as <- <-. by apply elem_of_nil in Hr.
      * rewrite lookup_insert_ne in Ho by done. by exists c, h.
Qed.

Definition registers (op : Op (W := W)) : list Resource := match op with ORegister _ r => [r] | _ => [] end.

Lemma exec_steps op (s s' : St) a m :
  tracked issue s m -> exec clock instant cancelled issue frozen op s = (s', a) -> steps_to (registers op) s s'.
Proof.
  intros Htr. destruct op; unfold exec, answer; simpl.
  - destruct (prepare _ _ _ _ _ _ _ s) as [s1 r] eqn:E. intros [= <- <-]. by eapply prepare_steps.
  - destruct (commit _ _ _ _ _ _ s) as [s1 r0] eqn:E. intros [= <- <-]. by eapply commit_steps.
  - destruct (authorize _ _ _ _ _ _ s) as [s1 r] eqn:E. intros [= <- <-]. replace s1 with (fst (s1, r)) by done.
    rewrite <- E. apply mute_still; [apply quiet_authorize|apply mute_authorize].
  - destruct (register_resource _ _ s) as [s1 r] eqn:E. intros [= <- <-]. by eapply register_steps.
  - destruct (recover_open_tokens s) as [s1 r] eqn:E. intros [= <- <-]. by eapply recover_steps.
  - unfold drop_lease, catch. destruct (el_closed l); [intros [= <- <-]; by apply mute_still|].
    destruct (interrupt_token (el_token l) s) as [s2 b] eqn:E. apply interrupt_steps in E.
    destruct b; by intros [= <- <-].
  - destruct (attest_approval _ _ _ _ _ s) as [s1 r] eqn:E. intros [= <- <-]. replace s1 with (fst (s1, r)) by done.
    rewrite <- E. apply mute_still; [apply quiet_attest_approval|apply mute_attest_approval].
  - destruct (replay_completed _ _ _ _ _ s) as [s1 r] eqn:E. intros [= <- <-]. replace s1 with (fst (s1, r)) by done.
    rewrite <- E. apply mute_still; [apply quiet_replay_completed|apply mute_replay].
  - intros [= <- <-]. by apply mute_still.
Qed.

End steps.
End EngineSteps.
