(* ===== verification/Artifacts.v ===== *)
(** Artifacts of a run: [capabilities/artifacts.rs].

    The store is shared by the calls of a run, and each of its maps has a lock
    of its own, so a call is a thread whose steps (one per lock taken or
    lifecycle operation) interleave with those of other calls and with the
    lifecycle engine.  A retraction, which holds the objects' lock until it is
    done, is one step.  A result artifact is bound to its token through a guard
    the engine releases or rolls back; the guard of call [i] is the engine's
    resource [2 * i], odd numbers are resources of other capabilities.  What
    the engine's log asks of a guard is done at the end of the operation that
    asked for it.  Identifiers are a stream of version 4 UUIDs. *)
From stdpp Require Import base list strings numbers pretty gmap.
From S2P Require Import Prelude Utf8 Json Sha256 Capability Lifecycle.

Module Artifacts.

(** ** Data *)

Record ArtifactLimits := { max_object_bytes : Z; max_total_bytes : Z; max_objects : Z }.

Definition default_limits : ArtifactLimits :=
  {| max_object_bytes := 8 * 1024 * 1024; max_total_bytes := 64 * 1024 * 1024; max_objects := 1024 |}.

Record ArtifactRef := { ar_id : string; ar_len : Z; ar_hash : string; ar_metadata : Json }.

Record ArtifactRecord := {
  rc_owner_key : string; rc_generation : Z; rc_bytes : list byte; rc_hash : string; rc_metadata : Json
}.

Record CapabilityError := { ce_code : string; ce_message : string }.

Definition from_lifecycle (error : LifecycleError) : CapabilityError :=
  {| ce_code := error_code error; ce_message := error_message error |}.

Record ArtifactInner := {
  objects : gmap string ArtifactRecord; total_bytes : Z; result_calls : gset string
}.

Record ResultArtifactGuard := { ga_id : string; ga_call_key : string; ga_len : Z; ga_released : bool }.

(** The calls, their locals and where they stand. *)
Inductive Request :=
| PutRequest (bytes : list byte) (metadata : Json)
| PutResultRequest (bytes : list byte) (metadata : Json)
| GetRequest (id : string)
| ReferenceRequest (id : string).

Inductive Reply := RefReply (refer : ArtifactRef) | BytesReply (bytes : list byte).

Inductive Progress :=
| Called
| Checked (claims : TokenClaims) (bound : Json)
| Reserved (claims : TokenClaims) (bound : Json)
| Refused (claims : TokenClaims) (error : CapabilityError)
| Stored (claims : TokenClaims) (refer : ArtifactRef)
| Undoing (claims : TokenClaims) (refer : ArtifactRef) (error : CapabilityError)
| Returned (claims : option TokenClaims) (refer : option ArtifactRef) (r : result Reply CapabilityError).

Record Call := { ca_token : string; ca_request : Request; ca_progress : Progress }.

(** ** Metadata of a result *)

Definition MAX_RESULT_METADATA_BYTES : Z := 256.
Definition MAX_RESULT_METADATA_STRING : Z := 128.

Definition result_call_key (claims : TokenClaims) : string :=
  pretty (tc_generation claims) +:+ ":" +:+ tc_call_id claims.

Definition invalid_request (message : string) : CapabilityError :=
  {| ce_code := "invalid_request"; ce_message := message |}.

Fixpoint check_metadata (claims : TokenClaims) (fields : list (string * Json)) : result unit CapabilityError :=
  match fields with
  | [] => Ok tt
  | (key, value) :: rest =>
      if str_eqb key "call_id" then
        match value with
        | JString call_id =>
            if (MAX_RESULT_METADATA_STRING <? slen call_id)%Z then
              Err (invalid_request "result metadata call_id exceeds the allowlisted size")
            else if negb (str_eqb call_id (tc_call_id claims)) then
              Err (invalid_request "result metadata call_id does not match the authorized token")
            else check_metadata claims rest
        | _ => Err (invalid_request "result metadata call_id must be a string")
        end
      else Err (invalid_request "result metadata field is not allowlisted")
  end.

Definition bind_result_metadata `{JsonText} (metadata : Json) (claims : TokenClaims) : result Json CapabilityError :=
  match metadata with
  | JObject fields =>
      if (MAX_RESULT_METADATA_BYTES <? slen (json_text metadata))%Z then
        Err (invalid_request "result metadata exceeds the allowlisted size")
      else
        let? _ := check_metadata claims fields in
        Ok (jobj [("call_id", JString (tc_call_id claims)); ("run", JString (co_run (tc_owner claims)));
                  ("owner", JString (owner_key (tc_owner claims)))])
  | _ => Err (invalid_request "result metadata must be an object")
  end.

(** ** The store *)

Definition new (limits : ArtifactLimits) : result ArtifactInner CapabilityError :=
  if (max_object_bytes limits =? 0)%Z || (max_total_bytes limits =? 0)%Z || (max_objects limits =? 0)%Z then
    Err {| ce_code := "invalid_configuration"; ce_message := "artifact limits must be positive" |}
  else Ok {| objects := ∅; total_bytes := 0; result_calls := ∅ |}.

Definition record_for (claims : TokenClaims) (bytes : list byte) (metadata : Json) : ArtifactRecord := {|
  rc_owner_key := owner_key (tc_owner claims); rc_generation := tc_generation claims; rc_bytes := bytes;
  rc_hash := Sha256.content_hash bytes; rc_metadata := metadata |}.

(** [store_bytes], given the identifier it draws once the quotas allow it. *)
Definition store_bytes (limits : ArtifactLimits) (id : string) (claims : TokenClaims) (bytes : list byte)
    (metadata : Json) (inner : ArtifactInner) : ArtifactInner * result ArtifactRef CapabilityError :=
  if (max_object_bytes limits <? blen bytes)%Z then
    (inner, Err {| ce_code := "artifact_too_large"; ce_message := "artifact exceeds the per-object bound" |})
  else if (max_objects limits <=? Z.of_nat (size (objects inner)))%Z
          || (max_total_bytes limits <? saturating_add (total_bytes inner) (blen bytes))%Z then
    (inner, Err {| ce_code := "artifact_store_exhausted"; ce_message := "artifact store quota is exhausted" |})
  else
    ({| objects := <[id := record_for claims bytes metadata]> (objects inner);
        total_bytes := saturating_add (total_bytes inner) (blen bytes);
        result_calls := result_calls inner |},
     Ok {| ar_id := id; ar_len := blen bytes; ar_hash := Sha256.content_hash bytes; ar_metadata := metadata |}).

Definition lookup (claims : TokenClaims) (id : string) (inner : ArtifactInner) : result ArtifactRecord CapabilityError :=
  let unknown := {| ce_code := "artifact_not_found"; ce_message := "artifact is unknown" |} in
  match objects inner !! id with
  | None => Err unknown
  | Some record =>
      if negb (str_eqb (rc_owner_key record) (owner_key (tc_owner claims)))
         || negb (rc_generation record =? tc_generation claims)%Z then Err unknown
      else Ok record
  end.

Definition reference_of (id : string) (record : ArtifactRecord) : ArtifactRef := {|
  ar_id := id; ar_len := blen (rc_bytes record); ar_hash := rc_hash record; ar_metadata := rc_metadata record |}.

Definition stored (id : string) (inner : ArtifactInner) : option (list byte * Json) :=
  (fun record => (rc_bytes record, rc_metadata record)) <$> objects inner !! id.

Definition stored_len (inner : ArtifactInner) : nat := size (objects inner).

Definition stored_ids (inner : ArtifactInner) : list string := (map_to_list (objects inner)).*1.

Definition reserve (call_key : string) (inner : ArtifactInner) : option ArtifactInner :=
  if decide (call_key ∈ result_calls inner) then None
  else Some {| objects := objects inner; total_bytes := total_bytes inner;
               result_calls := {[call_key]} ∪ result_calls inner |}.

Definition unreserve (call_key : string) (inner : ArtifactInner) : ArtifactInner :=
  {| objects := objects inner; total_bytes := total_bytes inner; result_calls := result_calls inner ∖ {[call_key]} |}.

(** [ResultArtifactGuard::retract] of a guard that was not yet released. *)
Definition retract_object (guard : ResultArtifactGuard) (inner : ArtifactInner) : ArtifactInner :=
  match objects inner !! ga_id guard with
  | Some _ => {| objects := delete (ga_id guard) (objects inner);
                 total_bytes := saturating_sub (total_bytes inner) (ga_len guard);
                 result_calls := result_calls inner |}
  | None => inner
  end.

(** ** The run: engine, store, guards and calls *)

Section run.
Context {W G : Type} `{DurableToolLifecycle W} `{ApprovalGate G} `{JsonText}.
Context (clock : nat -> Z) (instant : nat -> Z) (cancelled : nat -> bool) (issue : nat -> string).
Context (uuid : nat -> string) (frozen : Inner) (owner : CapabilityOwner) (limits : ArtifactLimits).

Record Run := {
  engine : Engine W G; inner : ArtifactInner; guards : gmap nat ResultArtifactGuard; calls : list Call; drawn : nat
}.

Definition with_inner (x : ArtifactInner) (s : Run) : Run :=
  {| engine := engine s; inner := x; guards := guards s; calls := calls s; drawn := drawn s |}.
Definition with_guards (x : gmap nat ResultArtifactGuard) (s : Run) : Run :=
  {| engine := engine s; inner := inner s; guards := x; calls := calls s; drawn := drawn s |}.
Definition draw (s : Run) : Run :=
  {| engine := engine s; inner := inner s; guards := guards s; calls := calls s; drawn := S (drawn s) |}.

(** [ResultArtifactGuard::retract]. *)
Definition retract (i : nat) (s : Run) : Run :=
  match guards s !! i with
  | Some guard =>
      if ga_released guard then s
      else
        with_guards (<[i := {| ga_id := ga_id guard; ga_call_key := ga_call_key guard; ga_len := ga_len guard;
                               ga_released := true |}]> (guards s))
          (with_inner (unreserve (ga_call_key guard) (retract_object guard (inner s))) s)
  | None => s
  end.

Definition guard_resource (i : nat) : Resource := 2 * i.

(** Both [release] and [rollback_unpublished_side_effects] of a guard retract. *)
Definition perform (s : Run) (x : ResourceCall) : Run :=
  if Nat.even (resource_of x) then retract (Nat.div2 (resource_of x)) s else s.

(** The engine moved; what it newly asked of resources is done. *)
Definition settle (e : Engine W G) (s : Run) : Run :=
  fold_left perform (drop (length (resource_log (engine s))) (resource_log e))
    {| engine := e; inner := inner s; guards := guards s; calls := calls s; drawn := drawn s |}.

Definition set_progress (i : nat) (p : Progress) (s : Run) : Run :=
  {| engine := engine s; inner := inner s; guards := guards s;
     calls := alter (fun c => {| ca_token := ca_token c; ca_request := ca_request c; ca_progress := p |}) i (calls s);
     drawn := drawn s |}.

(** [ArtifactCapability::authorize]. *)
Definition authorize_call (token : string) (risk : CapabilityRisk) (s : Run) :
    Run * result TokenClaims CapabilityError :=
  let '(e, r) := authorize clock cancelled frozen owner token risk (engine s) in
  (settle e s, map_err from_lifecycle r).

Definition begin_call (i : nat) (token : string) (risk : CapabilityRisk)
    (k : TokenClaims -> result Json CapabilityError) (s : Run) : Run :=
  match authorize_call token risk s with
  | (s', Ok claims) =>
      match k claims with
      | Ok bound => set_progress i (Checked claims bound) s'
      | Err error => set_progress i (Returned (Some claims) None (Err error)) s'
      end
  | (s', Err error) => set_progress i (Returned None None (Err error)) s'
  end.

Definition store_call (claims : TokenClaims) (bytes : list byte) (metadata : Json) (s : Run) :
    Run * result ArtifactRef CapabilityError :=
  let '(x, r) := store_bytes limits (uuid (drawn s)) claims bytes metadata (inner s) in
  (with_inner x (if is_ok r then draw s else s), r).

(** The next step of call [i]. *)
Definition advance (i : nat) (s : Run) : Run :=
  match calls s !! i with
  | None => s
  | Some c =>
      match ca_progress c, ca_request c with
      | Called, PutRequest _ metadata => begin_call i (ca_token c) Write (fun _ => Ok metadata) s
      | Called, PutResultRequest _ metadata => begin_call i (ca_token c) Read (bind_result_metadata metadata) s
      | Called, _ => begin_call i (ca_token c) Read (fun _ => Ok JNull) s
      | Checked claims metadata, PutRequest bytes _ =>
          match store_call claims bytes metadata s with
          | (s', Ok refer) => set_progress i (Returned (Some claims) (Some refer) (Ok (RefReply refer))) s'
          | (s', Err error) => set_progress i (Returned (Some claims) None (Err error)) s'
          end
      | Checked claims bound, PutResultRequest _ _ =>
          match reserve (result_call_key claims) (inner s) with
          | Some x => set_progress i (Reserved claims bound) (with_inner x s)
          | None => set_progress i (Returned (Some claims) None (Err
              {| ce_code := "artifact_already_published";
                 ce_message := "a result artifact was already published for this call" |})) s
          end
      | Checked claims _, GetRequest id =>
          set_progress i (Returned (Some claims) None
            (result_map (fun record => BytesReply (rc_bytes record)) (lookup claims id (inner s)))) s
      | Checked claims _, ReferenceRequest id =>
          set_progress i (Returned (Some claims) None
            (result_map (fun record => RefReply (reference_of id record)) (lookup claims id (inner s)))) s
      | Reserved claims bound, PutResultRequest bytes _ =>
          match store_call claims bytes bound s with
          | (s', Ok refer) =>
              set_progress i (Stored claims refer)
                (with_guards (<[i := {| ga_id := ar_id refer; ga_call_key := result_call_key claims;
                                        ga_len := ar_len refer; ga_released := false |}]> (guards s')) s')
          | (s', Err error) => set_progress i (Refused claims error) s'
          end
      | Refused claims error, _ =>
          set_progress i (Returned (Some claims) None (Err error))
            (with_inner (unreserve (result_call_key claims) (inner s)) s)
      | Stored claims refer, _ =>
          match register_resource (ca_token c) (guard_resource i) (engine s) with
          | (e, Ok _) => set_progress i (Returned (Some claims) (Some refer) (Ok (RefReply refer))) (settle e s)
          | (e, Err error) => set_progress i (Undoing claims refer (from_lifecycle error)) (settle e s)
          end
      | Undoing claims refer error, _ =>
          set_progress i (Returned (Some claims) (Some refer) (Err error)) (retract i s)
      | _, _ => s
      end
  end.

(** Resources of other capabilities have odd numbers. *)
Definition foreign (op : Op (W := W)) : Op (W := W) :=
  match op with ORegister token r => ORegister token (S (2 * r)) | _ => op end.

Inductive Action := Start (token : string) (request : Request) | Advance (i : nat) | Lifecycle (op : Op (W := W)).

Definition act (s : Run) (a : Action) : Run :=
  match a with
  | Start token request =>
      {| engine := engine s; inner := inner s; guards := guards s;
         calls := calls s ++ [{| ca_token := token; ca_request := request; ca_progress := Called |}];
         drawn := drawn s |}
  | Advance i => advance i s
  | Lifecycle op => settle (fst (exec clock instant cancelled issue frozen (foreign op) (engine s))) s
  end.

Definition run (actions : list Action) (s : Run) : Run := fold_left act actions s.

(** A run starts with an engine as built and an empty store. *)
Definition start_run (e : Engine W G) (x : ArtifactInner) : Run :=
  {| engine := e; inner := x; guards := ∅; calls := []; drawn := 0 |}.

End run.

End Artifacts.
