(* ===== verification/ArtifactsSpec.v ===== *)
(** What the artifacts of a run promise.

    Over every interleaving of calls with the lifecycle engine: the quotas
    hold and the byte count is exact, a result artifact is kept only for a
    call that is open or durably committed, at most one per call, and stays
    once its call is committed; what a read returns was put under the same
    owner and generation. *)
From stdpp Require Import base list strings numbers pretty gmap.
From S2P Require Import Prelude Utf8 Json Sha256 Capability Lifecycle LifecycleSpec EngineSteps Artifacts.

(** ** The invariant of a run *)
Module ArtifactsSpec.
Import Artifacts EngineSteps.

Definition total_of (objs : gmap string ArtifactRecord) : Z := map_fold (fun _ r acc => (blen (rc_bytes r) + acc)%Z) 0%Z objs.

Lemma total_insert objs id rec : objs !! id = None -> total_of (<[id := rec]> objs) = (blen (rc_bytes rec) + total_of objs)%Z.
Proof. intros Hf. unfold total_of. rewrite map_fold_insert_L; [done| |done]. intros. lia. Qed.

Lemma total_delete objs id rec : objs !! id = Some rec -> total_of (delete id objs) = (total_of objs - blen (rc_bytes rec))%Z.
Proof.
  intros Hs. rewrite <- (insert_delete_id objs id rec Hs) at 2. rewrite total_insert by apply lookup_delete_eq. lia.
Qed.

Lemma total_of_nonneg objs : (0 <= total_of objs)%Z.
Proof.
  unfold total_of. apply (map_fold_weak_ind (fun acc _ => (0 <= acc)%Z)); [lia|]. intros. unfold blen. lia.
Qed.

(** What a call holds. *)
Definition claims_of (c : Call) : option TokenClaims :=
  match ca_progress c with
  | Called => None
  | Checked claims _ | Reserved claims _ | Refused claims _ | Stored claims _ | Undoing claims _ _ => Some claims
  | Returned claims _ _ => claims
  end.

Definition refer_of (c : Call) : option ArtifactRef :=
  match ca_progress c with
  | Stored _ refer | Undoing _ refer _ => Some refer
  | Returned _ refer _ => refer
  | _ => None
  end.

Definition is_result (c : Call) : bool := match ca_request c with PutResultRequest _ _ => true | _ => false end.

Definition unreleased (g : option ResultArtifactGuard) : Prop := exists guard, g = Some guard /\ ga_released guard = false.

Definition key_of (g : option ResultArtifactGuard) (c : Call) : option string :=
  match ca_progress c with
  | Reserved claims _ | Refused claims _ => Some (result_call_key claims)
  | _ => guard ← g; if ga_released guard then None else Some (ga_call_key guard)
  end.

Section invariant.
Context (uuid : nat -> string) (limits : ArtifactLimits).
Hypothesis uuid_inj : forall i j, uuid i = uuid j -> i = j.

Definition drawn_before (d : nat) (refer : ArtifactRef) : Prop := exists n, n < d /\ ar_id refer = uuid n.

Definition fits (x : ArtifactInner) (claims : TokenClaims) (refer : ArtifactRef) (bytes : list byte)
    (guard : ResultArtifactGuard) : Prop :=
  ga_id guard = ar_id refer /\ ga_call_key guard = result_call_key claims /\ ga_len guard = blen bytes /\
  (ga_released guard = false ->
   objects x !! ar_id refer = Some (record_for claims bytes (ar_metadata refer)) /\ result_call_key claims ∈ result_calls x).

(** A call agrees with the store and with its guard. *)
Definition call_ok (x : ArtifactInner) (d : nat) (g : option ResultArtifactGuard) (c : Call) : Prop :=
  match ca_progress c with
  | Called | Checked _ _ => g = None
  | Reserved claims _ | Refused claims _ => g = None /\ is_result c = true /\ result_call_key claims ∈ result_calls x
  | Stored claims refer | Undoing claims refer _ =>
      exists bytes metadata guard, ca_request c = PutResultRequest bytes metadata /\ drawn_before d refer /\
        g = Some guard /\ fits x claims refer bytes guard
  | Returned _ None _ => g = None
  | Returned None (Some _) _ => False
  | Returned (Some claims) (Some refer) r =>
      drawn_before d refer /\
      match ca_request c with
      | PutRequest bytes _ => g = None /\ r = Ok (RefReply refer) /\
          objects x !! ar_id refer = Some (record_for claims bytes (ar_metadata refer))
      | PutResultRequest bytes _ => (r = Ok (RefReply refer) \/ ~ unreleased g) /\
          exists guard, g = Some guard /\ fits x claims refer bytes guard
      | _ => False
      end
  end.

Record store_ok (x : ArtifactInner) (guards : gmap nat ResultArtifactGuard) (calls : list Call) (d : nat) : Prop := {
  o_calls i c : calls !! i = Some c -> call_ok x d (guards !! i) c;
  o_guards i g : guards !! i = Some g -> i < length calls;
  o_distinct i j c1 c2 r1 r2 : calls !! i = Some c1 -> calls !! j = Some c2 -> refer_of c1 = Some r1 ->
    refer_of c2 = Some r2 -> ar_id r1 = ar_id r2 -> i = j;
  o_keys i j c1 c2 k : calls !! i = Some c1 -> calls !! j = Some c2 ->
    key_of (guards !! i) c1 = Some k -> key_of (guards !! j) c2 = Some k -> i = j;
  o_origin id rec : objects x !! id = Some rec ->
    exists i c refer, calls !! i = Some c /\ refer_of c = Some refer /\ ar_id refer = id /\
      (is_result c = true -> unreleased (guards !! i))
}.

Definition quota_ok (x : ArtifactInner) : Prop :=
  total_bytes x = total_of (objects x) /\ (total_bytes x <= max_total_bytes limits)%Z /\
  (Z.of_nat (size (objects x)) <= max_objects limits)%Z /\
  forall id rec, objects x !! id = Some rec -> (blen (rc_bytes rec) <= max_object_bytes limits)%Z.

(** *** Facts about one call *)

Lemma call_ok_frame x x' d d' g c : d <= d' ->
  (forall refer, refer_of c = Some refer -> objects x' !! ar_id refer = objects x !! ar_id refer) ->
  (forall k, key_of g c = Some k -> k ∈ result_calls x -> k ∈ result_calls x') ->
  call_ok x d g c -> call_ok x' d' g c.
Proof.
  intros Hd Ho Hk. unfold call_ok, refer_of, key_of in *.
  assert (forall r, drawn_before d r -> drawn_before d' r) as Hb.
  { intros r (n & Hn & E). exists n. split; [lia|done]. }
  assert (forall claims r bytes guard, g = Some guard -> fits x claims r bytes guard ->
    objects x' !! ar_id r = objects x !! ar_id r ->
    ((guard ← g; if ga_released guard then None else Some (ga_call_key guard)) = Some (ga_call_key guard) ->
      ga_call_key guard ∈ result_calls x -> ga_call_key guard ∈ result_calls x') -> fits x' claims r bytes guard) as Hf.
  { intros claims r bytes guard -> (E1 & E2 & E3 & E4) Eo Ek. split_and!; [done..|]. intros Hr.
    destruct (E4 Hr) as [F1 F2]. split; [by rewrite Eo|]. rewrite <- E2 in *. apply Ek; [|done]. simpl. by rewrite Hr. }
  destruct (ca_progress c) as [| |claims b|claims e|claims r|claims r e|[claims|] [r|] rep]; try done.
  - naive_solver.
  - naive_solver.
  - intros (bytes & md & guard & ? & ? & Eg & F). exists bytes, md, guard. split_and!; [done|by apply Hb|done|]. eauto.
  - intros (bytes & md & guard & ? & ? & Eg & F). exists bytes, md, guard. split_and!; [done|by apply Hb|done|]. eauto.
  - intros [? X]. split; [by apply Hb|]. destruct (ca_request c); try done.
    + destruct X as (? & ? & Y). split_and!; [done..|]. by rewrite Ho.
    + destruct X as [? (guard & Eg & F)]. split; [done|]. exists guard. eauto.
Qed.

Lemma call_ok_key x d g c k : call_ok x d g c -> key_of g c = Some k -> k ∈ result_calls x.
Proof.
  unfold call_ok, key_of.
  assert (forall claims r bytes guard, g = Some guard -> fits x claims r bytes guard ->
    (guard ← g; if ga_released guard then None else Some (ga_call_key guard)) = Some k -> k ∈ result_calls x) as Hf.
  { intros claims r bytes guard -> (_ & E2 & _ & E4). simpl. destruct (ga_released guard); [done|]. intros [= <-].
    rewrite E2. by apply E4. }
  destruct (ca_progress c) as [| |claims b|claims e|claims r|claims r e|[claims|] [r|] rep]; try (intros ->; done); try naive_solver.
  intros [? X]. destruct (ca_request c); try done; [by destruct X as (-> & _)|]. destruct X as [_ (guard & Eg & F)]. eauto.
Qed.

Lemma call_ok_refer x d g c refer : call_ok x d g c -> refer_of c = Some refer -> drawn_before d refer.
Proof.
  unfold call_ok, refer_of. destruct (ca_progress c) as [| |claims b|claims e|claims r|claims r e|[claims|] [r|] rep]; naive_solver.
Qed.

(** *** One call moves *)

Lemma store_update x x' gs gs' cs d d' i c c' :
  store_ok x gs cs d -> cs !! i = Some c -> d <= d' ->
  (forall j, j <> i -> gs' !! j = gs !! j) ->
  (forall j cj r, j <> i -> cs !! j = Some cj -> refer_of cj = Some r -> objects x' !! ar_id r = objects x !! ar_id r) ->
  (forall j cj k, j <> i -> cs !! j = Some cj -> key_of (gs !! j) cj = Some k -> k ∈ result_calls x') ->
  call_ok x' d' (gs' !! i) c' ->
  (forall r, refer_of c' = Some r -> refer_of c = Some r \/ exists n, d <= n /\ ar_id r = uuid n) ->
  (forall k, key_of (gs' !! i) c' = Some k -> key_of (gs !! i) c = Some k \/ k ∉ result_calls x) ->
  (forall id rec, objects x' !! id = Some rec ->
     (exists r, refer_of c' = Some r /\ ar_id r = id /\ (is_result c' = true -> unreleased (gs' !! i))) \/
     (is_Some (objects x !! id) /\ forall r, refer_of c = Some r -> ar_id r <> id)) ->
  store_ok x' gs' (<[i := c']> cs) d'.
Proof.
  intros S Hc Hd Hgs Hobj Hkey Hown Hid Hk Horig.
  assert (forall j cj, <[i := c']> cs !! j = Some cj -> (j = i /\ cj = c') \/ (j <> i /\ cs !! j = Some cj)) as Hl.
  { intros j cj. destruct (decide (j = i)) as [->|Hne].
    - rewrite list_lookup_insert_eq by by eapply lookup_lt_Some. intros [= <-]. by left.
    - rewrite list_lookup_insert_ne by done. by right. }
  assert (forall j cj r r', j <> i -> cs !! j = Some cj -> refer_of cj = Some r -> refer_of c' = Some r' -> ar_id r = ar_id r' -> False) as Hd'.
  { intros j cj r r' Hne Hj Hr Hr' E. destruct (Hid r' Hr') as [Hr''|(n & Hn & E')].
    - by apply Hne, (o_distinct _ _ _ _ S j i cj c r r').
    - destruct (call_ok_refer _ _ _ _ _ (o_calls _ _ _ _ S j cj Hj) Hr) as (n' & Hn' & E'').
      assert (n = n') by (apply uuid_inj; congruence). lia. }
  assert (forall j cj k, j <> i -> cs !! j = Some cj -> key_of (gs !! j) cj = Some k -> key_of (gs' !! i) c' = Some k -> False) as Hk'.
  { intros j cj k Hne Hj Hkj Hki. destruct (Hk k Hki) as [Hki'|Hn].
    - by apply Hne, (o_keys _ _ _ _ S j i cj c k).
    - by apply Hn, (call_ok_key _ _ _ _ _ (o_calls _ _ _ _ S j cj Hj)). }
  constructor.
  - intros j cj [[-> ->]|[Hne Hj]]%Hl; [done|]. rewrite Hgs by done.
    apply (call_ok_frame x x' d d'); eauto using o_calls.
  - intros j g. rewrite length_insert. destruct (decide (j = i)) as [->|Hne]; [intros _; by eapply lookup_lt_Some|].
    rewrite Hgs by done. by apply (o_guards _ _ _ _ S).
  - intros j1 j2 c1 c2 r1 r2 [[-> ->]|[Hn1 Hj1]]%Hl [[-> ->]|[Hn2 Hj2]]%Hl Hr1 Hr2 E; [done| | |].
    + exfalso. by apply (Hd' j2 c2 r2 r1).
    + exfalso. by apply (Hd' j1 c1 r1 r2).
    + by apply (o_distinct _ _ _ _ S j1 j2 c1 c2 r1 r2).
  - intros j1 j2 c1 c2 k [[-> ->]|[Hn1 Hj1]]%Hl [[-> ->]|[Hn2 Hj2]]%Hl; [done| | |]; rewrite ?(Hgs j1), ?(Hgs j2) by done; intros K1 K2.
    + exfalso. by apply (Hk' j2 c2 k).
    + exfalso. by apply (Hk' j1 c1 k).
    + by apply (o_keys _ _ _ _ S j1 j2 c1 c2 k).
  - intros id rec [(r & Hr & E & Hu)|[[rec0 Hx] Hne]]%Horig.
    + exists i, c', r. split_and!; try done. apply list_lookup_insert_eq. by eapply lookup_lt_Some.
    + destruct (o_origin _ _ _ _ S id rec0 Hx) as (j & cj & r & Hj & Hr & E & Hu). exists j, cj, r.
      destruct (decide (j = i)) as [->|Hji]; [exfalso; apply (Hne r); congruence|].
      rewrite list_lookup_insert_ne, Hgs by done. done.
Qed.

(** Only the call's progress moves. *)
Lemma store_progress x gs cs d i c c' : store_ok x gs cs d -> cs !! i = Some c ->
  call_ok x d (gs !! i) c' -> refer_of c' = refer_of c -> key_of (gs !! i) c' = key_of (gs !! i) c ->
  is_result c' = is_result c -> store_ok x gs (<[i := c']> cs) d.
Proof.
  intros S Hc Hown Hr Hk Hi. eapply store_update; try done; rewrite ?Hr, ?Hk, ?Hi; eauto.
  - intros j cj k _ Hj Hkj. by eapply call_ok_key, Hkj; eapply o_calls.
  - intros id rec Hx. destruct (o_origin _ _ _ _ S id rec Hx) as (j & cj & r & Hj & Hrj & E & Hu).
    destruct (decide (j = i)) as [->|Hne].
    + assert (cj = c) as -> by congruence. left. exists r. eauto.
    + right. split; [by eexists|]. intros r' Hr' E'. apply Hne, (o_distinct _ _ _ _ S j i cj c r r'); congruence.
Qed.

(** *** The store's operations *)

Definition at_progress (p : Progress) (c : Call) : Call :=
  {| ca_token := ca_token c; ca_request := ca_request c; ca_progress := p |}.

Lemma fresh_id x gs cs d : store_ok x gs cs d -> objects x !! uuid d = None.
Proof.
  intros S. destruct (objects x !! uuid d) as [rec|] eqn:E; [|done].
  destruct (o_origin _ _ _ _ S _ _ E) as (i & c & r & Hc & Hr & Eid & _).
  destruct (call_ok_refer _ _ _ _ _ (o_calls _ _ _ _ S i c Hc) Hr) as (n & Hn & En).
  assert (n = d) by (apply uuid_inj; congruence). lia.
Qed.

Lemma store_bytes_cases id claims bytes md x x' r : store_bytes limits id claims bytes md x = (x', r) ->
  (exists e, r = Err e /\ x' = x) \/
  exists refer, r = Ok refer /\ ar_id refer = id /\ ar_len refer = blen bytes /\ ar_metadata refer = md /\
    objects x' = <[id := record_for claims bytes md]> (objects x) /\ result_calls x' = result_calls x /\
    (blen bytes <= max_object_bytes limits)%Z /\ (Z.of_nat (size (objects x)) < max_objects limits)%Z /\
    total_bytes x' = saturating_add (total_bytes x) (blen bytes) /\ (total_bytes x' <= max_total_bytes limits)%Z.
Proof.
  unfold store_bytes. destruct (max_object_bytes limits <? _)%Z eqn:E1; [intros [= <- <-]; eauto|].
  destruct (_ || _) eqn:E2; [intros [= <- <-]; eauto|]. apply orb_false_iff in E2 as [E2 E3].
  intros [= <- <-]. right. eexists. split; [done|]. simpl. split_and!; try done; lia.
Qed.

Lemma reserve_ok x x' gs cs d i c claims bound : store_ok x gs cs d -> cs !! i = Some c ->
  ca_progress c = Checked claims bound -> is_result c = true -> reserve (result_call_key claims) x = Some x' ->
  store_ok x' gs (<[i := at_progress (Reserved claims bound) c]> cs) d /\ (quota_ok x -> quota_ok x').
Proof.
  intros S Hc Hp Hr. unfold reserve. destruct (decide _) as [|Hn]; [done|]. intros [= <-]. split; [|done].
  pose proof (o_calls _ _ _ _ S i c Hc) as Ho. unfold call_ok in Ho. rewrite Hp in Ho.
  eapply store_update; try done; simpl; rewrite ?Ho.
  - intros j cj k _ Hj Hk. apply elem_of_union_r. by eapply call_ok_key, Hk; eapply o_calls.
  - split_and!; [done..|]. simpl. set_solver.
  - intros k [= <-]. by right.
  - intros id rec Hx. right. split; [by eexists|]. unfold refer_of. by rewrite Hp.
Qed.

Lemma unreserve_ok x gs cs d i c claims e : store_ok x gs cs d -> cs !! i = Some c -> ca_progress c = Refused claims e ->
  store_ok (unreserve (result_call_key claims) x) gs (<[i := at_progress (Returned (Some claims) None (Err e)) c]> cs) d.
Proof.
  intros S Hc Hp. pose proof (o_calls _ _ _ _ S i c Hc) as Ho. unfold call_ok in Ho. rewrite Hp in Ho.
  destruct Ho as (Ho & _ & _). eapply store_update; try done; simpl; rewrite ?Ho; try done.
  - intros j cj k Hne Hj Hk. apply elem_of_difference. split; [by eapply call_ok_key, Hk; eapply o_calls|].
    intros ->%elem_of_singleton. apply Hne, (o_keys _ _ _ _ S j i cj c _ Hj Hc Hk). unfold key_of. by rewrite Hp.
  - intros id rec Hx. right. split; [by eexists|]. unfold refer_of. by rewrite Hp.
Qed.

(** A record is stored under the identifier drawn. *)
Lemma stored_ok x x' gs gs' cs d i c c' claims bytes md refer : store_ok x gs cs d -> cs !! i = Some c ->
  store_bytes limits (uuid d) claims bytes md x = (x', Ok refer) -> refer_of c = None ->
  (forall j, j <> i -> gs' !! j = gs !! j) -> refer_of c' = Some refer -> (is_result c' = true -> unreleased (gs' !! i)) ->
  (objects x' !! ar_id refer = Some (record_for claims bytes (ar_metadata refer)) -> result_calls x' = result_calls x ->
     drawn_before (S d) refer -> call_ok x' (S d) (gs' !! i) c') ->
  (forall k, key_of (gs' !! i) c' = Some k -> key_of (gs !! i) c = Some k \/ k ∉ result_calls x) ->
  store_ok x' gs' (<[i := c']> cs) (S d).
Proof.
  intros S Hc Hst Hnone Hgs Hr Hu Hown Hk.
  apply store_bytes_cases in Hst as [(e & ? & _)|(? & [= <-] & Eid & El & Em & Eo & Er & _)]; [done|].
  eapply store_update; try done; [lia| | | | |].
  - intros j cj r Hne Hj Hrj. rewrite Eo, lookup_insert_ne; [done|]. intros E.
    destruct (call_ok_refer _ _ _ _ _ (o_calls _ _ _ _ S j cj Hj) Hrj) as (n & Hn & En).
    assert (d = n) by (apply uuid_inj; congruence). lia.
  - intros j cj k _ Hj Hkj. rewrite Er. by eapply call_ok_key, Hkj; eapply o_calls.
  - apply Hown; [|done|]; [rewrite Eo, Eid, Em; by rewrite lookup_insert_eq|]. exists d. split; [lia|done].
  - intros r Hr'. right. exists d. split; [lia|]. congruence.
  - intros id rec Hx. rewrite Eo in Hx. destruct (decide (id = uuid d)) as [->|Hne].
    + left. exists refer. split_and!; [done|done|done].
    + rewrite lookup_insert_ne in Hx by done. right. split; [by eexists|]. rewrite Hnone. done.
Qed.

Lemma quota_stored id claims bytes md x x' refer : (max_total_bytes limits < usize_max)%Z -> objects x !! id = None ->
  store_bytes limits id claims bytes md x = (x', Ok refer) -> quota_ok x -> quota_ok x'.
Proof.
  intros Hm Hf Hst (Q1 & Q2 & Q3 & Q4).
  apply store_bytes_cases in Hst as [(e & ? & _)|(? & [= <-] & _ & _ & _ & Eo & _ & Hb & Hs & Et & Ht)]; [done|].
  unfold quota_ok. rewrite Eo, total_insert, map_size_insert_None by done. split_and!; [|done|lia|].
  - unfold saturating_add in Et. unfold usize_max in Hm. simpl. lia.
  - intros i rec. destruct (decide (i = id)) as [->|Hne]; [rewrite lookup_insert_eq; by intros [= <-]|].
    rewrite lookup_insert_ne by done. apply Q4.
Qed.

(** A guard lets its artifact and its call's key go. *)
Lemma retract_ok x gs cs d i g : store_ok x gs cs d -> gs !! i = Some g -> ga_released g = false -> quota_ok x ->
  let g' := {| ga_id := ga_id g; ga_call_key := ga_call_key g; ga_len := ga_len g; ga_released := true |} in
  let x' := unreserve (ga_call_key g) (retract_object g x) in
  store_ok x' (<[i := g']> gs) cs d /\ quota_ok x'.
Proof.
  intros S Hg Hrel Q g' x'. destruct (lookup_lt_is_Some_2 cs i (o_guards _ _ _ _ S i g Hg)) as [c Hc].
  pose proof (o_calls _ _ _ _ S i c Hc) as Ho. rewrite Hg in Ho.
  assert (exists claims refer bytes, refer_of c = Some refer /\ fits x claims refer bytes g /\
    key_of (Some g) c = Some (ga_call_key g) /\ key_of (Some g') c = None /\
    forall y, fits y claims refer bytes g' -> call_ok y d (Some g') c) as (claims & refer & bytes & Hr & Hf & Hk & Hk' & Hown).
  { unfold call_ok, refer_of, key_of in *. simpl. rewrite Hrel.
    destruct (ca_progress c) as [| |cl b|cl e|cl r|cl r e|[cl|] [r|] rep]; try done; try by destruct Ho as [? _].
    - destruct Ho as (bytes & md & ? & E & D & [= <-] & F). exists cl, r, bytes. split_and!; eauto 10.
    - destruct Ho as (bytes & md & ? & E & D & [= <-] & F). exists cl, r, bytes. split_and!; eauto 10.
    - destruct Ho as [D X]. destruct (ca_request c) as [|bytes md| |]; try done; [by destruct X as [? _]|].
      destruct X as [Y (? & [= <-] & F)]. exists cl, r, bytes. split_and!; try done. intros y F'. split; [done|].
      split; [|eauto]. destruct Y as [->|Y]; [by left|right]. intros (? & [= <-] & ?). done. }
  destruct Hf as (E1 & E2 & E3 & E4). destruct (E4 Hrel) as [Ho' Hin]. rewrite <- E1 in Ho'.
  assert (x' = {| objects := delete (ga_id g) (objects x); total_bytes := saturating_sub (total_bytes x) (ga_len g);
                  result_calls := result_calls x ∖ {[ga_call_key g]} |}) as ->.
  { unfold x', retract_object, unreserve. by rewrite Ho'. }
  split.
  - rewrite <- (list_insert_id cs i c Hc). eapply store_update; try done; simpl; rewrite ?lookup_insert_eq.
    + intros j Hne. by rewrite lookup_insert_ne.
    + intros j cj r Hne Hj Hrj. rewrite lookup_delete_ne; [done|]. rewrite E1. intros E.
      by apply Hne, (o_distinct _ _ _ _ S j i cj c r refer).
    + intros j cj k Hne Hj Hkj. apply elem_of_difference. split; [by eapply call_ok_key, Hkj; eapply o_calls|].
      intros ->%elem_of_singleton. apply Hne, (o_keys _ _ _ _ S j i cj c (ga_call_key g)); [done..|]. by rewrite Hg.
    + apply Hown. split_and!; done.
    + eauto.
    + intros k. by rewrite Hk'.
    + intros id rec. rewrite lookup_delete_Some. intros [Hne Hx]. right. split; [by eexists|]. intros r Hr'. congruence.
  - destruct Q as (Q1 & Q2 & Q3 & Q4). unfold quota_ok. simpl. rewrite (total_delete _ _ _ Ho'). simpl.
    pose proof (total_of_nonneg (delete (ga_id g) (objects x))) as Hnn. rewrite (total_delete _ _ _ Ho') in Hnn. simpl in Hnn.
    rewrite map_size_delete, Ho'. unfold saturating_sub, blen in *. split_and!; [lia|lia|lia|].
    intros id rec. rewrite lookup_delete_Some. intros [_ Hx]. by eapply Q4.
Qed.

End invariant.
(** ** Runs *)

Section runs.
Context {W G : Type} `{DurableToolLifecycle W} `{ApprovalGate G} `{JsonText}.
Context (clock : nat -> Z) (instant : nat -> Z) (cancelled : nat -> bool) (issue uuid : nat -> string).
Context (frozen : Inner) (owner : CapabilityOwner) (limits : ArtifactLimits).

(** Tokens and artifacts are named by version 4 UUIDs, which do not repeat. *)
Hypothesis issue_inj : forall i j, issue i = issue j -> i = j.
Hypothesis uuid_inj : forall i j, uuid i = uuid j -> i = j.
Hypothesis limit_u64 : is_u64 (max_tool_calls (in_limits frozen)) = true.
Hypothesis total_usize : (max_total_bytes limits < usize_max)%Z.

Abbreviation Run_ := (Run (W := W) (G := G)).
Abbreviation act_ := (act clock instant cancelled issue uuid frozen owner limits).
Abbreviation run_ := (run clock instant cancelled issue uuid frozen owner limits).

Definition inner_ok (s : Run_) : Prop :=
  store_ok uuid (inner s) (guards s) (calls s) (drawn s) /\ quota_ok limits (inner s).

(** The token of a result artifact: open and holding the guard, or committed
    with a durable result. *)
Definition attached (e : Engine W G) (i : nat) (tok : string) : Prop :=
  held_by e tok (guard_resource i) \/
  exists call_id, token_states e !! tok = Some (TCommitted call_id) /\ JResult call_id true ∈ journal e.

Definition succeeded (c : Call) : Prop := exists claims refer, ca_progress c = Returned claims (Some refer) (Ok (RefReply refer)).

Record run_ok (s : Run_) (m : LifecycleSpec.calls) : Prop := {
  k_inner : inner_ok s;
  k_tracked : tracked issue (engine s) m;
  k_held tok i : held_by (engine s) tok (guard_resource i) ->
    exists c, calls s !! i = Some c /\ ca_token c = tok /\ succeeded c /\ is_result c = true;
  k_attached i c : calls s !! i = Some c -> is_result c = true -> succeeded c -> unreleased (guards s !! i) ->
    attached (engine s) i (ca_token c);
  k_claims i c claims : calls s !! i = Some c -> claims_of c = Some claims ->
    exists st, token_states (engine s) !! ca_token c = Some st /\ token_call_id st = tc_call_id claims
}.

(** *** What the engine asks of guards *)

Lemma retract_spec i (s : Run_) : inner_ok s ->
  let s' := retract i s in
  engine s' = engine s /\ calls s' = calls s /\ drawn s' = drawn s /\ inner_ok s' /\ ~ unreleased (guards s' !! i) /\
  forall j, j <> i -> guards s' !! j = guards s !! j.
Proof.
  intros [S Q]. unfold retract. destruct (guards s !! i) as [g|] eqn:Eg.
  - destruct (ga_released g) eqn:Er.
    + simpl. split_and!; try done. rewrite Eg. by intros (? & [= <-] & ?); congruence.
    + destruct (retract_ok uuid limits uuid_inj _ _ _ _ i g S Eg Er Q) as [S' Q'].
      simpl. split_and!; try done.
      * rewrite lookup_insert_eq. by intros (? & [= <-] & ?).
      * intros j Hne. by rewrite lookup_insert_ne.
  - simpl. split_and!; try done. rewrite Eg. by intros (? & ? & _).
Qed.

Lemma perform_all L (s : Run_) : inner_ok s ->
  let s' := fold_left perform L s in
  engine s' = engine s /\ calls s' = calls s /\ drawn s' = drawn s /\ inner_ok s' /\
  (forall i, unreleased (guards s' !! i) -> unreleased (guards s !! i) /\ forall x, x ∈ L -> resource_of x <> guard_resource i) /\
  (forall i, (forall x, x ∈ L -> resource_of x <> guard_resource i) -> guards s' !! i = guards s !! i).
Proof.
  revert s. induction L as [|x L IH]; intros s I; simpl.
  - split_and!; try done. intros i Hu. split; [done|]. by intros x Hx%elem_of_nil.
  - assert (exists t, perform s x = t /\ engine t = engine s /\ calls t = calls s /\ drawn t = drawn s /\ inner_ok t /\
      (forall i, unreleased (guards t !! i) -> unreleased (guards s !! i) /\ resource_of x <> guard_resource i) /\
      (forall i, resource_of x <> guard_resource i -> guards t !! i = guards s !! i))
      as (t & Et & E1 & E2 & E3 & I' & Hu & Hk).
    { unfold perform, guard_resource. destruct (Nat.even (resource_of x)) eqn:Ev.
      - apply Nat.even_spec in Ev as [k Ek]. rewrite Ek, Nat.div2_double.
        destruct (retract_spec k s I) as (E1 & E2 & E3 & I' & Hn & Hk). eexists. split_and!; try done.
        + intros i Hi. destruct (decide (i = k)) as [->|Hne]; [done|]. rewrite Hk in Hi by done. split; [done|lia].
        + intros i Hi. apply Hk. lia.
      - exists s. split_and!; try done. intros i Hi. split; [done|]. intros E.
        rewrite E, Nat.even_mul in Ev. done. }
    rewrite Et. destruct (IH t I') as (F1 & F2 & F3 & F4 & F5 & F6). split_and!; try congruence; try apply F4.
    + intros i [Hi Hx]%F5. apply Hu in Hi as [Hi Hx']. split; [done|]. intros y [->|Hy]%elem_of_cons; eauto.
    + intros i Hi. rewrite F6 by (intros y Hy; apply Hi; by right). apply Hk, Hi. by left.
Qed.

Lemma settle_spec e L (s : Run_) : inner_ok s -> resource_log e = resource_log (engine s) ++ L ->
  let s' := settle e s in
  engine s' = e /\ calls s' = calls s /\ drawn s' = drawn s /\ inner_ok s' /\
  (forall i, unreleased (guards s' !! i) -> unreleased (guards s !! i) /\ forall x, x ∈ L -> resource_of x <> guard_resource i) /\
  (forall i, (forall x, x ∈ L -> resource_of x <> guard_resource i) -> guards s' !! i = guards s !! i).
Proof. intros I HL. unfold settle. rewrite HL, drop_app_length. exact (perform_all L {| engine := e; inner := inner s; guards := guards s; calls := calls s; drawn := drawn s |} I). Qed.

(** *** The engine moves *)

Lemma moves_call_id j L st st' : moves j L st st' -> token_call_id st' = token_call_id st.
Proof. destruct st; simpl; naive_solver. Qed.

Lemma attached_step extra (e e' : Engine W G) L i tok : steps_to extra e e' -> resource_log e' = resource_log e ++ L ->
  (forall x, x ∈ L -> resource_of x <> guard_resource i) -> attached e i tok -> attached e' i tok.
Proof.
  intros [[j Hj] (L' & HL & _ & Hm) _] HL' Hx. assert (L' = L) as -> by (rewrite HL in HL'; by apply app_inv_head in HL').
  intros [(cl & held & Ho & Hi)|(call_id & Ho & Hin)]; apply Hm in Ho as (st' & Ho' & M).
  - destruct M as [(held' & -> & Hs)|[(-> & [Hd|Hb])|(-> & Hb)]].
    + left. exists cl, held'. eauto.
    + right. eauto.
    + exfalso. by apply (Hx _ (Hb _ Hi)).
    + exfalso. by apply (Hx _ (Hb _ Hi)).
  - simpl in M. subst st'. right. exists call_id. split; [done|]. rewrite Hj. set_solver.
Qed.

Lemma claims_step extra (e e' : Engine W G) tok call_id : steps_to extra e e' ->
  (exists st, token_states e !! tok = Some st /\ token_call_id st = call_id) ->
  exists st, token_states e' !! tok = Some st /\ token_call_id st = call_id.
Proof. intros [_ (L & _ & _ & Hm) _] (st & Ho & E). apply Hm in Ho as (st' & Ho' & M%moves_call_id). exists st'. split; congruence. Qed.

Lemma engine_step extra (s : Run_) e m m' : run_ok s m -> steps_to extra (engine s) e -> tracked issue e m' ->
  (forall tok i, held_by e tok (guard_resource i) -> held_by (engine s) tok (guard_resource i)) -> run_ok (settle e s) m'.
Proof.
  intros [I T Hh Ha Hc] St T' Hheld. pose proof St as [_ (L & HL & _) _].
  destruct (settle_spec e L s I HL) as (E1 & E2 & E3 & I' & Hu & Hk). constructor; rewrite ?E1, ?E2; try done.
  - eauto.
  - intros i c Hi Hr Hs [Hg Hx]%Hu. by eapply attached_step, Ha.
  - intros i c claims Hi Hcl. by eapply claims_step, Hc.
Qed.

(** *** A call moves *)

Lemma set_progress_calls i p c (s : Run_) : calls s !! i = Some c -> calls (set_progress i p s) = <[i := at_progress p c]> (calls s).
Proof.
  intros Hc. simpl. apply list_eq. intros j. rewrite list_lookup_alter. destruct (decide (i = j)) as [<-|Hne].
  - rewrite Hc, list_lookup_insert_eq by by eapply lookup_lt_Some. done.
  - by rewrite list_lookup_insert_ne.
Qed.

Definition returned (p : Progress) : bool := match p with Returned _ _ _ => true | _ => false end.

(** The engine stays; a call that had not returned moves, and returns no
    artifact of its own as a result. *)
Lemma call_step (s s' : Run_) m i c p : run_ok s m -> calls s !! i = Some c -> returned (ca_progress c) = false ->
  engine s' = engine s -> calls s' = <[i := at_progress p c]> (calls s) ->
  (forall j, j <> i -> guards s' !! j = guards s !! j) -> inner_ok s' ->
  (is_result c = true -> ~ succeeded (at_progress p c)) ->
  (forall claims, claims_of (at_progress p c) = Some claims -> claims_of c = Some claims \/
     exists st, token_states (engine s) !! ca_token c = Some st /\ token_call_id st = tc_call_id claims) ->
  run_ok s' m.
Proof.
  intros [I T Hh Ha Hc] Hi Hret Ee Ec Hg I' Hns Hcl.
  assert (forall j cj, calls s' !! j = Some cj -> (j = i /\ cj = at_progress p c) \/ (j <> i /\ calls s !! j = Some cj)) as Hl.
  { intros j cj. rewrite Ec. destruct (decide (j = i)) as [->|Hne].
    - rewrite list_lookup_insert_eq by by eapply lookup_lt_Some. intros [= <-]. by left.
    - rewrite list_lookup_insert_ne by done. by right. }
  constructor; rewrite ?Ee; try done.
  - intros tok j (cj & Hj & Ht & Hs & Hr)%Hh. exists cj. split; [|done]. rewrite Ec, list_lookup_insert_ne; [done|].
    intros ->. destruct Hs as (cl & r & Hp). assert (c = cj) as -> by congruence. by rewrite Hp in Hret.
  - intros j cj [[-> ->]|[Hne Hj]]%Hl Hr Hs; [by destruct (Hns Hr)|]. rewrite Hg by done. eauto.
  - intros j cj cl [[-> ->]|[Hne Hj]]%Hl Hcj; [|eauto]. destruct (Hcl cl Hcj) as [|]; [|done]. by apply (Hc i c cl).
Qed.

(** The same with the engine's state, the call having been authorized. *)
Lemma begin_ok i c tok risk k (s : Run_) m : run_ok s m -> calls s !! i = Some c -> ca_token c = tok -> ca_progress c = Called ->
  run_ok (begin_call clock cancelled frozen owner i tok risk k s) m.
Proof.
  intros R Hi Ht Hp. unfold begin_call, authorize_call.
  destruct (authorize clock cancelled frozen owner tok risk (engine s)) as [e r] eqn:Ea.
  assert (view e = view (engine s) /\ resource_log e = resource_log (engine s)) as [Hv Hl].
  { change e with (fst (e, r)). rewrite <- Ea. split; [apply quiet_authorize|apply mute_authorize]. }
  assert (run_ok (settle e s) m) as R'.
  { eapply (engine_step []); [done|by apply mute_still|by eapply tracked_view, R|].
    unfold held_by. by injection Hv as -> _. }
  destruct (settle_spec e [] s (k_inner _ _ R) ltac:(by rewrite app_nil_r)) as (E1 & E2 & E3 & I' & _ & _).
  rewrite <- E2 in Hi. pose proof (o_calls _ _ _ _ _ (proj1 I') i c Hi) as Ho. unfold call_ok in Ho. rewrite Hp in Ho.
  assert (forall p, call_ok uuid (inner (settle e s)) (drawn (settle e s)) (guards (settle e s) !! i) (at_progress p c) ->
    refer_of (at_progress p c) = None -> key_of (guards (settle e s) !! i) (at_progress p c) = None ->
    (forall cl, claims_of (at_progress p c) = Some cl -> r = Ok cl) -> run_ok (set_progress i p (settle e s)) m) as Hgo.
  { intros p Hok Hr Hk Hcl. eapply (call_step (settle e s)); try done; [by rewrite Hp|by apply set_progress_calls| | |].
    - split; [|apply I']. rewrite (set_progress_calls i p c) by done. simpl.
      eapply store_progress; try done; [apply I'| |].
      + rewrite Hr. unfold refer_of. by rewrite Hp.
      + rewrite Hk. unfold key_of. by rewrite Hp, Ho.
    - intros _ (cl & rf & Hs). unfold refer_of in Hr. by rewrite Hs in Hr.
    - intros cl Hcl'. right. rewrite (Hcl cl Hcl') in Ea. apply authorize_safe in Ea as (_ & _ & (held & Ho') & _).
      exists (TOpen cl held). rewrite E1, Ht. by injection Hv as -> _. }
  destruct r as [claims|error]; simpl; [destruct (k claims) as [bound|error]|]; 
    apply Hgo; try done; unfold key_of, claims_of; simpl; rewrite ?Ho; try done; intros cl Hcl; simplify_eq; done.
Qed.

(** A call registers its guard. *)
Lemma register_error tok r (e e' : Engine W G) error : register_resource tok r e = (e', Err error) -> view e' = view e /\
  forall claims held, token_states e !! tok <> Some (TOpen claims held).
Proof.
  unfold register_resource, bind, get, log_resources, set_tokens, fail. cbn.
  destruct (token_states e !! tok) as [[]|]; by intros [= <- <-].
Qed.

Lemma register_done tok r (e e' : Engine W G) u : register_resource tok r e = (e', Ok u) ->
  exists claims held, token_states e !! tok = Some (TOpen claims held) /\
    token_states e' = <[tok := TOpen claims (held ++ [r])]> (token_states e) /\
    call_count e' = call_count e /\ issued e' = issued e /\ journal e' = journal e /\ resource_log e' = resource_log e.
Proof.
  unfold register_resource, bind, get, log_resources, set_tokens, fail. cbn.
  destruct (token_states e !! tok) as [[cl held|?|?]|] eqn:E; intros [= <- <-]. by exists cl, held.
Qed.

Lemma registered_ok i c claims refer e u (s : Run_) m : run_ok s m -> calls s !! i = Some c -> ca_progress c = Stored claims refer ->
  is_result c = true -> claims_of c = Some claims ->
  register_resource (ca_token c) (guard_resource i) (engine s) = (e, Ok u) ->
  let p := Returned (Some claims) (Some refer) (Ok (RefReply refer)) in
  inner_ok (set_progress i p (settle e s)) -> run_ok (set_progress i p (settle e s)) m.
Proof.
  intros R Hi Hp Hres Hcl Hreg p I'. pose proof (register_steps _ _ _ _ _ Hreg) as St.
  apply register_done in Hreg as (cl & held & Et & Et' & En & Ei & Ej & El).
  destruct (settle_spec e [] s (k_inner _ _ R) ltac:(by rewrite app_nil_r)) as (E1 & E2 & E3 & _ & Hu & _).
  destruct R as [I T Hh Ha Hc]. constructor; [done|..]; change (engine (set_progress i p (settle e s))) with (engine (settle e s));
    rewrite ?E1, ?(set_progress_calls i p c), ?E2 by by rewrite E2.
  - unfold tracked. rewrite Et', En, Ei. replace m with (<[tc_call_id cl := phase (TOpen cl held)]> m).
    + by apply (tracks_retoken _ _ _ _ _ (ca_token c) (TOpen cl held) (TOpen cl (held ++ [guard_resource i])) T).
    + apply insert_id. by apply (tracks_phase _ _ _ _ _ _ _ T Et).
  - intros tok j (cl' & held' & Ho & Hin). rewrite Et' in Ho. destruct (decide (j = i)) as [->|Hne].
    + rewrite list_lookup_insert_eq by by eapply lookup_lt_Some. eexists. split; [done|].
      destruct (decide (tok = ca_token c)) as [->|Hne]; [split_and!; [done| |done]; by exists (Some claims), refer|].
      rewrite lookup_insert_ne in Ho by done. destruct (Hh tok i) as (c' & Hc' & _ & (? & ? & Hs) & _); [by exists cl', held'|].
      assert (c = c') as -> by congruence. congruence.
    + rewrite list_lookup_insert_ne by done. apply Hh. destruct (decide (tok = ca_token c)) as [->|Hn].
      * rewrite lookup_insert_eq in Ho. injection Ho as <- <-. exists cl, held. split; [done|].
        apply elem_of_app in Hin as [?|Heq%list_elem_of_singleton]; [done|]. unfold guard_resource in *. lia.
      * rewrite lookup_insert_ne in Ho by done. by exists cl', held'.
  - intros j cj Hj Hr Hs Hg. change (guards (set_progress i p (settle e s))) with (guards (settle e s)) in Hg.
    destruct (decide (j = i)) as [->|Hne].
    + rewrite list_lookup_insert_eq in Hj by by eapply lookup_lt_Some. injection Hj as <-. left.
      exists cl, (held ++ [guard_resource i]). rewrite Et', lookup_insert_eq. split; [done|]. set_solver.
    + rewrite list_lookup_insert_ne in Hj by done. eapply (attached_step _ _ _ []); [exact St|by rewrite app_nil_r| |].
      * by intros x Hx%elem_of_nil.
      * eapply Ha; try done. by apply Hu.
  - intros j cj clj Hj Hcj. destruct (decide (j = i)) as [->|Hne].
    + rewrite list_lookup_insert_eq in Hj by by eapply lookup_lt_Some. injection Hj as <-. injection Hcj as <-.
      eapply claims_step; [exact St|]. by apply (Hc i c claims).
    + rewrite list_lookup_insert_ne in Hj by done. eapply claims_step; [exact St|]. by apply (Hc j cj clj).
Qed.

Lemma register_ok i c claims refer e r (s : Run_) m : run_ok s m -> calls s !! i = Some c -> ca_progress c = Stored claims refer ->
  register_resource (ca_token c) (guard_resource i) (engine s) = (e, r) ->
  run_ok (set_progress i (match r with
    | Ok _ => Returned (Some claims) (Some refer) (Ok (RefReply refer))
    | Err error => Undoing claims refer (from_lifecycle error) end) (settle e s)) m.
Proof.
  intros R Hi Hp Hreg. pose proof (register_steps _ _ _ _ _ Hreg) as St. pose proof St as [_ (L & HL & _) _].
  destruct (settle_spec e L s (k_inner _ _ R) HL) as (E1 & E2 & E3 & I' & Hu & Hk).
  destruct (proj1 (k_inner _ _ R)) as [Hcalls _ _ _ _]. pose proof (Hcalls i c Hi) as Ho. unfold call_ok in Ho. rewrite Hp in Ho.
  destruct Ho as (bytes & md & guard & Hreq & _). assert (is_result c = true) as Hres by (unfold is_result; by rewrite Hreq).
  pose proof (o_calls _ _ _ _ _ (proj1 I') i c) as Ho. rewrite E2 in Ho. specialize (Ho Hi). pose proof Ho as Ho'.
  unfold call_ok in Ho'. rewrite Hp in Ho'. destruct Ho' as (bytes' & md' & guard' & Hreq' & Hd & Eg & Hf).
  assert (forall p, (p = Returned (Some claims) (Some refer) (Ok (RefReply refer)) \/ exists error, p = Undoing claims refer error) ->
    inner_ok (set_progress i p (settle e s))) as HI.
  { intros p Hpp. split; [|apply I']. rewrite (set_progress_calls i p c) by by rewrite E2. simpl.
    eapply (store_progress _ uuid_inj _ _ _ _ i c); [apply I'|by rewrite E2| | | |done].
    - unfold call_ok. destruct Hpp as [->|[error ->]]; simpl.
      + split; [done|]. rewrite Hreq'. eauto.
      + eauto 10.
    - unfold refer_of. rewrite Hp. by destruct Hpp as [->|[error ->]].
    - unfold key_of. rewrite Hp. by destruct Hpp as [->|[error ->]]. }
  assert (claims_of c = Some claims) as Hcl by (unfold claims_of; by rewrite Hp).
  destruct r as [u|error].
  - apply (registered_ok i c claims refer e u s m); eauto.
  - assert (run_ok (settle e s) m) as R'.
    { eapply engine_step; [exact R|exact St| |]; apply register_error in Hreg as [Hv _].
      - by eapply tracked_view, R.
      - unfold held_by. by injection Hv as -> _. }
    eapply (call_step (settle e s)); try done; [by rewrite E2|by rewrite Hp|apply set_progress_calls; by rewrite E2|eauto| |].
    + by intros _ (? & ? & ?).
    + rewrite Hcl. eauto.
Qed.

(** *** Each step of a call *)

Lemma store_call_spec claims bytes md (s s' : Run_) r : store_call uuid limits claims bytes md s = (s', r) ->
  engine s' = engine s /\ calls s' = calls s /\ guards s' = guards s /\
  store_bytes limits (uuid (drawn s)) claims bytes md (inner s) = (inner s', r) /\
  drawn s' = if is_ok r then S (drawn s) else drawn s.
Proof.
  unfold store_call. destruct (store_bytes _ _ _ _ _ _) as [x r'] eqn:E. intros [= <- <-]. by destruct r'.
Qed.

Lemma put_step i c claims bytes md0 md (s : Run_) m : run_ok s m -> calls s !! i = Some c -> ca_request c = PutRequest bytes md0 ->
  ca_progress c = Checked claims md ->
  run_ok (match store_call uuid limits claims bytes md s with
          | (s', Ok refer) => set_progress i (Returned (Some claims) (Some refer) (Ok (RefReply refer))) s'
          | (s', Err error) => set_progress i (Returned (Some claims) None (Err error)) s'
          end) m.
Proof.
  intros R Hi Hq Hp. destruct (k_inner _ _ R) as [S Q].
  pose proof (o_calls _ _ _ _ _ S i c Hi) as Ho. unfold call_ok in Ho. rewrite Hp in Ho.
  assert (is_result c = false) as Hres by (unfold is_result; by rewrite Hq).
  assert (claims_of c = Some claims) as Hcl by (unfold claims_of; by rewrite Hp).
  destruct (store_call _ _ _ _ _ s) as [s' [refer|error]] eqn:Es; apply store_call_spec in Es as (E1 & E2 & E3 & Es & E4); simpl in E4.
  - eapply (call_step s); try done; [by rewrite Hp|by rewrite <- E2; apply set_progress_calls; rewrite E2|by rewrite <- E3| | |].
    + split; [|by eapply quota_stored, Q; [done|eapply fresh_id|]]. rewrite (set_progress_calls i _ c) by by rewrite E2.
      simpl. rewrite E2, E3, E4. eapply stored_ok; try done; unfold refer_of, is_result, key_of; simpl; rewrite ?Hp, ?Hq, ?Ho; try done.
      intros Hx _ Hd. unfold call_ok. simpl. by rewrite Hq.
    + by rewrite Hres.
    + intros cl [= <-]. by left.
  - apply store_bytes_cases in Es as [(e & [= <-] & Ex)|(? & ? & _)]; [|done].
    eapply (call_step s); try done; [by rewrite Hp|by rewrite <- E2; apply set_progress_calls; rewrite E2|by rewrite <- E3| | |].
    + split; [|by simpl; rewrite Ex]. rewrite (set_progress_calls i _ c) by by rewrite E2. simpl. rewrite E2, E3, E4, Ex.
      eapply store_progress; try done; unfold refer_of, key_of; simpl; by rewrite Hp.
    + by intros _ (? & ? & ?).
    + intros cl [= <-]. by left.
Qed.

Lemma put_result_step i c claims bytes md0 md (s : Run_) m : run_ok s m -> calls s !! i = Some c ->
  ca_request c = PutResultRequest bytes md0 -> ca_progress c = Reserved claims md ->
  run_ok (match store_call uuid limits claims bytes md s with
          | (s', Ok refer) =>
              set_progress i (Stored claims refer)
                (with_guards (<[i := {| ga_id := ar_id refer; ga_call_key := result_call_key claims;
                                        ga_len := ar_len refer; ga_released := false |}]> (guards s')) s')
          | (s', Err error) => set_progress i (Refused claims error) s'
          end) m.
Proof.
  intros R Hi Hq Hp. destruct (k_inner _ _ R) as [S Q].
  pose proof (o_calls _ _ _ _ _ S i c Hi) as Ho. unfold call_ok in Ho. rewrite Hp in Ho. destruct Ho as (Ho & Hres & Hk).
  assert (claims_of c = Some claims) as Hcl by (unfold claims_of; by rewrite Hp).
  destruct (store_call _ _ _ _ _ s) as [s' [refer|error]] eqn:Es; apply store_call_spec in Es as (E1 & E2 & E3 & Es & E4); simpl in E4.
  - eapply (call_step s); try done; [by rewrite Hp|rewrite (set_progress_calls i _ c) by (simpl; by rewrite E2); simpl; by rewrite E2| | | |].
    + intros j Hne. simpl. by rewrite lookup_insert_ne, E3.
    + split; [|by eapply quota_stored, Q; [done|eapply fresh_id|]].
      rewrite (set_progress_calls i _ c) by by simpl; rewrite E2. simpl. rewrite E2, E3, E4.
      pose proof Es as Es'. apply store_bytes_cases in Es' as [(? & ? & _)|(? & [= <-] & _ & El & _)]; [done|].
      eapply stored_ok; try done; unfold refer_of, key_of; simpl; rewrite ?Hp, ?lookup_insert_eq; try done.
      * intros j Hne. by rewrite lookup_insert_ne.
      * intros _. by eexists.
      * intros Hx Hc Hd. unfold call_ok. simpl. eexists bytes, md0, _. split_and!; try done.
        split_and!; try done. intros _. split; [done|by rewrite Hc].
      * simpl. by left.
    + by intros _ (? & ? & ?).
    + intros cl [= <-]. by left.
  - apply store_bytes_cases in Es as [(e & [= <-] & Ex)|(? & ? & _)]; [|done].
    eapply (call_step s); try done; [by rewrite Hp|by rewrite <- E2; apply set_progress_calls; rewrite E2|by rewrite <- E3| | |].
    + split; [|by simpl; rewrite Ex]. rewrite (set_progress_calls i _ c) by by rewrite E2. simpl. rewrite E2, E3, E4, Ex.
      eapply store_progress; try done; unfold refer_of, key_of; simpl; by rewrite Hp.
    + by intros _ (? & ? & ?).
    + intros cl [= <-]. by left.
Qed.

(** Only the call's progress changes. *)
Lemma progress_step i c p (s : Run_) m : run_ok s m -> calls s !! i = Some c -> returned (ca_progress c) = false ->
  call_ok uuid (inner s) (drawn s) (guards s !! i) (at_progress p c) -> refer_of (at_progress p c) = refer_of c ->
  key_of (guards s !! i) (at_progress p c) = key_of (guards s !! i) c -> claims_of (at_progress p c) = claims_of c ->
  (is_result c = true -> ~ succeeded (at_progress p c)) -> run_ok (set_progress i p s) m.
Proof.
  intros R Hi Hr Hok Hrf Hk Hc Hs. destruct (k_inner _ _ R) as [S Q].
  eapply (call_step s); try done; [by apply set_progress_calls| |rewrite Hc; eauto].
  split; [|done]. rewrite (set_progress_calls i _ c) by done. by eapply store_progress.
Qed.

Lemma undo_step i c claims refer error (s : Run_) m : run_ok s m -> calls s !! i = Some c -> ca_progress c = Undoing claims refer error ->
  run_ok (set_progress i (Returned (Some claims) (Some refer) (Err error)) (retract i s)) m.
Proof.
  intros R Hi Hp. destruct (retract_spec i s (k_inner _ _ R)) as (E1 & E2 & E3 & [S' Q'] & Hn & Hg).
  rewrite <- E2 in Hi. pose proof (o_calls _ _ _ _ _ S' i c Hi) as Ho. unfold call_ok in Ho. rewrite Hp in Ho.
  destruct Ho as (bytes & md & guard & Hq & Hd & Eg & Hf).
  eapply (call_step s); try done; [by rewrite E2 in Hi|by rewrite Hp|rewrite <- E2; by apply set_progress_calls| | |].
  - split; [|done]. rewrite (set_progress_calls i _ c) by done. simpl. eapply store_progress; try done.
    + unfold call_ok. simpl. rewrite Hq. split; [done|]. split; [by right|]. by exists guard.
    + unfold refer_of. simpl. by rewrite Hp.
    + unfold key_of. simpl. by rewrite Hp.
  - by intros _ (? & ? & ?).
  - intros cl [= <-]. left. unfold claims_of. by rewrite Hp.
Qed.

Lemma advance_ok i (s : Run_) m : run_ok s m -> run_ok (advance clock cancelled uuid frozen owner limits i s) m.
Proof.
  intros R. unfold advance. destruct (calls s !! i) as [c|] eqn:Hi; [|done]. destruct (k_inner _ _ R) as [S Q].
  pose proof (o_calls _ _ _ _ _ S i c Hi) as Ho. unfold call_ok in Ho.
  destruct (ca_progress c) as [|claims bound|claims bound|claims error|claims refer|claims refer error|? ? ?] eqn:Hp.
  - destruct (ca_request c); by eapply begin_ok.
  - destruct (ca_request c) as [bytes md|bytes md|id|id] eqn:Hq; [by eapply put_step| | |].
    + destruct (reserve _ _) as [x|] eqn:Er.
      * assert (is_result c = true) as Hres by (unfold is_result; by rewrite Hq).
        destruct (reserve_ok uuid limits uuid_inj _ _ _ _ _ _ _ _ _ S Hi Hp Hres Er) as [S' Q'].
        eapply (call_step s); try done; [by rewrite Hp|by apply (set_progress_calls i _ c (with_inner _ s))| | |].
        -- split; [|by apply Q']. by rewrite (set_progress_calls i _ c).
        -- by intros _ (? & ? & ?).
        -- intros cl [= <-]. left. unfold claims_of. by rewrite Hp.
      * eapply progress_step; try done; unfold refer_of, key_of, claims_of; simpl; rewrite ?Hp; try done. by intros _ (? & ? & ?).
    + eapply progress_step; try done; unfold refer_of, key_of, claims_of; simpl; rewrite ?Hp; try done. by intros _ (? & ? & ?).
    + eapply progress_step; try done; unfold refer_of, key_of, claims_of; simpl; rewrite ?Hp; try done. by intros _ (? & ? & ?).
  - destruct (ca_request c) as [bytes md|bytes md|id|id] eqn:Hq; try done. by eapply put_result_step.
  - eapply (call_step s); try done; [by rewrite Hp|by apply (set_progress_calls i _ c (with_inner _ s))| | |].
    + split; [|done]. rewrite (set_progress_calls i _ c) by done. by eapply unreserve_ok.
    + by intros _ (? & ? & ?).
    + intros cl [= <-]. left. unfold claims_of. by rewrite Hp.
  - destruct (register_resource _ _ _) as [e r] eqn:Er. pose proof (register_ok _ _ _ _ _ _ _ _ R Hi Hp Er) as X. by destruct r.
  - by eapply undo_step.
  - done.
Qed.

Lemma start_request_ok tok q (s : Run_) m : run_ok s m -> run_ok (act_ s (Start tok q)) m.
Proof.
  intros [[S Q] T Hh Ha Hc].
  assert (forall i c, (calls s ++ [{| ca_token := tok; ca_request := q; ca_progress := Called |}]) !! i = Some c ->
    calls s !! i = Some c \/ guards s !! i = None /\ ca_progress c = Called) as Hl.
  { intros i c [Hi|[Hi Hs]]%lookup_app_Some; [by left|right]. split.
    - destruct (guards s !! i) eqn:E; [|done]. apply (o_guards _ _ _ _ _ S) in E. lia.
    - apply list_lookup_singleton_Some in Hs as [_ <-]. done. }
  constructor; simpl; try done.
  - split; [|done]. constructor; simpl.
    + intros i c [Hi|[Hg Hp]]%Hl; [by apply (o_calls _ _ _ _ _ S)|]. unfold call_ok. by rewrite Hp.
    + intros i g Hg. apply (o_guards _ _ _ _ _ S) in Hg. rewrite length_app. simpl. lia.
    + intros i j c1 c2 r1 r2 [Hi|[_ Hp]]%Hl [Hj|[_ Hp']]%Hl; unfold refer_of; rewrite ?Hp, ?Hp'; try done.
      by apply (o_distinct _ _ _ _ _ S i j c1 c2 r1 r2).
    + intros i j c1 c2 k [Hi|[Hg Hp]]%Hl [Hj|[Hg' Hp']]%Hl; unfold key_of; rewrite ?Hp, ?Hp', ?Hg, ?Hg'; try done.
      by apply (o_keys _ _ _ _ _ S i j c1 c2 k).
    + intros id rec (i & c & r & Hi & X)%(o_origin _ _ _ _ _ S). exists i, c, r. split; [|done]. by apply lookup_app_l_Some.
  - intros t i (c & Hi & X)%Hh. exists c. split; [|done]. by apply lookup_app_l_Some.
  - intros i c [Hi|[_ Hp]]%Hl Hr (? & ? & Hs); [|congruence]. apply Ha; try done. by eexists _, _.
  - intros i c cl [Hi|[_ Hp]]%Hl; [by apply (Hc i c cl)|]. unfold claims_of. by rewrite Hp.
Qed.

Lemma act_ok a (s : Run_) m : run_ok s m -> exists m', run_ok (act_ s a) m'.
Proof.
  intros R. destruct a as [tok q|i|op]; [exists m; by apply start_request_ok|exists m; by apply advance_ok|]. simpl.
  destruct (exec clock instant cancelled issue frozen (foreign op) (engine s)) as [e a] eqn:E.
  destruct (sim_step clock instant cancelled issue frozen issue_inj limit_u64 _ _ _ _ m (k_tracked _ _ R) E) as (j & m' & _ & _ & T').
  apply (exec_steps _ _ _ _ _ issue_inj _ _ _ _ m (k_tracked _ _ R)) in E. exists m'.
  eapply engine_step; [done|exact E|done|]. intros tok i [Hx|]%(st_held _ _ _ E); [|done]. exfalso.
  destruct op; simpl in Hx; try by apply elem_of_nil in Hx. apply list_elem_of_singleton in Hx. unfold guard_resource in Hx. lia.
Qed.

Lemma run_reach actions (s : Run_) m : run_ok s m -> exists m', run_ok (run_ actions s) m'.
Proof.
  revert s m. induction actions as [|a actions IH]; intros s m R; [by exists m|]. simpl.
  destruct (act_ok a s m R) as [m' R']. by apply (IH _ m').
Qed.

(** *** What a step leaves of the calls *)

Lemma retract_calls i (s : Run_) : calls (retract i s) = calls s.
Proof. unfold retract. by repeat case_match. Qed.

Lemma perform_calls L (s : Run_) : calls (fold_left perform L s) = calls s.
Proof.
  revert s. induction L as [|x L IH]; intros s; [done|]. simpl. rewrite IH. unfold perform.
  destruct (Nat.even _); [apply retract_calls|done].
Qed.

Lemma settle_calls e (s : Run_) : calls (settle e s) = calls s.
Proof. unfold settle. by rewrite perform_calls. Qed.

(** How a call may go on: what it holds it keeps, and bytes it returns were
    looked up. *)
Definition continues (s : Run_) (c : Call) (p : Progress) : Prop :=
  (returned (ca_progress c) = true -> p = ca_progress c) /\
  (forall claims, claims_of c = Some claims -> claims_of (at_progress p c) = Some claims) /\
  (forall refer, refer_of c = Some refer -> refer_of (at_progress p c) = Some refer) /\
  (forall claims refer bytes, p = Returned claims refer (Ok (BytesReply bytes)) -> ca_progress c = p \/
     exists claims' id rec, claims = Some claims' /\ ca_request c = GetRequest id /\ lookup claims' id (inner s) = Ok rec /\ rc_bytes rec = bytes).

Lemma continues_same s c : continues s c (ca_progress c).
Proof. split_and!; destruct c as [t q p]; eauto. Qed.

Lemma continues_to s c p : returned (ca_progress c) = false -> (claims_of c = None \/ claims_of (at_progress p c) = claims_of c) ->
  (refer_of c = None \/ refer_of (at_progress p c) = refer_of c) -> (forall claims refer bytes, p <> Returned claims refer (Ok (BytesReply bytes))) ->
  continues s c p.
Proof.
  intros H1' H2 H3 H4. split_and!; [by rewrite H1'|destruct H2 as [->| ->]; [done|eauto]|destruct H3 as [->| ->]; [done|eauto]|].
  intros claims refer bytes ->. by destruct (H4 claims refer bytes).
Qed.

Lemma begin_continues i c tok risk k (s : Run_) : calls s !! i = Some c -> ca_progress c = Called ->
  exists p, calls (begin_call clock cancelled frozen owner i tok risk k s) = <[i := at_progress p c]> (calls s) /\ continues s c p.
Proof.
  intros Hi Hp. unfold begin_call, authorize_call. destruct (authorize _ _ _ _ _ _ _) as [e r].
  destruct r as [claims|error]; cbn [map_err]; [destruct (k claims)|];
    (eexists; split; [erewrite set_progress_calls, settle_calls; [done|by rewrite settle_calls]|]);
    apply continues_to; unfold claims_of, refer_of; rewrite ?Hp; auto.
Qed.

Lemma advance_continues i c (s : Run_) : calls s !! i = Some c ->
  exists p, calls (advance clock cancelled uuid frozen owner limits i s) = <[i := at_progress p c]> (calls s) /\ continues s c p.
Proof.
  intros Hi. unfold advance. rewrite Hi.
  assert (exists p, calls s = <[i := at_progress p c]> (calls s) /\ continues s c p) as Hsame.
  { exists (ca_progress c). split; [|apply continues_same]. symmetry. apply list_insert_id. rewrite Hi. by destruct c. }
  destruct (ca_progress c) as [|claims bound|claims bound|claims error|claims refer|claims refer error|? ? ?] eqn:Hp.
  - destruct (ca_request c); by apply begin_continues.
  - destruct (ca_request c) as [bytes md|bytes md|id|id] eqn:Hq.
    + destruct (store_call _ _ _ _ _ s) as [s' [refer|error]] eqn:Es; apply store_call_spec in Es as (_ & E2 & _);
        (eexists; split; [erewrite set_progress_calls, E2; [done|by rewrite E2]|]);
        apply continues_to; unfold claims_of, refer_of; rewrite ?Hp; auto.
    + destruct (reserve _ _); (eexists; split; [first [exact (set_progress_calls i _ c s Hi)|exact (set_progress_calls i _ c (with_inner _ s) Hi)]|]);
        apply continues_to; unfold claims_of, refer_of; rewrite ?Hp; auto.
    + eexists. split; [by apply set_progress_calls|]. split_and!; unfold claims_of, refer_of; rewrite ?Hp; try done.
      intros cl rf bytes. destruct (lookup claims id (inner s)) as [rec|] eqn:El; [|done]. intros [= <- <- <-]. right.
      exists claims, id, rec. done.
    + eexists. split; [by apply set_progress_calls|]. apply continues_to; unfold claims_of, refer_of; rewrite ?Hp; auto.
      intros cl rf bytes. by destruct (lookup claims id (inner s)).
  - destruct (ca_request c); try done.
    destruct (store_call _ _ _ _ _ s) as [s' [refer|error]] eqn:Es; apply store_call_spec in Es as (_ & E2 & _);
      (eexists; split; [erewrite set_progress_calls; [simpl; rewrite E2; done|by simpl; rewrite E2]|]);
      apply continues_to; unfold claims_of, refer_of; rewrite ?Hp; auto.
  - eexists. split; [exact (set_progress_calls i _ c (with_inner _ s) Hi)|]. apply continues_to; unfold claims_of, refer_of; rewrite ?Hp; auto.
  - destruct (register_resource _ _ _) as [e [u|error]];
      (eexists; split; [erewrite set_progress_calls, settle_calls; [done|by rewrite settle_calls]|]);
      apply continues_to; unfold claims_of, refer_of; rewrite ?Hp; auto.
  - eexists. split; [erewrite set_progress_calls, retract_calls; [done|by rewrite retract_calls]|].
    apply continues_to; unfold claims_of, refer_of; rewrite ?Hp; auto.
  - done.
Qed.

Lemma act_calls i c a (s : Run_) : calls s !! i = Some c ->
  exists p, calls (act_ s a) !! i = Some (at_progress p c) /\ continues s c p.
Proof.
  intros Hi. assert (at_progress (ca_progress c) c = c) as Hc by by destruct c. destruct a as [tok q|j|op].
  - exists (ca_progress c). rewrite Hc. split; [by apply lookup_app_l_Some|apply continues_same].
  - simpl. destruct (calls s !! j) as [cj|] eqn:Hj.
    + destruct (advance_continues j cj s Hj) as (p & -> & Hp). destruct (decide (j = i)) as [->|Hne].
      * assert (cj = c) as -> by congruence. exists p. rewrite list_lookup_insert_eq by by eapply lookup_lt_Some. done.
      * exists (ca_progress c). rewrite list_lookup_insert_ne, Hc by done. split; [done|apply continues_same].
    + unfold advance. rewrite Hj. exists (ca_progress c). rewrite Hc. split; [done|apply continues_same].
  - simpl. rewrite settle_calls. exists (ca_progress c). rewrite Hc. split; [done|apply continues_same].
Qed.

(** *** What a step leaves of the guards *)

Lemma begin_guards i j tok risk k (s : Run_) : inner_ok s ->
  guards (begin_call clock cancelled frozen owner j tok risk k s) !! i = guards s !! i.
Proof.
  intros I. unfold begin_call, authorize_call. destruct (authorize _ _ _ _ _ _ _) as [e r] eqn:Ea.
  assert (resource_log e = resource_log (engine s) ++ []) as Hl.
  { rewrite app_nil_r. change e with (fst (e, r)). rewrite <- Ea. apply mute_authorize. }
  destruct (settle_spec e [] s I Hl) as (_ & _ & _ & _ & _ & Hg).
  assert (guards (settle e s) !! i = guards s !! i) as E by (apply Hg; by intros x Hx%elem_of_nil).
  destruct r as [claims|error]; cbn [map_err]; [destruct (k claims)|]; exact E.
Qed.

Lemma register_log tok r (e e' : Engine W G) a : register_resource tok r e = (e', a) ->
  exists L, resource_log e' = resource_log e ++ L /\ forall x, x ∈ L -> resource_of x = r.
Proof.
  unfold register_resource, bind, get, log_resources, set_tokens, fail. cbn.
  destruct (token_states e !! tok) as [[]|]; intros [= <- <-]; cbn;
    try (exists []; rewrite app_nil_r; split; [done|]; by intros x Hx%elem_of_nil);
    (eexists; split; [done|]; by intros x ->%list_elem_of_singleton).
Qed.

Lemma advance_guards i j (s : Run_) : inner_ok s -> i <> j ->
  guards (advance clock cancelled uuid frozen owner limits j s) !! i = guards s !! i.
Proof.
  intros I Hne. unfold advance. destruct (calls s !! j) as [c|] eqn:Hj; [|done].
  destruct (ca_progress c) as [|claims bound|claims bound|claims error|claims refer|claims refer error|? ? ?] eqn:Hp.
  - destruct (ca_request c); by apply begin_guards.
  - destruct (ca_request c); [|by destruct (reserve _ _)|done..].
    destruct (store_call _ _ _ _ _ s) as [s' [refer|error]] eqn:Es; apply store_call_spec in Es as (_ & _ & E3 & _); simpl; by rewrite E3.
  - destruct (ca_request c); try done.
    destruct (store_call _ _ _ _ _ s) as [s' [refer|error]] eqn:Es; apply store_call_spec in Es as (_ & _ & E3 & _); simpl;
      rewrite E3; [by rewrite lookup_insert_ne|done].
  - done.
  - destruct (register_resource _ _ _) as [e r] eqn:Er. apply register_log in Er as (L & HL & Hx).
    destruct (settle_spec e L s I HL) as (_ & _ & _ & _ & _ & Hg).
    assert (guards (settle e s) !! i = guards s !! i) as E.
    { apply Hg. intros x ->%Hx. unfold guard_resource. lia. }
    by destruct r.
  - simpl. destruct (retract_spec j s I) as (_ & _ & _ & _ & _ & Hg). by apply Hg.
  - done.
Qed.

(** A result artifact whose token was committed. *)
Definition published (i : nat) (c : Call) (guard : ResultArtifactGuard) (call_id : string) (s : Run_) : Prop :=
  calls s !! i = Some c /\ returned (ca_progress c) = true /\ guards s !! i = Some guard /\
  token_states (engine s) !! ca_token c = Some (TCommitted call_id).

Lemma steps_committed extra (e e' : Engine W G) tok call_id : steps_to extra e e' ->
  token_states e !! tok = Some (TCommitted call_id) -> token_states e' !! tok = Some (TCommitted call_id).
Proof. intros [_ (L & _ & _ & Hm) _] (st' & Ho & M)%Hm. simpl in M. congruence. Qed.

Lemma advance_steps j (s : Run_) : inner_ok s -> exists extra, steps_to extra (engine s) (engine (advance clock cancelled uuid frozen owner limits j s)).
Proof.
  intros I. assert (forall extra, steps_to extra (engine s) (engine s)) as Hrefl by (intros; by apply mute_still).
  assert (forall e L, resource_log e = resource_log (engine s) ++ L -> engine (settle e s) = e) as Hset.
  { intros e L HL. by destruct (settle_spec e L s I HL) as (E & _). }
  unfold advance. destruct (calls s !! j) as [c|] eqn:Hj; [|by exists []].
  assert (forall tok risk k, exists extra, steps_to extra (engine s) (engine (begin_call clock cancelled frozen owner j tok risk k s))) as Hb.
  { intros tok risk k. unfold begin_call, authorize_call. destruct (authorize _ _ _ _ _ _ _) as [e r] eqn:Ea.
    assert (view e = view (engine s) /\ resource_log e = resource_log (engine s)) as [Hv Hl].
    { change e with (fst (e, r)). rewrite <- Ea. split; [apply quiet_authorize|apply mute_authorize]. }
    exists []. assert (engine (settle e s) = e) as E by (apply (Hset e []); by rewrite app_nil_r).
    destruct r as [claims|error]; cbn [map_err]; [destruct (k claims)|]; simpl; rewrite E; by apply mute_still. }
  destruct (ca_progress c) as [|claims bound|claims bound|claims error|claims refer|claims refer error|? ? ?] eqn:Hp;
    [destruct (ca_request c); apply Hb| | | | | |]; try by exists [].
  - destruct (ca_request c); [|destruct (reserve _ _)|..]; try by exists [].
    destruct (store_call _ _ _ _ _ s) as [s' [refer|error]] eqn:Es; apply store_call_spec in Es as (E1 & _); exists []; simpl; by rewrite E1.
  - destruct (ca_request c); try by exists [].
    destruct (store_call _ _ _ _ _ s) as [s' [refer|error]] eqn:Es; apply store_call_spec in Es as (E1 & _); exists []; simpl; by rewrite E1.
  - destruct (register_resource _ _ _) as [e r] eqn:Er. pose proof (register_steps _ _ _ _ _ Er) as St.
    apply register_log in Er as (L & HL & _). exists [guard_resource j]. destruct r; simpl; by rewrite (Hset e L).
  - exists []. simpl. destruct (retract_spec j s I) as (E & _). by rewrite E.
Qed.

Lemma act_published i c guard call_id a (s : Run_) m : run_ok s m -> published i c guard call_id s -> published i c guard call_id (act_ s a).
Proof.
  intros R (Hi & Hret & Hg & Ht). destruct (act_calls i c a s Hi) as (p & Hp & Hfix & _). rewrite (Hfix Hret) in Hp.
  assert (at_progress (ca_progress c) c = c) as Hc by by destruct c. rewrite Hc in Hp.
  split; [done|]. split; [done|]. destruct a as [tok q|j|op]; [done| |].
  - destruct (advance_steps j s (k_inner _ _ R)) as [extra St]. split; [|by eapply steps_committed].
    destruct (decide (i = j)) as [->|Hne].
    + simpl. unfold advance. rewrite Hi. by destruct (ca_progress c).
    + simpl. by rewrite advance_guards by (try done; apply R).
  - simpl. destruct (exec clock instant cancelled issue frozen (foreign op) (engine s)) as [e b] eqn:E.
    apply (exec_steps _ _ _ _ _ issue_inj _ _ _ _ m (k_tracked _ _ R)) in E. pose proof E as [_ (L & HL & Hx & _) _].
    destruct (settle_spec e L s (k_inner _ _ R) HL) as (E1 & _ & _ & _ & _ & Hgs). simpl. rewrite E1.
    split; [|by eapply steps_committed]. rewrite Hgs; [done|]. intros x [Hr|(tok & Hh)]%Hx Heq; rewrite Heq in *.
    + destruct op; simpl in Hr; try by apply elem_of_nil in Hr. apply list_elem_of_singleton in Hr. unfold guard_resource in Hr. lia.
    + destruct (k_held _ _ R tok i Hh) as (c' & Hi' & <- & _). assert (c' = c) as -> by congruence.
      destruct Hh as (cl & held & Ho & _). congruence.
Qed.

Lemma run_published i c guard call_id actions (s : Run_) m : run_ok s m -> published i c guard call_id s ->
  published i c guard call_id (run_ actions s).
Proof.
  revert s m. induction actions as [|a actions IH]; intros s m R P; [done|]. simpl.
  destruct (act_ok a s m R) as [m' R']. apply (IH _ m' R'). by eapply act_published.
Qed.

(** ** The promises *)

(** Every state of a run of an engine as built with an empty store. *)
Definition reachable (b : Builder (W := W) (G := G)) (s : Run_) : Prop :=
  exists e x actions, build b = Ok (frozen, e) /\ new limits = Ok x /\ s = run_ actions (start_run e x).

Hypothesis limits_usize : (0 <= max_total_bytes limits)%Z /\ (0 <= max_objects limits)%Z.

Lemma reachable_ok b (s : Run_) : reachable b s -> exists m, run_ok s m.
Proof.
  intros (e & x & actions & Hb & Hn & ->). apply (build_initial issue) in Hb as [T _]. apply (run_reach actions _ ∅).
  unfold new in Hn. destruct (_ || _); [done|]. injection Hn as <-.
  assert (forall tok st, token_states e !! tok <> Some st) as He.
  { intros tok st Hst. assert ((∅ : LifecycleSpec.calls) !! token_call_id st = Some (phase st)) as Hs by by eapply tracks_phase. done. }
  constructor; simpl; try done.
  - split; [constructor; simpl; done|]. unfold quota_ok. simpl. rewrite map_size_empty. unfold total_of.
    rewrite map_fold_empty. split_and!; try lia. by intros id rec.
  - intros tok i (cl & held & Ho & _). by apply He in Ho.
Qed.

(** C35. Whatever calls and lifecycle operations interleave, the store holds at
    most its number of objects, none over the per-object bound, and its byte
    count is the sum of the lengths of what it holds, within the total bound. *)
Theorem artifact_quotas_hold b (s : Run_) : reachable b s ->
  total_bytes (inner s) = total_of (objects (inner s)) /\ (total_bytes (inner s) <= max_total_bytes limits)%Z /\
  (Z.of_nat (stored_len (inner s)) <= max_objects limits)%Z /\
  forall id rec, objects (inner s) !! id = Some rec -> (blen (rc_bytes rec) <= max_object_bytes limits)%Z.
Proof. intros [m R]%reachable_ok. apply R. Qed.

(** The put a stored object came from. *)
Definition put_by (s : Run_) (i : nat) (c : Call) (claims : TokenClaims) (refer : ArtifactRef) (bytes : list byte) : Prop :=
  calls s !! i = Some c /\ claims_of c = Some claims /\ refer_of c = Some refer /\
  exists metadata, ca_request c = PutRequest bytes metadata \/ ca_request c = PutResultRequest bytes metadata.

Lemma object_origin (s : Run_) m id rec : run_ok s m -> objects (inner s) !! id = Some rec ->
  exists i c claims refer bytes, put_by s i c claims refer bytes /\ ar_id refer = id /\
    rec = record_for claims bytes (ar_metadata refer) /\ (is_result c = true -> unreleased (guards s !! i)) /\
    (is_result c = true -> (ca_progress c = Stored claims refer \/ exists error, ca_progress c = Undoing claims refer error) \/ succeeded c).
Proof.
  intros R Ho. destruct (k_inner _ _ R) as [S _]. destruct (o_origin _ _ _ _ _ S id rec Ho) as (i & c & refer & Hi & Hr & E & Hu).
  pose proof (o_calls _ _ _ _ _ S i c Hi) as Hok. unfold call_ok, refer_of, claims_of, is_result in *.
  assert (forall claims bytes md guard, ca_request c = PutResultRequest bytes md -> guards s !! i = Some guard ->
    fits (inner s) claims refer bytes guard -> rec = record_for claims bytes (ar_metadata refer)) as Hrec.
  { intros claims bytes md guard Hq Hg (_ & _ & _ & Hf). rewrite Hq in Hu. destruct (Hu eq_refl) as (guard' & Hg' & Hf').
    assert (guard' = guard) as -> by congruence. destruct (Hf Hf') as [Hf'' _]. congruence. }
  destruct (ca_progress c) as [|claims bound|claims bound|claims error|claims r|claims r error|[claims|] [r|] rep] eqn:Hp; try done;
    injection Hr as ->;
    assert (Hput : forall bytes, claims_of c = Some claims -> (exists md, ca_request c = PutRequest bytes md \/ ca_request c = PutResultRequest bytes md) ->
      put_by s i c claims refer bytes) by (intros bytes Hcl Hm; split_and!; try done; unfold refer_of; by rewrite Hp);
    assert (Hcl : claims_of c = Some claims) by (unfold claims_of; by rewrite Hp).
  - destruct Hok as (bytes & md & guard & Hq & _ & Hg & Hf). exists i, c, claims, refer, bytes.
    split; [by apply Hput; [|exists md; right]|]. split_and!; try done; [by eapply Hrec|]. intros _. left. by left.
  - destruct Hok as (bytes & md & guard & Hq & _ & Hg & Hf). exists i, c, claims, refer, bytes.
    split; [by apply Hput; [|exists md; right]|]. split_and!; try done; [by eapply Hrec|]. intros _. left. right. by exists error.
  - destruct Hok as [_ Hok]. destruct (ca_request c) as [bytes md|bytes md| |] eqn:Hq; try done.
    + destruct Hok as (_ & _ & Hx). exists i, c, claims, refer, bytes.
      split; [by apply Hput; [|exists md; left]|]. rewrite Hq. split_and!; try done. congruence.
    + destruct Hok as (Hs & guard & Hg & Hf). exists i, c, claims, refer, bytes.
      split; [by apply Hput; [|exists md; right]|]. rewrite Hq. split_and!; try done; [by eapply Hrec|]. intros _. right.
      destruct Hs as [->|Hn]; [by exists (Some claims), refer|]. destruct (Hn (Hu eq_refl)).
Qed.

(** C19. A result artifact is kept only for its call: it is still being
    published, or its token is open and holds its guard, or its token was
    committed with a durable result for the very call that published it. *)
Theorem kept_result_has_its_call b (s : Run_) id rec : reachable b s -> objects (inner s) !! id = Some rec ->
  exists i c claims refer bytes, put_by s i c claims refer bytes /\ ar_id refer = id /\
    rec = record_for claims bytes (ar_metadata refer) /\
    (is_result c = true ->
       ca_progress c = Stored claims refer \/ (exists error, ca_progress c = Undoing claims refer error) \/
       held_by (engine s) (ca_token c) (guard_resource i) \/
       token_states (engine s) !! ca_token c = Some (TCommitted (tc_call_id claims)) /\
         JResult (tc_call_id claims) true ∈ journal (engine s)).
Proof.
  intros [m R]%reachable_ok Ho. destruct (object_origin s m id rec R Ho) as (i & c & claims & refer & bytes & P & E & Hrec & Hu & Hs).
  exists i, c, claims, refer, bytes. split_and!; try done; try apply P. intros Hr. destruct (Hs Hr) as [[|]|Hok]; [by left|by auto|].
  right. right. destruct P as (Hi & Hcl & _). destruct (k_attached _ _ R i c Hi Hr Hok (Hu Hr)) as [Hh|(call_id & Ht & Hj)]; [by left|right].
  destruct (k_claims _ _ R i c claims Hi Hcl) as (st & Hst & Ecall). rewrite Ht in Hst. injection Hst as <-. simpl in Ecall.
  by rewrite <- Ecall.
Qed.

(** At most one result artifact is kept per call of a generation. *)
Theorem one_result_per_call b (s : Run_) i j c1 c2 cl1 cl2 r1 r2 bytes1 bytes2 : reachable b s ->
  put_by s i c1 cl1 r1 bytes1 -> put_by s j c2 cl2 r2 bytes2 -> is_result c1 = true -> is_result c2 = true ->
  is_Some (objects (inner s) !! ar_id r1) -> is_Some (objects (inner s) !! ar_id r2) ->
  tc_generation cl1 = tc_generation cl2 -> tc_call_id cl1 = tc_call_id cl2 -> i = j.
Proof.
  intros [m R]%reachable_ok P1 P2 Hr1 Hr2 [rec1 Ho1] [rec2 Ho2] Hg Hc. destruct (k_inner _ _ R) as [S _].
  assert (forall i c cl r bytes rec, put_by s i c cl r bytes -> is_result c = true -> objects (inner s) !! ar_id r = Some rec ->
    key_of (guards s !! i) c = Some (result_call_key cl)) as Hkey.
  { intros k c cl r bytes rec (Hi & Hcl & Hr & _) Hres Ho.
    destruct (o_origin _ _ _ _ _ S _ _ Ho) as (k' & c' & r' & Hi' & Hr' & E & Hu).
    assert (k' = k) as -> by by apply (o_distinct _ _ _ _ _ S k' k c' c r' r). assert (c' = c) as -> by congruence.
    destruct (Hu Hres) as (guard & Hgd & Hrel). pose proof (o_calls _ _ _ _ _ S k c Hi) as Hok. rewrite Hgd in *.
    unfold is_result, call_ok, key_of, claims_of, refer_of in *.
    destruct (ca_progress c) as [| | | |x1 x2|x1 x2 x3|[x1|] [x2|] x3]; try done; injection Hcl as ->; injection Hr as ->; simpl; rewrite Hrel.
    - by destruct Hok as (? & ? & ? & _ & _ & [= <-] & _ & -> & _).
    - by destruct Hok as (? & ? & ? & _ & _ & [= <-] & _ & -> & _).
    - destruct (ca_request c); try done. by destruct Hok as (_ & _ & ? & [= <-] & _ & -> & _). }
  apply (o_keys _ _ _ _ _ S i j c1 c2 (result_call_key cl1)); [apply P1|apply P2|by eapply Hkey|].
  rewrite (Hkey _ _ _ _ _ _ P2 Hr2 Ho2). unfold result_call_key. by rewrite Hg, Hc.
Qed.

(** C20. Once the token of a published result artifact is committed, the artifact
    stays, with the bytes and the metadata it was published with, whatever is
    done afterwards. *)
Theorem committed_artifact_stays b (s : Run_) i c claims refer bytes call_id rec actions : reachable b s ->
  put_by s i c claims refer bytes -> is_result c = true -> succeeded c ->
  token_states (engine s) !! ca_token c = Some (TCommitted call_id) -> objects (inner s) !! ar_id refer = Some rec ->
  stored (ar_id refer) (inner (run_ actions s)) = Some (bytes, ar_metadata refer).
Proof.
  intros [m R]%reachable_ok (Hi & Hcl & Hr & md & Hq) Hres (cl & rf & Hp) Ht Ho. destruct (k_inner _ _ R) as [S _].
  destruct (o_origin _ _ _ _ _ S _ _ Ho) as (k & c' & r' & Hi' & Hr' & E & Hu).
  assert (k = i) as -> by by apply (o_distinct _ _ _ _ _ S k i c' c r' refer). assert (c' = c) as -> by congruence.
  destruct (Hu Hres) as (guard & Hg & Hrel).
  assert (published i c guard call_id (run_ actions s)) as (Hi2 & _ & Hg2 & _).
  { eapply run_published; [exact R|]. split_and!; try done. by rewrite Hp. }
  destruct (run_reach actions s m R) as [m' R']. pose proof (o_calls _ _ _ _ _ (proj1 (k_inner _ _ R')) i c Hi2) as Hok.
  unfold call_ok, claims_of, refer_of, is_result in *. rewrite Hp, Hg2 in Hok. rewrite Hp in Hr, Hcl. subst cl. injection Hr as ->.
  destruct Hok as [_ Hok]. destruct Hq as [Hq|Hq]; rewrite Hq in *; [done|].
  destruct Hok as (_ & ? & [= <-] & _ & _ & _ & Hf). destruct (Hf Hrel) as [Hx _]. unfold stored. by rewrite Hx.
Qed.

(** Bytes a read returned were put under the same owner and generation. *)
Definition read_from_put (s : Run_) : Prop := forall j c claims refer id bytes, calls s !! j = Some c -> ca_request c = GetRequest id ->
  ca_progress c = Returned (Some claims) refer (Ok (BytesReply bytes)) ->
  exists i c' claims' refer', put_by s i c' claims' refer' bytes /\ ar_id refer' = id /\
    owner_key (tc_owner claims') = owner_key (tc_owner claims) /\ tc_generation claims' = tc_generation claims.

Lemma put_by_act a (s : Run_) i c claims refer bytes : put_by s i c claims refer bytes ->
  exists c', put_by (act_ s a) i c' claims refer bytes.
Proof.
  intros (Hi & Hcl & Hr & Hq). destruct (act_calls i c a s Hi) as (p & Hi' & _ & Hcl' & Hr' & _).
  exists (at_progress p c). split_and!; [done|by apply Hcl'|by apply Hr'|done].
Qed.

Lemma act_read a (s : Run_) m : run_ok s m -> read_from_put s -> read_from_put (act_ s a).
Proof.
  intros R Hread j c claims refer id bytes Hj Hq Hp.
  assert (exists c0 p, calls s !! j = Some c0 /\ c = at_progress p c0 /\ continues s c0 p) as (c0 & p & Hj0 & -> & Hc).
  { destruct (calls s !! j) as [c0|] eqn:Hj0.
    - destruct (act_calls j c0 a s Hj0) as (p & Hp' & Hc). exists c0, p. split_and!; try done; [congruence|apply Hc..].
    - exfalso. destruct a as [tok q|k|op]; simpl in Hj.
      + apply lookup_app_Some in Hj as [?|[_ Hs]]; [congruence|]. apply list_lookup_singleton_Some in Hs as [_ <-]. done.
      + destruct (calls s !! k) as [ck|] eqn:Hk; [|unfold advance in Hj; rewrite Hk in Hj; congruence].
        destruct (advance_continues k ck s Hk) as (p & Hcs & _). rewrite Hcs in Hj.
        apply lookup_lt_Some in Hj. rewrite length_insert in Hj. apply lookup_ge_None in Hj0. lia.
      + rewrite settle_calls in Hj. congruence. }
  simpl in Hq, Hp. destruct Hc as (_ & _ & _ & Hc). destruct (Hc (Some claims) refer bytes Hp) as [Hsame|(cl & id' & rec & [= <-] & Hq' & Hl & Hb)].
  - destruct (Hread j c0 claims refer id bytes Hj0 Hq) as (i & c' & cl' & r' & P & E); [congruence|].
    destruct (put_by_act a s i c' cl' r' bytes P) as [c'' P']. by exists i, c'', cl', r'.
  - assert (id' = id) as -> by congruence. unfold lookup in Hl. destruct (objects (inner s) !! id) as [rec'|] eqn:Ho; [|done].
    destruct (_ || _) eqn:Ev; [done|]. injection Hl as ->. apply orb_false_iff in Ev as [E1 E2].
    apply negb_false_iff, str_eqb_true in E1. apply negb_false_iff, Z.eqb_eq in E2.
    destruct (object_origin s m id rec R Ho) as (i & c' & cl' & r' & bytes' & P & E & -> & _). simpl in *. subst bytes'.
    destruct (put_by_act a s i c' cl' r' bytes P) as [c'' P']. by exists i, c'', cl', r'.
Qed.

(** C21. Artifacts read back, and only within an owner and generation: a read that
    returned bytes returned what a put of the same owner and generation stored
    under that identifier, and an authorized read of an artifact that is stored
    returns the bytes that were put. *)
Theorem artifacts_read_back b (s : Run_) : reachable b s ->
  read_from_put s /\
  forall i c claims refer bytes rec j cj claims' bound, put_by s i c claims refer bytes -> objects (inner s) !! ar_id refer = Some rec ->
    calls s !! j = Some cj -> ca_request cj = GetRequest (ar_id refer) -> ca_progress cj = Checked claims' bound ->
    owner_key (tc_owner claims') = owner_key (tc_owner claims) -> tc_generation claims' = tc_generation claims ->
    calls (act_ s (Advance j)) !! j = Some (at_progress (Returned (Some claims') None (Ok (BytesReply bytes))) cj).
Proof.
  intros Hr. split.
  - destruct Hr as (e & x & actions & Hb & Hn & ->).
    destruct (reachable_ok b (start_run e x)) as [m R]; [by exists e, x, []|].
    assert (read_from_put (start_run e x)) as H0' by (intros j c claims refer id bytes Hj; done).
    revert R H0'. generalize (start_run e x). revert m. induction actions as [|a actions IH]; intros m s R Hs; [done|].
    simpl. destruct (act_ok a s m R) as [m' R']. apply (IH m' _ R'). by eapply act_read.
  - destruct (reachable_ok b s Hr) as [m R]. intros i c claims refer bytes rec j cj cl' bound P Ho Hj Hq Hp Hok Hg.
    destruct (object_origin s m _ rec R Ho) as (i' & c' & cl & r' & bytes' & P' & E & -> & _).
    destruct (k_inner _ _ R) as [S _]. destruct P as (Hi & Hcl & Hrf & md & Hb), P' as (Hi' & Hcl' & Hrf' & md' & Hb').
    assert (i' = i) as -> by by apply (o_distinct _ _ _ _ _ S i' i c' c r' refer).
    assert (c' = c) as -> by congruence. assert (cl = claims) as -> by congruence.
    assert (bytes' = bytes) as -> by (destruct Hb as [Hb|Hb], Hb' as [Hb'|Hb']; congruence).
    assert (lookup cl' (ar_id refer) (inner s) = Ok (record_for claims bytes (ar_metadata r'))) as Hl.
    { unfold lookup. rewrite Ho. simpl. by rewrite Hok, Hg, str_eqb_refl, Z.eqb_refl. }
    change (act_ s (Advance j)) with (advance clock cancelled uuid frozen owner limits j s). unfold advance.
    rewrite Hj, Hp, Hq, Hl. rewrite (set_progress_calls j _ cj) by done. apply list_lookup_insert_eq. by eapply lookup_lt_Some.
Qed.

End runs.

End ArtifactsSpec.

(** ** Example: a result published, committed and read by the next call *)
Module ArtifactsExample.
Import Artifacts EngineSteps ArtifactsSpec LifecycleExample.
#[local] Existing Instance CompactText.compact_text.
#[local] Existing Instance LifecycleExample.accepting.

Definition limits0 : ArtifactLimits := {| max_object_bytes := 16; max_total_bytes := 20; max_objects := 2 |}.
Definition empty0 : ArtifactInner := {| objects := ∅; total_bytes := 0; result_calls := ∅ |}.

Definition run0 := run clock0 clock0 never ids ids inner0 owner0 limits0.
Definition act0 := act clock0 clock0 never ids ids inner0 owner0 limits0.

Definition metadata2 : PrepareMetadata :=
  let m := Guardian.sample_metadata in {|
  pm_run_id := pm_run_id m; pm_call_id := "c2"; pm_tool_name := pm_tool_name m; pm_argument_digest := pm_argument_digest m;
  pm_registry_identity := pm_registry_identity m; pm_risk_class := pm_risk_class m; pm_summary := pm_summary m |}.

Definition publish : list (Action (W := list string)) :=
  [Lifecycle (OPrepare owner0 Guardian.sample_metadata); Start (ids 0) (PutResultRequest (s2b "payload") (jobj []));
   Advance 0; Advance 0; Advance 0; Advance 0].
Definition commit_and_read : list (Action (W := list string)) :=
  [Lifecycle (OCommit owner0 (ids 0) result0); Lifecycle (OPrepare owner0 metadata2); Start (ids 1) (GetRequest (ids 0)); Advance 1].

Definition published0 := run0 publish (start_run engine0 empty0).
Definition committed1 := run0 (publish ++ commit_and_read) (start_run engine0 empty0).

Definition call_at {W G} (i : nat) (s : Run (W := W) (G := G)) : Call :=
  default {| ca_token := EmptyString; ca_request := GetRequest EmptyString; ca_progress := Called |} (calls s !! i).
Definition claims_at {W G} (i : nat) (s : Run (W := W) (G := G)) : TokenClaims := default claims0 (claims_of (call_at i s)).
Definition refer_at {W G} (i : nat) (s : Run (W := W) (G := G)) : ArtifactRef :=
  default {| ar_id := EmptyString; ar_len := 0; ar_hash := EmptyString; ar_metadata := JNull |} (refer_of (call_at i s)).
Definition record_at {W G} (id : string) (s : Run (W := W) (G := G)) : ArtifactRecord :=
  default (record_for claims0 [] JNull) (objects (inner s) !! id).

Lemma total0 : (max_total_bytes limits0 < usize_max)%Z.
Proof. by vm_compute. Qed.
Lemma bounds0 : (0 <= max_total_bytes limits0)%Z /\ (0 <= max_objects limits0)%Z.
Proof. by vm_compute. Qed.

Lemma published_reachable : reachable clock0 clock0 never ids ids inner0 owner0 limits0 builder0 published0.
Proof. by exists engine0, empty0, publish. Qed.
Lemma committed_reachable : reachable clock0 clock0 never ids ids inner0 owner0 limits0 builder0 committed1.
Proof. by exists engine0, empty0, (publish ++ commit_and_read). Qed.

Lemma published_put : put_by published0 0 (call_at 0 published0) (claims_at 0 published0) (refer_at 0 published0) (s2b "payload").
Proof. split_and!; [by vm_compute..|]. exists (jobj []). by vm_compute; right. Qed.
Lemma committed_put : put_by committed1 0 (call_at 0 committed1) (claims_at 0 committed1) (refer_at 0 committed1) (s2b "payload").
Proof. split_and!; [by vm_compute..|]. exists (jobj []). by vm_compute; right. Qed.

Lemma artifact_quotas_hold_witness :
  total_bytes (inner committed1) = 7%Z /\ (total_bytes (inner committed1) <= max_total_bytes limits0)%Z.
Proof.
  split; [by vm_compute|].
  exact (proj1 (proj2 (artifact_quotas_hold clock0 clock0 never ids ids inner0 owner0 limits0 ids_inj ids_inj eq_refl total0
           bounds0 builder0 committed1 committed_reachable))).
Defined.

Lemma kept_result_has_its_call_witness :
  exists i c claims refer bytes, put_by committed1 i c claims refer bytes /\ ar_id refer = ids 0.
Proof.
  destruct (kept_result_has_its_call clock0 clock0 never ids ids inner0 owner0 limits0 ids_inj ids_inj eq_refl total0
    bounds0 builder0 committed1 (ids 0) (record_at (ids 0) committed1) committed_reachable ltac:(by vm_compute))
    as (i & c & claims & refer & bytes & P & E & _). by exists i, c, claims, refer, bytes.
Defined.

Lemma one_result_per_call_witness : exists i, put_by published0 i (call_at i published0) (claims_at i published0) (refer_at i published0) (s2b "payload") /\ i = 0.
Proof.
  exists 0. split; [exact published_put|].
  apply (one_result_per_call clock0 clock0 never ids ids inner0 owner0 limits0 ids_inj ids_inj eq_refl total0
    bounds0 builder0 published0 0 0 _ _ _ _ _ _ _ _ published_reachable published_put published_put);
    [by vm_compute..|exists (record_at (ids 0) published0); by vm_compute|exists (record_at (ids 0) published0); by vm_compute|by vm_compute|by vm_compute].
Defined.

Lemma committed_artifact_stays_witness :
  stored (ids 0) (inner (run0 [Lifecycle ORecover; Advance 1] committed1)) = Some (s2b "payload", ar_metadata (refer_at 0 committed1)).
Proof.
  replace (ids 0) with (ar_id (refer_at 0 committed1)) by by vm_compute.
  apply (committed_artifact_stays clock0 clock0 never ids ids inner0 owner0 limits0 ids_inj ids_inj eq_refl total0
    bounds0 builder0 committed1 0 _ _ _ _ "c1" (record_at (ids 0) committed1) _ committed_reachable committed_put);
    [by vm_compute| |by vm_compute|by vm_compute]. eexists _, (refer_at 0 committed1). by vm_compute.
Defined.

Lemma artifacts_read_back_witness :
  calls (act0 committed1 (Advance 1)) !! 1 =
  Some (at_progress (Returned (Some (claims_at 1 committed1)) None (Ok (BytesReply (s2b "payload")))) (call_at 1 committed1)).
Proof.
  destruct (artifacts_read_back clock0 clock0 never ids ids inner0 owner0 limits0 ids_inj ids_inj eq_refl total0
    bounds0 builder0 committed1 committed_reachable) as [_ Hget].
  apply (Hget 0 _ _ _ _ (record_at (ids 0) committed1) 1 (call_at 1 committed1) (claims_at 1 committed1) JNull committed_put); by vm_compute.
Defined.

End ArtifactsExample.
