(* ===== verification/Commit.v ===== *)
(** * Durable tool steps ([src/service.rs], [src/tool_result.rs])

    The service's implementation of the committer interface: a tool step is
    reserved against the in-memory run, persisted, applied to memory and then
    published; a step already present is not committed again; a start is an
    atomic pair of events; a committed result can be replayed instead of
    running the tool again.  On top of any committer the service implements the
    durable side of the lifecycle engine.

    The three storage commands are parameters; the run handle is seen through
    its terminal and stop flags.  Operations hold the commit gate, so they run
    one at a time; identifiers and clock readings are streams, and an operation
    owns four readings, of which it uses those its branch takes. *)

From S2P Require Import Prelude Utf8 Json Domain Store Events Delivery Capability Lifecycle.

(** ** Tool owners *)

Definition MAX_OWNER_LABEL_BYTES : Z := 128.

Record ToolOwner := { to_profile : string; to_session : string; to_run : string }.

Definition validate_owner_label (value name : string) : result string string :=
  if is_empty value then Err (name +:+ " must not be empty")
  else if contains_nul value then Err (name +:+ " is invalid")
  else if (MAX_OWNER_LABEL_BYTES <? slen value)%Z then Err (name +:+ " exceeds the configured bound")
  else Ok value.

Definition tool_owner_new (profile session run : string) : result ToolOwner string :=
  let? profile := validate_owner_label profile "profile" in
  let? session := validate_owner_label session "session" in
  let? run := validate_owner_label run "run" in
  Ok {| to_profile := profile; to_session := session; to_run := run |}.

(** ** Tool results *)

Record ToolError := { te_code : string; te_message : string }.

Record ToolResult := {
  tr_ok : bool;
  tr_content : string;
  tr_data : Json;
  tr_error : option ToolError;
  tr_truncated : bool;
  tr_artifacts : list string;
  tr_replayed : bool
}.

Definition tool_success (content : string) (data : Json) : ToolResult := {|
  tr_ok := true; tr_content := content; tr_data := data; tr_error := None; tr_truncated := false;
  tr_artifacts := []; tr_replayed := false |}.

Definition tool_failure_with (code message content : string) (data : Json) (truncated : bool) :
    ToolResult := {|
  tr_ok := false; tr_content := content; tr_data := data;
  tr_error := Some {| te_code := code; te_message := message |}; tr_truncated := truncated;
  tr_artifacts := []; tr_replayed := false |}.

Definition tool_failure (code message : string) : ToolResult :=
  tool_failure_with code message EmptyString (JObject []) false.

(** The derived [Serialize] of a result; [replayed] is skipped. *)
Definition tool_result_to_value (r : ToolResult) : Json :=
  jobj [("ok", JBool (tr_ok r)); ("content", JString (tr_content r)); ("data", tr_data r);
        ("error", match tr_error r with
                  | Some e => jobj [("code", JString (te_code e)); ("message", JString (te_message e))]
                  | None => JNull
                  end);
        ("truncated", JBool (tr_truncated r)); ("artifacts", JArray (map JString (tr_artifacts r)))].

Definition set_truncated (b : bool) (r : ToolResult) : ToolResult := {|
  tr_ok := tr_ok r; tr_content := tr_content r; tr_data := tr_data r; tr_error := tr_error r;
  tr_truncated := b; tr_artifacts := tr_artifacts r; tr_replayed := tr_replayed r |}.

Definition set_artifacts (l : list string) (r : ToolResult) : ToolResult := {|
  tr_ok := tr_ok r; tr_content := tr_content r; tr_data := tr_data r; tr_error := tr_error r;
  tr_truncated := tr_truncated r; tr_artifacts := l; tr_replayed := tr_replayed r |}.

Definition strings_of (items : list Json) : list string := omap as_str items.

Definition with_artifacts (r : Json) (t : ToolResult) : ToolResult :=
  match jget "artifacts" r ≫= as_array with
  | Some artifacts => set_artifacts (strings_of artifacts) t
  | None => t
  end.

Definition canonical_tool_result (r : Json) : result ToolResult LifecycleError :=
  match jget "ok" r with
  | Some (JBool ok) =>
      let data := default (JObject []) (jget "data" r) in
      let truncated := default false (jget "truncated" r ≫= as_bool) in
      if ok then
        let? content := ok_or (jget "content" r ≫= as_str)
                          (InvalidMetadata "success result requires string `content`") in
        Ok (with_artifacts r (set_truncated truncated (tool_success content data)))
      else
        let error := jget "error" r in
        let? code := ok_or (match (error ≫= jget "code") ≫= as_str with
                            | Some code => if is_empty code then None else Some code
                            | None => None
                            end) (InvalidMetadata "failure result requires string `error.code`") in
        let message := default "tool failed" ((error ≫= jget "message") ≫= as_str) in
        let content := default EmptyString (jget "content" r ≫= as_str) in
        Ok (with_artifacts r (tool_failure_with code message content data truncated))
  | _ => Err (InvalidMetadata "`ok` is required")
  end.

(** ** Reading the store *)

Definition run_is_terminal (status : string) : bool := run_ended status.

Definition next_message_ordinal (session : SessionRecord) : Z :=
  let ordinals := omap sm_ordinal (sr_messages session) in
  let max_ordinal := match ordinals with [] => 0%Z | o :: os => fold_left Z.max os o end in
  (Z.max max_ordinal (Z.of_nat (length (sr_messages session))) + 1)%Z.

Section Commit.
Context `{JsonText, Content.BlockSerde}.

Definition is_call_block (tool_call_id : string) (b : Content.LlmContentBlock) : bool :=
  str_eqb (Content.block_type b) "tool_call" && bool_decide (Content.tool_call_id b = Some tool_call_id).

(** The first assistant message that requested the call, and the tool's name. *)
Fixpoint find_call (tool_call_id : string) (messages : list SessionMessage) : option (string * string) :=
  match messages with
  | [] => None
  | m :: messages' =>
      if str_eqb (sm_role m) "assistant" then
        match List.find (is_call_block tool_call_id) (Content.decode_message_blocks (sm_content m)) with
        | Some b => Some (sm_id m, default EmptyString (Content.name b))
        | None => find_call tool_call_id messages'
        end
      else find_call tool_call_id messages'
  end.

Definition lookup_tool_call_parent (store : GatewayStore) (session_id tool_call_id : string) :
    option (string * string) :=
  session ← gs_sessions store !! session_id; find_call tool_call_id (sr_messages session).

(** The single block a result is stored as. *)
Definition result_block (tool_call_id : string) (r : ToolResult) : Content.LlmContentBlock :=
  let '(content, cut) := truncate_utf8_chars (tr_content r) MAX_DURABLE_TEXT_CHARS in
  let truncated := tr_truncated r || cut in {|
    Content.block_type := "tool_result"; Content.text := None;
    Content.tool_call_id := Some tool_call_id; Content.name := None;
    Content.arguments_json := None; Content.arguments := None; Content.content := Some content;
    Content.is_error := Some (negb (tr_ok r));
    Content.result_ := if tr_ok r then Some (tr_data r) else None;
    Content.error := (fun e => jobj [("code", JString (te_code e)); ("message", JString (te_message e))])
                       <$> tr_error r;
    Content.artifact := (fun id => jobj [("id", JString id)]) <$> head (tr_artifacts r);
    Content.truncated := if truncated then Some true else None |}.

Definition tool_result_content_json (tool_call_id : string) (r : ToolResult) : Json :=
  Content.encode_message_content [result_block tool_call_id r].

(** [event.data.get("tool_call_id").and_then(as_str) == Some(id)]. *)
Definition event_of_call (tool_call_id : string) (e : GatewayEvent) : bool :=
  bool_decide (jget "tool_call_id" (ge_data e) ≫= as_str = Some tool_call_id).

Definition is_step_output (event_type : string) : bool :=
  str_eqb event_type "tool.output" || str_eqb event_type "tool.completed" || str_eqb event_type "tool.failed".

(** The result carried by a stored [tool_result] block. *)
Definition result_of_block (b : Content.LlmContentBlock) : ToolResult :=
  if bool_decide (Content.is_error b = Some true) then
    match Content.error b with
    | Some error => tool_failure (default "tool_failed" (jget "code" error ≫= as_str))
                                 (default "tool failed" (jget "message" error ≫= as_str))
    | None => tool_failure "tool_failed" "tool failed"
    end
  else
    let r := set_truncated (default false (Content.truncated b))
               (tool_success (default EmptyString (Content.content b)) (default JNull (Content.result_ b))) in
    match Content.artifact b with
    | Some (JObject artifact) =>
        match obj_get "id" artifact ≫= as_str with Some id => set_artifacts [id] r | None => r end
    | Some (JString id) => set_artifacts [id] r
    | Some (JArray artifacts) => set_artifacts (strings_of artifacts) r
    | _ => r
    end.

(** The scan of a session's messages, newest first: [None] goes on to the
    events. *)
Fixpoint find_result (tool_call_id name : string) (messages : list SessionMessage) :
    option (result ToolResult EventCommitError) :=
  match messages with
  | [] => None
  | m :: messages' =>
      if bool_decide (sm_tool_call_id m = Some tool_call_id) then
        if match sm_name m with Some stored => negb (str_eqb stored name) | None => false end then
          Some (Err (Corrupt "tool result name does not match the requested tool"))
        else
          match List.find (fun b => str_eqb (Content.block_type b) "tool_result" &&
                                    bool_decide (Content.tool_call_id b = Some tool_call_id))
                  (Content.decode_message_blocks (sm_content m)) with
          | Some b => Some (Ok (result_of_block b))
          | None => find_result tool_call_id name messages'
          end
      else find_result tool_call_id name messages'
  end.

Definition replay_durable_tool_result (store : GatewayStore) (run_id tool_call_id name : string) :
    result (option ToolResult) EventCommitError :=
  match gs_runs store !! run_id with
  | None => Err Terminal
  | Some run =>
      if negb (existsb (fun e => is_step_output (ge_event e) && event_of_call tool_call_id e) (rr_events run))
      then Ok None
      else
        let? _ := match lookup_tool_call_parent store (rr_session_id run) tool_call_id with
                  | Some (_, stored_name) =>
                      if negb (str_eqb stored_name name)
                      then Err (Corrupt "tool call name does not match durable parent")
                      else Ok tt
                  | None => Ok tt
                  end in
        match gs_sessions store !! rr_session_id run ≫=
              (fun session => find_result tool_call_id name (reverse (sr_messages session))) with
        | Some (Ok r) => Ok (Some r)
        | Some (Err e) => Err e
        | None =>
            if existsb (fun e => str_eqb (ge_event e) "tool.failed"
                          && bool_decide (jget "error_code" (ge_data e) ≫= as_str = Some "interrupted_effect")
                          && event_of_call tool_call_id e) (rr_events run)
            then Ok (Some (tool_failure "interrupted_effect" "effect interrupted by restart"))
            else Err (Corrupt "durable tool output is missing a canonical result payload")
        end
  end.

(** ** Reserved commits *)

Inductive PersistKind := Step | EventAppend.

Record ReservedCommit := {
  rc_event : GatewayEvent;
  rc_message : option SessionMessage;
  rc_persist_payload : Json;
  rc_kind : PersistKind;
  rc_max_events_per_run : nat
}.

Record ReservedPair := {
  rp_first : GatewayEvent;
  rp_second : GatewayEvent;
  rp_persist_payload : Json;
  rp_max_events_per_run : nat
}.

(** The committer: what it was built with, and the flags of the run handle
    ([true] when the handle is gone). *)
Record ServiceEventCommitter := {
  sc_run_id : string;
  sc_persistence : bool;
  sc_terminal : bool;
  sc_stop : bool;
  sc_service : bool;
  sc_max_event_bytes : Z;
  sc_max_events_per_run : nat
}.

(** The storage commands. *)
Context {D : Type} (event_append step_commit event_append_pair : Json -> D -> D * result Json string).
Context (uuids : nat -> string) (times : nat -> Z).

Inductive Command := CAppend (payload : Json) | CStep (payload : Json) | CPair (payload : Json).

Inductive CommitEffect :=
| CStored (command : Command) (ok : bool)
| CPublished (e : GatewayEvent).

Record CommitState := {
  cs_store : GatewayStore;
  cs_durable : D;
  cs_trace : list CommitEffect;
  cs_ids : nat;
  cs_ticks : nat;
  cs_attempts : nat;
  cs_failures : nat;
  cs_truncations : nat
}.

Definition put_store (store : GatewayStore) (s : CommitState) : CommitState := {|
  cs_store := store; cs_durable := cs_durable s; cs_trace := cs_trace s; cs_ids := cs_ids s;
  cs_ticks := cs_ticks s; cs_attempts := cs_attempts s; cs_failures := cs_failures s;
  cs_truncations := cs_truncations s |}.

Definition note (l : list CommitEffect) (s : CommitState) : CommitState := {|
  cs_store := cs_store s; cs_durable := cs_durable s; cs_trace := cs_trace s ++ l; cs_ids := cs_ids s;
  cs_ticks := cs_ticks s; cs_attempts := cs_attempts s; cs_failures := cs_failures s;
  cs_truncations := cs_truncations s |}.

(** Identifiers and clock readings an operation has used up. *)
Definition spend (ids ticks : nat) (s : CommitState) : CommitState := {|
  cs_store := cs_store s; cs_durable := cs_durable s; cs_trace := cs_trace s; cs_ids := cs_ids s + ids;
  cs_ticks := cs_ticks s + ticks; cs_attempts := cs_attempts s; cs_failures := cs_failures s;
  cs_truncations := cs_truncations s |}.

Definition run_command (c : Command) (s : CommitState) : CommitState * result unit string :=
  let '(d, r) := match c with
                 | CAppend payload => event_append payload (cs_durable s)
                 | CStep payload => step_commit payload (cs_durable s)
                 | CPair payload => event_append_pair payload (cs_durable s)
                 end in
  (note [CStored c (is_ok r)]
     {| cs_store := cs_store s; cs_durable := d; cs_trace := cs_trace s; cs_ids := cs_ids s;
        cs_ticks := cs_ticks s; cs_attempts := cs_attempts s; cs_failures := cs_failures s;
        cs_truncations := cs_truncations s |}, result_map (fun _ => tt) r).

Definition push_message (now : Z) (message : SessionMessage) (session : SessionRecord) : SessionRecord :=
  if existsb (fun existing => str_eqb (sm_id existing) (sm_id message)) (sr_messages session) then session
  else
    let messages := sr_messages session ++ [message] in
    let v := sr_view session in
    {| sr_view := {| sv_id := sv_id v; sv_object := sv_object v; sv_title := sv_title v;
                     sv_model := sv_model v; sv_provider := sv_provider v; sv_source := sv_source v;
                     sv_system_prompt := sv_system_prompt v; sv_workspace := sv_workspace v;
                     sv_created_at := sv_created_at v; sv_updated_at := now;
                     sv_message_count := length messages; sv_end_reason := sv_end_reason v |};
       sr_messages := messages |}.

Definition push_message_opt (now : Z) (message : option SessionMessage) (store : GatewayStore) : GatewayStore :=
  match message with
  | Some m =>
      {| gs_sessions := alter (push_message now m) (sm_session_id m) (gs_sessions store);
         gs_runs := gs_runs store; gs_jobs := gs_jobs store; gs_idempotency := gs_idempotency store |}
  | None => store
  end.

Definition apply_reserved (now : Z) (store : GatewayStore) (reserved : ReservedCommit) : GatewayStore :=
  let store := with_runs
    (alter (fun run => apply_event_locked run (rc_event reserved) (rc_max_events_per_run reserved))
       (ge_run_id (rc_event reserved)) (gs_runs store)) store in
  push_message_opt now (rc_message reserved) store.

Definition apply_reserved_pair (store : GatewayStore) (reserved : ReservedPair) : GatewayStore :=
  with_runs
    (alter (fun run => apply_event_locked
                         (apply_event_locked run (rp_first reserved) (rp_max_events_per_run reserved))
                         (rp_second reserved) (rp_max_events_per_run reserved))
       (ge_run_id (rp_first reserved)) (gs_runs store)) store.

(** [sender.send(..)] for each event, when the run still has its channel. *)
Definition publish (run_id : string) (events : list GatewayEvent) (s : CommitState) : CommitState :=
  match gs_runs (cs_store s) !! run_id with
  | Some run => if rr_sender run then note (map CPublished events) s else s
  | None => s
  end.

Definition persist_and_apply (persistence : bool) (reserved : ReservedCommit) (now : Z) (s : CommitState) :
    CommitState * result unit EventCommitError :=
  let '(s1, durable) :=
    if persistence then
      run_command (match rc_kind reserved with
                   | Step => CStep (rc_persist_payload reserved)
                   | EventAppend => CAppend (rc_persist_payload reserved)
                   end) s
    else (s, Ok tt) in
  match durable with
  | Ok _ =>
      let s2 := put_store (apply_reserved now (cs_store s1) reserved) s1 in
      (publish (ge_run_id (rc_event reserved)) [rc_event reserved] s2, Ok tt)
  | Err error => (s1, Err (PersistFailed error))
  end.

Definition persist_and_apply_pair (persistence : bool) (reserved : ReservedPair) (s : CommitState) :
    CommitState * result unit EventCommitError :=
  let '(s1, durable) :=
    if persistence then run_command (CPair (rp_persist_payload reserved)) s else (s, Ok tt) in
  match durable with
  | Ok _ =>
      let s2 := put_store (apply_reserved_pair (cs_store s1) reserved) s1 in
      (publish (ge_run_id (rp_first reserved)) [rp_first reserved; rp_second reserved] s2, Ok tt)
  | Err error => (s1, Err (PersistFailed error))
  end.

(** ** Committing a step *)

Definition call_of (data : Json) : string := default EmptyString (jget "tool_call_id" data ≫= as_str).

(** The stable identifier of a step, empty when the data names no call. *)
Definition step_event_id (c : ServiceEventCommitter) (data : Json) (event_type : string) : string :=
  if is_empty (call_of data) then EmptyString
  else durable_tool_event_id (sc_run_id c) (call_of data) event_type.

Definition has_event (run : RunRecord) (event_id : string) : bool :=
  existsb (fun e => str_eqb (ge_event_id e) event_id) (rr_events run).

Definition attaches (event_type : string) (data : Json) (r : option ToolResult) : bool :=
  match r with
  | Some _ => negb (is_empty (call_of data)) && is_step_output event_type
  | None => false
  end.

Definition set_event_id (event_id : string) (e : GatewayEvent) : GatewayEvent :=
  if is_empty event_id then e
  else {| ge_event_id := event_id; ge_seq := ge_seq e; ge_event := ge_event e; ge_run_id := ge_run_id e;
          ge_timestamp := ge_timestamp e; ge_data := ge_data e |}.

(** A failure that was rejected before the tool started. *)
Definition validation_only_ok (c : ServiceEventCommitter) (run : RunRecord) (parent : SessionMessage)
    (event_type tool_name : string) (data : Json) (r : option ToolResult) : bool :=
  str_eqb event_type "tool.failed" &&
  match r with Some r => negb (tr_ok r) | None => false end &&
  bool_decide (sm_run_id parent = Some (sc_run_id c)) &&
  negb (match jget "name" data ≫= as_str with
        | Some name => negb (str_eqb name tool_name)
        | None => false
        end) &&
  negb (existsb (fun e => str_eqb (ge_event e) "tool.started" && event_of_call (call_of data) e)
          (rr_events run)).

Definition check_validation_only (c : ServiceEventCommitter) (store : GatewayStore) (run : RunRecord)
    (event_type parent_id tool_name : string) (data : Json) (r : option ToolResult) :
    result unit EventCommitError :=
  if bool_decide (jget "validation_only" data ≫= as_bool = Some true) then
    if sc_stop c then Err Events.Cancelled
    else
      match gs_sessions store !! rr_session_id run ≫=
            (fun session => List.find (fun m => str_eqb (sm_id m) parent_id) (sr_messages session)) with
      | None => Err Events.MissingParent
      | Some parent =>
          if validation_only_ok c run parent event_type tool_name data r then Ok tt
          else Err (Corrupt "invalid unstarted tool failure")
      end
  else Ok tt.

(** The persisted form of a plain event. *)
Definition event_payload (c : ServiceEventCommitter) (e : GatewayEvent) (now : Z) : Json :=
  jobj [("run_id", JString (sc_run_id c)); ("event_id", JString (ge_event_id e));
        ("event_type", JString (ge_event e)); ("payload_json", JString (json_text (ge_data e)));
        ("now_ms", JNumber (PosInt now));
        ("max_events", JNumber (PosInt (Z.of_nat (sc_max_events_per_run c))));
        ("seq", JNumber (PosInt (ge_seq e)))].

Definition step_payload (c : ServiceEventCommitter) (session_id : string) (e : GatewayEvent) (now : Z)
    (message_id : string) (content : Json) (tool_name call parent_id : string) (ordinal : option Z) : Json :=
  jobj [("run_id", JString (sc_run_id c)); ("session_id", JString session_id);
        ("event_id", JString (ge_event_id e)); ("event_type", JString (ge_event e));
        ("payload_json", JString (json_text (ge_data e))); ("now_ms", JNumber (PosInt now));
        ("max_events", JNumber (PosInt (Z.of_nat (sc_max_events_per_run c))));
        ("message_id", JString message_id); ("role", JString "user");
        ("content_json", JString (json_text content)); ("name", JString tool_name);
        ("tool_call_id", JString call); ("parent_message_id", JString parent_id);
        ("token_estimate", jint 0); ("metadata_json", JString "{}"); ("finish_reason", JString EmptyString);
        ("seq", JNumber (PosInt (ge_seq e))); ("ordinal", jint (default 0%Z ordinal))].

Definition non_empty (t : string) : option string := if is_empty t then None else Some t.

(** The message a result is stored as. *)
Definition result_message (c : ServiceEventCommitter) (session_id : string) (content : Json) (now : Z)
    (tool_name call parent_id : string) (ordinal : option Z) : SessionMessage := {|
  sm_id := durable_message_id (sc_run_id c) "result" call; sm_session_id := session_id;
  sm_role := "user"; sm_content := content; sm_created_at := now; sm_run_id := Some (sc_run_id c);
  sm_finish_reason := None; sm_name := non_empty tool_name; sm_tool_call_id := Some call;
  sm_parent_message_id := non_empty parent_id; sm_token_estimate := None; sm_metadata := JNull;
  sm_ordinal := ordinal |}.

(** What the store says to a step: refused, already there, or reserved. *)
Inductive Reservation :=
| Refused (e : EventCommitError)
| AlreadyThere
| Reserved (r : ReservedCommit).

Definition reserve_step (c : ServiceEventCommitter) (event_type : string) (data : Json)
    (r : option ToolResult) (s : CommitState) : Reservation :=
  let store := cs_store s in
  let call := call_of data in
  let event_id := step_event_id c data event_type in
  let attach := attaches event_type data r in
  match gs_runs store !! sc_run_id c with
  | None => Refused Terminal
  | Some run =>
      if run_is_terminal (rr_status run) then Refused Terminal
      else if negb (is_empty event_id) && has_event run event_id then AlreadyThere
      else
        let session_id := rr_session_id run in
        match (if attach then lookup_tool_call_parent store session_id call
               else Some (EmptyString, EmptyString)) with
        | None => Refused Events.MissingParent
        | Some (parent_id, tool_name) =>
            match check_validation_only c store run event_type parent_id tool_name data r with
            | Err e => Refused e
            | Ok _ =>
                let event := set_event_id event_id
                  (event_candidate (uuids (cs_ids s)) (times (cs_ticks s)) run event_type data
                     (sc_max_event_bytes c)) in
                let now := times (S (S (cs_ticks s))) in
                match (if attach then r else None) with
                | Some result =>
                    let content := tool_result_content_json call result in
                    let ordinal := next_message_ordinal <$> gs_sessions store !! session_id in
                    Reserved {|
                      rc_event := event;
                      rc_message := Some (result_message c session_id content (times (S (cs_ticks s)))
                                            tool_name call parent_id ordinal);
                      rc_persist_payload := step_payload c session_id event now
                        (durable_message_id (sc_run_id c) "result" call) content tool_name call
                        parent_id ordinal;
                      rc_kind := Step; rc_max_events_per_run := sc_max_events_per_run c |}
                | None =>
                    Reserved {|
                      rc_event := event; rc_message := None;
                      rc_persist_payload := event_payload c event now;
                      rc_kind := EventAppend; rc_max_events_per_run := sc_max_events_per_run c |}
                end
            end
        end
  end.

(** [account_tool_attempt] while the service is alive. *)
Definition account_attempt (c : ServiceEventCommitter) (event_type : string) (r : option ToolResult)
    (s : CommitState) : CommitState :=
  if (str_eqb event_type "tool.completed" || str_eqb event_type "tool.failed") && sc_service c then
    let failed := str_eqb event_type "tool.failed" ||
                  match r with Some r => negb (tr_ok r) | None => false end in
    let truncated := match r with Some r => tr_truncated r | None => false end in
    {| cs_store := cs_store s; cs_durable := cs_durable s; cs_trace := cs_trace s; cs_ids := cs_ids s;
       cs_ticks := cs_ticks s; cs_attempts := S (cs_attempts s);
       cs_failures := if failed then S (cs_failures s) else cs_failures s;
       cs_truncations := if truncated then S (cs_truncations s) else cs_truncations s |}
  else s.

Definition commit_step (c : ServiceEventCommitter) (event_type : string) (data : Json)
    (r : option ToolResult) (s : CommitState) : CommitState * result unit EventCommitError :=
  if sc_terminal c then (s, Err Terminal)
  else
    match reserve_step c event_type data r s with
    | Refused e => (s, Err e)
    | AlreadyThere => (s, Ok tt)
    | Reserved reserved =>
        let now := times (S (S (S (cs_ticks s)))) in
        match persist_and_apply (sc_persistence c) reserved now (spend 1 4 s) with
        | (s', Ok _) => (account_attempt c event_type r s', Ok tt)
        | (s', Err e) => (s', Err e)
        end
    end.

(** ** Committing a pair *)

Definition pair_payload (c : ServiceEventCommitter) (a b : GatewayEvent) (now : Z) : Json :=
  jobj [("run_id", JString (sc_run_id c));
        ("event_id_a", JString (ge_event_id a)); ("event_type_a", JString (ge_event a));
        ("payload_json_a", JString (json_text (ge_data a)));
        ("event_id_b", JString (ge_event_id b)); ("event_type_b", JString (ge_event b));
        ("payload_json_b", JString (json_text (ge_data b))); ("now_ms", JNumber (PosInt now));
        ("max_events", JNumber (PosInt (Z.of_nat (sc_max_events_per_run c))));
        ("seq_a", JNumber (PosInt (ge_seq a))); ("seq_b", JNumber (PosInt (ge_seq b)))].

Definition set_seq (seq : Z) (e : GatewayEvent) : GatewayEvent := {|
  ge_event_id := ge_event_id e; ge_seq := seq; ge_event := ge_event e; ge_run_id := ge_run_id e;
  ge_timestamp := ge_timestamp e; ge_data := ge_data e |}.

Inductive PairAction :=
| BothPresent
| MissingOne (r : ReservedCommit)
| BothMissing (r : ReservedPair).

(** One half of a pair, reserved alone. *)
Definition reserve_one (c : ServiceEventCommitter) (run : RunRecord) (x : string * Json)
    (s : CommitState) : ReservedCommit :=
  let event := set_event_id (step_event_id c (snd x) (fst x))
    (event_candidate (uuids (cs_ids s)) (times (cs_ticks s)) run (fst x) (snd x) (sc_max_event_bytes c)) in
  {| rc_event := event; rc_message := None;
     rc_persist_payload := event_payload c event (times (S (S (cs_ticks s))));
     rc_kind := EventAppend; rc_max_events_per_run := sc_max_events_per_run c |}.

Definition reserve_both (c : ServiceEventCommitter) (run : RunRecord) (first second : string * Json)
    (s : CommitState) : ReservedPair :=
  let first_event := set_event_id (step_event_id c (snd first) (fst first))
    (event_candidate (uuids (cs_ids s)) (times (cs_ticks s)) run (fst first) (snd first)
       (sc_max_event_bytes c)) in
  let second_event := set_event_id (step_event_id c (snd second) (fst second))
    (event_candidate (uuids (S (cs_ids s))) (times (S (cs_ticks s))) run (fst second) (snd second)
       (sc_max_event_bytes c)) in
  let second_event := set_seq (wrap64 (ge_seq first_event + 1)) second_event in
  {| rp_first := first_event; rp_second := second_event;
     rp_persist_payload := pair_payload c first_event second_event (times (S (S (cs_ticks s))));
     rp_max_events_per_run := sc_max_events_per_run c |}.

Definition present (c : ServiceEventCommitter) (run : RunRecord) (x : string * Json) : bool :=
  let event_id := step_event_id c (snd x) (fst x) in
  negb (is_empty event_id) && has_event run event_id.

Definition pair_action (c : ServiceEventCommitter) (first second : string * Json) (s : CommitState) :
    result PairAction EventCommitError :=
  match gs_runs (cs_store s) !! sc_run_id c with
  | None => Err Terminal
  | Some run =>
      if run_is_terminal (rr_status run) then Err Terminal
      else Ok (match present c run first, present c run second with
               | true, true => BothPresent
               | false, true => MissingOne (reserve_one c run first s)
               | true, false => MissingOne (reserve_one c run second s)
               | false, false => BothMissing (reserve_both c run first second s)
               end)
  end.

Definition commit_pair (c : ServiceEventCommitter) (first second : string * Json) (s : CommitState) :
    CommitState * result unit EventCommitError :=
  if sc_terminal c then (s, Err Terminal)
  else
    match pair_action c first second s with
    | Err e => (s, Err e)
    | Ok BothPresent => (s, Ok tt)
    | Ok (MissingOne reserved) =>
        persist_and_apply (sc_persistence c) reserved (times (S (S (S (cs_ticks s))))) (spend 1 4 s)
    | Ok (BothMissing reserved) => persist_and_apply_pair (sc_persistence c) reserved (spend 2 4 s)
    end.

Definition prepare_tool_parent (c : ServiceEventCommitter) (tool_call_id name : string) (s : CommitState) :
    result (string * string) EventCommitError :=
  match gs_runs (cs_store s) !! sc_run_id c with
  | None => Err Terminal
  | Some run =>
      if run_is_terminal (rr_status run) then Err Terminal
      else
        match lookup_tool_call_parent (cs_store s) (rr_session_id run) tool_call_id with
        | Some (parent_id, stored_name) =>
            if str_eqb stored_name name then Ok (parent_id, stored_name) else Err Events.MissingParent
        | None => Err Events.MissingParent
        end
  end.

Definition replay_step (c : ServiceEventCommitter) (tool_call_id name : string) (s : CommitState) :
    result (option ToolResult) EventCommitError :=
  if sc_service c then replay_durable_tool_result (cs_store s) (sc_run_id c) tool_call_id name
  else Err Terminal.

(** The service's committer. *)
Definition service_committer (c : ServiceEventCommitter) : DurableEventCommitter CommitState ToolResult := {|
  Events.is_terminal _ := sc_terminal c;
  Events.stop_requested _ := sc_stop c;
  Events.commit event_type data s := commit_step c event_type data None s;
  Events.commit_step event_type data r s := commit_step c event_type data r s;
  Events.prepare_tool_parent tool_call_id name s := prepare_tool_parent c tool_call_id name s;
  Events.replay_durable_tool_result tool_call_id name s := replay_step c tool_call_id name s;
  Events.commit_pair first second s := commit_pair c first second s |}.

End Commit.

(** ** The durable side of the lifecycle engine, over any committer *)

Definition map_event_commit_error (e : EventCommitError) : LifecycleError :=
  match e with
  | Terminal => InactiveRun
  | Events.Cancelled => Cancelled
  | Events.MissingParent => MissingParent
  | PersistFailed message => ResultCommitFailed message
  | Corrupt message => ResultCommitFailed message
  end.

Section ServiceDurableLifecycle.
Context {S : Type} `{DurableEventCommitter S ToolResult}.

Definition started_data (record : DurableStarted) : Json :=
  jobj [("tool_call_id", JString (ds_call_id record)); ("name", JString (ds_tool_name record));
        ("argument_digest", JString (ds_argument_digest record));
        ("registry_identity", JString (ds_registry_identity record));
        ("risk_class", JString (risk_as_str (ds_risk_class record)));
        ("generation", JNumber (PosInt (ds_generation record)))].

Definition service_commit_started (record : DurableStarted) (s : S) : S * result unit LifecycleError :=
  let data := started_data record in
  let '(s', r) := Events.commit_pair ("tool.requested", data) ("tool.started", data) s in
  (s', map_err (fun e => match e with
                         | PersistFailed message => StartedCommitFailed message
                         | other => map_event_commit_error other
                         end) r).

Definition result_data (call_id : string) (t : ToolResult) : Json :=
  let data := jobj [("tool_call_id", JString call_id); ("ok", JBool (tr_ok t));
                    ("truncated", JBool (tr_truncated t))] in
  let data := match tr_error t with
              | Some e => jset "error_code" (JString (te_code e)) data
              | None => data
              end in
  match tr_artifacts t with
  | [] => data
  | artifacts => jset "artifacts" (JArray (map JString artifacts)) data
  end.

Definition service_commit_result (call_id : string) (r : Json) (s : S) : S * result Json LifecycleError :=
  match canonical_tool_result r with
  | Err e => (s, Err e)
  | Ok t =>
      let event_type := if tr_ok t then "tool.completed" else "tool.failed" in
      let data := result_data call_id t in
      match Events.commit_step "tool.output" data (Some t) s with
      | (s1, Err e) => (s1, Err (map_event_commit_error e))
      | (s1, Ok _) =>
          match Events.commit_step event_type data (Some t) s1 with
          | (s2, Err e) => (s2, Err (map_event_commit_error e))
          | (s2, Ok _) => (s2, Ok r)
          end
      end
  end.

Definition service_interrupt (call_id : string) (s : S) : S * result unit LifecycleError :=
  let t := tool_failure "interrupted_effect" "effect interrupted by restart" in
  let '(s', r) := Events.commit_step "tool.failed"
    (jobj [("tool_call_id", JString call_id); ("error_code", JString "interrupted_effect");
           ("ok", JBool false)]) (Some t) s in
  (s', map_err map_event_commit_error r).

#[export] Instance service_durable_lifecycle : DurableToolLifecycle S := {|
  assert_active_run _ s := if Events.is_terminal s then Err InactiveRun else Ok tt;
  prepare_parent _ call_id tool_name s :=
    map_err map_event_commit_error (result_map (fun _ => tt) (Events.prepare_tool_parent call_id tool_name s));
  replay_result _ call_id tool_name s :=
    match Events.replay_durable_tool_result call_id tool_name s with
    | Ok (Some t) => Ok (Some (tool_result_to_value t))
    | Ok None => Ok None
    | Err e => Err (map_event_commit_error e)
    end;
  commit_started := service_commit_started;
  commit_result := service_commit_result;
  interrupt := service_interrupt |}.

End ServiceDurableLifecycle.
