(* ===== verification/CommitSpec.v ===== *)
(** * What the durable committer guarantees

    Theorems on [Commit]: a step is stored before it is visible and a refused
    store leaves memory alone; a step is committed at most once; the event log
    of a run stays well formed; a committed result is the one a replay returns. *)

From stdpp Require Import pretty.
From S2P Require Import Prelude Utf8 Json Domain Store Events Delivery Capability Lifecycle Commit.

Section Spec.
Context `{JsonTextLaws} `{!Content.BlockSerde}.
Context {D : Type} (event_append step_commit event_append_pair : Json -> D -> D * result Json string).
Context (uuids : nat -> string) (times : nat -> Z).

Abbreviation commit_step := (Commit.commit_step event_append step_commit event_append_pair uuids times).
Abbreviation commit_pair := (Commit.commit_pair event_append step_commit event_append_pair uuids times).
Abbreviation persist_and_apply := (Commit.persist_and_apply event_append step_commit event_append_pair).
Abbreviation persist_and_apply_pair := (Commit.persist_and_apply_pair event_append step_commit event_append_pair).
Abbreviation reserve_step := (Commit.reserve_step uuids times).
Abbreviation reserve_one := (Commit.reserve_one uuids times).
Abbreviation reserve_both := (Commit.reserve_both uuids times).
Abbreviation pair_action := (Commit.pair_action uuids times).
Abbreviation run_command := (Commit.run_command event_append step_commit event_append_pair).
Abbreviation State := (CommitState (D := D)).

(** ** What an operation leaves behind *)

Lemma run_command_spec cmd (s s' : State) r :
  run_command cmd s = (s', r) ->
  cs_store s' = cs_store s /\ cs_trace s' = cs_trace s ++ [CStored cmd (is_ok r)] /\
  cs_ticks s' = cs_ticks s.
Proof.
  unfold Commit.run_command. destruct (match cmd with CAppend _ => _ | _ => _ end) as [d []];
    intros [= <- <-]; done.
Qed.

(** The events [publish] sends. *)
Definition sent (run_id : string) (events : list GatewayEvent) (store : GatewayStore) : list CommitEffect :=
  match gs_runs store !! run_id with
  | Some run => if rr_sender run then map CPublished events else []
  | None => []
  end.

Lemma publish_spec run_id events (s : State) :
  cs_store (publish run_id events s) = cs_store s /\
  cs_trace (publish run_id events s) = cs_trace s ++ sent run_id events (cs_store s) /\
  cs_ticks (publish run_id events s) = cs_ticks s.
Proof.
  unfold publish, sent. destruct (gs_runs (cs_store s) !! run_id) as [run|]; [destruct (rr_sender run)|];
    cbn; by rewrite ?app_nil_r.
Qed.

(** The command a reserved commit is stored with. *)
Definition command_of (reserved : ReservedCommit) : Command :=
  match rc_kind reserved with
  | Step => CStep (rc_persist_payload reserved)
  | EventAppend => CAppend (rc_persist_payload reserved)
  end.

Lemma persist_and_apply_spec p reserved now (s s' : State) r :
  persist_and_apply p reserved now s = (s', r) ->
  match r with
  | Ok _ => cs_store s' = apply_reserved now (cs_store s) reserved /\
            cs_trace s' = cs_trace s ++ (if p then [CStored (command_of reserved) true] else []) ++
              sent (ge_run_id (rc_event reserved)) [rc_event reserved] (cs_store s')
  | Err _ => p = true /\ cs_store s' = cs_store s /\
             cs_trace s' = cs_trace s ++ [CStored (command_of reserved) false]
  end.
Proof.
  unfold Commit.persist_and_apply. destruct p.
  - destruct (run_command _ s) as [s1 [u|e]] eqn:E; apply run_command_spec in E as (Hst & Htr & _);
      intros [= <- <-]; [|by rewrite Hst, Htr].
    destruct (publish_spec (ge_run_id (rc_event reserved)) [rc_event reserved]
                (put_store (apply_reserved now (cs_store s1) reserved) s1)) as (-> & -> & _).
    cbn. by rewrite Hst, Htr, <- app_assoc.
  - intros [= <- <-].
    destruct (publish_spec (ge_run_id (rc_event reserved)) [rc_event reserved]
                (put_store (apply_reserved now (cs_store s) reserved) s)) as (-> & -> & _).
    done.
Qed.

Lemma persist_and_apply_pair_spec p reserved (s s' : State) r :
  persist_and_apply_pair p reserved s = (s', r) ->
  match r with
  | Ok _ => cs_store s' = apply_reserved_pair (cs_store s) reserved /\
            cs_trace s' = cs_trace s ++ (if p then [CStored (CPair (rp_persist_payload reserved)) true] else [])
              ++ sent (ge_run_id (rp_first reserved)) [rp_first reserved; rp_second reserved] (cs_store s')
  | Err _ => p = true /\ cs_store s' = cs_store s /\
             cs_trace s' = cs_trace s ++ [CStored (CPair (rp_persist_payload reserved)) false]
  end.
Proof.
  unfold Commit.persist_and_apply_pair. destruct p.
  - destruct (run_command _ s) as [s1 [u|e]] eqn:E; apply run_command_spec in E as (Hst & Htr & _);
      intros [= <- <-]; [|by rewrite Hst, Htr].
    destruct (publish_spec (ge_run_id (rp_first reserved)) [rp_first reserved; rp_second reserved]
                (put_store (apply_reserved_pair (cs_store s1) reserved) s1)) as (-> & -> & _).
    cbn. by rewrite Hst, Htr, <- app_assoc.
  - intros [= <- <-].
    destruct (publish_spec (ge_run_id (rp_first reserved)) [rp_first reserved; rp_second reserved]
                (put_store (apply_reserved_pair (cs_store s) reserved) s)) as (-> & -> & _).
    done.
Qed.

Lemma account_attempt_spec c t r (s : State) :
  cs_store (account_attempt c t r s) = cs_store s /\ cs_trace (account_attempt c t r s) = cs_trace s.
Proof. unfold account_attempt. by case_match. Qed.

(** ** Durable before visible *)

Inductive CommitOp :=
| OStep (c : ServiceEventCommitter) (event_type : string) (data : Json) (r : option ToolResult)
| OPair (c : ServiceEventCommitter) (first second : string * Json).

Definition op_committer (op : CommitOp) : ServiceEventCommitter :=
  match op with OStep c _ _ _ | OPair c _ _ => c end.

Definition run_op (op : CommitOp) (s : State) : State * result unit EventCommitError :=
  match op with
  | OStep c event_type data r => commit_step c event_type data r s
  | OPair c first second => commit_pair c first second s
  end.

Definition run_ops (ops : list CommitOp) (s : State) : State :=
  fold_left (fun s op => fst (run_op op s)) ops s.

(** The payload stores the event: its identifier, its sequence, its data. *)
Definition stores (payload : Json) (id seq data : string) (e : GatewayEvent) : Prop :=
  jget id payload = Some (JString (ge_event_id e)) /\
  jget seq payload = Some (JNumber (PosInt (ge_seq e))) /\
  jget data payload = Some (JString (json_text (ge_data e))).

Definition carries (cmd : Command) (e : GatewayEvent) : Prop :=
  match cmd with
  | CAppend p | CStep p => stores p "event_id" "seq" "payload_json" e
  | CPair p => stores p "event_id_a" "seq_a" "payload_json_a" e \/
               stores p "event_id_b" "seq_b" "payload_json_b" e
  end.

(** Every published event was stored, successfully, earlier in the list. *)
Definition durable_first (l : list CommitEffect) : Prop :=
  forall i e, l !! i = Some (CPublished e) ->
  exists j cmd, j < i /\ l !! j = Some (CStored cmd true) /\ carries cmd e.

Lemma durable_first_app l k : durable_first l -> durable_first k -> durable_first (l ++ k).
Proof.
  intros Hl Hk i e Hi. apply lookup_app_Some in Hi as [Hi|[Hge Hi]].
  - destruct (Hl i e Hi) as (j & cmd & Hj & Hc & Hs). exists j, cmd.
    split_and!; [done|by apply lookup_app_l_Some|done].
  - destruct (Hk _ e Hi) as (j & cmd & Hj & Hc & Hs). exists (length l + j), cmd.
    split_and!; [lia| |done]. rewrite lookup_app_r by lia. by replace (length l + j - length l) with j by lia.
Qed.

Lemma durable_first_stored cmd b : durable_first [CStored cmd b].
Proof. by intros [|[|i]] e Hi. Qed.

Lemma durable_first_nil : durable_first [].
Proof. by intros [|i] e Hi. Qed.

Lemma durable_first_sent cmd run_id events store :
  Forall (carries cmd) events -> durable_first (CStored cmd true :: sent run_id events store).
Proof.
  intros Hc [|i] e Hi; [done|]. change (sent run_id events store !! i = Some (CPublished e)) in Hi.
  exists 0, cmd.
  split_and!; [lia|done|]. unfold sent in Hi.
  destruct (gs_runs store !! run_id) as [run|]; [|by rewrite lookup_nil in Hi].
  destruct (rr_sender run); [|by rewrite lookup_nil in Hi].
  apply list_lookup_fmap_Some in Hi as (e' & [= ->] & Hi). by eapply Forall_lookup_1.
Qed.

#[local] Hint Resolve durable_first_app durable_first_stored durable_first_nil durable_first_sent : core.

Lemma reserve_step_carries c t data r (s : State) reserved :
  reserve_step c t data r s = Reserved reserved -> carries (command_of reserved) (rc_event reserved).
Proof.
  unfold Commit.reserve_step. intros Hr. repeat case_match; simplify_eq; by split_and!.
Qed.

Lemma reserve_one_carries c run x (s : State) :
  carries (command_of (reserve_one c run x s)) (rc_event (reserve_one c run x s)).
Proof. by split_and!. Qed.

Lemma reserve_both_carries c run x y (s : State) :
  let r := reserve_both c run x y s in
  Forall (carries (CPair (rp_persist_payload r))) [rp_first r; rp_second r].
Proof. intros r. apply Forall_cons. split; [left|apply Forall_singleton; right]; by split_and!. Qed.

(** What an operation does, on either answer: it adds to the trace, durable
    events first, and an error leaves the store alone and publishes nothing. *)
Definition op_effect (s s' : State) (ok : bool) : Prop :=
  exists new, cs_trace s' = cs_trace s ++ new /\ durable_first new /\
    (ok = false -> cs_store s' = cs_store s /\ forall e, CPublished e ∉ new).

Lemma op_effect_same (s : State) ok : op_effect s s ok.
Proof.
  unfold op_effect. exists []. rewrite app_nil_r. split_and!; auto.
  intros _. split; [done|]. intros e Hin. by apply not_elem_of_nil in Hin.
Qed.

Lemma op_effect_intro (s s' : State) cmd run_id events (ok : bool) :
  Forall (carries cmd) events ->
  (if ok then cs_trace s' = cs_trace s ++ CStored cmd true :: sent run_id events (cs_store s')
   else cs_store s' = cs_store s /\ cs_trace s' = cs_trace s ++ [CStored cmd false]) ->
  op_effect s s' ok.
Proof.
  intros Hc Hs. destruct ok; unfold op_effect.
  - rewrite Hs. eexists. split_and!; auto; done.
  - destruct Hs as [Hst Htr]. rewrite Hst, Htr. eexists. split_and!; auto.
    intros _. split; [done|]. intros e Hin. by apply list_elem_of_singleton in Hin.
Qed.

Lemma persist_and_apply_effect reserved now ids ticks (s s' : State) r :
  carries (command_of reserved) (rc_event reserved) ->
  persist_and_apply true reserved now (spend ids ticks s) = (s', r) -> op_effect s s' (is_ok r).
Proof.
  intros Hc Hpa%persist_and_apply_spec.
  eapply op_effect_intro; [by apply Forall_singleton|]. destruct r; cbn in *; naive_solver.
Qed.

Lemma run_op_effect op (s s' : State) r :
  sc_persistence (op_committer op) = true -> run_op op s = (s', r) -> op_effect s s' (is_ok r).
Proof.
  intros Hp Hop. destruct op as [c t data res|c x y]; cbn in Hp, Hop.
  - unfold Commit.commit_step in Hop. rewrite Hp in Hop.
    destruct (sc_terminal c); [simplify_eq; apply op_effect_same|].
    destruct (reserve_step c t data res s) as [e| |reserved] eqn:Hres; [simplify_eq; apply op_effect_same..|].
    destruct (persist_and_apply _ _ _ _) as [s1 a] eqn:Hpa.
    apply persist_and_apply_effect in Hpa; [|by eapply reserve_step_carries].
    destruct a; simplify_eq; [|done]. unfold op_effect in *.
    by destruct (account_attempt_spec c t res s1) as [-> ->].
  - unfold Commit.commit_pair in Hop. rewrite Hp in Hop.
    destruct (sc_terminal c); [simplify_eq; apply op_effect_same|].
    destruct (pair_action c x y s) as [[|reserved|reserved]|e] eqn:Hact;
      [simplify_eq; apply op_effect_same| | |simplify_eq; apply op_effect_same];
      unfold Commit.pair_action in Hact.
    + eapply persist_and_apply_effect; [|exact Hop].
      repeat case_match; simplify_eq; apply reserve_one_carries.
    + apply persist_and_apply_pair_spec in Hop.
      apply (op_effect_intro s s' (CPair (rp_persist_payload reserved)) (ge_run_id (rp_first reserved))
               [rp_first reserved; rp_second reserved]); [|destruct r; cbn in *; naive_solver].
      repeat case_match; simplify_eq; apply reserve_both_carries.
Qed.

(** C4. Over any sequence of tool-step commits with storage, every event a
    subscriber sees was stored before, by a successful command carrying that
    event's identifier, sequence number and data. *)
Theorem commits_durable_before_visible ops (s : State) :
  Forall (fun op => sc_persistence (op_committer op) = true) ops ->
  exists new, cs_trace (run_ops ops s) = cs_trace s ++ new /\ durable_first new.
Proof.
  revert s. induction ops as [|op ops IH]; intros s Hops.
  { exists []. by rewrite app_nil_r. }
  apply Forall_cons in Hops as [Hp Hops]. destruct (run_op op s) as [s1 r] eqn:Hop.
  destruct (run_op_effect op s s1 r Hp Hop) as (n1 & Ht1 & Hd1 & _).
  destruct (IH s1 Hops) as (n2 & Ht2 & Hd2). exists (n1 ++ n2).
  unfold run_ops. cbn [fold_left]. rewrite Hop. cbn [fst]. fold (run_ops ops s1).
  rewrite Ht2, Ht1, app_assoc. auto.
Qed.

(** A tool-step commit that answers an error has changed nothing in memory
    and shown nothing to a subscriber. *)
Theorem commit_error_keeps_memory op (s s' : State) e :
  sc_persistence (op_committer op) = true -> run_op op s = (s', Err e) ->
  cs_store s' = cs_store s /\
  exists new, cs_trace s' = cs_trace s ++ new /\ forall ev, CPublished ev ∉ new.
Proof. intros Hp Hop. destruct (run_op_effect op s s' _ Hp Hop) as (new & Ht & _ & Hn). naive_solver. Qed.

(** ** What a reservation holds *)

Lemma has_event_spec run id : has_event run id = true <-> id ∈ map ge_event_id (rr_events run).
Proof. apply existsb_ids. Qed.

Lemma present_fresh run id :
  negb (is_empty id) && has_event run id = false -> id <> EmptyString ->
  id ∉ map ge_event_id (rr_events run).
Proof.
  intros Hp Hne Hin%has_event_spec. rewrite Hin in Hp. by destruct id.
Qed.

Lemma set_event_id_spec id e :
  ge_seq (set_event_id id e) = ge_seq e /\ ge_run_id (set_event_id id e) = ge_run_id e /\
  ge_data (set_event_id id e) = ge_data e /\ ge_event (set_event_id id e) = ge_event e /\
  (id <> EmptyString -> ge_event_id (set_event_id id e) = id).
Proof. unfold set_event_id. by destruct id. Qed.

(** The event a step reserves, for the run it belongs to. *)
Definition step_candidate (c : ServiceEventCommitter) (run : RunRecord) (t : string) (data : Json)
    (e : GatewayEvent) : Prop :=
  ge_seq e = next_seq run /\ ge_run_id e = rr_run_id run /\ ge_event e = t /\
  ge_data e = (if (sc_max_event_bytes c <? slen (json_text data))%Z then over_limit_data else data) /\
  (step_event_id c data t <> EmptyString ->
   ge_event_id e = step_event_id c data t /\ ge_event_id e ∉ map ge_event_id (rr_events run)).

Lemma candidate_intro c run t data uuid now :
  negb (is_empty (step_event_id c data t)) && has_event run (step_event_id c data t) = false ->
  step_candidate c run t data
    (set_event_id (step_event_id c data t) (event_candidate uuid now run t data (sc_max_event_bytes c))).
Proof.
  intros Hp. unfold step_candidate.
  destruct (set_event_id_spec (step_event_id c data t)
              (event_candidate uuid now run t data (sc_max_event_bytes c))) as (-> & -> & -> & -> & Hid).
  split_and!; try done. intros Hne. rewrite (Hid Hne). eauto using present_fresh.
Qed.

Lemma reserve_step_spec c t data r (s : State) reserved :
  reserve_step c t data r s = Reserved reserved ->
  exists run, gs_runs (cs_store s) !! sc_run_id c = Some run /\ run_is_terminal (rr_status run) = false /\
    step_candidate c run t data (rc_event reserved) /\
    rc_max_events_per_run reserved = sc_max_events_per_run c.
Proof.
  unfold Commit.reserve_step. intros Hr.
  destruct (gs_runs (cs_store s) !! sc_run_id c) as [run|]; [|done].
  destruct (run_is_terminal (rr_status run)) eqn:Ht; [done|].
  destruct (negb _ && _) eqn:Hp; [done|]. exists run. split_and!; try done.
  - repeat case_match; simplify_eq; by apply candidate_intro.
  - by repeat case_match; simplify_eq.
Qed.

Lemma commit_step_Err c t data r (s s' : State) e :
  commit_step c t data r s = (s', Err e) -> cs_store s' = cs_store s.
Proof.
  unfold Commit.commit_step. intros Hc. destruct (sc_terminal c); [by simplify_eq|].
  destruct (reserve_step c t data r s) as [e'| |reserved]; [by simplify_eq|done|].
  destruct (persist_and_apply _ _ _ _) as [s1 [u|e']] eqn:Hpa; apply persist_and_apply_spec in Hpa;
    naive_solver.
Qed.

Lemma commit_step_Ok c t data r (s s' : State) :
  commit_step c t data r s = (s', Ok tt) ->
  sc_terminal c = false /\
  ((s' = s /\ reserve_step c t data r s = AlreadyThere) \/
   exists now reserved, reserve_step c t data r s = Reserved reserved /\
     cs_store s' = apply_reserved now (cs_store s) reserved).
Proof.
  unfold Commit.commit_step. intros Hc. destruct (sc_terminal c); [done|]. split; [done|].
  destruct (reserve_step c t data r s) as [e| |reserved]; [done|by simplify_eq; left|right].
  destruct (persist_and_apply _ _ _ _) as [s1 [u|e]] eqn:Hpa; apply persist_and_apply_spec in Hpa;
    simplify_eq.
  destruct (account_attempt_spec c t r s1) as [-> _]. destruct Hpa as [-> _]. eauto.
Qed.

Lemma apply_reserved_runs now store reserved :
  gs_runs (apply_reserved now store reserved) =
  alter (fun run => apply_event_locked run (rc_event reserved) (rc_max_events_per_run reserved))
    (ge_run_id (rc_event reserved)) (gs_runs store).
Proof. unfold apply_reserved, push_message_opt. by case_match. Qed.

(** The run after a step that was not there before. *)
Lemma apply_step_run c run t data reserved now store :
  gs_runs store !! sc_run_id c = Some run -> rr_run_id run = sc_run_id c ->
  step_candidate c run t data (rc_event reserved) ->
  gs_runs (apply_reserved now store reserved) !! sc_run_id c =
  Some (apply_event_locked run (rc_event reserved) (rc_max_events_per_run reserved)).
Proof.
  intros Hrun Hid (_ & Hr & _). by rewrite apply_reserved_runs, Hr, Hid, lookup_alter, decide_True, Hrun.
Qed.

(** ** At most once *)

(** The step names a call, in valid text. *)
Definition names_call (c : ServiceEventCommitter) (data : Json) (t : string) : bool :=
  negb (is_empty (call_of data)) && str_valid (sc_run_id c) && str_valid (call_of data) && str_valid t.

Lemma step_event_id_named c data t :
  names_call c data t = true ->
  step_event_id c data t = durable_tool_event_id (sc_run_id c) (call_of data) t /\
  step_event_id c data t <> EmptyString.
Proof.
  unfold names_call, step_event_id. intros Hn. bool_to_prop.
  destruct (is_empty (call_of data)); [done|]. split; [done|]. by apply durable_tool_event_id_nonempty.
Qed.

(** The step is in the log of its run. *)
Definition recorded (c : ServiceEventCommitter) (data : Json) (t : string) (s : State) : Prop :=
  exists run, gs_runs (cs_store s) !! sc_run_id c = Some run /\ run_is_terminal (rr_status run) = false /\
    step_event_id c data t ∈ map ge_event_id (rr_events run).

Lemma recorded_present c t data r (s : State) :
  recorded c data t s -> step_event_id c data t <> EmptyString ->
  reserve_step c t data r s = AlreadyThere.
Proof.
  intros (run & Hrun & Ht & Hin%has_event_spec) Hne. unfold Commit.reserve_step. rewrite Hrun, Ht, Hin.
  by destruct (step_event_id c data t).
Qed.

Lemma commit_step_recorded c t data r (s s' : State) run :
  gs_runs (cs_store s) !! sc_run_id c = Some run -> rr_run_id run = sc_run_id c ->
  0 < sc_max_events_per_run c -> step_event_id c data t <> EmptyString ->
  commit_step c t data r s = (s', Ok tt) -> recorded c data t s'.
Proof.
  intros Hrun Hid Hmax Hne (_ & [[-> Hres]|(now & reserved & Hres & Hst)])%commit_step_Ok.
  - unfold Commit.reserve_step in Hres. rewrite Hrun in Hres.
    destruct (run_is_terminal (rr_status run)) eqn:Ht; [done|].
    destruct (negb _ && _) eqn:Hp; [|by repeat case_match].
    apply andb_true_iff in Hp as [_ Hin%has_event_spec]. by exists run.
  - apply reserve_step_spec in Hres as (run' & Hrun' & Ht & Hc & Hm). simplify_eq.
    pose proof (apply_step_run c run t data reserved now _ Hrun Hid Hc) as Hrun'.
    destruct Hc as (_ & _ & _ & _ & Hfresh). destruct (Hfresh Hne) as [Heid Hf].
    eexists. rewrite Hst. split_and!; [exact Hrun'|by rewrite apply_event_locked_status|].
    rewrite <- Heid. apply list_elem_of_fmap. eexists. split; [done|].
    eapply last_Some_elem_of, apply_fresh_last; [done|lia].
Qed.

(** A tool step is committed at most once: after a commit that answered
    [Ok], committing the same step of the same call again, whatever its data
    and result, answers [Ok] and changes nothing at all. *)
Theorem commit_step_idempotent c t data data' r r' (s s' : State) run :
  gs_runs (cs_store s) !! sc_run_id c = Some run -> rr_run_id run = sc_run_id c ->
  0 < sc_max_events_per_run c -> names_call c data t = true -> call_of data' = call_of data ->
  commit_step c t data r s = (s', Ok tt) ->
  commit_step c t data' r' s' = (s', Ok tt).
Proof.
  intros Hrun Hid Hmax [_ Hne]%step_event_id_named Hcall Hok.
  assert (step_event_id c data' t = step_event_id c data t) as He by (unfold step_event_id; by rewrite Hcall).
  pose proof (commit_step_recorded c t data r s s' run Hrun Hid Hmax Hne Hok) as Hrec.
  apply commit_step_Ok in Hok as [Hterm _].
  unfold Commit.commit_step. rewrite Hterm, recorded_present; [done| |by rewrite He].
  unfold recorded. by rewrite He.
Qed.

(** ** The event logs *)

(** Every run is filed under its own identifier with a well-formed log. *)
Definition logs_ok (max : nat) (store : GatewayStore) : Prop :=
  map_Forall (fun id run => rr_run_id run = id /\ log_ok max run) (gs_runs store).

Lemma apply_event_locked_id run e max : rr_run_id (apply_event_locked run e max) = rr_run_id run.
Proof. unfold apply_event_locked. by case_match. Qed.

Lemma logs_ok_alter max store (f : RunRecord -> RunRecord) id run :
  logs_ok max store -> gs_runs store !! id = Some run ->
  rr_run_id (f run) = rr_run_id run -> log_ok max (f run) ->
  map_Forall (fun id run => rr_run_id run = id /\ log_ok max run) (alter f id (gs_runs store)).
Proof.
  intros Hl Hrun Hid Hlog k x Hk. destruct (decide (id = k)) as [->|Hne].
  - rewrite lookup_alter, decide_True, Hrun in Hk by done. injection Hk as <-.
    destruct (Hl k run Hrun) as [Hrk _]. by rewrite Hid.
  - rewrite lookup_alter_ne in Hk by done. by apply Hl.
Qed.

Lemma apply_reserved_logs c max now store reserved run t data :
  logs_ok max store -> gs_runs store !! sc_run_id c = Some run ->
  step_candidate c run t data (rc_event reserved) -> rc_max_events_per_run reserved = max ->
  logs_ok max (apply_reserved now store reserved).
Proof.
  intros Hl Hrun (Hseq & Hid & _) Hmax. destruct (Hl _ _ Hrun) as [Hrid Hlog].
  unfold logs_ok. rewrite apply_reserved_runs, Hid, Hrid, Hmax.
  eapply logs_ok_alter; eauto using apply_event_locked_id, apply_next_keeps_log.
Qed.

Lemma apply_reserved_pair_logs max store reserved run id :
  logs_ok max store -> gs_runs store !! id = Some run -> 0 < max ->
  ge_seq (rp_first reserved) = next_seq run -> ge_run_id (rp_first reserved) = rr_run_id run ->
  ge_event_id (rp_first reserved) ∉ map ge_event_id (rr_events run) ->
  ge_seq (rp_second reserved) = wrap64 (ge_seq (rp_first reserved) + 1) ->
  ge_run_id (rp_second reserved) = rr_run_id run -> rp_max_events_per_run reserved = max ->
  logs_ok max (apply_reserved_pair store reserved).
Proof.
  intros Hl Hrun Hmax Hs1 Hr1 Hf Hs2 Hr2 Hm. destruct (Hl _ _ Hrun) as [Hrid Hlog].
  unfold logs_ok, apply_reserved_pair. cbn. rewrite Hr1, Hrid, Hm.
  apply (logs_ok_alter max store _ id run); [done..|by rewrite !apply_event_locked_id|].
  apply apply_next_keeps_log; [by apply apply_next_keeps_log| |by rewrite apply_event_locked_id].
  unfold next_seq at 1. by rewrite apply_fresh_last by done.
Qed.

(** The pair names a call, as the start of a tool always does. *)
Definition op_ok (max : nat) (op : CommitOp) : bool :=
  bool_decide (sc_max_events_per_run (op_committer op) = max) &&
  match op with
  | OStep _ _ _ _ => true
  | OPair c first second => names_call c (snd first) (fst first)
  end.

Lemma pair_action_logs c x y max (s : State) act :
  logs_ok max (cs_store s) -> 0 < max -> sc_max_events_per_run c = max ->
  names_call c (snd x) (fst x) = true -> pair_action c x y s = Ok act ->
  match act with
  | BothPresent => True
  | MissingOne reserved => forall now, logs_ok max (apply_reserved now (cs_store s) reserved)
  | BothMissing reserved => logs_ok max (apply_reserved_pair (cs_store s) reserved)
  end.
Proof.
  intros Hl Hmax Hm [_ Hne]%step_event_id_named Hact. unfold Commit.pair_action in Hact.
  destruct (gs_runs (cs_store s) !! sc_run_id c) as [run|] eqn:Hrun; [|done].
  destruct (run_is_terminal _); [done|].
  destruct (present c run x) eqn:Hx, (present c run y) eqn:Hy; simplify_eq; try done.
  - intros now. eapply (apply_reserved_logs c); [done|done|by apply candidate_intro|done].
  - intros now. eapply (apply_reserved_logs c); [done|done|by apply candidate_intro|done].
  - pose proof (candidate_intro c run (fst x) (snd x) (uuids (cs_ids s)) (times (cs_ticks s)) Hx)
      as (Hs1 & Hr1 & _ & _ & Hf1).
    pose proof (candidate_intro c run (fst y) (snd y) (uuids (S (cs_ids s))) (times (S (cs_ticks s))) Hy)
      as (_ & Hr2 & _).
    eapply apply_reserved_pair_logs; [done|done|done|exact Hs1|exact Hr1|by apply Hf1|done|exact Hr2|done].
Qed.

Lemma run_op_logs max op (s s' : State) r :
  op_ok max op = true -> 0 < max -> run_op op s = (s', r) ->
  logs_ok max (cs_store s) -> logs_ok max (cs_store s').
Proof.
  intros Hop Hmax Hrun Hl. apply andb_true_iff in Hop as [Hcm%bool_decide_eq_true Hnames]. destruct op as [c t data res|c x y]; cbn in *.
  - destruct r as [[]|e]; [|by erewrite commit_step_Err].
    apply commit_step_Ok in Hrun as (_ & [[-> _]|(now & reserved & Hres & ->)]); [done|].
    apply reserve_step_spec in Hres as (run & Hr & _ & Hc & Hm).
    eapply apply_reserved_logs; eauto. congruence.
  - unfold Commit.commit_pair in Hrun. destruct (sc_terminal c); [by simplify_eq|].
    destruct (pair_action c x y s) as [act|e] eqn:Hact; [|by simplify_eq].
    eapply pair_action_logs in Hact; [|done..].
    destruct act as [|reserved|reserved]; [by simplify_eq| |].
    + apply persist_and_apply_spec in Hrun. destruct r; [|by destruct Hrun as (_ & -> & _)].
      destruct Hrun as [-> _]. apply Hact.
    + apply persist_and_apply_pair_spec in Hrun. destruct r; [|by destruct Hrun as (_ & -> & _)].
      by destruct Hrun as [-> _].
Qed.

(** Any sequence of step and start commits keeps every run's log well
    formed: sequence numbers consecutive (a start takes two), no identifier
    twice, bounded length. *)
Theorem commits_keep_logs max ops (s : State) :
  0 < max -> Forall (fun op => op_ok max op = true) ops ->
  logs_ok max (cs_store s) -> logs_ok max (cs_store (run_ops ops s)).
Proof.
  intros Hmax. revert s. induction ops as [|op ops IH]; intros s Hops Hl; [done|].
  apply Forall_cons in Hops as [Hop Hops]. apply IH; [done|].
  destruct (run_op op s) as [s1 r] eqn:E. by eapply run_op_logs.
Qed.

(** ** Replay *)

(** What survives of a result that fits the bounds: the first artifact of a
    success, the code and message of a failure. *)
Definition replayed_form (t : ToolResult) : ToolResult :=
  if tr_ok t then {|
    tr_ok := true; tr_content := tr_content t; tr_data := tr_data t; tr_error := None;
    tr_truncated := tr_truncated t; tr_artifacts := take 1 (tr_artifacts t); tr_replayed := false |}
  else match tr_error t with
       | Some e => tool_failure (te_code e) (te_message e)
       | None => tool_failure "tool_failed" "tool failed"
       end.

Definition error_json (e : ToolError) : Json :=
  jobj [("code", JString (te_code e)); ("message", JString (te_message e))].

Definition result_small (t : ToolResult) : bool :=
  str_valid (tr_content t) && bool_decide (length (chars (tr_content t)) <= MAX_DURABLE_TEXT_CHARS) &&
  (if tr_ok t then Content.not_null (Some (tr_data t)) && Content.json_bounded (Some (tr_data t)) else true) &&
  Content.json_bounded (error_json <$> tr_error t).

Lemma result_block_small call t :
  result_small t = true ->
  result_block call t = {|
    Content.block_type := "tool_result"; Content.text := None; Content.tool_call_id := Some call;
    Content.name := None; Content.arguments_json := None; Content.arguments := None;
    Content.content := Some (tr_content t); Content.is_error := Some (negb (tr_ok t));
    Content.result_ := if tr_ok t then Some (tr_data t) else None;
    Content.error := error_json <$> tr_error t;
    Content.artifact := (fun id => jobj [("id", JString id)]) <$> head (tr_artifacts t);
    Content.truncated := if tr_truncated t then Some true else None |}.
Proof.
  unfold result_small. intros Hs. bool_to_prop. unfold result_block.
  rewrite truncate_utf8_chars_spec, take_ge, of_chars_chars, bool_decide_eq_false_2 by lia.
  by rewrite orb_false_r.
Qed.

Lemma result_block_fixed call t :
  result_small t = true -> Content.bound_content_block (result_block call t) = result_block call t.
Proof.
  intros Hs. pose proof Hs as Hs'. unfold result_small in Hs'.
  rewrite !andb_true_iff, bool_decide_eq_true in Hs'. destruct Hs' as (((Hv & Hlen) & Hd) & He).
  apply Content.bound_content_block_fix; rewrite (result_block_small call t Hs).
  - unfold Content.block_bounded, Content.text_bounded, Content.opt_forallb. cbn.
    rewrite Hv, bool_decide_eq_true_2 by done. cbn. rewrite He.
    destruct (tr_ok t); [apply andb_true_iff in Hd as [_ Hd]; by rewrite Hd|done].
  - cbn. by destruct (tr_artifacts t).
  - cbn. by destruct (tr_truncated t).
Qed.

Lemma result_block_keeps call t : result_small t = true -> Content.block_keeps (result_block call t) = true.
Proof.
  intros Hs. rewrite (result_block_small call t Hs). unfold result_small in Hs.
  rewrite !andb_true_iff in Hs. destruct Hs as ((_ & Hd) & He). unfold Content.block_keeps, Content.artifact_flat. cbn.
  destruct (tr_error t), (tr_artifacts t); cbn; destruct (tr_ok t); cbn; try done;
    apply andb_true_iff in Hd as [Hd _]; cbn in Hd; by rewrite Hd.
Qed.

Lemma result_of_small call t :
  result_small t = true -> result_of_block (result_block call t) = replayed_form t.
Proof.
  intros Hs. rewrite (result_block_small call t Hs). unfold result_of_block, replayed_form. cbn.
  destruct (tr_ok t); cbn; [|by destruct (tr_error t)].
  rewrite bool_decide_eq_false_2 by done.
  destruct (tr_artifacts t), (tr_truncated t); reflexivity.
Qed.

Lemma decode_result call t :
  result_small t = true ->
  Content.decode_message_blocks (tool_result_content_json call t) = [result_block call t].
Proof.
  intros Hs. unfold tool_result_content_json, Content.encode_message_content, Content.decode_message_blocks.
  cbn [map]. rewrite Content.decode_one_bounded by (by apply result_block_keeps). by rewrite result_block_fixed.
Qed.

Lemma find_call_app call ms ms' p :
  find_call call ms = Some p -> find_call call (ms ++ ms') = Some p.
Proof. induction ms as [|m ms IH]; cbn; [done|]. by repeat case_match; auto. Qed.

(** The call's result is the last message of its call in the session of the run. *)
Definition result_kept (c : ServiceEventCommitter) (call name : string) (t : ToolResult) (store : GatewayStore) : Prop :=
  exists run session ms m later,
    gs_runs store !! sc_run_id c = Some run /\ rr_run_id run = sc_run_id c /\
    gs_sessions store !! rr_session_id run = Some session /\ sr_messages session = ms ++ m :: later /\
    Forall (fun x => sm_tool_call_id x <> Some call) later /\
    sm_id m = durable_message_id (sc_run_id c) "result" call /\
    sm_tool_call_id m = Some call /\ sm_name m = non_empty name /\
    sm_content m = tool_result_content_json call t /\ exists parent, find_call call ms = Some (parent, name).

(** A step output of the call is in the run's log. *)
Definition retains (run_id call : string) (store : GatewayStore) : Prop :=
  exists run, gs_runs store !! run_id = Some run /\
    existsb (fun e => is_step_output (ge_event e) && event_of_call call e) (rr_events run) = true.

Lemma find_result_skips call name l ms :
  Forall (fun x => sm_tool_call_id x <> Some call) l -> find_result call name (l ++ ms) = find_result call name ms.
Proof. induction 1 as [|x l Hx _ IH]; cbn; [done|]. by rewrite bool_decide_eq_false_2. Qed.

Lemma result_stored_replayed c call name t store :
  result_kept c call name t store -> retains (sc_run_id c) call store -> result_small t = true ->
  replay_durable_tool_result store (sc_run_id c) call name = Ok (Some (replayed_form t)).
Proof.
  intros (run & session & ms & m & later & Hrun & _ & Hses & Hms & Hlater & _ & Hcall & Hname & Hcont & parent & Hfind)
    (run' & Hrun' & Hev) Hs.
  assert (run' = run) as -> by congruence.
  unfold replay_durable_tool_result, lookup_tool_call_parent. rewrite Hrun, Hev, Hses. cbn [negb mbind option_bind].
  rewrite Hms, (find_call_app _ _ _ _ Hfind), str_eqb_refl. cbn [negb].
  replace (ms ++ m :: later) with ((ms ++ [m]) ++ later) by by rewrite <- app_assoc.
  rewrite reverse_app, find_result_skips by by apply Forall_reverse.
  rewrite reverse_snoc. cbn [find_result]. rewrite Hcall, bool_decide_eq_true_2 by done.
  assert (match sm_name m with Some stored => negb (str_eqb stored name) | None => false end = false) as ->.
  { rewrite Hname. unfold non_empty. destruct (is_empty name); [done|]. by rewrite str_eqb_refl. }
  rewrite Hcont, decode_result by done. cbn [List.find].
  assert (str_eqb (Content.block_type (result_block call t)) "tool_result" &&
          bool_decide (Content.tool_call_id (result_block call t) = Some call) = true) as ->.
  { rewrite result_block_small by done. cbn. by rewrite bool_decide_eq_true_2. }
  by rewrite result_of_small.
Qed.

Lemma call_of_Some data call : call_of data = call -> call <> EmptyString ->
  jget "tool_call_id" data ≫= as_str = Some call.
Proof. unfold call_of. by destruct (jget "tool_call_id" data ≫= as_str); intros <-. Qed.

(** The message a step with a result reserves. *)
Lemma reserve_step_attached c t data res (s : State) reserved run :
  reserve_step c t data (Some res) s = Reserved reserved -> attaches t data (Some res) = true ->
  gs_runs (cs_store s) !! sc_run_id c = Some run ->
  exists parent tool ordinal now,
    lookup_tool_call_parent (cs_store s) (rr_session_id run) (call_of data) = Some (parent, tool) /\
    rc_message reserved = Some (result_message c (rr_session_id run)
      (tool_result_content_json (call_of data) res) now tool (call_of data) parent ordinal).
Proof.
  intros Hr Ha Hrun. unfold Commit.reserve_step in Hr. rewrite Hrun, Ha in Hr.
  destruct (run_is_terminal _); [done|]. destruct (negb _ && _); [done|].
  destruct (lookup_tool_call_parent _ _ _) as [[parent tool]|]; [|done].
  destruct (check_validation_only _ _ _ _ _ _ _ _); [|done]. injection Hr as <-. eauto 10.
Qed.

Lemma apply_reserved_sessions now store reserved m :
  rc_message reserved = Some m ->
  gs_sessions (apply_reserved now store reserved) = alter (push_message now m) (sm_session_id m) (gs_sessions store).
Proof. unfold apply_reserved, push_message_opt. by intros ->. Qed.

(** The event of an applied step is a step output of its call. *)
Lemma step_output_applied c run t data e max :
  step_candidate c run t data e -> names_call c data t = true -> is_step_output t = true -> 0 < max ->
  (slen (json_text data) <= sc_max_event_bytes c)%Z ->
  existsb (fun e => is_step_output (ge_event e) && event_of_call (call_of data) e)
    (rr_events (apply_event_locked run e max)) = true.
Proof.
  intros (_ & _ & Ht & Hd & Hf) Hn Ho Hmax Hsize.
  assert (call_of data <> EmptyString) as Hne.
  { unfold names_call in Hn. bool_to_prop. by destruct (call_of data). }
  apply step_event_id_named in Hn as [_ Hn]. destruct (Hf Hn) as [_ Hfresh].
  apply existsb_exists_iff. exists e. split.
  - eapply last_Some_elem_of, apply_fresh_last; done.
  - rewrite Ht, Ho, (proj2 (Z.ltb_ge _ _)) in * by done. unfold event_of_call. rewrite Hd.
    by apply bool_decide_eq_true_2, call_of_Some.
Qed.

(** A step output that can be committed and read back: it names its call, its
    data is within the event bound. *)
Definition output_ok (c : ServiceEventCommitter) (t : string) (data : Json) : bool :=
  names_call c data t && is_step_output t && (slen (json_text data) <=? sc_max_event_bytes c)%Z &&
  bool_decide (0 < sc_max_events_per_run c).

Lemma output_ok_spec c t data :
  output_ok c t data = true ->
  names_call c data t = true /\ is_step_output t = true /\
  (slen (json_text data) <= sc_max_event_bytes c)%Z /\ 0 < sc_max_events_per_run c /\
  forall r, attaches t data (Some r) = true.
Proof.
  unfold output_ok. rewrite !andb_true_iff, bool_decide_eq_true, Z.leb_le. intros (((Hn & Ho) & Hs) & Hm).
  split_and!; try done. intros r. unfold names_call in Hn. bool_to_prop. unfold attaches.
  by replace (is_empty (call_of data)) with false.
Qed.

Lemma first_output_stored c t data res (s s' : State) run session parent name :
  gs_runs (cs_store s) !! sc_run_id c = Some run -> rr_run_id run = sc_run_id c ->
  gs_sessions (cs_store s) !! rr_session_id run = Some session ->
  find_call (call_of data) (sr_messages session) = Some (parent, name) ->
  Forall (fun m => sm_id m <> durable_message_id (sc_run_id c) "result" (call_of data)) (sr_messages session) ->
  has_event run (step_event_id c data t) = false -> output_ok c t data = true ->
  commit_step c t data (Some res) s = (s', Ok tt) -> result_kept c (call_of data) name res (cs_store s').
Proof.
  intros Hrun Hid Hses Hfind Hids Hev (Hn & Ho & Hsize & Hmax & Hatt)%output_ok_spec
    (_ & [[_ Hres]|(now & reserved & Hres & ->)])%commit_step_Ok.
  { unfold Commit.reserve_step in Hres. rewrite Hrun, Hev, andb_false_r in Hres. by repeat case_match. }
  destruct (reserve_step_attached c t data res s reserved run Hres (Hatt res) Hrun)
    as (p & tool & ordinal & at_ & Hlook & Hmsg).
  unfold lookup_tool_call_parent in Hlook. rewrite Hses in Hlook. cbn in Hlook.
  rewrite Hfind in Hlook. injection Hlook as <- <-.
  apply reserve_step_spec in Hres as (run' & Hrun' & _ & Hc & Hm). simplify_eq.
  match type of Hmsg with _ = Some ?m =>
    exists (apply_event_locked run (rc_event reserved) (rc_max_events_per_run reserved)),
      (push_message now m session), (sr_messages session), m, []
  end.
  rewrite (apply_step_run c run t data), (apply_reserved_sessions _ _ _ _ Hmsg) by done.
  rewrite apply_event_locked_id. cbn [sm_session_id result_message].
  assert (rr_session_id (apply_event_locked run (rc_event reserved) (rc_max_events_per_run reserved)) =
          rr_session_id run) as -> by (unfold apply_event_locked; by case_match).
  split_and!; [done|done| | |done..|by eauto].
  - rewrite lookup_alter, decide_True, Hses by done. reflexivity.
  - unfold push_message. destruct (existsb _ _) eqn:Ex; [exfalso|done].
    apply existsb_exists_iff in Ex as (m & Hin & Heq%str_eqb_true).
    rewrite Forall_forall in Hids. by apply (Hids m Hin).
Qed.

Lemma output_retained c t data res (s s' : State) run :
  gs_runs (cs_store s) !! sc_run_id c = Some run -> rr_run_id run = sc_run_id c ->
  has_event run (step_event_id c data t) = false \/ retains (sc_run_id c) (call_of data) (cs_store s) ->
  output_ok c t data = true -> commit_step c t data (Some res) s = (s', Ok tt) ->
  retains (sc_run_id c) (call_of data) (cs_store s').
Proof.
  intros Hrun Hid Hev (Hn & Ho & Hsize & Hmax & _)%output_ok_spec (_ & [[-> Hres]|(now & reserved & Hres & ->)])%commit_step_Ok.
  { destruct Hev as [Hev|]; [|done]. unfold Commit.reserve_step in Hres. rewrite Hrun, Hev, andb_false_r in Hres. by repeat case_match. }
  apply reserve_step_spec in Hres as (run' & Hrun' & _ & Hc & Hm). simplify_eq.
  eexists. rewrite (apply_step_run c run t data) by done. split; [done|]. by apply (step_output_applied c run t); try lia.
Qed.

(** *** Later commits *)

(** The commit is of the same run, or of another call. *)
Definition spares (c : ServiceEventCommitter) (call : string) (op : CommitOp) : bool :=
  match op with
  | OStep c' _ data _ => bool_decide (sc_run_id c' = sc_run_id c) || negb (str_eqb (call_of data) call)
  | OPair _ _ _ => true
  end.

(** Runs keep their name and session; a session only gets further messages, at
    most one, not of the call or with the identifier of its result. *)
Definition store_grows (c : ServiceEventCommitter) (call : string) (store store' : GatewayStore) : Prop :=
  (forall run, gs_runs store !! sc_run_id c = Some run -> exists run', gs_runs store' !! sc_run_id c = Some run' /\
     rr_run_id run' = rr_run_id run /\ rr_session_id run' = rr_session_id run) /\
  forall id session, gs_sessions store !! id = Some session -> exists session', gs_sessions store' !! id = Some session' /\
    (sr_messages session' = sr_messages session \/
     exists m, sr_messages session' = sr_messages session ++ [m] /\
       Forall (fun x => sm_id x <> sm_id m) (sr_messages session) /\
       (sm_tool_call_id m <> Some call \/ sm_id m = durable_message_id (sc_run_id c) "result" call)).

Lemma result_kept_grows c call name t store store' :
  store_grows c call store store' -> result_kept c call name t store -> result_kept c call name t store'.
Proof.
  intros [Hr Hs] (run & session & ms & m & later & Hrun & Hid & Hses & Hms & Hlater & Hmid & Hcid & Hname & Hcont & Hpar).
  destruct (Hr run Hrun) as (run' & Hrun' & E1 & E2). destruct (Hs _ _ Hses) as (session' & Hses' & Hm).
  rewrite <- E2 in Hses'. rewrite <- E1 in Hid.
  destruct Hm as [Hm|(x & Hm & Hnew & Hx)].
  - exists run', session', ms, m, later. by rewrite Hm.
  - exists run', session', ms, m, (later ++ [x]). rewrite Hm, Hms, <- app_assoc. split_and!; try done.
    apply Forall_app. split; [done|]. apply Forall_singleton. destruct Hx as [|Hx]; [done|].
    rewrite Hms in Hnew. apply Forall_app in Hnew as [_ [Hne _]%Forall_cons]. congruence.
Qed.

Lemma event_locked_session run e max : rr_session_id (apply_event_locked run e max) = rr_session_id run.
Proof. unfold apply_event_locked. by case_match. Qed.

Lemma alter_run_same (f : RunRecord -> RunRecord) id (runs : gmap string RunRecord) k run :
  (forall r, rr_run_id (f r) = rr_run_id r /\ rr_session_id (f r) = rr_session_id r) -> runs !! k = Some run ->
  exists run', alter f id runs !! k = Some run' /\ rr_run_id run' = rr_run_id run /\ rr_session_id run' = rr_session_id run.
Proof.
  intros Hf Hk. destruct (decide (id = k)) as [->|Hne].
  - rewrite lookup_alter, decide_True, Hk by done. by eexists.
  - rewrite lookup_alter_ne by done. eauto.
Qed.

Lemma reserved_grows c call now store reserved :
  match rc_message reserved with
  | Some m => sm_tool_call_id m <> Some call \/ sm_id m = durable_message_id (sc_run_id c) "result" call
  | None => True
  end -> store_grows c call store (apply_reserved now store reserved).
Proof.
  intros Hm. split.
  - intros run Hrun. rewrite apply_reserved_runs. apply alter_run_same; [|done].
    intros r. by rewrite apply_event_locked_id, event_locked_session.
  - intros id session Hses. unfold apply_reserved, push_message_opt. destruct (rc_message reserved) as [m|]; cbn; [|eauto].
    destruct (decide (sm_session_id m = id)) as [<-|Hne].
    + rewrite lookup_alter, decide_True, Hses by done. eexists. split; [reflexivity|]. unfold push_message.
      destruct (existsb _ _) eqn:Ex; [by left|right]. exists m. split_and!; [done| |done].
      apply Forall_forall. intros x Hx E. rewrite existsb_false_iff in Ex. specialize (Ex x Hx). by rewrite E, str_eqb_refl in Ex.
    + rewrite lookup_alter_ne by done. eauto.
Qed.

Lemma store_grows_refl c call store : store_grows c call store store.
Proof. split; eauto. Qed.

Lemma run_op_grows c call op (s : State) : spares c call op = true ->
  store_grows c call (cs_store s) (cs_store (fst (run_op op s))).
Proof.
  intros Hsp. destruct op as [c' t data res|c' x y]; cbn in Hsp |- *.
  - destruct (commit_step c' t data res s) as [s' [[]|e]] eqn:Hc; cbn.
    + apply commit_step_Ok in Hc as (_ & [[-> _]|(now & reserved & Hres & ->)]); [apply store_grows_refl|].
      apply reserved_grows. unfold Commit.reserve_step in Hres.
      repeat case_match; simplify_eq; try done. cbn in *. simplify_eq. cbn.
      destruct (decide (call_of data = call)) as [Hcall|Hne]; [right|left; congruence].
      rewrite Hcall, str_eqb_refl, orb_false_r in Hsp. apply bool_decide_eq_true in Hsp. by rewrite Hsp, Hcall.
    + apply commit_step_Err in Hc as ->. apply store_grows_refl.
  - unfold Commit.commit_pair. destruct (sc_terminal c'); [apply store_grows_refl|].
    destruct (pair_action c' x y s) as [[|reserved|reserved]|e] eqn:Hact; cbn; try apply store_grows_refl.
    + destruct (persist_and_apply _ _ _ _) as [s1 [u|e]] eqn:Hpa; apply persist_and_apply_spec in Hpa; cbn.
      * destruct Hpa as [-> _]. apply reserved_grows. unfold Commit.pair_action in Hact. by repeat case_match; simplify_eq.
      * destruct Hpa as (_ & -> & _). apply store_grows_refl.
    + destruct (persist_and_apply_pair _ _ _) as [s1 [u|e]] eqn:Hpa; apply persist_and_apply_pair_spec in Hpa; cbn.
      * destruct Hpa as [-> _]. split; [|cbn; eauto]. intros run Hrun. cbn. apply alter_run_same; [|done].
        intros r. by rewrite !apply_event_locked_id, !event_locked_session.
      * destruct Hpa as (_ & -> & _). apply store_grows_refl.
Qed.

Lemma run_ops_keep c call name t ops (s : State) : Forall (fun op => spares c call op = true) ops ->
  result_kept c call name t (cs_store s) -> result_kept c call name t (cs_store (run_ops ops s)).
Proof.
  intros Hops. revert s. induction Hops as [|op ops Hop _ IH]; intros s Hk; [done|]. unfold run_ops. cbn [fold_left].
  apply IH. by eapply result_kept_grows; [apply run_op_grows|].
Qed.

Abbreviation committer c := (service_committer event_append step_commit event_append_pair uuids times c).

Lemma result_data_call call t : jget "tool_call_id" (result_data call t) = Some (JString call).
Proof.
  unfold result_data. destruct (tr_error t), (tr_artifacts t); cbn [jset jget jobj];
    repeat (rewrite obj_get_insert; cbn [str_eqb]); reflexivity.
Qed.

(** C12. When the service has committed the result of a call of the session that
    had none, and the result fits the bounds of stored content and its output
    event those of an event, then after any further
    commits of the run, and of other runs except for a call with the same
    identifier, a replay returns that result instead of running the tool again, as long
    as the bounded log still holds an output event of the call, as it does right
    after the commit.  A success comes back with its content, data, truncation flag
    and first artifact, a failure with its code and message only. *)
Theorem committed_result_is_replayed c call name parent r t r' ops (s s' : State) run session :
  canonical_tool_result r = Ok t -> result_small t = true ->
  gs_runs (cs_store s) !! sc_run_id c = Some run -> rr_run_id run = sc_run_id c ->
  gs_sessions (cs_store s) !! rr_session_id run = Some session ->
  find_call call (sr_messages session) = Some (parent, name) ->
  Forall (fun m => sm_id m <> durable_message_id (sc_run_id c) "result" call) (sr_messages session) ->
  has_event run (durable_tool_event_id (sc_run_id c) call "tool.output") = false ->
  output_ok c "tool.output" (result_data call t) = true -> sc_service c = true ->
  @commit_result State (@service_durable_lifecycle _ (committer c)) call r s = (s', Ok r') ->
  Forall (fun op => spares c call op = true) ops ->
  retains (sc_run_id c) call (cs_store s') /\
  (retains (sc_run_id c) call (cs_store (run_ops ops s')) ->
   @replay_result State (@service_durable_lifecycle _ (committer c)) (sc_run_id c) call name (run_ops ops s') =
   Ok (Some (tool_result_to_value (replayed_form t)))).
Proof.
  intros Hcan Hsmall Hrun Hid Hses Hfind Hids Hev Hout Hsvc Hcommit Hops.
  assert (call_of (result_data call t) = call) as Hcall by (unfold call_of; by rewrite result_data_call).
  assert (retains (sc_run_id c) call (cs_store s') /\ result_kept c call name t (cs_store s')) as [Hret Hkept].
  { cbn in Hcommit. unfold service_commit_result in Hcommit. rewrite Hcan in Hcommit. cbn in Hcommit.
    destruct (commit_step c "tool.output" _ _ s) as [s1 [[]|e]] eqn:Hc1; [|done].
    destruct (commit_step c _ _ _ s1) as [s2 [[]|e]] eqn:Hc2; [|done]. injection Hcommit as <- _.
    assert (step_event_id c (result_data call t) "tool.output" =
            durable_tool_event_id (sc_run_id c) call "tool.output") as Hsid.
    { pose proof Hout as [Hn _]%output_ok_spec. apply step_event_id_named in Hn as [-> _]. by rewrite Hcall. }
    assert (result_kept c call name t (cs_store s1)) as Hk1.
    { rewrite <- Hcall. eapply first_output_stored; [exact Hrun|done|exact Hses|..|exact Hc1]; rewrite ?Hcall, ?Hsid; done. }
    assert (retains (sc_run_id c) call (cs_store s1)) as Hr1.
    { rewrite <- Hcall. eapply output_retained; [exact Hrun|done|left; by rewrite Hsid|done|exact Hc1]. }
    pose proof Hk1 as (run1 & _ & _ & _ & _ & Hrun1 & Hid1 & _). split.
    - rewrite <- Hcall in Hr1 |- *. eapply output_retained; [exact Hrun1|done|by right| |exact Hc2].
      unfold output_ok, names_call in *. by destruct (tr_ok t).
    - eapply result_kept_grows; [|exact Hk1].
      pose proof (run_op_grows c call (OStep c (if tr_ok t then "tool.completed" else "tool.failed") (result_data call t) (Some t)) s1) as Hg.
      cbn in Hg. rewrite Hc2 in Hg. apply Hg. by rewrite bool_decide_eq_true_2. }
  split; [done|]. intros Hret'. cbn. unfold replay_step.
  rewrite Hsvc, (result_stored_replayed c call name t); [done|by apply run_ops_keep|done..].
Qed.

(** C36. Once run and call identifier fill the 128 bytes of a durable identifier,
    the result of a started call is lost: the commit answers [Ok] and the state
    is what it was, because every step of the call has the identifier of the
    request that is already in the log. *)
Theorem long_call_result_lost c call r t (s : State) run :
  canonical_tool_result r = Ok t -> sc_terminal c = false ->
  gs_runs (cs_store s) !! sc_run_id c = Some run -> run_is_terminal (rr_status run) = false ->
  str_valid (sc_run_id c) = true -> str_valid call = true -> call <> EmptyString ->
  (121 <= slen (sc_run_id c) + slen call)%Z ->
  has_event run (durable_tool_event_id (sc_run_id c) call "tool.requested") = true ->
  @commit_result State (@service_durable_lifecycle _ (committer c)) call r s = (s, Ok r).
Proof.
  intros Hcan Hterm Hrun Hact Hvr Hvc Hne Hlen Hev.
  assert (forall t', str_valid t' = true ->
    commit_step c t' (result_data call t) (Some t) s = (s, Ok tt)) as Hstep.
  { intros t' Ht'. unfold Commit.commit_step. rewrite Hterm, recorded_present; [done|..].
    - exists run. split_and!; [done..|]. apply has_event_spec. unfold step_event_id, call_of.
      rewrite result_data_call. cbn. destruct call; [done|]. cbn [is_empty].
      by rewrite (durable_tool_event_id_collides _ _ _ "tool.requested").
    - unfold step_event_id, call_of. rewrite result_data_call. cbn. destruct call; [done|].
      by apply durable_tool_event_id_nonempty. }
  cbn. unfold service_commit_result. rewrite Hcan. cbn. rewrite !Hstep by (by destruct (tr_ok t)). done.
Qed.

End Spec.

(** ** Witnesses *)

Module CommitExample.
#[local] Existing Instance CompactText.compact_text.
#[local] Existing Instance CompactText.compact_text_laws.
#[local] Existing Instance Content.derived_serde.
Import Delivery.DeliveryExample.

(** [f x = (fst (f x), v)], by evaluating the answer only. *)
Ltac by_pairs :=
  lazymatch goal with
  | |- ?x = (_, ?v) =>
      refine (eq_trans (surjective_pairing x) (f_equal (pair (fst x)) (_ : snd x = v)))
  end; vm_compute; reflexivity.

Definition request (call : string) : SessionMessage := {|
  sm_id := "m1"; sm_session_id := "s1"; sm_role := "assistant";
  sm_content := Content.encode_message_content [{|
    Content.block_type := "tool_call"; Content.text := None; Content.tool_call_id := Some call;
    Content.name := Some "fs.read"; Content.arguments_json := Some "{}"; Content.arguments := None;
    Content.content := None; Content.is_error := None; Content.result_ := None; Content.error := None;
    Content.artifact := None; Content.truncated := None |}];
  sm_created_at := 1; sm_run_id := Some "r1"; sm_finish_reason := None; sm_name := None;
  sm_tool_call_id := None; sm_parent_message_id := None; sm_token_estimate := None;
  sm_metadata := JNull; sm_ordinal := Some 1%Z |}.

Definition session0 (call : string) : SessionRecord := {|
  sr_view := {| sv_id := "s1"; sv_object := "session"; sv_title := None; sv_model := "m";
                sv_provider := None; sv_source := "api"; sv_system_prompt := None; sv_workspace := None;
                sv_created_at := 1; sv_updated_at := 1; sv_message_count := 1; sv_end_reason := None |};
  sr_messages := [request call] |}.

Definition start (call : string) : CommitState (D := list Json) := {|
  cs_store := {| gs_sessions := {["s1" := session0 call]}; gs_runs := {["r1" := run0 "running"]};
                 gs_jobs := ∅; gs_idempotency := ∅ |};
  cs_durable := []; cs_trace := []; cs_ids := 0; cs_ticks := 0; cs_attempts := 0; cs_failures := 0;
  cs_truncations := 0 |}.

Definition committer0 : ServiceEventCommitter := {|
  sc_run_id := "r1"; sc_persistence := true; sc_terminal := false; sc_stop := false; sc_service := true;
  sc_max_event_bytes := 1000; sc_max_events_per_run := 10 |}.

Definition data0 (call : string) : Json := jobj [("tool_call_id", JString call)].
Definition result0 : Json :=
  jobj [("ok", JBool true); ("content", JString "hello"); ("data", jobj [("n", jint 1)]);
        ("artifacts", JArray [JString "a1"])].

Definition ids (n : nat) : string := "e" +:+ pretty n.
Definition ticks (n : nat) : Z := Z.of_nat n.

Definition ops0 : list CommitOp :=
  [OPair committer0 ("tool.requested", data0 "c1") ("tool.started", data0 "c1");
   OStep committer0 "tool.output" (data0 "c1") (Some (tool_success "hello" (JObject [])))].

Definition step0 := commit_step accept accept accept ids ticks committer0 "tool.output" (data0 "c1")
  (Some (tool_success "hello" (JObject []))) (start "c1").

Lemma commits_durable_before_visible_witness :
  exists new, cs_trace (run_ops accept accept accept ids ticks ops0 (start "c1")) =
    cs_trace (start "c1") ++ new /\ durable_first new.
Proof. apply (commits_durable_before_visible accept accept accept ids ticks ops0). by repeat constructor. Defined.

Lemma commits_keep_logs_witness :
  logs_ok 10 (cs_store (run_ops accept accept accept ids ticks ops0 (start "c1"))).
Proof.
  apply (commits_keep_logs accept accept accept ids ticks 10 ops0); [lia| |].
  - repeat constructor.
  - apply map_Forall_singleton. split; [done|]. split; [|constructor].
    split_and!; [by intros ???|constructor|constructor|cbn; lia].
Defined.

Lemma commit_step_idempotent_witness :
  commit_step accept accept accept ids ticks committer0 "tool.output" (data0 "c1") None (fst step0) =
  (fst step0, Ok tt).
Proof.
  apply (commit_step_idempotent accept accept accept ids ticks committer0 "tool.output" (data0 "c1")
           (data0 "c1") (Some (tool_success "hello" (JObject []))) None (start "c1") (fst step0)
           (run0 "running")); [reflexivity|reflexivity|cbn; lia|reflexivity|reflexivity|].
  unfold step0. by_pairs.
Defined.

Definition refused := run_op refuse refuse refuse ids ticks
  (OStep committer0 "tool.output" (data0 "c1") None) (start "c1").

Lemma commit_error_keeps_memory_witness : cs_store (fst refused) = cs_store (start "c1").
Proof.
  apply (commit_error_keeps_memory refuse refuse refuse ids ticks
           (OStep committer0 "tool.output" (data0 "c1") None) (start "c1") (fst refused)
           (PersistFailed "disk full")); [reflexivity|].
  unfold refused. by_pairs.
Defined.

(** A call whose identifier fills the durable one, already requested. *)
Definition long_call : string :=
  "call_0123456789012345678901234567890123456789012345678901234567890123456789012345678901234567890123456789012345678901234567890".

Definition requested : CommitState (D := list Json) :=
  fst (commit_pair accept accept accept ids ticks committer0 ("tool.requested", data0 long_call)
         ("tool.started", data0 long_call) (start long_call)).

Definition requested_run : RunRecord := default (run0 "running") (gs_runs (cs_store requested) !! "r1").

Definition success0 : ToolResult :=
  set_artifacts ["a1"] (set_truncated false (tool_success "hello" (jobj [("n", jint 1)]))).

Definition lifecycle0 : DurableToolLifecycle (CommitState (D := list Json)) :=
  @service_durable_lifecycle _ (service_committer accept accept accept ids ticks committer0).

Definition committed := @commit_result _ lifecycle0 "c1" result0 (start "c1").

(** Another call of the run is then requested and started. *)
Definition later0 : list CommitOp := [OPair committer0 ("tool.requested", data0 "c2") ("tool.started", data0 "c2")].

Lemma committed_result_is_replayed_witness :
  @replay_result _ lifecycle0 "r1" "c1" "fs.read" (run_ops accept accept accept ids ticks later0 (fst committed)) =
  Ok (Some (tool_result_to_value (replayed_form success0))).
Proof.
  apply (committed_result_is_replayed accept accept accept ids ticks committer0 "c1" "fs.read" "m1" result0
           success0 result0 later0 (start "c1") (fst committed) (run0 "running") (session0 "c1"));
    [vm_compute; reflexivity..| |vm_compute; reflexivity|vm_compute; reflexivity|reflexivity| | |].
  - constructor; [|constructor]. vm_compute. discriminate.
  - unfold committed, lifecycle0. by_pairs.
  - by repeat constructor.
  - eexists. split; vm_compute; reflexivity.
Defined.

Lemma long_call_result_lost_witness :
  @commit_result _ lifecycle0 long_call result0 requested = (requested, Ok result0).
Proof.
  apply (long_call_result_lost accept accept accept ids ticks committer0 long_call result0 success0 requested
           requested_run); try (vm_compute; reflexivity); vm_compute; discriminate.
Defined.

End CommitExample.
