(* ===== verification/Terminal.v ===== *)
(** * Terminal transitions of a run ([src/service.rs], [src/runtime/rss_runner.rs])

    How a run ends: one durable commit of its terminal events and status, in
    memory and to subscribers only after storage accepted it; bounded attempts;
    a terminal that could not be stored is parked and retried until a deadline.
    With it the run's handle: stop, halt, subscriber accounting, release of the
    run's resources, and the janitor that forgets old handles.

    Storage commands are parameters.  Each critical section runs under the
    commit gate; what other threads do while a task sleeps between attempts is
    the parameter [env].  Calls into the run's capability host are recorded in
    the trace. *)

From stdpp Require Import pretty.
From S2P Require Import Prelude Utf8 Json Domain Store Events Delivery Capability Lifecycle Commit.

(** ** Cancellation ([RunCancellation]) *)

(** The reasons the gateway requests. *)
Inductive CancellationReason := Requested | DeadlineReason | ResourceClosed.

Record RunCancellation := {
  cn_requested : option CancellationReason;
  cn_deadline : option Z;
  cn_token : bool;
  cn_deadline_overflow : bool
}.

Definition MAX_RUN_TIMEOUT : Z := 24 * 60 * 60 * 1000.

Definition cancellation_new : RunCancellation := {|
  cn_requested := None; cn_deadline := None; cn_token := false; cn_deadline_overflow := false |}.

Definition with_deadline (deadline : Z) : RunCancellation := {|
  cn_requested := None; cn_deadline := Some deadline; cn_token := false; cn_deadline_overflow := false |}.

(** Durations and instants in milliseconds; [instant_max] is the last instant
    the platform represents. *)
Definition with_timeout (instant_max now timeout : Z) : RunCancellation :=
  let overflow := {| cn_requested := None; cn_deadline := None; cn_token := false;
                     cn_deadline_overflow := true |} in
  if (MAX_RUN_TIMEOUT <? timeout)%Z then overflow
  else if (now + timeout <=? instant_max)%Z then with_deadline (now + timeout) else overflow.

Definition request (reason : CancellationReason) (c : RunCancellation) : RunCancellation := {|
  cn_requested := match cn_requested c with Some r => Some r | None => Some reason end;
  cn_deadline := cn_deadline c; cn_token := true; cn_deadline_overflow := cn_deadline_overflow c |}.

Definition from_wall_deadline_ms (instant_max now deadline_at_ms now_ms : Z) : RunCancellation :=
  if (deadline_at_ms <=? now_ms)%Z then request DeadlineReason cancellation_new
  else with_timeout instant_max now (deadline_at_ms - now_ms).

Definition deadline_passed (now : Z) (c : RunCancellation) : bool :=
  match cn_deadline c with Some deadline => (deadline <=? now)%Z | None => false end.

Definition remaining_deadline (now : Z) (c : RunCancellation) : option Z :=
  (fun deadline => Z.max 0 (deadline - now)) <$> cn_deadline c.

(** ** Handles *)

Inductive ClientDisconnectPolicy := KeepRunning | CancelOnDisconnect.

(** [Ready] and a closed host record whether there are processes. *)
Inductive CapabilityHostPhase :=
| HostEmpty
| HostInitializing
| HostReady (processes : bool)
| HostClosed (processes : option bool).

Record RunHandle := {
  h_cancel : RunCancellation;
  h_terminal_at : option Z;
  h_permit : bool;
  h_terminal : bool;
  h_cancel_reason : option string;
  h_count : Z;
  h_notified : bool;
  h_policy : ClientDisconnectPolicy;
  h_tool_cancel : bool;
  h_host : CapabilityHostPhase;
  h_authority : bool
}.

Definition handle_is_terminal (h : RunHandle) : bool :=
  match h_terminal_at h with Some _ => true | None => false end.

Definition handle_cancel_reason (h : RunHandle) (fallback : string) : string :=
  default fallback (h_cancel_reason h).

(** [*cancel_reason = Some(name); cancel.request(reason)]. *)
Definition request_as (name : string) (reason : CancellationReason) (h : RunHandle) : RunHandle := {|
  h_cancel := request reason (h_cancel h); h_terminal_at := h_terminal_at h; h_permit := h_permit h;
  h_terminal := h_terminal h; h_cancel_reason := Some name; h_count := h_count h;
  h_notified := h_notified h; h_policy := h_policy h; h_tool_cancel := h_tool_cancel h;
  h_host := h_host h; h_authority := h_authority h |}.

Definition set_subscribers (count : Z) (notified : bool) (h : RunHandle) : RunHandle := {|
  h_cancel := h_cancel h; h_terminal_at := h_terminal_at h; h_permit := h_permit h;
  h_terminal := h_terminal h; h_cancel_reason := h_cancel_reason h; h_count := count;
  h_notified := notified; h_policy := h_policy h; h_tool_cancel := h_tool_cancel h;
  h_host := h_host h; h_authority := h_authority h |}.

(** [terminal], [terminal_at], and the permit given back. *)
Definition set_terminal (now : Z) (h : RunHandle) : RunHandle := {|
  h_cancel := h_cancel h; h_terminal_at := Some now; h_permit := false; h_terminal := true;
  h_cancel_reason := h_cancel_reason h; h_count := h_count h; h_notified := h_notified h;
  h_policy := h_policy h; h_tool_cancel := h_tool_cancel h; h_host := h_host h;
  h_authority := h_authority h |}.

Definition set_host (host : CapabilityHostPhase) (h : RunHandle) : RunHandle := {|
  h_cancel := h_cancel h; h_terminal_at := h_terminal_at h; h_permit := h_permit h;
  h_terminal := h_terminal h; h_cancel_reason := h_cancel_reason h; h_count := h_count h;
  h_notified := h_notified h; h_policy := h_policy h; h_tool_cancel := true; h_host := host;
  h_authority := h_authority h |}.

(** Calls into a run's host. *)
Inductive HostCall := CancelProcesses | RecoverTokens | RevokeAuthority | ShutdownHost.

Definition cancel_run_tools (h : RunHandle) : RunHandle * list HostCall :=
  (set_host (h_host h) h,
   match h_host h with
   | HostReady processes => (if processes then [CancelProcesses] else []) ++ [RecoverTokens]
   | _ => []
   end).

Definition release_capability_host (h : RunHandle) : RunHandle * list HostCall :=
  let revoke := if h_authority h then [RevokeAuthority] else [] in
  match h_host h with
  | HostReady processes => (set_host (HostClosed (Some processes)) h, revoke ++ [ShutdownHost])
  | HostClosed existing => (set_host (HostClosed existing) h, revoke)
  | HostEmpty | HostInitializing => (set_host (HostClosed None) h, revoke)
  end.

Definition request_user_stop (h : RunHandle) : RunHandle * list HostCall :=
  cancel_run_tools (request_as "requested" Requested h).

(** ** State *)

Record PendingTerminal := {
  pt_to_status : string;
  pt_session_id : option string;
  pt_events : list GatewayEvent;
  pt_assistant_message : option SessionMessage;
  pt_deadline : Z
}.

Inductive TerminalStatus := Completed | CancelledStatus | Failed.

#[export] Instance terminal_status_eq_dec : EqDecision TerminalStatus.
Proof. solve_decision. Defined.

Inductive TerminalRetryOutcome := RetryCommitted | RetryConflict | RetryExpired | RetryRetryFailed | RetryGone.

#[export] Instance terminal_retry_eq_dec : EqDecision TerminalRetryOutcome.
Proof. solve_decision. Defined.

(** What is counted, in the order it happens: the counters are the number of
    entries, the gauges increments minus decrements. *)
Inductive Count :=
| MRunsTerminal (status : TerminalStatus)
| MPersistBackoff
| MRunDuration
| MActiveRunsDec
| MPendingInc
| MPendingDec
| MTerminalRetry (outcome : TerminalRetryOutcome).

#[export] Instance count_eq_dec : EqDecision Count.
Proof. solve_decision. Defined.

Inductive TerminalEffect :=
| TStored (payload : Json) (ok : bool)
| TPublished (e : GatewayEvent)
| THost (run_id : string) (call : HostCall)
| TApprovalExpire (payload : Json)
| TSpawnRetry (run_id : string).

Record TerminalConfig := {
  tc_persistence : bool;
  tc_max_event_bytes : Z;
  tc_max_events_per_run : nat;
  tc_terminal_persist_retries : nat;
  tc_terminal_commit_retry_window : Z;
  tc_terminal_run_ttl : Z
}.

Record TerminalCommitError := { tce_code : string; tce_message : string }.

Definition terminal_commit_error_text (e : TerminalCommitError) : string :=
  tce_code e +:+ ": " +:+ tce_message e.

Inductive TerminalOutcome :=
| Committed
| NotActive
| SessionMissing
| TerminalPersistFailed (error : string) (pending : PendingTerminal).

Inductive PendingRetryOutcome := PCommitted | PGone | PConflict | PExpired | PRetryFailed.

Definition failed_payload_with_code (code error : string) : Json :=
  jobj [("status", JString "failed"); ("error_code", JString code); ("error_message", JString error)].

Definition failed_payload (error : string) : Json := failed_payload_with_code "agent_failed" error.

Definition set_status (status : string) (run : RunRecord) : RunRecord := {|
  rr_run_id := rr_run_id run; rr_session_id := rr_session_id run;
  rr_parent_run_id := rr_parent_run_id run; rr_status := status; rr_events := rr_events run;
  rr_sender := rr_sender run; rr_cancel_requested := rr_cancel_requested run |}.

Definition close_run_stream (run : RunRecord) : RunRecord := {|
  rr_run_id := rr_run_id run; rr_session_id := rr_session_id run;
  rr_parent_run_id := rr_parent_run_id run; rr_status := rr_status run; rr_events := rr_events run;
  rr_sender := false; rr_cancel_requested := rr_cancel_requested run |}.

Definition set_timestamp (now : Z) (e : GatewayEvent) : GatewayEvent := {|
  ge_event_id := ge_event_id e; ge_seq := ge_seq e; ge_event := ge_event e; ge_run_id := ge_run_id e;
  ge_timestamp := now; ge_data := ge_data e |}.

(** The sequence number storage gave the event. *)
Definition with_seq (seqs : list (string * Z)) (e : GatewayEvent) : GatewayEvent :=
  match List.find (fun p => str_eqb (fst p) (ge_event_id e)) seqs with
  | Some (_, seq) => set_seq seq e
  | None => e
  end.

Definition is_null_or_empty (v : Json) : bool :=
  match v with JNull => true | JObject [] => true | _ => false end.

(** The derived [Serialize] of a message. *)
Definition message_to_value (m : SessionMessage) : Json :=
  let v := jobj [("id", JString (sm_id m)); ("session_id", JString (sm_session_id m));
                 ("role", JString (sm_role m)); ("content", sm_content m);
                 ("created_at", JNumber (PosInt (sm_created_at m)))] in
  let opt {A} (k : string) (f : A -> Json) (o : option A) (v : Json) :=
    match o with Some a => jset k (f a) v | None => v end in
  let v := opt "run_id" JString (sm_run_id m) v in
  let v := opt "finish_reason" JString (sm_finish_reason m) v in
  let v := opt "name" JString (sm_name m) v in
  let v := opt "tool_call_id" JString (sm_tool_call_id m) v in
  let v := opt "parent_message_id" JString (sm_parent_message_id m) v in
  let v := opt "token_estimate" jint (sm_token_estimate m) v in
  let v := if is_null_or_empty (sm_metadata m) then v else jset "metadata" (sm_metadata m) v in
  opt "ordinal" jint (sm_ordinal m) v.

Section Terminal.
Context `{JsonText, Content.BlockSerde}.

(** [GatewayPersistence::run_terminal] and [approval_expire]. *)
Context {D : Type} (run_terminal approval_expire : Json -> D -> D * result Json StorageError).

(** Identifiers, the wall clock and the monotonic clock. *)
Context (uuids : nat -> string) (times instants : nat -> Z).
Context (config : TerminalConfig).

Record TState := {
  ts_store : GatewayStore;
  ts_durable : D;
  ts_handles : gmap string RunHandle;
  ts_pending : gmap string PendingTerminal;
  ts_previews : gset (string * string);
  ts_contexts : gset string * gset string;  (** [contexts], [context_registries] *)
  ts_trace : list TerminalEffect;
  ts_counts : list Count;
  ts_halting : bool;
  ts_ids : nat;
  ts_ticks : nat
}.

Definition t_store (store : GatewayStore) (s : TState) : TState := {|
  ts_store := store; ts_durable := ts_durable s; ts_handles := ts_handles s; ts_pending := ts_pending s;
  ts_previews := ts_previews s; ts_contexts := ts_contexts s; ts_trace := ts_trace s;
  ts_counts := ts_counts s; ts_halting := ts_halting s; ts_ids := ts_ids s; ts_ticks := ts_ticks s |}.

Definition t_durable (d : D) (s : TState) : TState := {|
  ts_store := ts_store s; ts_durable := d; ts_handles := ts_handles s; ts_pending := ts_pending s;
  ts_previews := ts_previews s; ts_contexts := ts_contexts s; ts_trace := ts_trace s;
  ts_counts := ts_counts s; ts_halting := ts_halting s; ts_ids := ts_ids s; ts_ticks := ts_ticks s |}.

Definition t_handles (handles : gmap string RunHandle) (s : TState) : TState := {|
  ts_store := ts_store s; ts_durable := ts_durable s; ts_handles := handles; ts_pending := ts_pending s;
  ts_previews := ts_previews s; ts_contexts := ts_contexts s; ts_trace := ts_trace s;
  ts_counts := ts_counts s; ts_halting := ts_halting s; ts_ids := ts_ids s; ts_ticks := ts_ticks s |}.

Definition t_pending (pending : gmap string PendingTerminal) (s : TState) : TState := {|
  ts_store := ts_store s; ts_durable := ts_durable s; ts_handles := ts_handles s; ts_pending := pending;
  ts_previews := ts_previews s; ts_contexts := ts_contexts s; ts_trace := ts_trace s;
  ts_counts := ts_counts s; ts_halting := ts_halting s; ts_ids := ts_ids s; ts_ticks := ts_ticks s |}.

Definition t_trace (new : list TerminalEffect) (s : TState) : TState := {|
  ts_store := ts_store s; ts_durable := ts_durable s; ts_handles := ts_handles s;
  ts_pending := ts_pending s; ts_previews := ts_previews s; ts_contexts := ts_contexts s;
  ts_trace := ts_trace s ++ new; ts_counts := ts_counts s; ts_halting := ts_halting s;
  ts_ids := ts_ids s; ts_ticks := ts_ticks s |}.

Definition t_count (new : list Count) (s : TState) : TState := {|
  ts_store := ts_store s; ts_durable := ts_durable s; ts_handles := ts_handles s;
  ts_pending := ts_pending s; ts_previews := ts_previews s; ts_contexts := ts_contexts s;
  ts_trace := ts_trace s; ts_counts := ts_counts s ++ new; ts_halting := ts_halting s;
  ts_ids := ts_ids s; ts_ticks := ts_ticks s |}.

Definition t_spend (ids ticks : nat) (s : TState) : TState := {|
  ts_store := ts_store s; ts_durable := ts_durable s; ts_handles := ts_handles s;
  ts_pending := ts_pending s; ts_previews := ts_previews s; ts_contexts := ts_contexts s;
  ts_trace := ts_trace s; ts_counts := ts_counts s; ts_halting := ts_halting s;
  ts_ids := ts_ids s + ids; ts_ticks := ts_ticks s + ticks |}.

Definition t_forget (previews : gset (string * string)) (contexts : gset string * gset string) (halting : bool)
    (s : TState) : TState := {|
  ts_store := ts_store s; ts_durable := ts_durable s; ts_handles := ts_handles s;
  ts_pending := ts_pending s; ts_previews := previews; ts_contexts := contexts;
  ts_trace := ts_trace s; ts_counts := ts_counts s; ts_halting := halting;
  ts_ids := ts_ids s; ts_ticks := ts_ticks s |}.

Definition alter_run (f : RunRecord -> RunRecord) (run_id : string) (s : TState) : TState :=
  t_store (with_runs (alter f run_id (gs_runs (ts_store s))) (ts_store s)) s.

Definition host_calls (run_id : string) (calls : list HostCall) : TState -> TState :=
  t_trace (map (THost run_id) calls).

(** ** The durable commit *)

Definition nth_event (events : list GatewayEvent) (i : nat) (f : GatewayEvent -> string) (otherwise : string) :
    string :=
  match events !! i with Some e => f e | None => otherwise end.

Definition of_message (message : option SessionMessage) (f : SessionMessage -> option string) : string :=
  default EmptyString (message ≫= f).

Definition terminal_payload (run_id session_id to_status : string) (events : list GatewayEvent)
    (message : option SessionMessage) (now : Z) : Json :=
  jobj [("run_id", JString run_id); ("to_status", JString to_status);
        ("error_code", JString EmptyString); ("error_message", JString EmptyString);
        ("event_1_id", JString (nth_event events 0 ge_event_id EmptyString));
        ("event_1_type", JString (nth_event events 0 ge_event EmptyString));
        ("event_1_payload", JString (nth_event events 0 (fun e => json_text (ge_data e)) "{}"));
        ("event_2_id", JString (nth_event events 1 ge_event_id EmptyString));
        ("event_2_type", JString (nth_event events 1 ge_event EmptyString));
        ("event_2_payload", JString (nth_event events 1 (fun e => json_text (ge_data e)) "{}"));
        ("event_count", JNumber (PosInt (Z.of_nat (length events))));
        ("message_id", JString (of_message message (fun m => Some (sm_id m))));
        ("message_session_id", JString (of_message message (fun _ => Some session_id)));
        ("message_role", JString (of_message message (fun m => Some (sm_role m))));
        ("message_content_json", JString (of_message message (fun m => Some (json_text (sm_content m)))));
        ("message_run_id", JString (of_message message sm_run_id));
        ("message_finish_reason", JString (of_message message sm_finish_reason));
        ("message_ordinal", jint (default 0%Z (message ≫= sm_ordinal)));
        ("now_ms", JNumber (PosInt match events with e :: _ => ge_timestamp e | [] => now end))].

Definition invalid_commit (message : string) : TerminalCommitError :=
  {| tce_code := "terminal_commit_invalid"; tce_message := message |}.

(** The sequence numbers of the last [event_count] rows. *)
Fixpoint read_seqs (events : list GatewayEvent) (rows : list row) :
    result (list (string * Z)) TerminalCommitError :=
  match events with
  | [] => Ok []
  | e :: events' =>
      match rows with
      | [] => Err (invalid_commit "run.terminal returned a malformed event row")
      | row :: rows' =>
          let? seq := ok_or (head row ≫= as_u64)
                        (invalid_commit "run.terminal returned a malformed event sequence") in
          let? rest := read_seqs events' rows' in
          Ok ((ge_event_id e, seq) :: rest)
      end
  end.

Definition read_commit (events : list GatewayEvent) (data : Json) :
    result (list (string * Z)) TerminalCommitError :=
  let event_count := length events in
  let? rows := map_err invalid_commit (sqlite_storage_rows (default JNull (jget "events" data))) in
  if bool_decide (length rows < event_count) then
    Err (invalid_commit ("run.terminal appended " +:+ pretty (length rows) +:+
                         " events, expected at least " +:+ pretty event_count))
  else read_seqs events (drop (length rows - event_count) rows).

Definition terminal_commit (run_id session_id to_status : string) (events : list GatewayEvent)
    (message : option SessionMessage) (s : TState) :
    TState * result (list (string * Z)) TerminalCommitError :=
  if tc_persistence config then
    let payload := terminal_payload run_id session_id to_status events message (times (ts_ticks s)) in
    let '(d, r) := run_terminal payload (ts_durable s) in
    (t_trace [TStored payload (is_ok r)] (t_durable d s),
     match r with
     | Err e => Err {| tce_code := se_code e; tce_message := se_message e |}
     | Ok data => read_commit events data
     end)
  else (s, Ok (map (fun e => (ge_event_id e, ge_seq e)) events)).

Definition apply_terminal (now : Z) (run_id to_status : string) (events : list GatewayEvent)
    (seqs : list (string * Z)) (message : option SessionMessage) (store : GatewayStore) : GatewayStore :=
  let apply_events (run : RunRecord) :=
    set_status to_status
      (fold_left (fun run e => apply_event_locked run (with_seq seqs e) (tc_max_events_per_run config))
         events run) in
  push_message_opt now message (with_runs (alter apply_events run_id (gs_runs store)) store).

Definition send_all (run_id : string) (events : list GatewayEvent) (s : TState) : TState :=
  match gs_runs (ts_store s) !! run_id with
  | Some run => if rr_sender run then t_trace (map TPublished events) s else s
  | None => s
  end.

(** The tail the three attempts share: commit, apply, broadcast; or the
    prebuilt terminal to park. *)
Definition commit_reserved (run_id session_id to_status : string) (pending_session : option string)
    (events : list GatewayEvent) (message : option SessionMessage) (s : TState) : TState * TerminalOutcome :=
  match terminal_commit run_id session_id to_status events message s with
  | (s, Ok seqs) =>
      let now := times (S (ts_ticks s)) in
      let s := t_store (apply_terminal now run_id to_status events seqs message (ts_store s)) s in
      (t_spend 0 4 (send_all run_id events s), Committed)
  | (s, Err error) =>
      (t_spend 0 4 s, TerminalPersistFailed (terminal_commit_error_text error) {|
            pt_to_status := to_status; pt_session_id := pending_session; pt_events := events;
            pt_assistant_message := message;
            pt_deadline := instants (ts_ticks s) + tc_terminal_commit_retry_window config |})
  end.

(** ** Completed *)

Definition no_usage : Json := jobj [("input_tokens", jint 0); ("output_tokens", jint 0); ("total_tokens", jint 0)].

Definition assistant_message (id : string) (now : Z) (run_id session_id output_text : string) (ordinal : Z) :
    SessionMessage := {|
  sm_id := id; sm_session_id := session_id; sm_role := "assistant";
  sm_content := Content.decode_message_content (JString output_text); sm_created_at := now;
  sm_run_id := Some run_id; sm_finish_reason := Some "stop"; sm_name := None; sm_tool_call_id := None;
  sm_parent_message_id := None; sm_token_estimate := None; sm_metadata := JNull; sm_ordinal := Some ordinal |}.

Definition completed_delta (run_id session_id output_text : string) (run : RunRecord)
    (session : SessionRecord) (s : TState) : option SessionMessage * list GatewayEvent :=
  let terminal_timestamp := times (ts_ticks s) in
  let candidate (uuid : string) (event_type : string) (data : Json) :=
    set_timestamp terminal_timestamp
      (event_candidate uuid terminal_timestamp run event_type data (tc_max_event_bytes config)) in
  let completed (uuid : string) (output : Json) :=
    candidate uuid "run.completed"
      (jobj [("status", JString "completed"); ("output", output); ("usage", no_usage)]) in
  if existsb (fun e => str_eqb (ge_event e) "model.completed") (rr_events run) then
    (None, [completed (uuids (ts_ids s)) (jobj [("text", JString output_text)])])
  else
    let message := assistant_message (uuids (ts_ids s)) (times (S (ts_ticks s))) run_id session_id output_text
                     (next_message_ordinal session) in
    let delta := candidate (uuids (S (ts_ids s))) "message.delta"
      (jobj [("message_id", JString (sm_id message)); ("delta", JString output_text);
             ("role", JString "assistant")]) in
    let last := completed (uuids (S (S (ts_ids s)))) (jobj [("message", message_to_value message)]) in
    (Some message, [delta; set_seq (wrap64 (ge_seq delta + 1)) last]).

Definition commit_completed_once (run_id session_id output_text : string) (s : TState) :
    TState * TerminalOutcome :=
  match gs_runs (ts_store s) !! run_id with
  | None => (s, NotActive)
  | Some run =>
      if negb (str_eqb (rr_status run) "started") then (s, NotActive)
      else
        match gs_sessions (ts_store s) !! session_id with
        | None => (s, SessionMissing)
        | Some session =>
            let '(message, events) := completed_delta run_id session_id output_text run session s in
            commit_reserved run_id session_id "completed" (Some session_id) events message (t_spend 3 4 s)
        end
  end.

(** ** Cancelled and failed *)

Definition commit_ended_once (run_id to_status event_type : string) (data : Json) (s : TState) :
    TState * TerminalOutcome :=
  match gs_runs (ts_store s) !! run_id with
  | None => (s, NotActive)
  | Some run =>
      if run_is_terminal (rr_status run) then (s, NotActive)
      else
        let event := event_candidate (uuids (ts_ids s)) (times (ts_ticks s)) run event_type data
                       (tc_max_event_bytes config) in
        commit_reserved run_id EmptyString to_status None [event] None (t_spend 1 4 s)
  end.

Definition commit_cancelled_once (run_id reason : string) : TState -> TState * TerminalOutcome :=
  commit_ended_once run_id "cancelled" "run.cancelled"
    (jobj [("status", JString "cancelled"); ("reason", JString reason)]).

Definition commit_failed_once (run_id : string) (data : Json) : TState -> TState * TerminalOutcome :=
  commit_ended_once run_id "failed" "run.failed" data.

(** ** Marking a run terminal *)

Definition clear_run_approval_previews (run_id : string) (s : TState) : TState :=
  t_forget (filter (fun p => p.1 <> run_id) (ts_previews s)) (ts_contexts s) (ts_halting s) s.

Definition expire_payload (run_id : string) (now : Z) : Json :=
  jobj [("now_ms", jint (if (now <=? i64_max)%Z then now else i64_max)); ("run_id", JString run_id);
        ("force", jint 1)].

Definition mark_terminal (run_id : string) (s : TState) : TState :=
  match ts_handles s !! run_id with
  | None => s
  | Some h =>
      let s := if handle_is_terminal h then s else t_count [MRunDuration; MActiveRunsDec] s in
      let '(h, calls) := release_capability_host (set_terminal (instants (ts_ticks s)) h) in
      let s := host_calls run_id calls (t_handles (<[run_id := h]> (ts_handles s)) s) in
      let s := clear_run_approval_previews run_id s in
      t_spend 0 2
        (if tc_persistence config then
           let payload := expire_payload run_id (times (S (ts_ticks s))) in
           let '(d, _) := approval_expire payload (ts_durable s) in
           t_trace [TApprovalExpire payload] (t_durable d s)
         else s)
  end.

Definition register_pending_terminal (run_id : string) (pending : PendingTerminal) (s : TState) : TState :=
  let s := alter_run (set_status "terminal_pending") run_id s in
  t_count [MPendingInc] (t_pending (<[run_id := pending]> (ts_pending s)) s).

Definition clear_pending_terminal (run_id : string) (s : TState) : TState :=
  match ts_pending s !! run_id with
  | Some _ => t_count [MPendingDec] (t_pending (delete run_id (ts_pending s)) s)
  | None => s
  end.

Definition pending_terminal_count (s : TState) : nat := size (ts_pending s).

(** ** Bounded attempts *)

(** What other threads do while the task sleeps before the attempt with [n]
    more to go. *)
Context (env : nat -> TState -> TState).

(** The loop of the three [finish] functions: [n] more attempts may follow. *)
Fixpoint attempt_loop (run_id : string) (status : TerminalStatus)
    (once : TState -> TState * TerminalOutcome) (otherwise : TerminalOutcome -> TState -> TState)
    (n : nat) (s : TState) : TState :=
  match once s with
  | (s, Committed) => mark_terminal run_id (t_count [MRunsTerminal status] s)
  | (s, TerminalPersistFailed error pending) =>
      match n with
      | S n' => attempt_loop run_id status once otherwise n' (env n' (t_count [MPersistBackoff] s))
      | O =>
          let s := register_pending_terminal run_id pending (t_count [MRunsTerminal status] s) in
          t_trace [TSpawnRetry run_id] (mark_terminal run_id s)
      end
  | (s, other) => otherwise other s
  end.

Definition finish_cancelled (run_id reason : string) : TState -> TState :=
  attempt_loop run_id CancelledStatus (commit_cancelled_once run_id reason) (fun _ s => s)
    (tc_terminal_persist_retries config).

Definition finish_failed (run_id : string) (data : Json) : TState -> TState :=
  attempt_loop run_id Failed (commit_failed_once run_id data) (fun _ s => s)
    (tc_terminal_persist_retries config).

Definition finish_completed (run_id session_id output_text : string) : TState -> TState :=
  attempt_loop run_id Completed (commit_completed_once run_id session_id output_text)
    (fun outcome s =>
       match outcome with
       | SessionMissing => finish_failed run_id (failed_payload "session not found") s
       | _ =>
           let reason := match ts_handles s !! run_id with
                         | Some h => handle_cancel_reason h "requested"
                         | None => "requested"
                         end in
           finish_cancelled run_id reason s
       end)
    (tc_terminal_persist_retries config).

(** ** Retrying a parked terminal *)

Definition retry_pending_terminal (run_id : string) (s : TState) : TState * PendingRetryOutcome :=
  match ts_pending s !! run_id with
  | None => (s, PGone)
  | Some pending =>
      match gs_runs (ts_store s) !! run_id with
      | None => (clear_pending_terminal run_id s, PGone)
      | Some run =>
          if negb (str_eqb (rr_status run) "terminal_pending") then (clear_pending_terminal run_id s, PGone)
          else if (pt_deadline pending <=? instants (ts_ticks s))%Z then
            let s := alter_run close_run_stream run_id (clear_pending_terminal run_id s) in
            (t_spend 0 4 (t_count [MTerminalRetry RetryExpired] s), PExpired)
          else
            match terminal_commit run_id (default EmptyString (pt_session_id pending)) (pt_to_status pending)
                    (pt_events pending) (pt_assistant_message pending) s with
            | (s, Ok seqs) =>
                let now := times (S (ts_ticks s)) in
                let s := t_store (apply_terminal now run_id (pt_to_status pending) (pt_events pending) seqs
                                    (pt_assistant_message pending) (ts_store s)) s in
                let s := clear_pending_terminal run_id s in
                let s := send_all run_id (map (with_seq seqs) (pt_events pending)) s in
                (t_spend 0 4 (t_count [MTerminalRetry RetryCommitted] s), PCommitted)
            | (s, Err error) =>
                if str_eqb (tce_code error) "transition_conflict" then
                  let s := alter_run close_run_stream run_id (clear_pending_terminal run_id s) in
                  (t_spend 0 4 (t_count [MTerminalRetry RetryConflict] s), PConflict)
                else (t_spend 0 4 (t_count [MTerminalRetry RetryRetryFailed] s), PRetryFailed)
            end
      end
  end.

(** [spawn_terminal_retry]: one retry per tick of the interval, until an
    outcome other than [RetryFailed]; [fuel] bounds the ticks looked at. *)
Fixpoint terminal_retry_loop (fuel : nat) (run_id : string) (s : TState) : TState * option PendingRetryOutcome :=
  match fuel with
  | O => (s, None)
  | S fuel' =>
      match retry_pending_terminal run_id (env fuel' s) with
      | (s, PRetryFailed) => terminal_retry_loop fuel' run_id s
      | (s, outcome) => (s, Some outcome)
      end
  end.

(** ** Stopping *)

Definition update_handle (run_id : string) (r : RunHandle * list HostCall) (s : TState) : TState :=
  host_calls run_id (snd r) (t_handles (<[run_id := fst r]> (ts_handles s)) s).

Definition stop (run_id : string) (s : TState) : TState * option string :=
  match ts_handles s !! run_id with
  | None => (s, None)
  | Some h =>
      let status := match gs_runs (ts_store s) !! run_id with
                    | Some run => rr_status run
                    | None => EmptyString
                    end in
      if str_eqb status "started" then
        let s := alter_run (set_status "stopping") run_id s in
        (update_handle run_id (cancel_run_tools (request_as "requested" Requested h)) s, Some "stopping")
      else (s, Some status)
  end.

Definition stop_admission (s : TState) : TState :=
  t_forget (ts_previews s) (ts_contexts s) true s.

Definition halt_handle (s : TState) (entry : string * RunHandle) : TState :=
  update_handle (fst entry) (cancel_run_tools (request_as "resource_closed" ResourceClosed (snd entry))) s.

Definition halt (s : TState) : TState :=
  let s := stop_admission s in fold_left halt_handle (map_to_list (ts_handles s)) s.

(** ** Subscribers *)

Record SubscriberGuard := { sg_run_id : string; sg_armed : bool }.

Definition attach_subscriber (run_id : string) (s : TState) : TState * option SubscriberGuard :=
  match ts_handles s !! run_id with
  | None => (s, None)
  | Some h =>
      (t_handles (<[run_id := set_subscribers (h_count h + 1) (h_notified h) h]> (ts_handles s)) s,
       Some {| sg_run_id := run_id; sg_armed := true |})
  end.

Definition guard_disarm (g : SubscriberGuard) : SubscriberGuard :=
  {| sg_run_id := sg_run_id g; sg_armed := false |}.

(** The drop of a guard, on its handle. *)
Definition drop_guard (armed : bool) (h : RunHandle) : RunHandle * list HostCall :=
  let h := set_subscribers (saturating_sub (h_count h) 1) (h_notified h) h in
  if negb armed || negb (h_count h =? 0)%Z || match h_policy h with CancelOnDisconnect => false | _ => true end
     || h_terminal h || h_notified h
  then (h, [])
  else cancel_run_tools (request_as "client_disconnect" Requested (set_subscribers (h_count h) true h)).

Definition detach_subscriber (g : SubscriberGuard) (s : TState) : TState :=
  match ts_handles s !! sg_run_id g with
  | None => s
  | Some h => update_handle (sg_run_id g) (drop_guard (sg_armed g) h) s
  end.

(** ** The janitor *)

Definition handle_kept (now : Z) (h : RunHandle) : bool :=
  match h_terminal_at h with
  | None => true
  | Some terminal_at => (now <? terminal_at + tc_terminal_run_ttl config)%Z
  end.

Definition janitor_release (s : TState) (entry : string * RunHandle) : TState :=
  host_calls (fst entry) (snd (release_capability_host (snd entry))) s.

(** One tick; [halting] stops the janitor. *)
Definition lifecycle_janitor_tick (s : TState) : TState :=
  if ts_halting s then s
  else
    let now := instants (ts_ticks s) in
    let expired := filter (fun e => handle_kept now e.2 = false) (ts_handles s) in
    let s := t_handles (filter (fun e => handle_kept now e.2 = true) (ts_handles s)) s in
    let s := fold_left janitor_release (map_to_list expired) s in
    let keep (ids : gset string) := filter (fun id => expired !! id = None) ids in
    t_spend 0 1 (t_forget (ts_previews s) (keep (ts_contexts s).1, keep (ts_contexts s).2) (ts_halting s) s).

End Terminal.

(** ** Interpreting the worker ([WorkerOutcome]) *)

Inductive WorkerOutcome :=
| WCompleted (value : VmValue)
| WCancelled (reason : string)
| WFailed (message : string).

Section Worker.
Context `{JsonText}.

(** [CancellationReason::as_str] of the runtime. *)
Context (reason_str : CancellationReason -> string).

Definition interpret_loop_decision (value : VmValue) (now : Z) (cancellation : RunCancellation) :
    WorkerOutcome :=
  match cn_requested cancellation with
  | Some reason => WCancelled (reason_str reason)
  | None =>
      if deadline_passed now cancellation then WCancelled "deadline"
      else
        let json := Convert.vm_value_to_json value in
        match jget "kind" json ≫= as_str with
        | Some kind =>
            if str_eqb kind "run.failed" then
              let error := jget "error" json in
              let code := default "failed" ((error ≫= jget "code") ≫= as_str) in
              if str_eqb code "cancelled" then WCancelled "requested"
              else if str_eqb code "deadline_elapsed" then WCancelled "deadline"
              else WFailed (default code ((error ≫= jget "message") ≫= as_str))
            else WCompleted value
        | None => WCompleted value
        end
  end.

Definition completed_output_text (value : VmValue) : string :=
  let json := Convert.vm_value_to_json value in
  if bool_decide (jget "kind" json ≫= as_str = Some "run.completed") then
    match jget "answer" json with
    | Some (JString answer) => answer
    | Some answer => json_text answer
    | None => json_text json
    end
  else json_text json.

End Worker.
