(* ===== verification/TerminalSpec.v ===== *)
(** * What the terminal transitions guarantee

    Theorems on [Terminal]: an attempt that did not commit changed nothing that
    anybody can see; a run that is finished ends, committed or parked, with its
    permit given back; a committed terminal is never changed again; the retry
    of a parked terminal stops by its deadline; the gauge of parked terminals
    is exact. *)

From stdpp Require Import pretty.
From S2P Require Import Prelude Utf8 Json Domain Store Events Delivery Capability Lifecycle Commit Terminal.

Section Spec.
Context `{JsonText, Content.BlockSerde}.
Context {D : Type} (run_terminal approval_expire : Json -> D -> D * result Json StorageError).
Context (uuids : nat -> string) (times instants : nat -> Z).
Context (config : TerminalConfig).

Abbreviation State := (TState (D := D)).
Abbreviation terminal_commit := (Terminal.terminal_commit run_terminal times config).
Abbreviation commit_reserved := (Terminal.commit_reserved run_terminal times instants config).
Abbreviation commit_completed_once := (Terminal.commit_completed_once run_terminal uuids times instants config).
Abbreviation commit_ended_once := (Terminal.commit_ended_once run_terminal uuids times instants config).
Abbreviation mark_terminal := (Terminal.mark_terminal approval_expire times instants config).
Abbreviation retry_pending_terminal := (Terminal.retry_pending_terminal run_terminal times instants config).

(** ** One attempt *)

(** The part of the state only finishing, marking and retrying change. *)
Definition same_books (s s' : State) : Prop :=
  ts_handles s' = ts_handles s /\ ts_pending s' = ts_pending s /\ ts_counts s' = ts_counts s.

Definition publishes_none (s s' : State) : Prop :=
  exists new, ts_trace s' = ts_trace s ++ new /\ forall e, TPublished e ∉ new.

Lemma publishes_none_refl (s : State) : publishes_none s s.
Proof. exists []. rewrite app_nil_r. split; [done|]. intros e Hin. by apply not_elem_of_nil in Hin. Qed.

Lemma publishes_none_stored (s : State) d payload ok :
  publishes_none s (t_trace [TStored payload ok] (t_durable d s)).
Proof. eexists. split; [done|]. intros e Hin. by apply list_elem_of_singleton in Hin. Qed.

#[local] Hint Resolve publishes_none_refl publishes_none_stored : core.

Lemma terminal_commit_spec run_id session_id to_status events message (s s' : State) r :
  terminal_commit run_id session_id to_status events message s = (s', r) ->
  ts_store s' = ts_store s /\ same_books s s' /\ ts_ticks s' = ts_ticks s /\ publishes_none s s' /\
  (is_ok r = true -> tc_persistence config = true ->
   exists payload, ts_trace s' = ts_trace s ++ [TStored payload true]).
Proof.
  unfold Terminal.terminal_commit. destruct (tc_persistence config).
  - destruct (run_terminal _ _) as [d [data|e]]; intros [= <- <-]; split_and!; try done; eauto.
  - intros [= <- <-]. by split_and!.
Qed.

(** What subscribers are sent. *)
Definition broadcast (run_id : string) (events : list GatewayEvent) (store : GatewayStore) :
    list TerminalEffect :=
  match gs_runs store !! run_id with
  | Some run => if rr_sender run then map TPublished events else []
  | None => []
  end.

Lemma send_all_spec run_id events (s : State) :
  ts_store (send_all run_id events s) = ts_store s /\ same_books s (send_all run_id events s) /\
  ts_ticks (send_all run_id events s) = ts_ticks s /\
  ts_trace (send_all run_id events s) = ts_trace s ++ broadcast run_id events (ts_store s).
Proof.
  unfold send_all, broadcast. destruct (gs_runs (ts_store s) !! run_id) as [run|];
    [destruct (rr_sender run)|]; cbn; rewrite ?app_nil_r; done.
Qed.

Definition outcome_effect (run_id to_status : string) (events : list GatewayEvent)
    (message : option SessionMessage) (s s' : State) (o : TerminalOutcome) : Prop :=
  match o with
  | Committed => exists now seqs stored,
      ts_store s' = apply_terminal config now run_id to_status events seqs message (ts_store s) /\
      ts_trace s' = ts_trace s ++ stored ++ broadcast run_id events (ts_store s') /\
      (tc_persistence config = true -> exists payload, stored = [TStored payload true])
  | TerminalPersistFailed _ p =>
      ts_store s' = ts_store s /\ publishes_none s s' /\ pt_to_status p = to_status /\
      pt_events p = events /\ pt_assistant_message p = message
  | _ => False
  end.

Lemma commit_reserved_spec run_id session_id to_status ps events message (s s' : State) o :
  commit_reserved run_id session_id to_status ps events message s = (s', o) ->
  same_books s s' /\ outcome_effect run_id to_status events message s s' o.
Proof.
  unfold Terminal.commit_reserved.
  destruct (terminal_commit _ _ _ _ _ s) as [s1 [seqs|error]] eqn:Hc;
    apply terminal_commit_spec in Hc as (Hst & Hb & Ht & Hp & Hpay); intros [= <- <-].
  - match goal with |- context [send_all run_id events ?x] =>
      destruct (send_all_spec run_id events x) as (Hs1 & (Hb1 & Hb2 & Hb3) & _ & Htr) end.
    split. { unfold same_books in *. cbn in *. by rewrite Hb1, Hb2, Hb3. }
    unfold outcome_effect. destruct Hp as (new & Hnew & _). cbn in *.
    eexists _, seqs, new. rewrite Hs1, Htr, Hst, Hnew, <- app_assoc. split_and!; [done|done|].
    intros Hper. destruct (Hpay eq_refl Hper) as [payload Hpl]. exists payload.
    rewrite Hnew in Hpl. by apply app_inv_head in Hpl.
  - split; [done|]. unfold outcome_effect. cbn. by split_and!.
Qed.

Lemma commit_completed_once_spec run_id session_id text (s s' : State) o :
  commit_completed_once run_id session_id text s = (s', o) ->
  same_books s s' /\
  ((o = NotActive \/ o = SessionMissing) /\ s' = s \/
   exists run session message events,
     gs_runs (ts_store s) !! run_id = Some run /\ rr_status run = "started" /\
     gs_sessions (ts_store s) !! session_id = Some session /\
     outcome_effect run_id "completed" events message s s' o).
Proof.
  unfold Terminal.commit_completed_once. intros Hc.
  destruct (gs_runs (ts_store s) !! run_id) as [run|] eqn:Hrun; [|simplify_eq; split; [done|auto]].
  destruct (str_eqb (rr_status run) "started") eqn:Hst; cbn in Hc; [|simplify_eq; split; [done|auto]].
  destruct (gs_sessions (ts_store s) !! session_id) as [session|] eqn:Hses; [|simplify_eq; split; [done|auto]].
  destruct (completed_delta _ _ _ _ _ _ _ _ _) as [message events].
  apply commit_reserved_spec in Hc as [Hb Ho]. split; [done|]. right. apply str_eqb_true in Hst. eauto 10.
Qed.

Lemma commit_ended_once_spec run_id to_status event_type data (s s' : State) o :
  commit_ended_once run_id to_status event_type data s = (s', o) ->
  same_books s s' /\
  (o = NotActive /\ s' = s \/
   exists run events,
     gs_runs (ts_store s) !! run_id = Some run /\ run_is_terminal (rr_status run) = false /\
     outcome_effect run_id to_status events None s s' o).
Proof.
  unfold Terminal.commit_ended_once. intros Hc.
  destruct (gs_runs (ts_store s) !! run_id) as [run|] eqn:Hrun; [|simplify_eq; split; [done|auto]].
  destruct (run_is_terminal (rr_status run)) eqn:Ht; [simplify_eq; split; [done|auto]|].
  apply commit_reserved_spec in Hc as [Hb Ho]. split; [done|]. right. eauto 10.
Qed.

(** An attempt to end a run that did not commit has changed nothing in
    memory and shown nothing to subscribers; one that did commit, with storage,
    broadcasts only after the storage command succeeded. *)
Theorem terminal_durable_before_visible run_id to_status event_type data (s s' : State) o :
  commit_ended_once run_id to_status event_type data s = (s', o) ->
  match o with
  | Committed => tc_persistence config = true ->
      exists payload events,
        ts_trace s' = ts_trace s ++ TStored payload true :: broadcast run_id events (ts_store s')
  | _ => ts_store s' = ts_store s /\ publishes_none s s'
  end.
Proof.
  intros [_ [[-> ->]|(run & events & _ & _ & Ho)]]%commit_ended_once_spec; [by auto|].
  unfold outcome_effect in Ho. destruct o; [|done..|by destruct Ho as (? & ? & _)].
  destruct Ho as (now & seqs & stored & _ & Htr & Hp). intros Hper.
  destruct (Hp Hper) as [payload ->]. exists payload, events. by rewrite Htr.
Qed.

(** ** Applying and marking *)

Lemma apply_terminal_run now run_id to_status events seqs message store run :
  gs_runs store !! run_id = Some run ->
  exists run', gs_runs (apply_terminal config now run_id to_status events seqs message store) !! run_id = Some run' /\
    rr_status run' = to_status.
Proof.
  intros Hrun. unfold apply_terminal, push_message_opt. eexists. split.
  - destruct message; cbn; rewrite lookup_alter, decide_True, Hrun by done; reflexivity.
  - done.
Qed.

Lemma apply_terminal_other now run_id to_status events seqs message store id :
  id <> run_id ->
  gs_runs (apply_terminal config now run_id to_status events seqs message store) !! id = gs_runs store !! id.
Proof.
  intros Hne. unfold apply_terminal, push_message_opt. destruct message; cbn; by rewrite lookup_alter_ne.
Qed.

(** A handle whose run has ended: marked, permit given back, host closed. *)
Definition handle_ended (h : RunHandle) : Prop :=
  handle_is_terminal h = true /\ h_permit h = false /\ h_terminal h = true /\
  h_tool_cancel h = true /\ exists p, h_host h = HostClosed p.

Lemma release_ended now h :
  handle_ended (fst (release_capability_host (set_terminal now h))).
Proof. unfold release_capability_host. destruct (h_host _); split_and!; try done; by eexists. Qed.

Lemma mark_terminal_spec run_id (s : State) :
  ts_store (mark_terminal run_id s) = ts_store s /\ ts_pending (mark_terminal run_id s) = ts_pending s /\
  publishes_none s (mark_terminal run_id s) /\
  ts_counts (mark_terminal run_id s) = ts_counts s ++
    (match ts_handles s !! run_id with
     | Some h => if handle_is_terminal h then [] else [MRunDuration; MActiveRunsDec]
     | None => []
     end) /\
  forall h, ts_handles s !! run_id = Some h ->
    exists h', ts_handles (mark_terminal run_id s) = <[run_id := h']> (ts_handles s) /\ handle_ended h'.
Proof.
  unfold Terminal.mark_terminal. destruct (ts_handles s !! run_id) as [h|] eqn:Hh;
    [|rewrite app_nil_r; split_and!; auto; by intros].
  set (s0 := if handle_is_terminal h then s else _).
  pose proof (release_ended (instants (ts_ticks s0)) h) as He.
  destruct (release_capability_host _) as [h' calls]. cbn in He.
  assert (ts_store s0 = ts_store s /\ ts_pending s0 = ts_pending s /\ ts_trace s0 = ts_trace s /\
          ts_handles s0 = ts_handles s /\
          ts_counts s0 = ts_counts s ++ if handle_is_terminal h then [] else [MRunDuration; MActiveRunsDec])
    as (E1 & E2 & E3 & E4 & E5).
  { unfold s0. destruct (handle_is_terminal h); by rewrite ?app_nil_r. }
  unfold publishes_none.
  assert (forall l, (forall e, TPublished e ∉ l) -> forall e, TPublished e ∉ map (THost run_id) calls ++ l) as Hn.
  { intros l Hl e [Hin|Hin]%elem_of_app; [|by eapply Hl].
    apply list_elem_of_fmap in Hin as (? & ? & _). done. }
  destruct (tc_persistence config); [destruct (approval_expire _ _) as [d u]|]; cbn;
    rewrite ?E1, ?E2, ?E3, ?E4, ?E5, <- ?app_assoc; split_and!; try done.
  - eexists. split; [done|]. apply Hn. intros e Hin. by apply list_elem_of_singleton in Hin.
  - intros h0 _. eauto.
  - exists (map (THost run_id) calls). split; [done|]. intros e. specialize (Hn [] ltac:(by intros ? ?%not_elem_of_nil) e).
    by rewrite app_nil_r in Hn.
  - intros h0 _. eauto.
Qed.

(** ** Finishing a run *)

Inductive FinishOp :=
| FCompleted (session_id output_text : string)
| FCancelled (reason : string)
| FFailed (data : Json).

Definition target_status (op : FinishOp) : string :=
  match op with FCompleted _ _ => "completed" | FCancelled _ => "cancelled" | FFailed _ => "failed" end.

Definition finish (env : nat -> State -> State) (run_id : string) (op : FinishOp) : State -> State :=
  match op with
  | FCompleted session_id text =>
      finish_completed run_terminal approval_expire uuids times instants config env run_id session_id text
  | FCancelled reason => finish_cancelled run_terminal approval_expire uuids times instants config env run_id reason
  | FFailed data => finish_failed run_terminal approval_expire uuids times instants config env run_id data
  end.

Definition once (run_id : string) (op : FinishOp) : State -> State * TerminalOutcome :=
  match op with
  | FCompleted session_id text => commit_completed_once run_id session_id text
  | FCancelled reason => commit_cancelled_once run_terminal uuids times instants config run_id reason
  | FFailed data => commit_failed_once run_terminal uuids times instants config run_id data
  end.

(** The run is there to be finished this way. *)
Definition ready (run_id : string) (op : FinishOp) (s : State) : Prop :=
  is_Some (ts_handles s !! run_id) /\
  exists run, gs_runs (ts_store s) !! run_id = Some run /\
    match op with
    | FCompleted session_id _ =>
        rr_status run = "started" /\ is_Some (gs_sessions (ts_store s) !! session_id)
    | _ => run_is_terminal (rr_status run) = false
    end.

Lemma once_spec run_id op (s s' : State) o :
  once run_id op s = (s', o) ->
  same_books s s' /\
  (s' = s /\ (o = NotActive \/ o = SessionMissing) \/
   exists run events message,
     gs_runs (ts_store s) !! run_id = Some run /\ run_is_terminal (rr_status run) = false /\
     outcome_effect run_id (target_status op) events message s s' o).
Proof.
  destruct op as [sid text|reason|data]; cbn.
  - intros [Hb [[Ho ->]|(run & session & message & events & Hr & Hs & _ & He)]]%commit_completed_once_spec;
      split; auto. right. exists run, events, message. by rewrite Hs.
  - intros [Hb [[Ho ->]|(run & events & He)]]%commit_ended_once_spec; split; auto. right. eauto 6.
  - intros [Hb [[Ho ->]|(run & events & He)]]%commit_ended_once_spec; split; auto. right. eauto 6.
Qed.

Lemma once_ready run_id op (s : State) :
  ready run_id op s -> snd (once run_id op s) <> NotActive /\ snd (once run_id op s) <> SessionMissing.
Proof.
  intros (_ & run & Hrun & Hop).
  assert (forall rid sid st ps ev m (x : State), let o := snd (commit_reserved rid sid st ps ev m x) in
    o <> NotActive /\ o <> SessionMissing) as Hres.
  { intros. unfold o, Terminal.commit_reserved. by destruct (terminal_commit _ _ _ _ _ x) as [? []]. }
  destruct op as [sid text|reason|data]; cbn;
    unfold Terminal.commit_completed_once, commit_cancelled_once, commit_failed_once, Terminal.commit_ended_once;
    rewrite Hrun; [|rewrite Hop; apply Hres..].
  destruct Hop as [-> [session ->]]. cbn [negb str_eqb]. rewrite str_eqb_refl. cbn [negb].
  destruct (completed_delta _ _ _ _ _ _ _ _ _). apply Hres.
Qed.

(** The loop the three share, given what [finish] does on the other outcomes. *)
Lemma finish_loop env run_id op (s : State) :
  exists otherwise status, finish env run_id op s =
    attempt_loop approval_expire times instants config env run_id status (once run_id op) otherwise
      (tc_terminal_persist_retries config) s.
Proof. destruct op; by eexists _, _. Qed.

(** The run has the status, or is parked to be given it; the handle it has, if
    it has one, is ended. *)
Definition run_closed (run_id to_status : string) (s : State) : Prop :=
  (exists run, gs_runs (ts_store s) !! run_id = Some run /\
     (rr_status run = to_status \/
      rr_status run = "terminal_pending" /\
      exists p, ts_pending s !! run_id = Some p /\ pt_to_status p = to_status)) /\
  forall h, ts_handles s !! run_id = Some h -> handle_ended h.

(** The run is gone, or ended already. *)
Definition run_over (run_id : string) (s : State) : Prop :=
  forall run, gs_runs (ts_store s) !! run_id = Some run -> run_is_terminal (rr_status run) = true.

Lemma mark_closes run_id to_status (s : State) run :
  gs_runs (ts_store s) !! run_id = Some run ->
  (rr_status run = to_status \/
   rr_status run = "terminal_pending" /\
   exists p, ts_pending s !! run_id = Some p /\ pt_to_status p = to_status) ->
  run_closed run_id to_status (mark_terminal run_id s).
Proof.
  intros Hrun Hst. destruct (mark_terminal_spec run_id s) as (Es & Ep & _ & _ & Eh). split.
  - exists run. by rewrite Es, Ep.
  - intros h' Hh'. destruct (ts_handles s !! run_id) as [h|] eqn:Hh.
    + destruct (Eh h eq_refl) as (h1 & E & Hended). rewrite E, lookup_insert_eq in Hh'. by injection Hh' as <-.
    + unfold Terminal.mark_terminal in Hh'. rewrite Hh in Hh'. congruence.
Qed.

Lemma mark_keeps_handle run_id (s : State) :
  is_Some (ts_handles s !! run_id) -> is_Some (ts_handles (mark_terminal run_id s) !! run_id).
Proof.
  intros [h Hh]. destruct (mark_terminal_spec run_id s) as (_ & _ & _ & _ & Eh).
  destruct (Eh h Hh) as (h' & -> & _). by rewrite lookup_insert_eq.
Qed.

(** A fact that other threads keep, about runs, sessions and handles. *)
Definition kept (env : nat -> State -> State) (P : State -> Prop) : Prop :=
  (forall n s, P s -> P (env n s)) /\
  forall s s' : State, ts_store s' = ts_store s -> ts_handles s' = ts_handles s -> P s -> P s'.

(** The attempts commit the run and mark it, park it after the last, or find
    the run not there to be finished this way. *)
Lemma attempts_close (P : State -> Prop) env run_id op status otherwise n (s : State) : kept env P -> P s ->
  let s' := attempt_loop approval_expire times instants config env run_id status (once run_id op) otherwise n s in
  (exists t o, P t /\ (o = NotActive \/ o = SessionMissing) /\ once run_id op t = (t, o) /\ s' = otherwise o t) \/
  run_closed run_id (target_status op) s' /\
  ((forall t, P t -> is_Some (ts_handles t !! run_id)) -> is_Some (ts_handles s' !! run_id)).
Proof.
  intros [Henv Hsame]. revert s. induction n as [|n IH]; intros s HP; cbn [attempt_loop];
    destruct (once run_id op s) as [s1 o] eqn:Ho; pose proof Ho as Ho';
    apply once_spec in Ho as [(Hh & Hp & Hc) [[-> Hn]|(run & events & message & Hrun & _ & He)]];
    try (left; exists s, o; split_and!; [done..|]; by destruct Hn as [-> | ->]);
    destruct o as [| | |error p]; try done; cbn in He.
  1,3: right; destruct He as (now & seqs & stored & Est & _);
    destruct (apply_terminal_run now run_id (target_status op) events seqs message _ run Hrun) as (r' & Hr' & Hs');
    (split; [eapply mark_closes; [cbn; rewrite Est; exact Hr'|by left]|]);
    intros HPh; apply mark_keeps_handle; cbn; rewrite Hh; by apply HPh.
  - right. destruct He as (Est & _ & Hto & _).
    change (run_closed run_id (target_status op)
      (mark_terminal run_id (register_pending_terminal run_id p (t_count [MRunsTerminal status] s1))) /\
      ((forall t, P t -> is_Some (ts_handles t !! run_id)) -> is_Some (ts_handles
      (mark_terminal run_id (register_pending_terminal run_id p (t_count [MRunsTerminal status] s1))) !! run_id))). split.
    + eapply mark_closes; [cbn; rewrite Est, lookup_alter, decide_True, Hrun by done; reflexivity|].
      right. split; [done|]. exists p. split; [apply lookup_insert_eq|done].
    + intros HPh. apply mark_keeps_handle. cbn. rewrite Hh. by apply HPh.
  - apply IH, Henv. destruct He as (Est & _). eapply (Hsame s); cbn; done.
Qed.

Lemma anything_kept env : kept env (fun _ => True).
Proof. done. Qed.

Lemma ended_once_over run_id to_status event_type data (s : State) o : o = NotActive \/ o = SessionMissing ->
  commit_ended_once run_id to_status event_type data s = (s, o) -> run_over run_id s.
Proof.
  intros Ho Hc run Hrun. unfold Terminal.commit_ended_once in Hc. rewrite Hrun in Hc.
  destruct (run_is_terminal (rr_status run)); [done|].
  apply commit_reserved_spec in Hc as [_ He]. by destruct Ho as [-> | ->].
Qed.

Lemma finish_ended env run_id op (s : State) : (forall sid text, op <> FCompleted sid text) ->
  run_closed run_id (target_status op) (finish env run_id op s) \/ run_over run_id (finish env run_id op s).
Proof.
  intros Hop. destruct op as [sid text|reason|data]; [by destruct (Hop sid text)|..].
  - destruct (attempts_close _ env run_id (FCancelled reason) CancelledStatus (fun _ s => s) (tc_terminal_persist_retries config) s
      (anything_kept env) I) as [(t & o & _ & Ho & Ht & E)|[Hcl _]]; [right|by left]. unfold finish, finish_cancelled. cbn in E. rewrite E. by eapply ended_once_over.
  - destruct (attempts_close _ env run_id (FFailed data) Failed (fun _ s => s) (tc_terminal_persist_retries config) s
      (anything_kept env) I) as [(t & o & _ & Ho & Ht & E)|[Hcl _]]; [right|by left]. unfold finish, finish_failed. cbn in E. rewrite E. by eapply ended_once_over.
Qed.

(** The statuses a finish may end a run with: a completion of a run that was
    stopped, or whose session is gone, ends it otherwise. *)
Definition final_statuses (op : FinishOp) : list string :=
  match op with FCompleted _ _ => ["completed"; "cancelled"; "failed"] | _ => [target_status op] end.

Lemma finish_completed_ends env run_id sid text (s : State) : let s' := finish env run_id (FCompleted sid text) s in
  run_over run_id s' \/ exists status, status ∈ final_statuses (FCompleted sid text) /\ run_closed run_id status s'.
Proof.
  cbn zeta. unfold finish at 1 2, finish_completed.
  match goal with |- context [attempt_loop _ _ _ _ _ _ ?st _ ?oth ?n s] =>
    destruct (attempts_close _ env run_id (FCompleted sid text) st oth n s (anything_kept env) I) as [(t & o & _ & Ho & _ & E)|[Hcl _]] end;
    cbn [once] in *; cycle 1.
  { right. exists "completed". split; [set_solver|exact Hcl]. }
  rewrite E. destruct Ho as [-> | ->]; cbn beta iota.
  - match goal with |- context [finish_cancelled _ _ _ _ _ _ _ _ ?r t] =>
      destruct (finish_ended env run_id (FCancelled r) t) as [Hcl|] end; [done| |by left].
    right. exists "cancelled". split; [set_solver|exact Hcl].
  - match goal with |- context [finish_failed _ _ _ _ _ _ _ _ ?r t] =>
      destruct (finish_ended env run_id (FFailed r) t) as [Hcl|] end; [done| |by left].
    right. exists "failed". split; [set_solver|exact Hcl].
Qed.

(** C5. Finishing a run always ends it, whatever storage answers and whatever
    other threads do to any part of the state between two attempts.  Afterwards
    the run was ended or removed by someone else, or it has a status of the
    finish (for a completion, [cancelled] when the run was not [started] any
    more and [failed] when its session was gone), or it is parked as
    [terminal_pending] with a pending terminal to that status; in the last two
    cases its handle, if it still has one, is marked, has given back its permit
    and has closed its host.  While nobody else ends the run or removes its
    session, the status is the requested one. *)
Theorem finish_ends_run env run_id op (s : State) :
  (run_over run_id (finish env run_id op s) \/
   exists status, status ∈ final_statuses op /\ run_closed run_id status (finish env run_id op s)) /\
  ((forall n s, ready run_id op s -> ready run_id op (env n s)) -> ready run_id op s ->
   run_closed run_id (target_status op) (finish env run_id op s) /\
   is_Some (ts_handles (finish env run_id op s) !! run_id)).
Proof.
  split.
  - destruct op as [sid text|reason|data].
    + by apply finish_completed_ends.
    + destruct (finish_ended env run_id (FCancelled reason) s) as [Hcl|]; [done| |by left]. right.
      exists "cancelled". split; [set_solver|done].
    + destruct (finish_ended env run_id (FFailed data) s) as [Hcl|]; [done| |by left]. right.
      exists "failed". split; [set_solver|done].
  - intros Henv Hready. destruct (finish_loop env run_id op s) as (otherwise & status & ->).
    assert (kept env (ready run_id op)) as Hk.
    { split; [done|]. intros s1 s2 E1 E2. unfold ready. by rewrite E1, E2. }
    destruct (attempts_close _ env run_id op status otherwise (tc_terminal_persist_retries config) s Hk Hready)
      as [(t & o & Ht & Ho & E & _)|[Hcl Hh]].
    + destruct (once_ready run_id op t Ht) as [H1' H2']. rewrite E in *. by destruct Ho as [-> | ->].
    + split; [done|]. apply Hh. by intros t [? _].
Qed.

(** ** A committed terminal is final *)

Definition final_status (status : string) : bool :=
  str_eqb status "completed" || str_eqb status "failed" || str_eqb status "cancelled".

Lemma final_is_terminal status :
  final_status status = true -> run_is_terminal status = true /\ status <> "started" /\ status <> "terminal_pending".
Proof.
  unfold final_status. intros Hf. rewrite !orb_true_iff in Hf. destruct Hf as [[Hf|Hf]|Hf];
    apply str_eqb_true in Hf as ->; done.
Qed.

Definition holds (id : string) (run : RunRecord) (s : State) : Prop := gs_runs (ts_store s) !! id = Some run.

Lemma alter_run_other (f : RunRecord -> RunRecord) run_id (s : State) id :
  id <> run_id -> gs_runs (ts_store (alter_run f run_id s)) !! id = gs_runs (ts_store s) !! id.
Proof. intros Hne. cbn. by rewrite lookup_alter_ne. Qed.

Lemma clear_pending_store run_id (s : State) : ts_store (clear_pending_terminal run_id s) = ts_store s.
Proof. unfold clear_pending_terminal. by case_match. Qed.

Lemma once_touches run_id op (s s' : State) o id :
  once run_id op s = (s', o) -> id <> run_id ->
  gs_runs (ts_store s') !! id = gs_runs (ts_store s) !! id.
Proof.
  intros [_ [[-> _]|(run & events & message & _ & _ & He)]]%once_spec Hne; [done|].
  destruct o; try done; cbn in He.
  - destruct He as (now & seqs & stored & -> & _). by apply apply_terminal_other.
  - by destruct He as (-> & _).
Qed.

Lemma once_final run_id op (s s' : State) o run :
  once run_id op s = (s', o) -> holds run_id run s -> final_status (rr_status run) = true ->
  s' = s /\ (o = NotActive \/ o = SessionMissing).
Proof.
  intros [_ [[-> Ho]|(run' & events & message & Hrun & Ht & _)]]%once_spec Hh Hf; [done|].
  apply final_is_terminal in Hf as [Hf _]. unfold holds in Hh. congruence.
Qed.

Section Env.
Context (env : nat -> State -> State).

Abbreviation attempt_loop := (Terminal.attempt_loop approval_expire times instants config env).

Lemma attempt_loop_holds run_id status op otherwise n id run (s : State) :
  (forall n s, holds id run s -> holds id run (env n s)) ->
  (forall o s, holds id run s -> holds id run (otherwise o s)) ->
  final_status (rr_status run) = true -> holds id run s ->
  holds id run (attempt_loop run_id status (once run_id op) otherwise n s).
Proof.
  intros Henv Hother Hf. revert s. induction n as [|n IH]; intros s Hh; cbn [Terminal.attempt_loop];
    destruct (once run_id op s) as [s1 o] eqn:Ho;
    (destruct (decide (id = run_id)) as [->|Hne];
     [destruct (once_final _ _ _ _ _ run Ho Hh Hf) as [-> [-> | ->]]; by apply Hother|]);
    assert (holds id run s1) as Hh1 by (unfold holds; by erewrite once_touches);
    destruct o; try (by apply Hother); unfold holds in *;
    rewrite ?(proj1 (mark_terminal_spec _ _)); try done.
  - cbn. rewrite (proj1 (mark_terminal_spec _ _)). cbn. by rewrite lookup_alter_ne.
  - by apply IH, Henv.
Qed.

Lemma finish_holds run_id op id run (s : State) :
  (forall n s, holds id run s -> holds id run (env n s)) ->
  final_status (rr_status run) = true -> holds id run s -> holds id run (finish env run_id op s).
Proof.
  intros Henv Hf Hh. destruct op as [sid text|reason|data].
  - eapply (attempt_loop_holds run_id Completed (FCompleted sid text)); try done.
    intros o x Hx. destruct o;
      try (eapply (attempt_loop_holds run_id CancelledStatus (FCancelled _)); by auto).
    by eapply (attempt_loop_holds run_id Failed (FFailed _)).
  - by eapply (attempt_loop_holds run_id CancelledStatus (FCancelled reason)).
  - by eapply (attempt_loop_holds run_id Failed (FFailed data)).
Qed.

Lemma retry_holds run_id id run (s s' : State) o :
  retry_pending_terminal run_id s = (s', o) -> final_status (rr_status run) = true ->
  holds id run s -> holds id run s'.
Proof.
  unfold Terminal.retry_pending_terminal, holds. intros Hr Hf Hh.
  destruct (ts_pending s !! run_id) as [p|]; [|by simplify_eq].
  destruct (gs_runs (ts_store s) !! run_id) as [run'|] eqn:Hrun;
    [|simplify_eq; by rewrite clear_pending_store].
  destruct (str_eqb (rr_status run') "terminal_pending") eqn:Hst; cbn in Hr;
    [|simplify_eq; by rewrite clear_pending_store].
  assert (id <> run_id) as Hne.
  { intros ->. apply str_eqb_true in Hst. apply final_is_terminal in Hf as (_ & _ & Hf). congruence. }
  destruct (pt_deadline p <=? instants (ts_ticks s))%Z.
  { simplify_eq. cbn. by rewrite lookup_alter_ne, clear_pending_store. }
  destruct (terminal_commit _ _ _ _ _ s) as [s1 [seqs|error]] eqn:Hc;
    apply terminal_commit_spec in Hc as (Hs1 & _).
  - injection Hr as <- <-. cbn. rewrite (proj1 (send_all_spec _ _ _)), clear_pending_store. cbn.
    rewrite apply_terminal_other by done. by rewrite Hs1.
  - destruct (str_eqb (tce_code error) "transition_conflict"); injection Hr as <- <-; cbn; rewrite ?lookup_alter_ne, ?clear_pending_store by done;
      by rewrite Hs1.
Qed.

(** The operations on the terminal state of runs. *)
Inductive TOp :=
| OFinish (run_id : string) (op : FinishOp)
| ORetry (run_id : string)
| OStop (run_id : string)
| OMark (run_id : string)
| OHalt
| OAttach (run_id : string)
| ODetach (g : SubscriberGuard)
| OJanitor.

Definition exec_op (s : State) (op : TOp) : State :=
  match op with
  | OFinish run_id op => finish env run_id op s
  | ORetry run_id => fst (retry_pending_terminal run_id s)
  | OStop run_id => fst (stop run_id s)
  | OMark run_id => mark_terminal run_id s
  | OHalt => halt s
  | OAttach run_id => fst (attach_subscriber run_id s)
  | ODetach g => detach_subscriber g s
  | OJanitor => lifecycle_janitor_tick instants config s
  end.

Definition exec_ops (ops : list TOp) (s : State) : State := fold_left exec_op ops s.

(** The operations that leave runs and parked terminals alone. *)
Definition same_runs (s s' : State) : Prop :=
  ts_store s' = ts_store s /\ ts_pending s' = ts_pending s /\ ts_counts s' = ts_counts s.

Lemma fold_same_runs {A} (f : State -> A -> State) l (s : State) :
  (forall s a, same_runs s (f s a)) -> same_runs s (fold_left f l s).
Proof.
  intros Hf. revert s. induction l as [|a l IH]; intros s; [done|]. cbn.
  destruct (IH (f s a)) as (E1 & E2 & E3), (Hf s a) as (F1 & F2 & F3).
  unfold same_runs. by rewrite E1, E2, E3.
Qed.

Lemma quiet_ops (s : State) op :
  match op with OHalt | OAttach _ | ODetach _ | OJanitor => same_runs s (exec_op s op) | _ => True end.
Proof.
  destruct op; try done; cbn.
  - unfold halt. pose proof (fold_same_runs halt_handle (map_to_list (ts_handles (stop_admission s)))
      (stop_admission s) ltac:(done)). done.
  - unfold attach_subscriber. by case_match.
  - unfold detach_subscriber. by case_match.
  - unfold lifecycle_janitor_tick. case_match; [done|].
    match goal with |- context [fold_left janitor_release ?l ?x] =>
      pose proof (fold_same_runs janitor_release l x ltac:(done)) as E end. done.
Qed.

Lemma stop_spec run_id (s : State) :
  ts_pending (fst (stop run_id s)) = ts_pending s /\ ts_counts (fst (stop run_id s)) = ts_counts s /\
  (ts_store (fst (stop run_id s)) = ts_store s \/
   exists run, gs_runs (ts_store s) !! run_id = Some run /\ rr_status run = "started" /\
     ts_store (fst (stop run_id s)) = ts_store (alter_run (set_status "stopping") run_id s)).
Proof.
  unfold stop. destruct (ts_handles s !! run_id); [|by auto].
  destruct (gs_runs (ts_store s) !! run_id) as [run|] eqn:Hrun; [|by auto].
  destruct (str_eqb (rr_status run) "started") eqn:Hst; [|by auto].
  apply str_eqb_true in Hst. split_and!; [done..|]. right. eauto.
Qed.

(** A committed terminal is final: no sequence of finishes, retries, stops,
    halts, subscriber changes and janitor ticks ever changes a run whose status
    is [completed], [failed] or [cancelled] - neither its status nor its
    events. *)
Theorem terminal_is_final ops id run (s : State) :
  (forall n s, holds id run s -> holds id run (env n s)) ->
  final_status (rr_status run) = true -> holds id run s -> holds id run (exec_ops ops s).
Proof.
  intros Henv Hf. revert s. induction ops as [|op ops IH]; intros s Hh; [done|]. apply IH.
  pose proof (quiet_ops s op) as Hq. destruct op as [rid op|rid|rid|rid| | | |];
    try (unfold holds in *; by rewrite (proj1 Hq)); cbn.
  - by apply finish_holds.
  - destruct (retry_pending_terminal rid s) as [s1 o] eqn:E. by eapply retry_holds.
  - destruct (stop_spec rid s) as (_ & _ & [E|(r & Hr & Hs & E)]); unfold holds in *; rewrite E; [done|].
    cbn. destruct (decide (id = rid)) as [->|Hne]; [|by rewrite lookup_alter_ne].
    apply final_is_terminal in Hf as (_ & Hf & _). congruence.
  - unfold holds in *. by rewrite (proj1 (mark_terminal_spec _ _)).
Qed.

(** ** The gauge of parked terminals *)

Fixpoint pending_gauge (counts : list Count) : Z :=
  match counts with
  | [] => 0
  | MPendingInc :: l => pending_gauge l + 1
  | MPendingDec :: l => pending_gauge l - 1
  | _ :: l => pending_gauge l
  end.

Lemma pending_gauge_app l k : pending_gauge (l ++ k) = (pending_gauge l + pending_gauge k)%Z.
Proof. induction l as [|c l IH]; [done|]. destruct c; cbn; lia. Qed.

(** The gauge counts the parked terminals, and a parked terminal belongs to a
    run that waits for it. *)
Definition pending_ok (s : State) : Prop :=
  pending_gauge (ts_counts s) = Z.of_nat (size (ts_pending s)) /\
  map_Forall (fun id _ => exists run, holds id run s /\ rr_status run = "terminal_pending") (ts_pending s).

Lemma pending_none (s : State) run_id run :
  pending_ok s -> holds run_id run s -> rr_status run <> "terminal_pending" -> ts_pending s !! run_id = None.
Proof.
  intros [_ Hp] Hh Hst. destruct (ts_pending s !! run_id) as [p|] eqn:E; [exfalso|done].
  destruct (Hp _ _ E) as (run' & Hh' & Hst'). unfold holds in *. congruence.
Qed.

Lemma pending_ok_step (s s' : State) run_id :
  pending_ok s -> ts_pending s' = ts_pending s -> pending_gauge (ts_counts s') = pending_gauge (ts_counts s) ->
  (forall id, id <> run_id -> gs_runs (ts_store s') !! id = gs_runs (ts_store s) !! id) ->
  ts_pending s !! run_id = None -> pending_ok s'.
Proof.
  intros [Hg Hp] Ep Eg Er Hn. split; [by rewrite Eg, Ep|]. rewrite Ep. intros id p Hid.
  destruct (decide (id = run_id)) as [->|Hne]; [congruence|].
  destruct (Hp _ _ Hid) as (run & Hh & Hst). exists run. unfold holds in *. by rewrite Er.
Qed.

Lemma pending_ok_same (s s' : State) :
  pending_ok s -> ts_pending s' = ts_pending s -> pending_gauge (ts_counts s') = pending_gauge (ts_counts s) ->
  gs_runs (ts_store s') = gs_runs (ts_store s) -> pending_ok s'.
Proof. unfold pending_ok, holds. by intros Hok -> -> ->. Qed.

Lemma mark_pending_ok run_id (s : State) : pending_ok s -> pending_ok (mark_terminal run_id s).
Proof.
  intros Hok. destruct (mark_terminal_spec run_id s) as (Es & Ep & _ & Ec & _).
  apply (pending_ok_same s); [done|done| |by rewrite Es].
  rewrite Ec, pending_gauge_app. destruct (ts_handles s !! run_id) as [h|]; [destruct (handle_is_terminal h)|]; cbn; lia.
Qed.

Lemma register_pending_ok run_id p (s : State) run :
  pending_ok s -> holds run_id run s -> rr_status run <> "terminal_pending" ->
  pending_ok (register_pending_terminal run_id p s).
Proof.
  intros Hok Hh Hst. pose proof (pending_none s run_id run Hok Hh Hst) as Hn. destruct Hok as [Hg Hp].
  split; cbn.
  - rewrite pending_gauge_app, map_size_insert_None by done. cbn. lia.
  - apply map_Forall_insert_2; [eexists; split; [unfold holds; cbn; by rewrite lookup_alter, decide_True, Hh|done]|].
    intros id q Hid. destruct (Hp _ _ Hid) as (r & Hr & Hrs). exists r. split; [|done].
    unfold holds in *. cbn. destruct (decide (id = run_id)) as [->|Hne]; [congruence|]. by rewrite lookup_alter_ne.
Qed.

Lemma clear_pending_ok run_id (s s' : State) :
  pending_ok s -> ts_pending s' = ts_pending (clear_pending_terminal run_id s) ->
  pending_gauge (ts_counts s') = pending_gauge (ts_counts (clear_pending_terminal run_id s)) ->
  (forall id, id <> run_id -> gs_runs (ts_store s') !! id = gs_runs (ts_store s) !! id) -> pending_ok s'.
Proof.
  intros [Hg Hp] Ep Eg Er. unfold clear_pending_terminal in *.
  destruct (ts_pending s !! run_id) as [p|] eqn:E; cbn in *.
  - split; [|rewrite Ep]. { rewrite Eg, Ep, pending_gauge_app, map_size_delete_Some by (by eexists). cbn.
      assert (size (ts_pending s) <> 0) by (intros Hz%map_size_empty_inv; by rewrite Hz in E). lia. }
    intros id q [Hne Hid]%lookup_delete_Some. destruct (Hp _ _ Hid) as (r & Hr & Hrs). exists r.
    unfold holds in *. by rewrite Er.
  - by eapply (pending_ok_step s).
Qed.

(** An attempt keeps the books; a failed one was on a run that is not parked. *)
Lemma once_pending run_id op (s s' : State) o :
  once run_id op s = (s', o) -> pending_ok s ->
  pending_ok s' /\
  match o with
  | TerminalPersistFailed _ _ => exists run, holds run_id run s' /\ rr_status run <> "terminal_pending"
  | _ => True
  end.
Proof.
  intros Ho Hok. pose proof (once_touches run_id op s s' o) as Htouch.
  pose proof Ho as [(Hh & Hp & Hc) [[-> Hn]|(run & events & message & Hrun & Hact & He)]]%once_spec.
  { split; [done|]. by destruct o, Hn. }
  assert (rr_status run <> "terminal_pending") as Hst by (intros E; by rewrite E in Hact).
  split.
  - eapply (pending_ok_step s s' run_id); [done|done|by rewrite Hc|by eauto|by eapply pending_none].
  - destruct o; try done. destruct He as (Es & _). exists run. unfold holds. by rewrite Es.
Qed.

Lemma attempt_loop_pending run_id status op otherwise n (s : State) :
  (forall n s, pending_ok s -> pending_ok (env n s)) ->
  (forall o s, pending_ok s -> pending_ok (otherwise o s)) ->
  pending_ok s -> pending_ok (attempt_loop run_id status (once run_id op) otherwise n s).
Proof.
  intros Henv Hother. revert s. induction n as [|n IH]; intros s Hok; cbn [Terminal.attempt_loop];
    destruct (once run_id op s) as [s1 o] eqn:Ho;
    apply once_pending in Ho as [Hok1 Hp]; try done; destruct o as [| | |error p]; try (by apply Hother).
  - apply mark_pending_ok, (pending_ok_same s1); [done..| |done]. cbn. rewrite pending_gauge_app. cbn. lia.
  - destruct Hp as (run & Hh & Hst). eapply (pending_ok_same (mark_terminal run_id _)); [|done..].
    eapply mark_pending_ok, register_pending_ok; [|exact Hh|done].
    apply (pending_ok_same s1); [done..| |done]. cbn. rewrite pending_gauge_app. cbn. lia.
  - apply mark_pending_ok, (pending_ok_same s1); [done..| |done]. cbn. rewrite pending_gauge_app. cbn. lia.
  - apply IH, Henv, (pending_ok_same s1); [done..| |done]. cbn. rewrite pending_gauge_app. cbn. lia.
Qed.

Lemma finish_pending run_id op (s : State) :
  (forall n s, pending_ok s -> pending_ok (env n s)) -> pending_ok s -> pending_ok (finish env run_id op s).
Proof.
  intros Henv Hok. destruct op as [sid text|reason|data].
  - apply (attempt_loop_pending run_id Completed (FCompleted sid text)); try done.
    intros o x Hx. destruct o;
      try (apply (attempt_loop_pending run_id CancelledStatus (FCancelled _)); by auto).
    by apply (attempt_loop_pending run_id Failed (FFailed _)).
  - by apply (attempt_loop_pending run_id CancelledStatus (FCancelled reason)).
  - by apply (attempt_loop_pending run_id Failed (FFailed data)).
Qed.

Lemma retry_pending run_id (s s' : State) o :
  retry_pending_terminal run_id s = (s', o) -> pending_ok s -> pending_ok s'.
Proof.
  unfold Terminal.retry_pending_terminal. intros Hr Hok.
  destruct (ts_pending s !! run_id) as [p|] eqn:Hp; [|by simplify_eq].
  assert (pending_ok (clear_pending_terminal run_id s)) as Hclear.
  { apply (clear_pending_ok run_id s); [done..|]. intros. by rewrite clear_pending_store. }
  destruct (gs_runs (ts_store s) !! run_id) as [run|]; [|by simplify_eq].
  destruct (negb _); [by simplify_eq|]. destruct (_ <=? _)%Z.
  { injection Hr as <- <-. apply (clear_pending_ok run_id s); [done|done|cbn; rewrite pending_gauge_app; cbn; lia|].
    intros id Hne. cbn. by rewrite lookup_alter_ne, clear_pending_store. }
  destruct (terminal_commit _ _ _ _ _ s) as [s1 [seqs|error]] eqn:Hc;
    apply terminal_commit_spec in Hc as (Hs1 & (Eh & Ep & Ec) & _).
  - injection Hr as <- <-.
    match goal with |- context [send_all run_id ?ev ?x] =>
      destruct (send_all_spec run_id ev x) as (E1 & (_ & E2 & E3) & _) end.
    apply (clear_pending_ok run_id s); [done| | |]; cbn [t_spend t_count ts_pending ts_counts ts_store];
      rewrite ?E1, ?E2, ?E3.
    + unfold clear_pending_terminal. cbn. rewrite Ep, Hp. done.
    + unfold clear_pending_terminal. cbn. rewrite Ep, Hp. cbn. rewrite Ec, !pending_gauge_app. cbn. lia.
    + intros id Hne. rewrite clear_pending_store. cbn. rewrite apply_terminal_other by done. by rewrite Hs1.
  - destruct (str_eqb (tce_code error) "transition_conflict"); injection Hr as <- <-.
    + apply (clear_pending_ok run_id s); [done| | |].
      * unfold clear_pending_terminal. cbn. rewrite Ep, Hp. done.
      * unfold clear_pending_terminal. cbn. rewrite Ep, Hp. cbn. rewrite Ec, !pending_gauge_app. cbn. lia.
      * intros id Hne. cbn. rewrite lookup_alter_ne, clear_pending_store by done. by rewrite Hs1.
    + apply (pending_ok_same s); cbn; [done|done|rewrite Ec, pending_gauge_app; cbn; lia|by rewrite Hs1].
Qed.

(** The gauge of parked terminals is exact: whatever sequence of finishes,
    retries, stops, halts, subscriber changes and janitor ticks runs, it equals
    the number of parked terminals, and each of them belongs to a run that is
    [terminal_pending]. *)
Theorem pending_gauge_exact ops (s : State) :
  (forall n s, pending_ok s -> pending_ok (env n s)) -> pending_ok s -> pending_ok (exec_ops ops s).
Proof.
  intros Henv. revert s. induction ops as [|op ops IH]; intros s Hok; [done|]. apply IH.
  pose proof (quiet_ops s op) as Hq. destruct op as [rid op|rid|rid|rid| | | |];
    try (destruct Hq as (E1 & E2 & E3); apply (pending_ok_same s); by rewrite ?E1, ?E2, ?E3); cbn.
  - by apply finish_pending.
  - destruct (retry_pending_terminal rid s) as [s1 o] eqn:E. by eapply retry_pending.
  - destruct (stop_spec rid s) as (E1 & E2 & [E|(r & Hr & Hs & E)]).
    + apply (pending_ok_same s); by rewrite ?E1, ?E2, ?E.
    + apply (pending_ok_step s _ rid); rewrite ?E1, ?E2, ?E; try done.
      * intros id Hne. by apply alter_run_other.
      * eapply pending_none; [done|exact Hr|by rewrite Hs].
  - by apply mark_pending_ok.
Qed.

(** ** The retry loop stops *)

Definition parked_until (deadline : Z) (run_id : string) (s : State) : Prop :=
  forall p, ts_pending s !! run_id = Some p -> (pt_deadline p <= deadline)%Z.

Lemma retry_failed_spec run_id (s s' : State) :
  retry_pending_terminal run_id s = (s', PRetryFailed) ->
  ts_pending s' = ts_pending s /\ ts_ticks s' = ts_ticks s + 4 /\ ts_store s' = ts_store s /\
  exists p, ts_pending s !! run_id = Some p /\ (instants (ts_ticks s) < pt_deadline p)%Z.
Proof.
  unfold Terminal.retry_pending_terminal. intros Hr.
  destruct (ts_pending s !! run_id) as [p|] eqn:Hp; [|done].
  destruct (gs_runs (ts_store s) !! run_id) as [run|]; [|done]. destruct (negb _); [done|].
  destruct (Z.leb_spec (pt_deadline p) (instants (ts_ticks s))); [done|].
  destruct (terminal_commit _ _ _ _ _ s) as [s1 [seqs|error]] eqn:Hc; [done|].
  apply terminal_commit_spec in Hc as (Hs1 & (_ & Ep & _) & Ht & _).
  destruct (str_eqb (tce_code error) "transition_conflict"); [done|]. injection Hr as <-.
  cbn. rewrite Ep, Ht. split_and!; [done..|]. by exists p.
Qed.

(** The retry of a parked terminal stops: once the clock is past the
    deadline it was parked with, at the latest, the loop ends with the terminal
    committed, superseded, in conflict or expired, whatever storage and the
    other threads do in between. *)
Theorem retry_loop_stops deadline limit fuel run_id (s : State) :
  (forall n s, ts_ticks s <= ts_ticks (env n s)) ->
  (forall n s, parked_until deadline run_id s -> parked_until deadline run_id (env n s)) ->
  (forall j, limit <= j -> (deadline <= instants j)%Z) ->
  parked_until deadline run_id s -> limit <= ts_ticks s + 4 * fuel ->
  exists o, snd (terminal_retry_loop run_terminal times instants config env (S fuel) run_id s) = Some o /\
    o <> PRetryFailed.
Proof.
  intros Hticks Hparked Hclock. revert s. induction fuel as [|fuel IH]; intros s Hp Hlim.
  - cbn. destruct (retry_pending_terminal run_id (env 0 s)) as [s1 []] eqn:Hr;
      try (by eexists). apply retry_failed_spec in Hr as (_ & _ & _ & p & Hlook & Hlt).
    pose proof (Hparked 0 s Hp p Hlook). pose proof (Hticks 0 s).
    pose proof (Hclock (ts_ticks (env 0 s)) ltac:(lia)). lia.
  - cbn [terminal_retry_loop]. destruct (retry_pending_terminal run_id (env (S fuel) s)) as [s1 []] eqn:Hr;
      try (by eexists). apply retry_failed_spec in Hr as (Ep & Et & _ & _).
    apply IH; [|pose proof (Hticks (S fuel) s); lia].
    unfold parked_until. rewrite Ep. by apply Hparked.
Qed.

End Env.

(** ** The reason of a stop *)

(** A client that leaves after the stop replaces the reason the stop recorded,
    while the cancellation keeps its first reason. *)
Theorem disconnect_replaces_stop_reason run_id run h (s : State) :
  gs_runs (ts_store s) !! run_id = Some run -> rr_status run = "started" ->
  ts_handles s !! run_id = Some h -> h_count h = 1%Z -> h_policy h = CancelOnDisconnect ->
  h_terminal h = false -> h_notified h = false -> cn_requested (h_cancel h) = None ->
  let s' := detach_subscriber {| sg_run_id := run_id; sg_armed := true |} (fst (stop run_id s)) in
  exists h', ts_handles s' !! run_id = Some h' /\ h_cancel_reason h' = Some "client_disconnect" /\
    cn_requested (h_cancel h') = Some Requested.
Proof.
  intros Hrun Hst Hh Hcount Hpol Hterm Hnot Hreq s'. subst s'. unfold stop.
  rewrite Hh, Hrun, Hst, str_eqb_refl. unfold detach_subscriber. cbn. rewrite lookup_insert_eq. unfold drop_guard. cbn.
  rewrite Hcount, Hpol, Hterm, Hnot. change (saturating_sub 1 1) with 0%Z. cbn. rewrite lookup_insert_eq.
  eexists. split_and!; [done|done|]. cbn. by rewrite Hreq.
Qed.

End Spec.

(** ** Witnesses *)

Module TerminalExample.
#[local] Existing Instance CompactText.compact_text.
#[local] Existing Instance Content.derived_serde.
Import Delivery.DeliveryExample.

(** Storage that accepts one event and numbers it, and storage that is down. *)
Definition append (seq : Z) (payload : Json) (d : list Json) : list Json * result Json StorageError :=
  (d ++ [payload], Ok (jobj [("events", JArray [JArray [jint seq]])])).
Definition down (payload : Json) (d : list Json) : list Json * result Json StorageError :=
  (d, Err {| se_code := "unavailable"; se_message := "disk full" |}).

Definition config0 : TerminalConfig := {|
  tc_persistence := true; tc_max_event_bytes := 1000; tc_max_events_per_run := 10;
  tc_terminal_persist_retries := 2; tc_terminal_commit_retry_window := 30; tc_terminal_run_ttl := 100 |}.

Definition handle0 : RunHandle := {|
  h_cancel := cancellation_new; h_terminal_at := None; h_permit := true; h_terminal := false;
  h_cancel_reason := None; h_count := 1; h_notified := false; h_policy := CancelOnDisconnect;
  h_tool_cancel := false; h_host := HostReady true; h_authority := true |}.

Definition start (status : string) : TState (D := list Json) := {|
  ts_store := store0 status; ts_durable := []; ts_handles := {["r1" := handle0]}; ts_pending := ∅;
  ts_previews := ∅; ts_contexts := (∅, ∅); ts_trace := []; ts_counts := []; ts_halting := false;
  ts_ids := 0; ts_ticks := 0 |}.

Definition ids (n : nat) : string := "e" +:+ pretty n.
Definition clock (n : nat) : Z := Z.of_nat n.
Definition alone (n : nat) (s : TState (D := list Json)) : TState := s.

Definition cancel0 (s : TState (D := list Json)) :=
  commit_ended_once (append 1) ids clock clock config0 "r1" "cancelled" "run.cancelled" JNull s.

Lemma terminal_durable_before_visible_witness :
  exists payload events, ts_trace (fst (cancel0 (start "started"))) =
    TStored payload true :: broadcast "r1" events (ts_store (fst (cancel0 (start "started")))).
Proof.
  apply (terminal_durable_before_visible (append 1) ids clock clock config0 "r1" "cancelled" "run.cancelled"
           JNull (start "started") (fst (cancel0 (start "started"))) Committed); [|reflexivity].
  refine (eq_trans (surjective_pairing _) (f_equal (pair (fst (cancel0 (start "started")))) (_ : snd _ = _))).
  vm_compute. reflexivity.
Defined.

Lemma finish_ends_run_witness :
  run_closed "r1" "cancelled" (finish down down ids clock clock config0 alone "r1" (FCancelled "requested")
    (start "started")).
Proof.
  destruct (finish_ends_run down down ids clock clock config0 alone "r1" (FCancelled "requested") (start "started")) as [_ Hf].
  apply Hf; [done|]. split; [by eexists|]. exists (run0 "started"). split; reflexivity.
Defined.

Lemma terminal_is_final_witness :
  holds "r1" (run0 "completed") (exec_ops down down ids clock clock config0 alone
    [OFinish "r1" (FFailed JNull); OStop "r1"; ORetry "r1"] (start "completed")).
Proof. by apply (terminal_is_final down down ids clock clock config0 alone). Defined.

Lemma pending_gauge_exact_witness :
  pending_ok (exec_ops down down ids clock clock config0 alone
    [OFinish "r1" (FCancelled "requested"); ORetry "r1"] (start "started")).
Proof.
  apply (pending_gauge_exact down down ids clock clock config0 alone); [done|].
  split; [reflexivity|apply map_Forall_empty].
Defined.

Definition parked : TState (D := list Json) :=
  finish down down ids clock clock config0 alone "r1" (FCancelled "requested") (start "started").

Lemma retry_loop_stops_witness :
  exists o, snd (terminal_retry_loop down clock clock config0 alone 20 "r1" parked) = Some o /\ o <> PRetryFailed.
Proof.
  apply (retry_loop_stops down clock clock config0 alone 60 60 19 "r1" parked); [done|done| | |].
  - unfold clock. lia.
  - intros p Hp. vm_compute in Hp. injection Hp as <-. cbn. lia.
  - lia.
Defined.

(** What storage numbered 7 is in the log as 7 and was broadcast as 1. *)
Example broadcast_keeps_reserved_seq :
  let s := fst (commit_ended_once (append 7) ids clock clock config0 "r1" "failed" "run.failed" JNull
                  (start "started")) in
  omap (fun x => match x with TPublished e => Some (ge_seq e) | _ => None end) (ts_trace s) = [1%Z] /\
  (map ge_seq ∘ rr_events <$> gs_runs (ts_store s) !! "r1") = Some [7%Z].
Proof. vm_compute. split; reflexivity. Qed.

End TerminalExample.
