(* ===== verification/TelegramRender.v ===== *)
(** * Rendering events as Telegram text ([src/gateway/telegram_render.rs])

    Splitting text into messages of at most 4096 UTF-16 code units, and the
    per-run renderer that turns canonical events into sends and edits. *)

From S2P Require Import Prelude Utf8 Json.

Definition TELEGRAM_MAX_UTF16 : Z := 4096.

Inductive RenderAction :=
| Send (text : string)
| SendDelta (text : string)
| Edit (message_id : Z) (text : string).

Record EventRenderer := { current_message_id : option Z; current_text : string }.

Definition renderer_new : EventRenderer :=
  {| current_message_id := None; current_text := EmptyString |}.

Definition note_sent (r : EventRenderer) (message_id : Z) : EventRenderer :=
  {| current_message_id := Some message_id; current_text := current_text r |}.

(** ** Chunks *)

(** [char::len_utf16]: a character outside the basic plane, four bytes long in
    UTF-8, takes two code units. *)
Definition len_utf16 (c : char) : Z := if (4 <=? length c)%nat then 2 else 1.

Definition utf16_of (cs : list char) : Z := fold_right (fun c n => len_utf16 c + n)%Z 0%Z cs.
Definition utf16_len (text : string) : Z := utf16_of (chars text).

Fixpoint chunk_loop (chunks : list string) (current : string) (current_len : Z) (cs : list char) :
    list string :=
  match cs with
  | [] => if is_empty current then chunks else chunks ++ [current]
  | ch :: cs' =>
      let ch_len := len_utf16 ch in
      if (TELEGRAM_MAX_UTF16 <? current_len + ch_len)%Z && negb (is_empty current) then
        chunk_loop (chunks ++ [current]) (EmptyString +:+ b2s ch) (0 + ch_len) cs'
      else chunk_loop chunks (current +:+ b2s ch) (current_len + ch_len) cs'
  end.

Definition chunk_text (text : string) : list string :=
  if (utf16_len text <=? TELEGRAM_MAX_UTF16)%Z then [text]
  else chunk_loop [] EmptyString 0 (chars text).

Definition send_line (text : string) : list RenderAction := map Send (chunk_text text).

(** ** Texts taken from an event's data *)

Definition or_else {A} (a b : option A) : option A := match a with Some _ => a | None => b end.

Definition str_or (o : option Json) (otherwise : string) : string := default otherwise (o ≫= as_str).

Definition delta_text (data : Json) : string :=
  str_or (or_else (jget "delta" data) (jget "text" data)) EmptyString.

Definition tool_name (data : Json) : string :=
  str_or (or_else (or_else (jget "tool_call" data ≫= jget "name") (jget "tool_name" data))
            (jget "name" data)) "unknown tool".

Definition approval_state (data : Json) : string :=
  str_or (or_else (jget "state" data) (jget "decision" data)) "resolved".

Definition error_message (data : Json) : string :=
  str_or (or_else (or_else (or_else (or_else (jget "error_message" data) (jget "message" data))
                              (jget "error" data)) (jget "error_code" data))
            (jget "recovery_reason" data)) "run failed".

(** ** The renderer *)

(** Edit of the current message with the first chunk and sends of the others,
    or sends of all when there is no message yet; the list of chunks is never
    empty ([chunk_text_nonempty]). *)
Definition chunk_actions (current : option Z) (chunks : list string) : list RenderAction :=
  match current, chunks with
  | Some message_id, first :: rest => Edit message_id first :: map SendDelta rest
  | _, _ => map SendDelta chunks
  end.

Definition flush (r : EventRenderer) : EventRenderer * list RenderAction :=
  if is_empty (current_text r) then (r, [])
  else
    ({| current_message_id := current_message_id r; current_text := EmptyString |},
     chunk_actions (current_message_id r) (chunk_text (current_text r))).

Definition on_delta (r : EventRenderer) (delta : string) : EventRenderer * list RenderAction :=
  if is_empty delta then (r, [])
  else
    let chunks := chunk_text (current_text r +:+ delta) in
    ({| current_message_id := current_message_id r; current_text := default EmptyString (last chunks) |},
     chunk_actions (current_message_id r) chunks).

Definition on_event (r : EventRenderer) (event_type : string) (data : Json) :
    EventRenderer * list RenderAction :=
  if str_eqb event_type "model.delta" then on_delta r (delta_text data)
  else if str_eqb event_type "message.delta" then
    let delta := delta_text data in
    flush (if is_empty delta then r
           else {| current_message_id := current_message_id r; current_text := delta |})
  else if str_eqb event_type "tool.requested" then
    (r, send_line ("[tool] " +:+ tool_name data +:+ " requested"))
  else if str_eqb event_type "tool.completed" then
    (r, send_line ("[tool] " +:+ tool_name data +:+ " completed"))
  else if str_eqb event_type "approval.required" then
    (r, send_line ("[approval] " +:+ tool_name data +:+ " requires approval (pending)"))
  else if str_eqb event_type "approval.resolved" then
    (r, send_line ("[approval] " +:+ tool_name data +:+ ": " +:+ approval_state data))
  else if str_eqb event_type "compact.started" then (r, send_line "[compact] started")
  else if str_eqb event_type "compact.completed" then (r, send_line "[compact] completed")
  else if str_eqb event_type "run.completed" then (r, send_line "[done]")
  else if str_eqb event_type "run.failed" then (r, send_line ("[failed] " +:+ error_message data))
  else if str_eqb event_type "run.cancelled" then (r, send_line "[stopped]")
  else (r, []).

(** ** Chunking is exact *)

Lemma len_utf16_pos c : (1 <= len_utf16 c <= 2)%Z.
Proof. unfold len_utf16. case_match; lia. Qed.

Lemma utf16_of_app a b : utf16_of (a ++ b) = (utf16_of a + utf16_of b)%Z.
Proof.
  unfold utf16_of. induction a as [|c a IH]; [done|]. cbn [app fold_right]. rewrite IH. lia.
Qed.

(** The chunks as lists of characters. *)
Fixpoint char_chunks (current : list char) (cs : list char) : list (list char) :=
  match cs with
  | [] => match current with [] => [] | _ => [current] end
  | ch :: cs' =>
      if (TELEGRAM_MAX_UTF16 <? utf16_of current + len_utf16 ch)%Z && negb (bool_decide (current = [])) then
        current :: char_chunks [ch] cs'
      else char_chunks (current ++ [ch]) cs'
  end.

Lemma of_chars_snoc cs c : of_chars (cs ++ [c]) = of_chars cs +:+ b2s c.
Proof.
  apply s2b_inj. unfold of_chars. rewrite s2b_app, !s2b_b2s, concat_app. cbn. by rewrite app_nil_r.
Qed.

Lemma of_chars_empty cs : Forall (fun c => c <> []) cs -> is_empty (of_chars cs) = bool_decide (cs = []).
Proof.
  intros H. destruct H as [|c cs Hc _]; [done|]. rewrite bool_decide_eq_false_2 by done.
  destruct c as [|b c]; [done|]. destruct (of_chars _) eqn:E; [|done]. exfalso.
  apply (f_equal s2b) in E. unfold of_chars in E. rewrite s2b_b2s in E. discriminate E.
Qed.

Lemma chunk_loop_eq chunks current cs :
  Forall (fun c => c <> []) current -> Forall (fun c => c <> []) cs ->
  chunk_loop chunks (of_chars current) (utf16_of current) cs =
    chunks ++ map of_chars (char_chunks current cs).
Proof.
  intros Hc Hcs. revert chunks current Hc. induction Hcs as [|c cs Hne _ IH]; intros chunks current Hc;
    cbn [chunk_loop char_chunks].
  - rewrite of_chars_empty by done. destruct current; [by rewrite app_nil_r|done].
  - rewrite of_chars_empty by done.
    change (EmptyString +:+ b2s c) with (of_chars [] +:+ b2s c). rewrite <- !of_chars_snoc. cbn [app].
    replace (0 + len_utf16 c)%Z with (utf16_of [c]) by (cbn; lia).
    replace (utf16_of current + len_utf16 c)%Z with (utf16_of (current ++ [c]))
      by (rewrite utf16_of_app; cbn; lia).
    assert (Forall (fun c => c <> []) (current ++ [c])) by (apply Forall_app; auto).
    case_match; rewrite IH by auto; [|done]. by rewrite <- app_assoc.
Qed.

Lemma char_chunks_concat current cs : concat (char_chunks current cs) = current ++ cs.
Proof.
  revert current. induction cs as [|c cs IH]; intros current; cbn [char_chunks].
  - destruct current; cbn; by rewrite ?app_nil_r.
  - case_match; cbn [concat]; rewrite IH; [done|]. by rewrite <- app_assoc.
Qed.

(** Every chunk fits, and is full up to the character that follows it. *)
Lemma char_chunks_bound current cs :
  (utf16_of current <= TELEGRAM_MAX_UTF16)%Z ->
  Forall (fun k => k <> [] /\ (utf16_of k <= TELEGRAM_MAX_UTF16)%Z) (char_chunks current cs).
Proof.
  revert current. induction cs as [|c cs IH]; intros current Hb; cbn [char_chunks].
  - destruct current; repeat constructor; done.
  - pose proof (len_utf16_pos c).
    destruct ((TELEGRAM_MAX_UTF16 <? utf16_of current + len_utf16 c)%Z && negb (bool_decide (current = []))) eqn:E.
    + apply andb_true_iff in E as [_ E%negb_true_iff%bool_decide_eq_false]. constructor; [done|].
      apply IH. cbn. unfold TELEGRAM_MAX_UTF16. lia.
    + apply IH. rewrite utf16_of_app. cbn. apply andb_false_iff in E as [E|E].
      * apply Z.ltb_ge in E. lia.
      * apply negb_false_iff, bool_decide_eq_true in E. subst current. cbn. unfold TELEGRAM_MAX_UTF16. lia.
Qed.

Lemma char_chunks_full current cs :
  (utf16_of current <= TELEGRAM_MAX_UTF16)%Z ->
  forall i k, S i < length (char_chunks current cs) -> char_chunks current cs !! i = Some k ->
  (TELEGRAM_MAX_UTF16 - 1 <= utf16_of k)%Z.
Proof.
  revert current. induction cs as [|c cs IH]; intros current Hb i k; cbn [char_chunks].
  - destruct current; cbn; lia.
  - pose proof (len_utf16_pos c). case_match eqn:E.
    + apply andb_true_iff in E as [E%Z.ltb_lt _]. destruct i as [|i]; cbn [length lookup list_lookup].
      * intros _ [= <-]. lia.
      * intros Hl Hk. apply (IH [c] ltac:(cbn; unfold TELEGRAM_MAX_UTF16; lia) i k); [lia|exact Hk].
    + apply IH. rewrite utf16_of_app. cbn. apply andb_false_iff in E as [E|E].
      * apply Z.ltb_ge in E. lia.
      * apply negb_false_iff, bool_decide_eq_true in E. subst current. cbn. unfold TELEGRAM_MAX_UTF16. lia.
Qed.

Definition joined (l : list string) : string := String.concat EmptyString l.

Lemma joined_of_chars ks : joined (map of_chars ks) = of_chars (concat ks).
Proof.
  induction ks as [|k ks IH]; [done|]. unfold joined in *. cbn [map concat].
  rewrite CompactText.concat_nil_cons, IH. apply s2b_inj. unfold of_chars.
  by rewrite s2b_app, !s2b_b2s, concat_app.
Qed.

Lemma chars_nonempty s : Forall (fun c => c <> []) (chars s).
Proof. apply Forall_forall. intros c. apply split_chars_nonempty. Qed.

(** The chunks of a long text are those of its characters. *)
Lemma chunk_text_long text :
  (TELEGRAM_MAX_UTF16 < utf16_len text)%Z ->
  chunk_text text = map of_chars (char_chunks [] (chars text)).
Proof.
  intros Hl. unfold chunk_text. case_match; bool_to_prop; [lia|].
  apply (chunk_loop_eq [] []); [constructor|apply chars_nonempty].
Qed.

Lemma chunk_text_join text : joined (chunk_text text) = text.
Proof.
  destruct (Z_le_gt_dec (utf16_len text) TELEGRAM_MAX_UTF16) as [Hle|Hgt].
  - unfold chunk_text. case_match; bool_to_prop; [done|lia].
  - rewrite chunk_text_long by lia. rewrite joined_of_chars, char_chunks_concat. apply of_chars_chars.
Qed.

Lemma chunk_text_nonempty text : chunk_text text <> [].
Proof.
  intros E. destruct (Z_le_gt_dec (utf16_len text) TELEGRAM_MAX_UTF16) as [Hle|Hgt].
  - unfold chunk_text in E. case_match; bool_to_prop; [done|lia].
  - pose proof (chunk_text_join text) as Hj. rewrite E in Hj. rewrite <- Hj in Hgt. vm_compute in Hgt. done.
Qed.

Lemma chunk_text_short text : (utf16_len text <= TELEGRAM_MAX_UTF16)%Z -> chunk_text text = [text].
Proof. intros H. unfold chunk_text. case_match; bool_to_prop; [done|lia]. Qed.

(** Splitting a text loses and adds nothing, never splits a character, and
    gives messages of at most 4096 UTF-16 code units, all but the last of
    which are full up to one unit. *)
Theorem chunk_text_correct text :
  str_valid text = true ->
  joined (chunk_text text) = text /\ chunk_text text <> [] /\
  Forall (fun k => str_valid k = true /\ (utf16_len k <= TELEGRAM_MAX_UTF16)%Z) (chunk_text text) /\
  (forall i k, S i < length (chunk_text text) -> chunk_text text !! i = Some k ->
     (TELEGRAM_MAX_UTF16 - 1 <= utf16_len k)%Z).
Proof.
  intros Hv. split; [apply chunk_text_join|]. split; [apply chunk_text_nonempty|].
  destruct (Z_le_gt_dec (utf16_len text) TELEGRAM_MAX_UTF16) as [Hle|Hgt].
  { rewrite chunk_text_short by done. split; [by repeat constructor|]. intros [|i] k; cbn; lia. }
  rewrite chunk_text_long by lia. pose proof (chars_wf text Hv) as Hwf.
  assert (Forall (Forall (fun c => wf_char c = true)) (char_chunks [] (chars text))) as Hks.
  { apply Forall_forall. intros k Hk. apply Forall_forall. intros c Hc.
    rewrite Forall_forall in Hwf. apply Hwf. change (chars text) with ([] ++ chars text).
    rewrite <- (char_chunks_concat [] (chars text)). apply list_elem_of_In, in_concat. exists k. split; by apply list_elem_of_In. }
  assert (forall k, k ∈ char_chunks [] (chars text) -> utf16_len (of_chars k) = utf16_of k) as Hlen.
  { intros k Hk. unfold utf16_len. rewrite chars_of_chars; [done|]. rewrite Forall_forall in Hks. by apply Hks. }
  pose proof (char_chunks_bound [] (chars text) ltac:(done)) as Hb. split.
  - apply Forall_map, Forall_forall. intros k Hk. rewrite Forall_forall in Hks, Hb.
    rewrite Hlen by done. split; [by apply of_chars_valid, Hks|by apply Hb].
  - intros i k Hi Hk. rewrite length_map in Hi. rewrite list_lookup_fmap in Hk.
    destruct (char_chunks [] (chars text) !! i) as [k0|] eqn:E; [|done]. injection Hk as <-.
    rewrite Hlen by (by eapply list_elem_of_lookup_2). by apply (char_chunks_full [] (chars text) ltac:(done) i).
Qed.

Lemma chunk_text_correct_witness :
  str_valid "hello" = true /\ joined (chunk_text "hello") = "hello" /\ chunk_text "hello" <> [] /\
  Forall (fun k => str_valid k = true /\ (utf16_len k <= TELEGRAM_MAX_UTF16)%Z) (chunk_text "hello") /\
  (forall i k, S i < length (chunk_text "hello") -> chunk_text "hello" !! i = Some k ->
     (TELEGRAM_MAX_UTF16 - 1 <= utf16_len k)%Z).
Proof. split; [reflexivity|]. apply (chunk_text_correct "hello"). reflexivity. Defined.
