(* ===== verification/Telegram.v ===== *)
(** * The Telegram adapter ([src/gateway/telegram.rs])

    Identities and commands, allowlists and duplicate windows, the retry
    policy of the Bot API client, the first-boot drain and the poll loop, the
    reset epochs that silence the renderers of a wiped conversation, and the
    per-run renderer with its durable catch-up.  Replies of the Bot API and of
    storage, clock readings and stop flags are streams indexed by the number
    of the request; what other tasks do to the epochs between two steps is a
    function argument. *)

From S2P Require Import Prelude Utf8 Json Domain Store TelegramRender.
From stdpp Require Import pretty gmap.

Module Telegram.

(** ** Bot API data *)

Record TgUser := { tu_id : Z; tu_is_bot : bool; tu_first_name : option string; tu_username : option string }.
Record TgChat := { tch_id : Z; tch_type : string; tch_title : option string }.

Record TgMessage := {
  tm_message_id : Z;
  tm_date : Z;
  tm_chat : TgChat;
  tm_from : option TgUser;
  tm_text : option string;
  tm_message_thread_id : option Z;
  tm_is_topic_message : option bool
}.

Record TgUpdate := { up_update_id : Z; up_message : option TgMessage }.

Inductive TelegramError :=
| Api (error_code : Z) (description : string)
| RateLimited (retry_after : Z)
| Server (status : Z)
| Transport (message : string)
| ResponseTooLarge (limit : Z).

Definition telegram_error_text (e : TelegramError) : string :=
  match e with
  | Api code description => "Telegram API error " +:+ pretty code +:+ ": " +:+ description
  | RateLimited retry_after => "Telegram rate limited; retry after " +:+ pretty retry_after +:+ "s"
  | Server status => "Telegram server error (HTTP " +:+ pretty status +:+ ")"
  | Transport message => "Telegram transport error: " +:+ message
  | ResponseTooLarge limit => "Telegram response body exceeds the " +:+ pretty limit +:+ "-byte cap"
  end.

(** ** Identities *)

Definition session_id_for (account : string) (chat_id : Z) (thread_id : option Z) : string :=
  let thread := match thread_id with Some id => pretty id | None => EmptyString end in
  "telegram:" +:+ account +:+ ":" +:+ pretty chat_id +:+ ":" +:+ thread.

Definition control_session_id (account : string) : string := "telegram-control:" +:+ account.
Definition run_consumer (run_id : string) : string := "telegram:run:" +:+ run_id.

(** [str::parse::<i64>]: an optional sign, then digits, within range. *)
Definition parse_i64 (s : string) : option Z :=
  let value :=
    match s2b s with
    | b :: bs =>
        if bool_decide (b = Byte.x2d) then Z.opp <$> parse_digits bs
        else if bool_decide (b = Byte.x2b) then parse_digits bs
        else parse_digits (b :: bs)
    | [] => None
    end in
  n ← value; if is_i64 n then Some n else None.

(** The text before the first colon, and what follows it. *)
Fixpoint split_colon (bs : list byte) : list byte * option (list byte) :=
  match bs with
  | [] => ([], None)
  | b :: bs' =>
      if bool_decide (b = Byte.x3a) then ([], Some bs')
      else let '(l, r) := split_colon bs' in (b :: l, r)
  end.

Definition strip_prefix (prefix : string) (s : string) : option (list byte) :=
  if starts_with (s2b s) (s2b prefix) then Some (drop (length (s2b prefix)) (s2b s)) else None.

Definition parse_session_identity (session_id : string) : option (Z * option Z) :=
  rest ← strip_prefix "telegram:" session_id;
  let '(_, after_account) := split_colon rest in
  chat_and_thread ← after_account;
  let '(chat, after_chat) := split_colon chat_and_thread in
  chat_id ← parse_i64 (b2s chat);
  let thread := default [] after_chat in
  if bool_decide (thread = []) then Some (chat_id, None)
  else thread_id ← parse_i64 (b2s thread); Some (chat_id, Some thread_id).

(** ** Commands *)

(** [splitn(2, p)]: the characters before the first match, and those after. *)
Fixpoint split_first (p : char -> bool) (cs : list char) : list char * option (list char) :=
  match cs with
  | [] => ([], None)
  | c :: cs' => if p c then ([], Some cs') else let '(l, r) := split_first p cs' in (c :: l, r)
  end.

Definition is_at (c : char) : bool := bool_decide (c = s2b "@").

(** The command name of a token: before the bot's name, in lower case. *)
Definition command_name (token : list char) : string :=
  to_ascii_lowercase (of_chars (fst (split_first is_at token))).

Definition strip_slash (cs : list char) : option (list char) :=
  match cs with
  | c :: rest => if bool_decide (c = s2b "/") then Some rest else None
  | [] => None
  end.

Definition known_commands : list string :=
  ["new"; "stop"; "status"; "compact"; "approve"; "deny"; "approvals"].

Definition workspace_command (text : string) : option (string * string) :=
  rest ← strip_slash (trim_start_matches is_whitespace (chars text));
  let '(token, args) := split_first is_whitespace rest in
  if str_eqb (command_name token) "workspace"
  then Some (command_name token, of_chars (default [] args)) else None.

Definition plain_command (text : string) : option (string * string) :=
  rest ← strip_slash (trim_chars is_whitespace (chars text));
  let '(token, args) := split_first is_whitespace rest in
  if bool_decide (command_name token ∈ known_commands)
  then Some (command_name token, trim (of_chars (default [] args))) else None.

Definition parse_command (text : string) : option string * string :=
  match workspace_command text with
  | Some (name, args) => (Some name, args)
  | None =>
      match plain_command text with
      | Some (name, args) => (Some name, args)
      | None => (None, trim text)
      end
  end.

Record InboundEnvelope := {
  platform : string;
  profile : string;
  account_id : string;
  chat_id : string;
  thread_id : option string;
  user_id : string;
  message_id : string;
  session_hint : option string;
  content : string;
  attachments : list Json;
  command : option string;
  reply_to : option string;
  received_at : Z;
  metadata : Json
}.

Definition envelope_from_message (update : TgUpdate) (message : TgMessage) (account : string)
    (now : Z) : option InboundEnvelope :=
  from ← tm_from message;
  let text := default EmptyString (tm_text message) in
  if is_empty (trim text) then None
  else
    let thread := if str_eqb (tch_type (tm_chat message)) "private" then None
                  else tm_message_thread_id message in
    let '(command, content) := parse_command text in
    Some {|
      platform := "telegram"; profile := "telegram"; account_id := account;
      chat_id := pretty (tch_id (tm_chat message));
      thread_id := pretty <$> thread;
      user_id := pretty (tu_id from);
      message_id := pretty (tch_id (tm_chat message)) +:+ ":" +:+ pretty (tm_message_id message);
      session_hint := None; content := content; attachments := []; command := command;
      reply_to := None; received_at := now;
      metadata := jobj [
        ("update_id", jint (up_update_id update)); ("message_id", jint (tm_message_id message));
        ("chat_type", JString (tch_type (tm_chat message)));
        ("is_topic_message", match tm_is_topic_message message with Some b => JBool b | None => JNull end)] |}.

(** ** Allowlists and duplicate windows *)

Record Allowlist := { accounts : list string; chats : list Z; users : list Z }.

Definition allowlist_from_config (allowed_accounts : list string) (allowed_chats allowed_users : list Z) :
    Allowlist :=
  {| accounts := map to_ascii_lowercase allowed_accounts; chats := allowed_chats; users := allowed_users |}.

Definition account_allowed (a : Allowlist) (username : string) : bool :=
  existsb (fun allowed => str_eqb allowed (to_ascii_lowercase username)) (accounts a).
Definition chat_allowed (a : Allowlist) (chat : Z) : bool := bool_decide (chat ∈ chats a).
Definition user_allowed (a : Allowlist) (user : Z) : bool := bool_decide (user ∈ users a).

(** [push_bounded] on a queue whose front is the head of the list. *)
Definition push_bounded {A} (window : list A) (value : A) (capacity : nat) : list A :=
  (if (capacity <=? length window)%nat then tail window else window) ++ [value].

Record DedupWindows := { update_ids : list Z; message_keys : list string; capacity : nat }.

Definition dedup_new (capacity : nat) : DedupWindows :=
  {| update_ids := []; message_keys := []; capacity := capacity |}.

Definition seen_update (w : DedupWindows) (update_id : Z) : DedupWindows * bool :=
  if bool_decide (update_id ∈ update_ids w) then (w, true)
  else ({| update_ids := push_bounded (update_ids w) update_id (capacity w);
           message_keys := message_keys w; capacity := capacity w |}, false).

Definition seen_message (w : DedupWindows) (key : string) : DedupWindows * bool :=
  if bool_decide (key ∈ message_keys w) then (w, true)
  else ({| update_ids := update_ids w;
           message_keys := push_bounded (message_keys w) key (capacity w); capacity := capacity w |}, false).

(** ** Routing of one update *)

Inductive Route :=
| RNew | RWorkspace | RStop | RStatus | RCompact | RApprovals
| RApproval (approved : bool)
| RAdmit.

Definition route_of (command : option string) : Route :=
  match command with
  | Some c =>
      if str_eqb c "new" then RNew
      else if str_eqb c "workspace" then RWorkspace
      else if str_eqb c "stop" then RStop
      else if str_eqb c "status" then RStatus
      else if str_eqb c "compact" then RCompact
      else if str_eqb c "approvals" then RApprovals
      else if str_eqb c "approve" then RApproval true
      else if str_eqb c "deny" then RApproval false
      else RAdmit
  | None => RAdmit
  end.

(** What an update is handed to: the handler, the session and the envelope. *)
Record Routed := { ro_route : Route; ro_session : string; ro_envelope : InboundEnvelope }.

Definition handle_update (allowlist : Allowlist) (account : string) (now : Z) (dedup : DedupWindows)
    (update : TgUpdate) : DedupWindows * option Routed :=
  match up_message update with
  | None => (dedup, None)
  | Some message =>
      match envelope_from_message update message account now with
      | None => (dedup, None)
      | Some envelope =>
          if negb (account_allowed allowlist account) then (dedup, None)
          else if negb (chat_allowed allowlist (tch_id (tm_chat message))) then (dedup, None)
          else match tm_from message with
          | None => (dedup, None)
          | Some from =>
              if negb (user_allowed allowlist (tu_id from)) then (dedup, None)
              else
                let key := pretty (tch_id (tm_chat message)) +:+ ":" +:+ pretty (tm_message_id message) in
                match seen_message dedup key with
                | (dedup, true) => (dedup, None)
                | (dedup, false) =>
                    (dedup, Some {|
                       ro_route := route_of (command envelope);
                       ro_session := session_id_for account (tch_id (tm_chat message))
                                       (tm_message_thread_id message);
                       ro_envelope := envelope |})
                end
          end
      end
  end.

(** ** The client's retry policy *)

Record ApiPolicy := { max_429_retries : nat; max_5xx_retries : nat; max_429_backoff : Z }.

Section Request.
Context {A : Type} (policy : ApiPolicy) (request_once : nat -> result A TelegramError).

(** The loop with its two budgets: the number of round trips made, the delays
    slept in milliseconds, and the result.  A turn that goes round again takes
    one from a budget, so their sum bounds the turns. *)
Fixpoint request_loop (fuel calls remaining_429 remaining_5xx : nat) (delays : list Z) :
    option (nat * list Z * result A TelegramError) :=
  match fuel with
  | O => None
  | S fuel' =>
      match request_once calls, remaining_429, remaining_5xx with
      | Ok value, _, _ => Some (S calls, delays, Ok value)
      | Err (RateLimited retry_after), S remaining_429, _ =>
          let delay := Z.min (max_429_backoff policy) (1000 * Z.max retry_after 1) in
          request_loop fuel' (S calls) remaining_429 remaining_5xx (delays ++ [delay])
      | Err (Server _), _, S remaining_5xx =>
          let attempt := max_5xx_retries policy - remaining_5xx in
          let delay := (250 * Z.shiftl 1 (Z.of_nat (Nat.min attempt 4)))%Z in
          request_loop fuel' (S calls) remaining_429 remaining_5xx (delays ++ [delay])
      | Err error, _, _ => Some (S calls, delays, Err error)
      end
  end.

Definition request : option (nat * list Z * result A TelegramError) :=
  request_loop (S (max_429_retries policy + max_5xx_retries policy)) 0
    (max_429_retries policy) (max_5xx_retries policy) [].

End Request.

(** ** The first-boot drain *)

Inductive DrainOutcome := Drained (watermark : Z) | DrainEmpty | DrainFailed.

(** [update_id + 1] on [i64], which wraps around in a release build; a debug
    build panics there. *)
Definition next_update_id (update_id : Z) : Z := if (update_id =? i64_max)%Z then i64_min else (update_id + 1)%Z.

Definition DRAIN_ROUND_BOUND : nat := 100.
Definition DRAIN_ATTEMPTS_PER_ROUND : nat := 3.

Definition drained (drain_offset : option Z) : DrainOutcome :=
  match drain_offset with Some watermark => Drained watermark | None => DrainEmpty end.

Section Drain.
(** The answer to the n-th [getUpdates] at an offset, and the stop flag at its
    n-th reading. *)
Context (get_updates : nat -> option Z -> result (list TgUpdate) TelegramError) (stop : nat -> bool).

(** The attempts of a round: the round ends the drain, fails, or moves the
    offset past what it fetched. *)
Inductive RoundResult := RoundReturn (outcome : DrainOutcome) | RoundOk (drain_offset : option Z) | RoundFailed.

Fixpoint drain_attempts (attempts calls checks : nat) (drain_offset : option Z) :
    RoundResult * nat * nat :=
  match attempts with
  | O => (RoundFailed, calls, checks)
  | S attempts' =>
      if stop checks then (RoundReturn DrainEmpty, calls, S checks)
      else
        match get_updates calls drain_offset with
        | Ok updates =>
            match last updates with
            | Some u => (RoundOk (Some (next_update_id (up_update_id u))), S calls, S checks)
            | None => (RoundReturn (drained drain_offset), S calls, S checks)
            end
        | Err _ => drain_attempts attempts' (S calls) (S checks) drain_offset
        end
  end.

Fixpoint drain_rounds (rounds calls checks : nat) (drain_offset : option Z) : DrainOutcome :=
  match rounds with
  | O => drained drain_offset
  | S rounds' =>
      if stop checks then DrainEmpty
      else
        match drain_attempts DRAIN_ATTEMPTS_PER_ROUND calls (S checks) drain_offset with
        | (RoundReturn outcome, _, _) => outcome
        | (RoundFailed, _, _) => DrainFailed
        | (RoundOk drain_offset, calls, checks) => drain_rounds rounds' calls checks drain_offset
        end
  end.

Definition drop_pending_updates : DrainOutcome := drain_rounds DRAIN_ROUND_BOUND 0 0 None.

End Drain.

(** ** The poll loop *)

(** The poller's own state; [po_handled] records the updates handed on, in
    order, and [po_persisted] the offsets written to storage. *)
Record Poller := {
  po_offset : option Z;
  po_dedup : DedupWindows;
  po_streak : nat;
  po_handled : list (Z * option Routed);
  po_persisted : list Z
}.

Section Poll.
Context (allowlist : Allowlist) (account : string) (unauthorized_failure_bound : nat).

Definition set_offset (offset : option Z) (p : Poller) : Poller :=
  {| po_offset := offset; po_dedup := po_dedup p; po_streak := po_streak p;
     po_handled := po_handled p; po_persisted := po_persisted p |}.
Definition set_streak (streak : nat) (p : Poller) : Poller :=
  {| po_offset := po_offset p; po_dedup := po_dedup p; po_streak := streak;
     po_handled := po_handled p; po_persisted := po_persisted p |}.

(** Writing the offset may fail, which is only logged. *)
Definition persist_offset (stored : bool) (p : Poller) : Poller :=
  match po_offset p with
  | Some offset =>
      {| po_offset := po_offset p; po_dedup := po_dedup p; po_streak := po_streak p;
         po_handled := po_handled p;
         po_persisted := if stored then po_persisted p ++ [offset] else po_persisted p |}
  | None => p
  end.

Definition below_offset (offset : option Z) (update_id : Z) : bool :=
  match offset with Some base => (update_id <? base)%Z | None => false end.

(** One update of a batch, with the time at which it is handled. *)
Definition poll_update (p : Poller) (now : Z) (update : TgUpdate) : Poller :=
  if below_offset (po_offset p) (up_update_id update) then p
  else
    match seen_update (po_dedup p) (up_update_id update) with
    | (dedup, true) =>
        {| po_offset := po_offset p; po_dedup := dedup; po_streak := po_streak p;
           po_handled := po_handled p; po_persisted := po_persisted p |}
    | (dedup, false) =>
        let '(dedup, routed) := handle_update allowlist account now dedup update in
        {| po_offset := Some (next_update_id (up_update_id update)); po_dedup := dedup; po_streak := po_streak p;
           po_handled := po_handled p ++ [(up_update_id update, routed)];
           po_persisted := po_persisted p |}
    end.

(** The updates of a batch up to the one before which the stop flag is set. *)
Fixpoint poll_batch (p : Poller) (batch : list (bool * Z * TgUpdate)) : Poller :=
  match batch with
  | [] => p
  | (stopped, now, update) :: batch' =>
      if stopped then p else poll_batch (poll_update p now update) batch'
  end.

(** What a round sees: the reply to [getUpdates], with for each update the
    stop flag and the time, and whether the offset can be written. *)
Inductive Round :=
| Batch (updates : list (bool * Z * TgUpdate)) (stored : bool)
| Failure (error : TelegramError).

(** One turn of the loop; [true] when the loop goes on. *)
Definition poll_round (p : Poller) (r : Round) : Poller * bool :=
  match r with
  | Batch updates stored => (persist_offset stored (poll_batch (set_streak 0 p) updates), true)
  | Failure (Api code _) =>
      if (code =? 401)%Z then
        let p := set_streak (S (po_streak p)) p in
        (p, negb (unauthorized_failure_bound <=? po_streak p)%nat)
      else (p, true)
  | Failure _ => (p, true)
  end.

(** The rounds until the loop ends or the stop flag is read, and the final
    write of the offset. *)
Fixpoint run_poller (p : Poller) (rounds : list Round) (stored : bool) : Poller :=
  match rounds with
  | [] => persist_offset stored p
  | r :: rounds' =>
      match poll_round p r with
      | (p, true) => run_poller p rounds' stored
      | (p, false) => persist_offset stored p
      end
  end.

(** The start: without a stored offset the pending queue is drained, and the
    drained watermark must be written before anything is handled.  [None]: the
    adapter is disabled for this process. *)
Definition start_poller (offset : option Z) (drop_pending : bool) (drain : DrainOutcome)
    (stored : bool) (capacity : nat) : option Poller :=
  let p := {| po_offset := offset; po_dedup := dedup_new capacity; po_streak := 0;
              po_handled := []; po_persisted := [] |} in
  match offset, drop_pending with
  | None, true =>
      match drain with
      | Drained watermark =>
          if stored then Some (persist_offset true (set_offset (Some watermark) p)) else None
      | DrainEmpty => Some p
      | DrainFailed => None
      end
  | _, _ => Some p
  end.

End Poll.

(** ** Reset epochs *)

Record EpochEntry := { ee_epoch : Z; ee_renderers : Z }.
Abbreviation EpochState := (gmap string EpochEntry).

Definition epoch_default : EpochEntry := {| ee_epoch := 0; ee_renderers := 0 |}.

Definition epoch_capture (epochs : EpochState) (session_id : string) : EpochState * Z :=
  let entry := default epoch_default (epochs !! session_id) in
  (<[session_id := {| ee_epoch := ee_epoch entry; ee_renderers := ee_renderers entry + 1 |}]> epochs,
   ee_epoch entry).

Definition epoch_release (epochs : EpochState) (session_id : string) : EpochState :=
  match epochs !! session_id with
  | Some entry =>
      let renderers := saturating_sub (ee_renderers entry) 1 in
      if (renderers =? 0)%Z then delete session_id epochs
      else <[session_id := {| ee_epoch := ee_epoch entry; ee_renderers := renderers |}]> epochs
  | None => epochs
  end.

Definition epoch_bump (epochs : EpochState) (session_id : string) : EpochState :=
  let entry := default epoch_default (epochs !! session_id) in
  if (ee_renderers entry =? 0)%Z then delete session_id epochs
  else <[session_id := {| ee_epoch := ee_epoch entry + 1; ee_renderers := ee_renderers entry |}]> epochs.

Definition epoch_current (epochs : EpochState) (session_id : string) (epoch : Z) : bool :=
  (match epochs !! session_id with Some entry => ee_epoch entry | None => 0 end =? epoch)%Z.

(** [Drop for GateGuard]: the gate is removed only if it names this run. *)
Definition gate_drop (active_runs : gmap string string) (epochs : EpochState) (session_id run_id : string) :
    gmap string string * EpochState :=
  (if bool_decide (active_runs !! session_id = Some run_id) then delete session_id active_runs
   else active_runs,
   epoch_release epochs session_id).

(** ** Replay of stored events *)

Abbreviation Replayed := (Z * string * Json)%type.

Section Replay.
Context `{StoreReaders}.

Definition replay_row (r : row) : option Replayed :=
  seq ← head r ≫= as_i64;
  event_type ← r !! 3 ≫= as_str;
  text ← r !! 4 ≫= as_str;
  match json_parse text with Ok payload => Some (seq, event_type, payload) | Err _ => None end.

Definition replay_rows (data : Json) : list Replayed :=
  match sqlite_storage_rows data with Ok rows => omap replay_row rows | Err _ => [] end.

Definition cursor_from_rows (data : Json) : option Z :=
  r ← sqlite_storage_first_row data; r !! 2 ≫= as_i64.

Definition replay_payload (run_id : string) (after : Z) : Json :=
  jobj [("run_id", JString run_id); ("after_seq", jint after); ("max_events", jint 256);
        ("max_bytes", jint 65536)].

(** The paging loop over storage; [None] when the fuel runs out. *)
Fixpoint replay_loop (event_replay : Json -> result Json StorageError) (run_id : string) (fuel : nat)
    (after : Z) (events : list Replayed) : option (list Replayed) :=
  match fuel with
  | O => None
  | S fuel' =>
      match event_replay (replay_payload run_id after) with
      | Ok data =>
          let rows := replay_rows data in
          let truncated := default false (jget "truncated" data ≫= as_bool) in
          let events := events ++ rows in
          if negb truncated then Some events
          else match last rows with
               | None => Some events
               | Some (last_seq, _, _) => replay_loop event_replay run_id fuel' last_seq events
               end
      | Err error =>
          if str_eqb (se_code error) "cursor_too_old" then
            replay_loop event_replay run_id fuel' 1 events
          else Some events
      end
  end.

(** Without persistence the retained events are read from memory. *)
Definition u64_as_i64 (z : Z) : Z := if (z <=? i64_max)%Z then z else (z - 2 ^ 64)%Z.

Definition replay_memory (store : GatewayStore) (run_id : string) (after_seq : Z) : list Replayed :=
  match gs_runs store !! run_id with
  | Some run =>
      map (fun e => (u64_as_i64 (ge_seq e), ge_event e, ge_data e))
        (List.filter (fun e => (after_seq <=? u64_as_i64 (ge_seq e))%Z) (rr_events run))
  | None => []
  end.

End Replay.

(** The storage side of [event.replay] ([rss/storage/main.rss]): a cursor below
    the retained floor is refused, otherwise the page is read. *)
Definition storage_event_replay (floor_first : Z) (page : Z -> Json) (payload : Json) :
    result Json StorageError :=
  let after_seq := default 0%Z (jget "after_seq" payload ≫= as_i64) in
  if (1 <? floor_first)%Z && (after_seq <? floor_first)%Z then
    Err {| se_code := "cursor_too_old"; se_message := "replay cursor precedes the retained event floor" |}
  else Ok (page after_seq).

(** ** Delivery of a run's events *)

Inductive ApiCall :=
| CallSend (text : string) (reply : result Z TelegramError)
| CallEdit (message_id : Z) (text : string) (reply : result unit TelegramError).

Record Delivering := {
  dl_renderer : EventRenderer;
  dl_last_edit : Z;
  dl_cursor : Z;
  dl_epochs : EpochState;
  dl_checks : nat;
  dl_ticks : nat;
  dl_log : list ApiCall;
  dl_advances : list Z;
  dl_advance_failures : Z
}.

Definition with_renderer (r : EventRenderer) (d : Delivering) : Delivering :=
  {| dl_renderer := r; dl_last_edit := dl_last_edit d; dl_cursor := dl_cursor d;
     dl_epochs := dl_epochs d; dl_checks := dl_checks d; dl_ticks := dl_ticks d;
     dl_log := dl_log d; dl_advances := dl_advances d;
     dl_advance_failures := dl_advance_failures d |}.
Definition with_log (call : ApiCall) (d : Delivering) : Delivering :=
  {| dl_renderer := dl_renderer d; dl_last_edit := dl_last_edit d; dl_cursor := dl_cursor d;
     dl_epochs := dl_epochs d; dl_checks := dl_checks d; dl_ticks := dl_ticks d;
     dl_log := dl_log d ++ [call]; dl_advances := dl_advances d;
     dl_advance_failures := dl_advance_failures d |}.
Definition with_last_edit (t : Z) (d : Delivering) : Delivering :=
  {| dl_renderer := dl_renderer d; dl_last_edit := t; dl_cursor := dl_cursor d;
     dl_epochs := dl_epochs d; dl_checks := dl_checks d; dl_ticks := dl_ticks d;
     dl_log := dl_log d; dl_advances := dl_advances d;
     dl_advance_failures := dl_advance_failures d |}.
Definition tick (d : Delivering) : Delivering :=
  {| dl_renderer := dl_renderer d; dl_last_edit := dl_last_edit d; dl_cursor := dl_cursor d;
     dl_epochs := dl_epochs d; dl_checks := dl_checks d; dl_ticks := S (dl_ticks d);
     dl_log := dl_log d; dl_advances := dl_advances d;
     dl_advance_failures := dl_advance_failures d |}.
Definition with_checked (epochs : EpochState) (d : Delivering) : Delivering :=
  {| dl_renderer := dl_renderer d; dl_last_edit := dl_last_edit d; dl_cursor := dl_cursor d;
     dl_epochs := epochs; dl_checks := S (dl_checks d); dl_ticks := dl_ticks d;
     dl_log := dl_log d; dl_advances := dl_advances d;
     dl_advance_failures := dl_advance_failures d |}.
Definition with_cursor (cursor : Z) (stored : bool) (d : Delivering) : Delivering :=
  {| dl_renderer := dl_renderer d; dl_last_edit := dl_last_edit d; dl_cursor := cursor;
     dl_epochs := dl_epochs d; dl_checks := dl_checks d; dl_ticks := dl_ticks d;
     dl_log := dl_log d;
     dl_advances := if stored then dl_advances d ++ [cursor] else dl_advances d;
     dl_advance_failures := if stored then dl_advance_failures d else (dl_advance_failures d + 1)%Z |}.

Section Deliver.
(** The session and the epoch captured at the start; the interval of edits;
    the replies to the calls in order; the clock; whether the n-th write of
    the cursor succeeds; what other tasks did to the epochs before the n-th
    check. *)
Context (session_id : string) (epoch : Z) (max_edit_interval : Z)
        (send_message : nat -> result Z TelegramError) (edit_message : nat -> result unit TelegramError)
        (clock : nat -> Z) (advance_cursor : Z -> bool) (env : nat -> EpochState -> EpochState).

Definition check_epoch (d : Delivering) : Delivering * bool :=
  let epochs := env (dl_checks d) (dl_epochs d) in
  (with_checked epochs d, epoch_current epochs session_id epoch).

Definition send (text : string) (d : Delivering) : Delivering * result Z TelegramError :=
  let reply := send_message (length (dl_log d)) in
  (with_log (CallSend text reply) d, reply).

Definition edit (message_id : Z) (text : string) (d : Delivering) : Delivering * result unit TelegramError :=
  let reply := edit_message (length (dl_log d)) in
  (with_log (CallEdit message_id text reply) d, reply).

(** One action of an event, with its success. *)
Definition render_action (throttle_edits : bool) (action : RenderAction) (d : Delivering) :
    Delivering * bool :=
  match action with
  | Send text => let '(d, reply) := send text d in (d, is_ok reply)
  | SendDelta text =>
      match send text d with
      | (d, Ok sent) => (with_renderer (note_sent (dl_renderer d) sent) d, true)
      | (d, Err _) => (d, false)
      end
  | Edit message_id text =>
      let throttled :=
        throttle_edits &&
        (saturating_sub (clock (dl_ticks d)) (dl_last_edit d) <? max_edit_interval)%Z in
      let d := if throttle_edits then tick d else d in
      if throttled then (d, true)
      else match edit message_id text d with
           | (d, Ok _) => (tick (with_last_edit (clock (dl_ticks d)) d), true)
           | (d, Err _) => (d, false)
           end
  end.

Fixpoint render_actions (throttle_edits : bool) (actions : list RenderAction) (d : Delivering) :
    Delivering * bool :=
  match actions with
  | [] => (d, true)
  | action :: actions' =>
      match check_epoch d with
      | (d, false) => (d, false)
      | (d, true) =>
          let '(d, ok) := render_action throttle_edits action d in
          match check_epoch d with
          | (d, false) => (d, false)
          | (d, true) => if ok then render_actions throttle_edits actions' d else (d, false)
          end
      end
  end.

Definition render_event (seq : Z) (event_type : string) (data : Json) (d : Delivering) :
    Delivering * bool :=
  let '(r, actions) := on_event (dl_renderer d) event_type data in
  match render_actions (str_eqb event_type "model.delta") actions (with_renderer r d) with
  | (d, false) => (d, false)
  | (d, true) => (with_cursor seq (advance_cursor seq) d, true)
  end.

(** The final flush: no throttling, and its sends claim no edit target. *)
Definition flush_action (action : RenderAction) (d : Delivering) : Delivering * bool :=
  match action with
  | Send text | SendDelta text => let '(d, reply) := send text d in (d, is_ok reply)
  | Edit message_id text => let '(d, reply) := edit message_id text d in (d, is_ok reply)
  end.

Fixpoint flush_actions (actions : list RenderAction) (d : Delivering) : Delivering :=
  match actions with
  | [] => d
  | action :: actions' =>
      match check_epoch d with
      | (d, false) => d
      | (d, true) =>
          let '(d, ok) := flush_action action d in
          match check_epoch d with
          | (d, false) => d
          | (d, true) => if ok then flush_actions actions' d else d
          end
      end
  end.

Definition flush_renderer (d : Delivering) : Delivering :=
  let '(r, actions) := flush (dl_renderer d) in flush_actions actions (with_renderer r d).

Definition is_terminal_event_type (event_type : string) : bool :=
  str_eqb event_type "run.completed" || str_eqb event_type "run.cancelled"
  || str_eqb event_type "run.failed".

(** Rendering of a replayed batch above a floor that does or does not follow
    the cursor; [None]: go on with live events. *)
Inductive Ended := EndFailed | EndTerminal.

Fixpoint catch_up (events : list Replayed) (d : Delivering) : Delivering * option Ended :=
  match events with
  | [] => (d, None)
  | (seq, event_type, data) :: events' =>
      if (seq <=? dl_cursor d)%Z then catch_up events' d
      else match render_event seq event_type data d with
           | (d, false) => (d, Some EndFailed)
           | (d, true) =>
               if is_terminal_event_type event_type then (d, Some EndTerminal) else catch_up events' d
           end
  end.

(** The same after an overflow of the live buffer, with the fixed floor read
    from storage. *)
Fixpoint resync (current : Z) (events : list Replayed) (d : Delivering) : Delivering * bool :=
  match events with
  | [] => (d, false)
  | (seq, event_type, data) :: events' =>
      if (seq <=? current)%Z then resync current events' d
      else match render_event seq event_type data d with
           | (d, false) => (d, true)
           | (d, true) =>
               if is_terminal_event_type event_type then (d, true) else resync current events' d
           end
  end.

(** What the live receiver yields: an event, an overflow with the stored
    cursor, the replayed events and whether a new subscription succeeds, or
    the end of the channel. *)
Inductive Received :=
| Live (event : GatewayEvent)
| Lagged (current : Z) (events : list Replayed) (resubscribed : bool)
| Closed.

Fixpoint live_loop (received : list Received) (d : Delivering) : Delivering :=
  match received with
  | [] => d
  | Live event :: received' =>
      let seq := u64_as_i64 (ge_seq event) in
      if (seq <=? dl_cursor d)%Z then
        if is_terminal_event event then d else live_loop received' d
      else match render_event seq (ge_event event) (ge_data event) d with
           | (d, false) => d
           | (d, true) => if is_terminal_event event then d else live_loop received' d
           end
  | Lagged current events resubscribed :: received' =>
      match resync current events d with
      | (d, true) => d
      | (d, false) => if resubscribed then live_loop received' d else d
      end
  | Closed :: _ => d
  end.

(** The renderer of a run, from the state with the loaded cursor. *)
Definition run_renderer (events : list Replayed) (receiver : option (list Received)) (d : Delivering) :
    Delivering :=
  match catch_up events d with
  | (d, Some EndFailed) => d
  | (d, Some EndTerminal) => flush_renderer d
  | (d, None) =>
      match receiver with
      | None => d
      | Some received => flush_renderer (live_loop received d)
      end
  end.

End Deliver.

End Telegram.
