(* ===== verification/TelegramSpec.v ===== *)
(** * What the Telegram adapter guarantees

    Updates are handled once and only for allowed chats and users; requests
    are retried within their budgets; a reset silences the renderers of the
    wiped conversation; delivery cursors only advance past delivered events;
    streamed text reaches the chat unchanged when no edit is dropped.  Two
    flaws are stated as theorems: a replay below the retained floor never
    ends, and an edit dropped by throttling at the message cap loses text. *)

From S2P Require Import Prelude Utf8 Json Domain Store TelegramRender Telegram.
From stdpp Require Import pretty gmap.
Import Telegram.

(** ** Handling updates *)

Lemma handle_update_facts allowlist account now dedup update dedup' routed :
  handle_update allowlist account now dedup update = (dedup', Some routed) ->
  exists message from,
    up_message update = Some message /\ tm_from message = Some from /\
    account_allowed allowlist account = true /\
    chat_allowed allowlist (tch_id (tm_chat message)) = true /\
    user_allowed allowlist (tu_id from) = true /\
    let key := pretty (tch_id (tm_chat message)) +:+ ":" +:+ pretty (tm_message_id message) in
    (key ∉ message_keys dedup) /\ last (message_keys dedup') = Some key.
Proof.
  unfold handle_update. destruct (up_message update) as [m|] eqn:Em; [|done].
  destruct (envelope_from_message _ _ _ _) as [e|]; [|done].
  destruct (account_allowed allowlist account) eqn:Ea; [|done].
  destruct (chat_allowed allowlist _) eqn:Ec; [|done].
  destruct (tm_from m) as [f|] eqn:Ef; [|done].
  destruct (user_allowed allowlist _) eqn:Eu; [|done]. cbn [negb].
  unfold seen_message. case_bool_decide as Hk; [done|]. intros [= <- <-].
  exists m, f. repeat split; try done. cbn [message_keys]. unfold push_bounded. by rewrite last_snoc.
Qed.

Section PollProofs.
Context (allowlist : Allowlist) (account : string) (bound : nat).

Abbreviation step := (poll_update allowlist account).
Abbreviation batch_of := (poll_batch allowlist account).

(** Handled ids increase strictly, the offset is past all of them, and nothing
    beyond the offset was ever written. *)
Definition poller_ok (p : Poller) : Prop :=
  StronglySorted Z.lt (map fst (po_handled p)) /\
  Forall (fun h => below_offset (po_offset p) (fst h) = true) (po_handled p) /\
  Forall (fun o => exists base, po_offset p = Some base /\ (o <= base)%Z) (po_persisted p) /\
  StronglySorted Z.le (po_persisted p).

Lemma StronglySorted_snoc {A} (R : A -> A -> Prop) l x :
  StronglySorted R l -> Forall (fun y => R y x) l -> StronglySorted R (l ++ [x]).
Proof.
  induction 1 as [|y l Hl IH Hy]; intros Hx; [repeat constructor|].
  apply Forall_cons in Hx as [Hyx Hx]. cbn. constructor; [by apply IH|]. apply Forall_app. auto.
Qed.

(** Identifiers of updates after which there is another one. *)
Definition below_max (u : TgUpdate) : Prop := (up_update_id u < i64_max)%Z.
Definition round_below_max (r : Round) : Prop :=
  match r with Batch updates _ => Forall (fun x => below_max (snd x)) updates | Failure _ => True end.

Lemma next_below_max u : below_max u -> next_update_id (up_update_id u) = (up_update_id u + 1)%Z.
Proof. unfold below_max, next_update_id. intros Hu. by rewrite (proj2 (Z.eqb_neq _ _)) by lia. Qed.

Lemma poll_update_ok p now u : below_max u -> poller_ok p -> poller_ok (step p now u).
Proof.
  intros Hu%next_below_max (Hs & Hb & Hp & Hps). unfold poll_update. rewrite Hu.
  destruct (below_offset (po_offset p) (up_update_id u)) eqn:Eo; [done|].
  destruct (seen_update (po_dedup p) (up_update_id u)) as [dd []]; [done|].
  destruct (handle_update allowlist account now dd u) as [dd' routed].
  assert (forall b, below_offset (po_offset p) b = true -> (b < up_update_id u)%Z) as Hlt.
  { intros b. unfold below_offset in *. destruct (po_offset p); [|done]. intros ?. bool_to_prop. lia. }
  split; [|split; [|split]]; cbn [po_handled po_offset po_persisted].
  - rewrite map_app. apply StronglySorted_snoc; [done|]. apply Forall_map.
    eapply Forall_impl; [exact Hb|]. cbn. intros x. apply Hlt.
  - apply Forall_app. split; [|repeat constructor; cbn; apply Z.ltb_lt; lia].
    eapply Forall_impl; [exact Hb|]. cbn. intros x Hx%Hlt. apply Z.ltb_lt. lia.
  - eapply Forall_impl; [exact Hp|]. cbn. intros o (base & E & Hle). eexists. split; [done|].
    rewrite E in Eo. cbn in Eo. bool_to_prop. lia.
  - done.
Qed.

Lemma poll_batch_ok p l : Forall (fun x => below_max (snd x)) l -> poller_ok p -> poller_ok (batch_of p l).
Proof.
  intros Hl. revert p. induction Hl as [|[[stopped now] u] l Hu _ IH]; intros p Hp; cbn; [done|].
  destruct stopped; [done|]. by apply IH, poll_update_ok.
Qed.

Lemma persist_offset_ok stored p : poller_ok p -> poller_ok (persist_offset stored p).
Proof.
  intros (Hs & Hb & Hp & Hps). unfold persist_offset.
  destruct (po_offset p) as [o|] eqn:E; [|by repeat split; rewrite ?E].
  split; [done|]. cbn [po_handled po_offset po_persisted]. split; [done|].
  destruct stored; [|done]. split.
  - apply Forall_app. split; [done|]. repeat constructor. exists o. split; [done|lia].
  - apply StronglySorted_snoc; [done|]. eapply Forall_impl; [exact Hp|]. cbn.
    intros x (base & [= ->] & Hle). done.
Qed.

Lemma poll_round_ok p r : round_below_max r -> poller_ok p -> poller_ok (fst (poll_round allowlist account bound p r)).
Proof.
  intros Hr Hp. destruct r as [l stored|[]]; cbn; try done.
  - by apply persist_offset_ok, poll_batch_ok.
  - by case_match.
Qed.

Lemma run_poller_ok p rounds stored : Forall round_below_max rounds ->
  poller_ok p -> poller_ok (run_poller allowlist account bound p rounds stored).
Proof.
  intros Hl. revert p. induction Hl as [|r rounds Hb _ IH]; intros p Hp; cbn; [by apply persist_offset_ok|].
  pose proof (poll_round_ok p r Hb Hp) as Hr. destruct (poll_round _ _ _ p r) as [p' []]; [by apply IH|].
  by apply persist_offset_ok.
Qed.

Lemma start_poller_ok offset drop_pending drain stored cap p :
  start_poller offset drop_pending drain stored cap = Some p -> poller_ok p.
Proof.
  unfold start_poller.
  assert (forall o, poller_ok {| po_offset := o; po_dedup := dedup_new cap; po_streak := 0;
                                 po_handled := []; po_persisted := [] |}) as H0.
  { intros o. repeat split; constructor. }
  destruct offset, drop_pending; try (intros [= <-]; apply H0).
  destruct drain; [destruct stored; [|done]|..|done]; intros [= <-]; [|apply H0].
  apply (persist_offset_ok true), H0.
Qed.

(** Nothing below a given starting offset is handled. *)
Definition above (start : option Z) (p : Poller) : Prop :=
  Forall (fun h => below_offset start (fst h) = false) (po_handled p) /\
  (forall b, start = Some b -> exists b', po_offset p = Some b' /\ (b <= b')%Z).

Lemma poll_update_above start p now u : below_max u -> above start p -> above start (step p now u).
Proof.
  intros Hu%next_below_max [Hh Ho]. unfold poll_update. rewrite Hu.
  destruct (below_offset (po_offset p) (up_update_id u)) eqn:Eo; [done|].
  destruct (seen_update (po_dedup p) (up_update_id u)) as [dd []]; [done|].
  destruct (handle_update allowlist account now dd u) as [dd' routed].
  assert (forall b, start = Some b -> (b <= up_update_id u)%Z) as Hb.
  { intros b Hs. destruct (Ho b Hs) as (b' & E & Hle). rewrite E in Eo. cbn in Eo. bool_to_prop. lia. }
  split; cbn [po_handled po_offset].
  - apply Forall_app. split; [done|]. repeat constructor. cbn. destruct start as [b|]; [|done].
    cbn. apply Z.ltb_ge. by apply Hb.
  - intros b Hs. eexists. split; [done|]. specialize (Hb b Hs). lia.
Qed.

Lemma persist_above start st p : above start p -> above start (persist_offset st p).
Proof.
  intros [Hh Ho]. unfold persist_offset, above.
  destruct (po_offset p) eqn:E; cbn [po_handled po_offset]; rewrite ?E; done.
Qed.

Lemma poll_batch_above start p l :
  Forall (fun x => below_max (snd x)) l -> above start p -> above start (batch_of p l).
Proof.
  intros Hl. revert p. induction Hl as [|[[stopped now] u] l Hu _ IH]; intros p Hp; cbn; [done|].
  destruct stopped; [done|]. by apply IH, poll_update_above.
Qed.

Lemma run_poller_above start p rounds stored : Forall round_below_max rounds ->
  above start p -> above start (run_poller allowlist account bound p rounds stored).
Proof.
  intros Hl. revert p. induction Hl as [|r rounds Hb _ IH]; intros p Hp; cbn; [by apply persist_above|].
  assert (above start (fst (poll_round allowlist account bound p r))) as Hr.
  { destruct r as [l st|[]]; cbn; try done; [|by case_match]. by apply persist_above, poll_batch_above. }
  destruct (poll_round _ _ _ p r) as [p' []]; [by apply IH|by apply persist_above].
Qed.

(** C33. Over any sequence of poll rounds, with any replies whose updates are
    numbered below the largest [i64], and any stops and failed writes, each
    update is handled at most once and in increasing order, none below the
    offset the poller started from; and the offsets written to storage never
    decrease and never pass the poller's offset, which is past the updates
    handled. *)
Theorem poller_handles_once offset drop_pending drain stored cap p rounds final :
  start_poller offset drop_pending drain stored cap = Some p -> Forall round_below_max rounds ->
  let q := run_poller allowlist account bound p rounds final in
  StronglySorted Z.lt (map fst (po_handled q)) /\
  Forall (fun h => below_offset (po_offset p) (fst h) = false /\ below_offset (po_offset q) (fst h) = true) (po_handled q) /\
  StronglySorted Z.le (po_persisted q) /\
  Forall (fun o => exists base, po_offset q = Some base /\ (o <= base)%Z) (po_persisted q).
Proof.
  intros Hst Hl q. destruct (run_poller_ok p rounds final Hl (start_poller_ok _ _ _ _ _ _ Hst)) as (H1 & H4 & H2 & H3).
  split; [done|]. split; [|done]. apply Forall_and. split; [|done]. apply (run_poller_above (po_offset p) p rounds final Hl).
  split; [|intros b ->; exists b; split; [done|lia]].
  revert Hst. unfold start_poller. destruct offset, drop_pending, drain, stored; try done;
    intros [= <-]; constructor.
Qed.

End PollProofs.

(** ** The retry policy *)

Definition retryable (e : TelegramError) : bool :=
  match e with RateLimited _ | Server _ => true | _ => false end.

Section RequestProofs.
Context {A : Type} (policy : ApiPolicy) (request_once : nat -> result A TelegramError).

Lemma request_loop_cases fuel calls r429 r5xx delays :
  r429 + r5xx < fuel ->
  exists n ds, request_loop policy request_once fuel calls r429 r5xx delays =
    Some (S (calls + n), delays ++ ds, request_once (calls + n)) /\
  n <= r429 + r5xx /\ length ds = n /\
  (forall i, i < n -> exists e, request_once (calls + i) = Err e /\ retryable e = true).
Proof.
  revert calls r429 r5xx delays. induction fuel as [|fuel IH]; intros calls r429 r5xx delays Hf; [lia|].
  assert (forall r, request_once calls = r ->
    exists n ds, Some (S calls, delays, r) = Some (S (calls + n), delays ++ ds, request_once (calls + n)) /\
      n <= r429 + r5xx /\ length ds = n /\
      (forall i, i < n -> exists e, request_once (calls + i) = Err e /\ retryable e = true)) as Hstop.
  { intros r Hr. exists 0, []. rewrite Nat.add_0_r, app_nil_r, Hr. split; [done|]. split; [lia|].
    split; [done|]. lia. }
  assert (forall e r429' r5xx' d, request_once calls = Err e -> retryable e = true ->
    r429' + r5xx' < r429 + r5xx ->
    exists n ds, request_loop policy request_once fuel (S calls) r429' r5xx' (delays ++ [d]) =
      Some (S (calls + n), delays ++ ds, request_once (calls + n)) /\
      n <= r429 + r5xx /\ length ds = n /\
      (forall i, i < n -> exists e, request_once (calls + i) = Err e /\ retryable e = true)) as Hgo.
  { intros e r429' r5xx' d He Hre Hlt.
    destruct (IH (S calls) r429' r5xx' (delays ++ [d]) ltac:(lia)) as (n & ds & -> & Hn & Hl & Hi).
    exists (S n), (d :: ds). rewrite <- app_assoc. cbn [app Nat.add].
    replace (calls + S n) with (S (calls + n)) by lia. split; [done|]. split; [lia|]. cbn. split; [lia|].
    intros [|i] Hlt'; [rewrite Nat.add_0_r; eauto|]. replace (calls + S i) with (S calls + i) by lia.
    apply Hi. lia. }
  cbn [request_loop]. destruct (request_once calls) as [v|e] eqn:E; [by apply Hstop|].
  destruct e; try by apply Hstop.
  - destruct r429; [by apply Hstop|]. eapply Hgo; [done|done|lia].
  - destruct r5xx; [by apply Hstop|]. eapply Hgo; [done|done|lia].
Qed.

(** A Bot API call always returns: it makes at most one round trip more
    than both retry budgets together, sleeps once between two round trips, and
    answers what the last round trip answered, all earlier ones having failed
    with a rate limit or a server error. *)
Theorem request_bounded :
  exists n delays, request policy request_once = Some (S n, delays, request_once n) /\
  n <= max_429_retries policy + max_5xx_retries policy /\ length delays = n /\
  (forall i, i < n -> exists e, request_once i = Err e /\ retryable e = true).
Proof.
  destruct (request_loop_cases (S (max_429_retries policy + max_5xx_retries policy)) 0
              (max_429_retries policy) (max_5xx_retries policy) [] ltac:(lia)) as (n & ds & Hr & H1 & H2 & H3).
  exists n, ds. auto.
Qed.

End RequestProofs.

(** The first retry after a server error waits 500 ms, not the 250 ms its
    comment announces: the budget is taken before the attempt is counted. *)
Example first_5xx_delay :
  request (A := unit) {| max_429_retries := 0; max_5xx_retries := 3; max_429_backoff := 0 |}
    (fun n => if (n <? 3)%nat then Err (Server 502) else Ok tt) = Some (4, [500; 1000; 2000]%Z, Ok tt).
Proof. reflexivity. Qed.

(** ** Reset epochs *)

(** Live renderers, by number, with the session and the epoch they captured;
    [started] numbers the next one. *)
Record Renderers := { rs_epochs : EpochState; rs_live : gmap nat (string * Z); rs_started : nat }.

Inductive epoch_step : Renderers -> Renderers -> Prop :=
| StepCapture st session :
    epoch_step st
      {| rs_epochs := fst (epoch_capture (rs_epochs st) session);
         rs_live := <[rs_started st := (session, snd (epoch_capture (rs_epochs st) session))]> (rs_live st);
         rs_started := S (rs_started st) |}
| StepRelease st n session epoch :
    rs_live st !! n = Some (session, epoch) ->
    epoch_step st
      {| rs_epochs := epoch_release (rs_epochs st) session; rs_live := delete n (rs_live st);
         rs_started := rs_started st |}
| StepBump st session :
    epoch_step st
      {| rs_epochs := epoch_bump (rs_epochs st) session; rs_live := rs_live st;
         rs_started := rs_started st |}.

Definition renderers_init : Renderers := {| rs_epochs := ∅; rs_live := ∅; rs_started := 0 |}.

(** The live renderers of a session. *)
Definition live_of (session : string) (live : gmap nat (string * Z)) : gmap nat (string * Z) :=
  filter (fun kv => fst (snd kv) = session) live.

(** An entry exists exactly while its session has live renderers; it counts
    them and is never behind what they captured. *)
Definition epochs_inv (st : Renderers) : Prop :=
  (forall n x, rs_live st !! n = Some x -> n < rs_started st) /\
  (forall session,
    match rs_epochs st !! session with
    | Some entry => ee_renderers entry = Z.of_nat (size (live_of session (rs_live st))) /\ (0 < ee_renderers entry)%Z
    | None => live_of session (rs_live st) = ∅
    end) /\
  (forall n session epoch, rs_live st !! n = Some (session, epoch) ->
    exists entry, rs_epochs st !! session = Some entry /\ (epoch <= ee_epoch entry)%Z).

Lemma live_of_insert n session s e live :
  live !! n = None ->
  live_of session (<[n := (s, e)]> live) =
    if str_eqb s session then <[n := (s, e)]> (live_of session live) else live_of session live.
Proof.
  intros Hn. unfold live_of. destruct (str_eqb_spec s session) as [->|Hne].
  - by rewrite map_filter_insert_True.
  - rewrite map_filter_insert_False by done. by rewrite delete_id.
Qed.

Lemma live_of_delete n session s e live :
  live !! n = Some (s, e) ->
  live_of session (delete n live) =
    if str_eqb s session then delete n (live_of session live) else live_of session live.
Proof.
  intros Hn. unfold live_of. rewrite map_filter_delete. destruct (str_eqb_spec s session) as [->|Hne]; [done|].
  apply delete_id. apply map_lookup_filter_None. right. intros x Hx. cbn. rewrite Hn in Hx.
  injection Hx as <-. cbn. congruence.
Qed.

Lemma live_of_elem n session e live : live !! n = Some (session, e) -> live_of session live !! n = Some (session, e).
Proof. intros Hn. by apply map_lookup_filter_Some. Qed.

Lemma epochs_inv_capture st session :
  epochs_inv st ->
  epochs_inv {| rs_epochs := fst (epoch_capture (rs_epochs st) session);
     rs_live := <[rs_started st := (session, snd (epoch_capture (rs_epochs st) session))]> (rs_live st);
     rs_started := S (rs_started st) |}.
Proof.
  intros (Hn & Hc & Hl). assert (rs_live st !! rs_started st = None) as Hfresh.
  { destruct (rs_live st !! rs_started st) eqn:E; [|done]. apply Hn in E. lia. }
  unfold epoch_capture. cbn [fst snd rs_epochs rs_live rs_started].
  set (entry := default epoch_default (rs_epochs st !! session)). split; [|split]; cbn [rs_epochs rs_live rs_started].
  - intros n x. rewrite lookup_insert_Some. intros [[<- _]|[_ H]]; [lia|]. apply Hn in H. lia.
  - intros s. rewrite live_of_insert by done. specialize (Hc s).
    destruct (str_eqb_spec session s) as [<-|Hne].
    + rewrite lookup_insert_eq. cbn [ee_renderers].
      assert (live_of session (rs_live st) !! rs_started st = None) as Hf
        by (apply map_lookup_filter_None; by left).
      rewrite map_size_insert_None by done. subst entry. destruct (rs_epochs st !! session) as [en|]; cbn [from_option id].
      * destruct Hc as [Hc Hpos]. lia.
      * rewrite Hc, map_size_empty. done.
    + rewrite lookup_insert_ne by done. exact Hc.
  - intros n s e. rewrite lookup_insert_Some. intros [[<- [= <- <-]]|[_ H]].
    + eexists. rewrite lookup_insert_eq. split; [done|]. cbn. lia.
    + destruct (Hl n s e H) as (en & He & Hle). destruct (decide (s = session)) as [->|Hne].
      * eexists. rewrite lookup_insert_eq. split; [done|]. subst entry. rewrite He. cbn. done.
      * exists en. by rewrite lookup_insert_ne.
Qed.

Lemma epochs_inv_release st n session epoch :
  epochs_inv st -> rs_live st !! n = Some (session, epoch) ->
  epochs_inv {| rs_epochs := epoch_release (rs_epochs st) session; rs_live := delete n (rs_live st);
                rs_started := rs_started st |}.
Proof.
  intros (Hn & Hc & Hl) Hin. destruct (Hl n session epoch Hin) as (en & He & Hle).
  pose proof (Hc session) as Hcs. rewrite He in Hcs. destruct Hcs as [Hcnt Hpos].
  pose proof (live_of_elem _ _ _ _ Hin) as Hel.
  assert (size (live_of session (delete n (rs_live st))) = pred (size (live_of session (rs_live st)))) as Hsz.
  { rewrite (live_of_delete n session session epoch) by done. rewrite str_eqb_refl.
    apply map_size_delete_Some. by exists (session, epoch). }
  unfold epoch_release. rewrite He. unfold saturating_sub.
  split; [|split]; cbn [rs_epochs rs_live rs_started].
  - intros m x [_ Hx]%lookup_delete_Some. by apply Hn in Hx.
  - intros s. destruct (decide (s = session)) as [->|Hne].
    + destruct (Z.eqb_spec (Z.max 0 (ee_renderers en - 1)) 0) as [Hz|Hnz].
      * rewrite lookup_delete_eq. apply map_size_empty_inv. lia.
      * rewrite lookup_insert_eq. cbn [ee_renderers]. lia.
    + rewrite (live_of_delete n s session epoch) by done.
      destruct (str_eqb_spec session s) as [->|_]; [done|].
      assert ((if (Z.max 0 (ee_renderers en - 1) =? 0)%Z then delete session (rs_epochs st)
               else <[session := {| ee_epoch := ee_epoch en; ee_renderers := Z.max 0 (ee_renderers en - 1) |}]>
                      (rs_epochs st)) !! s = rs_epochs st !! s) as ->; [|apply Hc].
      case_match; [by rewrite lookup_delete_ne|by rewrite lookup_insert_ne].
  - intros m s e [Hm Hx]%lookup_delete_Some. destruct (Hl m s e Hx) as (en' & He' & Hle').
    destruct (decide (s = session)) as [->|Hne].
    + rewrite He in He'. injection He' as <-.
      assert (2 <= size (live_of session (rs_live st))) as H2.
      { assert (0 <> size (live_of session (delete n (rs_live st)))); [|lia].
        intros E%eq_sym%map_size_empty_inv. rewrite (live_of_delete n session session epoch), str_eqb_refl in E by done.
        apply (f_equal (lookup m)) in E. rewrite lookup_delete_ne, lookup_empty in E by done.
        by rewrite (live_of_elem _ _ _ _ Hx) in E. }
      destruct (Z.eqb_spec (Z.max 0 (ee_renderers en - 1)) 0); [lia|].
      eexists. rewrite lookup_insert_eq. done.
    + exists en'. split; [|done].
      case_match; [by rewrite lookup_delete_ne|by rewrite lookup_insert_ne].
Qed.

Lemma epochs_inv_bump st session :
  epochs_inv st ->
  epochs_inv {| rs_epochs := epoch_bump (rs_epochs st) session; rs_live := rs_live st;
                rs_started := rs_started st |}.
Proof.
  intros (Hn & Hc & Hl). unfold epoch_bump. split; [done|]. cbn [rs_epochs rs_live rs_started].
  pose proof (Hc session) as Hcs. destruct (rs_epochs st !! session) as [en|] eqn:He; cbn [from_option id].
  - destruct Hcs as [Hcnt Hpos]. destruct (Z.eqb_spec (ee_renderers en) 0); [lia|]. split.
    + intros s. destruct (decide (s = session)) as [->|Hne]; [by rewrite lookup_insert_eq|].
      rewrite lookup_insert_ne by done. apply Hc.
    + intros m s e Hx. destruct (Hl m s e Hx) as (en' & He' & Hle').
      destruct (decide (s = session)) as [->|Hne].
      * eexists. rewrite lookup_insert_eq. split; [done|]. cbn. rewrite He in He'. injection He' as <-. lia.
      * exists en'. by rewrite lookup_insert_ne.
  - cbn. rewrite delete_id by done. done.
Qed.

Lemma epochs_inv_reachable st : rtc epoch_step renderers_init st -> epochs_inv st.
Proof.
  revert st. apply (rtc_ind_r (R := epoch_step) epochs_inv renderers_init).
  - split; [by intros n x; cbn; rewrite lookup_empty|]. split.
    + intros s. cbn. rewrite lookup_empty. apply map_filter_empty.
    + by intros n s e; cbn; rewrite lookup_empty.
  - intros x y _ Hstep Hx. destruct Hstep; eauto using epochs_inv_capture, epochs_inv_release, epochs_inv_bump.
Qed.

(** While a renderer lives, the epoch of its session does not decrease. *)
Lemma epoch_step_mono st st' n session epoch en :
  epochs_inv st -> epoch_step st st' ->
  rs_live st !! n = Some (session, epoch) -> rs_live st' !! n = Some (session, epoch) ->
  rs_epochs st !! session = Some en ->
  exists en', rs_epochs st' !! session = Some en' /\ (ee_epoch en <= ee_epoch en')%Z.
Proof.
  intros Hinv Hstep Hl Hl' He. assert (epochs_inv st') as Hinv'
    by (destruct Hstep; eauto using epochs_inv_capture, epochs_inv_release, epochs_inv_bump).
  destruct Hinv' as (_ & _ & Hl3). destruct (Hl3 _ _ _ Hl') as (en' & He' & _). exists en'. split; [done|].
  destruct Hstep as [st s|st m s e Hm|st s]; cbn [rs_epochs] in He'.
  - unfold epoch_capture in He'. cbn in He'. apply lookup_insert_Some in He' as [[-> <-]|[_ He']].
    + rewrite He. cbn. lia.
    + rewrite He in He'. by injection He' as <-.
  - unfold epoch_release in He'. destruct (rs_epochs st !! s) as [x|] eqn:Ex.
    + case_match.
      * apply lookup_delete_Some in He' as [_ He']. rewrite He in He'. by injection He' as <-.
      * apply lookup_insert_Some in He' as [[-> <-]|[_ He']].
        -- rewrite He in Ex. injection Ex as <-. done.
        -- rewrite He in He'. by injection He' as <-.
    + rewrite He in He'. by injection He' as <-.
  - unfold epoch_bump in He'. case_match.
    + apply lookup_delete_Some in He' as [_ He']. rewrite He in He'. by injection He' as <-.
    + apply lookup_insert_Some in He' as [[-> <-]|[_ He']].
      * rewrite He. cbn. lia.
      * rewrite He in He'. by injection He' as <-.
Qed.

(** Runs of the epochs along which a renderer stays alive. *)
Inductive alive_run (n : nat) (x : string * Z) : Renderers -> Renderers -> Prop :=
| AliveRefl st : rs_live st !! n = Some x -> alive_run n x st st
| AliveStep st st' st'' : alive_run n x st st' -> epoch_step st' st'' -> rs_live st'' !! n = Some x ->
    alive_run n x st st''.

Lemma alive_run_mono n session epoch st st' :
  alive_run n (session, epoch) st st' -> epochs_inv st ->
  epochs_inv st' /\ rs_live st' !! n = Some (session, epoch) /\
  forall en, rs_epochs st !! session = Some en ->
    exists en', rs_epochs st' !! session = Some en' /\ (ee_epoch en <= ee_epoch en')%Z.
Proof.
  intros Hr Hinv. induction Hr as [st Hl|st st' st'' _ IH Hstep Hl].
  - split; [done|]. split; [done|]. intros en He. exists en. split; [done|lia].
  - destruct (IH Hinv) as (Hinv' & Hl' & Hm). split; [|split; [done|]].
    + destruct Hstep; eauto using epochs_inv_capture, epochs_inv_release, epochs_inv_bump.
    + intros en (en' & He' & Hle)%Hm.
      destruct (epoch_step_mono _ _ _ _ _ _ Hinv' Hstep Hl' Hl He') as (en'' & He'' & Hle'). exists en''.
      split; [done|lia].
Qed.

(** A reset silences every renderer of the session for good: after the
    bump, a renderer that captured its epoch before it never sees its epoch as
    the current one again, whatever other renderers start, end or reset,
    although the entries are dropped and recreated with the last renderer. *)
Theorem reset_epochs_safe st session n epoch st' :
  rtc epoch_step renderers_init st -> rs_live st !! n = Some (session, epoch) ->
  alive_run n (session, epoch)
    {| rs_epochs := epoch_bump (rs_epochs st) session; rs_live := rs_live st; rs_started := rs_started st |} st' ->
  epoch_current (rs_epochs st') session epoch = false.
Proof.
  intros Hreach Hl Hrun. apply epochs_inv_reachable in Hreach as Hinv. pose proof Hinv as (_ & Hc & Hle).
  destruct (Hle _ _ _ Hl) as (en & He & Hepoch). specialize (Hc session). rewrite He in Hc.
  apply alive_run_mono in Hrun as (_ & _ & Hm); [|by apply epochs_inv_bump].
  destruct (Hm {| ee_epoch := ee_epoch en + 1; ee_renderers := ee_renderers en |}) as (en' & He' & Hlt).
  - cbn. unfold epoch_bump. rewrite He. cbn [from_option id].
    destruct (Z.eqb_spec (ee_renderers en) 0); [lia|]. apply lookup_insert_eq.
  - unfold epoch_current. rewrite He'. cbn in Hlt. apply Z.eqb_neq. lia.
Qed.

(** ** Delivery *)

Section DeliverProofs.
Context (session_id : string) (epoch : Z) (max_edit_interval : Z)
        (send_message : nat -> result Z TelegramError) (edit_message : nat -> result unit TelegramError)
        (clock : nat -> Z) (advance_cursor : Z -> bool) (env : nat -> EpochState -> EpochState).

Abbreviation checked := (check_epoch session_id epoch env).
Abbreviation action_of := (render_action max_edit_interval send_message edit_message clock).
Abbreviation actions_of :=
  (render_actions session_id epoch max_edit_interval send_message edit_message clock env).
Abbreviation event_of :=
  (render_event session_id epoch max_edit_interval send_message edit_message clock advance_cursor env).
Abbreviation flush_of := (flush_renderer session_id epoch send_message edit_message env).
Abbreviation flushing := (flush_actions session_id epoch send_message edit_message env).
Abbreviation caught_up :=
  (catch_up session_id epoch max_edit_interval send_message edit_message clock advance_cursor env).
Abbreviation live_of_run :=
  (live_loop session_id epoch max_edit_interval send_message edit_message clock advance_cursor env).
Abbreviation renderer_of_run :=
  (run_renderer session_id epoch max_edit_interval send_message edit_message clock advance_cursor env).

Definition call_ok (c : ApiCall) : bool :=
  match c with CallSend _ r => is_ok r | CallEdit _ _ r => is_ok r end.

(** What one action does to the log and what it leaves alone. *)
Lemma render_action_spec throttle a d :
  let '(d', ok) := action_of throttle a d in
  exists calls, dl_log d' = dl_log d ++ calls /\ dl_cursor d' = dl_cursor d /\
    dl_advances d' = dl_advances d /\ dl_checks d' = dl_checks d /\
    (ok = true -> Forall (fun c => call_ok c = true) calls).
Proof.
  destruct a as [t|t|m t]; cbn.
  - eexists. repeat split. intros Hok. by repeat constructor.
  - destruct (send_message (length (dl_log d))) eqn:E; cbn; eexists; repeat split; [|done].
    intros _. by repeat constructor.
  - destruct (throttle && _).
    + exists []. rewrite app_nil_r. by destruct throttle; repeat split.
    + replace (length (dl_log (if throttle then tick d else d))) with (length (dl_log d)) by by destruct throttle.
      destruct (edit_message (length (dl_log d))) eqn:E; cbn;
        (exists [CallEdit m t (edit_message (length (dl_log d)))]; destruct throttle; cbn; rewrite E;
         repeat split; try done; intros _; by repeat constructor).
Qed.

Lemma render_actions_spec throttle l d :
  let '(d', ok) := actions_of throttle l d in
  exists calls, dl_log d' = dl_log d ++ calls /\ dl_cursor d' = dl_cursor d /\
    dl_advances d' = dl_advances d /\ dl_checks d <= dl_checks d' /\
    (ok = true -> Forall (fun c => call_ok c = true) calls).
Proof.
  revert d. induction l as [|a l IH]; intros d; cbn [render_actions].
  { exists []. rewrite app_nil_r. repeat split; [lia|constructor]. }
  unfold check_epoch at 1. destruct (epoch_current _ _ _).
  2: { exists []. rewrite app_nil_r. repeat split; cbn; [lia|done]. }
  pose proof (render_action_spec throttle a (with_checked (env (dl_checks d) (dl_epochs d)) d)) as Ha.
  destruct (action_of throttle a _) as [d1 ok] eqn:Ea. destruct Ha as (calls & Hlog & Hcur & Hadv & Hck & Hok).
  cbn in Hlog, Hcur, Hadv, Hck.
  unfold check_epoch. destruct (epoch_current _ _ _).
  2: { exists calls. repeat split; cbn; [done..|lia|done]. }
  destruct ok; [|exists calls; repeat split; cbn; [done..|lia|done]].
  specialize (IH (with_checked (env (dl_checks d1) (dl_epochs d1)) d1)).
  destruct (actions_of throttle l _) as [d2 ok2]. destruct IH as (calls2 & Hl2 & Hc2 & Ha2 & Hk2 & Ho2).
  cbn in Hl2, Hc2, Ha2, Hk2. exists (calls ++ calls2).
  rewrite Hl2, Hlog, app_assoc, Hc2, Hcur, Ha2, Hadv. repeat split; [lia|].
  intros Hf%Ho2. apply Forall_app. auto.
Qed.

(** A delivered event advanced the cursor after all its calls succeeded; an
    event that was not delivered left the cursor alone. *)
Lemma render_event_spec seq t data d :
  let '(d', ok) := event_of seq t data d in
  (exists calls, dl_log d' = dl_log d ++ calls /\ (ok = true -> Forall (fun c => call_ok c = true) calls)) /\
  dl_checks d <= dl_checks d' /\
  if ok then dl_cursor d' = seq /\
             dl_advances d' = dl_advances d ++ (if advance_cursor seq then [seq] else [])
  else dl_cursor d' = dl_cursor d /\ dl_advances d' = dl_advances d.
Proof.
  unfold render_event. destruct (on_event (dl_renderer d) t data) as [r actions].
  pose proof (render_actions_spec (str_eqb t "model.delta") actions (with_renderer r d)) as Ha.
  destruct (actions_of _ actions _) as [d1 ok]. destruct Ha as (calls & Hlog & Hcur & Hadv & Hck & Hok).
  cbn in *. destruct ok; cbn; repeat split; try done; try (by exists calls).
  rewrite Hadv. destruct (advance_cursor seq); [done|by rewrite app_nil_r].
Qed.

Lemma flush_actions_spec l d d' :
  flushing l d = d' -> dl_cursor d' = dl_cursor d /\ dl_advances d' = dl_advances d.
Proof.
  revert d. induction l as [|a l IH]; intros d; cbn [flush_actions]; [by intros <-|].
  unfold check_epoch at 1. destruct (epoch_current _ _ _); [|by intros <-].
  destruct (flush_action send_message edit_message a _) as [d1 ok] eqn:Ea.
  assert (dl_cursor d1 = dl_cursor d /\ dl_advances d1 = dl_advances d) as [Hc Ha].
  { destruct a; cbn in Ea; by simplify_eq/=. }
  unfold check_epoch. destruct (epoch_current _ _ _); [|by intros <-]. destruct ok; [|by intros <-].
  intros [Hc' Ha']%IH. cbn in Hc', Ha'. by rewrite Hc', Ha'.
Qed.

Lemma flush_renderer_spec d :
  dl_cursor (flush_of d) = dl_cursor d /\ dl_advances (flush_of d) = dl_advances d.
Proof.
  unfold flush_renderer. destruct (flush (dl_renderer d)) as [r l].
  by destruct (flush_actions_spec l (with_renderer r d) _ eq_refl) as [-> ->].
Qed.

(** The stored cursors above a start, in strictly increasing order. *)
Definition cursors_ok (start : Z) (d : Delivering) : Prop :=
  StronglySorted Z.lt (dl_advances d) /\ (start <= dl_cursor d)%Z /\
  Forall (fun s => (start < s <= dl_cursor d)%Z) (dl_advances d).

Lemma render_event_cursors start seq t data d :
  cursors_ok start d -> (dl_cursor d < seq)%Z -> cursors_ok start (fst (event_of seq t data d)).
Proof.
  intros (Hs & Hle & Hf) Hlt. pose proof (render_event_spec seq t data d) as He.
  destruct (event_of seq t data d) as [d' []]; destruct He as (_ & _ & Hc & Ha); cbn [fst];
    unfold cursors_ok; rewrite Hc, Ha; [|done].
  destruct (advance_cursor seq).
  - split; [|split; [lia|]].
    + apply StronglySorted_snoc; [done|]. eapply Forall_impl; [exact Hf|]. cbn. lia.
    + apply Forall_app. split; [|repeat constructor; lia]. eapply Forall_impl; [exact Hf|]. cbn. lia.
  - rewrite app_nil_r. split; [done|]. split; [lia|]. eapply Forall_impl; [exact Hf|]. cbn. lia.
Qed.

Lemma catch_up_cursors start events d : cursors_ok start d -> cursors_ok start (fst (caught_up events d)).
Proof.
  revert d. induction events as [|[[seq t] data] events IH]; intros d Hd; cbn [catch_up]; [done|].
  destruct (Z.leb_spec seq (dl_cursor d)); [by apply IH|].
  pose proof (render_event_cursors start seq t data d Hd ltac:(lia)) as Hr.
  destruct (event_of seq t data d) as [d' []]; [|done]. case_match; [done|]. by apply IH.
Qed.

Definition not_lagged (r : Received) : bool := match r with Lagged _ _ _ => false | _ => true end.

Lemma live_loop_cursors start received d :
  forallb not_lagged received = true -> cursors_ok start d -> cursors_ok start (live_of_run received d).
Proof.
  revert d. induction received as [|[e|c ev rs|] received IH]; intros d Hnl Hd; cbn [live_loop]; try done.
  cbn in Hnl. destruct (Z.leb_spec (u64_as_i64 (ge_seq e)) (dl_cursor d)).
  { case_match; [done|]. by apply IH. }
  pose proof (render_event_cursors start (u64_as_i64 (ge_seq e)) (ge_event e) (ge_data e) d Hd ltac:(lia)) as Hr.
  destruct (event_of _ _ _ d) as [d' []]; [|done]. case_match; [done|]. by apply IH.
Qed.

(** A run's renderer stores delivery cursors in strictly increasing order,
    all above the cursor it was started from and none above the last event it
    delivered, through catch-up and live events, as long as the live buffer
    does not overflow. *)
Theorem delivery_cursor_advances events receiver d :
  dl_advances d = [] ->
  match receiver with Some received => forallb not_lagged received | None => true end = true ->
  cursors_ok (dl_cursor d) (renderer_of_run events receiver d).
Proof.
  intros Ha Hnl. assert (cursors_ok (dl_cursor d) d) as Hd by (split; [|split]; rewrite ?Ha; [constructor|lia|constructor]).
  assert (forall s x, cursors_ok s x -> cursors_ok s (flush_of x)) as Hfl.
  { intros s x Hx. unfold cursors_ok. by destruct (flush_renderer_spec x) as [-> ->]. }
  pose proof (catch_up_cursors (dl_cursor d) events d Hd) as Hc. unfold run_renderer.
  destruct (caught_up events d) as [d1 [[]|]]; cbn in Hc; [done|by apply Hfl|].
  destruct receiver as [received|]; [|done]. by apply Hfl, live_loop_cursors.
Qed.

(** ** A stale renderer is silent *)

Definition stale_from (n : nat) : Prop :=
  forall m epochs, n <= m -> epoch_current (env m epochs) session_id epoch = false.

Lemma stale_actions throttle l d :
  stale_from (dl_checks d) -> dl_log (fst (actions_of throttle l d)) = dl_log d.
Proof. intros Hs. destruct l; [done|]. cbn [render_actions]. unfold check_epoch. by rewrite Hs. Qed.

Lemma stale_event seq t data d :
  stale_from (dl_checks d) ->
  dl_log (fst (event_of seq t data d)) = dl_log d /\ stale_from (dl_checks (fst (event_of seq t data d))).
Proof.
  intros Hs. pose proof (render_event_spec seq t data d) as He.
  assert (dl_log (fst (event_of seq t data d)) = dl_log d) as Hl.
  { unfold render_event. destruct (on_event (dl_renderer d) t data) as [r l].
    pose proof (stale_actions (str_eqb t "model.delta") l (with_renderer r d) Hs) as Ha.
    destruct (actions_of _ l _) as [d1 []]; exact Ha. }
  split; [done|]. destruct (event_of seq t data d) as [d' ok]. destruct He as (_ & Hck & _). cbn.
  intros m ep Hm. apply Hs. lia.
Qed.

Lemma stale_flush d : stale_from (dl_checks d) -> dl_log (flush_of d) = dl_log d.
Proof.
  intros Hs. unfold flush_renderer. destruct (flush (dl_renderer d)) as [r [|a l]]; [done|].
  cbn [flush_actions]. unfold check_epoch. by rewrite Hs.
Qed.

Lemma stale_catch_up events d :
  stale_from (dl_checks d) ->
  dl_log (fst (caught_up events d)) = dl_log d /\ stale_from (dl_checks (fst (caught_up events d))).
Proof.
  revert d. induction events as [|[[seq t] data] events IH]; intros d Hs; cbn [catch_up]; [done|].
  case_match; [by apply IH|]. destruct (stale_event seq t data d Hs) as [Hl Hs'].
  destruct (event_of seq t data d) as [d' []]; cbn in Hl, Hs'; [|done]. case_match; [done|].
  rewrite <- Hl. by apply IH.
Qed.

Lemma stale_resync current events d :
  stale_from (dl_checks d) ->
  let r := resync session_id epoch max_edit_interval send_message edit_message clock advance_cursor env
             current events d in
  dl_log (fst r) = dl_log d /\ stale_from (dl_checks (fst r)).
Proof.
  revert d. induction events as [|[[seq t] data] events IH]; intros d Hs; cbn [resync]; [done|].
  case_match; [by apply IH|]. destruct (stale_event seq t data d Hs) as [Hl Hs'].
  destruct (event_of seq t data d) as [d' []]; cbn in Hl, Hs'; [|done]. case_match; [done|].
  rewrite <- Hl. by apply IH.
Qed.

Lemma stale_live received d :
  stale_from (dl_checks d) ->
  dl_log (live_of_run received d) = dl_log d /\ stale_from (dl_checks (live_of_run received d)).
Proof.
  revert d. induction received as [|[e|c ev rs|] received IH]; intros d Hs; cbn [live_loop]; try done.
  - case_match; [case_match; [done|by apply IH]|].
    destruct (stale_event (u64_as_i64 (ge_seq e)) (ge_event e) (ge_data e) d Hs) as [Hl Hs'].
    destruct (event_of _ _ _ d) as [d' []]; cbn in Hl, Hs'; [|done]. case_match; [done|].
    rewrite <- Hl. by apply IH.
  - destruct (stale_resync c ev d Hs) as [Hl Hs'].
    destruct (resync _ _ _ _ _ _ _ _ c ev d) as [d' []]; cbn in Hl, Hs'; [done|].
    destruct rs; [|done]. rewrite <- Hl. by apply IH.
Qed.

(** Once its epoch is no longer current a renderer sends nothing more to
    the chat: neither replayed nor live events, nor those read again after an
    overflow, nor the final flush. *)
Theorem stale_renderer_is_silent events receiver d :
  stale_from (dl_checks d) -> dl_log (renderer_of_run events receiver d) = dl_log d.
Proof.
  intros Hs. destruct (stale_catch_up events d Hs) as [Hl Hs']. unfold run_renderer.
  destruct (caught_up events d) as [d1 [[]|]]; cbn in Hl, Hs'; [done|by rewrite stale_flush|].
  destruct receiver as [received|]; [|done]. destruct (stale_live received d1 Hs') as [Hl2 Hs2].
  by rewrite stale_flush, Hl2.
Qed.

End DeliverProofs.

(** ** Replay below the retained floor *)

Lemma payload_after run_id after :
  is_i64 after = true -> jget "after_seq" (replay_payload run_id after) ≫= as_i64 = Some after.
Proof.
  intros Hi. unfold is_i64 in Hi. bool_to_prop. unfold replay_payload, jobj. cbn [jget].
  change (obj_get "after_seq" _) with (Some (jint after)). cbn.
  unfold number_of_i64. destruct (Z.leb_spec 0 after); cbn; [|done].
  by destruct (Z.leb_spec after i64_max); [|lia].
Qed.

(** C37. Against the storage program, a replay whose cursor precedes the
    retained floor never returns: the loop starts again from sequence 1, which
    precedes the floor too, and is refused again, for any number of turns. *)
Theorem replay_below_floor_never_ends `{StoreReaders} floor_first page run_id fuel after events :
  is_i64 floor_first = true -> (i64_min <= after < floor_first)%Z -> (1 < floor_first)%Z ->
  replay_loop (storage_event_replay floor_first page) run_id fuel after events = None.
Proof.
  intros Hf. revert after. induction fuel as [|fuel IH]; intros after Ha H1; [done|].
  cbn [replay_loop]. unfold storage_event_replay at 1. unfold is_i64 in Hf. bool_to_prop.
  rewrite payload_after by (unfold is_i64; apply andb_true_iff; rewrite !Z.leb_le; lia). cbn [from_option id].
  destruct (Z.ltb_spec 1 floor_first); [|lia]. destruct (Z.ltb_spec after floor_first); [|lia].
  cbn [andb se_code]. rewrite str_eqb_refl. apply IH; unfold i64_min; lia.
Qed.

(** ** Session identities *)

Lemma digits_value_app acc a b :
  digits_value acc (a ++ b) = digits_value acc a ≫= fun v => digits_value v b.
Proof. revert acc. induction a as [|x a IH]; intros acc; cbn; [done|]. case_match; [apply IH|done]. Qed.

Lemma digit_value d t acc : (d < 10)%N ->
  digits_value acc (s2b (String (pretty_N_char d) t)) = digits_value (acc * 10 + Z.of_N d) (s2b t).
Proof.
  intros Hd. rewrite s2b_cons. cbn [digits_value].
  assert (in_range 48 57 (Ascii.byte_of_ascii (pretty_N_char d)) = true /\
          (bval (Ascii.byte_of_ascii (pretty_N_char d)) - 48 = Z.of_N d)%Z) as [-> ->].
  { assert (d = 0 \/ d = 1 \/ d = 2 \/ d = 3 \/ d = 4 \/ d = 5 \/ d = 6 \/ d = 7 \/ d = 8 \/ d = 9)%N as Hc
      by lia.
    by destruct_or! Hc; subst d. }
  done.
Qed.

Lemma digits_pretty_go x t : digits_value 0 (s2b (pretty_N_go x t)) = digits_value (Z.of_N x) (s2b t).
Proof.
  revert t. induction x as [x IH] using (well_founded_induction N.lt_wf_0). intros t.
  destruct (decide (x = 0)%N) as [->|Hx]; [by rewrite pretty_N_go_0|].
  rewrite pretty_N_go_step by lia. rewrite IH by (apply N.div_lt; lia).
  rewrite digit_value by (apply N.mod_lt; lia). f_equal.
  rewrite N2Z.inj_div, N2Z.inj_mod. pose proof (Z.div_mod (Z.of_N x) 10 ltac:(lia)). cbn. lia.
Qed.

Lemma digits_pretty n : parse_digits (s2b (pretty (n : N))) = Some (Z.of_N n).
Proof.
  assert (digits_value 0 (s2b (pretty n)) = Some (Z.of_N n)) as Hd.
  { unfold pretty, pretty_N. case_decide as Hn; [by subst|]. apply digits_pretty_go. }
  unfold parse_digits. destruct (s2b (pretty n)) as [|b bs] eqn:E; [|done]. exfalso.
  injection Hd as Hd. by replace n with 0%N in E by lia.
Qed.

Lemma pretty_N_head n : exists b bs, s2b (pretty (n : N)) = b :: bs /\ in_range 48 57 b = true.
Proof.
  pose proof (digits_pretty n) as Hd. unfold parse_digits in Hd.
  destruct (s2b (pretty n)) as [|b bs]; [done|]. exists b, bs. split; [done|].
  cbn in Hd. by destruct (in_range 48 57 b).
Qed.

Lemma parse_pretty z : is_i64 z = true -> parse_i64 (pretty (z : Z)) = Some z.
Proof.
  intros Hz. unfold parse_i64. assert (forall n : N, Z.of_N n = z -> parse_digits (s2b (pretty n)) = Some z -> 
    (let value := match s2b (pretty n) with
       | b :: bs => if bool_decide (b = Byte.x2d) then Z.opp <$> parse_digits bs
                    else if bool_decide (b = Byte.x2b) then parse_digits bs else parse_digits (b :: bs)
       | [] => None end in n0 ← value; if is_i64 n0 then Some n0 else None) = Some z) as Hpos.
  { intros n _ Hp. destruct (pretty_N_head n) as (b & bs & E & Hb). rewrite E in Hp |- *.
    rewrite !bool_decide_eq_false_2 by (intros ->; discriminate Hb). cbn zeta. rewrite Hp. cbn. by rewrite Hz. }
  destruct z as [|p|p].
  - apply (Hpos 0%N); [done|]. apply digits_pretty.
  - apply (Hpos (N.pos p)); [done|]. apply digits_pretty.
  - assert (s2b (pretty (Z.neg p)) = Byte.x2d :: s2b (pretty (N.pos p))) as ->
      by (change (pretty (Z.neg p)) with ("-" +:+ pretty (N.pos p)); by rewrite s2b_app).
    cbn zeta. rewrite (bool_decide_eq_true_2 (Byte.x2d = Byte.x2d)) by done. rewrite digits_pretty.
    change ((if is_i64 (Z.neg p) then Some (Z.neg p) else None) = Some (Z.neg p)). by rewrite Hz.
Qed.

Definition no_colon (bs : list byte) : bool := forallb (fun b => negb (bool_decide (b = Byte.x3a))) bs.

Lemma split_colon_app a b : no_colon a = true -> split_colon (a ++ Byte.x3a :: b) = (a, Some b).
Proof.
  induction a as [|x a IH]; intros Ha; [done|]. cbn in Ha. apply andb_true_iff in Ha as [Hx Ha].
  cbn [app split_colon]. destruct (bool_decide (x = Byte.x3a)); [done|]. by rewrite IH.
Qed.

Lemma split_colon_none a : no_colon a = true -> split_colon a = (a, None).
Proof.
  induction a as [|x a IH]; intros Ha; [done|]. cbn in Ha. apply andb_true_iff in Ha as [Hx Ha].
  cbn [split_colon]. destruct (bool_decide (x = Byte.x3a)); [done|]. by rewrite IH.
Qed.

Lemma pretty_no_colon z : no_colon (s2b (pretty (z : Z))) = true.
Proof.
  assert (forall x t, no_colon (s2b t) = true -> no_colon (s2b (pretty_N_go x t)) = true) as Hgo.
  { induction x as [x IH] using (well_founded_induction N.lt_wf_0). intros t Ht.
    destruct (decide (x = 0)%N) as [->|Hx]; [by rewrite pretty_N_go_0|].
    rewrite pretty_N_go_step by lia. apply IH; [apply N.div_lt; lia|].
    rewrite s2b_cons. cbn. rewrite andb_true_iff. split; [|done].
    unfold pretty_N_char. repeat case_match; done. }
  assert (forall n : N, no_colon (s2b (pretty n)) = true) as Hn.
  { intros n. unfold pretty, pretty_N. case_decide; [done|]. by apply Hgo. }
  destruct z as [|p|p]; [done|apply Hn|].
  change (pretty (Z.neg p)) with ("-" +:+ pretty (N.pos p)). rewrite s2b_app. apply Hn.
Qed.

(** The chat and thread of a session identifier are read back exactly, for
    every account name without a colon. *)
Theorem session_identity_roundtrip account chat_id thread_id :
  no_colon (s2b account) = true -> is_i64 chat_id = true ->
  match thread_id with Some t => is_i64 t | None => true end = true ->
  parse_session_identity (session_id_for account chat_id thread_id) = Some (chat_id, thread_id).
Proof.
  intros Ha Hc Ht. unfold parse_session_identity, session_id_for, strip_prefix.
  rewrite s2b_app. set (rest := s2b (account +:+ _)).
  assert (starts_with (s2b "telegram:" ++ rest) (s2b "telegram:") = true) as ->
    by (apply starts_with_spec; by exists rest).
  rewrite drop_app_length. cbn [mbind option_bind]. subst rest. rewrite !s2b_app.
  change (s2b ":") with [Byte.x3a]. cbn [app]. rewrite split_colon_app by done.
  cbn [mbind option_bind]. rewrite split_colon_app by apply pretty_no_colon.
  rewrite b2s_s2b, parse_pretty by done. cbn [mbind option_bind from_option id].
  destruct thread_id as [t|]; [|done].
  destruct (bool_decide (s2b (pretty t) = [])) eqn:E.
  { apply bool_decide_eq_true in E. pose proof (parse_pretty t Ht) as Hp. unfold parse_i64 in Hp.
    by rewrite E in Hp. }
  by rewrite b2s_s2b, parse_pretty.
Qed.

(** ** Streamed text *)

(** What the chat shows after a sequence of calls: a send adds a message, an
    edit replaces the text of one. *)
Definition show (chat : list (Z * string)) (c : ApiCall) : list (Z * string) :=
  match c with
  | CallSend text (Ok id) => chat ++ [(id, text)]
  | CallEdit id text (Ok _) => map (fun m => if (fst m =? id)%Z then (id, text) else m) chat
  | _ => chat
  end.
Definition chat_of (log : list ApiCall) : list (Z * string) := fold_left show log [].
Definition shown (log : list ApiCall) : string := joined (map snd (chat_of log)).

Definition delta_event (text : string) : Json := jobj [("delta", JString text)].

Section StreamProofs.
Context (session_id : string) (epoch : Z) (interval : Z) (ids : nat -> Z) (clock : nat -> Z)
        (advance_cursor : Z -> bool) (env : nat -> EpochState -> EpochState).
Hypothesis ids_inj : forall a b, ids a = ids b -> a = b.
Hypothesis stays_current : forall n epochs, epoch_current (env n epochs) session_id epoch = true.

Abbreviation sends := (fun n => @Ok Z TelegramError (ids n)).
Abbreviation edits := (fun _ : nat => @Ok unit TelegramError tt).
Abbreviation acting := (render_actions session_id epoch interval sends edits clock env).
Abbreviation deliver := (render_event session_id epoch interval sends edits clock advance_cursor env).

(** Delivery of a sequence of deltas. *)
Fixpoint stream (seq : Z) (deltas : list string) (d : Delivering) : Delivering * bool :=
  match deltas with
  | [] => (d, true)
  | t :: deltas' =>
      match deliver seq "model.delta" (delta_event t) d with
      | (d, false) => (d, false)
      | (d, true) => stream (seq + 1) deltas' d
      end
  end.

Definition sent (k : nat) (l : list string) : list ApiCall :=
  imap (fun i t => CallSend t (Ok (ids (k + i)))) l.

Lemma sent_cons k t l : sent k (t :: l) = CallSend t (Ok (ids k)) :: sent (S k) l.
Proof.
  unfold sent. rewrite imap_cons, Nat.add_0_r. f_equal. apply imap_ext. intros i x _. cbn. do 3 f_equal. lia.
Qed.

Lemma sends_delivered l d :
  exists d', acting true (map SendDelta l) d = (d', true) /\
    dl_log d' = dl_log d ++ sent (length (dl_log d)) l /\
    current_text (dl_renderer d') = current_text (dl_renderer d) /\
    current_message_id (dl_renderer d') =
      match l with [] => current_message_id (dl_renderer d)
              | _ => Some (ids (length (dl_log d) + (length l - 1))) end.
Proof.
  revert d. induction l as [|t l IH]; intros d; cbn [map render_actions].
  { exists d. by rewrite app_nil_r. }
  unfold check_epoch. rewrite stays_current. cbn [render_action send]. cbn [dl_log with_checked].
  cbn [with_log with_renderer dl_renderer dl_checks dl_epochs]. rewrite stays_current.
  match goal with |- context [acting true _ ?x] => destruct (IH x) as (d' & -> & Hl & Ht & Hm) end.
  cbn [dl_log dl_renderer with_checked with_renderer with_log current_text current_message_id note_sent] in Hl, Ht, Hm.
  rewrite length_app in Hl, Hm. cbn [length] in Hl, Hm. exists d'. split; [done|].
  rewrite sent_cons, Hl, Ht, <- app_assoc. split; [cbn [app]; do 3 f_equal; lia|]. split; [done|].
  rewrite Hm. destruct l as [|t2 l]; cbn [length]; f_equal; f_equal; lia.
Qed.

Lemma chat_sent k l chat :
  fold_left show (sent k l) chat = chat ++ imap (fun i t => (ids (k + i), t)) l.
Proof.
  revert k chat. induction l as [|t l IH]; intros k chat; [by rewrite app_nil_r|].
  rewrite sent_cons. cbn [fold_left show]. rewrite IH, <- app_assoc, imap_cons, Nat.add_0_r. cbn [app].
  do 2 f_equal. apply imap_ext. intros i x _. cbn. do 2 f_equal. lia.
Qed.

Lemma texts_sent k (l : list string) : map snd (imap (fun i t => (ids (k + i), t)) l) = l.
Proof.
  change (map snd ?x) with (snd <$> x). rewrite fmap_imap. apply list_eq. intros i.
  rewrite list_lookup_imap. by destruct (l !! i).
Qed.

(** The chat shows the text; its last message is the edit target and holds
    the renderer's text; its identifiers are those handed out so far. *)
Definition streaming (text : string) (d : Delivering) : Prop :=
  joined (map snd (chat_of (dl_log d))) = text /\
  Forall (fun m => exists i, i < length (dl_log d) /\ fst m = ids i) (chat_of (dl_log d)) /\
  NoDup (map fst (chat_of (dl_log d))) /\
  match current_message_id (dl_renderer d) with
  | None => chat_of (dl_log d) = [] /\ current_text (dl_renderer d) = EmptyString
  | Some id => exists before, chat_of (dl_log d) = before ++ [(id, current_text (dl_renderer d))]
  end.

Lemma joined_app a b : joined (a ++ b) = joined a +:+ joined b.
Proof.
  unfold joined. induction a as [|x a IH]; [done|]. cbn [app].
  rewrite !CompactText.concat_nil_cons, IH. apply s2b_inj. by rewrite !s2b_app, app_assoc.
Qed.

Lemma joined_singleton t : joined [t] = t.
Proof. done. Qed.

Lemma fresh_ids k l :
  NoDup (map fst (imap (fun i t => (ids (k + i), t)) (l : list string))) /\
  Forall (fun m => exists i, k <= i < k + length l /\ fst m = ids i) (imap (fun i t => (ids (k + i), t)) l).
Proof.
  revert k. induction l as [|t l IH]; intros k; [split; constructor|].
  rewrite imap_cons, Nat.add_0_r.
  assert (imap (fun i t0 => (ids (k + S i), t0)) l = imap (fun i t0 => (ids (S k + i), t0)) l) as E
    by (apply imap_ext; intros; do 2 f_equal; lia).
  change (imap ((fun i t0 => (ids (k + i), t0)) ∘ S) l) with (imap (fun i t0 => (ids (k + S i), t0)) l).
  rewrite E. destruct (IH (S k)) as [Hnd Hf]. split.
  - cbn [map fst]. constructor; [|done]. intros (m & Hm & Hin)%list_elem_of_fmap.
    rewrite Forall_forall in Hf. destruct (Hf _ Hin) as (i & Hi & Ei). rewrite <- Hm in Ei.
    cbn in Ei. apply ids_inj in Ei. lia.
  - constructor; [exists k; cbn; split; [lia|done]|]. eapply Forall_impl; [exact Hf|]. cbn.
    intros m (i & Hi & Ei). exists i. split; [lia|done].
Qed.

(** Messages added to a chat whose identifiers were handed out before. *)
Lemma chat_extended k (l : list string) chat :
  NoDup (map fst chat) -> Forall (fun m => exists i, i < k /\ fst m = ids i) chat ->
  NoDup (map fst (chat ++ imap (fun i t => (ids (k + i), t)) l)) /\
  Forall (fun m => exists i, i < k + length l /\ fst m = ids i) (chat ++ imap (fun i t => (ids (k + i), t)) l).
Proof.
  intros Hnd Hf. destruct (fresh_ids k l) as [Hnd' Hf']. split.
  - rewrite map_app. apply NoDup_app. split; [done|]. split; [|done].
    intros x (m & -> & Hin)%list_elem_of_fmap (m' & Hm' & Hin')%list_elem_of_fmap.
    rewrite Forall_forall in Hf, Hf'. destruct (Hf _ Hin) as (i & Hi & Ei), (Hf' _ Hin') as (j & Hj & Ej).
    rewrite Ei, Ej in Hm'. apply ids_inj in Hm'. lia.
  - apply Forall_app. split; (eapply Forall_impl; [eassumption|]); cbn; intros m (i & Hi & Ei); exists i;
      (split; [lia|done]).
Qed.

Lemma chat_of_app a b : chat_of (a ++ b) = fold_left show b (chat_of a).
Proof. unfold chat_of. by rewrite fold_left_app. Qed.

(** The last of the added messages. *)
Lemma last_sent k (l : list string) x :
  last l = Some x ->
  exists before, imap (fun i t => (ids (k + i), t)) l = before ++ [(ids (k + (length l - 1)), x)].
Proof.
  intros (l' & ->)%last_Some. rewrite imap_app. exists (imap (fun i t => (ids (k + i), t)) l').
  f_equal. cbn. rewrite length_app. cbn. do 3 f_equal. lia.
Qed.

Lemma edit_delivered id c acts d :
  (interval <= 0)%Z ->
  exists d1, acting true (Edit id c :: acts) d = acting true acts d1 /\
    dl_log d1 = dl_log d ++ [CallEdit id c (Ok tt)] /\ dl_renderer d1 = dl_renderer d.
Proof.
  intros Hi. cbn [render_actions]. unfold check_epoch. rewrite stays_current. cbn [render_action andb].
  match goal with |- context [(saturating_sub ?a ?b <? interval)%Z] =>
    assert ((saturating_sub a b <? interval)%Z = false) as -> by (unfold saturating_sub; lia) end.
  cbn [edit]. rewrite stays_current. eexists. split; [reflexivity|]. done.
Qed.

Lemma edited_chat (before : list (Z * string)) id old c :
  NoDup (map fst (before ++ [(id, old)])) ->
  map (fun m => if (fst m =? id)%Z then (id, c) else m) (before ++ [(id, old)]) = before ++ [(id, c)].
Proof.
  intros Hnd. rewrite map_app. cbn. rewrite Z.eqb_refl. f_equal.
  rewrite map_app in Hnd. apply NoDup_app in Hnd as (_ & Hd & _).
  rewrite <- (map_id before) at 2. apply map_ext_Forall, Forall_forall. intros m Hm.
  destruct (Z.eqb_spec (fst m) id) as [E|]; [|done]. exfalso. apply (Hd id); [|by left].
  rewrite <- E. by apply list_elem_of_fmap_2.
Qed.

Lemma last_nonempty {A} (l : list A) : l <> [] -> exists x, last l = Some x.
Proof. intros H. destruct (last l) eqn:E; [eauto|]. by apply last_None in E. Qed.

(** The chunks of a text are sent as new messages. *)
Lemma stream_start text t d :
  streaming text d -> current_message_id (dl_renderer d) = None ->
  let chunks := chunk_text (current_text (dl_renderer d) +:+ t) in
  let r := {| current_message_id := None; current_text := default EmptyString (last chunks) |} in
  exists d', acting true (map SendDelta chunks) (with_renderer r d) = (d', true) /\ streaming (text +:+ t) d'.
Proof.
  intros (Htext & Hids & Hnd & Hcur) Hnone chunks r. rewrite Hnone in Hcur. destruct Hcur as [Hchat Hempty].
  destruct (sends_delivered chunks (with_renderer r d)) as (d' & -> & Hl & Ht & Hm). exists d'. split; [done|].
  cbn [dl_log with_renderer dl_renderer] in Hl, Ht, Hm.
  pose proof (chunk_text_nonempty (current_text (dl_renderer d) +:+ t)) as Hne. fold chunks in Hne.
  destruct (last_nonempty chunks Hne) as [x Hx].
  destruct (chat_extended (length (dl_log d)) chunks (chat_of (dl_log d)) Hnd Hids) as [Hnd' Hids'].
  unfold streaming. rewrite Hl, chat_of_app, chat_sent, length_app.
  assert (length (sent (length (dl_log d)) chunks) = length chunks) as -> by apply length_imap.
  split; [|split; [done|split; [done|]]].
  - rewrite map_app, texts_sent, joined_app, Htext. unfold chunks. rewrite chunk_text_join.
    rewrite Hempty. done.
  - rewrite Hm. destruct chunks as [|c chunks']; [done|]. rewrite Ht. cbn [r current_text]. rewrite Hx.
    destruct (last_sent (length (dl_log d)) (c :: chunks') x Hx) as (before & ->).
    exists (chat_of (dl_log d) ++ before). by rewrite <- app_assoc.
Qed.

(** With a message on display, the first chunk replaces its text. *)
Lemma stream_continue text t d id :
  (interval <= 0)%Z -> streaming text d -> current_message_id (dl_renderer d) = Some id ->
  let chunks := chunk_text (current_text (dl_renderer d) +:+ t) in
  let r := {| current_message_id := Some id; current_text := default EmptyString (last chunks) |} in
  exists d', acting true (chunk_actions (Some id) chunks) (with_renderer r d) = (d', true) /\
    streaming (text +:+ t) d'.
Proof.
  intros Hint (Htext & Hids & Hnd & Hcur) Hsome chunks r. rewrite Hsome in Hcur. destruct Hcur as [before Hchat].
  pose proof (chunk_text_nonempty (current_text (dl_renderer d) +:+ t)) as Hne.
  pose proof (chunk_text_join (current_text (dl_renderer d) +:+ t)) as Hjoin. fold chunks in Hne, Hjoin.
  destruct chunks as [|c rest]; [done|]. cbn [chunk_actions].
  destruct (edit_delivered id c (map SendDelta rest) (with_renderer r d) Hint) as (d1 & -> & Hl1 & Hr1).
  cbn [dl_log dl_renderer with_renderer] in Hl1, Hr1.
  destruct (sends_delivered rest d1) as (d' & -> & Hl & Ht & Hm). exists d'. split; [done|].
  assert (chat_of (dl_log d1) = before ++ [(id, c)]) as Hchat1.
  { rewrite Hl1, chat_of_app. cbn [fold_left show]. rewrite Hchat in Hnd |- *. by apply edited_chat. }
  assert (map fst (before ++ [(id, c)]) = map fst (chat_of (dl_log d))) as Hfst
    by (rewrite Hchat, !map_app; done).
  assert (Forall (fun m => exists i, i < length (dl_log d1) /\ fst m = ids i) (chat_of (dl_log d1))) as Hids1.
  { rewrite Hchat1, <- Forall_map with (P := fun i0 => exists i, i < length (dl_log d1) /\ i0 = ids i).
    rewrite Hfst. apply Forall_map. eapply Forall_impl; [exact Hids|]. cbn. intros m (i & Hi & Ei). exists i.
    rewrite Hl1, length_app. split; [lia|done]. }
  assert (NoDup (map fst (chat_of (dl_log d1)))) as Hnd1 by (by rewrite Hchat1, Hfst).
  destruct (chat_extended (length (dl_log d1)) rest (chat_of (dl_log d1)) Hnd1 Hids1) as [Hnd' Hids'].
  unfold streaming. rewrite Hl, chat_of_app, chat_sent, length_app.
  assert (length (sent (length (dl_log d1)) rest) = length rest) as -> by apply length_imap.
  split; [|split; [done|split; [done|]]].
  - rewrite map_app, texts_sent, Hchat1, map_app, <- app_assoc, joined_app. cbn [map snd app].
    rewrite Hjoin, <- Htext, Hchat, map_app, joined_app. apply s2b_inj. by rewrite !s2b_app, app_assoc.
  - rewrite Hm, Ht, Hr1. destruct rest as [|c2 rest].
    + exists before. by rewrite Hchat1, app_nil_r.
    + subst r. cbn [current_text]. destruct (last_nonempty (c2 :: rest) ltac:(done)) as [x Hx].
      change (last (c :: c2 :: rest)) with (last (c2 :: rest)). rewrite Hx.
      destruct (last_sent (length (dl_log d1)) (c2 :: rest) x Hx) as (b2 & ->).
      exists (chat_of (dl_log d1) ++ b2). by rewrite <- app_assoc.
Qed.

Lemma on_event_delta r t : on_event r "model.delta" (delta_event t) = on_delta r t.
Proof. reflexivity. Qed.

Lemma with_cursor_streaming text c st d : streaming text d -> streaming text (with_cursor c st d).
Proof. done. Qed.

Lemma delta_delivered text t seq d :
  (interval <= 0)%Z -> streaming text d ->
  exists d', deliver seq "model.delta" (delta_event t) d = (d', true) /\ streaming (text +:+ t) d'.
Proof.
  intros Hi Hs. unfold render_event. rewrite on_event_delta, str_eqb_refl. unfold on_delta.
  destruct (is_empty t) eqn:Et.
  { destruct t; [|done]. cbn. eexists. split; [reflexivity|]. apply with_cursor_streaming.
    assert (text +:+ EmptyString = text) as -> by (apply s2b_inj; by rewrite s2b_app, app_nil_r). exact Hs. }
  destruct (current_message_id (dl_renderer d)) as [id|] eqn:Ec.
  - destruct (stream_continue text t d id Hi Hs Ec) as (d' & -> & Hs'). eexists. split; [reflexivity|]. exact Hs'.
  - destruct (stream_start text t d Hs Ec) as (d' & E & Hs'). cbn [chunk_actions]. rewrite E.
    eexists. split; [reflexivity|]. exact Hs'.
Qed.


(** An edit dropped by throttling is lost for good when the text outgrows
    the message in the same event: the rest is sent as new messages, the old
    message is no longer the edit target, and the chat misses what the first
    chunk added to it. *)
Theorem throttled_overflow_loses_text text t seq d id first second rest :
  streaming text d -> current_message_id (dl_renderer d) = Some id -> t <> EmptyString ->
  (saturating_sub (clock (dl_ticks d)) (dl_last_edit d) < interval)%Z ->
  chunk_text (current_text (dl_renderer d) +:+ t) = first :: second :: rest ->
  exists d', deliver seq "model.delta" (delta_event t) d = (d', true) /\
    shown (dl_log d') = text +:+ joined (second :: rest) /\
    (first <> current_text (dl_renderer d) -> shown (dl_log d') <> text +:+ t) /\
    current_message_id (dl_renderer d') <> Some id.
Proof.
  intros (Htext & Hids & Hnd & Hcur) Hc Ht Hthr Hch. unfold render_event.
  rewrite on_event_delta, str_eqb_refl. unfold on_delta. destruct t as [|a t]; [done|]. cbn [is_empty].
  rewrite Hch, Hc. cbn [chunk_actions render_actions]. unfold check_epoch at 1. rewrite stays_current.
  cbn [render_action andb dl_ticks dl_last_edit with_checked with_renderer].
  destruct (Z.ltb_spec (saturating_sub (clock (dl_ticks d)) (dl_last_edit d)) interval); [|lia].
  unfold check_epoch at 1. rewrite stays_current.
  match goal with |- context [acting true (map SendDelta (second :: rest)) ?x] =>
    destruct (sends_delivered (second :: rest) x) as (d' & E & Hl & Htx & Hm) end.
  cbn [map] in E. cbn [map]. rewrite E. eexists. split; [reflexivity|].
  cbn [dl_log with_cursor dl_renderer with_checked with_renderer tick] in Hl, Htx, Hm |- *.
  assert (shown (dl_log d') = text +:+ joined (second :: rest)) as Hsh.
  { unfold shown. rewrite Hl, chat_of_app, chat_sent, map_app, texts_sent, joined_app. by rewrite Htext. }
  split; [done|]. split.
  - rewrite Hsh. intros Hne Heq. apply Hne.
    pose proof (chunk_text_join (current_text (dl_renderer d) +:+ String a t)) as Hj. rewrite Hch in Hj.
    apply (f_equal s2b) in Heq, Hj. rewrite !s2b_app in Heq. apply app_inv_head in Heq.
    change (joined (first :: second :: rest)) with (joined ([first] ++ second :: rest)) in Hj.
    rewrite joined_app, !s2b_app, Heq in Hj. apply app_inv_tail in Hj. by apply s2b_inj.
  - rewrite Hm. intros [= E']. rewrite Hc in Hcur. destruct Hcur as [before Hchat].
    rewrite Forall_forall in Hids. destruct (Hids (id, current_text (dl_renderer d))) as (i & Hi & Ei).
    { rewrite Hchat. apply elem_of_app. right. by left. }
    cbn in Ei. rewrite Ei in E'. apply ids_inj in E'. lia.
Qed.

End StreamProofs.

Module TelegramExample.

Definition allowed : Allowlist := allowlist_from_config ["bot"] [7%Z] [9%Z].

Definition text_update (update_id message_id : Z) (text : string) : TgUpdate :=
  {| up_update_id := update_id;
     up_message := Some {| tm_message_id := message_id; tm_date := 0;
       tm_chat := {| tch_id := 7; tch_type := "private"; tch_title := None |};
       tm_from := Some {| tu_id := 9; tu_is_bot := false; tu_first_name := None; tu_username := None |};
       tm_text := Some text; tm_message_thread_id := None; tm_is_topic_message := None |} |}.

(** A batch answered twice after a lost confirmation, and one in reverse. *)
Definition rounds : list Round :=
  [Batch [(false, 0%Z, text_update 10 1 "hello"); (false, 0%Z, text_update 11 2 "/status")] false;
   Failure (Server 502);
   Batch [(false, 0%Z, text_update 10 1 "hello"); (false, 0%Z, text_update 13 4 "a");
          (false, 0%Z, text_update 12 3 "b")] true].

Lemma poller_handles_once_witness :
  exists p, start_poller None true (Drained 10) true 8 = Some p /\
  map fst (po_handled (run_poller allowed "bot" 3 p rounds true)) = [10; 11; 13]%Z /\
  po_persisted (run_poller allowed "bot" 3 p rounds true) = [10; 14; 14]%Z /\
  StronglySorted Z.lt (map fst (po_handled (run_poller allowed "bot" 3 p rounds true))).
Proof.
  eexists. split; [reflexivity|]. split; [vm_compute; reflexivity|]. split; [vm_compute; reflexivity|].
  apply (poller_handles_once allowed "bot" 3 None true (Drained 10) true 8 _ rounds true); [reflexivity|].
  repeat constructor.
Defined.

(** At the largest [i64] the offset wraps around, and a smaller update is handled
    after the larger one. *)
Example offset_wraps_around :
  let q := run_poller allowed "bot" 3
    {| po_offset := None; po_dedup := dedup_new 8; po_streak := 0; po_handled := []; po_persisted := [] |}
    [Batch [(false, 0%Z, {| up_update_id := i64_max; up_message := None |});
            (false, 0%Z, {| up_update_id := 5; up_message := None |})] true] true in
  map fst (po_handled q) = [i64_max; 5%Z].
Proof. vm_compute. reflexivity. Qed.

Definition captured : Renderers :=
  {| rs_epochs := fst (epoch_capture (rs_epochs renderers_init) "s");
     rs_live := <[0 := ("s", snd (epoch_capture (rs_epochs renderers_init) "s"))]> (rs_live renderers_init);
     rs_started := 1 |}.

Lemma reset_epochs_safe_witness :
  exists st', epoch_current (rs_epochs captured) "s" 0 = true /\
    rs_live st' !! 0 = Some ("s", 0%Z) /\ epoch_current (rs_epochs st') "s" 0 = false.
Proof.
  eexists {| rs_epochs := epoch_bump (rs_epochs captured) "s"; rs_live := rs_live captured; rs_started := 1 |}.
  split; [vm_compute; reflexivity|]. split; [vm_compute; reflexivity|].
  apply (reset_epochs_safe captured "s" 0 0); [|vm_compute; reflexivity|apply AliveRefl; vm_compute; reflexivity].
  apply rtc_once. apply (StepCapture renderers_init).
Defined.

Definition idle : Delivering :=
  {| dl_renderer := renderer_new; dl_last_edit := 0; dl_cursor := 1; dl_epochs := ∅; dl_checks := 0;
     dl_ticks := 0; dl_log := []; dl_advances := []; dl_advance_failures := 0 |}.

Definition replayed : list Replayed :=
  [(1%Z, "model.delta", delta_event "old"); (2%Z, "model.delta", delta_event "ab");
   (3%Z, "model.delta", delta_event "cd"); (5%Z, "run.completed", JNull)].

(** The chat accepts every call and nothing else touches the epochs. *)
Definition ids (n : nat) : Z := Z.of_nat n + 100.
Definition sends (n : nat) : result Z TelegramError := Ok (ids n).
Definition edits (n : nat) : result unit TelegramError := Ok tt.
Definition quiet (n : nat) (epochs : EpochState) : EpochState := ∅.
Definition clock (n : nat) : Z := 0.

Lemma delivery_cursor_advances_witness :
  dl_advances (run_renderer "s" 0 0 sends edits clock (fun _ => true) quiet replayed (Some []) idle) = [2; 3; 5]%Z /\
  cursors_ok 1 (run_renderer "s" 0 0 sends edits clock (fun _ => true) quiet replayed (Some []) idle).
Proof.
  split; [vm_compute; reflexivity|].
  apply (delivery_cursor_advances "s" 0 0 sends edits clock (fun _ => true) quiet replayed (Some []) idle);
    reflexivity.
Defined.

(** A reset bumps the epoch before the third check. *)
Definition reset_at_2 (n : nat) (epochs : EpochState) : EpochState :=
  if (n <? 2)%nat then ∅ else {["s" := {| ee_epoch := 1; ee_renderers := 1 |}]}.
Definition checked_twice : Delivering := with_checked ∅ (with_checked ∅ idle).

Lemma stale_renderer_is_silent_witness :
  length (dl_log (run_renderer "s" 0 0 sends edits clock (fun _ => true) reset_at_2 replayed (Some []) idle)) = 1 /\
  dl_log (run_renderer "s" 0 0 sends edits clock (fun _ => true) reset_at_2 replayed (Some []) checked_twice) = [].
Proof.
  split; [vm_compute; reflexivity|].
  apply (stale_renderer_is_silent "s" 0 0 sends edits clock (fun _ => true) reset_at_2 replayed (Some []) checked_twice).
  intros m epochs Hm. unfold reset_at_2. cbn in Hm. destruct (Nat.ltb_spec m 2); [lia|]. vm_compute. reflexivity.
Defined.

#[local] Instance no_rows : StoreReaders := {|
  json_parse := fun _ => Err "none"; workspace_from_value := fun _ => None
|}.

Lemma replay_below_floor_never_ends_witness :
  replay_loop (storage_event_replay 40 (fun _ => JNull)) "run" 100 25 [] = None /\
  replay_loop (storage_event_replay 40 (fun _ => jobj [("events", JArray [])])) "run" 100 40 [] <> None.
Proof.
  split; [|vm_compute; discriminate].
  apply (replay_below_floor_never_ends 40 (fun _ => JNull) "run" 100 25 []); [reflexivity|..];
    unfold i64_min; lia.
Defined.

Lemma session_identity_roundtrip_witness :
  session_id_for "bot" (-100123) (Some 7%Z) = "telegram:bot:-100123:7" /\
  parse_session_identity (session_id_for "bot" (-100123) (Some 7%Z)) = Some (-100123, Some 7)%Z.
Proof.
  split; [vm_compute; reflexivity|]. apply (session_identity_roundtrip "bot" (-100123) (Some 7%Z)); reflexivity.
Defined.

Lemma ids_injective a b : ids a = ids b -> a = b.
Proof. unfold ids. lia. Qed.


(** One message on display, and a delta that fills it and needs another. *)
Definition one_message : Delivering :=
  with_renderer {| current_message_id := Some 100%Z; current_text := "a" |} (with_log (CallSend "a" (Ok 100%Z)) idle).
Definition long_delta : string := b2s (replicate 4096 Byte.x62).

Lemma throttled_overflow_loses_text_witness :
  exists d', render_event "s" 0 1000 sends edits clock (fun _ => true) quiet 2 "model.delta"
               (delta_event long_delta) one_message = (d', true) /\
    shown (dl_log d') = "ab" /\ current_message_id (dl_renderer d') <> Some 100%Z.
Proof.
  destruct (throttled_overflow_loses_text "s" 0 1000 ids clock (fun _ => true) quiet ids_injective
    (fun _ _ => eq_refl) "a" long_delta 2 one_message 100 ("a" +:+ b2s (replicate 4095 Byte.x62)) "b" [])
    as (d' & E & Hs & _ & Hm).
  - unfold streaming. split; [reflexivity|]. split; [|split].
    + constructor; [|constructor]. exists 0. cbn. split; [lia|reflexivity].
    + constructor; [intros Hin; inversion Hin|constructor].
    + exists []. reflexivity.
  - reflexivity.
  - discriminate.
  - reflexivity.
  - vm_compute. reflexivity.
  - exists d'. split; [exact E|]. split; [exact Hs|exact Hm].
Defined.

(** A page boundary replayed twice: rows 2 and 3, then 3 and 4.  Catching up
    renders row 3 once, the re-synchronisation after an overflow twice. *)
Definition requested (seq : Z) (name : string) : Replayed :=
  (seq, "tool.requested", jobj [("name", JString name)]).
Definition two_pages : list Replayed :=
  [requested 2 "read"; requested 3 "write"; requested 3 "write"; requested 4 "list"].

Definition sent_texts (d : Delivering) : list string :=
  omap (fun c => match c with CallSend t _ => Some t | CallEdit _ _ _ => None end) (dl_log d).

Example resync_repeats_page_boundary :
  sent_texts (fst (catch_up "s" 0 0 sends edits clock (fun _ => true) quiet two_pages idle))
    = ["[tool] read requested"; "[tool] write requested"; "[tool] list requested"] /\
  sent_texts (fst (resync "s" 0 0 sends edits clock (fun _ => true) quiet 1 two_pages idle))
    = ["[tool] read requested"; "[tool] write requested"; "[tool] write requested"; "[tool] list requested"].
Proof. split; vm_compute; reflexivity. Qed.

(** A full-text [message.delta] after overflowing deltas puts the start of the
    text into the message that holds its end. *)
Definition overflowed : Delivering * bool :=
  stream "s" 0 0 ids clock (fun _ => true) quiet 2 ["a"; long_delta] idle.
Definition finished : Delivering * bool :=
  render_event "s" 0 0 sends edits clock (fun _ => true) quiet 4 "message.delta"
    (delta_event ("a" +:+ long_delta)) (fst overflowed).
Definition full_message : string := "a" +:+ b2s (replicate 4095 Byte.x62).

Example full_text_after_overflow_repeats_start :
  (map snd (chat_of (dl_log (fst overflowed))), map snd (chat_of (dl_log (fst finished)))) =
  ([full_message; "b"], [full_message; full_message; "b"]).
Proof. vm_compute. reflexivity. Qed.

End TelegramExample.
