(* ===== verification/Limits.v ===== *)
(** * Admission limits ([src/config.rs])

    What a request must satisfy before a run is admitted: names and request
    hashes, the byte budget of the rows storage reads back, provider profiles
    and run limits.  The [url] crate and the file system are interfaces. *)

From stdpp Require Import pretty.
From S2P Require Import Prelude Utf8 Json.

Module Limits.

(** ** Names and hashes *)

Definition MAX_PROVIDER_OPTIONS_BYTES : Z := 16 * 1024.
Definition MAX_IDEMPOTENCY_KEY_BYTES : Z := 4 * 1024.
Definition MAX_PROVIDER_NAME_BYTES : Z := 256.
Definition MAX_MODEL_NAME_BYTES : Z := 1024.
Definition REQUEST_HASH_PREFIX : string := "fnv64:".
Definition REQUEST_HASH_HEX_DIGITS : Z := 16.

Definition invisible (s : string) : bool := existsb (fun c => is_whitespace c || is_control c) (chars s).

Definition validate_visible_name (value field : string) (max_bytes : Z) : result unit string :=
  if is_empty value then Err (field +:+ " must not be empty")
  else if (max_bytes <? slen value)%Z then
    Err (field +:+ " exceeds the " +:+ pretty max_bytes +:+ "-byte limit")
  else if invisible value then
    Err (field +:+ " must contain only visible non-whitespace, non-control UTF-8 characters")
  else Ok tt.

Definition is_lower_hex (b : byte) : bool := in_range 48 57 b || in_range 97 102 b.

Definition validate_request_hash (value : string) : result unit string :=
  if starts_with (s2b value) (s2b REQUEST_HASH_PREFIX) then
    let hex := drop (length (s2b REQUEST_HASH_PREFIX)) (s2b value) in
    if negb (blen hex =? REQUEST_HASH_HEX_DIGITS)%Z || negb (forallb is_lower_hex hex) then
      Err "request_hash must be fnv64: followed by exactly 16 lowercase hex digits"
    else Ok tt
  else Err "request_hash must use the fnv64:<16 lowercase hex> format".

(** ** The byte budget of the admission rows *)

Definition ADMISSION_QUERY_RESULT_LIMIT_BYTES : Z := 64 * 1024.
Definition ADMISSION_IDEMPOTENCY_QUERY_LIMIT_BYTES : Z := 8 * 1024.
Definition SQLITE_QUERY_INT_BYTES : Z := 8.
Definition MAX_RUN_CONTEXT_STORAGE_BYTES : Z := ADMISSION_QUERY_RESULT_LIMIT_BYTES.
Definition ADMISSION_RUN_STATUS : string := "running".
Definition ADMISSION_SESSION_STATUS : string := "active".
Definition ADMISSION_SESSION_PROFILE : string := "gateway".
Definition ADMISSION_MESSAGE_ROLE : string := "user".
Definition ADMISSION_METADATA_JSON : string := "{}".
Definition ADMISSION_IDEMPOTENCY_SCOPE : string := "api:chat".
Definition ADMISSION_RESOURCE_TYPE : string := "run".
Definition ADMISSION_IDEMPOTENCY_STATE : string := "completed".
Definition ADMISSION_IDEMPOTENCY_RESPONSE_PREFIX_BYTES : Z := 11.
Definition ADMISSION_IDEMPOTENCY_RESPONSE_SUFFIX_BYTES : Z := 21.

Inductive AdmissionSqliteCellKind := Text | Integer.

Record AdmissionQueryColumn := { qc_name : string; qc_kind : AdmissionSqliteCellKind }.

Definition text (name : string) : AdmissionQueryColumn := {| qc_name := name; qc_kind := Text |}.
Definition integer (name : string) : AdmissionQueryColumn := {| qc_name := name; qc_kind := Integer |}.

Definition ADMISSION_RUN_QUERY_COLUMNS : list AdmissionQueryColumn :=
  [text "id"; text "session_id"; text "parent_run_id"; text "status"; text "input_json";
   text "provider"; text "model"; text "script_hash"; text "idempotency_scope";
   text "idempotency_key"; integer "turn_count"; integer "input_tokens";
   integer "output_tokens"; text "error_code"; text "error_message"; text "recovery_reason";
   integer "created_at_ms"; integer "started_at_ms"; integer "finished_at_ms";
   integer "updated_at_ms"].

Definition ADMISSION_RUN_COL_ID : nat := 0.
Definition ADMISSION_RUN_COL_SESSION_ID : nat := 1.
Definition ADMISSION_RUN_COL_PARENT_RUN_ID : nat := 2.
Definition ADMISSION_RUN_COL_STATUS : nat := 3.
Definition ADMISSION_RUN_COL_INPUT_JSON : nat := 4.
Definition ADMISSION_RUN_COL_PROVIDER : nat := 5.
Definition ADMISSION_RUN_COL_MODEL : nat := 6.
Definition ADMISSION_RUN_COL_SCRIPT_HASH : nat := 7.

Definition ADMISSION_SESSION_QUERY_COLUMNS : list AdmissionQueryColumn :=
  [text "id"; text "profile"; text "platform"; text "account_id"; text "chat_id";
   text "thread_id"; text "user_id"; integer "generation"; text "status";
   text "system_prompt"; text "model"; text "provider"; text "toolset_hash";
   text "metadata_json"; integer "last_message_seq"; integer "created_at_ms";
   integer "updated_at_ms"].

Definition ADMISSION_MESSAGE_QUERY_COLUMNS : list AdmissionQueryColumn :=
  [text "id"; text "session_id"; integer "ordinal"; text "role"; text "content_json";
   text "name"; text "tool_call_id"; text "parent_message_id"; integer "token_estimate";
   integer "compacted"; text "metadata_json"; text "run_id"; text "finish_reason";
   integer "created_at_ms"].

Definition ADMISSION_IDEMPOTENCY_LOOKUP_COLUMNS : list AdmissionQueryColumn :=
  [text "request_hash"; text "resource_id"; integer "workspace_identity_match"].

Definition ADMISSION_IDEMPOTENCY_QUERY_COLUMNS : list AdmissionQueryColumn :=
  [text "scope"; text "key"; text "request_hash"; text "resource_type"; text "resource_id";
   text "state"; text "response_json"; integer "created_at_ms"; integer "expires_at_ms";
   integer "completed_at_ms"].

Fixpoint admission_query_column_index (columns : list AdmissionQueryColumn) (name : string) : option nat :=
  match columns with
  | [] => None
  | c :: columns' =>
      if str_eqb (qc_name c) name then Some 0 else S <$> admission_query_column_index columns' name
  end.

Record AdmissionSqliteCellLens := {
  cl_run_id : Z;
  cl_session_id : Z;
  cl_parent_run_id : Z;
  cl_input_json : Z;
  cl_provider : Z;
  cl_model : Z;
  cl_script_hash : Z;
  cl_idempotency_scope : Z;
  cl_idempotency_key : Z;
  cl_platform : Z;
  cl_profile : Z;
  cl_system_prompt : Z;
  cl_message_id : Z;
  cl_request_hash : Z;
  cl_has_idempotency : bool
}.

Record AdmissionQueryEstimate := {
  run_bytes : Z;
  session_bytes : Z;
  message_bytes : Z;
  idempotency_bytes : Z;
  idempotency_lookup_bytes : Z
}.

Inductive AdmissionQueryBudgetError :=
| Overflow
| ExceedsLimit (query : string) (bytes limit : Z).

Definition budget_error_text (e : AdmissionQueryBudgetError) : string :=
  match e with
  | Overflow => "admission query byte estimate overflowed"
  | ExceedsLimit query bytes limit =>
      "admission " +:+ query +:+ " SELECT estimate " +:+ pretty bytes +:+ " exceeds the "
      +:+ pretty limit +:+ "-byte sqlite::query budget"
  end.

Definition ensure_query_budget (query : string) (bytes limit : Z) : result unit AdmissionQueryBudgetError :=
  if (limit <? bytes)%Z then Err (ExceedsLimit query bytes limit) else Ok tt.

Definition ensure_fits (e : AdmissionQueryEstimate) : result unit AdmissionQueryBudgetError :=
  let? _ := ensure_query_budget "run" (run_bytes e) ADMISSION_QUERY_RESULT_LIMIT_BYTES in
  let? _ := ensure_query_budget "session" (session_bytes e) ADMISSION_QUERY_RESULT_LIMIT_BYTES in
  let? _ := ensure_query_budget "message" (message_bytes e) ADMISSION_QUERY_RESULT_LIMIT_BYTES in
  let? _ :=
    if (0 <? idempotency_bytes e)%Z then
      ensure_query_budget "idempotency" (idempotency_bytes e) ADMISSION_IDEMPOTENCY_QUERY_LIMIT_BYTES
    else Ok tt in
  if (0 <? idempotency_lookup_bytes e)%Z then
    ensure_query_budget "idempotency_lookup" (idempotency_lookup_bytes e)
      ADMISSION_IDEMPOTENCY_QUERY_LIMIT_BYTES
  else Ok tt.

Definition sqlite_add (total extra : Z) : result Z AdmissionQueryBudgetError :=
  ok_or (checked_add total extra) Overflow.

Definition sqlite_add_int (total : Z) : result Z AdmissionQueryBudgetError :=
  sqlite_add total SQLITE_QUERY_INT_BYTES.

Definition estimate_select_bytes (columns : list AdmissionQueryColumn) (cells : list Z) :
    result Z AdmissionQueryBudgetError :=
  if negb (length columns =? length cells)%nat then Err Overflow
  else
    let? total := try_fold (fun total c => sqlite_add total (slen (qc_name c))) 0%Z columns in
    try_fold (fun total cc =>
      match qc_kind (fst cc) with
      | Integer => sqlite_add_int total
      | Text => sqlite_add total (snd cc)
      end) total (zip columns cells).

(** [cells[admission_query_column_index(..).expect(..)] = value]; the names
    used are columns ([cell_names_are_columns]). *)
Definition set_cell (columns : list AdmissionQueryColumn) (name : string) (value : Z) (cells : list Z) : list Z :=
  match admission_query_column_index columns name with
  | Some i => <[i := value]> cells
  | None => cells
  end.

Definition run_select_cells (lens : AdmissionSqliteCellLens) : list Z :=
  let names := ADMISSION_RUN_QUERY_COLUMNS in
  let cells := replicate (length names) 0%Z in
  let cells := <[ADMISSION_RUN_COL_ID := cl_run_id lens]> cells in
  let cells := <[ADMISSION_RUN_COL_SESSION_ID := cl_session_id lens]> cells in
  let cells := <[ADMISSION_RUN_COL_PARENT_RUN_ID := cl_parent_run_id lens]> cells in
  let cells := <[ADMISSION_RUN_COL_STATUS := slen ADMISSION_RUN_STATUS]> cells in
  let cells := <[ADMISSION_RUN_COL_INPUT_JSON := cl_input_json lens]> cells in
  let cells := <[ADMISSION_RUN_COL_PROVIDER := cl_provider lens]> cells in
  let cells := <[ADMISSION_RUN_COL_MODEL := cl_model lens]> cells in
  let cells := <[ADMISSION_RUN_COL_SCRIPT_HASH := cl_script_hash lens]> cells in
  let cells := set_cell names "idempotency_scope" (cl_idempotency_scope lens) cells in
  set_cell names "idempotency_key" (cl_idempotency_key lens) cells.

Definition session_select_cells (lens : AdmissionSqliteCellLens) : list Z :=
  let names := ADMISSION_SESSION_QUERY_COLUMNS in
  let cells := replicate (length names) 0%Z in
  let cells := set_cell names "id" (cl_session_id lens) cells in
  let cells := set_cell names "profile" (cl_profile lens) cells in
  let cells := set_cell names "platform" (cl_platform lens) cells in
  let cells := set_cell names "account_id" (cl_session_id lens) cells in
  let cells := set_cell names "status" (slen ADMISSION_SESSION_STATUS) cells in
  let cells := set_cell names "system_prompt" (cl_system_prompt lens) cells in
  let cells := set_cell names "model" (cl_model lens) cells in
  let cells := set_cell names "provider" (cl_provider lens) cells in
  set_cell names "metadata_json" (slen ADMISSION_METADATA_JSON) cells.

Definition message_select_cells (lens : AdmissionSqliteCellLens) : list Z :=
  let names := ADMISSION_MESSAGE_QUERY_COLUMNS in
  let cells := replicate (length names) 0%Z in
  let cells := set_cell names "id" (cl_message_id lens) cells in
  let cells := set_cell names "session_id" (cl_session_id lens) cells in
  let cells := set_cell names "role" (slen ADMISSION_MESSAGE_ROLE) cells in
  let cells := set_cell names "content_json" (cl_input_json lens) cells in
  let cells := set_cell names "metadata_json" (slen ADMISSION_METADATA_JSON) cells in
  set_cell names "run_id" (cl_run_id lens) cells.

(** Unchecked additions: a length near [usize::MAX] would overflow. *)
Definition idempotency_response_bytes (lens : AdmissionSqliteCellLens) : Z :=
  wrap64 (ADMISSION_IDEMPOTENCY_RESPONSE_PREFIX_BYTES + cl_run_id lens
          + ADMISSION_IDEMPOTENCY_RESPONSE_SUFFIX_BYTES).

Definition idempotency_lookup_select_cells (lens : AdmissionSqliteCellLens) : list Z :=
  [cl_request_hash lens; cl_run_id lens; 0%Z].

Definition idempotency_select_cells (lens : AdmissionSqliteCellLens) : list Z :=
  [cl_idempotency_scope lens; cl_idempotency_key lens; cl_request_hash lens;
   slen ADMISSION_RESOURCE_TYPE; cl_run_id lens; slen ADMISSION_IDEMPOTENCY_STATE;
   idempotency_response_bytes lens] ++ [0; 0; 0]%Z.

Definition estimate_admission_query_bytes (lens : AdmissionSqliteCellLens) :
    result AdmissionQueryEstimate AdmissionQueryBudgetError :=
  let? idempotency :=
    if cl_has_idempotency lens then
      estimate_select_bytes ADMISSION_IDEMPOTENCY_QUERY_COLUMNS (idempotency_select_cells lens)
    else Ok 0%Z in
  let? lookup :=
    if cl_has_idempotency lens then
      estimate_select_bytes ADMISSION_IDEMPOTENCY_LOOKUP_COLUMNS (idempotency_lookup_select_cells lens)
    else Ok 0%Z in
  let? run := estimate_select_bytes ADMISSION_RUN_QUERY_COLUMNS (run_select_cells lens) in
  let? session := estimate_select_bytes ADMISSION_SESSION_QUERY_COLUMNS (session_select_cells lens) in
  let? message := estimate_select_bytes ADMISSION_MESSAGE_QUERY_COLUMNS (message_select_cells lens) in
  Ok {| run_bytes := run; session_bytes := session; message_bytes := message;
        idempotency_bytes := idempotency; idempotency_lookup_bytes := lookup |}.

(** ** Provider profiles *)

Definition MAX_PROVIDER_OPTION_STRING_BYTES : Z := 4096.
Definition MAX_PROVIDER_OPTION_KEYS : nat := 32.
Definition MAX_PROVIDER_OPTION_DEPTH : nat := 1.

Inductive ProviderProfileError :=
| EmptyName
| NameTooLong
| InvalidName
| OptionsMissing
| OptionsTooLarge
| OptionsTooDeep
| OptionsTooComplex
| OptionStringTooLong
| OptionsNotObject
| UnknownOption (key : string)
| CredentialBearingOption (key : string)
| UnsafeUrl (reason : string)
| InvalidOptionValue (key : string).

(** [str_debug] is the [{:?}] form of a string. *)
Definition profile_error_text (str_debug : string -> string) (e : ProviderProfileError) : string :=
  match e with
  | EmptyName => "provider profile name is empty"
  | NameTooLong => "provider profile name is too long"
  | InvalidName =>
      "provider profile name must contain only visible non-whitespace, non-control UTF-8 characters"
  | OptionsMissing => "provider options are missing"
  | OptionsTooLarge => "provider options exceed the serialized size limit"
  | OptionsTooDeep => "provider options exceed the nesting limit"
  | OptionsTooComplex => "provider options contain too many keys"
  | OptionStringTooLong => "provider option string is too long"
  | OptionsNotObject => "provider options must be a JSON object"
  | UnknownOption key => "unknown provider option " +:+ str_debug key
  | CredentialBearingOption key =>
      "credential-bearing provider option " +:+ str_debug key +:+ " is not allowed"
  | UnsafeUrl reason => "provider base_url is unsafe: " +:+ reason
  | InvalidOptionValue key => "provider option " +:+ str_debug key +:+ " has an invalid value"
  end.

Record ProviderProfile := { pp_name : string; pp_options : Json }.

(** [url::Url::parse], with the parts the code looks at. *)
Record Url := {
  url_scheme : string;
  url_host : option string;
  url_username : string;
  url_password : option string;
  url_query : option string;
  url_fragment : option string
}.
Class UrlCrate := url_parse : string -> result Url string.

Fixpoint json_nesting_depth (value : Json) : nat :=
  match value with
  | JArray values => S (fold_right Nat.max 0 (map json_nesting_depth values))
  | JObject entries => S (fold_right Nat.max 0 (map (fun kv => json_nesting_depth (snd kv)) entries))
  | _ => 0
  end.

Definition credential_names : list string :=
  ["apikey"; "token"; "accesstoken"; "refreshtoken"; "secret"; "password"; "authorization";
   "credential"; "key"; "header"; "headers"; "cookie"; "cookies"].

Definition is_credential_bearing_option_key (key : string) : bool :=
  let alphanumeric c := match c with [b] => is_ascii_alphanumeric b | _ => false end in
  let normalized := to_ascii_lowercase (of_chars (List.filter alphanumeric (chars key))) in
  existsb (str_eqb normalized) credential_names.

Definition option_string (key : string) (value : Json) : result string ProviderProfileError :=
  ok_or (as_str value) (InvalidOptionValue key).

Section Profile.
Context `{JsonText, UrlCrate}.

Definition check_url (text : string) : result unit ProviderProfileError :=
  let? url := map_err UnsafeUrl (url_parse text) in
  if negb (str_eqb (url_scheme url) "http" || str_eqb (url_scheme url) "https") then
    Err (UnsafeUrl "scheme must be http or https")
  else if negb (bool_decide (is_Some (url_host url))) then Err (UnsafeUrl "host is missing")
  else if negb (is_empty (url_username url)) || bool_decide (is_Some (url_password url)) then
    Err (UnsafeUrl "credentials are not allowed")
  else if bool_decide (is_Some (url_query url)) then Err (UnsafeUrl "query strings are not allowed")
  else if bool_decide (is_Some (url_fragment url)) then Err (UnsafeUrl "fragments are not allowed")
  else Ok tt.

Definition canonicalize_provider_option (key : string) (value : Json) : result Json ProviderProfileError :=
  let too_long text := (MAX_PROVIDER_OPTION_STRING_BYTES <? slen text)%Z in
  if str_eqb key "profile" || str_eqb key "protocol" || str_eqb key "reasoning_effort" then
    let? text := option_string key value in
    if is_empty text then Err (InvalidOptionValue key)
    else if too_long text then Err OptionStringTooLong else Ok (JString text)
  else if str_eqb key "credential_id" then
    let? text := option_string key value in
    if is_empty text || invisible text then Err (InvalidOptionValue key)
    else if too_long text then Err OptionStringTooLong else Ok (JString text)
  else if str_eqb key "base_url" then
    let? text := option_string key value in
    if too_long text then Err OptionStringTooLong
    else let? _ := check_url text in Ok (JString text)
  else if str_eqb key "temperature" || str_eqb key "top_p" then
    match value with JNumber _ => Ok value | _ => Err (InvalidOptionValue key) end
  else if str_eqb key "max_output_tokens" then
    match as_u64 value with Some _ => Ok value | None => Err (InvalidOptionValue key) end
  else if str_eqb key "stream" then
    match value with JBool _ => Ok value | _ => Err (InvalidOptionValue key) end
  else Err (UnknownOption key).

Definition sort_strings : list string -> list string :=
  sort_by_key (fun a b => negb (str_ltb b a)) (fun k => k).

Definition canonicalize_provider_options (value : Json) : result Json ProviderProfileError :=
  if (MAX_PROVIDER_OPTION_DEPTH <? json_nesting_depth value)%nat then Err OptionsTooDeep
  else
    let? entries := ok_or (as_object value) OptionsNotObject in
    if (MAX_PROVIDER_OPTION_KEYS <? length entries)%nat then Err OptionsTooComplex
    else
      let keys := sort_strings (map fst entries) in
      let? canonical :=
        try_fold (fun canonical key =>
          if (128 <? slen key)%Z then Err OptionStringTooLong
          else if is_credential_bearing_option_key key then Err (CredentialBearingOption key)
          else
            let? v := canonicalize_provider_option key (default JNull (obj_get key entries)) in
            Ok (obj_insert key v canonical)) [] keys in
      Ok (JObject canonical).

Definition provider_profile_new (name : string) (options : Json) : result ProviderProfile ProviderProfileError :=
  if is_empty name then Err EmptyName
  else if (MAX_PROVIDER_NAME_BYTES <? slen name)%Z then Err NameTooLong
  else if invisible name then Err InvalidName
  else
    let? options := canonicalize_provider_options options in
    if (MAX_PROVIDER_OPTIONS_BYTES <? slen (json_text options))%Z then Err OptionsTooLarge
    else Ok {| pp_name := name; pp_options := options |}.

Definition protocol_of (name : string) : string :=
  let lower := to_ascii_lowercase name in
  if str_eqb lower "anthropic" then "anthropic-messages"
  else if str_eqb lower "google" || str_eqb lower "gemini" then "google-generative-ai"
  else if str_eqb lower "openai" || str_eqb lower "openai-compatible" then "openai-chat-completions"
  else if str_eqb lower "local-agent" || str_eqb lower "local" then "local-agent"
  else "provider".

Definition builtin (name : string) : result ProviderProfile ProviderProfileError :=
  provider_profile_new name (jobj [("profile", JString name); ("protocol", JString (protocol_of name))]).

Definition profile_to_json (p : ProviderProfile) : Json :=
  jobj [("name", JString (pp_name p)); ("options", pp_options p)].

Definition profile_from_json (value : Json) : result ProviderProfile ProviderProfileError :=
  let? name := ok_or (jget "name" value ≫= as_str) EmptyName in
  let? options := ok_or (jget "options" value) OptionsMissing in
  provider_profile_new name options.

End Profile.

(** ** Run limits *)

Inductive RunLimitsError :=
| Zero (field : string)
| TooLarge (field : string) (value : Z)
| EmptyWorkspace
| RelativeWorkspace
| InvalidWorkspace (path : string).

Definition run_limits_error_text (e : RunLimitsError) : string :=
  match e with
  | Zero field => field +:+ " must be positive"
  | TooLarge field value => field +:+ " is too large: " +:+ pretty value
  | EmptyWorkspace => "workspace_root is empty"
  | RelativeWorkspace => "workspace_root must be absolute"
  | InvalidWorkspace path => "workspace_root is invalid: " +:+ path
  end.

Record RunLimits := {
  max_turns : Z;
  max_tool_calls : Z;
  max_tool_output_bytes : Z;
  workspace_root : string
}.

Definition MAX_TURNS : Z := 1000000.
Definition MAX_TOOL_CALLS : Z := 1000000.
Definition MAX_TOOL_OUTPUT_BYTES : Z := 64 * 1024 * 1024.

(** [std::fs::canonicalize], with its error text, and [Path::is_dir]. *)
Class FileSystem := {
  fs_canonicalize : string -> result string string;
  fs_is_dir : string -> bool
}.

Definition validate_limit_numbers (turns tool_calls output_bytes : Z) : result unit RunLimitsError :=
  if (turns =? 0)%Z then Err (Zero "max_turns")
  else if (tool_calls =? 0)%Z then Err (Zero "max_tool_calls")
  else if (output_bytes =? 0)%Z then Err (Zero "max_tool_output_bytes")
  else if (MAX_TURNS <? turns)%Z then Err (TooLarge "max_turns" turns)
  else if (MAX_TOOL_CALLS <? tool_calls)%Z then Err (TooLarge "max_tool_calls" tool_calls)
  else if (MAX_TOOL_OUTPUT_BYTES <? output_bytes)%Z then
    Err (TooLarge "max_tool_output_bytes" output_bytes)
  else Ok tt.

Section Runs.
Context `{FileSystem}.

Definition canonical_workspace_root (path : string) : result string RunLimitsError :=
  if is_empty path then Err EmptyWorkspace
  else if existsb (fun b => bool_decide (b = Byte.x00)) (s2b path) then
    Err (InvalidWorkspace "path contains NUL")
  else if negb (starts_with (s2b path) (s2b "/")) then Err RelativeWorkspace
  else
    let? canonical := map_err InvalidWorkspace (fs_canonicalize path) in
    if negb (fs_is_dir canonical) then Err (InvalidWorkspace "path is not a directory")
    else Ok canonical.

Definition run_limits_new (turns tool_calls output_bytes : Z) (root : string) :
    result RunLimits RunLimitsError :=
  let? _ := validate_limit_numbers turns tool_calls output_bytes in
  let? root := canonical_workspace_root root in
  Ok {| max_turns := turns; max_tool_calls := tool_calls; max_tool_output_bytes := output_bytes;
        workspace_root := root |}.

Definition normalized (l : RunLimits) : result RunLimits RunLimitsError :=
  let? root := canonical_workspace_root (workspace_root l) in
  let? _ := validate_limit_numbers (max_turns l) (max_tool_calls l) (max_tool_output_bytes l) in
  Ok {| max_turns := max_turns l; max_tool_calls := max_tool_calls l;
        max_tool_output_bytes := max_tool_output_bytes l; workspace_root := root |}.

Definition validate (l : RunLimits) : result unit RunLimitsError :=
  result_map (fun _ => tt) (normalized l).

Definition run_limits_to_json (l : RunLimits) : Json :=
  jobj [("max_turns", JNumber (PosInt (max_turns l))); ("max_tool_calls", JNumber (PosInt (max_tool_calls l)));
        ("max_tool_output_bytes", JNumber (PosInt (max_tool_output_bytes l)));
        ("workspace_root", JString (workspace_root l))].

Definition run_limits_from_json (value : Json) : result RunLimits RunLimitsError :=
  let? turns := ok_or (jget "max_turns" value ≫= as_u64) (Zero "max_turns") in
  let? tool_calls := ok_or (jget "max_tool_calls" value ≫= as_u64) (Zero "max_tool_calls") in
  let? output_bytes :=
    ok_or (jget "max_tool_output_bytes" value ≫= as_u64) (Zero "max_tool_output_bytes") in
  let? root := ok_or (jget "workspace_root" value ≫= as_str) EmptyWorkspace in
  run_limits_new turns tool_calls output_bytes root.

End Runs.

(** ** The estimate is the host's own count *)

(** A row as the SQLite host returns it, and its size: every column name and
    every cell, an integer as eight bytes. *)
Inductive Cell := CInt | CText (s : string).
Definition cell_bytes (c : Cell) : Z := match c with CInt => 8 | CText s => slen s end.
Definition total {A} (f : A -> Z) (l : list A) : Z := fold_right (fun x n => f x + n)%Z 0%Z l.
Definition host_bytes (columns : list AdmissionQueryColumn) (r : list Cell) : Z :=
  (total (fun c => slen (qc_name c)) columns + total cell_bytes r)%Z.

(** What one admission stores; the workspace's identity and the session's
    metadata are texts of JSON objects. *)
Record Stored := {
  st_run_id : string; st_session_id : string; st_parent : string; st_input : string;
  st_provider : string; st_model : string; st_script : string; st_key : string;
  st_platform : string; st_prompt : string; st_message_id : string; st_hash : string;
  st_identity : option string; st_metadata : string
}.

Definition identity_bytes (s : Stored) : Z := match st_identity s with Some t => slen t | None => 0 end.

Definition lens_of (s : Stored) : AdmissionSqliteCellLens := {|
  cl_run_id := slen (st_run_id s); cl_session_id := slen (st_session_id s);
  cl_parent_run_id := slen (st_parent s); cl_input_json := slen (st_input s);
  cl_provider := slen (st_provider s); cl_model := slen (st_model s);
  cl_script_hash := slen (st_script s); cl_idempotency_scope := slen ADMISSION_IDEMPOTENCY_SCOPE;
  cl_idempotency_key := slen (st_key s); cl_platform := slen (st_platform s);
  cl_profile := slen ADMISSION_SESSION_PROFILE; cl_system_prompt := slen (st_prompt s);
  cl_message_id := slen (st_message_id s); cl_request_hash := saturating_add (slen (st_hash s)) (identity_bytes s);
  cl_has_idempotency := negb (is_empty (st_key s)) |}.

Definition blank : Cell := CText EmptyString.

Definition run_row (s : Stored) : list Cell :=
  [CText (st_run_id s); CText (st_session_id s); CText (st_parent s); CText ADMISSION_RUN_STATUS;
   CText (st_input s); CText (st_provider s); CText (st_model s); CText (st_script s);
   CText ADMISSION_IDEMPOTENCY_SCOPE; CText (st_key s); CInt; CInt; CInt; blank; blank; blank;
   CInt; CInt; CInt; CInt].

Definition session_row_of (metadata_json : string) (s : Stored) : list Cell :=
  [CText (st_session_id s); CText ADMISSION_SESSION_PROFILE; CText (st_platform s);
   CText (st_session_id s); blank; blank; blank; CInt; CText ADMISSION_SESSION_STATUS;
   CText (st_prompt s); CText (st_model s); CText (st_provider s); blank; CText metadata_json;
   CInt; CInt; CInt].
Definition session_row (s : Stored) : list Cell := session_row_of (st_metadata s) s.

Definition message_row (s : Stored) : list Cell :=
  [CText (st_message_id s); CText (st_session_id s); CInt; CText ADMISSION_MESSAGE_ROLE;
   CText (st_input s); blank; blank; blank; CInt; CInt; CText ADMISSION_METADATA_JSON;
   CText (st_run_id s); blank; CInt].

Definition lookup_row (s : Stored) : list Cell := [CText (st_hash s); CText (st_run_id s); CInt].

(** The response kept for the key, with the workspace's identity if there is one. *)
Definition response_json (run_id : string) (identity : option string) : string :=
  "{" +:+ dquote +:+ "run_id" +:+ dquote +:+ ":" +:+ dquote +:+ run_id +:+ dquote +:+ ","
  +:+ dquote +:+ "status" +:+ dquote +:+ ":" +:+ dquote +:+ "running" +:+ dquote
  +:+ match identity with
      | Some t => "," +:+ dquote +:+ "workspace_identity" +:+ dquote +:+ ":" +:+ t
      | None => EmptyString
      end +:+ "}".

Definition idempotency_row (s : Stored) : list Cell :=
  [CText ADMISSION_IDEMPOTENCY_SCOPE; CText (st_key s); CText (st_hash s);
   CText ADMISSION_RESOURCE_TYPE; CText (st_run_id s); CText ADMISSION_IDEMPOTENCY_STATE;
   CText (response_json (st_run_id s) (st_identity s)); CInt; CInt; CInt].

(** What the estimate leaves out: the name under which the identity is kept, and
    the metadata beyond an empty object. *)
Definition identity_name_bytes (s : Stored) : Z := match st_identity s with Some _ => 22 | None => 0 end.
Definition metadata_rest (s : Stored) : Z := (slen (st_metadata s) - 2)%Z.

(** No Rust text is longer than [isize::MAX] bytes. *)
Definition texts_fit (s : Stored) : Prop :=
  (slen (st_run_id s) <= i64_max)%Z /\ (slen (st_hash s) <= i64_max)%Z /\ (identity_bytes s <= i64_max)%Z.

Lemma total_nonneg {A} (f : A -> Z) l : Forall (fun x => 0 <= f x)%Z l -> (0 <= total f l)%Z.
Proof. unfold total. induction 1; cbn; lia. Qed.

Lemma try_fold_add {A} (f : A -> Z) l t :
  Forall (fun x => 0 <= f x)%Z l -> (0 <= t <= usize_max)%Z ->
  try_fold (fun t x => sqlite_add t (f x)) t l =
    if (t + total f l <=? usize_max)%Z then Ok (t + total f l)%Z else Err Overflow.
Proof.
  intros Hf. revert t. induction Hf as [|x l Hx Hl IH]; intros t Ht; cbn [try_fold total fold_right].
  { rewrite Z.add_0_r. by destruct (Z.leb_spec t usize_max); [|lia]. }
  pose proof (total_nonneg f l Hl) as Hn. unfold sqlite_add at 1, checked_add.
  change (fold_right _ 0%Z l) with (total f l). unfold usize_max in *.
  destruct (Z.leb_spec (t + f x) u64_max); cbn [ok_or].
  - rewrite IH by lia. by rewrite Z.add_assoc.
  - by destruct (Z.leb_spec (t + (f x + total f l)) u64_max); [lia|].
Qed.

Definition cell_size (cc : AdmissionQueryColumn * Z) : Z :=
  match qc_kind (fst cc) with Integer => SQLITE_QUERY_INT_BYTES | Text => snd cc end.

Definition select_bytes (columns : list AdmissionQueryColumn) (cells : list Z) : Z :=
  (total (fun c => slen (qc_name c)) columns + total cell_size (zip columns cells))%Z.

Lemma try_fold_ext {S A E} (f g : S -> A -> result S E) s l :
  (forall s x, f s x = g s x) -> try_fold f s l = try_fold g s l.
Proof.
  intros Hfg. revert s. induction l as [|x l IH]; intros s; cbn [try_fold]; [done|].
  rewrite Hfg. by destruct (g s x).
Qed.

Lemma estimate_select_bytes_eq columns cells :
  length columns = length cells -> Forall (fun c => 0 <= c)%Z cells ->
  (total (fun c => slen (qc_name c)) columns <= usize_max)%Z ->
  estimate_select_bytes columns cells =
    if (select_bytes columns cells <=? usize_max)%Z then Ok (select_bytes columns cells) else Err Overflow.
Proof.
  intros Hl Hpos Hnames. assert (Forall (fun c => 0 <= slen (qc_name c))%Z columns) as Hn
    by (apply Forall_forall; intros; apply slen_nonneg).
  unfold estimate_select_bytes. rewrite Hl, Nat.eqb_refl. cbn [negb].
  rewrite (try_fold_add (fun c => slen (qc_name c))); [|done|unfold usize_max, u64_max; lia].
  rewrite Z.add_0_l. apply total_nonneg in Hn as Hn'.
  destruct (Z.leb_spec (total (fun c => slen (qc_name c)) columns) usize_max); [|lia].
  rewrite (try_fold_ext _ (fun t x => sqlite_add t (cell_size x))).
  2:{ intros t [c z]. unfold cell_size. cbn. by destruct (qc_kind c). }
  apply try_fold_add; [|lia]. clear -Hpos. revert columns. induction Hpos as [|z cells Hz _ IH]; intros [|c columns];
    cbn; constructor; auto. unfold cell_size. cbn. destruct (qc_kind c); [done|]. unfold SQLITE_QUERY_INT_BYTES. lia.
Qed.

(** Every name a cell is set by is a column of its query. *)
Lemma cell_names_are_columns :
  Forall (fun n => is_Some (admission_query_column_index ADMISSION_RUN_QUERY_COLUMNS n))
    ["idempotency_scope"; "idempotency_key"] /\
  Forall (fun n => is_Some (admission_query_column_index ADMISSION_SESSION_QUERY_COLUMNS n))
    ["id"; "profile"; "platform"; "account_id"; "status"; "system_prompt"; "model"; "provider"; "metadata_json"] /\
  Forall (fun n => is_Some (admission_query_column_index ADMISSION_MESSAGE_QUERY_COLUMNS n))
    ["id"; "session_id"; "role"; "content_json"; "metadata_json"; "run_id"].
Proof. repeat split; repeat constructor; vm_compute; eauto. Qed.

Lemma run_row_bytes s :
  select_bytes ADMISSION_RUN_QUERY_COLUMNS (run_select_cells (lens_of s)) =
  host_bytes ADMISSION_RUN_QUERY_COLUMNS (run_row s).
Proof. reflexivity. Qed.

Lemma session_row_bytes s :
  select_bytes ADMISSION_SESSION_QUERY_COLUMNS (session_select_cells (lens_of s)) =
  (host_bytes ADMISSION_SESSION_QUERY_COLUMNS (session_row s) - metadata_rest s)%Z.
Proof.
  unfold host_bytes, select_bytes, metadata_rest. rewrite <- Z.add_sub_assoc. f_equal.
  transitivity (total cell_bytes (session_row_of ADMISSION_METADATA_JSON s)); [reflexivity|].
  unfold session_row, session_row_of, total. cbn [fold_right cell_bytes]. change (slen ADMISSION_METADATA_JSON) with 2%Z. lia.
Qed.

Lemma message_row_bytes s :
  select_bytes ADMISSION_MESSAGE_QUERY_COLUMNS (message_select_cells (lens_of s)) =
  host_bytes ADMISSION_MESSAGE_QUERY_COLUMNS (message_row s).
Proof. reflexivity. Qed.

Lemma identity_nonneg s : (0 <= identity_bytes s)%Z.
Proof. unfold identity_bytes. destruct (st_identity s); [apply slen_nonneg|lia]. Qed.

Lemma counted_hash s : texts_fit s -> cl_request_hash (lens_of s) = (slen (st_hash s) + identity_bytes s)%Z.
Proof.
  intros (_ & Hh & Hi). cbn. unfold saturating_add. apply Z.min_r. unfold i64_max, u64_max in *. lia.
Qed.

Lemma lookup_row_bytes s : texts_fit s ->
  select_bytes ADMISSION_IDEMPOTENCY_LOOKUP_COLUMNS (idempotency_lookup_select_cells (lens_of s)) =
  (host_bytes ADMISSION_IDEMPOTENCY_LOOKUP_COLUMNS (lookup_row s) + identity_bytes s)%Z.
Proof.
  intros Ht. unfold idempotency_lookup_select_cells. rewrite counted_hash by done.
  unfold host_bytes, select_bytes. rewrite <- Z.add_assoc. f_equal.
  transitivity ((slen (st_hash s) + identity_bytes s) + (slen (st_run_id s) + (8 + 0)))%Z; [reflexivity|].
  unfold lookup_row, total. cbn [fold_right cell_bytes]. lia.
Qed.

Lemma response_bytes run_id identity :
  slen (response_json run_id identity) =
  (11 + slen run_id + 21 + match identity with Some t => 22 + slen t | None => 0 end)%Z.
Proof.
  unfold response_json, slen, blen. destruct identity; rewrite !s2b_app, !length_app; cbn [length];
  repeat match goal with |- context [length (s2b ?c)] =>
    is_ground c; let n := eval vm_compute in (length (s2b c)) in change (length (s2b c)) with n end; lia.
Qed.

Lemma idempotency_row_bytes s : texts_fit s ->
  select_bytes ADMISSION_IDEMPOTENCY_QUERY_COLUMNS (idempotency_select_cells (lens_of s)) =
  (host_bytes ADMISSION_IDEMPOTENCY_QUERY_COLUMNS (idempotency_row s) - identity_name_bytes s)%Z.
Proof.
  intros Ht. pose proof (slen_nonneg (st_run_id s)) as Hn.
  assert (idempotency_response_bytes (lens_of s) = (11 + slen (st_run_id s) + 21)%Z) as E.
  { destruct Ht as (Hr & _). unfold idempotency_response_bytes, wrap64. cbn [lens_of cl_run_id].
    unfold i64_max in Hr. apply Z.mod_small.
    unfold ADMISSION_IDEMPOTENCY_RESPONSE_PREFIX_BYTES, ADMISSION_IDEMPOTENCY_RESPONSE_SUFFIX_BYTES. lia. }
  unfold idempotency_select_cells. rewrite E, counted_hash by done.
  unfold host_bytes, select_bytes. rewrite <- Z.add_sub_assoc. f_equal.
  transitivity (slen ADMISSION_IDEMPOTENCY_SCOPE + (slen (st_key s) + ((slen (st_hash s) + identity_bytes s) +
    (slen ADMISSION_RESOURCE_TYPE + (slen (st_run_id s) + (slen ADMISSION_IDEMPOTENCY_STATE +
    ((11 + slen (st_run_id s) + 21) + (8 + (8 + (8 + 0))))))))))%Z; [reflexivity|].
  unfold idempotency_row, total. cbn [fold_right cell_bytes]. rewrite response_bytes.
  unfold identity_name_bytes, identity_bytes. destruct (st_identity s); lia.
Qed.

(** The two checks as an admission makes them. *)
Definition admission_budget (lens : AdmissionSqliteCellLens) : result unit AdmissionQueryBudgetError :=
  let? estimate := estimate_admission_query_bytes lens in ensure_fits estimate.

(** Every row that is read back fits the host's limit, give or take the bytes
    by which the estimate differs: [session] and [idempotency] bytes it leaves
    out and [lookup] bytes it adds. *)
Definition rows_within (session idempotency lookup : Z) (s : Stored) : Prop :=
  (host_bytes ADMISSION_RUN_QUERY_COLUMNS (run_row s) <= 65536)%Z /\
  (host_bytes ADMISSION_SESSION_QUERY_COLUMNS (session_row s) <= 65536 + session)%Z /\
  (host_bytes ADMISSION_MESSAGE_QUERY_COLUMNS (message_row s) <= 65536)%Z /\
  (st_key s <> EmptyString ->
     (host_bytes ADMISSION_IDEMPOTENCY_QUERY_COLUMNS (idempotency_row s) <= 8192 + idempotency)%Z /\
     (host_bytes ADMISSION_IDEMPOTENCY_LOOKUP_COLUMNS (lookup_row s) + lookup <= 8192)%Z).

Ltac nonneg_cells := repeat constructor; cbn; try apply slen_nonneg; try lia.

Lemma estimates_eq s :
  let bytes columns cells :=
    if (select_bytes columns cells <=? usize_max)%Z then Ok (select_bytes columns cells) else Err Overflow in
  estimate_select_bytes ADMISSION_RUN_QUERY_COLUMNS (run_select_cells (lens_of s)) =
    bytes ADMISSION_RUN_QUERY_COLUMNS (run_select_cells (lens_of s)) /\
  estimate_select_bytes ADMISSION_SESSION_QUERY_COLUMNS (session_select_cells (lens_of s)) =
    bytes ADMISSION_SESSION_QUERY_COLUMNS (session_select_cells (lens_of s)) /\
  estimate_select_bytes ADMISSION_MESSAGE_QUERY_COLUMNS (message_select_cells (lens_of s)) =
    bytes ADMISSION_MESSAGE_QUERY_COLUMNS (message_select_cells (lens_of s)) /\
  estimate_select_bytes ADMISSION_IDEMPOTENCY_QUERY_COLUMNS (idempotency_select_cells (lens_of s)) =
    bytes ADMISSION_IDEMPOTENCY_QUERY_COLUMNS (idempotency_select_cells (lens_of s)) /\
  estimate_select_bytes ADMISSION_IDEMPOTENCY_LOOKUP_COLUMNS (idempotency_lookup_select_cells (lens_of s)) =
    bytes ADMISSION_IDEMPOTENCY_LOOKUP_COLUMNS (idempotency_lookup_select_cells (lens_of s)).
Proof.
  cbv zeta. repeat split; (apply estimate_select_bytes_eq; [reflexivity| |vm_compute; discriminate]).
  all: nonneg_cells; try apply wrap64_range.
  all: unfold saturating_add; pose proof (slen_nonneg (st_hash s)); pose proof (identity_nonneg s); unfold u64_max; lia.
Qed.


(** ** Provider profiles hold safe options only *)

(** The options a profile may hold. *)
Inductive safe_option `{UrlCrate} : string -> Json -> Prop :=
| SafeText k t :
    k ∈ ["profile"; "protocol"; "reasoning_effort"] -> (1 <= slen t <= 4096)%Z -> safe_option k (JString t)
| SafeCredentialId t :
    (1 <= slen t <= 4096)%Z -> invisible t = false -> safe_option "credential_id" (JString t)
| SafeUrl t url host :
    (slen t <= 4096)%Z -> url_parse t = Ok url -> url_scheme url ∈ ["http"; "https"] ->
    url_host url = Some host -> url_username url = EmptyString -> url_password url = None ->
    url_query url = None -> url_fragment url = None -> safe_option "base_url" (JString t)
| SafeNumber k n : k ∈ ["temperature"; "top_p"] -> safe_option k (JNumber n)
| SafeTokens n : safe_option "max_output_tokens" (JNumber (PosInt n))
| SafeStream b : safe_option "stream" (JBool b).

Definition safe_profile `{JsonText, UrlCrate} (name : string) (options : Json) : Prop :=
  (1 <= slen name <= 256)%Z /\ invisible name = false /\
  exists entries, options = JObject entries /\ length entries <= 32 /\
    Forall (fun kv => safe_option (fst kv) (snd kv)) entries /\ (slen (json_text options) <= 16384)%Z.

Section ProfileProofs.
Context `{JsonText, UrlCrate}.

Lemma slen_pos t : is_empty t = false <-> (1 <= slen t)%Z.
Proof.
  destruct t as [|a t]; [done|]. split; [|done]. intros _. unfold slen, blen. cbn. lia.
Qed.

Lemma check_url_spec t :
  check_url t = Ok tt <-> exists url host, url_parse t = Ok url /\ url_scheme url ∈ ["http"; "https"] /\
    url_host url = Some host /\ url_username url = EmptyString /\ url_password url = None /\
    url_query url = None /\ url_fragment url = None.
Proof.
  unfold check_url. destruct (url_parse t) as [url|e]; cbn [map_err]; [|split; [done|by intros (? & ? & ? & _)]].
  destruct url as [scheme host user pw q fr]; cbn.
  assert (str_eqb scheme "http" || str_eqb scheme "https" = true <-> scheme ∈ ["http"; "https"]) as Hs.
  { rewrite orb_true_iff, !str_eqb_true. set_solver. }
  destruct (str_eqb scheme "http" || str_eqb scheme "https"); cbn [negb].
  2:{ split; [done|]. intros (url & h & [= <-] & Hin & _). cbn in Hin. by apply Hs in Hin. }
  destruct host as [h|], user, pw, q, fr; cbn; (split; [|]); try done;
    try (intros (url & h' & [= <-] & ?); cbn in *; naive_solver).
  intros _. eexists _, h. split; [reflexivity|]. cbn. repeat split; by apply Hs.
Qed.

Lemma option_text_spec k v t : option_string k v = Ok t <-> v = JString t.
Proof. unfold option_string. destruct v; cbn; split; intros; simplify_eq; done. Qed.

Lemma text_fits t : negb (is_empty t) && negb (MAX_PROVIDER_OPTION_STRING_BYTES <? slen t)%Z = true <->
  (1 <= slen t <= 4096)%Z.
Proof.
  rewrite andb_true_iff, !negb_true_iff, slen_pos, Z.ltb_ge. unfold MAX_PROVIDER_OPTION_STRING_BYTES. lia.
Qed.

(** An accepted option is kept as it is. *)
Lemma canonicalize_provider_option_safe k v v' :
  canonicalize_provider_option k v = Ok v' -> v' = v /\ safe_option k v.
Proof.
  unfold canonicalize_provider_option.
  destruct (str_eqb k "profile" || str_eqb k "protocol" || str_eqb k "reasoning_effort") eqn:Ek.
  { destruct (option_string k v) as [t|] eqn:Et; [|done]. apply option_text_spec in Et as ->.
    intros E. assert ((1 <= slen t <= 4096)%Z /\ v' = JString t) as [Hf ->].
    { rewrite <- text_fits. split_guards; done. }
    split; [done|]. constructor; [|done]. rewrite !orb_true_iff, !str_eqb_true in Ek. set_solver. }
  destruct (str_eqb_spec k "credential_id") as [->|]; [|destruct (str_eqb_spec k "base_url") as [->|]].
  - destruct (option_string _ v) as [t|] eqn:Et; [|done]. apply option_text_spec in Et as ->. intros E.
    assert ((1 <= slen t <= 4096)%Z /\ invisible t = false /\ v' = JString t) as (Hf & Hi & ->).
    { rewrite <- text_fits. destruct (is_empty t), (invisible t); split_guards; done. }
    split; [done|]. by constructor.
  - destruct (option_string _ v) as [t|] eqn:Et; [|done]. apply option_text_spec in Et as ->.
    destruct (Z.ltb_spec MAX_PROVIDER_OPTION_STRING_BYTES (slen t)) as [|Hl]; [done|].
    destruct (check_url t) as [[]|] eqn:Eu; [|done]. intros [= <-]. split; [done|].
    apply check_url_spec in Eu as (url & h & ? & ? & ? & ? & ? & ? & ?). by apply (SafeUrl t url h).
  - destruct (str_eqb k "temperature" || str_eqb k "top_p") eqn:En.
    { destruct v; try done. intros [= <-]. split; [done|]. apply SafeNumber.
      rewrite orb_true_iff, !str_eqb_true in En. set_solver. }
    destruct (str_eqb_spec k "max_output_tokens") as [->|].
    { destruct v as [| |[]| | |]; cbn; try done. intros [= <-]. split; [done|]. apply SafeTokens. }
    destruct (str_eqb_spec k "stream") as [->|]; [|done].
    destruct v; try done. intros [= <-]. split; [done|]. apply SafeStream.
Qed.

Lemma canonicalize_safe_option k v : safe_option k v -> canonicalize_provider_option k v = Ok v.
Proof.
  intros Hs. destruct Hs as [k t Hk Ht|t Ht Hi|t url h Hl Hp Hsc Hh Hu Hpw Hq Hf|k n Hk|n|b]; try done.
  - apply text_fits in Ht. unfold canonicalize_provider_option.
    assert (str_eqb k "profile" || str_eqb k "protocol" || str_eqb k "reasoning_effort" = true) as ->
      by (rewrite !orb_true_iff, !str_eqb_true; set_solver).
    cbn. apply andb_true_iff in Ht as [->%negb_true_iff ->%negb_true_iff]. done.
  - apply text_fits in Ht. apply andb_true_iff in Ht as [H1%negb_true_iff H2%negb_true_iff].
    unfold canonicalize_provider_option. cbn. by rewrite H1, H2, Hi.
  - assert (check_url t = Ok tt) as E by (apply check_url_spec; eauto 10).
    unfold canonicalize_provider_option. cbn -[Z.ltb]. destruct (Z.ltb_spec MAX_PROVIDER_OPTION_STRING_BYTES (slen t)) as [Hg|].
    { unfold MAX_PROVIDER_OPTION_STRING_BYTES in Hg. lia. } by rewrite E.
  - apply list_elem_of_In in Hk as [<-|[<-|[]]]; done.
Qed.

Lemma safe_option_key k v : safe_option k v -> (slen k <= 128)%Z /\ is_credential_bearing_option_key k = false.
Proof.
  intros Hs. assert (k ∈ ["profile"; "protocol"; "reasoning_effort"; "credential_id"; "base_url"; "temperature";
    "top_p"; "max_output_tokens"; "stream"]) as Hk by (destruct Hs; set_solver).
  clear Hs. revert k Hk. apply Forall_forall. repeat constructor; vm_compute; done.
Qed.

Lemma safe_option_flat k v : safe_option k v -> json_nesting_depth v = 0.
Proof. by destruct 1. Qed.

(** The loop over the keys of a sorted map keeps the map. *)
Lemma options_loop (entries l : list (string * Json)) acc :
  (forall kv, kv ∈ l -> obj_get (fst kv) entries = Some (snd kv)) ->
  let step canonical key :=
    if (128 <? slen key)%Z then Err OptionStringTooLong
    else if is_credential_bearing_option_key key then Err (CredentialBearingOption key)
    else
      let? v := canonicalize_provider_option key (default JNull (obj_get key entries)) in
      Ok (obj_insert key v canonical) in
  forall canonical, try_fold step acc (map fst l) = Ok canonical <->
    Forall (fun kv => safe_option (fst kv) (snd kv)) l /\
    canonical = fold_left (fun m kv => obj_insert (fst kv) (snd kv) m) l acc.
Proof.
  intros Hget step. revert acc. induction l as [|[k v] l IH]; intros acc canonical; cbn [try_fold map fold_left].
  { split; [intros [= <-]|intros [_ ->]]; done. }
  rewrite Forall_cons. cbn [fst snd].
  assert (obj_get k entries = Some v) as Hk by (apply (Hget (k, v)); by left).
  assert (forall kv, kv ∈ l -> obj_get (fst kv) entries = Some (snd kv)) as Hl by (intros; apply Hget; by right).
  specialize (IH Hl). unfold step at 1. rewrite Hk. cbn [from_option id]. split.
  - destruct (128 <? slen k)%Z; [done|]. destruct (is_credential_bearing_option_key k); [done|].
    destruct (canonicalize_provider_option k v) as [v'|] eqn:E; [|done].
    apply canonicalize_provider_option_safe in E as [-> Hs]. intros Hf. apply IH in Hf as [Hf ->]. done.
  - intros [[Hs Hf] ->]. destruct (safe_option_key k v Hs) as [Hlen ->].
    destruct (Z.ltb_spec 128 (slen k)); [lia|]. rewrite canonicalize_safe_option by done. by apply IH.
Qed.

Lemma flat_depth (entries : list (string * Json)) :
  Forall (fun kv => safe_option (fst kv) (snd kv)) entries -> json_nesting_depth (JObject entries) = 1.
Proof.
  intros Hf. cbn [json_nesting_depth]. f_equal.
  induction Hf as [|[k v] l Hs _ IH]; [done|]. cbn in *. by rewrite IH, (safe_option_flat k v Hs).
Qed.

Lemma canonicalize_provider_options_spec options o :
  json_ok options = true ->
  canonicalize_provider_options options = Ok o <->
  o = options /\ exists entries, options = JObject entries /\ length entries <= 32 /\
    Forall (fun kv => safe_option (fst kv) (snd kv)) entries.
Proof.
  intros Hok. unfold canonicalize_provider_options. destruct options as [| | | |l|entries].
  1-5: (split; [destruct (_ <? _)%nat; done|by intros (_ & ? & ? & _)]).
  cbn [json_ok] in Hok. apply andb_true_iff in Hok as [Hs _].
  unfold sort_strings. cbn [as_object ok_or]. rewrite sort_sorted_strings by by apply obj_keys_sorted.
  assert (forall kv, kv ∈ entries -> obj_get (fst kv) entries = Some (snd kv)) as Hg
    by (intros [k v]; by apply obj_get_sorted_elem).
  pose proof (options_loop entries entries [] Hg) as Hloop. cbv zeta in Hloop.
  fold (obj_of_list entries) in Hloop. rewrite (obj_of_list_permutation entries entries) in Hloop by done. split.
  - destruct (MAX_PROVIDER_OPTION_DEPTH <? _)%nat; [done|].
    destruct (Nat.ltb_spec MAX_PROVIDER_OPTION_KEYS (length entries)); [done|].
    destruct (try_fold _ _ _) as [c|]; [|done]. intros [= <-]. destruct (proj1 (Hloop c) eq_refl) as [Hf ->].
    split; [done|]. exists entries. unfold MAX_PROVIDER_OPTION_KEYS in *. split; [done|]. split; [lia|done].
  - intros (-> & entries' & [= <-] & Hl & Hf). rewrite flat_depth by done.
    destruct (Nat.ltb_spec MAX_PROVIDER_OPTION_DEPTH 1); [unfold MAX_PROVIDER_OPTION_DEPTH in *; lia|].
    destruct (Nat.ltb_spec MAX_PROVIDER_OPTION_KEYS (length entries)); [unfold MAX_PROVIDER_OPTION_KEYS in *; lia|].
    by rewrite (proj2 (Hloop entries)).
Qed.

Lemma provider_profile_new_spec name options p :
  json_ok options = true ->
  provider_profile_new name options = Ok p <->
  p = {| pp_name := name; pp_options := options |} /\ safe_profile name options.
Proof.
  intros Hok. unfold provider_profile_new, safe_profile. pose proof (slen_pos name) as Hp.
  destruct (is_empty name) eqn:Ee.
  { split; [done|]. intros (_ & Hl & _). destruct Hp as [_ Hp]. exfalso. discriminate Hp. lia. }
  destruct (Z.ltb_spec MAX_PROVIDER_NAME_BYTES (slen name)) as [Hb|Hb]; unfold MAX_PROVIDER_NAME_BYTES in Hb.
  { split; [done|]. intros (_ & Hl & _). lia. }
  destruct (invisible name) eqn:Ei; [split; [done|by intros (_ & _ & ? & _)]|].
  pose proof (canonicalize_provider_options_spec options) as Hc.
  destruct (canonicalize_provider_options options) as [o|e].
  - destruct (proj1 (Hc o Hok) eq_refl) as (-> & entries & -> & Hl & Hf).
    destruct (Z.ltb_spec MAX_PROVIDER_OPTIONS_BYTES (slen (json_text (JObject entries)))) as [Ht|Ht];
      unfold MAX_PROVIDER_OPTIONS_BYTES in Ht.
    + split; [done|]. intros (_ & _ & _ & e2 & _ & _ & _ & Hs). lia.
    + split; [|by intros [-> _]]. intros [= <-]. split; [done|]. split; [split; [by apply Hp|lia]|].
      split; [done|]. exists entries. repeat split; try done; lia.
  - split; [done|]. intros (_ & _ & _ & entries & -> & Hl & Hf & _). exfalso.
    destruct (Hc (JObject entries) Hok) as [_ Hc']. discriminate Hc'. eauto.
Qed.

End ProfileProofs.

(** A provider profile is accepted exactly when its name is visible text of
    at most 256 bytes and every option is one of nine known controls with a
    value of its kind: no credential-bearing key, no nested value, and a base
    URL without credentials, query or fragment.  The profile holds the options
    unchanged, and reading back its JSON form gives the profile. *)
Theorem provider_profile_exact `{JsonText, UrlCrate} name options p :
  json_ok options = true ->
  (provider_profile_new name options = Ok p <->
     p = {| pp_name := name; pp_options := options |} /\ safe_profile name options) /\
  (provider_profile_new name options = Ok p -> profile_from_json (profile_to_json p) = Ok p).
Proof.
  intros Hok. pose proof (provider_profile_new_spec name options p Hok) as Hspec. split; [done|].
  intros Hnew. destruct (proj1 Hspec Hnew) as [-> _]. exact Hnew.
Qed.

(** ** Run limits survive their JSON form *)

(** [std::fs::canonicalize] returns an absolute path without NUL that is its own
    canonical form. *)
Class FileSystemLaws `{FileSystem} : Prop := {
  fs_canonical p q : fs_canonicalize p = Ok q ->
    starts_with (s2b q) (s2b "/") = true /\ (Byte.x00 ∉ s2b q) /\ fs_canonicalize q = Ok q
}.

Definition limits_in_range (l : RunLimits) : Prop :=
  (1 <= max_turns l <= 1000000)%Z /\ (1 <= max_tool_calls l <= 1000000)%Z /\
  (1 <= max_tool_output_bytes l <= 67108864)%Z.

Lemma validate_limit_numbers_spec a b c :
  (0 <= a)%Z -> (0 <= b)%Z -> (0 <= c)%Z ->
  validate_limit_numbers a b c = Ok tt <->
  (1 <= a <= 1000000)%Z /\ (1 <= b <= 1000000)%Z /\ (1 <= c <= 67108864)%Z.
Proof.
  intros Ha Hb Hc. unfold validate_limit_numbers, MAX_TURNS, MAX_TOOL_CALLS, MAX_TOOL_OUTPUT_BYTES.
  split; [intros E; split_guards; bool_to_prop; lia|]. intros (? & ? & ?).
  repeat (case_match; bool_to_prop; try lia). done.
Qed.

Lemma canonical_root_stable `{FileSystemLaws} p q :
  canonical_workspace_root p = Ok q -> canonical_workspace_root q = Ok q.
Proof.
  unfold canonical_workspace_root. destruct (is_empty p); [done|]. destruct (existsb _ (s2b p)); [done|].
  destruct (starts_with (s2b p) (s2b "/")); [|done]. cbn [negb].
  destruct (fs_canonicalize p) as [c|] eqn:E; [|done]. cbn [map_err].
  destruct (fs_is_dir c) eqn:Ed; [|done]. cbn [negb]. intros [= <-].
  apply fs_canonical in E as (Habs & Hnul & Hc).
  destruct (is_empty c) eqn:Ee; [by destruct c|].
  assert (existsb (fun b => bool_decide (b = Byte.x00)) (s2b c) = false) as ->.
  { apply not_true_iff_false. intros (b & Hin & Hb)%existsb_exists. apply bool_decide_eq_true in Hb as ->.
    apply Hnul. by apply list_elem_of_In. }
  rewrite Habs. cbn [negb]. rewrite Hc. cbn. by rewrite Ed.
Qed.

Lemma run_limits_reread `{FileSystem} l :
  run_limits_from_json (run_limits_to_json l) =
  run_limits_new (max_turns l) (max_tool_calls l) (max_tool_output_bytes l) (workspace_root l).
Proof. reflexivity. Qed.

(** Limits that were normalised for a run are in range, and the JSON form
    kept in the run's context reads back as the same limits. *)
Theorem run_limits_roundtrip `{FileSystemLaws} l l' :
  (0 <= max_turns l)%Z -> (0 <= max_tool_calls l)%Z -> (0 <= max_tool_output_bytes l)%Z ->
  normalized l = Ok l' -> limits_in_range l' /\ run_limits_from_json (run_limits_to_json l') = Ok l'.
Proof.
  intros Ht Hc Hb. unfold normalized.
  destruct (canonical_workspace_root (workspace_root l)) as [root|] eqn:Er; [|done].
  destruct (validate_limit_numbers _ _ _) as [[]|] eqn:Ev; [|done]. intros [= <-].
  pose proof Ev as Hr. apply validate_limit_numbers_spec in Hr; [|done..]. split; [done|].
  rewrite run_limits_reread. unfold run_limits_new.
  cbn [max_turns max_tool_calls max_tool_output_bytes workspace_root]. by rewrite Ev, (canonical_root_stable _ _ Er).
Qed.

Module LimitsExample.

#[local] Existing Instance CompactText.compact_text.

(** A URL crate that knows one address, and a file system with one directory. *)
#[local] Instance one_url : UrlCrate := fun t =>
  if str_eqb t "https://llm.example" then
    Ok {| url_scheme := "https"; url_host := Some "llm.example"; url_username := EmptyString;
          url_password := None; url_query := None; url_fragment := None |}
  else Err "relative URL without a base".

#[local] Instance one_dir : FileSystem := {|
  fs_canonicalize p := if str_eqb p "/work" || str_eqb p "/work/." then Ok "/work" else Err "not found";
  fs_is_dir p := str_eqb p "/work" |}.

#[local] Instance one_dir_laws : FileSystemLaws.
Proof.
  split. intros p q. cbn. case_match; [|done]. intros [= <-]. split; [done|]. split; [|done].
  vm_compute. intros Hin. repeat (apply elem_of_cons in Hin as [Hin|Hin]; [discriminate|]). inversion Hin.
Qed.

Definition options : Json :=
  jobj [("base_url", JString "https://llm.example"); ("temperature", jint 1); ("profile", JString "openai")].

Lemma provider_profile_exact_witness :
  provider_profile_new "openai" options = Ok {| pp_name := "openai"; pp_options := options |} /\
  profile_from_json (profile_to_json {| pp_name := "openai"; pp_options := options |}) =
    Ok {| pp_name := "openai"; pp_options := options |}.
Proof.
  split; [vm_compute; reflexivity|].
  apply (provider_profile_exact "openai" options {| pp_name := "openai"; pp_options := options |});
    vm_compute; reflexivity.
Defined.

Lemma run_limits_roundtrip_witness :
  run_limits_from_json (run_limits_to_json
    {| max_turns := 64; max_tool_calls := 128; max_tool_output_bytes := 1024; workspace_root := "/work" |}) =
  Ok {| max_turns := 64; max_tool_calls := 128; max_tool_output_bytes := 1024; workspace_root := "/work" |}.
Proof.
  apply (run_limits_roundtrip
    {| max_turns := 64; max_tool_calls := 128; max_tool_output_bytes := 1024; workspace_root := "/work/." |});
    try (cbn; lia). vm_compute. reflexivity.
Defined.

Definition stored : Stored := {|
  st_run_id := "run"; st_session_id := "session"; st_parent := EmptyString; st_input := "{}";
  st_provider := "openai"; st_model := "model"; st_script := "sha256:0"; st_key := "key";
  st_platform := "api"; st_prompt := "be brief"; st_message_id := "message";
  st_hash := "fnv64:0123456789abcdef"; st_identity := None; st_metadata := ADMISSION_METADATA_JSON |}.

(** The same with a workspace, whose binding in the session's metadata takes the
    session's row past the limit. *)
Definition stored_in_workspace : Stored := {|
  st_run_id := "run"; st_session_id := "session"; st_parent := EmptyString; st_input := "{}";
  st_provider := "openai"; st_model := "model"; st_script := "sha256:0"; st_key := "key";
  st_platform := "api"; st_prompt := "be brief"; st_message_id := "message";
  st_hash := "fnv64:0123456789abcdef"; st_identity := Some "{}"; st_metadata := b2s (replicate (Z.to_nat 65536) Byte.x61) |}.


End LimitsExample.

End Limits.
