(* ===== verification/Admission.v ===== *)
(** * Admission of runs ([src/service.rs], [src/domain.rs])

    How a request becomes a run: validation, idempotent replay, workspace
    resolution, the prompt and the frozen context, the byte budget, one durable
    command, and the publication in memory.  Preparation runs without the
    commit gate; under the gate everything it read is read again, and the
    attempt starts over when something relevant changed.

    Between two lock acquisitions other threads run: [env n] is what they did
    before the [n]-th one.  The workspace scripts, the prompt builder and the
    storage commands are parameters. *)

From stdpp Require Import pretty.
From S2P Require Import Prelude Utf8 Json Registry Domain Store Events Delivery Capability Lifecycle Commit Terminal Limits.

Module Admission.
Import Limits.

(** ** Requests, errors, contexts *)

Record AdmitRunRequest := {
  rq_input : Json;
  rq_session_id : option string;
  rq_model : option string;
  rq_provider : option string;
  rq_parent_run_id : option string;
  rq_instructions : option string;
  rq_platform : string;
  rq_idempotency_key : option string;
  rq_idempotency_hash : option string
}.

Record AdmittedRun := { ar_run_id : string; ar_session_id : string; ar_status : string; ar_replayed : bool }.

Inductive RunContextError :=
| Missing (run_id : string)
| RegistryMismatch (run_id expected actual : string)
| InvalidMetadata (run_id reason : string)
| ContextPersistence (message : string).

Definition context_error_text (e : RunContextError) : string :=
  match e with
  | Missing run_id => "run context is missing for run " +:+ run_id
  | RegistryMismatch run_id expected actual =>
      "run " +:+ run_id +:+ " registry snapshot mismatch: expected " +:+ expected +:+ ", current " +:+ actual
  | InvalidMetadata run_id reason => "run " +:+ run_id +:+ " context metadata is invalid: " +:+ reason
  | ContextPersistence message => message
  end.

Record CompactionError := { ce_http_status : Z; ce_code : string; ce_message : string; ce_detail : string }.

Inductive AdmitError :=
| RunLimitReached
| IdempotencyConflict
| ParentNotFound
| SessionNotFound
| ActiveRun
| SessionMaintenanceBusy (error : CompactionError)
| AdmitPersistence (message : string)
| Invalid (message : string)
| Halting.

Definition admit_error_text (e : AdmitError) : string :=
  match e with
  | RunLimitReached => "maximum concurrent run limit reached"
  | IdempotencyConflict => "idempotency key was used with a different request"
  | ParentNotFound => "parent run not found"
  | SessionNotFound => "session not found"
  | ActiveRun => "workspace cannot change while a run is active"
  | SessionMaintenanceBusy error => ce_message error
  | AdmitPersistence message => message
  | Invalid message => message
  | Halting => "gateway is halting; new runs are not admitted"
  end.

Inductive AdmitRejectReason :=
| RejectRunLimit | RejectConflict | RejectParent | RejectSession | RejectPersistence | RejectInvalid
| RejectHalting.

Definition admit_context_error (e : RunContextError) : AdmitError :=
  match e with
  | ContextPersistence message => AdmitPersistence message
  | other => Invalid (context_error_text other)
  end.

Record RunContext := {
  rc_run_id : string;
  rc_session_id : string;
  rc_parent_run_id : option string;
  rc_platform : string;
  rc_input : Json;
  rc_messages : Json;
  rc_system_prompt : option string;
  rc_model : string;
  rc_provider : option string;
  rc_provider_options : Json;
  rc_tool_schemas : Json;
  rc_limits : Json;
  rc_metadata : Json;
  rc_coding_system_prompt : option string
}.

Definition opt_json (o : option string) : Json := match o with Some s => JString s | None => JNull end.

(** The derived [Serialize] and [Deserialize] of a context. *)
Definition run_context_to_value (c : RunContext) : Json :=
  jobj [("run_id", JString (rc_run_id c)); ("session_id", JString (rc_session_id c));
        ("parent_run_id", opt_json (rc_parent_run_id c)); ("platform", JString (rc_platform c));
        ("input", rc_input c); ("messages", rc_messages c);
        ("system_prompt", opt_json (rc_system_prompt c)); ("model", JString (rc_model c));
        ("provider", opt_json (rc_provider c)); ("provider_options", rc_provider_options c);
        ("tool_schemas", rc_tool_schemas c); ("limits", rc_limits c); ("metadata", rc_metadata c);
        ("coding_system_prompt", opt_json (rc_coding_system_prompt c))].

Definition set_context_messages (messages : Json) (c : RunContext) : RunContext := {|
  rc_run_id := rc_run_id c; rc_session_id := rc_session_id c; rc_parent_run_id := rc_parent_run_id c;
  rc_platform := rc_platform c; rc_input := rc_input c; rc_messages := messages;
  rc_system_prompt := rc_system_prompt c; rc_model := rc_model c; rc_provider := rc_provider c;
  rc_provider_options := rc_provider_options c; rc_tool_schemas := rc_tool_schemas c;
  rc_limits := rc_limits c; rc_metadata := rc_metadata c;
  rc_coding_system_prompt := rc_coding_system_prompt c |}.

Definition set_context_metadata (metadata : Json) (c : RunContext) : RunContext := {|
  rc_run_id := rc_run_id c; rc_session_id := rc_session_id c; rc_parent_run_id := rc_parent_run_id c;
  rc_platform := rc_platform c; rc_input := rc_input c; rc_messages := rc_messages c;
  rc_system_prompt := rc_system_prompt c; rc_model := rc_model c; rc_provider := rc_provider c;
  rc_provider_options := rc_provider_options c; rc_tool_schemas := rc_tool_schemas c;
  rc_limits := rc_limits c; rc_metadata := metadata;
  rc_coding_system_prompt := rc_coding_system_prompt c |}.

Definition RUN_CONTEXT_METADATA_VERSION : Z := 1.
Definition RUN_CONTEXT_STORAGE_KEY : string := "run_context".

Definition canonicalize_json_value : Json -> Json := Registry.canonicalize_json.

Definition binding_to_value (b : WorkspaceBinding) : Json :=
  jobj [("selector", JString (wb_selector b)); ("canonical_path", JString (wb_canonical_path b));
        ("selected_name", opt_json (wb_selected_name b)); ("generation", JNumber (PosInt (wb_generation b)))].

(** ** Validation of the idempotency pair *)

Definition validate_idempotency_key (key : option string) : result unit string :=
  match key with
  | None => Ok tt
  | Some key => validate_visible_name key "idempotency key" MAX_IDEMPOTENCY_KEY_BYTES
  end.

Definition validate_idempotency_pair (key hash : option string) : result unit string :=
  let? _ := validate_idempotency_key key in
  match key, hash with
  | None, None => Ok tt
  | None, Some hash => if is_empty hash then Ok tt else Err "idempotency hash requires an idempotency key"
  | Some _, None => Err "idempotency hash is required when an idempotency key is present"
  | Some _, Some hash =>
      if is_empty hash then Err "idempotency hash is required when an idempotency key is present"
      else validate_request_hash hash
  end.

Definition admission_run_str (r : row) (index : nat) : option string := r !! index ≫= as_str.

Definition invalid_context_metadata (run_id reason : string) : RunContextError := InvalidMetadata run_id reason.

Definition non_empty_str (o : option string) : option string :=
  match o with Some s => if is_empty s then None else Some s | None => None end.

(** [Value::get(k).and_then(as_str)] of the metadata map. *)
Definition meta_str (k : string) (m : list (string * Json)) : option string := obj_get k m ≫= as_str.

Section Contexts.
Context `{JsonText, UrlCrate, FileSystem} (str_debug : string -> string).

Definition refuse (b : bool) (e : RunContextError) : result unit RunContextError := if b then Err e else Ok tt.

Definition verify_context_metadata (c : RunContext) : result unit RunContextError :=
  let run_id := rc_run_id c in
  let invalid := invalid_context_metadata run_id in
  let? metadata := ok_or (as_object (rc_metadata c)) (invalid "context metadata is not an object") in
  let? _ := refuse (negb (bool_decide (obj_get "schema_version" metadata ≫= as_u64 = Some RUN_CONTEXT_METADATA_VERSION)))
              (invalid "unsupported metadata schema version") in
  let? _ := refuse (negb (bool_decide (meta_str "run_id" metadata = Some run_id)))
              (invalid "run id does not match metadata") in
  let? _ := refuse (negb (bool_decide (meta_str "session_id" metadata = Some (rc_session_id c))))
              (invalid "session id does not match metadata") in
  let? registry_identity :=
    ok_or (identity ← meta_str "registry_identity" metadata;
           if starts_with (s2b identity) (s2b "sha256:") && (slen identity =? 71)%Z then Some identity else None)
      (invalid "registry identity is invalid") in
  let? _ := refuse (negb (bool_decide (meta_str "toolset_hash" metadata = Some registry_identity)))
              (invalid "toolset hash does not match registry identity") in
  let? _ := ok_or (non_empty_str (meta_str "message_id" metadata)) (invalid "message id is missing") in
  let? _ := refuse (existsb (fun k => bool_decide (is_Some (obj_get k metadata)))
                      ["provider_options"; "tool_schemas"; "limits"; "input"])
              (invalid "context metadata must not duplicate run payload fields") in
  let? _ := ok_or (match as_array (rc_tool_schemas c) with Some (x :: l) => Some tt | _ => None end)
              (invalid "tool schema snapshot must be non-empty") in
  let? messages := ok_or (match as_array (rc_messages c) with Some (x :: l) => Some (x :: l) | _ => None end)
              (invalid "message baseline must be non-empty") in
  let? _ := refuse (existsb (fun m => match m with JNull => true | _ => false end) messages)
              (invalid "message baseline contains a null entry") in
  let? provider := ok_or (non_empty_str (meta_str "provider_profile" metadata))
              (invalid "provider profile is missing") in
  let? _ := map_err (fun e => invalid (profile_error_text str_debug e))
              (provider_profile_new provider (rc_provider_options c)) in
  let? _ := map_err (fun e => invalid (run_limits_error_text e)) (run_limits_from_json (rc_limits c)) in
  Ok tt.

Definition verify_context_registry (c : RunContext) (current_identity : string) : result unit RunContextError :=
  let? _ := verify_context_metadata c in
  let expected := default EmptyString (jget "registry_identity" (rc_metadata c) ≫= as_str) in
  refuse (negb (str_eqb expected current_identity)) (RegistryMismatch (rc_run_id c) expected current_identity).

(** What is stored of a context: everything but the messages. *)
Definition context_envelope (c : RunContext) : Json :=
  let snapshot := set_context_messages (JArray []) c in
  canonicalize_json_value
    (jobj [("schema_version", JNumber (PosInt RUN_CONTEXT_METADATA_VERSION));
           (RUN_CONTEXT_STORAGE_KEY, run_context_to_value snapshot)]).

Definition persisted_run_context_json (c : RunContext) : result string AdmitError :=
  let? _ := map_err admit_context_error (verify_context_metadata c) in
  let serialized := json_text (context_envelope c) in
  if (MAX_RUN_CONTEXT_STORAGE_BYTES <? slen serialized)%Z then
    Err (Invalid "run context snapshot exceeds the size limit")
  else Ok serialized.

Definition workspace_identity_json (binding : option WorkspaceBinding) (legacy_root request_selector : option string) :
    option string :=
  match binding, legacy_root, request_selector with
  | None, None, None => None
  | _, _, _ =>
      let identity := match binding with Some b => binding_to_value b | None => jobj [] end in
      let identity := jset "request_selector_present" (JBool (bool_decide (is_Some request_selector))) identity in
      let identity := jset "request_selector" (JString (default EmptyString request_selector)) identity in
      let identity := match legacy_root with Some root => jset "legacy_root" (JString root) identity | None => identity end in
      Some (json_text identity)
  end.

End Contexts.

(** ** The service *)

(** The authority of a resolved workspace, held by the VM's host. *)
Record WorkspaceAdmissionOutcome (Authority : Type) := {
  wo_ok : bool;
  wo_code : string;
  wo_canonical_path : option string;
  wo_effective_selector : option string;
  wo_selected_name : option string;
  wo_generation : option Z;
  wo_authority : option Authority
}.
Arguments wo_ok {_} _.
Arguments wo_code {_} _.
Arguments wo_canonical_path {_} _.
Arguments wo_effective_selector {_} _.
Arguments wo_selected_name {_} _.
Arguments wo_generation {_} _.
Arguments wo_authority {_} _.

(** The parts of the configuration admission reads. *)
Record AdmissionConfig := {
  cf_model : string;
  cf_provider : option string;
  cf_run_timeout : Z;
  cf_instant_max : Z;
  cf_max_events_per_run : Z;
  cf_max_event_bytes : Z;
  cf_approvals : Json;
  cf_client_disconnect_policy : ClientDisconnectPolicy;
  cf_persistence : bool;
  cf_context_cache_capacity : nat;
  cf_os : string;
  cf_arch : string
}.

Inductive AdmitMetric := MRejected (reason : AdmitRejectReason) | MAccepted | MActiveRunsInc.

(** What one admission does to the outside, in order. *)
Inductive AdmitEffect :=
| EDurable (run_id : string) (payload : Json) (ok : bool)
| EPublish (run_id : string)
| ERevoke.

Definition effective_limits_json (limits : RunLimits) (config : AdmissionConfig) : Json :=
  let object := run_limits_to_json limits in
  let object := jset "max_events" (JNumber (PosInt (cf_max_events_per_run config))) object in
  let object := jset "max_event_bytes" (JNumber (PosInt (cf_max_event_bytes config))) object in
  jset "timeout_ms" (JNumber (PosInt (Z.min u64_max (cf_run_timeout config)))) object.

#[export] Instance workspace_binding_eq_dec : EqDecision WorkspaceBinding.
Proof. solve_decision. Defined.

(** Serde's derived reader of a context, and that it reads what the derived
    writer wrote. *)
Class ContextSerde := run_context_from_value : Json -> result RunContext string.
Class ContextSerdeLaws `{ContextSerde} := {
  run_context_serde : forall c, run_context_from_value (run_context_to_value c) = Ok c
}.

(** What admission needs of the rest of the gateway and of the host: Rust's
    debug form of a string; the storage commands; the bundled workspace scripts
    run by the VM (the answer to an admission context, [None] when no runner can
    be built and an error when it fails; the comparison of replay identities;
    the check of a retained authority at a moment); [build_coding_prompt], which
    reads the workspace's files; fresh identifiers, the wall clock and the
    monotonic clock; the order in which a hash map yields its keys; the
    configuration. *)
Class AdmissionHost := {
  D : Type;
  Authority : Type;
  str_debug : string -> string;
  admission_create : Json -> D -> D * result Json StorageError;
  admission_replay : string -> string -> string -> option string -> D -> D * result Json StorageError;
  session_workspace_bind : string -> Json -> D -> D * result Json StorageError;
  run_get : string -> D -> D * result Json StorageError;
  run_workspace_admission : bool -> Json -> option (result (WorkspaceAdmissionOutcome Authority) unit);
  replay_identity_matches : Json -> result bool string;
  authority_check : nat -> Authority -> bool;
  compaction_error_from_rss : string -> string -> CompactionError;
  build_coding_prompt :
    string -> list Registry.ToolDescriptor -> RunLimits -> string -> string -> string -> result string string;
  uuids : nat -> string;
  times : nat -> Z;
  instants : nat -> Z;
  key_order : gset string -> list string;
  config : AdmissionConfig
}.

Section Service.
Context `{JsonText, UrlCrate, FileSystem, Registry.JsonSchemaCrate, Content.BlockSerde, StoreReaders, ContextSerde, AdmissionHost}.

Record AdmittedHandle := {
  ah_run : RunHandle;
  ah_workspace_authority : option Authority;
  ah_legacy_workspace_root : option string;
  ah_coding_system_prompt : string
}.

(** What other tasks may change at any time. *)
Record Settings := {
  se_registry : Registry.ToolRegistrySnapshot;
  se_run_limits : RunLimits;
  se_provider_profiles : gmap string ProviderProfile;
  se_legacy_root : option string;
  se_date : string;
  se_maintenance : gset string;
  se_halting : bool;
  se_workspace_factory : bool
}.

Record AState := {
  a_store : GatewayStore;
  a_durable : D;
  a_settings : Settings;
  a_permits : nat;
  a_handles : gmap string AdmittedHandle;
  a_contexts : gmap string RunContext;
  a_registries : gmap string Registry.ToolRegistrySnapshot;
  a_generation : Z;
  a_metrics : list AdmitMetric
}.

(** What the admission itself consumed and did. *)
Record Local := {
  l_steps : nat;
  l_ids : nat;
  l_times : nat;
  l_instants : nat;
  l_effects : list AdmitEffect
}.

(** What the other threads do before the [n]-th lock acquisition. *)
Class Interference := env : nat -> AState -> AState.
Context `{Interference}.

Definition M (A : Type) : Type := AState * Local -> (AState * Local) * result A AdmitError.

Definition ret {A} (a : A) : M A := fun s => (s, Ok a).
Definition fail {A} (e : AdmitError) : M A := fun s => (s, Err e).
Definition bind {A B} (m : M A) (k : A -> M B) : M B := fun s =>
  match m s with
  | (s', Ok a) => k a s'
  | (s', Err e) => (s', Err e)
  end.

Definition of_result {A} (r : result A AdmitError) : M A := fun s => (s, r).
Definition get {A} (f : AState -> A) : M A := fun s => (s, Ok (f (fst s))).

(** Other threads, up to the next lock acquisition. *)
Definition yield : M unit := fun '(s, l) =>
  ((env (l_steps l) s,
    {| l_steps := S (l_steps l); l_ids := l_ids l; l_times := l_times l; l_instants := l_instants l;
       l_effects := l_effects l |}), Ok tt).

Definition new_uuid : M string := fun '(s, l) =>
  ((s, {| l_steps := l_steps l; l_ids := S (l_ids l); l_times := l_times l; l_instants := l_instants l;
          l_effects := l_effects l |}), Ok (uuids (l_ids l))).
Definition timestamp : M Z := fun '(s, l) =>
  ((s, {| l_steps := l_steps l; l_ids := l_ids l; l_times := S (l_times l); l_instants := l_instants l;
          l_effects := l_effects l |}), Ok (times (l_times l))).
Definition instant_now : M Z := fun '(s, l) =>
  ((s, {| l_steps := l_steps l; l_ids := l_ids l; l_times := l_times l; l_instants := S (l_instants l);
          l_effects := l_effects l |}), Ok (instants (l_instants l))).
Definition effect (e : AdmitEffect) : M unit := fun '(s, l) =>
  ((s, {| l_steps := l_steps l; l_ids := l_ids l; l_times := l_times l; l_instants := l_instants l;
          l_effects := l_effects l ++ [e] |}), Ok tt).
Definition step_count : M nat := fun s => (s, Ok (l_steps (snd s))).

Definition modify (f : AState -> AState) : M unit := fun '(s, l) => ((f s, l), Ok tt).

Definition count (m : AdmitMetric) (s : AState) : AState := {|
  a_store := a_store s; a_durable := a_durable s; a_settings := a_settings s; a_permits := a_permits s;
  a_handles := a_handles s; a_contexts := a_contexts s; a_registries := a_registries s;
  a_generation := a_generation s; a_metrics := a_metrics s ++ [m] |}.
Definition set_durable (d : D) (s : AState) : AState := {|
  a_store := a_store s; a_durable := d; a_settings := a_settings s; a_permits := a_permits s;
  a_handles := a_handles s; a_contexts := a_contexts s; a_registries := a_registries s;
  a_generation := a_generation s; a_metrics := a_metrics s |}.
Definition set_store (store : GatewayStore) (s : AState) : AState := {|
  a_store := store; a_durable := a_durable s; a_settings := a_settings s; a_permits := a_permits s;
  a_handles := a_handles s; a_contexts := a_contexts s; a_registries := a_registries s;
  a_generation := a_generation s; a_metrics := a_metrics s |}.
Definition set_permits (n : nat) (s : AState) : AState := {|
  a_store := a_store s; a_durable := a_durable s; a_settings := a_settings s; a_permits := n;
  a_handles := a_handles s; a_contexts := a_contexts s; a_registries := a_registries s;
  a_generation := a_generation s; a_metrics := a_metrics s |}.

(** [metrics.admission_rejected(reason); return Err(e)]. *)
Definition reject {A} (reason : AdmitRejectReason) (e : AdmitError) : M A :=
  bind (modify (count (MRejected reason))) (fun _ => fail e).

Definition command {A} (f : D -> D * result A StorageError) : M (result A StorageError) := fun '(s, l) =>
  let '(d, r) := f (a_durable s) in ((set_durable d s, l), Ok r).

Local Notation "'do!' x ':=' m 'in' k" := (bind m (fun x => k))
  (at level 10, x binder, m at level 100, k at level 200).

Definition check (b : bool) (m : M unit) : M unit := if b then m else ret tt.

(** [if let Err(message) = .. { rejected(Invalid); return Err(Invalid(message)) }]. *)
Definition require_valid (r : result unit string) : M unit :=
  match r with Ok _ => ret tt | Err message => reject RejectInvalid (Invalid message) end.

Definition resolve_provider_profile (provider : option string) (se : Settings) :
    result ProviderProfile ProviderProfileError :=
  let provider := default "local-agent" provider in
  match se_provider_profiles se !! provider with
  | Some profile => Ok profile
  | None => builtin provider
  end.

Definition provider_profile (provider : option string) : M ProviderProfile :=
  do! se := get a_settings in
  of_result (map_err (fun e => Invalid ("invalid provider profile: " +:+ profile_error_text str_debug e))
               (resolve_provider_profile provider se)).

Definition admission_cancelled_before_commit (c : RunCancellation) : M bool :=
  match cn_requested c with
  | Some _ => ret true
  | None => do! now := instant_now in ret (deadline_passed now c)
  end.

Definition admission_deadline_rejection {A} : M A :=
  reject RejectInvalid (Invalid "admission cancelled before commit").

(** ** Idempotent replay *)

Definition workspace_replay_identity_matches (stored : IdempotencyRecord) (request_hash : string)
    (request_selector : option string) : result bool AdmitError :=
  let? identity :=
    match ir_workspace_identity_json stored with
    | None => Ok None
    | Some text =>
        map_err (fun e => AdmitPersistence ("stored workspace replay identity is invalid: " +:+ e))
          (result_map Some (json_parse text))
    end in
  map_err (fun e => Invalid ("workspace replay comparison failed: " +:+ e))
    (replay_identity_matches
       (jobj [("stored_request_hash", JString (ir_request_hash stored)); ("request_hash", JString request_hash);
              ("stored_workspace_identity_present", JBool (bool_decide (is_Some identity)));
              ("stored_workspace_identity", default JNull identity);
              ("incoming_workspace_selector_present", JBool (bool_decide (is_Some request_selector)));
              ("incoming_workspace_selector", JString (default EmptyString request_selector))])).

(** The comparison, and the rejection of a request that differs. *)
Definition same_request (stored : IdempotencyRecord) (hash : string) (selector : option string) : M unit :=
  do! same := of_result (workspace_replay_identity_matches stored hash selector) in
  check (negb same) (reject RejectConflict IdempotencyConflict).

Definition replayed_run (run_id : string) (info : option (string * string)) : AdmittedRun :=
  let '(session_id, status) := default (EmptyString, "unknown") info in
  {| ar_run_id := run_id; ar_session_id := session_id; ar_status := status; ar_replayed := true |}.

Definition run_info (store : GatewayStore) (run_id : string) : option (string * string) :=
  (fun run => (rr_session_id run, rr_status run)) <$> gs_runs store !! run_id.

Definition finish_durable_replay (data : Json) : M AdmittedRun :=
  do! run_row := of_result (ok_or (sqlite_storage_first_row (default JNull (jget "run" data)))
                   (AdmitPersistence "replayed admission omitted the existing run")) in
  let run_id := default EmptyString (admission_run_str run_row ADMISSION_RUN_COL_ID) in
  let session_id := default EmptyString (admission_run_str run_row ADMISSION_RUN_COL_SESSION_ID) in
  let status := default "unknown" (admission_run_str run_row ADMISSION_RUN_COL_STATUS) in
  do! _ := yield in
  do! store := get a_store in
  ret (replayed_run run_id (Some (default (session_id, status) (run_info store run_id)))).

Definition replay_durable_admission (key request_hash : string) (request_selector : option string) :
    M (option AdmittedRun) :=
  if negb (cf_persistence config) then ret None
  else
    do! reply := command (admission_replay ADMISSION_IDEMPOTENCY_SCOPE key request_hash request_selector) in
    match reply with
    | Err error =>
        if str_eqb (se_code error) "idempotency_key_conflict" then
          reject RejectConflict IdempotencyConflict
        else
          reject RejectPersistence
            (AdmitPersistence ("durable admission replay failed: " +:+ storage_error_text error))
    | Ok data =>
        match jget "replayed" data with
        | Some (JBool true) => do! run := finish_durable_replay data in ret (Some run)
        | Some (JBool false) => ret None
        | _ =>
            reject RejectPersistence (AdmitPersistence "durable admission replay omitted its replay status")
        end
    end.

Definition replay_existing_admission (request : AdmitRunRequest) (request_selector : option string) :
    M (option AdmittedRun) :=
  match rq_idempotency_key request, rq_idempotency_hash request with
  | Some key, Some hash =>
      do! _ := yield in
      do! store := get a_store in
      match gs_idempotency store !! key with
      | None => replay_durable_admission key hash request_selector
      | Some existing =>
          let info := run_info store (ir_run_id existing) in
          do! _ := same_request existing hash request_selector in
          do! _ := yield in
          do! store := get a_store in
          match gs_idempotency store !! key with
          | None => ret None
          | Some current =>
              do! _ := same_request current hash request_selector in
              ret (Some (replayed_run (ir_run_id current)
                           (match run_info store (ir_run_id current) with Some i => Some i | None => info end)))
          end
      end
  | _, _ => ret None
  end.

(** ** Workspace *)

Definition admission_context (selector : option string) (existing : option WorkspaceBinding) : Json :=
  jobj [("selector", JString (default EmptyString selector)); ("selector_present", JBool (bool_decide (is_Some selector)));
        ("session_selector", JString (match existing with Some b => wb_selector b | None => EmptyString end));
        ("session_canonical_path", JString (match existing with Some b => wb_canonical_path b | None => EmptyString end))].

Definition is_none {A} (o : option A) : bool := match o with None => true | Some _ => false end.

Definition resolve_workspace_admission (selector : option string) (existing : option WorkspaceBinding)
    (factory allow_switch : bool) : result (option WorkspaceBinding * option Authority) AdmitError :=
  let unbound := is_none selector && is_none existing in
  if unbound && negb factory then Ok (None, None)
  else
    match run_workspace_admission allow_switch (admission_context selector existing) with
    | None => Err (Invalid "workspace admission is unavailable")
    | Some (Err _) => if unbound then Ok (None, None) else Err (Invalid "workspace admission was rejected")
    | Some (Ok outcome) =>
        if negb (wo_ok outcome) then
          if unbound && str_eqb (wo_code outcome) "workspace_unavailable" then Ok (None, None)
          else Err (Invalid (wo_code outcome))
        else
          let? authority := ok_or (wo_authority outcome) (Invalid "workspace authority was not retained") in
          let? canonical_path := ok_or (wo_canonical_path outcome) (Invalid "workspace admission omitted its path") in
          let? generation := ok_or (wo_generation outcome) (Invalid "workspace admission omitted its generation") in
          let? effective_selector :=
            ok_or (wo_effective_selector outcome) (Invalid "workspace admission omitted its effective selector") in
          Ok (Some {| wb_selector := effective_selector; wb_canonical_path := canonical_path;
                      wb_selected_name := wo_selected_name outcome; wb_generation := generation |},
              Some authority)
    end.

(** ** Preparation *)

(** What an attempt reads while it holds the store. *)
Record Base := {
  ba_registry : Registry.ToolRegistrySnapshot;
  ba_limits : RunLimits;
  ba_session_id : string;
  ba_session_new : bool;
  ba_existing : option WorkspaceBinding;
  ba_model : string;
  ba_provider : option string;
  ba_prompt : option string;
  ba_replay : bool;
  ba_profile : ProviderProfile;
  ba_message : SessionMessage;
  ba_messages : list SessionMessage
}.

Definition or_opt {A} (a b : option A) : option A := match a with Some _ => a | None => b end.

Definition effective (request : AdmitRunRequest) (session : option SessionRecord) :
    string * option string * option string :=
  match session with
  | None =>
      (default (cf_model config) (rq_model request), or_opt (rq_provider request) (cf_provider config),
       rq_instructions request)
  | Some session =>
      (default (sv_model (sr_view session)) (rq_model request),
       or_opt (rq_provider request) (sv_provider (sr_view session)),
       or_opt (rq_instructions request) (sv_system_prompt (sr_view session)))
  end.

Definition validate_provider_name (provider : option string) : result unit string :=
  match provider with
  | Some provider =>
      if is_empty provider then Ok tt else validate_visible_name provider "provider" MAX_PROVIDER_NAME_BYTES
  | None => Ok tt
  end.

Definition user_message (request : AdmitRunRequest) (message_id session_id run_id : string) (now : Z) :
    SessionMessage := {|
  sm_id := message_id; sm_session_id := session_id; sm_role := "user";
  sm_content := Content.decode_message_content (rq_input request); sm_created_at := now;
  sm_run_id := Some run_id; sm_finish_reason := None; sm_name := None; sm_tool_call_id := None;
  sm_parent_message_id := None; sm_token_estimate := None; sm_metadata := JNull; sm_ordinal := None |}.

Definition parent_ok (request : AdmitRunRequest) (store : GatewayStore) : bool :=
  match rq_parent_run_id request with
  | None => true
  | Some parent => bool_decide (is_Some (gs_runs store !! parent))
  end.

(** The session of the run that used the request's key before. *)
Definition replay_session_id (request : AdmitRunRequest) (store : GatewayStore) : option string :=
  key ← rq_idempotency_key request;
  record ← gs_idempotency store !! key;
  run ← gs_runs store !! ir_run_id record;
  Some (rr_session_id run).

Definition read_base (request : AdmitRunRequest) (run_id message_id : string) (now : Z) : M Base :=
  do! _ := yield in
  do! registry := get (fun s => se_registry (a_settings s)) in
  do! _ := check (match Registry.entries registry with [] => true | _ => false end)
             (reject RejectInvalid (Invalid "tool registry must not be empty")) in
  do! _ := yield in
  do! limits := get (fun s => se_run_limits (a_settings s)) in
  do! _ := of_result (map_err (fun e => Invalid ("invalid run limits: " +:+ run_limits_error_text e))
             (validate limits)) in
  do! _ := yield in
  do! store := get a_store in
  let replay := replay_session_id request store in
  do! session_id :=
    match or_opt (rq_session_id request) replay with
    | Some session_id =>
        if is_none (gs_sessions store !! session_id) then reject RejectSession SessionNotFound
        else ret session_id
    | None => new_uuid
    end in
  let session := gs_sessions store !! session_id in
  let '(model, provider, prompt) := effective request session in
  do! _ := require_valid (validate_visible_name model "model" MAX_MODEL_NAME_BYTES) in
  do! _ := require_valid (validate_provider_name provider) in
  do! _ := check (negb (parent_ok request store)) (reject RejectParent ParentNotFound) in
  do! profile := provider_profile provider in
  let message := user_message request message_id session_id run_id now in
  ret {| ba_registry := registry; ba_limits := limits; ba_session_id := session_id;
         ba_session_new := is_none session; ba_existing := session ≫= (fun s => sv_workspace (sr_view s));
         ba_model := model; ba_provider := provider; ba_prompt := prompt;
         ba_replay := bool_decide (is_Some replay); ba_profile := profile; ba_message := message;
         ba_messages := match session with Some s => sr_messages s | None => [] end ++ [message] |}.

Definition new_session_view (request : AdmitRunRequest) (b : Base) (now : Z) (workspace : option WorkspaceBinding) :
    SessionView := {|
  sv_id := ba_session_id b; sv_object := "hermes.session"; sv_title := None; sv_model := ba_model b;
  sv_provider := ba_provider b; sv_source := rq_platform request; sv_system_prompt := ba_prompt b;
  sv_workspace := workspace; sv_created_at := now; sv_updated_at := now; sv_message_count := 0;
  sv_end_reason := None |}.

Definition with_root (root : string) (l : RunLimits) : RunLimits := {|
  max_turns := max_turns l; max_tool_calls := max_tool_calls l;
  max_tool_output_bytes := max_tool_output_bytes l; workspace_root := root |}.

Definition make_admitted_context (request : AdmitRunRequest) (b : Base) (run_id message_id : string)
    (limits : RunLimits) (coding_system_prompt : string) : M RunContext :=
  do! created_at_ms := timestamp in
  let timeout_ms := Z.min u64_max (cf_run_timeout config) in
  let identity := JString (Registry.identity (ba_registry b)) in
  let metadata := jobj [
    ("schema_version", JNumber (PosInt RUN_CONTEXT_METADATA_VERSION)); ("run_id", JString run_id);
    ("session_id", JString (ba_session_id b)); ("registry_identity", identity); ("toolset_hash", identity);
    ("approval_settings", cf_approvals config); ("provider_profile", JString (pp_name (ba_profile b)));
    ("message_id", JString message_id); ("created_at_ms", JNumber (PosInt created_at_ms));
    ("deadline_at_ms", JNumber (PosInt (saturating_add created_at_ms timeout_ms)))] in
  ret {| rc_run_id := run_id; rc_session_id := ba_session_id b; rc_parent_run_id := rq_parent_run_id request;
         rc_platform := rq_platform request; rc_input := rq_input request;
         rc_messages := JArray (map message_to_value (ba_messages b)); rc_system_prompt := ba_prompt b;
         rc_model := ba_model b; rc_provider := ba_provider b;
         rc_provider_options := pp_options (ba_profile b); rc_tool_schemas := Registry.schemas (ba_registry b);
         rc_limits := effective_limits_json limits config; rc_metadata := metadata;
         rc_coding_system_prompt := Some coding_system_prompt |}.

(** Everything the commit needs. *)
Record Prepared := {
  pr_base : Base;
  pr_binding : option WorkspaceBinding;
  pr_authority : option Authority;
  pr_legacy_root : option string;
  pr_identity_json : option string;
  pr_date : string;
  pr_prompt : string;
  pr_context : RunContext;
  pr_payload : Json
}.

Definition admission_lens (request : AdmitRunRequest) (b : Base) (run_id message_id persisted_input : string)
    (identity_json : option string) : AdmissionSqliteCellLens :=
  let key := default EmptyString (rq_idempotency_key request) in {|
  cl_run_id := slen run_id; cl_session_id := slen (ba_session_id b);
  cl_parent_run_id := slen (default EmptyString (rq_parent_run_id request));
  cl_input_json := slen persisted_input; cl_provider := slen (default EmptyString (ba_provider b));
  cl_model := slen (ba_model b); cl_script_hash := slen (Registry.identity (ba_registry b));
  cl_idempotency_scope := slen ADMISSION_IDEMPOTENCY_SCOPE; cl_idempotency_key := slen key;
  cl_platform := slen (rq_platform request); cl_profile := slen ADMISSION_SESSION_PROFILE;
  cl_system_prompt := slen (default EmptyString (ba_prompt b)); cl_message_id := slen message_id;
  cl_request_hash :=
    saturating_add (slen (default EmptyString (rq_idempotency_hash request)))
      (match identity_json with Some t => slen t | None => 0 end);
  cl_has_idempotency := negb (is_empty key) |}.

Definition admission_payload (request : AdmitRunRequest) (b : Base) (run_id message_id event_id : string) (now : Z)
    (session_metadata_json persisted_input : string) (identity_json : option string) : Json :=
  let str s := JString s in
  let opt o := JString (default EmptyString o) in
  jobj [("session_id", str (ba_session_id b)); ("session_new", jint (if ba_session_new b then 1 else 0));
        ("profile", str ADMISSION_SESSION_PROFILE); ("platform", str (rq_platform request));
        ("account_id", str (ba_session_id b)); ("model", str (ba_model b)); ("provider", opt (ba_provider b));
        ("system_prompt", opt (ba_prompt b)); ("session_metadata_json", str session_metadata_json);
        ("run_id", str run_id); ("parent_run_id", opt (rq_parent_run_id request));
        ("input_json", str persisted_input); ("message_id", str message_id); ("message_run_id", str run_id);
        ("script_hash", str (Registry.identity (ba_registry b)));
        ("idempotency_scope", str ADMISSION_IDEMPOTENCY_SCOPE);
        ("idempotency_key", opt (rq_idempotency_key request));
        ("request_hash", opt (rq_idempotency_hash request)); ("workspace_identity_json", opt identity_json);
        ("event_id", str event_id); ("now_ms", JNumber (PosInt now)); ("expires_at_ms", jint 0)].

Definition prepare (request : AdmitRunRequest) (selector : option string) (allow_legacy : bool) (b : Base)
    (run_id message_id event_id : string) (now : Z) : M Prepared :=
  do! _ := yield in
  do! factory := get (fun s => se_workspace_factory (a_settings s)) in
  do! resolved := of_result (resolve_workspace_admission selector (ba_existing b) factory (ba_replay b)) in
  let '(binding, authority) := resolved in
  do! _ := yield in
  do! legacy_root :=
    if is_none binding && allow_legacy then get (fun s => se_legacy_root (a_settings s)) else ret None in
  let identity_json := workspace_identity_json binding legacy_root selector in
  let limits :=
    match binding, legacy_root with
    | Some binding, _ => with_root (wb_canonical_path binding) (ba_limits b)
    | None, Some root => with_root root (ba_limits b)
    | None, None => ba_limits b
    end in
  let session_metadata_json :=
    match binding with Some binding => json_text (jobj [("workspace", binding_to_value binding)]) | None => "{}" end in
  do! _ := yield in
  do! date := get (fun s => se_date (a_settings s)) in
  do! prompt :=
    match build_coding_prompt (workspace_root limits) (Registry.descriptors (ba_registry b)) limits date
            (cf_os config) (cf_arch config) with
    | Ok prompt => ret prompt
    | Err error => reject RejectInvalid (Invalid error)
    end in
  do! context := make_admitted_context request b run_id message_id limits prompt in
  let context :=
    match binding with
    | Some binding =>
        set_context_metadata (jset "admitted_workspace_binding" (binding_to_value binding) (rc_metadata context)) context
    | None => context
    end in
  do! persisted_input := of_result (persisted_run_context_json str_debug context) in
  do! _ :=
    match admission_budget (admission_lens request b run_id message_id persisted_input identity_json) with
    | Ok _ => ret tt
    | Err error => reject RejectInvalid (Invalid (budget_error_text error))
    end in
  ret {| pr_base := b; pr_binding := binding; pr_authority := authority; pr_legacy_root := legacy_root;
         pr_identity_json := identity_json; pr_date := date; pr_prompt := prompt; pr_context := context;
         pr_payload := admission_payload request b run_id message_id event_id now session_metadata_json
                         persisted_input identity_json |}.

(** ** Commit *)

(** [continue] of the loop, or an answer. *)
Inductive Attempt := Again | Answer (run : AdmittedRun).

(** What the session looked like when the attempt was prepared. *)
Definition session_unchanged (request : AdmitRunRequest) (b : Base) (current : option SessionRecord) : bool :=
  match current with
  | None => true
  | Some session =>
      bool_decide (sv_workspace (sr_view session) = ba_existing b) &&
      (ba_session_new b ||
       (let '(model, provider, prompt) := effective request (Some session) in
        bool_decide (model = ba_model b) && bool_decide (provider = ba_provider b) &&
        bool_decide (prompt = ba_prompt b) &&
        bool_decide (map sm_id (sr_messages session) = map sm_id (take (length (ba_messages b) - 1) (ba_messages b)))))
  end.

(** What the settings looked like. *)
Definition settings_unchanged (allow_legacy : bool) (p : Prepared) (se : Settings) : bool :=
  let b := pr_base p in
  let base := ba_limits b in
  let current := se_run_limits se in
  str_eqb (Registry.identity (se_registry se)) (Registry.identity (ba_registry b)) &&
  (max_turns current =? max_turns base)%Z && (max_tool_calls current =? max_tool_calls base)%Z &&
  (max_tool_output_bytes current =? max_tool_output_bytes base)%Z &&
  (negb (is_none (pr_binding p) && is_none (pr_legacy_root p))
   || str_eqb (workspace_root current) (workspace_root base)) &&
  (negb (is_none (pr_binding p) && allow_legacy) || bool_decide (se_legacy_root se = pr_legacy_root p)).

Definition insert_run (run : RunRecord) (store : GatewayStore) : GatewayStore := {|
  gs_sessions := gs_sessions store; gs_runs := <[rr_run_id run := run]> (gs_runs store);
  gs_jobs := gs_jobs store; gs_idempotency := gs_idempotency store |}.

Definition insert_session (id : string) (session : SessionRecord) (store : GatewayStore) : GatewayStore := {|
  gs_sessions := <[id := session]> (gs_sessions store); gs_runs := gs_runs store;
  gs_jobs := gs_jobs store; gs_idempotency := gs_idempotency store |}.

Definition insert_key (key : string) (record : IdempotencyRecord) (store : GatewayStore) : GatewayStore := {|
  gs_sessions := gs_sessions store; gs_runs := gs_runs store; gs_jobs := gs_jobs store;
  gs_idempotency := <[key := record]> (gs_idempotency store) |}.

(** The session with the request's overrides and the new message. *)
Definition admit_message (request : AdmitRunRequest) (p : Prepared) (now : Z) (session : SessionRecord) :
    SessionRecord :=
  let v := sr_view session in
  let messages := sr_messages session ++ [ba_message (pr_base p)] in
  {| sr_view := {|
       sv_id := sv_id v; sv_object := sv_object v; sv_title := sv_title v;
       sv_model := default (sv_model v) (rq_model request);
       sv_provider := or_opt (rq_provider request) (sv_provider v); sv_source := sv_source v;
       sv_system_prompt := or_opt (rq_instructions request) (sv_system_prompt v);
       sv_workspace := or_opt (pr_binding p) (sv_workspace v); sv_created_at := sv_created_at v;
       sv_updated_at := now; sv_message_count := length messages; sv_end_reason := sv_end_reason v |};
     sr_messages := messages |}.

Definition started_event (run_id session_id event_id : string) (now : Z) : GatewayEvent := {|
  ge_event_id := event_id; ge_seq := 1; ge_event := "run.started"; ge_run_id := run_id; ge_timestamp := now;
  ge_data := jobj [("status", JString "running"); ("session_id", JString session_id)] |}.

Definition new_run (request : AdmitRunRequest) (run_id session_id event_id : string) (now : Z) : RunRecord := {|
  rr_run_id := run_id; rr_session_id := session_id; rr_parent_run_id := rq_parent_run_id request;
  rr_status := "started"; rr_events := [started_event run_id session_id event_id now]; rr_sender := true;
  rr_cancel_requested := false |}.

Definition new_handle (p : Prepared) (cancellation : RunCancellation) : AdmittedHandle := {|
  ah_run := {|
    h_cancel := cancellation; h_terminal_at := None; h_permit := true; h_terminal := false;
    h_cancel_reason := None; h_count := 0; h_notified := false;
    h_policy := cf_client_disconnect_policy config; h_tool_cancel := false; h_host := HostEmpty;
    h_authority := negb (is_none (pr_authority p)) |};
  ah_workspace_authority := pr_authority p; ah_legacy_workspace_root := pr_legacy_root p;
  ah_coding_system_prompt := pr_prompt p |}.

Definition active_ids (handles : gmap string AdmittedHandle) : gset string :=
  dom (filter (fun kv => handle_is_terminal (ah_run kv.2) = false) handles).

(** The first key, in the map's order, of a run that is not active. *)
Definition evictable (active : gset string) (keys : gset string) : option string :=
  List.find (fun k => negb (bool_decide (k ∈ active))) (key_order keys).

Definition cache_context (context : RunContext) (registry : option Registry.ToolRegistrySnapshot) (s : AState) :
    AState :=
  let active := active_ids (a_handles s) in
  let run_id := rc_run_id context in
  let full {A} (m : gmap string A) := is_none (m !! run_id) && (cf_context_cache_capacity config <=? size m)%nat in
  let evicted := if full (a_contexts s) then evictable active (dom (a_contexts s)) else None in
  let contexts := match evicted with Some k => delete k (a_contexts s) | None => a_contexts s end in
  let contexts := <[run_id := context]> contexts in
  let registries := match evicted with Some k => delete k (a_registries s) | None => a_registries s end in
  let registries :=
    match registry with
    | Some registry =>
        let victim := if full registries then evictable active (dom registries) else None in
        <[run_id := registry]> (match victim with Some k => delete k registries | None => registries end)
    | None => delete run_id registries
    end in
  {| a_store := a_store s; a_durable := a_durable s; a_settings := a_settings s; a_permits := a_permits s;
     a_handles := a_handles s; a_contexts := contexts; a_registries := registries;
     a_generation := a_generation s; a_metrics := a_metrics s |}.

(** The publication, under the store's write lock. *)
Definition publish (request : AdmitRunRequest) (p : Prepared) (run_id event_id : string) (now : Z)
    (cancellation : RunCancellation) (s : AState) : AState :=
  let b := pr_base p in
  let session_id := ba_session_id b in
  let fresh := {| sr_view := new_session_view request b now (pr_binding p); sr_messages := [] |} in
  let store := a_store s in
  let session := if ba_session_new b then fresh else default fresh (gs_sessions store !! session_id) in
  let store := insert_session session_id (admit_message request p now session) store in
  let store := insert_run (new_run request run_id session_id event_id now) store in
  let store :=
    match rq_idempotency_key request, rq_idempotency_hash request with
    | Some key, Some hash =>
        insert_key key {| ir_request_hash := hash; ir_run_id := run_id;
                          ir_workspace_identity_json := pr_identity_json p |} store
    | _, _ => store
    end in
  let s := {|
    a_store := store; a_durable := a_durable s; a_settings := a_settings s; a_permits := a_permits s;
    a_handles := <[run_id := new_handle p cancellation]> (a_handles s); a_contexts := a_contexts s;
    a_registries := a_registries s; a_generation := a_generation s + 1; a_metrics := a_metrics s |} in
  let s := cache_context (pr_context p) (Some (ba_registry b)) s in
  count MActiveRunsInc (count MAccepted s).

(** A record that appeared under the request's key: the earlier run, if the
    requests agree; [lock] takes the store again to read it. *)
Definition replay_record (request : AdmitRunRequest) (selector : option string) (found : option IdempotencyRecord)
    (lock : M unit) (otherwise : M Attempt) : M Attempt :=
  match rq_idempotency_key request, rq_idempotency_hash request, found with
  | Some _, Some hash, Some existing =>
      do! _ := same_request existing hash selector in
      do! _ := lock in
      do! store := get a_store in
      ret (Answer (replayed_run (ir_run_id existing) (run_info store (ir_run_id existing))))
  | _, _, _ => otherwise
  end.

Definition key_record (request : AdmitRunRequest) (store : GatewayStore) : option IdempotencyRecord :=
  key ← rq_idempotency_key request; gs_idempotency store !! key.

(** The run that already has this identifier. *)
Definition existing_run (run_id : string) (otherwise : M Attempt) : M Attempt :=
  do! store := get a_store in
  match run_info store run_id with
  | Some info => ret (Answer (replayed_run run_id (Some info)))
  | None => otherwise
  end.

Definition maintenance_busy {A} : M A :=
  fail (SessionMaintenanceBusy (compaction_error_from_rss "busy" "session maintenance is in progress")).

(** The last checks and the publication, in one critical section of the store. *)
Definition publish_checked (request : AdmitRunRequest) (selector : option string) (p : Prepared)
    (run_id event_id : string) (now : Z) (cancellation : RunCancellation) : M Attempt :=
  do! _ := yield in
  let b := pr_base p in
  existing_run run_id (
    do! store := get a_store in
    replay_record request selector (key_record request store) (ret tt) (
      do! _ := check (negb (ba_session_new b) && is_none (gs_sessions store !! ba_session_id b))
                 (reject RejectSession SessionNotFound) in
      do! _ := check (negb (parent_ok request store)) (reject RejectParent ParentNotFound) in
      do! _ := modify (publish request p run_id event_id now cancellation) in
      do! _ := effect (EPublish run_id) in
      ret (Answer {| ar_run_id := run_id; ar_session_id := ba_session_id b; ar_status := "started";
                     ar_replayed := false |}))).

(** The durable command. *)
Definition admit_durably (run_id : string) (payload : Json) : M Json :=
  if negb (cf_persistence config) then ret JNull
  else
    do! reply := command (admission_create payload) in
    do! _ := effect (EDurable run_id payload (is_ok reply)) in
    match reply with
    | Ok data => ret data
    | Err error =>
        reject RejectPersistence
          (if str_eqb (se_code error) "idempotency_key_conflict" then IdempotencyConflict
           else AdmitPersistence ("run admission could not be durably committed: " +:+ storage_error_text error))
    end.

(** The commit phase, under the commit gate. *)
Definition commit_attempt (request : AdmitRunRequest) (selector : option string) (allow_legacy : bool)
    (p : Prepared) (run_id event_id : string) (now : Z) (cancellation : RunCancellation) : M Attempt :=
  let b := pr_base p in
  do! _ := yield in
  do! halting := get (fun s => se_halting (a_settings s)) in
  do! _ := check halting (reject RejectHalting Halting) in
  do! cancelled := admission_cancelled_before_commit cancellation in
  do! _ := check cancelled admission_deadline_rejection in
  do! _ := yield in
  do! store := get a_store in
  do! maintenance := get (fun s => se_maintenance (a_settings s)) in
  let current := gs_sessions store !! ba_session_id b in
  if ba_session_new b && negb (is_none current) then ret Again
  else
    do! _ := check (negb (ba_session_new b) && is_none current) (reject RejectSession SessionNotFound) in
    do! _ := check (negb (parent_ok request store)) (reject RejectParent ParentNotFound) in
    do! _ := check (bool_decide (ba_session_id b ∈ maintenance)) maintenance_busy in
    do! steps := step_count in
    do! _ := check (match pr_authority p with Some a => negb (authority_check steps a) | None => false end)
               (reject RejectInvalid (Invalid "workspace authority was revoked before admission commit")) in
    if negb (session_unchanged request b current) then ret Again
    else
      do! _ := yield in
      do! se := get a_settings in
      if negb (settings_unchanged allow_legacy p se) then ret Again
      else
        do! profile := provider_profile (ba_provider b) in
        if negb (bool_decide (profile_to_json profile = profile_to_json (ba_profile b))) then ret Again
        else if negb (str_eqb (se_date se) (pr_date p)) then ret Again
        else
          replay_record request selector (key_record request store) yield (
            (if is_none (gs_runs store !! run_id) then fun otherwise => otherwise
             else fun otherwise => do! _ := yield in existing_run run_id otherwise) (
              do! cancelled := admission_cancelled_before_commit cancellation in
              do! _ := check cancelled admission_deadline_rejection in
              do! data := admit_durably run_id (pr_payload p) in
              if bool_decide (jget "replayed" data = Some (JBool true)) then
                do! run := finish_durable_replay data in ret (Answer run)
              else publish_checked request selector p run_id event_id now cancellation)).

(** ** The loop *)

(** One round: prepare without the gate, then commit under it. *)
Definition prepare_and_commit (request : AdmitRunRequest) (selector : option string) (allow_legacy : bool)
    (run_id message_id event_id : string) (now : Z) (cancellation : RunCancellation) : M Attempt :=
  do! b := read_base request run_id message_id now in
  do! replayed := replay_existing_admission request selector in
  match replayed with
  | Some run => ret (Answer run)
  | None =>
      do! _ := yield in
      do! maintenance := get (fun s => se_maintenance (a_settings s)) in
      do! _ := check (bool_decide (ba_session_id b ∈ maintenance)) maintenance_busy in
      do! p := prepare request selector allow_legacy b run_id message_id event_id now in
      commit_attempt request selector allow_legacy p run_id event_id now cancellation
  end.

Definition attempt (request : AdmitRunRequest) (selector : option string) (allow_legacy : bool)
    (run_id message_id event_id : string) (now : Z) (cancellation : RunCancellation) : M Attempt :=
  do! cancelled := admission_cancelled_before_commit cancellation in
  do! _ := check cancelled admission_deadline_rejection in
  prepare_and_commit request selector allow_legacy run_id message_id event_id now cancellation.

(** [None]: the fuel is used up. *)
Fixpoint admit_loop (fuel : nat) (request : AdmitRunRequest) (selector : option string) (allow_legacy : bool)
    (run_id message_id event_id : string) (now : Z) (cancellation : RunCancellation) (s : AState * Local) :
    option ((AState * Local) * result AdmittedRun AdmitError) :=
  match fuel with
  | O => None
  | S fuel' =>
      match attempt request selector allow_legacy run_id message_id event_id now cancellation s with
      | (s, Ok Again) => admit_loop fuel' request selector allow_legacy run_id message_id event_id now cancellation s
      | (s, Ok (Answer run)) => Some (s, Ok run)
      | (s, Err e) => Some (s, Err e)
      end
  end.

(** The permit is kept by the run's handle, or given back. *)
Definition drop_permit (r : result AdmittedRun AdmitError) (s : AState) : AState :=
  match r with
  | Ok run => if ar_replayed run then set_permits (S (a_permits s)) s else s
  | Err _ => set_permits (S (a_permits s)) s
  end.

Definition admit_blocking (fuel : nat) (request : AdmitRunRequest) (selector : option string) (allow_legacy : bool)
    (s : AState * Local) : option ((AState * Local) * result AdmittedRun AdmitError) :=
  let start :=
    do! started := instant_now in
    do! run_id := new_uuid in
    do! now := timestamp in
    do! message_id := new_uuid in
    do! event_id := new_uuid in
    ret (with_timeout (cf_instant_max config) started (cf_run_timeout config), run_id, now, message_id, event_id) in
  match start s with
  | (s, Err e) => Some (s, Err e)
  | (s, Ok (cancellation, run_id, now, message_id, event_id)) =>
      '((s, l), r) ← admit_loop fuel request selector allow_legacy run_id message_id event_id now cancellation s;
      Some ((drop_permit r s, l), r)
  end.

(** [capacity.try_acquire_owned()]. *)
Definition acquire_permit : M unit :=
  do! _ := yield in
  do! permits := get a_permits in
  match permits with
  | O => reject RejectRunLimit RunLimitReached
  | S permits => modify (set_permits permits)
  end.

(** The checks at the door. *)
Definition enter (request : AdmitRunRequest) : M unit :=
  do! _ := yield in
  do! halting := get (fun s => se_halting (a_settings s)) in
  do! _ := check halting (reject RejectHalting Halting) in
  do! _ := require_valid (validate_idempotency_pair (rq_idempotency_key request) (rq_idempotency_hash request)) in
  do! _ := require_valid (match rq_model request with
                          | Some model => validate_visible_name model "model" MAX_MODEL_NAME_BYTES
                          | None => Ok tt
                          end) in
  require_valid (validate_provider_name (rq_provider request)).

Definition admit_with_workspace_options (fuel : nat) (request : AdmitRunRequest) (selector : option string)
    (allow_legacy : bool) (s : AState * Local) : option ((AState * Local) * result AdmittedRun AdmitError) :=
  match bind (enter request) (fun _ => acquire_permit) s with
  | (s, Err e) => Some (s, Err e)
  | (s, Ok _) => admit_blocking fuel request selector allow_legacy s
  end.

(** ** Binding a session to a workspace *)

Definition active_status (status : string) : bool :=
  existsb (str_eqb status) ["queued"; "running"; "started"; "stopping"].

Definition session_busy (session_id : string) (store : GatewayStore) : bool :=
  bool_decide (map_Exists (fun _ run => rr_session_id run = session_id /\ active_status (rr_status run) = true)
                 (gs_runs store)).

Definition bind_view (binding : WorkspaceBinding) (now : Z) (v : SessionView) : SessionView := {|
  sv_id := sv_id v; sv_object := sv_object v; sv_title := sv_title v; sv_model := sv_model v;
  sv_provider := sv_provider v; sv_source := sv_source v; sv_system_prompt := sv_system_prompt v;
  sv_workspace := Some binding; sv_created_at := sv_created_at v; sv_updated_at := now;
  sv_message_count := sv_message_count v; sv_end_reason := sv_end_reason v |}.

Definition bind_durably (session_id : string) (workspace : Json) : M (result unit AdmitError) :=
  if negb (cf_persistence config) then ret (Ok tt)
  else
    do! reply := command (session_workspace_bind session_id workspace) in
    ret (match reply with
         | Ok _ => Ok tt
         | Err error =>
             if str_eqb (se_code error) "active_run" then Err ActiveRun
             else if str_eqb (se_code error) "session_not_found" then Err SessionNotFound
             else Err (AdmitPersistence ("session workspace update failed: " +:+ storage_error_text error))
         end).

(** The binding in memory, under the store's write lock. *)
Definition store_binding (session_id : string) (binding : WorkspaceBinding) : M SessionView :=
  do! _ := yield in
  do! store := get a_store in
  do! session := of_result (ok_or (gs_sessions store !! session_id) SessionNotFound) in
  do! now := timestamp in
  let view := bind_view binding now (sr_view session) in
  do! _ := modify (set_store (insert_session session_id
             {| sr_view := view; sr_messages := sr_messages session |} store)) in
  ret view.

Definition bind_session_workspace_blocking (session_id selector : string) : M SessionView :=
  do! _ := yield in
  do! halting := get (fun s => se_halting (a_settings s)) in
  do! _ := check halting (fail Halting) in
  do! _ := yield in
  do! store := get a_store in
  do! session := of_result (ok_or (gs_sessions store !! session_id) SessionNotFound) in
  do! _ := check (session_busy session_id store) (fail ActiveRun) in
  do! _ := yield in
  do! factory := get (fun s => se_workspace_factory (a_settings s)) in
  do! resolved :=
    of_result (resolve_workspace_admission (Some selector) (sv_workspace (sr_view session)) factory true) in
  do! binding := of_result (ok_or (fst resolved) (Invalid "workspace selection was not admitted")) in
  do! authority := of_result (ok_or (snd resolved) (Invalid "workspace authority was not retained")) in
  do! steps := step_count in
  do! _ := check (negb (authority_check steps authority))
             (fail (Invalid "workspace authority was revoked before session binding")) in
  do! durable := bind_durably session_id (binding_to_value binding) in
  do! _ := effect ERevoke in
  do! _ := of_result durable in
  store_binding session_id binding.

Definition bind_session_workspace (session_id selector : string) : M SessionView :=
  do! _ := yield in
  do! halting := get (fun s => se_halting (a_settings s)) in
  do! _ := check halting (fail Halting) in
  bind_session_workspace_blocking session_id selector.

(** ** Loading a context back *)

Definition remove_ordinal (item : Json) : Json :=
  match item with JObject m => JObject (obj_remove "ordinal" m) | other => other end.

(** The session's messages up to the admitted one. *)
Definition reconstruct_admitted_messages (store : GatewayStore) (c : RunContext) : result Json RunContextError :=
  let invalid := invalid_context_metadata (rc_run_id c) in
  let? message_id := ok_or (non_empty_str (jget "message_id" (rc_metadata c) ≫= as_str))
                       (invalid "message id is missing") in
  let? session := ok_or (gs_sessions store !! rc_session_id c) (invalid "session messages are missing") in
  let? cutoff := ok_or (fst <$> list_find (fun m => sm_id m = message_id) (sr_messages session))
                   (invalid "admitted message is missing") in
  Ok (JArray (map (fun m => remove_ordinal (message_to_value m)) (take (S cutoff) (sr_messages session)))).

Definition load_persisted_context (run_id : string) (d : D) (store : GatewayStore) :
    D * result RunContext RunContextError :=
  if negb (cf_persistence config) then (d, Err (Missing run_id))
  else
    let '(d, reply) := run_get run_id d in
    let invalid := invalid_context_metadata run_id in
    (d,
     let? run_data := map_err (fun e => ContextPersistence ("read run context: " +:+ storage_error_text e)) reply in
     let? run_row := ok_or (sqlite_storage_first_row run_data) (Missing run_id) in
     let? _ := refuse (negb (bool_decide (admission_run_str run_row ADMISSION_RUN_COL_ID = Some run_id)))
                 (invalid "run record id does not match the requested run") in
     let? persisted_input := ok_or (non_empty_str (admission_run_str run_row ADMISSION_RUN_COL_INPUT_JSON))
                 (invalid "run context snapshot is missing") in
     let? envelope := map_err (fun e => invalid ("run context snapshot is invalid: " +:+ e))
                 (json_parse persisted_input) in
     let? _ := refuse (negb (bool_decide (jget "schema_version" envelope ≫= as_u64 = Some RUN_CONTEXT_METADATA_VERSION)))
                 (invalid "unsupported run context snapshot schema version") in
     let? context_value := ok_or (jget RUN_CONTEXT_STORAGE_KEY envelope)
                 (invalid "run context snapshot is missing") in
     let? context := map_err (fun e => invalid ("run context snapshot is incomplete: " +:+ e))
                 (run_context_from_value context_value) in
     let? messages := reconstruct_admitted_messages store context in
     let context := set_context_messages messages context in
     let? _ := verify_context_metadata str_debug context in
     let? _ := refuse (negb (str_eqb (rc_run_id context) run_id))
                 (invalid "run id does not match the persisted context") in
     let? row_session_id := ok_or (non_empty_str (admission_run_str run_row ADMISSION_RUN_COL_SESSION_ID))
                 (invalid "run session id is missing") in
     let? _ := refuse (negb (str_eqb (rc_session_id context) row_session_id))
                 (invalid "session id does not match the run record") in
     let? _ := refuse (negb (bool_decide (rc_parent_run_id context = optional_string run_row ADMISSION_RUN_COL_PARENT_RUN_ID)))
                 (invalid "parent run id does not match the run record") in
     let? _ := refuse (negb (bool_decide (rc_provider context = optional_string run_row ADMISSION_RUN_COL_PROVIDER)))
                 (invalid "provider does not match the run record") in
     let? _ := refuse (negb (bool_decide (admission_run_str run_row ADMISSION_RUN_COL_MODEL = Some (rc_model context))))
                 (invalid "model does not match the run record") in
     let? _ := refuse (negb (bool_decide (admission_run_str run_row ADMISSION_RUN_COL_SCRIPT_HASH =
                                          jget "registry_identity" (rc_metadata context) ≫= as_str)))
                 (invalid "registry identity does not match the run record") in
     Ok context).

Definition resume_context (run_id : string) (s : AState) : AState * result RunContext RunContextError :=
  let '(d, loaded) := load_persisted_context run_id (a_durable s) (a_store s) in
  let s := set_durable d s in
  match loaded with
  | Err e => (s, Err e)
  | Ok context =>
      let current_registry := se_registry (a_settings s) in
      let registry_matches :=
        bool_decide (jget "registry_identity" (rc_metadata context) ≫= as_str = Some (Registry.identity current_registry)) in
      (cache_context context (if registry_matches then Some current_registry else None) s, Ok context)
  end.

Definition verify_run_context (run_id : string) (s : AState) : AState * result unit RunContextError :=
  let '(s, found) :=
    match a_contexts s !! run_id with
    | Some context => (s, Ok context)
    | None => resume_context run_id s
    end in
  (s,
   let? context := found in
   let? _ := verify_context_registry str_debug context (Registry.identity (se_registry (a_settings s))) in
   match a_registries s !! run_id with
   | Some snapshot =>
       refuse (negb (bool_decide (jget "registry_identity" (rc_metadata context) ≫= as_str
                                  = Some (Registry.identity snapshot))))
         (invalid_context_metadata run_id "in-memory registry snapshot does not match metadata")
   | None => Ok tt
   end).

End Service.

End Admission.
