(* ===== verification/AdmissionSpec.v ===== *)
(** * Correctness of run admission

    What one admission may do to the gateway, whatever the other threads do
    meanwhile: its outside effects come in one order, its permit is kept by
    exactly one owner, the store stays well formed, a refused or repeated
    request publishes nothing, and the loop ends with the deadline. *)

From stdpp Require Import pretty.
From S2P Require Import Prelude Utf8 Json Registry RegistrySpec Domain Store Events Delivery Capability Lifecycle Commit Terminal Limits Admission.

Module AdmissionSpec.
Import Limits Admission.

Create HintDb admission.
Create HintDb answers.

Section Spec.
Context `{JT : JsonText, UC : UrlCrate, FS : FileSystem, JC : Registry.JsonSchemaCrate, BS : Content.BlockSerde}.
Context `{SR : StoreReaders, CS : ContextSerde, AH : AdmissionHost, IN : !Interference}.

(** ** Background steps

    Everything an admission does before it commits: it lets other threads run,
    counts a metric, asks the storage, draws an identifier or reads a clock. *)

Definition after_step (l : Local) : Local := {|
  l_steps := S (l_steps l); l_ids := l_ids l; l_times := l_times l; l_instants := l_instants l;
  l_effects := l_effects l |}.

Inductive background : relation (AState * Local) :=
| BgYield s l : background (s, l) (env (l_steps l) s, after_step l)
| BgCount m s l : background (s, l) (count m s, l)
| BgDurable d s l : background (s, l) (set_durable d s, l)
| BgClock s l l' :
    l_steps l' = l_steps l -> l_effects l' = l_effects l -> l_ids l <= l_ids l' ->
    l_instants l <= l_instants l' -> background (s, l) (s, l').

(** A computation that takes background steps only, and what it answers. *)
Definition quiet {A} (m : M A) (Q : A -> Prop) : Prop :=
  forall s s' r, m s = (s', r) -> rtc background s s' /\ (forall a, r = Ok a -> Q a).

Notation calm m := (quiet m (fun _ => True)).

Lemma calm_bind {A B} (m : M A) (k : A -> M B) P Q :
  quiet m P -> (forall a, P a -> quiet (k a) Q) -> quiet (bind m k) Q.
Proof.
  intros Hm Hk s s' r. unfold bind. destruct (m s) as [s1 [a|e]] eqn:E; intros E'.
  - apply Hm in E as [H1 Ha]. apply Hk in E' as [H2 HQ]; [|by apply Ha].
    split; [by etrans|done].
  - apply Hm in E as [H1 _]. by simplify_eq.
Qed.

Lemma calm_weaken {A} (m : M A) (P Q : A -> Prop) : quiet m P -> (forall a, P a -> Q a) -> quiet m Q.
Proof. intros Hm HPQ s s' r E. apply Hm in E as [? ?]. eauto. Qed.

Lemma calm_of_result {A} (r : result A AdmitError) (Q : A -> Prop) :
  (forall a, r = Ok a -> Q a) -> quiet (of_result r) Q.
Proof. intros HQ s s' r' E. unfold of_result in E. simplify_eq. by split; [apply rtc_refl|]. Qed.

Lemma calm_ret {A} (a : A) (Q : A -> Prop) : Q a -> quiet (ret a) Q.
Proof. intros HQ s s' r E. unfold ret in E. simplify_eq. split; [apply rtc_refl|]. by intros ? [= <-]. Qed.

Lemma calm_fail {A} e (Q : A -> Prop) : quiet (fail e) Q.
Proof. intros s s' r E. unfold fail in E. by simplify_eq. Qed.

Lemma calm_get {A} (f : AState -> A) (Q : A -> Prop) : (forall s, Q (f s)) -> quiet (get f) Q.
Proof.
  intros HQ s s' r E. unfold get in E. simplify_eq. split; [apply rtc_refl|]. by intros ? [= <-].
Qed.

Lemma calm_step_count : calm step_count.
Proof. intros s s' r E. unfold step_count in E. by simplify_eq. Qed.

Lemma calm_one {A} (m : M A) (Q : A -> Prop) :
  (forall s s' r, m s = (s', r) -> background s s' /\ forall a, r = Ok a -> Q a) -> quiet m Q.
Proof. intros Hm s s' r E. apply Hm in E as [? ?]. split; [by apply rtc_once|done]. Qed.

Lemma calm_yield : calm yield.
Proof. apply calm_one. intros [s l] s' r [= <- <-]. split; [constructor|done]. Qed.

Lemma calm_new_uuid : calm new_uuid.
Proof. apply calm_one. intros [s l] s' r [= <- <-]. split; [constructor; cbn; lia || done|done]. Qed.

Lemma calm_timestamp : calm timestamp.
Proof. apply calm_one. intros [s l] s' r [= <- <-]. split; [constructor; cbn; lia || done|done]. Qed.

Lemma calm_instant_now : calm instant_now.
Proof. apply calm_one. intros [s l] s' r [= <- <-]. split; [constructor; cbn; lia || done|done]. Qed.

Lemma calm_count m : calm (modify (count m)).
Proof. apply calm_one. intros [s l] s' r [= <- <-]. split; [constructor|done]. Qed.

Lemma calm_command {A} (f : D -> D * result A StorageError) : calm (command f).
Proof.
  apply calm_one. intros [s l] s' r. cbn. destruct (f (a_durable s)) as [d a]. intros [= <- <-].
  split; [constructor|done].
Qed.

Lemma calm_reject {A} reason e (Q : A -> Prop) : quiet (reject reason e) Q.
Proof. apply (calm_bind _ _ (fun _ => True)); [apply calm_count|]. intros. apply calm_fail. Qed.

(** After a guard its condition is known to be false. *)
Lemma calm_guard b (m : M unit) : (forall Q : unit -> Prop, quiet m Q) -> quiet (check b m) (fun _ => b = false).
Proof. unfold check. destruct b; [done|]. intros. by apply calm_ret. Qed.

Lemma calm_check b (m : M unit) : calm m -> calm (check b m).
Proof. unfold check. destruct b; [done|]. intros. by apply calm_ret. Qed.

Lemma calm_result {A} (r : result A AdmitError) : quiet (of_result r) (fun a => r = Ok a).
Proof. by apply calm_of_result. Qed.

Lemma calm_guard_reject b reason e : quiet (check b (reject reason e)) (fun _ => b = false).
Proof. apply calm_guard. intros. apply calm_reject. Qed.

Lemma calm_ok_or_reject {A E} (r : result A E) (f : E -> AdmitError) :
  quiet (match r with Ok _ => ret tt | Err error => reject RejectInvalid (f error) end) (fun _ => is_ok r = true).
Proof. destruct r; [by apply calm_ret|apply calm_reject]. Qed.

#[local] Hint Resolve calm_ret calm_fail calm_get calm_of_result calm_step_count calm_yield calm_new_uuid
  calm_timestamp calm_instant_now calm_command calm_count calm_reject calm_check : admission.
#[local] Hint Resolve calm_guard_reject calm_result calm_ok_or_reject : answers.

(** Peels sequencing and branching, keeping what [answers] knows of an answer;
    what remains is a computation of its own. *)
Ltac calm :=
  repeat first
    [ progress intros
    | solve [eauto with admission]
    | eapply calm_bind; [solve [eauto with nocore answers]|]
    | apply (calm_bind _ _ (fun _ => True)); [solve [eauto with admission]|]
    | case_match ].

Lemma calm_require_valid r : calm (require_valid r).
Proof. unfold require_valid. calm. Qed.

Lemma calm_provider_profile provider : calm (provider_profile provider).
Proof. unfold provider_profile. calm. Qed.

Lemma calm_cancelled c : calm (admission_cancelled_before_commit c).
Proof. unfold admission_cancelled_before_commit. calm. Qed.

Lemma calm_deadline {A} (Q : A -> Prop) : quiet admission_deadline_rejection Q.
Proof. apply calm_reject. Qed.

Lemma calm_same_request stored hash selector : calm (same_request stored hash selector).
Proof. unfold same_request. calm. Qed.

Lemma calm_busy {A} (Q : A -> Prop) : quiet maintenance_busy Q.
Proof. apply calm_fail. Qed.

#[local] Hint Resolve calm_require_valid calm_provider_profile calm_cancelled calm_deadline calm_same_request
  calm_busy : admission.

(** Every answer that repeats an earlier run says so. *)
Lemma replayed_run_replayed run_id info : ar_replayed (replayed_run run_id info) = true.
Proof. unfold replayed_run. by case_match. Qed.

Lemma calm_finish_durable_replay data : quiet (finish_durable_replay data) (fun run => ar_replayed run = true).
Proof. unfold finish_durable_replay. calm. apply calm_ret, replayed_run_replayed. Qed.

#[local] Hint Resolve calm_finish_durable_replay : admission answers.

Definition replays (o : option AdmittedRun) : Prop := forall run, o = Some run -> ar_replayed run = true.

Lemma replays_none : replays None.
Proof. done. Qed.

Lemma replays_some run : ar_replayed run = true -> replays (Some run).
Proof. by intros ? ? [= <-]. Qed.

#[local] Hint Resolve replays_none replays_some replayed_run_replayed : admission.

Lemma calm_replay_durable key hash selector : quiet (replay_durable_admission key hash selector) replays.
Proof. unfold replay_durable_admission. calm. Qed.

#[local] Hint Resolve calm_replay_durable : admission.

Lemma calm_replay_existing request selector : quiet (replay_existing_admission request selector) replays.
Proof. unfold replay_existing_admission. calm. Qed.

#[local] Hint Resolve calm_replay_existing : admission answers.

(** ** What is prepared *)

Section Request.
Context (request : AdmitRunRequest) (selector : option string) (allow_legacy : bool).
Context (run_id message_id event_id : string) (now : Z) (cancellation : RunCancellation).

Definition based (b : Base) : Prop :=
  ba_message b = user_message request message_id (ba_session_id b) run_id now /\
  (exists earlier, ba_messages b = earlier ++ [ba_message b]) /\
  Registry.entries (ba_registry b) <> [].

Lemma calm_read_base : quiet (read_base request run_id message_id now) based.
Proof.
  unfold read_base. calm. all: apply calm_ret; split; [done|]; split; [by eexists|]; cbn; congruence.
Qed.

(** What the frozen context records of the request and of what was read. *)
Definition frozen (b : Base) (c : RunContext) : Prop :=
  rc_run_id c = run_id /\ rc_session_id c = ba_session_id b /\ rc_parent_run_id c = rq_parent_run_id request /\
  rc_provider c = ba_provider b /\ rc_model c = ba_model b /\
  rc_messages c = JArray (map message_to_value (ba_messages b)) /\
  jget "message_id" (rc_metadata c) = Some (JString message_id) /\
  jget "registry_identity" (rc_metadata c) = Some (JString (Registry.identity (ba_registry b))).

Lemma calm_make_context b limits prompt :
  quiet (make_admitted_context request b run_id message_id limits prompt) (frozen b).
Proof. unfold make_admitted_context. calm. apply calm_ret. by repeat split. Qed.



Lemma frozen_binding b c binding :
  frozen b c ->
  frozen b (set_context_metadata (jset "admitted_workspace_binding" binding (rc_metadata c)) c).
Proof.
  assert (forall k v, k <> "admitted_workspace_binding" -> jget k (rc_metadata c) = Some v ->
            jget k (jset "admitted_workspace_binding" binding (rc_metadata c)) = Some v) as Hget.
  { intros k v Hk. destruct (rc_metadata c); try done. cbn [jget jset].
    rewrite obj_get_insert. by destruct (str_eqb_spec k "admitted_workspace_binding"). }
  intros (?&?&?&?&?&?&Hm&Hr). repeat split; try done; by apply Hget.
Qed.

Definition prepared (p : Prepared) : Prop :=
  let b := pr_base p in
  based b /\ frozen b (pr_context p) /\
  exists session_metadata input,
    persisted_run_context_json str_debug (pr_context p) = Ok input /\
    pr_payload p = admission_payload request b run_id message_id event_id now session_metadata input
                     (pr_identity_json p) /\
    is_ok (admission_budget (admission_lens request b run_id message_id input (pr_identity_json p))) = true.

#[local] Hint Resolve calm_read_base calm_make_context : answers.

Lemma calm_prepare b :
  based b ->
  quiet (prepare request selector allow_legacy b run_id message_id event_id now) prepared.
Proof.
  intros Hb. unfold prepare. calm.
  all: apply calm_ret; split; [done|]; split; [by try apply frozen_binding|]; cbn.
  all: do 2 eexists; split; [done|]; split; [done|]; done.
Qed.

(** ** What an attempt comes to *)

Definition log (e : AdmitEffect) (l : Local) : Local := {|
  l_steps := l_steps l; l_ids := l_ids l; l_times := l_times l; l_instants := l_instants l;
  l_effects := l_effects l ++ [e] |}.

(** Not a newly published run. *)
Definition not_fresh (r : result Attempt AdmitError) : Prop :=
  match r with Ok (Answer run) => ar_replayed run = true | _ => True end.

(** What holds of the store when the run is published. *)
Definition publishable (p : Prepared) (store : GatewayStore) : Prop :=
  gs_runs store !! run_id = None /\
  (ba_session_new (pr_base p) = false -> is_Some (gs_sessions store !! ba_session_id (pr_base p))) /\
  (forall parent, rq_parent_run_id request = Some parent -> is_Some (gs_runs store !! parent)) /\
  (forall key, rq_idempotency_key request = Some key -> is_Some (rq_idempotency_hash request) ->
     gs_idempotency store !! key = None).

Definition fresh_run (p : Prepared) : AdmittedRun := {|
  ar_run_id := run_id; ar_session_id := ba_session_id (pr_base p); ar_status := "started"; ar_replayed := false |}.

(** The state before the commit, after the durable command if there is a
    storage. *)
Inductive durably (payload : Json) : AState * Local -> AState * Local -> Prop :=
| DurSkipped s : cf_persistence config = false -> durably payload s s
| DurDone s l d data :
    cf_persistence config = true -> admission_create payload (a_durable s) = (d, Ok data) ->
    durably payload (s, l) (set_durable d s, log (EDurable run_id payload true) l).

Inductive outcome (s s' : AState * Local) (r : result Attempt AdmitError) : Prop :=
| OutQuiet : rtc background s s' -> not_fresh r -> outcome s s' r
| OutRefused p s1 l1 d e :
    prepared p -> rtc background s (s1, l1) -> admission_create (pr_payload p) (a_durable s1) = (d, Err e) ->
    rtc background (set_durable d s1, log (EDurable run_id (pr_payload p) false) l1) s' ->
    is_ok r = false -> outcome s s' r
| OutUnpublished p s1 s2 :
    prepared p -> rtc background s s1 -> durably (pr_payload p) s1 s2 -> rtc background s2 s' ->
    not_fresh r -> r <> Ok Again -> outcome s s' r
| OutPublished p s1 s2 s3 l3 :
    prepared p -> rtc background s s1 -> durably (pr_payload p) s1 s2 -> rtc background s2 (s3, l3) ->
    publishable p (a_store s3) ->
    s' = (publish request p run_id event_id now cancellation s3, log (EPublish run_id) l3) ->
    r = Ok (Answer (fresh_run p)) -> outcome s s' r.

Lemma outcome_prepend s0 s s' r : rtc background s0 s -> outcome s s' r -> outcome s0 s' r.
Proof.
  intros Hbg [].
  - apply OutQuiet; [by etrans|done].
  - eapply OutRefused; [done|by etrans|done..].
  - eapply OutUnpublished; [done|by etrans|done..].
  - eapply OutPublished; [done|by etrans|done..].
Qed.

Definition commits (m : M Attempt) : Prop := forall s s' r, m s = (s', r) -> outcome s s' r.

Lemma commits_quiet m : quiet m (fun a => not_fresh (Ok a)) -> commits m.
Proof.
  intros Hm s s' r E. apply Hm in E as [? Hr]. apply OutQuiet; [done|].
  destruct r as [a|e]; [by apply Hr|done].
Qed.

Lemma commits_bind {A} (m : M A) (k : A -> M Attempt) P :
  quiet m P -> (forall a, P a -> commits (k a)) -> commits (bind m k).
Proof.
  intros Hm Hk s s' r. unfold bind. destruct (m s) as [s1 [a|e]] eqn:E; intros E'.
  - apply Hm in E as [H1 Ha]. eapply outcome_prepend; [done|]. by eapply Hk; [apply Ha|].
  - apply Hm in E as [H1 _]. simplify_eq. by apply OutQuiet.
Qed.

Definition settled (a : Attempt) : Prop := not_fresh (Ok a) /\ a <> Again.

(** Either nothing is stored under the key, or the earlier run is the answer. *)
Lemma replay_record_cases store lock otherwise :
  calm lock ->
  (replay_record request selector (key_record request store) lock otherwise = otherwise /\
   (rq_idempotency_hash request = None \/ key_record request store = None)) \/
  quiet (replay_record request selector (key_record request store) lock otherwise) settled.
Proof.
  intros Hl. unfold replay_record. destruct (rq_idempotency_key request) as [key|] eqn:Ek.
  2: { left. split; [done|]. right. unfold key_record. by rewrite Ek. }
  destruct (rq_idempotency_hash request); [|by left; split; [|left]].
  destruct (key_record request store); [|by left; split; [|right]].
  right. calm. apply calm_ret. split; [apply replayed_run_replayed|done].
Qed.

Lemma commits_replay_record store lock otherwise :
  calm lock -> commits otherwise -> commits (replay_record request selector (key_record request store) lock otherwise).
Proof.
  intros Hl Ho. destruct (replay_record_cases store lock otherwise Hl) as [[-> _]|Hq]; [done|].
  apply commits_quiet. eapply calm_weaken; [done|]. by intros ? [? _].
Qed.

Lemma commits_existing_run otherwise : commits otherwise -> commits (existing_run run_id otherwise).
Proof.
  intros Ho s s' r. unfold existing_run, bind, get. cbn. case_match; [|apply Ho].
  intros [= <- <-]. apply OutQuiet; [apply rtc_refl|apply replayed_run_replayed].
Qed.

Lemma publishable_intro p store :
  run_info store run_id = None ->
  (rq_idempotency_hash request = None \/ key_record request store = None) ->
  negb (ba_session_new (pr_base p)) && is_none (gs_sessions store !! ba_session_id (pr_base p)) = false ->
  negb (parent_ok request store) = false ->
  publishable p store.
Proof.
  intros Hr Hk Hs Hp. unfold run_info in Hr. apply fmap_None in Hr. split; [done|]. split; [|split].
  - intros Hn. rewrite Hn in Hs. cbn in Hs. by destruct (gs_sessions store !! _).
  - intros parent Hparent. unfold parent_ok in Hp. rewrite Hparent in Hp.
    apply negb_false_iff in Hp. by apply bool_decide_eq_true in Hp.
  - intros key Hkey [h Hh]. destruct Hk as [?|Hk]; [congruence|].
    unfold key_record in Hk. by rewrite Hkey in Hk.
Qed.

(** The checks of the last critical section, from its state on. *)
Lemma publish_tail p s l s' r :
  run_info (a_store s) run_id = None ->
  (rq_idempotency_hash request = None \/ key_record request (a_store s) = None) ->
  bind (check (negb (ba_session_new (pr_base p)) && is_none (gs_sessions (a_store s) !! ba_session_id (pr_base p)))
          (reject RejectSession SessionNotFound)) (fun _ =>
  bind (check (negb (parent_ok request (a_store s))) (reject RejectParent ParentNotFound)) (fun _ =>
  bind (modify (publish request p run_id event_id now cancellation)) (fun _ =>
  bind (effect (EPublish run_id)) (fun _ => ret (Answer (fresh_run p)))))) (s, l) = (s', r) ->
  (rtc background (s, l) s' /\ is_ok r = false) \/
  (publishable p (a_store s) /\
   s' = (publish request p run_id event_id now cancellation s, log (EPublish run_id) l) /\
   r = Ok (Answer (fresh_run p))).
Proof.
  intros Hr Hk. unfold bind at 1.
  destruct (negb (ba_session_new (pr_base p)) && _) eqn:Es.
  { intros [= <- <-]. left. split; [apply rtc_once, BgCount|done]. }
  unfold bind at 1. destruct (negb (parent_ok request (a_store s))) eqn:Ep.
  { intros [= <- <-]. left. split; [apply rtc_once, BgCount|done]. }
  intros [= <- <-]. right. split; [by apply publishable_intro|done].
Qed.

(** The last checks, and the publication if they pass. *)
Lemma publish_checked_outcome p s s' r :
  publish_checked request selector p run_id event_id now cancellation s = (s', r) ->
  (rtc background s s' /\ not_fresh r /\ r <> Ok Again) \/
  exists s3 l3, rtc background s (s3, l3) /\ publishable p (a_store s3) /\
    s' = (publish request p run_id event_id now cancellation s3, log (EPublish run_id) l3) /\
    r = Ok (Answer (fresh_run p)).
Proof.
  destruct s as [s l]. set (s3 := env (l_steps l) s). set (l3 := after_step l).
  assert (rtc background (s, l) (s3, l3)) as Hbg by apply rtc_once, BgYield.
  assert (forall m, quiet m settled -> m (s3, l3) = (s', r) ->
            rtc background (s, l) s' /\ not_fresh r /\ r <> Ok Again) as Hquiet.
  { intros m Hm [Hs Hr]%Hm. split; [by etrans|]. destruct r as [a|e]; [|done].
    destruct (Hr a eq_refl). split; [done|congruence]. }
  unfold publish_checked. unfold bind at 1. cbn [yield]. fold s3. fold (after_step l). fold l3.
  unfold existing_run. unfold bind at 1. cbn [get fst].
  destruct (run_info (a_store s3) run_id) as [info|] eqn:Ei.
  { intros Hr. left. revert Hr. apply Hquiet, calm_ret. split; [apply replayed_run_replayed|done]. }
  unfold bind at 1. cbn [get fst]. fold (fresh_run p).
  match goal with |- context [replay_record _ _ _ _ ?o] =>
    destruct (replay_record_cases (a_store s3) (ret tt) o) as [[-> Hk]|Hq]; [by apply calm_ret| |] end.
  - intros [[Hs Hr]|(Hp & -> & ->)]%publish_tail; [left|right|done..].
    + split; [by etrans|]. by destruct r.
    + by exists s3, l3.
  - intros Hr. left. by apply (Hquiet _ Hq).
Qed.

(** The durable command: skipped, done or refused. *)
Lemma admit_durably_cases payload s l s' r :
  admit_durably run_id payload (s, l) = (s', r) ->
  (exists data, r = Ok data /\ durably payload (s, l) s') \/
  (exists d e, admission_create payload (a_durable s) = (d, Err e) /\ is_ok r = false /\
     rtc background (set_durable d s, log (EDurable run_id payload false) l) s').
Proof.
  unfold admit_durably. destruct (cf_persistence config) eqn:Ec; cbn [negb].
  2: { intros [= <- <-]. left. eexists. split; [done|]. by constructor. }
  unfold bind, command. destruct (admission_create payload (a_durable s)) as [d [data|e]] eqn:E; cbn.
  - intros [= <- <-]. left. eexists. split; [done|]. by econstructor.
  - intros [= <- <-]. right. exists d, e. split; [done|]. split; [done|]. apply rtc_once, BgCount.
Qed.

Lemma commits_durable p :
  prepared p ->
  commits (bind (admit_durably run_id (pr_payload p)) (fun data =>
    if bool_decide (jget "replayed" data = Some (JBool true)) then
      bind (finish_durable_replay data) (fun run => ret (Answer run))
    else publish_checked request selector p run_id event_id now cancellation)).
Proof.
  intros Hp [s l] s' r. unfold bind at 1. destruct (admit_durably _ _ _) as [s2 r2] eqn:E.
  apply admit_durably_cases in E as [(data & -> & Hd)|(d & e & He & Hr2 & Hbg)].
  2: { destruct r2; [done|]. intros [= <- <-]. by eapply OutRefused; [|apply rtc_refl|..]. }
  case_bool_decide.
  - assert (quiet (bind (finish_durable_replay data) (fun run => ret (Answer run))) settled) as Hq.
    { calm. apply calm_ret. by split. }
    intros [Hbg Hr]%Hq. eapply OutUnpublished; [done|apply rtc_refl|done..| |].
    + destruct r as [a|]; [by apply Hr|done].
    + intros ->. by destruct (Hr Again eq_refl).
  - intros [(Hbg & Hn & Ha)|(s3 & l3 & Hbg & Hpub & -> & ->)]%publish_checked_outcome.
    + by eapply OutUnpublished; [|apply rtc_refl|..].
    + by eapply OutPublished; [|apply rtc_refl|..].
Qed.

Ltac committing :=
  repeat first
    [ progress intros
    | solve [apply commits_quiet, calm_ret; done]
    | apply commits_existing_run
    | apply commits_replay_record; [solve [eauto with admission]|]
    | eapply commits_bind; [solve [eauto with nocore answers]|]
    | apply (commits_bind _ _ (fun _ => True)); [solve [eauto with admission]|]
    | case_match ].

Lemma commits_commit_attempt p :
  prepared p -> commits (commit_attempt request selector allow_legacy p run_id event_id now cancellation).
Proof. intros Hp. unfold commit_attempt. committing; by apply commits_durable. Qed.

Lemma commits_round :
  commits (prepare_and_commit request selector allow_legacy run_id message_id event_id now cancellation).
Proof.
  unfold prepare_and_commit. committing.
  - apply commits_quiet, calm_ret. match goal with Hr : replays _ |- _ => by apply Hr end.
  - eapply commits_bind; [by apply calm_prepare|]. intros p Hp. by apply commits_commit_attempt.
Qed.

Lemma commits_attempt :
  commits (attempt request selector allow_legacy run_id message_id event_id now cancellation).
Proof.
  eapply commits_bind; [apply calm_cancelled|]. intros.
  eapply commits_bind; [apply calm_check, calm_deadline|]. intros. apply commits_round.
Qed.

(** Every attempt but the last one takes background steps only. *)
Lemma admit_loop_outcome fuel s s' r :
  admit_loop fuel request selector allow_legacy run_id message_id event_id now cancellation s = Some (s', r) ->
  outcome s s' (result_map Answer r).
Proof.
  revert s. induction fuel as [|fuel IH]; intros s; [done|]. cbn [admit_loop].
  destruct (attempt _ _ _ _ _ _ _ _ s) as [s1 r1] eqn:E. apply commits_attempt in E.
  destruct r1 as [[|run]|e]; intros E'; [|by simplify_eq..].
  apply IH in E'. eapply outcome_prepend; [|done]. by inversion E; simplify_eq.
Qed.

End Request.

(** ** The whole call *)

Lemma background_effects s s' : rtc background s s' -> l_effects (snd s') = l_effects (snd s).
Proof. induction 1 as [|? ? ? Hstep _ IH]; [done|]. rewrite IH. by destruct Hstep. Qed.

Lemma background_monotone s s' :
  rtc background s s' -> l_ids (snd s) <= l_ids (snd s') /\ l_instants (snd s) <= l_instants (snd s').
Proof. induction 1 as [|? ? ? Hstep _ IH]; [done|]. destruct Hstep; cbn in *; lia. Qed.

(** What the other threads keep, the background keeps, if neither the metrics
    nor the storage matter to it. *)
Lemma background_keeps (I : AState -> Prop) s s' :
  (forall n s, I s -> I (env n s)) -> (forall m s, I s -> I (count m s)) ->
  (forall d s, I s -> I (set_durable d s)) -> rtc background s s' -> I (fst s) -> I (fst s').
Proof. intros He Hc Hd. induction 1 as [|? ? ? Hstep _ IH]; [done|]. intros. apply IH. destruct Hstep; cbn; eauto. Qed.

Lemma calm_enter request : calm (enter request).
Proof. unfold enter. calm. Qed.

Lemma acquire_permit_cases s s' r :
  acquire_permit s = (s', r) ->
  (rtc background s s' /\ is_ok r = false) \/
  exists n s1 l1, rtc background s (s1, l1) /\ a_permits s1 = S n /\ s' = (set_permits n s1, l1) /\ r = Ok tt.
Proof.
  destruct s as [s l]. unfold acquire_permit, bind, get. cbn.
  assert (rtc background (s, l) (env (l_steps l) s, after_step l)) as Hbg by apply rtc_once, BgYield.
  destruct (a_permits (env (l_steps l) s)) as [|n] eqn:En; intros [= <- <-].
  - left. split; [|done]. eapply rtc_r; [done|apply BgCount].
  - right. eauto 10.
Qed.

(** A refusal at the door, or an attempt that holds a permit. *)
Lemma admit_outcome fuel request selector allow_legacy s l s' l' r :
  admit_with_workspace_options fuel request selector allow_legacy (s, l) = Some ((s', l'), r) ->
  (rtc background (s, l) (s', l') /\ is_ok r = false) \/
  exists n s1 l1 s2 i now cancellation,
    rtc background (s, l) (s1, l1) /\ a_permits s1 = S n /\ l_ids l <= i /\
    outcome request (uuids i) (uuids (S i)) (uuids (S (S i))) now cancellation
      (set_permits n s1, l1) (s2, l') (result_map Answer r) /\
    s' = drop_permit r s2.
Proof.
  unfold admit_with_workspace_options. unfold bind at 1.
  destruct (enter request (s, l)) as [s0 [[]|e]] eqn:E0; apply calm_enter in E0 as [H0 _].
  2: { intros [= -> <-]. by left. }
  destruct (acquire_permit s0) as [sp rp] eqn:E1.
  apply acquire_permit_cases in E1 as [[H1 Hr]|(n & s1 & l1 & H1 & Hn & -> & ->)].
  { destruct rp; [done|]. intros [= -> <-]. left. split; [by etrans|done]. }
  assert (rtc background (s, l) (s1, l1)) as Hbg by (by etrans).
  unfold admit_blocking. cbn. intros Hl. right. destruct (admit_loop _ _ _ _ _ _ _ _ _ _) as [[[s2 l2] r2]|] eqn:E2; [|done].
  cbn in Hl. simplify_eq. apply admit_loop_outcome in E2.
  exists n, s1, l1, s2, (l_ids l1). do 2 eexists. split; [done|]. split; [done|].
  split; [by apply background_monotone in Hbg as [? _]|]. split; [|done].
  eapply outcome_prepend; [|exact E2]. apply rtc_once, BgClock; cbn; lia || done.
Qed.

(** ** Effects *)

(** A run a caller can see: recorded, with a handle and its context. *)
Definition visible (run : AdmittedRun) (s : AState) : Prop :=
  (exists record, gs_runs (a_store s) !! ar_run_id run = Some record /\
     rr_session_id record = ar_session_id run /\ rr_status record = ar_status run /\
     is_Some (gs_sessions (a_store s) !! ar_session_id run)) /\
  is_Some (a_handles s !! ar_run_id run) /\ is_Some (a_contexts s !! ar_run_id run).

(** A payload that creates the run. *)
Definition creates (run : AdmittedRun) (payload : Json) : Prop :=
  jget "run_id" payload = Some (JString (ar_run_id run)) /\
  jget "session_id" payload = Some (JString (ar_session_id run)).

Lemma prepared_creates request run_id message_id event_id now p :
  prepared request run_id message_id event_id now p -> creates (fresh_run run_id p) (pr_payload p).
Proof. intros (_ & _ & ? & ? & _ & -> & _). by split. Qed.

Lemma publish_runs request p run_id event_id now c s :
  gs_runs (a_store (publish request p run_id event_id now c s)) =
  <[run_id := new_run request run_id (ba_session_id (pr_base p)) event_id now]> (gs_runs (a_store s)).
Proof. unfold publish. cbn. by destruct (rq_idempotency_key request), (rq_idempotency_hash request). Qed.

Lemma publish_sessions request p run_id event_id now c s :
  exists old, gs_sessions (a_store (publish request p run_id event_id now c s)) =
    <[ba_session_id (pr_base p) := admit_message request p now old]> (gs_sessions (a_store s)) /\
    (old = {| sr_view := new_session_view request (pr_base p) now (pr_binding p); sr_messages := [] |} \/
     ba_session_new (pr_base p) = false /\ gs_sessions (a_store s) !! ba_session_id (pr_base p) = Some old).
Proof.
  unfold publish. cbn. eexists. split; [by destruct (rq_idempotency_key request), (rq_idempotency_hash request)|].
  destruct (ba_session_new _); [by left|]. destruct (gs_sessions _ !! _); [by right|by left].
Qed.

Lemma publish_visible request p run_id message_id event_id now c s :
  frozen request run_id message_id (pr_base p) (pr_context p) ->
  visible (fresh_run run_id p) (publish request p run_id event_id now c s).
Proof.
  intros (Hid & _). destruct (publish_sessions request p run_id event_id now c s) as (old & Hs & _).
  split; [|split].
  - eexists. rewrite publish_runs, lookup_insert, decide_True by done. split; [done|]. split; [done|].
    split; [done|]. rewrite Hs, lookup_insert, decide_True by done. by eexists.
  - unfold publish. cbn. rewrite lookup_insert, decide_True by done. by eexists.
  - unfold publish. cbn. rewrite Hid, lookup_insert, decide_True by done. by eexists.
Qed.

Lemma durably_effects run_id payload s s' :
  durably run_id payload s s' ->
  l_effects (snd s') = l_effects (snd s) ++ (if cf_persistence config then [EDurable run_id payload true] else []).
Proof. intros [? Hc|? ? ? ? Hc _]; rewrite Hc; [by rewrite app_nil_r|done]. Qed.

(** C24. An admission reaches the outside in one order, whatever other threads
    do and however often it starts over.  A run that is answered as new was
    first created in the storage, by one accepted command that names this run
    and its session, and then published; it is recorded, has a handle and a
    context.  Any other answer publishes nothing and sends at most one creating
    command, and a refused command is answered with an error. *)
Theorem admission_durable_before_visible fuel request selector allow_legacy s l s' l' r :
  admit_with_workspace_options fuel request selector allow_legacy (s, l) = Some ((s', l'), r) ->
  exists effects, l_effects l' = l_effects l ++ effects /\
  match r with
  | Ok run =>
      if ar_replayed run then
        effects = [] \/ exists id payload, effects = [EDurable id payload true]
      else
        visible run s' /\
        (if cf_persistence config then
           exists payload, effects = [EDurable (ar_run_id run) payload true; EPublish (ar_run_id run)] /\
             creates run payload
         else effects = [EPublish (ar_run_id run)])
  | Err _ => effects = [] \/ exists id payload ok, effects = [EDurable id payload ok]
  end.
Proof.
  intros [[Hbg%background_effects Hr]|(n & s1 & l1 & s2 & i & now & c & Hbg & _ & _ & Hout & ->)]%admit_outcome.
  { exists []. rewrite app_nil_r. split; [done|]. destruct r; [done|by left]. }
  apply background_effects in Hbg. cbn in Hbg.
  destruct Hout as [Hq Hn|p sa la d e _ H1 _ H2 Hr|p sa sb _ H1 Hd H2 Hn Ha|p sa sb s3 l3 Hp H1 Hd H2 Hpub Hs' Hr].
  - apply background_effects in Hq. cbn in Hq. exists []. rewrite app_nil_r. split; [congruence|].
    destruct r as [run|e]; [|by left]. cbn in Hn. rewrite Hn. by left.
  - apply background_effects in H1, H2. cbn in H1, H2. eexists. split; [by rewrite H2, H1, Hbg|].
    destruct r; [done|]. right. by do 3 eexists.
  - apply background_effects in H1, H2. apply durably_effects in Hd. cbn in H1, H2, Hd.
    eexists. split; [by rewrite H2, Hd, H1, Hbg|].
    destruct r as [run|e]; [cbn in Hn; rewrite Hn|]; destruct (cf_persistence config); eauto 10.
  - apply background_effects in H1, H2. apply durably_effects in Hd. cbn in H1, H2, Hd. simplify_eq.
    destruct r as [run|e]; simplify_eq/=. eexists. rewrite H2, Hd, H1, Hbg, <- !(assoc_L (++)). split; [done|].
    split; [eapply publish_visible, Hp|]. destruct (cf_persistence config); [|done].
    eexists. split; [done|]. by eapply prepared_creates.
Qed.

(** ** Capacity *)

(** The permits in the semaphore and those held by handles. *)
Definition holding (handles : gmap string AdmittedHandle) : nat :=
  size (filter (fun kv => h_permit (ah_run kv.2) = true) handles).

Definition capacity (s : AState) : nat := a_permits s + holding (a_handles s).

(** Identifiers not drawn yet name no handle. *)
Definition unused_from (i : nat) (s : AState) : Prop := forall j, i <= j -> a_handles s !! uuids j = None.

Lemma holding_insert handles id h :
  handles !! id = None -> h_permit (ah_run h) = true -> holding (<[id := h]> handles) = S (holding handles).
Proof.
  intros Hid Hh. unfold holding. rewrite map_filter_insert_True by done.
  apply map_size_insert_None. by apply map_lookup_filter_None_2; left.
Qed.

Lemma publish_permits request p run_id event_id now c s :
  a_permits (publish request p run_id event_id now c s) = a_permits s /\
  a_handles (publish request p run_id event_id now c s) = <[run_id := new_handle p c]> (a_handles s).
Proof. done. Qed.

Lemma durably_state run_id payload s s' :
  durably run_id payload s s' ->
  l_ids (snd s') = l_ids (snd s) /\ l_instants (snd s') = l_instants (snd s) /\
  (s' = s \/ exists d l, s' = (set_durable d (fst s), l)).
Proof. intros [|]; [by auto|]. split; [done|]. split; [done|]. right. eauto. Qed.

Section Capacity.
Hypothesis env_capacity : forall n s, capacity (env n s) = capacity s.
Hypothesis env_unused : forall n s i, unused_from i s -> unused_from i (env n s).

Lemma background_capacity c i s s' :
  rtc background s s' -> capacity (fst s) = c /\ unused_from i (fst s) -> capacity (fst s') = c /\ unused_from i (fst s').
Proof.
  intros Hbg. apply (background_keeps (fun s => capacity s = c /\ unused_from i s)); [|done..|done].
  intros n s0 [Hc Hu]. split; [by rewrite env_capacity|by apply env_unused].
Qed.

Lemma durably_capacity c i run_id payload s s' :
  durably run_id payload s s' -> capacity (fst s) = c /\ unused_from i (fst s) ->
  capacity (fst s') = c /\ unused_from i (fst s').
Proof. intros (_ & _ & [->|(d & l & ->)])%durably_state; done. Qed.

(** C26. The number of permits is constant: an admission takes one, and at its
    end the new run's handle holds it or it is back in the semaphore, on every
    path of refusal, replay, restart and publication. *)
Theorem admission_conserves_capacity fuel request selector allow_legacy s l s' l' r :
  unused_from (l_ids l) s ->
  admit_with_workspace_options fuel request selector allow_legacy (s, l) = Some ((s', l'), r) ->
  capacity s' = capacity s.
Proof.
  intros Hu.
  intros [[Hbg Hr]|(n & s1 & l1 & s2 & i & now & c & Hbg & Hn & Hi & Hout & ->)]%admit_outcome.
  { by apply (background_capacity (capacity s) (l_ids l)) in Hbg as [? _]. }
  apply (background_capacity (capacity s) (l_ids l)) in Hbg as [Hc1 Hu1]; [|done]. cbn in Hc1, Hu1.
  assert (capacity (set_permits n s1) = pred (capacity s) /\ unused_from (l_ids l) (set_permits n s1)) as Hc.
  { split; [|done]. rewrite <- Hc1. unfold capacity. cbn. rewrite Hn. done. }
  assert (0 < capacity s) as Hpos by (rewrite <- Hc1; unfold capacity; lia).
  assert (capacity s2 = pred (capacity s) -> is_ok r = false \/ not_fresh (result_map Answer r) ->
            capacity (drop_permit r s2) = capacity s) as Hdrop.
  { clear -Hpos. unfold capacity, drop_permit in *. destruct r as [run|e]; cbn; [|lia]. intros ? [?| ->]; [done|cbn; lia]. }
  destruct Hout as [Hq Hnf|p sa la d e _ H1 _ H2 Hr|p sa sb _ H1 Hd H2 Hnf Ha|p sa sb s3 l3 Hp H1 Hd H2 Hpub Hs' Hr].
  - apply Hdrop; [|by right]. by eapply background_capacity in Hq as [? _].
  - apply Hdrop; [|left; by destruct r]. eapply background_capacity in H1 as [? ?]; [|done].
    by eapply background_capacity in H2 as [? _].
  - apply Hdrop; [|by right]. eapply background_capacity in H1; [|done]. eapply durably_capacity in Hd; [|done].
    by eapply background_capacity in H2 as [? _].
  - eapply background_capacity in H1; [|done]. eapply durably_capacity in Hd; [|done].
    eapply background_capacity in H2 as [Hc3 Hu3]; [|done]. destruct r as [run|e]; simplify_eq/=.
    unfold capacity in *. destruct (publish_permits request p (uuids i) (uuids (S (S i))) now c s3) as [-> ->].
    rewrite holding_insert; [lia|by apply Hu3|done].
Qed.

End Capacity.

(** ** Invariants *)

Definition is_fresh (r : result AdmittedRun AdmitError) : bool :=
  match r with Ok run => negb (ar_replayed run) | Err _ => false end.

(** What other threads and a publication keep, an admission keeps; a call whose
    answer is no new run keeps it without the latter. *)
Lemma admission_keeps (I : AState -> Prop) fuel request selector allow_legacy s l s' l' r :
  (forall n s, I s -> I (env n s)) -> (forall m s, I s -> I (count m s)) ->
  (forall d s, I s -> I (set_durable d s)) -> (forall n s, I s -> I (set_permits n s)) ->
  (is_fresh r = true -> forall run_id message_id event_id now p c s,
     prepared request run_id message_id event_id now p -> publishable request run_id p (a_store s) ->
     I s -> I (publish request p run_id event_id now c s)) ->
  admit_with_workspace_options fuel request selector allow_legacy (s, l) = Some ((s', l'), r) -> I s -> I s'.
Proof.
  intros He Hc Hd Hp Hpub Hadmit HI.
  assert (forall s s', rtc background s s' -> I (fst s) -> I (fst s')) as Hbg by (intros; eapply background_keeps; eauto).
  assert (forall run_id payload s s', durably run_id payload s s' -> I (fst s) -> I (fst s')) as Hdur.
  { intros ? ? ? ? (_ & _ & [->|(d & l0 & ->)])%durably_state; [done|]. cbn. eauto. }
  apply admit_outcome in Hadmit as [[H1 _]|(n & s1 & l1 & s2 & i & now & c & H1 & _ & _ & Hout & ->)].
  { by apply Hbg in H1. }
  apply Hbg in H1; [|done]. cbn in H1. apply (Hp n) in H1.
  assert (I s2 -> I (drop_permit r s2)) as Hdrop.
  { intros. unfold drop_permit. repeat case_match; eauto. }
  apply Hdrop.
  destruct Hout as [Hq _|p sa la d e _ Ha _ Hb _|p sa sb _ Ha Hdu Hb _ _|p sa sb s3 l3 Hprep Ha Hdu Hb Hpl Hs' Hr].
  - by apply Hbg in Hq.
  - apply Hbg in Ha; [|done]. apply Hbg in Hb; [done|]. by apply Hd.
  - apply Hbg in Ha; [|done]. apply Hdur in Hdu; [|done]. by apply Hbg in Hb.
  - apply Hbg in Ha; [|done]. apply Hdur in Hdu; [|done]. apply Hbg in Hb; [|done].
    destruct r; simplify_eq/=. by eapply Hpub.
Qed.

(** Sessions and runs filed under their own identifiers, each message in its
    session and counted, each run in a session and under a parent that exist,
    each event log consecutive and without repetition. *)
Definition live_session (k : string) (session : SessionRecord) : Prop :=
  sv_id (sr_view session) = k /\ sv_message_count (sr_view session) = length (sr_messages session) /\
  Forall (fun m => sm_session_id m = k) (sr_messages session).

Definition live_run (store : GatewayStore) (k : string) (run : RunRecord) : Prop :=
  rr_run_id run = k /\ is_Some (gs_sessions store !! rr_session_id run) /\
  (forall parent, rr_parent_run_id run = Some parent -> is_Some (gs_runs store !! parent)) /\
  Forall (fun e => ge_run_id e = k) (rr_events run) /\ consecutive (rr_events run) /\
  NoDup (map ge_event_id (rr_events run)).

Definition live (store : GatewayStore) : Prop :=
  map_Forall live_session (gs_sessions store) /\ map_Forall (live_run store) (gs_runs store).

(** What a load restores is such a store. *)
Lemma store_wf_live store : store_wf store -> live store.
Proof.
  intros (Hs & Hr & _). split; intros k x Hx.
  - destruct (Hs k x Hx) as (?&?&?&_). done.
  - destruct (Hr k x Hx) as (?&?&?&_&?&?&?). done.
Qed.

Lemma is_Some_insert {A} (m : gmap string A) k x j : is_Some (m !! j) -> is_Some (<[k := x]> m !! j).
Proof. intros [y Hy]. rewrite lookup_insert. case_decide; eauto. Qed.

Lemma publish_live request run_id message_id event_id now p c s :
  prepared request run_id message_id event_id now p -> publishable request run_id p (a_store s) ->
  live (a_store s) -> live (a_store (publish request p run_id event_id now c s)).
Proof.
  intros ((Hmsg & _) & _) (_ & _ & Hparent & _) [Hs Hr].
  destruct (publish_sessions request p run_id event_id now c s) as (old & Hss & Hold).
  split.
  - rewrite Hss. apply map_Forall_insert_2; [|done]. unfold live_session, admit_message. cbn. split; [|split; [done|]].
    + destruct Hold as [->|[_ Hold]]; [done|]. by apply Hs in Hold as [? _].
    + apply Forall_app. split; [|by rewrite Hmsg; constructor].
      destruct Hold as [->|[_ Hold]]; [constructor|]. by apply Hs in Hold as (_ & _ & ?).
  - rewrite publish_runs. intros k x. rewrite lookup_insert. unfold live_run. rewrite Hss, publish_runs.
    case_decide as Hk.
    + intros [= <-]. cbn. split; [done|]. split; [rewrite lookup_insert, decide_True by done; eauto|].
      split; [intros; by apply is_Some_insert, Hparent|]. split; [by constructor|]. split; [|by constructor; [|constructor]; set_solver].
      intros [|i] e0 e; cbn; intros; by simplify_eq.
    + intros (?&?&?&?&?&?)%Hr. split; [done|]. split; [by apply is_Some_insert|].
      split; [|done]. intros. apply is_Some_insert. auto.
Qed.

(** Admission keeps the store well formed, if the other threads do:
    sessions and runs are filed under their own identifiers, a session counts
    its messages and holds only its own, a run's session and parent exist, and
    its event log is consecutive and without repetition. *)
Theorem admission_keeps_store_live fuel request selector allow_legacy s l s' l' r :
  (forall n s, live (a_store s) -> live (a_store (env n s))) ->
  admit_with_workspace_options fuel request selector allow_legacy (s, l) = Some ((s', l'), r) ->
  live (a_store s) -> live (a_store s').
Proof.
  intros He. apply (admission_keeps (fun s => live (a_store s))); try done.
  intros _ run_id message_id event_id now p c s0 Hp Hpub. by eapply publish_live.
Qed.

(** What a caller can observe in memory. *)
Definition memory (s : AState) :=
  (a_store s, a_settings s, a_handles s, a_contexts s, a_registries s, a_generation s).

(** C39. A refused or repeated request leaves nothing behind: with no other
    thread running, every answer that is not a new run leaves the store, the
    settings, the handles, the contexts and the generation as they were. *)
Theorem refused_admission_leaves_memory fuel request selector allow_legacy s l s' l' r :
  (forall n s, env n s = s) ->
  admit_with_workspace_options fuel request selector allow_legacy (s, l) = Some ((s', l'), r) ->
  is_fresh r = false -> memory s' = memory s.
Proof.
  intros He Hadmit Hr.
  eapply (admission_keeps (fun x => memory x = memory s)); [| | | | |exact Hadmit|]; try done.
  - intros. by rewrite He.
  - intros. congruence.
Qed.

(** ** One run per key *)

(** A computation, from states that satisfy an invariant. *)
Definition within (I : AState * Local -> Prop) {A} (m : M A) (Q : A -> Prop) : Prop :=
  forall s s' r, I s -> m s = (s', r) -> I s' /\ (forall a, r = Ok a -> Q a).

Lemma within_bind (I : AState * Local -> Prop) {A B} (m : M A) (k : A -> M B) P Q :
  within I m P -> (forall a, P a -> within I (k a) Q) -> within I (bind m k) Q.
Proof.
  intros Hm Hk s s' r HI. unfold bind. destruct (m s) as [s1 [a|e]] eqn:E; intros E'.
  - apply Hm in E as [H1 Ha]; [|done]. eapply Hk; [by apply Ha|done|done].
  - apply Hm in E as [H1 _]; [|done]. by simplify_eq.
Qed.

Lemma within_get (I : AState * Local -> Prop) {A} (f : AState -> A) (Q : A -> Prop) :
  (forall s, I s -> Q (f (fst s))) -> within I (get f) Q.
Proof. intros HQ s s' r HI E. unfold get in E. simplify_eq. split; [done|]. intros ? [= <-]. by apply HQ. Qed.

Section Key.
Context (request : AdmitRunRequest) (key hash : string) (record : IdempotencyRecord).
Hypothesis request_key : rq_idempotency_key request = Some key.
Hypothesis request_hash : rq_idempotency_hash request = Some hash.

Definition recorded_key (s : AState) : Prop := gs_idempotency (a_store s) !! key = Some record.

Hypothesis env_key : forall n s, recorded_key s -> recorded_key (env n s).

Context (effects : list AdmitEffect).

Definition undisturbed (s : AState * Local) : Prop := recorded_key (fst s) /\ l_effects (snd s) = effects.

Lemma background_undisturbed s s' : rtc background s s' -> undisturbed s -> undisturbed s'.
Proof.
  intros Hbg [Hk He]. split; [by eapply (background_keeps recorded_key)|].
  by rewrite (background_effects s s' Hbg).
Qed.

Lemma within_quiet {A} (m : M A) Q : quiet m Q -> within undisturbed m Q.
Proof. intros Hm s s' r HI [Hbg Hr]%Hm. split; [by eapply background_undisturbed|done]. Qed.

Lemma within_store : within undisturbed (get a_store) (fun store => gs_idempotency store !! key = Some record).
Proof. apply within_get. by intros s [? _]. Qed.

(** The request is recognised: the search for an earlier run never fails to
    find it. *)
Lemma replay_existing_finds selector :
  within undisturbed (replay_existing_admission request selector)
    (fun o => exists run, o = Some run /\ ar_run_id run = ir_run_id record /\ ar_replayed run = true).
Proof.
  unfold replay_existing_admission. rewrite request_key, request_hash.
  eapply within_bind; [apply within_quiet, calm_yield|]. intros _ _.
  eapply within_bind; [apply within_store|].
  intros store ->.
  eapply within_bind; [apply within_quiet, calm_same_request|]. intros _ _.
  eapply within_bind; [apply within_quiet, calm_yield|]. intros _ _.
  eapply within_bind; [apply within_store|].
  intros store' ->.
  eapply within_bind; [apply within_quiet, calm_same_request|]. intros _ _.
  apply within_quiet, calm_ret. eexists. split; [done|]. split; [|apply replayed_run_replayed].
  unfold replayed_run. by case_match.
Qed.

Definition names_record (r : result AdmittedRun AdmitError) : Prop :=
  forall run, r = Ok run -> ar_run_id run = ir_run_id record /\ ar_replayed run = true.

Lemma attempt_recorded selector allow_legacy run_id message_id event_id now c :
  within undisturbed (attempt request selector allow_legacy run_id message_id event_id now c)
    (fun a => exists run, a = Answer run /\ names_record (Ok run)).
Proof.
  unfold attempt, prepare_and_commit.
  eapply within_bind; [apply within_quiet, calm_cancelled|]. intros cancelled _.
  eapply within_bind; [apply within_quiet, calm_check, calm_deadline|]. intros _ _.
  eapply within_bind; [apply within_quiet, calm_read_base|]. intros b _.
  eapply within_bind; [apply replay_existing_finds|]. intros o (run & -> & Hid & Hre).
  apply within_quiet, calm_ret. eexists. split; [done|]. by intros ? [= <-].
Qed.

Lemma admit_loop_recorded fuel selector allow_legacy run_id message_id event_id now c s s' r :
  undisturbed s ->
  admit_loop fuel request selector allow_legacy run_id message_id event_id now c s = Some (s', r) ->
  undisturbed s' /\ names_record r.
Proof.
  intros Hs. destruct fuel as [|fuel]; [done|]. cbn [admit_loop].
  destruct (attempt _ _ _ _ _ _ _ _ s) as [s1 r1] eqn:E.
  apply attempt_recorded in E as [Hs1 Hr]; [|done]. destruct r1 as [a|e].
  - destruct (Hr a eq_refl) as (run & -> & Hn). intros [= <- <-]. done.
  - intros [= <- <-]. by split.
Qed.

Lemma admit_recorded fuel selector allow_legacy s s' r :
  undisturbed s ->
  admit_with_workspace_options fuel request selector allow_legacy s = Some (s', r) ->
  undisturbed s' /\ names_record r.
Proof.
  intros Hs. unfold admit_with_workspace_options, bind.
  destruct (enter request s) as [s0 [[]|e]] eqn:E0; apply calm_enter in E0 as [H0 _];
    apply background_undisturbed in H0; [|done| |done].
  2: { intros [= <- <-]. by split. }
  destruct (acquire_permit s0) as [sp rp] eqn:E1.
  apply acquire_permit_cases in E1 as [[H1 Hr]|(n & s1 & l1 & H1 & _ & -> & ->)];
    apply background_undisturbed in H1; [|done| |done].
  { destruct rp; [done|]. intros [= <- <-]. by split. }
  unfold admit_blocking. cbn.
  destruct (admit_loop _ _ _ _ _ _ _ _ _ _) as [[[s2 l2] r2]|] eqn:E2; [|done]. intros [= <- <-].
  apply admit_loop_recorded in E2 as [[Hk He] Hn]; [|done].
  split; [|done]. split; [|done]. unfold drop_permit. by repeat case_match.
Qed.

End Key.

(** C25. A key names one run: while a record is stored under the request's key
    and other threads keep it, no call with that key reaches the storage's
    creating command or publishes a run, and every answer that is not an error
    is the recorded run. *)
Theorem idempotency_key_names_one_run fuel request selector allow_legacy key hash record s l s' l' r :
  rq_idempotency_key request = Some key -> rq_idempotency_hash request = Some hash ->
  (forall n s, recorded_key key record s -> recorded_key key record (env n s)) ->
  recorded_key key record s ->
  admit_with_workspace_options fuel request selector allow_legacy (s, l) = Some ((s', l'), r) ->
  recorded_key key record s' /\ l_effects l' = l_effects l /\
  forall run, r = Ok run -> ar_run_id run = ir_run_id record /\ ar_replayed run = true.
Proof.
  intros Hk Hh He Hs Hadmit.
  eapply (admit_recorded _ _ _ _ Hk Hh He (l_effects l)) in Hadmit as [[? ?] ?]; [done|]. by split.
Qed.

(** ** Termination *)

(** An attempt that starts over saw a deadline that had not passed, and used up
    a reading of the clock. *)
Lemma attempt_again request selector allow_legacy run_id message_id event_id now c s s' :
  cn_requested c = None ->
  attempt request selector allow_legacy run_id message_id event_id now c s = (s', Ok Again) ->
  deadline_passed (instants (l_instants (snd s))) c = false /\ l_instants (snd s) < l_instants (snd s').
Proof.
  destruct s as [s l]. intros Hc. unfold attempt, admission_cancelled_before_commit. rewrite Hc.
  unfold bind at 1 2. cbn [instant_now ret]. unfold bind at 1.
  destruct (deadline_passed _ c) eqn:Ed; cbn [check]; [done|]. cbn [ret].
  intros [Hq _| | |]%commits_round; [|done..|].
  - apply background_monotone in Hq as [_ Hi]. cbn in *. split; [done|lia].
  - done.
Qed.

Lemma admit_loop_ends request selector allow_legacy run_id message_id event_id now c deadline n s :
  cn_requested c = None -> cn_deadline c = Some deadline ->
  (forall j, l_instants (snd s) + n <= j -> (deadline <= instants j)%Z) ->
  exists answer, admit_loop (S n) request selector allow_legacy run_id message_id event_id now c s = Some answer.
Proof.
  intros Hc Hd. revert s. induction n as [|n IH]; intros s Hj; cbn [admit_loop];
    destruct (attempt _ _ _ _ _ _ _ c s) as [s1 [[|run]|e]] eqn:E; eauto;
    apply attempt_again in E as [Hp Hl]; try done.
  - unfold deadline_passed in Hp. rewrite Hd in Hp. specialize (Hj (l_instants (snd s)) ltac:(lia)). lia.
  - apply IH. intros j ?. apply Hj. lia.
Qed.

(** C40. The loop of an admission ends: however other threads disturb its
    attempts, it answers by the first attempt that starts after its deadline,
    so one round more than the readings of the clock before the deadline is
    enough. *)
Theorem admission_ends_by_deadline request selector allow_legacy s l n :
  (cf_run_timeout config <= MAX_RUN_TIMEOUT)%Z ->
  (instants (l_instants l) + cf_run_timeout config <= cf_instant_max config)%Z ->
  (forall j, l_instants l + n <= j ->
     (instants (l_instants l) + cf_run_timeout config <= instants j)%Z) ->
  exists answer, admit_blocking (S n) request selector allow_legacy (s, l) = Some answer.
Proof.
  intros Ht Hm Hj. unfold admit_blocking. cbn.
  edestruct (admit_loop_ends request selector allow_legacy (uuids (l_ids l)) (uuids (S (l_ids l)))
               (uuids (S (S (l_ids l)))) (times (l_times l))
               (with_timeout (cf_instant_max config) (instants (l_instants l)) (cf_run_timeout config)))
    as [[[s2 l2] r2] E]; [| | |cbn in E; rewrite E; by eexists].
  - unfold with_timeout. by repeat case_match.
  - unfold with_timeout. by rewrite (proj2 (Z.ltb_ge _ _)), (proj2 (Z.leb_le _ _)) by lia.
  - cbn. intros j ?. apply Hj. lia.
Qed.

(** ** Resuming *)

(** The messages a resumed context is given. *)
Definition resumed_messages (messages : list SessionMessage) : Json :=
  JArray (map (fun m => remove_ordinal (message_to_value m)) messages).

Lemma object_opt {A} k (f : A -> Json) (x : option A) j :
  (exists o, j = JObject o) -> exists o, match x with Some a => jset k (f a) j | None => j end = JObject o.
Proof. intros [o ->]. destruct x; by eexists. Qed.

Lemma object_set k v j : (exists o, j = JObject o) -> exists o, jset k v j = JObject o.
Proof. intros [o ->]. by eexists. Qed.

Lemma message_to_value_object m : exists o, message_to_value m = JObject o.
Proof.
  unfold message_to_value. apply object_opt. destruct (is_null_or_empty _); [|apply object_set];
    do 6 apply object_opt; by eexists.
Qed.

Lemma resumed_messages_ok messages :
  existsb (fun m => match m with JNull => true | _ => false end)
    (map (fun m => remove_ordinal (message_to_value m)) messages) = false.
Proof. induction messages as [|m l IH]; [done|]. cbn. by destruct (message_to_value_object m) as [o ->]. Qed.

(** Only the messages of the context changed, so the other checks still hold. *)
Lemma verify_resumed c messages :
  verify_context_metadata str_debug c = Ok tt -> messages <> [] ->
  verify_context_metadata str_debug (set_context_messages (resumed_messages messages) c) = Ok tt.
Proof.
  intros Hv Hm. revert Hv. unfold verify_context_metadata.
  cbn [rc_run_id rc_session_id rc_metadata rc_tool_schemas rc_provider_options rc_limits set_context_messages rc_messages].
  assert (match as_array (resumed_messages messages) with Some (x :: l) => Some (x :: l) | _ => None end =
          Some (map (fun m => remove_ordinal (message_to_value m)) messages)) as Hms by (by destruct messages).
  rewrite Hms. cbn [ok_or]. rewrite resumed_messages_ok. cbn [refuse].
  repeat match goal with |- match ?t with Ok _ => _ | Err _ => _ end = Ok _ -> _ => destruct t eqn:?; [|done] end.
  done.
Qed.

(** A row of the run table holds what the creating command was given. *)
Definition row_records (payload : Json) (r : row) : Prop :=
  r !! ADMISSION_RUN_COL_ID = jget "run_id" payload /\
  r !! ADMISSION_RUN_COL_SESSION_ID = jget "session_id" payload /\
  r !! ADMISSION_RUN_COL_PARENT_RUN_ID = jget "parent_run_id" payload /\
  r !! ADMISSION_RUN_COL_INPUT_JSON = jget "input_json" payload /\
  r !! ADMISSION_RUN_COL_PROVIDER = jget "provider" payload /\
  r !! ADMISSION_RUN_COL_MODEL = jget "model" payload /\
  r !! ADMISSION_RUN_COL_SCRIPT_HASH = jget "script_hash" payload.

(** The stored text, the stored names and the messages can be told apart and
    read back. *)
Definition readable (c : RunContext) (messages : list SessionMessage) : Prop :=
  json_ok (run_context_to_value (set_context_messages (JArray []) c)) = true /\
  json_parse (json_text (context_envelope c)) = Ok (context_envelope c) /\
  json_text (context_envelope c) <> EmptyString /\
  rc_session_id c <> EmptyString /\ rc_provider c <> Some EmptyString /\ rc_parent_run_id c <> Some EmptyString /\
  NoDup (map sm_id messages).

Lemma context_envelope_plain c :
  json_ok (run_context_to_value (set_context_messages (JArray []) c)) = true ->
  context_envelope c = jobj [("schema_version", JNumber (PosInt RUN_CONTEXT_METADATA_VERSION));
                             (RUN_CONTEXT_STORAGE_KEY, run_context_to_value (set_context_messages (JArray []) c))].
Proof.
  intros Hok. unfold context_envelope, canonicalize_json_value. apply canonicalize_json_id.
  revert Hok. generalize (run_context_to_value (set_context_messages (JArray []) c)). intros v Hv. cbn. by rewrite Hv.
Qed.

Lemma list_find_last (messages : list SessionMessage) m :
  NoDup (map sm_id (messages ++ [m])) ->
  fst <$> list_find (fun x => sm_id x = sm_id m) (messages ++ [m]) = Some (length messages).
Proof.
  intros Hn. rewrite list_find_app_r; [|apply list_find_None].
  - cbn. rewrite decide_True by done. cbn. by f_equal.
  - apply Forall_forall. intros x Hx He. rewrite map_app in Hn. apply NoDup_app in Hn as (_ & Hd & _).
    apply (Hd (sm_id m)); [rewrite <- He; by apply list_elem_of_fmap_2|set_solver].
Qed.

Lemma optional_default o :
  o <> Some EmptyString -> (if is_empty (default EmptyString o) then None else Some (default EmptyString o)) = o.
Proof. destruct o as [[|a t]|]; cbn; done. Qed.

Lemma refuse_ok (P : Prop) `{!Decision P} e : P -> refuse (negb (bool_decide P)) e = Ok tt.
Proof. intros HP. by rewrite bool_decide_eq_true_2. Qed.

Lemma non_empty_some t : t <> EmptyString -> non_empty_str (Some t) = Some t.
Proof. by destruct t. Qed.

Lemma reconstruct_whole store c session earlier m :
  jget "message_id" (rc_metadata c) = Some (JString (sm_id m)) -> sm_id m <> EmptyString ->
  gs_sessions store !! rc_session_id c = Some session -> sr_messages session = earlier ++ [m] ->
  NoDup (map sm_id (sr_messages session)) ->
  reconstruct_admitted_messages store c = Ok (resumed_messages (sr_messages session)).
Proof.
  intros Hm Hne Hs Hl Hnd. unfold reconstruct_admitted_messages. rewrite Hm. cbn [mbind option_bind as_str].
  rewrite non_empty_some by done. cbn [ok_or]. rewrite Hs. cbn [ok_or]. rewrite Hl in *.
  rewrite list_find_last by done. cbn [ok_or]. rewrite take_ge; [done|]. rewrite length_app. cbn. lia.
Qed.

(** A verified context names its message. *)
Lemma verified_message_id c id :
  verify_context_metadata str_debug c = Ok tt -> jget "message_id" (rc_metadata c) = Some (JString id) ->
  id <> EmptyString.
Proof.
  unfold verify_context_metadata. destruct (rc_metadata c) as [| | | | |m]; try done. cbn [jget as_object ok_or].
  intros Hv Hm ->. assert (meta_str "message_id" m = Some EmptyString) as E by (unfold meta_str; by rewrite Hm).
  revert Hv. rewrite E. cbn [non_empty_str is_empty ok_or].
  by repeat match goal with |- match ?t with Ok _ => _ | Err _ => _ end = Ok _ -> _ => destruct t; [|done] end.
Qed.

Lemma payload_row request b run_id message_id event_id now metadata input identity r :
  row_records (admission_payload request b run_id message_id event_id now metadata input identity) r ->
  r !! ADMISSION_RUN_COL_ID = Some (JString run_id) /\
  r !! ADMISSION_RUN_COL_SESSION_ID = Some (JString (ba_session_id b)) /\
  r !! ADMISSION_RUN_COL_PARENT_RUN_ID = Some (JString (default EmptyString (rq_parent_run_id request))) /\
  r !! ADMISSION_RUN_COL_INPUT_JSON = Some (JString input) /\
  r !! ADMISSION_RUN_COL_PROVIDER = Some (JString (default EmptyString (ba_provider b))) /\
  r !! ADMISSION_RUN_COL_MODEL = Some (JString (ba_model b)) /\
  r !! ADMISSION_RUN_COL_SCRIPT_HASH = Some (JString (Registry.identity (ba_registry b))).
Proof. done. Qed.

(** The lengths the budget is checked with are those of what is stored. *)
Lemma admission_lens_of request b run_id message_id input identity metadata :
  admission_lens request b run_id message_id input identity = lens_of {|
    st_run_id := run_id; st_session_id := ba_session_id b; st_parent := default EmptyString (rq_parent_run_id request);
    st_input := input; st_provider := default EmptyString (ba_provider b); st_model := ba_model b;
    st_script := Registry.identity (ba_registry b); st_key := default EmptyString (rq_idempotency_key request);
    st_platform := rq_platform request; st_prompt := default EmptyString (ba_prompt b); st_message_id := message_id;
    st_hash := default EmptyString (rq_idempotency_hash request); st_identity := identity; st_metadata := metadata |}.
Proof. reflexivity. Qed.

Section Resume.
Context `{!ContextSerdeLaws}.

(** The stored context of a prepared run is read back from its row, whatever
    store it is read against, as long as that store ends the session with the
    admitted message. *)
Lemma load_prepared request run_id message_id event_id now p store session earlier d d' data r :
  cf_persistence config = true ->
  prepared request run_id message_id event_id now p ->
  gs_sessions store !! ba_session_id (pr_base p) = Some session ->
  sr_messages session = earlier ++ [ba_message (pr_base p)] ->
  readable (pr_context p) (sr_messages session) ->
  run_get run_id d = (d', Ok data) -> sqlite_storage_first_row data = Some r -> row_records (pr_payload p) r ->
  load_persisted_context run_id d store =
    (d', Ok (set_context_messages (resumed_messages (sr_messages session)) (pr_context p))).
Proof.
  intros Hper ((Hmsg & _) & (Hid & Hsid & Hpar & Hprov & Hmod & _ & Hmid & Hreg) & meta & input & Hin & Hpay & _)
    Hses Hlast (Hok & Hparse & Htext & Hne & Hne' & Hne'' & Hnd) Hget Hrow Hrec.
  rewrite Hpay in Hrec. apply payload_row in Hrec as (R1 & R2 & R3 & R4 & R5 & R6 & R7).
  unfold persisted_run_context_json in Hin. destruct (verify_context_metadata str_debug (pr_context p)) as [[]|] eqn:Hver; [|done].
  cbn [map_err] in Hin. destruct (_ <? _)%Z; [done|]. injection Hin as <-.
  set (c := pr_context p) in *.
  assert (reconstruct_admitted_messages store (set_context_messages (JArray []) c) =
          Ok (resumed_messages (sr_messages session))) as Hrecon.
  { apply (reconstruct_whole _ _ _ earlier (ba_message (pr_base p))); [by rewrite Hmsg| | |done|done].
    - rewrite Hmsg. by eapply verified_message_id.
    - cbn. by rewrite Hsid. }
  unfold load_persisted_context. rewrite Hper, Hget. cbn [negb map_err]. rewrite Hrow. cbn [ok_or].
  unfold admission_run_str, optional_string. rewrite R1, R2, R3, R4, R5, R6, R7.
  cbn [mbind option_bind as_str].
  rewrite refuse_ok, non_empty_some by done. cbn [ok_or]. rewrite Hparse. cbn [map_err].
  rewrite context_envelope_plain by done. rewrite refuse_ok by done.
  change (jget RUN_CONTEXT_STORAGE_KEY _) with (Some (run_context_to_value (set_context_messages (JArray []) c))).
  cbn [ok_or]. rewrite run_context_serde. cbn [map_err]. rewrite Hrecon.
  set (messages := resumed_messages (sr_messages session)).
  change (set_context_messages messages (set_context_messages (JArray []) c)) with (set_context_messages messages c).
  subst messages. rewrite verify_resumed by (done || rewrite Hlast; by destruct earlier).
  cbn [rc_run_id rc_session_id rc_parent_run_id rc_provider rc_model rc_metadata set_context_messages].
  rewrite Hid, Hpar, Hprov, Hmod, Hreg, Hsid in *. rewrite non_empty_some by done. cbn [ok_or].
  rewrite !str_eqb_refl, !optional_default by done. cbn [negb]. by rewrite !refuse_ok by done.
Qed.
(** C27. A run survives a restart: with persistence on, the context of a run
    answered as new is read back from the row its creating command wrote, equal
    to the admitted one in everything but the messages, which are those of the
    session up to the admitted message without their ordinals; provided that
    the stored text reads back as the value it was printed from, that no name
    in it is empty and that the messages have distinct identifiers
    ([readable]), and that storage returns the row of that command
    ([row_records]). *)
Theorem admitted_context_resumes fuel request selector allow_legacy s l s' l' run :
  cf_persistence config = true ->
  admit_with_workspace_options fuel request selector allow_legacy (s, l) = Some ((s', l'), Ok run) ->
  ar_replayed run = false ->
  exists payload c session,
    l_effects l' = l_effects l ++ [EDurable (ar_run_id run) payload true; EPublish (ar_run_id run)] /\
    a_contexts s' !! ar_run_id run = Some c /\
    gs_sessions (a_store s') !! ar_session_id run = Some session /\
    forall d d' data r,
      readable c (sr_messages session) ->
      run_get (ar_run_id run) d = (d', Ok data) -> sqlite_storage_first_row data = Some r ->
      row_records payload r ->
      load_persisted_context (ar_run_id run) d (a_store s') =
        (d', Ok (set_context_messages (resumed_messages (sr_messages session)) c)).
Proof.
  intros Hper [[_ ?]|(n & s1 & l1 & s2 & i & now & c & Hbg & _ & _ & Hout & ->)]%admit_outcome Hr; [done|].
  unfold drop_permit. rewrite Hr.
  destruct Hout as [? Hn|??????????|???????? Hn|p sa sb s3 l3 Hp H1 Hd H2 Hpub Hs' Hrun];
    [cbn in Hn; congruence|done|cbn in Hn; congruence|].
  apply background_effects in Hbg, H1, H2. apply durably_effects in Hd. rewrite Hper in Hd. cbn in Hbg, H1, H2, Hd.
  injection Hs' as -> ->. injection Hrun as ->. cbn [fresh_run ar_run_id ar_session_id].
  destruct (publish_sessions request p (uuids i) (uuids (S (S i))) now c s3) as (old & Hss & _).
  eexists (pr_payload p), (pr_context p), (admit_message request p now old).
  split; [cbn; by rewrite H2, Hd, H1, Hbg, <- !(assoc_L (++))|].
  split; [unfold publish; cbn; pose proof Hp as (_ & (-> & _) & _); by rewrite lookup_insert, decide_True|].
  split; [by rewrite Hss, lookup_insert, decide_True|]. intros d d' data r Hread Hget Hrow Hrec.
  eapply load_prepared; try done. by rewrite Hss, lookup_insert, decide_True.
Qed.

End Resume.

(** ** Binding a workspace *)

Section Binding.
Context (session_id selector : string) (s0 : AState).
Hypothesis idle : forall n s, env n s = s.

Definition untouched (s : AState * Local) : Prop := memory (fst s) = memory s0.

Lemma within_untouched {A} (m : M A) Q : quiet m Q -> within untouched m Q.
Proof.
  intros Hm s s' r Hs [Hbg Hr]%Hm. split; [|done].
  apply (background_keeps (fun s => memory s = memory s0) s s'); try done. intros. by rewrite idle.
Qed.

Lemma within_get_store : within untouched (get a_store) (fun store => store = a_store s0).
Proof. apply within_get. intros s Hs. by injection Hs. Qed.

(** The session with its new binding; every other session and all runs as they
    were. *)
Definition bound (view : SessionView) (s : AState) : Prop :=
  exists session, gs_sessions (a_store s0) !! session_id = Some session /\
    session_busy session_id (a_store s0) = false /\ is_Some (sv_workspace view) /\
    a_store s = insert_session session_id {| sr_view := view; sr_messages := sr_messages session |} (a_store s0).

Definition binds (m : M SessionView) : Prop :=
  forall s s' r, untouched s -> m s = (s', r) ->
  match r with Ok view => bound view (fst s') | Err _ => untouched s' end.

Lemma binds_bind {A} (m : M A) (k : A -> M SessionView) P :
  within untouched m P -> (forall a, P a -> binds (k a)) -> binds (bind m k).
Proof.
  intros Hm Hk s s' r HI. unfold bind. destruct (m s) as [s1 [a|e]] eqn:E; intros E'.
  - apply Hm in E as [H1 Ha]; [|done]. by eapply Hk; [apply Ha|..].
  - apply Hm in E as [H1 _]; [|done]. by simplify_eq.
Qed.

Lemma within_log e : within untouched (effect e) (fun _ => True).
Proof. intros [s l] s' r Hs [= <- <-]. done. Qed.

Lemma calm_bind_durably workspace : calm (bind_durably session_id workspace).
Proof. unfold bind_durably. calm. Qed.

#[local] Hint Resolve calm_bind_durably : admission.

Lemma binds_store_binding binding :
  session_busy session_id (a_store s0) = false -> binds (store_binding session_id binding).
Proof.
  intros Hb [s l] s' r Hs. unfold store_binding, bind, get, of_result. cbn. rewrite idle.
  assert (a_store s = a_store s0) as -> by by injection Hs.
  destruct (gs_sessions (a_store s0) !! session_id) as [session|] eqn:E; cbn; intros [= <- <-]; [|done].
  exists session. split; [done|]. split; [done|]. split; [by eexists|done].
Qed.

Ltac binding :=
  repeat first
    [ progress intros
    | apply binds_store_binding
    | eapply binds_bind; [solve [apply within_get_store]|]
    | eapply binds_bind; [solve [apply within_log]|]
    | eapply binds_bind; [apply within_untouched, calm_guard; intros; apply calm_fail|]
    | eapply binds_bind; [apply within_untouched; solve [eauto with nocore answers]|]
    | apply (binds_bind _ _ (fun _ => True)); [apply within_untouched; solve [eauto with admission]|] ].

Lemma binds_session_workspace : binds (bind_session_workspace session_id selector).
Proof.
  unfold bind_session_workspace, bind_session_workspace_blocking. binding. cbv beta in *. by subst.
Qed.

End Binding.

(** Choosing a workspace, with no other thread running: it succeeds only for
    a session without an active run, and then changes that session's view and
    nothing else of the store; a refusal of the policy, of the storage or for
    an active run leaves memory as it was. *)
Theorem workspace_binding_atomic session_id selector s l s' l' r :
  (forall n s, env n s = s) ->
  bind_session_workspace session_id selector (s, l) = ((s', l'), r) ->
  match r with
  | Ok view => bound session_id s view s'
  | Err _ => memory s' = memory s
  end.
Proof. intros Hidle Hb. by apply (binds_session_workspace session_id selector s Hidle) in Hb. Qed.

End Spec.

(** ** A gateway with one tool *)
Module AdmissionExample.

#[local] Existing Instance CompactText.compact_text.
#[local] Existing Instance Content.derived_serde.
#[local] Existing Instance LimitsExample.one_url.
#[local] Existing Instance LimitsExample.one_dir.
#[local] Existing Instance RegistryExample.permissive.

Definition str_field (k : string) (j : Json) : result string string := ok_or (jget k j ≫= as_str) k.
Definition opt_field (k : string) (j : Json) : result (option string) string :=
  match jget k j with
  | None | Some JNull => Ok None
  | Some (JString s) => Ok (Some s)
  | Some _ => Err k
  end.
Definition any_field (k : string) (j : Json) : result Json string := ok_or (jget k j) k.

#[local] Instance by_fields : ContextSerde := fun j =>
  let? run_id := str_field "run_id" j in
  let? session_id := str_field "session_id" j in
  let? parent := opt_field "parent_run_id" j in
  let? platform := str_field "platform" j in
  let? input := any_field "input" j in
  let? messages := any_field "messages" j in
  let? prompt := opt_field "system_prompt" j in
  let? model := str_field "model" j in
  let? provider := opt_field "provider" j in
  let? options := any_field "provider_options" j in
  let? schemas := any_field "tool_schemas" j in
  let? limits := any_field "limits" j in
  let? metadata := any_field "metadata" j in
  let? coding := opt_field "coding_system_prompt" j in
  Ok {| rc_run_id := run_id; rc_session_id := session_id; rc_parent_run_id := parent; rc_platform := platform;
        rc_input := input; rc_messages := messages; rc_system_prompt := prompt; rc_model := model;
        rc_provider := provider; rc_provider_options := options; rc_tool_schemas := schemas;
        rc_limits := limits; rc_metadata := metadata; rc_coding_system_prompt := coding |}.

#[local] Instance by_fields_laws : ContextSerdeLaws.
Proof. split. intros []. unfold run_context_to_value, opt_json. cbn. by repeat case_match. Qed.

(** A reader of compact texts with integers and without escapes. *)
Definition digit (b : byte) : option Z := if in_range 48 57 b then Some (bval b - 48)%Z else None.
Fixpoint digits (acc : Z) (bs : list byte) : Z * list byte :=
  match bs with
  | b :: rest => match digit b with Some d => digits (acc * 10 + d)%Z rest | None => (acc, bs) end
  | [] => (acc, [])
  end.
Fixpoint quoted_text (acc bs : list byte) : option (string * list byte) :=
  match bs with
  | Byte.x22 :: rest => Some (b2s (rev acc), rest)
  | Byte.x5c :: _ | [] => None
  | b :: rest => quoted_text (b :: acc) rest
  end.

Fixpoint value_of (fuel : nat) (bs : list byte) : option (Json * list byte) :=
  match fuel with
  | O => None
  | S fuel =>
      match bs with
      | Byte.x6e :: _ :: _ :: _ :: rest => Some (JNull, rest)
      | Byte.x74 :: _ :: _ :: _ :: rest => Some (JBool true, rest)
      | Byte.x66 :: _ :: _ :: _ :: _ :: rest => Some (JBool false, rest)
      | Byte.x22 :: rest => p ← quoted_text [] rest; Some (JString (fst p), snd p)
      | Byte.x5b :: Byte.x5d :: rest => Some (JArray [], rest)
      | Byte.x5b :: rest => p ← items_of fuel rest; Some (JArray (fst p), snd p)
      | Byte.x7b :: Byte.x7d :: rest => Some (JObject [], rest)
      | Byte.x7b :: rest => p ← members_of fuel rest; Some (JObject (fst p), snd p)
      | b :: _ => _ ← digit b; let p := digits 0 bs in Some (JNumber (PosInt (fst p)), snd p)
      | [] => None
      end
  end
with items_of (fuel : nat) (bs : list byte) : option (list Json * list byte) :=
  match fuel with
  | O => None
  | S fuel =>
      p ← value_of fuel bs;
      match snd p with
      | Byte.x2c :: rest => q ← items_of fuel rest; Some (fst p :: fst q, snd q)
      | Byte.x5d :: rest => Some ([fst p], rest)
      | _ => None
      end
  end
with members_of (fuel : nat) (bs : list byte) : option (list (string * Json) * list byte) :=
  match fuel, bs with
  | S fuel, Byte.x22 :: rest =>
      k ← quoted_text [] rest;
      p ← value_of fuel (tail (snd k));
      match snd p with
      | Byte.x2c :: rest => q ← members_of fuel rest; Some ((fst k, fst p) :: fst q, snd q)
      | Byte.x7d :: rest => Some ([(fst k, fst p)], rest)
      | _ => None
      end
  | _, _ => None
  end.

#[local] Instance compact_reader : StoreReaders := {|
  json_parse t := match value_of (2 * length (s2b t)) (s2b t) with Some (j, []) => Ok j | _ => Err t end;
  workspace_from_value _ := None |}.

Definition settings : Settings := {|
  se_registry := RegistryExample.snapshot;
  se_run_limits := {| max_turns := 64; max_tool_calls := 128; max_tool_output_bytes := 1024; workspace_root := "/work" |};
  se_provider_profiles := ∅; se_legacy_root := None; se_date := "2026-01-01"; se_maintenance := ∅;
  se_halting := false; se_workspace_factory := false |}.

Definition id_of (n : nat) : string := "id-" +:+ pretty n.

(** The row of a run, made from the payload that created it. *)
Definition run_row (payload : Json) : Json :=
  JArray (map (fun key => default JNull (jget key payload))
    ["run_id"; "session_id"; "parent_run_id"; "status"; "input_json"; "provider"; "model"; "script_hash"]).

(** The storage keeps the payloads it was given. *)
#[local] Instance host : AdmissionHost := {|
  D := list Json;
  Authority := unit;
  str_debug s := s;
  admission_create payload d := (d ++ [payload], Ok (jobj [("replayed", JBool false)]));
  admission_replay _ _ _ _ d := (d, Ok (jobj [("replayed", JBool false)]));
  session_workspace_bind _ _ d := (d, Ok JNull);
  run_get run_id d :=
    (d, Ok (jobj [("rows", JArray (map run_row (filter (fun payload => jget "run_id" payload = Some (JString run_id)) d)))]));
  run_workspace_admission _ j :=
    if bool_decide (jget "selector_present" j = Some (JBool true)) then
      Some (Ok {| wo_ok := true; wo_code := EmptyString; wo_canonical_path := Some "/work";
                  wo_effective_selector := Some "work"; wo_selected_name := None; wo_generation := Some 1%Z;
                  wo_authority := Some tt |})
    else None;
  replay_identity_matches j := Ok (bool_decide (jget "stored_request_hash" j = jget "request_hash" j));
  authority_check _ _ := true;
  compaction_error_from_rss code message :=
    {| ce_http_status := 409; ce_code := code; ce_message := message; ce_detail := EmptyString |};
  build_coding_prompt root _ _ date _ _ := Ok ("work in " +:+ root +:+ " on " +:+ date);
  uuids := id_of;
  times n := (Z.of_nat n + 1000)%Z;
  instants n := Z.of_nat n;
  key_order := elements;
  config := {|
    cf_model := "model"; cf_provider := None; cf_run_timeout := 1000; cf_instant_max := 1000000;
    cf_max_events_per_run := 100; cf_max_event_bytes := 4096; cf_approvals := jobj [];
    cf_client_disconnect_policy := KeepRunning; cf_persistence := true; cf_context_cache_capacity := 4;
    cf_os := "linux"; cf_arch := "x86_64" |}
|}.

Definition start : AState := {|
  a_store := {| gs_sessions := ∅; gs_runs := ∅; gs_jobs := ∅; gs_idempotency := ∅ |};
  a_durable := []; a_settings := settings; a_permits := 2; a_handles := ∅; a_contexts := ∅; a_registries := ∅;
  a_generation := 0; a_metrics := [] |}.

Definition fresh_local : Local := {| l_steps := 0; l_ids := 0; l_times := 0; l_instants := 0; l_effects := [] |}.

Definition hello : AdmitRunRequest := {|
  rq_input := JString "hello"; rq_session_id := None; rq_model := None; rq_provider := None;
  rq_parent_run_id := None; rq_instructions := None; rq_platform := "api"; rq_idempotency_key := Some "key";
  rq_idempotency_hash := Some "fnv64:0123456789abcdef" |}.

(** The parts of an answer. *)
Definition Answered : Type := option ((AState * Local) * result AdmittedRun AdmitError).
Definition state_of (a : Answered) : AState := match a with Some ((s, _), _) => s | None => start end.
Definition local_of (a : Answered) : Local := match a with Some ((_, l), _) => l | None => fresh_local end.
Definition result_of (a : Answered) : result AdmittedRun AdmitError :=
  match a with Some (_, r) => r | None => Err Halting end.

Definition is_answer (a : Answered) : bool := match a with Some _ => true | None => false end.

Lemma answered (a : Answered) : is_answer a = true -> a = Some ((state_of a, local_of a), result_of a).
Proof. by destruct a as [[[]]|]. Qed.

Section Alone.
#[local] Instance alone : Interference := fun _ s => s.

(** The request, and the same request again. *)
Local Notation first := (admit_with_workspace_options 1 hello None false (start, fresh_local)).
Local Notation again := (admit_with_workspace_options 1 hello None false (state_of first, local_of first)).

Definition run0 : AdmittedRun :=
  {| ar_run_id := "id-0"; ar_session_id := "id-3"; ar_status := "started"; ar_replayed := false |}.

Lemma first_admitted :
  admit_with_workspace_options 1 hello None false (start, fresh_local) =
  Some ((state_of first, local_of first), Ok run0).
Proof.
  assert (result_of first = Ok run0) as <- by (vm_compute; reflexivity).
  apply (answered first). vm_compute. reflexivity.
Qed.

Lemma again_answered :
  admit_with_workspace_options 1 hello None false (state_of first, local_of first) =
  Some ((state_of again, local_of again), result_of again).
Proof. apply (answered again). vm_compute. reflexivity. Qed.

Lemma admission_durable_before_visible_witness :
  exists effects, l_effects (local_of first) = [] ++ effects /\ visible run0 (state_of first) /\
    exists payload, effects = [EDurable "id-0" payload true; EPublish "id-0"] /\ creates run0 payload.
Proof.
  apply (admission_durable_before_visible 1 hello None false start fresh_local (state_of first) (local_of first)
           (Ok run0) first_admitted).
Defined.

Lemma admission_conserves_capacity_witness : capacity (state_of first) = 2.
Proof.
  apply (admission_conserves_capacity ltac:(done) ltac:(done) 1 hello None false start fresh_local
           (state_of first) (local_of first) (Ok run0) ltac:(done) first_admitted).
Defined.

Lemma admission_keeps_store_live_witness : live (a_store (state_of first)).
Proof.
  apply (admission_keeps_store_live 1 hello None false start fresh_local (state_of first) (local_of first) (Ok run0)
           (fun _ _ Hl => Hl) first_admitted). split; intros k x Hx; cbn in Hx; by rewrite lookup_empty in Hx.
Defined.

Lemma refused_admission_leaves_memory_witness : memory (state_of again) = memory (state_of first).
Proof.
  apply (refused_admission_leaves_memory 1 hello None false (state_of first) (local_of first) (state_of again)
           (local_of again) (result_of again) ltac:(done) again_answered). vm_compute. reflexivity.
Defined.

Lemma idempotency_key_names_one_run_witness :
  l_effects (local_of again) = l_effects (local_of first) /\
  result_of again = Ok {| ar_run_id := "id-0"; ar_session_id := "id-3"; ar_status := "started"; ar_replayed := true |}.
Proof.
  split; [|vm_compute; reflexivity].
  refine (proj1 (proj2 (idempotency_key_names_one_run 1 hello None false "key" "fnv64:0123456789abcdef"
           {| ir_request_hash := "fnv64:0123456789abcdef"; ir_run_id := "id-0"; ir_workspace_identity_json := None |}
           (state_of first) (local_of first) (state_of again) (local_of again) (result_of again) eq_refl eq_refl
           (fun _ _ Hk => Hk) _ again_answered))). vm_compute. reflexivity.
Defined.

Lemma admission_ends_by_deadline_witness :
  exists answer, admit_blocking 1001 hello None false (start, fresh_local) = Some answer.
Proof.
  apply (admission_ends_by_deadline hello None false start fresh_local 1000); [vm_compute; discriminate..|].
  intros j Hj. change (0 + 1000 <= Z.of_nat j)%Z. change (l_instants fresh_local) with 0 in Hj. lia.
Defined.

(** What the first run leaves: its context, its session, the payload of its
    creation and its row. *)
Definition context0 : option RunContext := a_contexts (state_of first) !! ar_run_id run0.
Definition session0 : option SessionRecord := gs_sessions (a_store (state_of first)) !! ar_session_id run0.
Definition payload0 : option Json :=
  match l_effects (local_of first) with EDurable _ payload _ :: _ => Some payload | _ => None end.
Definition rows0 : Json := match run_get (ar_run_id run0) (a_durable (state_of first)) with (_, Ok data) => data | _ => JNull end.

#[local] Instance parsed_eq_dec : EqDecision (result Json string).
Proof. solve_decision. Defined.
#[local] Instance readable_decision c messages : Decision (readable c messages).
Proof. unfold readable. apply _. Defined.
#[local] Instance row_records_decision payload r : Decision (row_records payload r).
Proof. unfold row_records. apply _. Defined.

Definition resumable (c : option RunContext) (session : option SessionRecord) (payload : option Json) (r : option row) : bool :=
  match c, session, payload, r with
  | Some c, Some session, Some payload, Some r =>
      bool_decide (readable c (sr_messages session)) && bool_decide (row_records payload r)
  | _, _, _, _ => false
  end.
Lemma resumable0 : resumable context0 session0 payload0 (sqlite_storage_first_row rows0) = true.
Proof. vm_compute. reflexivity. Qed.

Lemma admitted_context_resumes_witness :
  exists c session,
    context0 = Some c /\ session0 = Some session /\ readable c (sr_messages session) /\
    load_persisted_context (ar_run_id run0) (a_durable (state_of first)) (a_store (state_of first)) =
      (a_durable (state_of first), Ok (set_context_messages (resumed_messages (sr_messages session)) c)).
Proof.
  destruct (admitted_context_resumes 1 hello None false start fresh_local _ _ run0 eq_refl first_admitted eq_refl)
    as (payload & c & session & Ep & Ec & Es & Resume).
  assert (Hc : context0 = Some c) by (unfold context0; exact Ec).
  assert (Hs : session0 = Some session) by (unfold session0; exact Es).
  assert (Ey : payload0 = Some payload) by (unfold payload0; rewrite Ep; reflexivity).
  pose proof resumable0 as B. rewrite Hc, Hs, Ey in B.
  exists c, session. split; [exact Hc|]. split; [exact Hs|].
  destruct (sqlite_storage_first_row rows0) as [r|] eqn:Er; [|discriminate B].
  apply andb_true_iff in B as [Rd Rc]. apply bool_decide_eq_true in Rd, Rc. split; [exact Rd|].
  exact (Resume (a_durable (state_of first)) _ rows0 r Rd eq_refl Er Rc).
Defined.

(** Choosing the workspace for the session of the first run, which is active,
    and for it once the run is over. *)
Definition over : AState :=
  let s := state_of first in
  set_store {| gs_sessions := gs_sessions (a_store s);
               gs_runs := (fun r => {| rr_run_id := rr_run_id r; rr_session_id := rr_session_id r;
                                       rr_parent_run_id := rr_parent_run_id r; rr_status := "completed";
                                       rr_events := rr_events r; rr_sender := rr_sender r;
                                       rr_cancel_requested := rr_cancel_requested r |}) <$> gs_runs (a_store s);
               gs_jobs := gs_jobs (a_store s); gs_idempotency := gs_idempotency (a_store s) |} s.

Example active_session_not_bound :
  snd (bind_session_workspace "id-3" "work" (state_of first, local_of first)) = Err ActiveRun.
Proof. vm_compute. reflexivity. Qed.

Lemma workspace_binding_atomic_witness :
  exists view, snd (bind_session_workspace "id-3" "work" (over, local_of first)) = Ok view /\
    bound "id-3" over view (fst (fst (bind_session_workspace "id-3" "work" (over, local_of first)))).
Proof.
  destruct (bind_session_workspace "id-3" "work" (over, local_of first)) as [[s' l'] [view|e]] eqn:E.
  - exists view. split; [done|]. apply (workspace_binding_atomic "id-3" "work" over (local_of first) s' l' (Ok view) ltac:(done) E).
  - exfalso. apply (f_equal (fun x => is_ok (snd x))) in E. vm_compute in E. discriminate.
Defined.

End Alone.

(** ** A session that disappears *)

Definition hello_again : AdmitRunRequest := {|
  rq_input := JString "hello"; rq_session_id := Some "chat"; rq_model := None; rq_provider := None;
  rq_parent_run_id := None; rq_instructions := None; rq_platform := "api"; rq_idempotency_key := None;
  rq_idempotency_hash := None |}.

Definition chat : SessionRecord := {|
  sr_view := {| sv_id := "chat"; sv_object := "hermes.session"; sv_title := None; sv_model := "model";
                sv_provider := None; sv_source := "telegram"; sv_system_prompt := None; sv_workspace := None;
                sv_created_at := 0; sv_updated_at := 0; sv_message_count := 0; sv_end_reason := None |};
  sr_messages := [] |}.

Definition with_chat : AState := set_store (insert_session "chat" chat (a_store start)) start.

(** Another thread deletes the session before the [k]-th acquisition. *)
Definition deleting (k n : nat) (s : AState) : AState :=
  if n =? k then
    set_store {| gs_sessions := delete "chat" (gs_sessions (a_store s)); gs_runs := gs_runs (a_store s);
                 gs_jobs := gs_jobs (a_store s); gs_idempotency := gs_idempotency (a_store s) |} s
  else s.

Section Deleting.
#[local] Instance deleting_12 : Interference := deleting 12.

(** The storage has accepted the run when its session disappears: the call is
    refused and nothing is published. *)
Example accepted_then_refused :
  let a := admit_with_workspace_options 1 hello_again None false (with_chat, fresh_local) in
  result_of a = Err SessionNotFound /\
  map (fun e => match e with EDurable id _ ok => Some (id, ok) | _ => None end) (l_effects (local_of a)) =
    [Some ("id-0", true)] /\
  a_handles (state_of a) = ∅.
Proof. vm_compute. split; [reflexivity|]. split; reflexivity. Qed.

End Deleting.

End AdmissionExample.

End AdmissionSpec.
