(* ===== verification/Provider.v ===== *)
(** * The durable provider ([src/durable_provider.rs], [src/service.rs])

    The host a run's script calls the model through.  A call is addressed by a
    turn.  A turn that is already answered is replayed from the store; a turn
    that was asked and not answered is asked again only when the stored request
    allows it; any other turn stores its request boundary first and is then
    sent.  What the provider answers is reduced to a canonical step, stored as
    one assistant message with its event, and handed to the script as it would
    be read back.

    The provider itself, the storage commands, identifiers and clock readings
    are inputs.  Other threads may change the store before each access
    ([ph_env]).  The two flags the tests use to stop a call half way are off. *)

From stdpp Require Import pretty.
From S2P Require Import Prelude Sha256 Utf8 Json Domain Store Events Delivery Commit.

Import Content.

(** ** Error envelopes ([src/runtime/agent_host.rs]) *)

Definition NON_RETRYABLE_ERROR_CODES : list string :=
  ["setup"; "config"; "adapter_unavailable"; "malformed_payload"; "scripted_exhausted"; "cancelled";
   "deadline_elapsed"; "adapter_failed"; "unsupported_parallel"; "unsupported_task";
   "provider_step_persist_failed"; "interrupted_provider"; "corrupt_provider_step"; "run_terminal";
   "missing_tool_parent"].

Definition TRANSIENT_ERROR_CODES : list string :=
  ["unavailable"; "timeout"; "rate_limited"; "overloaded"; "transport"].

Definition is_non_retryable_error_code (code : string) : bool := contains NON_RETRYABLE_ERROR_CODES code.

Definition error_is_retryable_code (code : string) : bool :=
  if is_non_retryable_error_code code then false else contains TRANSIENT_ERROR_CODES code.

Definition provider_error_is_retryable (error : Json) : bool :=
  let code := default EmptyString (jget "code" error ≫= as_str) in
  if is_non_retryable_error_code code then false
  else
    match jget "retryable" error ≫= as_bool with
    | Some flag => flag
    | None =>
        if error_is_retryable_code code then true
        else
          let status := default 0%Z (jget "status" error ≫= as_u64) in
          let error_type := default EmptyString (jget "type" error ≫= as_str) in
          (status =? 408)%Z || (status =? 429)%Z || ((500 <=? status) && (status <=? 599))%Z ||
          contains ["rate_limit_error"; "overloaded_error"; "server_error"; "timeout_error"] error_type
    end.

Definition error_type_for (code : string) : string :=
  if str_eqb code "malformed_payload" then "malformed_payload"
  else if str_eqb code "cancelled" || str_eqb code "deadline_elapsed" then "invalid_request_error"
  else "api_error".

Definition typed_fail (code message : string) : Json :=
  jobj [("ok", JBool false); ("response", jobj []);
        ("error", jobj [("status", JNumber (PosInt 0)); ("type", JString (error_type_for code));
                        ("code", JString code); ("message", JString message);
                        ("param", JString EmptyString); ("request_id", JString EmptyString);
                        ("retryable", JBool (error_is_retryable_code code))])].

Definition map_commit_error (error : EventCommitError) : Json :=
  match error with
  | Terminal => typed_fail "run_terminal" "run is terminal"
  | Cancelled => typed_fail "cancelled" "run was cancelled"
  | PersistFailed _ => typed_fail "provider_step_persist_failed" "failed to persist provider step"
  | MissingParent => typed_fail "missing_tool_parent" "tool result parent tool_call is missing"
  | Corrupt _ => typed_fail "corrupt_provider_step" "durable provider state is corrupt"
  end.

(** ** Requests *)

Definition PROVIDER_RETRY_BUDGET : Z := 2.

Definition SECRET_PROVIDER_REQUEST_KEYS : list string :=
  ["request"; "messages"; "prompt"; "provider_options"; "api_key"; "headers"; "body"; "authorization";
   "system"; "instructions"; "content"].

Definition SAFE_REQUEST_KEYS : list string :=
  ["model"; "provider"; "stream"; "max_output_tokens"; "tool_choice"].

Definition step_key_ok (key : string) : bool :=
  negb (is_empty key) && (slen key <=? 512)%Z && negb (existsb is_control (chars key)).

Fixpoint requested_payload_leaks_secrets (data : Json) : bool :=
  match data with
  | JObject m =>
      existsb (fun kv => contains SECRET_PROVIDER_REQUEST_KEYS (fst kv) ||
                         requested_payload_leaks_secrets (snd kv)) m
  | JArray items => existsb requested_payload_leaks_secrets items
  | _ => false
  end.

Definition without_secrets (payload : Json) : Json :=
  match payload with
  | JObject m => JObject (fold_left (fun m key => obj_remove key m) SECRET_PROVIDER_REQUEST_KEYS m)
  | other => other
  end.

(** [get(a).or_else(|| get(b))]. *)
Definition get_or (a b : string) (j : Json) : option Json :=
  match jget a j with Some v => Some v | None => jget b j end.

Definition is_object (j : Json) : bool := match j with JObject _ => true | _ => false end.
Definition is_null (j : Json) : bool := match j with JNull => true | _ => false end.
Definition is_string (j : Json) : bool := match j with JString _ => true | _ => false end.
Definition is_array (j : Json) : bool := match j with JArray _ => true | _ => false end.

(** ** Canonical steps *)

Record Usage := { us_input_tokens : Z; us_output_tokens : Z; us_total_tokens : Z }.

Record CanonicalProviderStep := {
  st_blocks : list LlmContentBlock;
  st_usage : option Usage;
  st_finish_reason : option string;
  st_model : option string;
  st_provider : option string;
  st_truncated : option bool;
  st_reasoning : option Json
}.

(** [LlmContentBlock { block_type: "text", text, truncated, ..default() }]. *)
Definition plain_text (t : string) (cut : option bool) : LlmContentBlock := {|
  block_type := "text"; text := Some t; tool_call_id := None; name := None; arguments_json := None;
  arguments := None; content := None; is_error := None; result_ := None; error := None;
  artifact := None; truncated := cut |}.

Definition call_block (id name' : option string) (args : option string) (value : option Json)
    (cut : option bool) : LlmContentBlock := {|
  block_type := "tool_call"; text := None; tool_call_id := id; name := name'; arguments_json := args;
  arguments := value; content := None; is_error := None; result_ := None; error := None;
  artifact := None; truncated := cut |}.

Definition parse_usage (value : Json) : option Usage :=
  if is_object value then
    Some {| us_input_tokens := default 0%Z (jget "input_tokens" value ≫= as_u64);
            us_output_tokens := default 0%Z (jget "output_tokens" value ≫= as_u64);
            us_total_tokens := default 0%Z (jget "total_tokens" value ≫= as_u64) |}
  else None.

Definition non_empty_str (o : option string) : option string :=
  match o with Some t => if is_empty t then None else Some t | None => None end.

Section Provider.
Context `{JT : JsonText, SR : StoreReaders, BS : BlockSerde}.

Definition canonical_provider_request_fingerprint (request : Json) : string :=
  let safe :=
    match request with
    | JObject object =>
        fold_left (fun safe key => match obj_get key object with
                                   | Some value => obj_insert key value safe
                                   | None => safe
                                   end) SAFE_REQUEST_KEYS []
    | _ => []
    end in
  "sha256:" +:+ Sha256.sha256_hex (s2b (json_text (JObject safe))).

Definition tool_call_block (call : Json) : LlmContentBlock :=
  let arguments_json := match jget "arguments_json" call ≫= as_str with
                        | Some raw => Some raw
                        | None => json_text <$> jget "arguments" call
                        end in
  let arguments := match jget "arguments" call with
                   | Some v => Some v
                   | None => match arguments_json with
                             | Some raw => match json_parse raw with Ok v => Some v | Err _ => None end
                             | None => None
                             end
                   end in
  call_block (get_or "id" "tool_call_id" call ≫= as_str) (jget "name" call ≫= as_str) arguments_json
    arguments (jget "truncated" call ≫= as_bool).

(** The checks [validate_provider_blocks] makes on one block. *)
Definition validate_provider_block (block : LlmContentBlock) : result unit EventCommitError :=
  if match text block with
     | Some t => bool_decide (MAX_DURABLE_TEXT_CHARS < length (chars t))
     | None => false
     end then Err (Corrupt "provider text exceeds durable bound")
  else if negb (str_eqb (block_type block) "tool_call") then Ok tt
  else
    let id := default EmptyString (tool_call_id block) in
    let name := default EmptyString (name block) in
    if is_empty id || is_empty name then Err (Corrupt "tool_call missing id or name")
    else if bool_decide (truncated block = Some true) then Err (Corrupt "tool_call arguments are truncated")
    else
      match arguments_json block with
      | None => Err (Corrupt "tool_call arguments_json is missing")
      | Some args_json =>
          if (Z.of_nat MAX_DURABLE_TEXT_CHARS <? slen args_json)%Z then
            Err (Corrupt "tool_call arguments exceed durable bound")
          else if negb (str_valid args_json) then
            Err (Corrupt "tool_call arguments_json is not valid UTF-8")
          else
            match json_parse args_json with
            | Err _ => Err (Corrupt "tool_call arguments_json is not JSON")
            | Ok parsed =>
                if is_object parsed then Ok tt
                else Err (Corrupt "tool_call arguments must be a JSON object")
            end
      end.

Fixpoint validate_provider_blocks (blocks : list LlmContentBlock) : result unit EventCommitError :=
  match blocks with
  | [] => Ok tt
  | block :: blocks => let? _ := validate_provider_block block in validate_provider_blocks blocks
  end.

Definition parse_strict_tool_arguments (map : list (string * Json)) :
    result (option string * option Json) EventCommitError :=
  match obj_get "arguments_json" map with
  | Some raw =>
      let? text := ok_or (as_str raw) (Corrupt "tool_call arguments_json must be a string") in
      match json_parse text with
      | Err _ => Err (Corrupt "tool_call arguments_json is not JSON")
      | Ok parsed =>
          if is_object parsed then Ok (Some text, None)
          else Err (Corrupt "tool_call arguments must be a JSON object")
      end
  | None =>
      match obj_get "arguments" map with
      | Some arguments =>
          if is_object arguments then Ok (Some (json_text arguments), None)
          else Err (Corrupt "tool_call arguments must be a JSON object")
      | None => Err (Corrupt "tool_call arguments_json is missing")
      end
  end.

Definition decode_provider_block_strict (value : Json) : result LlmContentBlock EventCommitError :=
  match value with
  | JObject [] => Err (Corrupt "provider content block must not be empty")
  | JObject map =>
      match obj_get "type" map ≫= as_str with
      | None => Err (Corrupt "provider content block is missing type")
      | Some block_type =>
          if str_eqb block_type "text" then
            match obj_get "text" map ≫= as_str with
            | None => Err (Corrupt "text block requires string text")
            | Some text => Ok (plain_text text (obj_get "truncated" map ≫= as_bool))
            end
          else if str_eqb block_type "tool_call" then
            let id := default EmptyString (get_or "tool_call_id" "id" value ≫= as_str) in
            let name := default EmptyString (obj_get "name" map ≫= as_str) in
            if is_empty id || is_empty name then Err (Corrupt "tool_call missing id or name")
            else if bool_decide (obj_get "truncated" map ≫= as_bool = Some true) then
              Err (Corrupt "tool_call arguments are truncated")
            else
              let? args := parse_strict_tool_arguments map in
              Ok (call_block (Some id) (Some name) (fst args) (snd args)
                    (obj_get "truncated" map ≫= as_bool))
          else Err (Corrupt ("unknown provider content block type: " +:+ block_type))
      end
  | _ => Err (Corrupt "provider content block must be an object")
  end.

Definition decode_provider_blocks_strict (content : Json) : result (list LlmContentBlock) EventCommitError :=
  match content with
  | JArray items => try_map decode_provider_block_strict items
  | _ => Err (Corrupt "provider content must be a canonical block array")
  end.

Definition canonical_provider_step (response request : Json) : result CanonicalProviderStep Json :=
  let? blocks := match jget "content" response with
                 | Some content => map_err map_commit_error (decode_provider_blocks_strict content)
                 | None => Ok []
                 end in
  let blocks := match blocks, jget "text" response ≫= as_str with
                | [], Some t => if is_empty t then [] else [plain_text t None]
                | blocks, _ => blocks
                end in
  let has_tool_call := existsb (fun block => str_eqb (block_type block) "tool_call") blocks in
  let blocks := if has_tool_call then blocks
                else match jget "tool_calls" response ≫= as_array with
                     | Some calls => blocks ++ map tool_call_block calls
                     | None => blocks
                     end in
  let blocks := match blocks with
                | [] => [plain_text (default EmptyString (jget "text" response ≫= as_str)) None]
                | blocks => blocks
                end in
  let own (key : string) := match jget key response with Some v => Some v | None => jget key request end in
  Ok {| st_blocks := blocks;
        st_usage := jget "usage" response ≫= parse_usage;
        st_finish_reason := get_or "stop_reason" "finish_reason" response ≫= as_str;
        st_model := non_empty_str (own "model" ≫= as_str);
        st_provider := non_empty_str (own "provider" ≫= as_str);
        st_truncated := jget "truncated" response ≫= as_bool;
        st_reasoning := match jget "reasoning" response with
                        | Some JNull => None
                        | Some (JString t) => if is_empty t then None else Some (JString t)
                        | other => other
                        end |}.

(** [value] is there and is neither of the kind nor, when allowed, null. *)
Definition misfit (kind : Json -> bool) (value : option Json) : bool :=
  match value with Some v => negb (kind v) && negb (is_null v) | None => false end.

Definition is_u64_value (v : Json) : bool := match as_u64 v with Some _ => true | None => false end.

Definition canonical_provider_step_from_envelope (envelope request : Json) :
    result CanonicalProviderStep Json :=
  match jget "response" envelope with
  | None => Err (typed_fail "malformed_payload" "provider response is missing")
  | Some response =>
      if negb (is_object response) then
        Err (typed_fail "malformed_payload" "provider response must be an object")
      else if misfit is_string (get_or "stop_reason" "finish_reason" response) then
        Err (typed_fail "malformed_payload" "finish_reason must be a string")
      else
        let? _ := match jget "usage" response with
                  | Some usage =>
                      if negb (is_object usage) then
                        Err (typed_fail "malformed_payload" "usage must be an object")
                      else if existsb (fun key => misfit is_u64_value (jget key usage))
                                ["input_tokens"; "output_tokens"; "total_tokens"] then
                        Err (typed_fail "malformed_payload" "usage fields must be non-negative integers")
                      else Ok tt
                  | None => Ok tt
                  end in
        if misfit is_array (jget "tool_calls" response) then
          Err (typed_fail "malformed_payload" "tool_calls must be an array")
        else canonical_provider_step response request
  end.

(** ** Reading a step back *)

(** What one block adds to the text and the calls of a response. *)
Definition read_block (acc : string * list Json) (block : LlmContentBlock) :
    result (string * list Json) EventCommitError :=
  let '(out, tool_calls) := acc in
  if str_eqb (block_type block) "text" then
    Ok (match text block with Some piece => out +:+ piece | None => out end, tool_calls)
  else if str_eqb (block_type block) "tool_call" then
    match arguments_json block with
    | None => Err (Corrupt "missing tool_call arguments_json")
    | Some args_json =>
        match json_parse args_json with
        | Err _ => Err (Corrupt "invalid tool_call arguments_json")
        | Ok arguments =>
            if negb (is_object arguments) then Err (Corrupt "tool_call arguments must be a JSON object")
            else
              let id := default EmptyString (tool_call_id block) in
              let name := default EmptyString (name block) in
              if is_empty id || is_empty name then Err (Corrupt "tool_call missing id or name")
              else Ok (out, tool_calls ++ [jobj [("id", JString id); ("name", JString name);
                                                 ("arguments", arguments);
                                                 ("arguments_json", JString args_json)]])
        end
    end
  else Err (Corrupt "unknown provider content block type").

Definition insert_opt (key : string) (value : option Json) (m : list (string * Json)) :=
  match value with Some v => obj_insert key v m | None => m end.

(** [filter(|value| value.as_str().is_none_or(|text| !text.is_empty()))]. *)
Definition not_empty_text (value : option Json) : option Json :=
  match value with
  | Some (JString t) => if is_empty t then None else Some (JString t)
  | other => other
  end.

Definition reconstruct_provider_envelope (content metadata : Json) (finish_reason : option string) :
    result Json EventCommitError :=
  let? blocks := decode_provider_blocks_strict content in
  let? _ := validate_provider_blocks blocks in
  let? read := try_fold read_block (EmptyString, []) blocks in
  let response := obj_insert "text" (JString (fst read)) [] in
  let response := obj_insert "tool_calls" (JArray (snd read)) response in
  let response := insert_opt "stop_reason" (JString <$> finish_reason) response in
  let response := insert_opt "finish_reason" (JString <$> finish_reason) response in
  let response := insert_opt "usage" (jget "usage" metadata) response in
  let response := insert_opt "model" (not_empty_text (jget "model" metadata)) response in
  let response := insert_opt "provider" (not_empty_text (jget "provider" metadata)) response in
  let response := insert_opt "truncated" (jget "truncated" metadata) response in
  let response := insert_opt "reasoning" (jget "reasoning" metadata) response in
  Ok (jobj [("ok", JBool true); ("response", JObject response); ("error", jobj [])]).

(** ** The run's log *)

Definition event_turn (e : GatewayEvent) : option Z := jget "turn" (ge_data e) ≫= as_u64.

Definition of_turn (turn : Z) (e : GatewayEvent) : bool := bool_decide (event_turn e = Some turn).

Definition provider_failure_is_retryable (e : GatewayEvent) : bool :=
  bool_decide (jget "retryable" (ge_data e) ≫= as_bool = Some true).

(** The retryable failures recorded for a turn. *)
Definition retryable_failures (run : RunRecord) (turn : Z) : nat :=
  length (List.filter (fun e => str_eqb (ge_event e) "model.failed" && of_turn turn e &&
                                provider_failure_is_retryable e) (rr_events run)).

Definition run_refuses_pending_provider (run : RunRecord) : bool :=
  if contains ["completed"; "cancelled"; "terminal_pending"] (rr_status run) then true
  else if str_eqb (rr_status run) "failed" then
    negb (existsb (fun e => str_eqb (ge_event e) "run.failed" &&
                            bool_decide (jget "error_code" (ge_data e) ≫= as_str = Some "gateway_restart"))
            (rr_events run))
  else false.

Inductive ProviderPendingDecision := Retry | Replay | Interrupted | RefusedTerminal.

Definition provider_pending_decision (store : GatewayStore) (run_id : string) (turn : Z) (request : Json) :
    ProviderPendingDecision :=
  match gs_runs store !! run_id with
  | None => Interrupted
  | Some run =>
      let requested_id := durable_provider_event_id run_id turn "model.requested" in
      let completed_id := durable_provider_event_id run_id turn "model.completed" in
      let interrupted_id := durable_provider_event_id run_id turn "interrupted_provider" in
      if has_event run completed_id then Replay
      else if existsb (fun e => str_eqb (ge_event_id e) interrupted_id ||
                                (str_eqb (ge_event e) "model.failed" && of_turn turn e &&
                                 negb (provider_failure_is_retryable e))) (rr_events run) then Interrupted
      else if run_refuses_pending_provider run then RefusedTerminal
      else
        match List.find (fun e => str_eqb (ge_event_id e) requested_id) (rr_events run) with
        | None => Interrupted
        | Some requested =>
            let data := ge_data requested in
            let retry_safe := match jget "retry_safe" data ≫= as_bool with
                              | Some b => Some b
                              | None => jget "idempotent" data ≫= as_bool
                              end in
            let current_fingerprint := canonical_provider_request_fingerprint request in
            let fingerprint_ok :=
              bool_decide (jget "request_fingerprint" data ≫= as_str = Some current_fingerprint) &&
              starts_with (s2b current_fingerprint) (s2b "sha256:") in
            if negb (bool_decide (retry_safe = Some true)) || negb fingerprint_ok ||
               requested_payload_leaks_secrets data then Interrupted
            else
              let has_effect := existsb (fun e => (ge_seq requested <? ge_seq e)%Z &&
                                                  starts_with (s2b (ge_event e)) (s2b "tool."))
                                  (rr_events run) in
              if provider_pending_may_retry false true has_effect &&
                 (Z.of_nat (retryable_failures run turn) <=? PROVIDER_RETRY_BUDGET)%Z
              then Retry else Interrupted
        end
  end.

(** The loop of [provider_turn_for_step]: the turn it returns at once, or what
    it has found and the highest turn seen. *)
Fixpoint turn_scan (run : RunRecord) (run_id key : string) (positional : Z) (request : Json)
    (events : list GatewayEvent) (found : option Z) (max_turn : Z) :
    result (Z + option Z * Z) EventCommitError :=
  match events with
  | [] => Ok (inr (found, max_turn))
  | e :: events =>
      let max_turn := if starts_with (s2b (ge_event e)) (s2b "model.")
                      then Z.max max_turn (default 0%Z (event_turn e)) else max_turn in
      if str_eqb (ge_event e) "model.requested" then
        let? turn := ok_or (event_turn e) (Corrupt "provider turn is missing") in
        match jget "step_key" (ge_data e) with
        | Some (JString stored) =>
            if str_eqb stored key then
              if bool_decide (jget "request_fingerprint" (ge_data e) ≫= as_str =
                              Some (canonical_provider_request_fingerprint request)) then
                match found with
                | Some _ => Err (Corrupt "provider step identity is duplicated")
                | None => turn_scan run run_id key positional request events (Some turn) max_turn
                end
              else Err (Corrupt "provider step request identity changed")
            else turn_scan run run_id key positional request events found max_turn
        | None =>
            if (turn =? positional)%Z then
              if has_event run (durable_provider_event_id run_id turn "model.completed") then
                Err (Corrupt "legacy completed step has no caller identity")
              else Ok (inl turn)
            else turn_scan run run_id key positional request events found max_turn
        | Some _ => Err (Corrupt "provider step identity is invalid")
        end
      else turn_scan run run_id key positional request events found max_turn
  end.

Definition provider_turn_for_step (store : GatewayStore) (run_id key : string) (positional : Z)
    (request : Json) : result Z EventCommitError :=
  let? run := ok_or (gs_runs store !! run_id) Terminal in
  let? scanned := turn_scan run run_id key positional request (rr_events run) None 0 in
  match scanned with
  | inl turn => Ok turn
  | inr (Some turn, _) => Ok turn
  | inr (None, max_turn) =>
      if (positional <=? max_turn)%Z &&
         match rr_events run with e :: _ => (1 <? ge_seq e)%Z | [] => false end then
        Err (Corrupt "provider replay identity was pruned")
      else if (max_turn =? u64_max)%Z then Err (Corrupt "provider turn overflow")
      else Ok (max_turn + 1)%Z
  end.

Definition has_provider_request (store : GatewayStore) (run_id : string) (turn : Z) : bool :=
  match gs_runs store !! run_id with
  | None => false
  | Some run => has_event run (durable_provider_event_id run_id turn "model.requested")
  end.

Definition next_provider_attempt (store : GatewayStore) (run_id : string) (turn : Z) : Z :=
  match gs_runs store !! run_id with
  | None => 1
  | Some run =>
      let failed := List.filter (fun e => str_eqb (ge_event e) "model.failed" && of_turn turn e)
                      (rr_events run) in
      let max_attempt := foldr Z.max 0%Z (omap (fun e => jget "attempt" (ge_data e) ≫= as_u64) failed) in
      Z.min (max_attempt + 1) u64_max
  end.

Definition turn_message_id (run_id : string) (turn : Z) : string :=
  durable_message_id run_id "turn" (pretty turn).

Definition find_message (store : GatewayStore) (session_id message_id : string) : option SessionMessage :=
  gs_sessions store !! session_id ≫=
  (fun session => List.find (fun m => str_eqb (sm_id m) message_id) (sr_messages session)).

Definition incomplete_step : EventCommitError := Corrupt "durable provider step is incomplete".

Definition replay_provider_envelope (store : GatewayStore) (run_id : string) (turn : Z) :
    result (option Json) EventCommitError :=
  match gs_runs store !! run_id with
  | None => Err Terminal
  | Some run =>
      let completed_id := durable_provider_event_id run_id turn "model.completed" in
      match List.find (fun e => str_eqb (ge_event_id e) completed_id) (rr_events run),
            find_message store (rr_session_id run) (turn_message_id run_id turn) with
      | None, None => Ok None
      | Some e, Some message =>
          if str_eqb (sm_role message) "assistant" then
            let finish_reason := match sm_finish_reason message with
                                 | Some f => Some f
                                 | None => jget "finish_reason" (ge_data e) ≫= as_str
                                 end in
            result_map Some
              (reconstruct_provider_envelope (sm_content message) (sm_metadata message) finish_reason)
          else Err incomplete_step
      | _, _ => Err incomplete_step
      end
  end.

Record ProviderCommit := { pc_message_id : string; pc_envelope : Json }.

Inductive ProviderCommitOutcome := Inserted (c : ProviderCommit) | Existing (c : ProviderCommit).

Definition existing_provider_commit (store : GatewayStore) (run : RunRecord) (message_id : string) :
    result ProviderCommitOutcome EventCommitError :=
  match find_message store (rr_session_id run) message_id with
  | None => Err incomplete_step
  | Some message =>
      if negb (str_eqb (sm_role message) "assistant") then Err incomplete_step
      else
        let? envelope := reconstruct_provider_envelope (sm_content message) (sm_metadata message)
                           (sm_finish_reason message) in
        Ok (Existing {| pc_message_id := message_id; pc_envelope := envelope |})
  end.

(** ** The service's provider operations *)

(** What the host is built with. *)
Class ProviderHost := {
  PD : Type;
  ph_event_append : Json -> PD -> PD * result Json string;
  ph_step_commit : Json -> PD -> PD * result Json string;
  ph_event_append_pair : Json -> PD -> PD * result Json string;
  ph_uuids : nat -> string;
  ph_times : nat -> Z;
  ph_persistence : bool;
  ph_max_event_bytes : Z;
  ph_max_events_per_run : nat;
  ph_inner : nat -> Json -> Json;
  ph_env : nat -> GatewayStore -> GatewayStore
}.

Context `{PH : ProviderHost}.

Definition CState : Type := CommitState (D := PD).

Definition provider_persist (reserved : ReservedCommit) (s : CState) :
    CState * result unit EventCommitError :=
  persist_and_apply ph_event_append ph_step_commit ph_event_append_pair ph_persistence reserved
    (ph_times (S (cs_ticks s))) (spend 1 2 s).

(** [event_candidate(..)] with its identifier replaced. *)
Definition named_event (s : CState) (run : RunRecord) (event_id event_type : string) (data : Json) :
    GatewayEvent :=
  let e := event_candidate (ph_uuids (cs_ids s)) (ph_times (cs_ticks s)) run event_type data
             ph_max_event_bytes in
  {| ge_event_id := event_id; ge_seq := ge_seq e; ge_event := ge_event e; ge_run_id := ge_run_id e;
     ge_timestamp := ge_timestamp e; ge_data := ge_data e |}.

Definition reserve_provider_event (run_id event_id event_type : string) (payload : Json)
    (run : RunRecord) (s : CState) : ReservedCommit :=
  let event := named_event s run event_id event_type payload in
  {| rc_event := event; rc_message := None;
     rc_persist_payload :=
       jobj [("run_id", JString run_id); ("session_id", JString (rr_session_id run));
             ("event_id", JString event_id); ("event_type", JString event_type);
             ("payload_json", JString (json_text (ge_data event)));
             ("now_ms", JNumber (PosInt (ge_timestamp event)));
             ("max_events", JNumber (PosInt (Z.of_nat ph_max_events_per_run)));
             ("seq", JNumber (PosInt (ge_seq event)))];
     rc_kind := EventAppend; rc_max_events_per_run := ph_max_events_per_run |}.

Definition persist_provider_event (run_id event_id event_type : string) (payload : Json) (s : CState) :
    CState * result unit EventCommitError :=
  match gs_runs (cs_store s) !! run_id with
  | None => (s, Err Terminal)
  | Some run =>
      if has_event run event_id then (s, Ok tt)
      else if str_eqb (rr_status run) "cancelled" then (s, Err Cancelled)
      else if run_refuses_pending_provider run then (s, Err Terminal)
      else provider_persist (reserve_provider_event run_id event_id event_type payload run s) s
  end.

Definition request_payload (turn attempt : Z) (request_is_idempotent : bool) (request : Json) : Json :=
  jobj [("turn", JNumber (PosInt turn)); ("attempt", JNumber (PosInt attempt));
        ("request_fingerprint", JString (canonical_provider_request_fingerprint request));
        ("retry_safe", JBool request_is_idempotent)].

Definition commit_provider_request (run_id : string) (turn attempt : Z) (request_is_idempotent : bool)
    (request : Json) (s : CState) : CState * result unit EventCommitError :=
  let event_id := durable_provider_event_id run_id turn "model.requested" in
  let payload := request_payload turn attempt request_is_idempotent request in
  match (match jget "_provider_step_key" request with
         | None => Ok payload
         | Some value =>
             match as_str value with
             | Some key => if step_key_ok key then Ok (jset "step_key" (JString key) payload)
                           else Err (Corrupt "provider step identity is invalid")
             | None => Err (Corrupt "provider step identity is invalid")
             end
         end) with
  | Err e => (s, Err e)
  | Ok payload => persist_provider_event run_id event_id "model.requested" (without_secrets payload) s
  end.

Definition persist_interrupted_provider (run_id : string) (turn : Z) (s : CState) :
    CState * result unit EventCommitError :=
  persist_provider_event run_id (durable_provider_event_id run_id turn "interrupted_provider")
    "model.failed"
    (jobj [("turn", JNumber (PosInt turn)); ("error_code", JString "interrupted_provider");
           ("retryable", JBool false)]) s.

Definition failure_payload (turn attempt : Z) (code : string) (status : option Z) (retryable : bool) : Json :=
  let payload := jobj [("turn", JNumber (PosInt turn)); ("attempt", JNumber (PosInt attempt));
                       ("error_code", JString (truncate_for_log code 64));
                       ("retryable", JBool retryable)] in
  match status with
  | Some status => jset "status" (JNumber (PosInt status)) payload
  | None => payload
  end.

Definition persist_provider_failure (run_id : string) (turn attempt : Z) (code : string)
    (status : option Z) (retryable : bool) (s : CState) : CState * result unit EventCommitError :=
  persist_provider_event run_id
    (durable_provider_event_id run_id turn ("model.failed:" +:+ pretty attempt)) "model.failed"
    (failure_payload turn attempt code status retryable) s.

(** The metadata of a stored step. *)
Definition step_metadata (turn : Z) (step : CanonicalProviderStep) : Json :=
  let m := obj_insert "turn" (JNumber (PosInt turn)) [] in
  let m := insert_opt "usage"
             ((fun u => jobj [("input_tokens", JNumber (PosInt (us_input_tokens u)));
                              ("output_tokens", JNumber (PosInt (us_output_tokens u)));
                              ("total_tokens", JNumber (PosInt (us_total_tokens u)))]) <$> st_usage step) m in
  let m := insert_opt "provider" (JString <$> non_empty_str (st_provider step)) m in
  let m := insert_opt "model" (JString <$> non_empty_str (st_model step)) m in
  let m := insert_opt "truncated" (JBool <$> st_truncated step) m in
  JObject (insert_opt "reasoning" (st_reasoning step) m).

(** [as i64] of a [u64]. *)
Definition u64_as_i64 (n : Z) : Z := if (n <=? i64_max)%Z then n else (n - 2 ^ 64)%Z.

Definition reserve_provider_step (run_id : string) (turn : Z) (content : Json)
    (step : CanonicalProviderStep) (run : RunRecord) (s : CState) : ReservedCommit :=
  let store := cs_store s in
  let event_id := durable_provider_event_id run_id turn "model.completed" in
  let message_id := turn_message_id run_id turn in
  let metadata := step_metadata turn step in
  let session_id := rr_session_id run in
  let finish := default EmptyString (st_finish_reason step) in
  let parent := gs_sessions store !! session_id ≫= (fun session => sm_id <$> last (sr_messages session)) in
  let event := named_event s run event_id "model.completed"
    (jobj [("turn", JNumber (PosInt turn)); ("finish_reason", JString finish);
           ("provider", JString (default EmptyString (st_provider step)));
           ("model", JString (default EmptyString (st_model step)))]) in
  let ordinal := next_message_ordinal <$> gs_sessions store !! session_id in
  let tokens := (fun u => u64_as_i64 (us_total_tokens u)) <$> st_usage step in
  {| rc_event := event;
     rc_message := Some {|
       sm_id := message_id; sm_session_id := session_id; sm_role := "assistant"; sm_content := content;
       sm_created_at := ge_timestamp event; sm_run_id := Some run_id;
       sm_finish_reason := st_finish_reason step; sm_name := None; sm_tool_call_id := None;
       sm_parent_message_id := parent; sm_token_estimate := tokens; sm_metadata := metadata;
       sm_ordinal := ordinal |};
     rc_persist_payload :=
       jobj [("run_id", JString run_id); ("session_id", JString session_id);
             ("event_id", JString event_id); ("event_type", JString "model.completed");
             ("payload_json", JString (json_text (ge_data event)));
             ("now_ms", JNumber (PosInt (ge_timestamp event)));
             ("max_events", JNumber (PosInt (Z.of_nat ph_max_events_per_run)));
             ("message_id", JString message_id); ("role", JString "assistant");
             ("content_json", JString (json_text content)); ("name", JString EmptyString);
             ("tool_call_id", JString EmptyString);
             ("parent_message_id", JString (default EmptyString parent));
             ("token_estimate", jint (default 0%Z tokens));
             ("metadata_json", JString (json_text metadata)); ("finish_reason", JString finish);
             ("seq", JNumber (PosInt (ge_seq event))); ("ordinal", jint (default 0%Z ordinal))];
     rc_kind := Step; rc_max_events_per_run := ph_max_events_per_run |}.

Definition commit_provider_step_with_meta (run_id : string) (turn : Z) (step : CanonicalProviderStep)
    (s : CState) : CState * result ProviderCommitOutcome EventCommitError :=
  let content := encode_message_content (st_blocks step) in
  match (let? _ := validate_provider_blocks (st_blocks step) in
         validate_provider_blocks (decode_message_blocks content)) with
  | Err e => (s, Err e)
  | Ok _ =>
      let event_id := durable_provider_event_id run_id turn "model.completed" in
      match gs_runs (cs_store s) !! run_id with
      | None => (s, Err Terminal)
      | Some run =>
          if has_event run event_id then
            (s, existing_provider_commit (cs_store s) run (turn_message_id run_id turn))
          else if str_eqb (rr_status run) "cancelled" then (s, Err Cancelled)
          else if run_refuses_pending_provider run then (s, Err Terminal)
          else
            match reconstruct_provider_envelope content (step_metadata turn step)
                    (st_finish_reason step) with
            | Err e => (s, Err e)
            | Ok envelope =>
                match provider_persist (reserve_provider_step run_id turn content step run s) s with
                | (s', Ok _) => (s', Ok (Inserted {| pc_message_id := turn_message_id run_id turn;
                                                     pc_envelope := envelope |}))
                | (s', Err e) => (s', Err e)
                end
            end
      end
  end.

(** ** The host *)

(** One call of the provider: its turn and attempt, what was sent, and the
    store as the host last saw it. *)
Record ProviderCall := {
  call_turn : Z;
  call_attempt : Z;
  call_request : Json;
  call_store : GatewayStore;
  call_trace : list CommitEffect
}.

Record PState := {
  ps_commit : CState;
  ps_turn : Z;
  ps_steps : nat;
  ps_calls : list ProviderCall;
  ps_model_calls : nat;
  ps_turns : nat;
  ps_truncations : nat
}.

Definition with_commit (c : CState) (s : PState) : PState := {|
  ps_commit := c; ps_turn := ps_turn s; ps_steps := ps_steps s; ps_calls := ps_calls s;
  ps_model_calls := ps_model_calls s; ps_turns := ps_turns s; ps_truncations := ps_truncations s |}.

Definition set_turn (turn : Z) (s : PState) : PState := {|
  ps_commit := ps_commit s; ps_turn := turn; ps_steps := ps_steps s; ps_calls := ps_calls s;
  ps_model_calls := ps_model_calls s; ps_turns := ps_turns s; ps_truncations := ps_truncations s |}.

Definition advance_turn (s : PState) : PState := set_turn (wrap64 (ps_turn s + 1)) s.

Definition record_turn (s : PState) : PState := {|
  ps_commit := ps_commit s; ps_turn := ps_turn s; ps_steps := ps_steps s; ps_calls := ps_calls s;
  ps_model_calls := ps_model_calls s; ps_turns := S (ps_turns s); ps_truncations := ps_truncations s |}.

(** What other threads do to the store before the host's next access. *)
Definition yield (s : PState) : PState := {|
  ps_commit := put_store (ph_env (ps_steps s) (cs_store (ps_commit s))) (ps_commit s);
  ps_turn := ps_turn s; ps_steps := S (ps_steps s); ps_calls := ps_calls s;
  ps_model_calls := ps_model_calls s; ps_turns := ps_turns s; ps_truncations := ps_truncations s |}.

(** A computation continues with a value, or has returned an envelope. *)
Definition PM (A : Type) : Type := FS PState Json A.

Definition pmodify (f : PState -> PState) : PM unit := fun s => (f s, Ok tt).

Definition or_fail {A} (r : result A EventCommitError) : PM A :=
  match r with Ok a => fs_ret a | Err e => fs_fail (map_commit_error e) end.

Definition read_store {A} (f : GatewayStore -> A) : PM A := fun s =>
  let s := yield s in (s, Ok (f (cs_store (ps_commit s)))).

Definition commit_op {A} (op : CState -> CState * result A EventCommitError) :
    PM (result A EventCommitError) := fun s =>
  let s := yield s in
  let '(c, r) := op (ps_commit s) in (with_commit c s, Ok r).

(** [AccountingProvider::call] around the raw provider. *)
Definition accounting_call (turn attempt : Z) (request : Json) : PM Json := fun s =>
  let envelope := ph_inner (length (ps_calls s)) request in
  let successful := bool_decide (jget "ok" envelope ≫= as_bool = Some true) in
  let cut := successful &&
             bool_decide ((jget "response" envelope ≫= jget "truncated") ≫= as_bool = Some true) in
  ({| ps_commit := ps_commit s; ps_turn := ps_turn s; ps_steps := ps_steps s;
      ps_calls := ps_calls s ++ [{| call_turn := turn; call_attempt := attempt; call_request := request;
                                    call_store := cs_store (ps_commit s);
                                    call_trace := cs_trace (ps_commit s) |}];
      ps_model_calls := S (ps_model_calls s); ps_turns := ps_turns s;
      ps_truncations := if cut then S (ps_truncations s) else ps_truncations s |}, Ok envelope).

Section Host.
Variable run_id : string.

Definition persist_classified_failure (turn attempt : Z) (envelope : Json) :
    PM (result unit EventCommitError) :=
  let error := default (jobj []) (jget "error" envelope) in
  let code := default "provider_error" (jget "code" error ≫= as_str) in
  let status := jget "status" error ≫= as_u64 in
  commit_op (persist_provider_failure run_id turn attempt code status (provider_error_is_retryable error)).

(** A failure is recorded, then handed to the script. *)
Definition fail_with (turn attempt : Z) (envelope : Json) : PM Json :=
  let* recorded := persist_classified_failure turn attempt envelope in
  let* _ := or_fail recorded in
  fs_fail envelope.

Definition step_key (request : Json) : PM (option string) :=
  match jget "_provider_step_key" request with
  | None => fs_ret None
  | Some (JString key) =>
      if step_key_ok key then fs_ret (Some key)
      else fs_fail (typed_fail "provider_step_identity_invalid" "provider step identity is invalid")
  | Some _ => fs_fail (typed_fail "provider_step_identity_invalid" "provider step identity is invalid")
  end.

(** The turn the request addresses. *)
Definition select_turn (request : Json) (key : option string) : PM Z := fun s =>
  match key with
  | None => (s, Ok (ps_turn s))
  | Some key =>
      let positional := ps_turn s in
      (let* turn := read_store (fun store => provider_turn_for_step store run_id key positional request) in
       or_fail turn) s
  end.

(** [replay_completed], returning the envelope it finds. *)
Definition replay_completed (turn : Z) : PM unit :=
  let* stored := read_store (fun store => replay_provider_envelope store run_id turn) in
  let* stored := or_fail stored in
  match stored with
  | Some envelope => let* _ := pmodify advance_turn in fs_fail envelope
  | None => fs_ret tt
  end.

Definition recover_pending_provider (turn : Z) (request : Json) :
    PM (result ProviderPendingDecision EventCommitError) :=
  let* decision := read_store (fun store => provider_pending_decision store run_id turn request) in
  match decision with
  | Replay | RefusedTerminal | Retry => fs_ret (Ok decision)
  | Interrupted =>
      let* persisted := commit_op (persist_interrupted_provider run_id turn) in
      fs_ret (let? _ := persisted in Ok Interrupted)
  end.

(** Everything before the provider may be called. *)
Definition open_turn (turn attempt : Z) (request : Json) : PM unit :=
  let* requested := read_store (fun store => has_provider_request store run_id turn) in
  if requested then
    let* decision := recover_pending_provider turn request in
    let* decision := or_fail decision in
    match decision with
    | Replay =>
        let* _ := replay_completed turn in
        fs_fail (map_commit_error incomplete_step)
    | Retry => fs_ret tt
    | Interrupted =>
        fs_fail (typed_fail "interrupted_provider" "pending provider request is not retryable")
    | RefusedTerminal =>
        fs_fail (typed_fail "cancelled" "run already committed a terminal state")
    end
  else
    let* stored := commit_op (commit_provider_request run_id turn attempt true request) in
    or_fail stored.

(** The private replay address never reaches the provider. *)
Definition transport_request (key : option string) (request : Json) : Json :=
  match key, request with
  | Some _, JObject m => JObject (obj_remove "_provider_step_key" m)
  | _, _ => request
  end.

(** What becomes of the provider's answer. *)
Definition close_turn (turn attempt : Z) (envelope request : Json) : PM Json :=
  if negb (bool_decide (jget "ok" envelope ≫= as_bool = Some true)) then fail_with turn attempt envelope
  else
    match canonical_provider_step_from_envelope envelope request with
    | Err failure => fail_with turn attempt failure
    | Ok step =>
        match validate_provider_blocks (st_blocks step) with
        | Err error => fail_with turn attempt (map_commit_error error)
        | Ok _ =>
            let* outcome := commit_op (commit_provider_step_with_meta run_id turn step) in
            let* outcome := or_fail outcome in
            match outcome with
            | Inserted commit =>
                let* _ := pmodify record_turn in
                let* _ := pmodify advance_turn in
                fs_ret (pc_envelope commit)
            | Existing commit =>
                let* _ := pmodify advance_turn in
                fs_ret (pc_envelope commit)
            end
        end
    end.

Definition call_body (request : Json) : PM Json :=
  let* key := step_key request in
  let* turn := select_turn request key in
  let* _ := pmodify (set_turn turn) in
  let* _ := replay_completed turn in
  let* attempt := read_store (fun store => next_provider_attempt store run_id turn) in
  let* _ := open_turn turn attempt request in
  let* envelope := accounting_call turn attempt (transport_request key request) in
  close_turn turn attempt envelope request.

(** [DurableProviderHost::call]. *)
Definition call (request : Json) (s : PState) : PState * Json :=
  match call_body request s with (s', Ok envelope) | (s', Err envelope) => (s', envelope) end.

(** [DurableProviderHost::new]: a host starts at turn one. *)
Definition new_host (c : CState) (steps : nat) : PState := {|
  ps_commit := c; ps_turn := 1; ps_steps := steps; ps_calls := []; ps_model_calls := 0; ps_turns := 0;
  ps_truncations := 0 |}.

End Host.
End Provider.
