(* ===== verification/ProviderSpec.v ===== *)
(** * What the durable provider guarantees

    Theorems on [Provider]: the provider is called only behind a stored request
    boundary and within the retry budget; an answered turn is replayed, word
    for word, without the provider; what is stored of a request depends on its
    safe fields alone; a canonical step survives storage; a step key keeps its
    turn. *)

From stdpp Require Import pretty.
From S2P Require Import Prelude Sha256 Utf8 Json Domain Store Events Delivery Commit CommitSpec Provider.

Import Content.

Module ProviderSpec.

Section Spec.
Context `{JTL : JsonTextLaws, SR : StoreReaders, BS : BlockSerde, PH : ProviderHost}.

(** ** Running a computation *)

(** The computation does not call the provider. *)
Definition silent {A} (m : PM A) : Prop := forall s, ps_calls (fst (m s)) = ps_calls s.

Lemma silent_run {A} (m : PM A) s s' r : m s = (s', r) -> silent m -> ps_calls s' = ps_calls s.
Proof. intros Hm Hs. specialize (Hs s). by rewrite Hm in Hs. Qed.

Lemma silent_bind {A B} (m : PM A) (k : A -> PM B) :
  silent m -> (forall a, silent (k a)) -> silent (fs_bind m k).
Proof.
  intros Hm Hk s. unfold fs_bind. specialize (Hm s). destruct (m s) as [s1 [a|e]]; cbn in *; [|done].
  by rewrite Hk.
Qed.

Lemma silent_ret {A} (a : A) : silent (fs_ret a).
Proof. done. Qed.

Lemma silent_return {A} e : silent (fs_fail (A := A) e).
Proof. done. Qed.

Lemma silent_read {A} (f : GatewayStore -> A) : silent (read_store f).
Proof. done. Qed.

Lemma silent_commit {A} (op : CState -> CState * result A EventCommitError) : silent (commit_op op).
Proof. intros s. unfold commit_op. by destruct (op _). Qed.

Lemma silent_or_fail {A} (r : result A EventCommitError) : silent (or_fail r).
Proof. by destruct r. Qed.

Lemma silent_modify f : (forall s, ps_calls (f s) = ps_calls s) -> silent (pmodify f).
Proof. intros Hf s. apply Hf. Qed.
End Spec.

Create HintDb silent.
#[export] Hint Resolve silent_bind silent_ret silent_return silent_read silent_commit silent_or_fail : silent.

Ltac silent :=
  repeat match goal with
  | |- silent (fs_bind _ _) => apply silent_bind; [|intros]
  | |- silent (pmodify _) => apply silent_modify; done
  | |- silent (match ?x with _ => _ end) => destruct x
  | |- silent _ => solve [eauto with silent]
  end.

Section Host.
Context `{JTL : JsonTextLaws, SR : StoreReaders, BS : BlockSerde, PH : ProviderHost}.
Variable run_id : string.

Lemma silent_replay turn : silent (replay_completed run_id turn).
Proof. unfold replay_completed. silent. Qed.

Lemma silent_step_key request : silent (step_key request).
Proof. unfold step_key. silent. Qed.

Lemma silent_select request key : silent (select_turn run_id request key).
Proof.
  unfold select_turn. destruct key as [key|]; [|done]. intros s.
  match goal with |- ps_calls (fst (?m s)) = _ => assert (silent m) as Hm by silent; apply Hm end.
Qed.

Lemma silent_fail turn attempt envelope : silent (fail_with run_id turn attempt envelope).
Proof. unfold fail_with, persist_classified_failure. silent. Qed.

#[local] Hint Resolve silent_replay silent_step_key silent_select silent_fail : silent.

Lemma silent_open turn attempt request : silent (open_turn run_id turn attempt request).
Proof. unfold open_turn, recover_pending_provider. silent. Qed.

Lemma silent_close turn attempt envelope request : silent (close_turn run_id turn attempt envelope request).
Proof. unfold close_turn. silent. Qed.

(** A call either stays away from the provider or goes through all its steps. *)
Lemma call_inv request s s' answer :
  call run_id request s = (s', answer) ->
  ps_calls s' = ps_calls s \/
  exists key turn attempt s1 s2 s3,
    step_key request s = (s, Ok key) /\
    select_turn run_id request key s = (s1, Ok turn) /\
    replay_completed run_id turn (set_turn turn s1) = (s2, Ok tt) /\
    attempt = next_provider_attempt (cs_store (ps_commit (yield s2))) run_id turn /\
    open_turn run_id turn attempt request (yield s2) = (s3, Ok tt) /\
    let sent := transport_request key request in
    let s4 := fst (accounting_call turn attempt sent s3) in
    exists r, close_turn run_id turn attempt (ph_inner (length (ps_calls s)) sent) request s4 = (s', r) /\
              (r = Ok answer \/ r = Err answer) /\
    ps_calls s3 = ps_calls s /\
    ps_calls s' = ps_calls s ++ [{| call_turn := turn; call_attempt := attempt; call_request := sent;
                                    call_store := cs_store (ps_commit s3);
                                    call_trace := cs_trace (ps_commit s3) |}].
Proof.
  unfold call. destruct (call_body run_id request s) as [s'' r] eqn:Hb. intros Hc.
  assert (s'' = s' /\ (r = Ok answer \/ r = Err answer)) as [-> Hr] by (destruct r; naive_solver).
  clear Hc. unfold call_body in Hb.
  apply fs_bind_inv in Hb as [(s0 & key & Hk & Hb)|(e & Hb & _)];
    [|left; by apply (silent_run _ _ _ _ Hb (silent_step_key _))].
  assert (s0 = s) as -> by (unfold step_key, fs_ret, fs_fail in Hk; repeat case_match; naive_solver).
  apply fs_bind_inv in Hb as [(s1 & turn & Ht & Hb)|(e & Hb & _)];
    [|left; by apply (silent_run _ _ _ _ Hb (silent_select _ _))].
  pose proof (silent_run _ _ _ _ Ht (silent_select _ _)) as C1.
  apply fs_bind_inv in Hb as [(s1' & [] & [= <-] & Hb)|(e & [=] & _)].
  apply fs_bind_inv in Hb as [(s2 & [] & Hp & Hb)|(e & Hb & _)].
  2: { left. rewrite <- C1. by apply (silent_run _ _ _ _ Hb (silent_replay _)). }
  pose proof (silent_run _ _ _ _ Hp (silent_replay _)) as C2. cbn in C2.
  apply fs_bind_inv in Hb as [(s2' & attempt & [= <- Ha] & Hb)|(e & [=] & _)].
  apply fs_bind_inv in Hb as [(s3 & [] & Ho & Hb)|(e & Hb & _)].
  2: { left. rewrite <- C1, <- C2. by apply (silent_run _ _ _ _ Hb (silent_open _ _ _)). }
  pose proof (silent_run _ _ _ _ Ho (silent_open _ _ _)) as C3. cbn in C3.
  apply fs_bind_inv in Hb as [(s4 & envelope & Hacc & Hb)|(e & [=] & _)].
  right. exists key, turn, attempt, s1, s2, s3. split_and!; try done.
  exists r. assert (length (ps_calls s3) = length (ps_calls s)) as Hl by (by rewrite C3, C2, C1).
  injection Hacc as <- <-. rewrite <- Hl.
  assert (ps_calls s3 = ps_calls s) as C by (by rewrite C3, C2, C1). cbn zeta.
  split; [exact Hb|]. split; [exact Hr|]. split; [exact C|].
  rewrite (silent_run _ _ _ _ Hb (silent_close _ _ _ _)). cbn. by rewrite C.
Qed.
(** ** When the provider is called *)

Abbreviation requested_id turn := (durable_provider_event_id run_id turn "model.requested").
Abbreviation completed_id turn := (durable_provider_event_id run_id turn "model.completed").
Abbreviation interrupted_id turn := (durable_provider_event_id run_id turn "interrupted_provider").

(** A failure of the turn that ends it. *)
Definition ends_turn (turn : Z) (e : GatewayEvent) : Prop :=
  ge_event_id e = interrupted_id turn \/
  ge_event e = "model.failed" /\ event_turn e = Some turn /\
    jget "retryable" (ge_data e) ≫= as_bool <> Some true.

(** The turn was asked before and may be asked again: it is neither answered
    nor ended, the stored request is declared safe to repeat, is the same
    request and holds no secret, no tool ran since, and the budget is left. *)
Record may_resend (turn : Z) (request : Json) (run : RunRecord) : Prop := {
  resend_unanswered : completed_id turn ∉ map ge_event_id (rr_events run);
  resend_open : forall e, e ∈ rr_events run -> ~ ends_turn turn e;
  resend_request : exists e, e ∈ rr_events run /\ ge_event_id e = requested_id turn /\
    (jget "retry_safe" (ge_data e) ≫= as_bool = Some true \/
     jget "idempotent" (ge_data e) ≫= as_bool = Some true) /\
    jget "request_fingerprint" (ge_data e) ≫= as_str =
      Some (canonical_provider_request_fingerprint request) /\
    requested_payload_leaks_secrets (ge_data e) = false /\
    forall e', e' ∈ rr_events run -> (ge_seq e < ge_seq e')%Z ->
               starts_with (s2b (ge_event e')) (s2b "tool.") = false;
  resend_budget : (Z.of_nat (retryable_failures run turn) <= PROVIDER_RETRY_BUDGET)%Z
}.

Lemma find_id_Some events id e :
  List.find (fun e => str_eqb (ge_event_id e) id) events = Some e -> e ∈ events /\ ge_event_id e = id.
Proof. intros [Hin Hid]%find_some. split; [by apply list_elem_of_In|by apply str_eqb_true]. Qed.

Lemma decision_retry store turn request :
  provider_pending_decision store run_id turn request = Retry ->
  exists run, gs_runs store !! run_id = Some run /\ run_refuses_pending_provider run = false /\
              may_resend turn request run.
Proof.
  unfold provider_pending_decision. destruct (gs_runs store !! run_id) as [run|]; [|done].
  cbn zeta. destruct (has_event run _) eqn:Hc; [done|]. destruct (existsb _ _) eqn:Hf; [done|].
  destruct (run_refuses_pending_provider run) eqn:Hr; [done|].
  destruct (List.find _ _) as [e|] eqn:He; [|done]. apply find_id_Some in He as [Hin Hid].
  destruct (negb _ || _ || _) eqn:Hs; [done|]. destruct (provider_pending_may_retry _ _ _ && _) eqn:Hb; [|done]. intros _.
  exists run. split_and!; [done..|]. apply andb_true_iff in Hb as [He Hb].
  apply orb_false_iff in Hs as [[Hs Hfp]%orb_false_iff Hl]. rewrite negb_false_iff in Hs, Hfp.
  apply andb_true_iff in Hfp as [Hfp _]. apply bool_decide_eq_true in Hs, Hfp.
  rewrite existsb_false_iff in Hf. split.
  - intros Hx%has_event_spec. congruence.
  - intros x Hx Hends. specialize (Hf x Hx). apply orb_false_iff in Hf as [Hi Hf].
    destruct Hends as [Hid'|(Hev & Ht & Hnr)]; [by rewrite Hid', str_eqb_refl in Hi|].
    revert Hf. unfold of_turn, provider_failure_is_retryable.
    rewrite Hev, Ht, bool_decide_eq_true_2, bool_decide_eq_false_2 by done. done.
  - exists e. split_and!; try done.
    + repeat case_match; naive_solver.
    + intros e' Hin' Hseq. unfold provider_pending_may_retry in He. cbn [andb negb] in He.
      rewrite negb_true_iff, existsb_false_iff in He. specialize (He e' Hin').
      apply Z.ltb_lt in Hseq. by rewrite Hseq in He.
  - by apply Z.leb_le.
Qed.
(** The run's record carries its own identifier and its session is loaded. *)
Definition seated (store : GatewayStore) : Prop :=
  exists run, gs_runs store !! run_id = Some run /\ rr_run_id run = run_id /\
              is_Some (gs_sessions store !! rr_session_id run).

(** Other threads work beside the host: they add events and messages of their
    own and change the run's status, but they neither ask nor answer a turn of
    this run, and they leave the run in its session. *)
Class HostThreads : Prop := {
  threads_seated n store : seated store -> seated (ph_env n store);
  threads_requests n store turn :
    has_provider_request (ph_env n store) run_id turn = has_provider_request store run_id turn;
  threads_answers n store turn :
    replay_provider_envelope (ph_env n store) run_id turn = replay_provider_envelope store run_id turn
}.

(** *** Committing an event *)

Abbreviation store_of s := (cs_store (ps_commit s)).

Lemma persist_event_Ok event_id event_type payload (s s' : CState) :
  persist_provider_event run_id event_id event_type payload s = (s', Ok tt) ->
  exists run, gs_runs (cs_store s) !! run_id = Some run /\
  (has_event run event_id = true /\ s' = s \/
   has_event run event_id = false /\ run_refuses_pending_provider run = false /\
   let reserved := reserve_provider_event run_id event_id event_type payload run s in
   cs_store s' = apply_reserved (ph_times (S (cs_ticks s))) (cs_store s) reserved /\
   cs_trace s' = cs_trace s ++
     (if ph_persistence then [CStored (CAppend (rc_persist_payload reserved)) true] else []) ++
     sent (ge_run_id (rc_event reserved)) [rc_event reserved] (cs_store s')).
Proof.
  unfold persist_provider_event. destruct (gs_runs (cs_store s) !! run_id) as [run|]; [|done].
  destruct (has_event run event_id) eqn:He; [intros [= <-]; eauto|].
  destruct (str_eqb _ _); [done|]. destruct (run_refuses_pending_provider run) eqn:Hr; [done|].
  intros Hp%persist_and_apply_spec. exists run. split; [done|]. right. done.
Qed.

(** A committed event without a message changes the run and nothing else. *)
Lemma apply_event_store now store run reserved :
  gs_runs store !! run_id = Some run -> ge_run_id (rc_event reserved) = run_id ->
  rc_message reserved = None ->
  let store' := apply_reserved now store reserved in
  gs_runs store' !! run_id =
    Some (apply_event_locked run (rc_event reserved) (rc_max_events_per_run reserved)) /\
  gs_sessions store' = gs_sessions store.
Proof.
  intros Hrun Hid Hm store'. unfold store', apply_reserved. rewrite Hm, Hid. cbn.
  by rewrite lookup_alter_eq, Hrun.
Qed.

(** The run has not ended: it is not completed or cancelled, no end of it waits
    for storage, and if it failed it was the gateway's restart that failed it. *)
Definition not_over (run : RunRecord) : Prop :=
  (rr_status run ∉ ["completed"; "cancelled"; "terminal_pending"]) /\
  (rr_status run = "failed" -> exists e, e ∈ rr_events run /\ ge_event e = "run.failed" /\
    jget "error_code" (ge_data e) = Some (JString "gateway_restart")).

(** The boundary has just been stored: it is the newest event of the run, which
    was as [before] without it, and, with storage, a successful append has
    carried it. *)
Definition just_stored (turn : Z) (before run : RunRecord) (trace : list CommitEffect) : Prop :=
  exists e, run = apply_event_locked before e ph_max_events_per_run /\ last (rr_events run) = Some e /\
    ge_event e = "model.requested" /\ ge_event_id e = requested_id turn /\
    (ph_persistence = true -> exists p, CStored (CAppend p) true ∈ trace /\ carries (CAppend p) e).

(** The grounds on which the provider may be asked. *)
Definition grounds (turn : Z) (request : Json) (run : RunRecord) (trace : list CommitEffect) : Prop :=
  exists before, not_over before /\ (before = run /\ may_resend turn request run \/ just_stored turn before run trace).

Lemma not_refused_not_over run : run_refuses_pending_provider run = false -> not_over run.
Proof.
  unfold run_refuses_pending_provider, not_over. destruct (contains _ _) eqn:Hc; [done|]. intros Hf.
  split; [intros Hin%contains_spec; congruence|]. intros E. rewrite E in Hf. cbn in Hf.
  apply negb_false_iff, existsb_exists in Hf as (e & He & [Hn Hd]%andb_true_iff). exists e.
  apply list_elem_of_In in He. apply str_eqb_true in Hn. apply bool_decide_eq_true in Hd. split_and!; [done|done|].
  by destruct (jget "error_code" (ge_data e)) as [[]|]; simplify_eq/=.
Qed.

(** What is sent is the request without its step key. *)
Lemma transport_spec request key (s s' : PState) :
  step_key request s = (s', Ok key) ->
  jget "_provider_step_key" (transport_request key request) = None /\
  forall k, k <> "_provider_step_key" -> jget k (transport_request key request) = jget k request.
Proof.
  unfold step_key, transport_request. intros Hk. destruct (jget _ request) as [v|] eqn:Hj.
  - destruct v as [| | |key'| |], request as [| | | | |fields]; try done. destruct (step_key_ok _); [|done]. injection Hk as _ <-.
    cbn. split; [by rewrite obj_get_remove|]. intros k Hne. rewrite obj_get_remove.
    destruct (str_eqb k _) eqn:E; [|done]. by apply str_eqb_true in E.
  - injection Hk as _ <-. done.
Qed.

Section Threads.
Context `{HT : HostThreads}.
Hypothesis log_kept : 0 < ph_max_events_per_run.

Lemma seated_yield s : seated (store_of s) -> seated (store_of (yield s)).
Proof. apply threads_seated. Qed.

Lemma seated_select request key s s' turn :
  seated (store_of s) -> select_turn run_id request key s = (s', Ok turn) -> seated (store_of s').
Proof.
  unfold select_turn. intros Hs. destruct key; [|by intros [= <- _]].
  intros [(s1 & a & [= <- <-] & Ha)|(? & _ & [=])]%fs_bind_inv. destruct (provider_turn_for_step _ _ _ _ _); [|done].
  injection Ha as <- _. by apply seated_yield.
Qed.

(** A turn that is not replayed has no answer. *)
Lemma replay_Ok turn s s' :
  replay_completed run_id turn s = (s', Ok tt) ->
  s' = yield s /\ replay_provider_envelope (store_of s) run_id turn = Ok None.
Proof.
  unfold replay_completed. intros [(s1 & a & [= <- Hr] & Hm)|(? & _ & [=])]%fs_bind_inv.
  rewrite threads_answers in Hr. destruct a as [[e|]|e]; try done.
  by injection Hm as <-.
Qed.

(** The boundary of a turn nobody asked is stored before [open_turn] ends. *)
Lemma commit_request_fresh turn attempt request (s s' : CState) :
  seated (cs_store s) -> has_provider_request (cs_store s) run_id turn = false ->
  commit_provider_request run_id turn attempt true request s = (s', Ok tt) ->
  exists run, gs_runs (cs_store s') !! run_id = Some run /\ grounds turn request run (cs_trace s').
Proof.
  intros (run & Hrun & Hid & _) Hnew. unfold commit_provider_request.
  destruct (match jget _ request with Some _ => _ | None => _ end) as [payload|e]; [|done].
  intros (run' & Hrun' & Hcase)%persist_event_Ok. rewrite Hrun in Hrun'. injection Hrun' as <-.
  unfold has_provider_request in Hnew. rewrite Hrun, Hnew in *.
  destruct Hcase as [[? _]|(_ & Hr & Hst & Htr)]; [done|].
  destruct (apply_event_store (ph_times (S (cs_ticks s))) (cs_store s) run
              (reserve_provider_event run_id (requested_id turn) "model.requested"
                 (without_secrets payload) run s) Hrun Hid eq_refl) as [Hrun2 _].
  rewrite Hst. eexists. split; [exact Hrun2|]. exists run. split; [by apply not_refused_not_over|right].
  assert (requested_id turn ∉ map ge_event_id (rr_events run)) as Hfresh.
  { intros Hin%has_event_spec. congruence. }
  eexists. split; [done|]. split; [by apply apply_fresh_last|]. split_and!; [done..|].
  intros Hp. rewrite Htr, Hp. eexists.
  split; [apply elem_of_app; right; apply elem_of_app; left; by left|]. by split_and!.
Qed.

(** [open_turn] lets the provider be called on two grounds. *)
Lemma open_turn_inv turn attempt request s s' :
  open_turn run_id turn attempt request s = (s', Ok tt) ->
  let s2 := yield (yield s) in
  s' = s2 /\ provider_pending_decision (store_of s2) run_id turn request = Retry \/
  has_provider_request (store_of s) run_id turn = false /\
  exists c, commit_provider_request run_id turn attempt true request (ps_commit s2) = (c, Ok tt) /\
            s' = with_commit c s2.
Proof.
  intros Ho s2. unfold open_turn in Ho.
  apply fs_bind_inv in Ho as [(s1 & requested & [= <- Hq] & Ho)|(? & [=] & _)]. destruct requested.
  - left. apply fs_bind_inv in Ho as [(s3 & d & Hd & Ho)|(? & _ & [=])].
    apply fs_bind_inv in Ho as [(s4 & d' & Hd' & Ho)|(? & _ & [=])].
    destruct d as [d|]; [|done]. injection Hd' as <- <-.
    destruct d; try done; [|by apply fs_bind_inv in Ho as [(? & ? & _ & [=])|(? & _ & [=])]].
    injection Ho as <-. unfold recover_pending_provider in Hd.
    apply fs_bind_inv in Hd as [(s4 & d & [= <- Hdec] & Hd)|(? & _ & [=])].
    destruct d; simplify_eq/=; [by injection Hd as <-|].
    by apply fs_bind_inv in Hd as [(? & [|] & _ & [=])|(? & _ & [=])].
  - right. split; [by rewrite threads_requests in Hq|].
    apply fs_bind_inv in Ho as [(s3 & r & Hc & Ho)|(? & _ & [=])].
    destruct r as [[]|]; [|done]. injection Ho as <-. unfold commit_op in Hc. fold s2 in Hc.
    destruct (commit_provider_request _ _ _ _ _ _) as [c r] eqn:E. injection Hc as <- ->. eauto.
Qed.

Lemma open_turn_Ok turn attempt request s s' :
  seated (store_of s) -> open_turn run_id turn attempt request s = (s', Ok tt) ->
  exists run, gs_runs (store_of s') !! run_id = Some run /\ grounds turn request run (cs_trace (ps_commit s')).
Proof.
  intros Hs [[-> Hdec]|(Hq & c & E & ->)]%open_turn_inv.
  - apply decision_retry in Hdec as (run & Hrun & Hr & Hm).
    exists run. split; [done|]. exists run. split; [by apply not_refused_not_over|by left].
  - apply commit_request_fresh in E as (run & Hrun & Hg).
    + exists run. eauto.
    + by apply seated_yield, seated_yield.
    + cbn. by rewrite !threads_requests.
Qed.


(** ** Answered turns *)

Lemma find_app {A} (f : A -> bool) l k :
  List.find f (l ++ k) = match List.find f l with Some x => Some x | None => List.find f k end.
Proof. induction l as [|x l IH]; [done|]. cbn. by destruct (f x). Qed.

Lemma find_none_existsb {A} (f : A -> bool) l : List.find f l = None -> existsb f l = false.
Proof. intros Hn. apply existsb_false_iff. intros x Hx%list_elem_of_In. by eapply find_none. Qed.

Lemma find_some_event events id :
  id ∈ map ge_event_id events ->
  exists e, List.find (fun e => str_eqb (ge_event_id e) id) events = Some e.
Proof.
  intros Hin. destruct (List.find _ _) as [e|] eqn:E; [eauto|].
  apply find_none_existsb in E. apply existsb_ids in Hin. congruence.
Qed.

(** An unanswered turn has neither its event nor its message. *)
Lemma unanswered_inv store turn run :
  gs_runs store !! run_id = Some run -> replay_provider_envelope store run_id turn = Ok None ->
  List.find (fun e => str_eqb (ge_event_id e) (completed_id turn)) (rr_events run) = None /\
  find_message store (rr_session_id run) (turn_message_id run_id turn) = None.
Proof.
  unfold replay_provider_envelope. intros ->. destruct (List.find _ _), (find_message _ _ _); try done.
  destruct (str_eqb _ _); [|done]. by destruct (reconstruct_provider_envelope _ _ _).
Qed.

Lemma push_message_find now m store session :
  gs_sessions store !! sm_session_id m = Some session ->
  find_message store (sm_session_id m) (sm_id m) = None ->
  find_message (push_message_opt now (Some m) store) (sm_session_id m) (sm_id m) = Some m.
Proof.
  intros Hs Hn. unfold find_message in *. rewrite Hs in Hn. cbn in *.
  rewrite lookup_alter_eq, Hs. cbn. unfold push_message.
  rewrite (find_none_existsb _ _ Hn). cbn. rewrite find_app, Hn. cbn. by rewrite str_eqb_refl.
Qed.

(** A committed step changes its run and brings its message. *)
Lemma apply_step_store now store run reserved m session :
  gs_runs store !! run_id = Some run -> ge_run_id (rc_event reserved) = run_id ->
  rc_message reserved = Some m -> gs_sessions store !! sm_session_id m = Some session ->
  find_message store (sm_session_id m) (sm_id m) = None ->
  let store' := apply_reserved now store reserved in
  gs_runs store' !! run_id =
    Some (apply_event_locked run (rc_event reserved) (rc_max_events_per_run reserved)) /\
  find_message store' (sm_session_id m) (sm_id m) = Some m.
Proof.
  intros Hrun Hid Hm Hse Hn store'. unfold store', apply_reserved. rewrite Hm, Hid. split.
  - cbn. by rewrite lookup_alter_eq, Hrun.
  - by eapply push_message_find.
Qed.

Lemma apply_event_locked_session run e max :
  rr_session_id (apply_event_locked run e max) = rr_session_id run.
Proof. unfold apply_event_locked. by case_match. Qed.

(** A stored step is what a replay of its turn answers. *)
Lemma commit_step_replays turn step (s s' : CState) c finish :
  seated (cs_store s) -> replay_provider_envelope (cs_store s) run_id turn = Ok None ->
  st_finish_reason step = Some finish ->
  commit_provider_step_with_meta run_id turn step s = (s', Ok (Inserted c)) ->
  replay_provider_envelope (cs_store s') run_id turn = Ok (Some (pc_envelope c)).
Proof.
  intros (run & Hrun & Hid & session & Hse) Hnone Hf. unfold commit_provider_step_with_meta.
  destruct (let? _ := _ in _) as [[]|e]; [|done]. rewrite Hrun.
  destruct (unanswered_inv _ _ _ Hrun Hnone) as [He Hm].
  unfold has_event. rewrite (find_none_existsb _ _ He).
  destruct (str_eqb _ _); [done|]. destruct (run_refuses_pending_provider run); [done|].
  destruct (reconstruct_provider_envelope _ _ _) as [envelope|] eqn:Hrec; [|done].
  set (reserved := reserve_provider_step _ _ _ _ _ _).
  destruct (provider_persist reserved s) as [s1 [u|e]] eqn:Hp; [|done]. intros [= <- <-].
  apply persist_and_apply_spec in Hp as [Hst _].
  change (cs_store (spend 1 2 s)) with (cs_store s) in Hst. cbn [pc_envelope].
  destruct (apply_step_store (ph_times (S (cs_ticks s))) (cs_store s) run reserved _ _ Hrun Hid eq_refl Hse Hm)
    as [Hrun' Hm'].
  unfold replay_provider_envelope. rewrite Hst, Hrun'.
  destruct (find_some_event (rr_events (apply_event_locked run (rc_event reserved)
              (rc_max_events_per_run reserved))) (completed_id turn)) as [e ->].
  { apply find_none_existsb, Bool.not_true_iff_false in He. rewrite existsb_ids in He.
    apply (list_elem_of_fmap_2' _ _ (rc_event reserved)); [|done].
    apply last_Some_elem_of. by apply apply_fresh_last. }
  rewrite apply_event_locked_session.
  rewrite (Hm' : find_message _ (rr_session_id run) (turn_message_id run_id turn) = _).
  cbn. by rewrite Hf, <- Hf, Hrec.
Qed.

Definition is_success (envelope : Json) : Prop := jget "ok" envelope ≫= as_bool = Some true.

Lemma typed_fail_fails code message : ~ is_success (typed_fail code message).
Proof. done. Qed.

Lemma map_commit_error_fails e : ~ is_success (map_commit_error e).
Proof. by destruct e. Qed.

#[local] Hint Resolve typed_fail_fails map_commit_error_fails : core.

Lemma canonical_error_fails envelope request failure :
  canonical_provider_step_from_envelope envelope request = Err failure -> ~ is_success failure.
Proof.
  unfold canonical_provider_step_from_envelope. intros Hc.
  destruct (jget "response" envelope) as [response|]; [|by injection Hc as <-].
  destruct (negb _); [by injection Hc as <-|]. destruct (misfit is_string _); [by injection Hc as <-|].
  destruct (match jget "usage" response with Some _ => _ | None => _ end) as [[]|e] eqn:Hu; cbn in Hc.
  - destruct (misfit is_array _); [by injection Hc as <-|]. unfold canonical_provider_step in Hc.
    destruct (match jget "content" response with Some _ => _ | None => _ end) as [|e] eqn:Hd; cbn in Hc; [done|].
    injection Hc as <-. destruct (jget "content" response) as [c|]; [|done].
    destruct (decode_provider_blocks_strict c); [done|]. injection Hd as <-. auto.
  - injection Hc as <-. destruct (jget "usage" response); [|done]. repeat case_match; by simplify_eq.
Qed.

Lemma fail_with_fails turn attempt envelope s s' r answer :
  fail_with run_id turn attempt envelope s = (s', r) -> r = Ok answer \/ r = Err answer ->
  ~ is_success envelope -> ~ is_success answer.
Proof.
  intros Hf Hr He. unfold fail_with, persist_classified_failure in Hf.
  apply fs_bind_inv in Hf as [(s1 & x & _ & Hf)|(? & Hf & _)].
  - apply fs_bind_inv in Hf as [(s2 & u & _ & [= _ <-])|(e & Hf & ->)]; [naive_solver|].
    destruct x as [u|x]; [done|]. injection Hf as _ <-. destruct Hr as [|[= <-]]; [done|auto].
  - unfold commit_op in Hf. by destruct (persist_provider_failure _ _ _ _ _ _ _).
Qed.

Definition outcome_envelope (o : ProviderCommitOutcome) : Json :=
  match o with Inserted c | Existing c => pc_envelope c end.

(** A success the script sees is the envelope of a committed step. *)
Lemma close_turn_success turn attempt envelope request s s' r answer :
  close_turn run_id turn attempt envelope request s = (s', r) -> r = Ok answer \/ r = Err answer ->
  is_success answer ->
  exists step c o, canonical_provider_step_from_envelope envelope request = Ok step /\
    commit_provider_step_with_meta run_id turn step (ps_commit (yield s)) = (c, Ok o) /\
    answer = outcome_envelope o /\ ps_commit s' = c.
Proof.
  intros Hc Hr Hs. unfold close_turn in Hc. destruct (negb (bool_decide _)) eqn:Hok.
  { exfalso. eapply fail_with_fails; [done..| |done]. unfold is_success. by bool_to_prop. }
  destruct (canonical_provider_step_from_envelope envelope request) as [step|f] eqn:Hcan.
  2: { exfalso. eapply fail_with_fails; [done..| |done]. by eapply canonical_error_fails. }
  destruct (validate_provider_blocks (st_blocks step)) as [[]|e].
  2: { exfalso. eapply fail_with_fails; [done..| |done]. auto. }
  apply fs_bind_inv in Hc as [(s1 & o & Ho & Hc)|(e & Hc & _)]; unfold commit_op in *.
  2: by destruct (commit_provider_step_with_meta _ _ _ _).
  destruct (commit_provider_step_with_meta _ _ _ _) as [c o'] eqn:Hcom. injection Ho as <- <-.
  apply fs_bind_inv in Hc as [(s2 & o & Ho & Hc)|(e & Hc & ->)].
  - destruct o' as [o'|]; [|done]. injection Ho as <- <-. exists step, c, o'. split_and!; [done..| |].
    + destruct o'; injection Hc as <- <-; by destruct Hr as [[= <-]|].
    + by destruct o'; injection Hc as <- _.
  - destruct o' as [o'|e']; [done|]. injection Hc as _ <-. exfalso.
    destruct Hr as [|[= <-]]; [done|]. by eapply map_commit_error_fails.
Qed.

Lemma obj_get_insert_opt k k' o m :
  obj_get k (insert_opt k' o m) =
    if str_eqb k k' then match o with Some v => Some v | None => obj_get k m end else obj_get k m.
Proof.
  destruct o; cbn; [|by destruct (str_eqb k k')]. rewrite obj_get_insert. by destruct (str_eqb k k').
Qed.

Lemma envelope_response m :
  jget "response" (jobj [("ok", JBool true); ("response", JObject m); ("error", jobj [])]) = Some (JObject m).
Proof. done. Qed.

(** The finish reason of a reconstructed envelope. *)
Lemma reconstruct_finish content metadata finish envelope :
  reconstruct_provider_envelope content metadata finish = Ok envelope ->
  jget "response" envelope ≫= jget "finish_reason" = JString <$> finish.
Proof.
  unfold reconstruct_provider_envelope. destruct (decode_provider_blocks_strict content); [|done]. cbn.
  destruct (validate_provider_blocks _); [|done]. cbn. destruct (try_fold _ _ _); [|done]. cbn.
  intros [= <-]. rewrite envelope_response. cbn [mbind option_bind jget].
  rewrite !obj_get_insert_opt. by destruct finish.
Qed.

(** Committing an unanswered turn answers it. *)
Lemma commit_replays turn step (s s' : CState) o :
  seated (cs_store s) -> replay_provider_envelope (cs_store s) run_id turn = Ok None ->
  is_Some (jget "response" (outcome_envelope o) ≫= jget "finish_reason") ->
  commit_provider_step_with_meta run_id turn step s = (s', Ok o) ->
  replay_provider_envelope (cs_store s') run_id turn = Ok (Some (outcome_envelope o)).
Proof.
  intros Hs Hn Hf Hc. assert (exists c, o = Inserted c /\ st_finish_reason step <> None) as (c & -> & Hfin).
  { destruct Hs as (run & Hrun & _). destruct (unanswered_inv _ _ _ Hrun Hn) as [He _].
    unfold commit_provider_step_with_meta in Hc. destruct (let? _ := _ in _); [|done].
    rewrite Hrun in Hc. unfold has_event in Hc. rewrite (find_none_existsb _ _ He) in Hc.
    destruct (str_eqb _ _); [done|]. destruct (run_refuses_pending_provider run); [done|].
    destruct (reconstruct_provider_envelope _ _ _) as [envelope|] eqn:Hrec; [|done].
    destruct (provider_persist _ _) as [s1 [u|e]]; [|done]. injection Hc as <- <-.
    eexists. split; [done|]. intros Hnone. cbn in Hf.
    rewrite (reconstruct_finish _ _ _ _ Hrec), Hnone in Hf. by destruct Hf. }
  destruct (st_finish_reason step) eqn:E; [|done]. by eapply commit_step_replays.
Qed.

(** Identifiers of a run whose own identifier is short are not cut. *)
Lemma provider_id_whole turn x :
  (slen run_id <= 64)%Z -> is_u64 turn = true -> (slen x <= 34)%Z ->
  durable_provider_event_id run_id turn x = run_id +:+ ":turn:" +:+ pretty turn +:+ ":" +:+ x.
Proof.
  intros Hr Ht Hx. unfold durable_provider_event_id, bound_durable_id.
  assert (slen (pretty turn) <= 20)%Z.
  { unfold is_u64 in Ht. bool_to_prop. apply pretty_pos_length. lia. }
  rewrite (proj2 (Z.leb_le _ _)); [done|]. rewrite !slen_app.
  change (slen ":turn:") with 6%Z. change (slen ":") with 1%Z. unfold MAX_DURABLE_ID_BYTES. lia.
Qed.

Lemma provider_id_inj turn x y :
  (slen run_id <= 64)%Z -> is_u64 turn = true -> (slen x <= 34)%Z -> (slen y <= 34)%Z ->
  durable_provider_event_id run_id turn x = durable_provider_event_id run_id turn y -> x = y.
Proof.
  intros Hr Ht Hx Hy. rewrite !provider_id_whole by done.
  intros Heq. by apply (inj _), (inj _), (inj _), (inj _) in Heq.
Qed.

Lemma append_keeps_unanswered store store' run e max turn :
  gs_runs store !! run_id = Some run -> gs_sessions store' = gs_sessions store ->
  gs_runs store' !! run_id = Some (apply_event_locked run e max) -> ge_event_id e <> completed_id turn ->
  replay_provider_envelope store run_id turn = Ok None ->
  replay_provider_envelope store' run_id turn = Ok None.
Proof.
  intros Hrun Hse Hrun' Hne Hn. destruct (unanswered_inv _ _ _ Hrun Hn) as [He Hm].
  unfold replay_provider_envelope. rewrite Hrun', apply_event_locked_session.
  unfold find_message in *. rewrite Hse, Hm.
  destruct (List.find _ (rr_events (apply_event_locked _ _ _))) as [x|] eqn:Hx; [|done]. exfalso.
  apply find_id_Some in Hx as [Hin Hid]. apply find_none_existsb in He.
  rewrite existsb_false_iff in He.
  assert (x ∈ rr_events run ++ [e]) as [Hin'|Hx%list_elem_of_singleton]%elem_of_app; [| |by subst x].
  - unfold apply_event_locked in Hin. case_match; [apply elem_of_app; by left|].
    destruct (keep_last_suffix max (rr_events run ++ [e])) as [pre Hpre]. by eapply elem_of_suffix.
  - specialize (He x Hin'). by rewrite Hid, str_eqb_refl in He.
Qed.

Lemma apply_event_seated now store reserved :
  seated store -> rc_message reserved = None -> seated (apply_reserved now store reserved).
Proof.
  intros (run & Hrun & Hid & Hse) Hm. unfold seated, apply_reserved. rewrite Hm. cbn.
  destruct (decide (ge_run_id (rc_event reserved) = run_id)) as [->|Hne].
  - rewrite lookup_alter_eq, Hrun. cbn. eexists. split; [done|].
    rewrite apply_event_locked_session. split; [|done]. unfold apply_event_locked. by case_match.
  - rewrite lookup_alter_ne by done. eauto.
Qed.

Section Fitting.
Hypothesis run_id_short : (slen run_id <= 64)%Z.

Lemma open_turn_unanswered turn attempt request s s' :
  is_u64 turn = true -> seated (store_of s) -> replay_provider_envelope (store_of s) run_id turn = Ok None ->
  open_turn run_id turn attempt request s = (s', Ok tt) ->
  seated (store_of s') /\ replay_provider_envelope (store_of s') run_id turn = Ok None.
Proof.
  intros Hu Hs Hn Ho%open_turn_inv.
  assert (seated (store_of (yield (yield s)))) as Hs1 by (by apply seated_yield, seated_yield).
  assert (replay_provider_envelope (store_of (yield (yield s))) run_id turn = Ok None) as Hn1.
  { cbn. by rewrite !threads_answers. }
  set (s1 := yield (yield s)) in *. destruct Ho as [[-> _]|(_ & c & E & ->)]; [done|]. cbn.
  unfold commit_provider_request in E. destruct (match jget _ request with Some _ => _ | None => _ end); [|done].
  apply persist_event_Ok in E as (run & Hrun & [[_ ->]|(_ & _ & Hst & _)]); [done|].
  rewrite Hst. split; [by apply apply_event_seated|].
  destruct Hs1 as (run' & Hrun' & Hid & _). rewrite Hrun in Hrun'. injection Hrun' as <-.
  destruct (apply_event_store (ph_times (S (cs_ticks (ps_commit s1)))) _ run
              (reserve_provider_event run_id (requested_id turn) "model.requested"
                 (without_secrets a) run (ps_commit s1)) Hrun Hid eq_refl) as [Hr2 Hse2].
  eapply append_keeps_unanswered; [exact Hrun|exact Hse2|exact Hr2| |exact Hn1].
  by intros Heq%provider_id_inj.
Qed.

(** A stored answer is handed out without the provider. *)
Lemma call_replays_at key turn request s s1 envelope :
  step_key request s = (s, Ok key) -> select_turn run_id request key s = (s1, Ok turn) ->
  replay_provider_envelope (store_of s1) run_id turn = Ok (Some envelope) ->
  exists s', call run_id request s = (s', envelope) /\ ps_calls s' = ps_calls s /\
             ps_turn s' = wrap64 (turn + 1).
Proof.
  intros Ek Es Hr. unfold call, call_body. rewrite (fs_bind_Ok _ _ _ _ _ Ek), (fs_bind_Ok _ _ _ _ _ Es).
  assert (replay_completed run_id turn (set_turn turn s1) =
          (advance_turn (yield (set_turn turn s1)), Err envelope)) as Er.
  { unfold replay_completed. erewrite fs_bind_Ok by reflexivity. cbn. rewrite threads_answers, Hr. done. }
  erewrite fs_bind_Ok by reflexivity. rewrite (fs_bind_Err _ _ _ _ _ Er).
  eexists. split_and!; [done| |done]. cbn. by apply (silent_run _ _ _ _ Es (silent_select _ _)).
Qed.

Lemma call_replays turn request s envelope :
  jget "_provider_step_key" request = None -> ps_turn s = turn ->
  replay_provider_envelope (store_of s) run_id turn = Ok (Some envelope) ->
  exists s', call run_id request s = (s', envelope) /\ ps_calls s' = ps_calls s /\
             ps_turn s' = wrap64 (turn + 1).
Proof.
  intros Hk <- Hr. apply (call_replays_at None _ _ _ s); [|done..]. unfold step_key. by rewrite Hk.
Qed.

(** A success the provider was called for is stored as the answer of its turn. *)
Lemma call_answers request s s1 answer c :
  seated (store_of s) -> call run_id request s = (s1, answer) -> ps_calls s1 = ps_calls s ++ [c] ->
  is_u64 (call_turn c) = true -> is_success answer ->
  is_Some (jget "response" answer ≫= jget "finish_reason") ->
  replay_provider_envelope (store_of s1) run_id (call_turn c) = Ok (Some answer).
Proof.
  intros Hs [Hc|(key & turn & attempt & t1 & t2 & t3 & Hk & Ht & Hp & _ & Ho & r & Hcl & Hr & _ & Hc)]%call_inv;
    rewrite Hc; intros Hcalls Hu Hok Hfin.
  { apply (f_equal length) in Hcalls. rewrite length_app in Hcalls. cbn in Hcalls. lia. }
  apply app_inv_head in Hcalls. injection Hcalls as <-. cbn [call_turn] in *.
  apply replay_Ok in Hp as [-> Hn]. cbn [store_of set_turn] in Hn.
  apply open_turn_unanswered in Ho as [Hs3 Hn3];
    [|done|exact (seated_yield _ (seated_yield (set_turn turn t1) (seated_select _ _ _ _ _ Hs Ht)))
     |cbn; by rewrite !threads_answers].
  destruct (close_turn_success _ _ _ _ _ _ _ _ Hcl Hr Hok) as (step & cst & o & _ & Hcom & -> & Hs').
  rewrite Hs'.
  eapply commit_replays; [| |exact Hfin|exact Hcom]; cbn; [by apply threads_seated|by rewrite threads_answers].
Qed.

(** When the provider was called and the script got a success with a finish
    reason, that turn is answered for good: asked again, by this host or by one
    built later on the same store, with any request addressed to the turn by
    position, the host returns the very same envelope, does not call the
    provider and moves to the next turn. *)
Theorem answered_turn_is_replayed request s s1 answer c :
  seated (store_of s) -> call run_id request s = (s1, answer) -> ps_calls s1 = ps_calls s ++ [c] ->
  is_u64 (call_turn c) = true -> is_success answer ->
  is_Some (jget "response" answer ≫= jget "finish_reason") ->
  forall request2 s2, jget "_provider_step_key" request2 = None -> store_of s2 = store_of s1 ->
  ps_turn s2 = call_turn c ->
  exists s3, call run_id request2 s2 = (s3, answer) /\ ps_calls s3 = ps_calls s2 /\
             ps_turn s3 = wrap64 (call_turn c + 1).
Proof.
  intros Hs Hc Hcalls Hu Hok Hfin request2 s2 Hk2 Hst Hturn. apply call_replays; [done..|].
  rewrite Hst. by eapply call_answers.
Qed.
End Fitting.
End Threads.

(** ** Secrets *)

(** Two requests a log must not tell apart: they agree on the safe fields and
    on the step key, and may differ in everything else. *)
Definition same_public (r1 r2 : Json) : Prop :=
  forall k, k ∈ "_provider_step_key" :: SAFE_REQUEST_KEYS -> jget k r1 = jget k r2.

Lemma fingerprint_public r1 r2 :
  same_public r1 r2 ->
  canonical_provider_request_fingerprint r1 = canonical_provider_request_fingerprint r2.
Proof.
  intros Hr. unfold canonical_provider_request_fingerprint.
  assert (forall r, match r with
                    | JObject object =>
                        fold_left (fun safe key => match obj_get key object with
                                                   | Some value => obj_insert key value safe
                                                   | None => safe
                                                   end) SAFE_REQUEST_KEYS []
                    | _ => []
                    end =
                    fold_left (fun safe key => match jget key r with
                                               | Some value => obj_insert key value safe
                                               | None => safe
                                               end) SAFE_REQUEST_KEYS []) as Hj by (by intros []).
  rewrite !Hj. do 5 f_equal. cbn. by rewrite !Hr by set_solver.
Qed.

(** The states differ in what was sent to the provider only. *)
Definition erase (s : PState) : PState := {|
  ps_commit := ps_commit s; ps_turn := ps_turn s; ps_steps := ps_steps s;
  ps_calls := map (fun c => {| call_turn := call_turn c; call_attempt := call_attempt c;
                               call_request := JNull; call_store := call_store c;
                               call_trace := call_trace c |}) (ps_calls s);
  ps_model_calls := ps_model_calls s; ps_turns := ps_turns s; ps_truncations := ps_truncations s |}.

Definition alike (s t : PState) : Prop := erase s = erase t.

Definition agree {A} (m1 m2 : PM A) : Prop :=
  forall s t, alike s t -> alike (fst (m1 s)) (fst (m2 t)) /\ snd (m1 s) = snd (m2 t).

Lemma agree_bind {A B} (m1 m2 : PM A) (k1 k2 : A -> PM B) :
  agree m1 m2 -> (forall a, agree (k1 a) (k2 a)) -> agree (fs_bind m1 k1) (fs_bind m2 k2).
Proof.
  intros Hm Hk s t Hst. destruct (Hm s t Hst) as [H1 H2]. unfold fs_bind.
  destruct (m1 s) as [s1 r1], (m2 t) as [t1 r2]. cbn in *. subst r2. destruct r1; [by apply Hk|done].
Qed.

Lemma alike_inv s t :
  alike s t -> ps_commit s = ps_commit t /\ ps_turn s = ps_turn t /\ ps_steps s = ps_steps t /\
  length (ps_calls s) = length (ps_calls t).
Proof.
  unfold alike, erase. intros [= -> -> -> Hc _ _ _]. split_and!; [done..|].
  apply (f_equal length) in Hc. by rewrite !length_map in Hc.
Qed.

Lemma agree_ret {A} (a : A) : agree (fs_ret a) (fs_ret a).
Proof. done. Qed.

Lemma agree_return {A} e : agree (fs_fail (A := A) e) (fs_fail e).
Proof. done. Qed.

Lemma agree_or_fail {A} (r : result A EventCommitError) : agree (or_fail r) (or_fail r).
Proof. by destruct r. Qed.

Lemma alike_yield s t : alike s t -> alike (yield s) (yield t).
Proof. unfold alike, erase. cbn. intros [= Hc Ht Hn -> -> -> ->]. by rewrite Hc, Ht, Hn. Qed.

Lemma agree_read {A} (f g : GatewayStore -> A) : (forall x, f x = g x) -> agree (read_store f) (read_store g).
Proof.
  intros Hf s t Hst%alike_yield. destruct (alike_inv _ _ Hst) as (Hc & _). unfold read_store.
  cbn [fst snd]. by rewrite Hf, Hc.
Qed.

Lemma alike_with_commit c s t : alike s t -> alike (with_commit c s) (with_commit c t).
Proof. unfold alike, erase. cbn. by intros [= _ -> -> -> -> -> ->]. Qed.

Lemma agree_commit {A} (f g : CState -> CState * result A EventCommitError) :
  (forall x, f x = g x) -> agree (commit_op f) (commit_op g).
Proof.
  intros Hf s t Hst%alike_yield. destruct (alike_inv _ _ Hst) as (Hc & _). unfold commit_op.
  rewrite Hf, Hc. destruct (g _) as [c r]. split; [by apply alike_with_commit|done].
Qed.

Lemma agree_modify f : (forall s t, alike s t -> alike (f s) (f t)) -> agree (pmodify f) (pmodify f).
Proof. intros Hf s t Hst. split; [by apply Hf|done]. Qed.

Lemma alike_set_turn n s t : alike s t -> alike (set_turn n s) (set_turn n t).
Proof. unfold alike, erase. cbn. by intros [= -> _ -> -> -> -> ->]. Qed.

Lemma alike_advance s t : alike s t -> alike (advance_turn s) (advance_turn t).
Proof.
  intros Hst. destruct (alike_inv _ _ Hst) as (_ & Ht & _). unfold advance_turn. rewrite Ht.
  by apply alike_set_turn.
Qed.

Lemma alike_record s t : alike s t -> alike (record_turn s) (record_turn t).
Proof. unfold alike, erase. cbn. by intros [= -> -> -> -> -> -> ->]. Qed.

Lemma agree_accounting turn attempt q1 q2 :
  (forall n, ph_inner n q1 = ph_inner n q2) ->
  agree (accounting_call turn attempt q1) (accounting_call turn attempt q2).
Proof.
  intros Hq s t Hst. destruct (alike_inv _ _ Hst) as (Hc & _ & _ & Hl). unfold accounting_call. cbn [fst snd].
  rewrite Hl, Hq. split; [|done]. unfold alike, erase in *. cbn. rewrite !map_app. cbn.
  by injection Hst as -> -> -> -> -> -> ->.
Qed.
End Host.

Create HintDb agree.
#[export] Hint Resolve agree_bind agree_ret agree_return agree_or_fail agree_read agree_commit
  agree_accounting : agree.
#[export] Hint Resolve alike_set_turn alike_advance alike_record : agree.

(** Compares two computations step by step. *)
Ltac agree :=
  repeat match goal with
  | |- agree (fs_bind _ _) (fs_bind _ _) => apply agree_bind; [|intros]
  | |- agree (pmodify _) (pmodify _) => apply agree_modify; solve [auto with agree]
  | |- agree (read_store _) (read_store _) => apply agree_read; intros; try reflexivity
  | |- agree (commit_op _) (commit_op _) => apply agree_commit; intros; try reflexivity
  | |- agree (match ?x with _ => _ end) _ => destruct x
  | |- agree _ _ => solve [eauto with agree]
  end.

Section Secrets.
Context `{JTL : JsonTextLaws, SR : StoreReaders, BS : BlockSerde, PH : ProviderHost}.
Variable run_id : string.

Lemma turn_scan_public run key positional r1 r2 events found max_turn :
  same_public r1 r2 ->
  turn_scan run run_id key positional r1 events found max_turn =
  turn_scan run run_id key positional r2 events found max_turn.
Proof.
  intros Hr. revert found max_turn. induction events as [|e events IH]; intros; [done|]. cbn.
  rewrite (fingerprint_public _ _ Hr). destruct (str_eqb (ge_event e) _); [|by apply IH].
  destruct (ok_or _ _) as [turn|]; [|done]. cbn. repeat case_match; auto.
Qed.

Lemma select_public r1 r2 key : same_public r1 r2 -> agree (select_turn run_id r1 key) (select_turn run_id r2 key).
Proof.
  intros Hr s t Hst. unfold select_turn. destruct (alike_inv _ _ Hst) as (_ & -> & _).
  destruct key as [key|]; [|done].
  assert (agree (fs_bind (read_store (fun store => provider_turn_for_step store run_id key (ps_turn t) r1)) or_fail)
                (fs_bind (read_store (fun store => provider_turn_for_step store run_id key (ps_turn t) r2)) or_fail))
    as Ha; [|by apply Ha].
  agree. unfold provider_turn_for_step. destruct (ok_or _ _) as [run|]; [|done]. cbn.
  by rewrite (turn_scan_public _ _ _ _ _ _ _ _ Hr).
Qed.

Lemma decision_public store turn r1 r2 :
  same_public r1 r2 ->
  provider_pending_decision store run_id turn r1 = provider_pending_decision store run_id turn r2.
Proof. intros Hr. unfold provider_pending_decision. by rewrite (fingerprint_public _ _ Hr). Qed.

Lemma request_public turn attempt idempotent r1 r2 s :
  same_public r1 r2 ->
  commit_provider_request run_id turn attempt idempotent r1 s =
  commit_provider_request run_id turn attempt idempotent r2 s.
Proof.
  intros Hr. unfold commit_provider_request, request_payload.
  rewrite (fingerprint_public _ _ Hr), (Hr "_provider_step_key") by set_solver. done.
Qed.

Lemma canonical_public envelope r1 r2 :
  same_public r1 r2 ->
  canonical_provider_step_from_envelope envelope r1 = canonical_provider_step_from_envelope envelope r2.
Proof.
  intros Hr. unfold canonical_provider_step_from_envelope, canonical_provider_step.
  by rewrite (Hr "model"), (Hr "provider") by set_solver.
Qed.

Lemma replay_agrees turn : agree (replay_completed run_id turn) (replay_completed run_id turn).
Proof. unfold replay_completed. agree. Qed.

Lemma fail_agrees turn attempt envelope :
  agree (fail_with run_id turn attempt envelope) (fail_with run_id turn attempt envelope).
Proof. unfold fail_with, persist_classified_failure. agree. Qed.

#[local] Hint Resolve replay_agrees fail_agrees : agree.

Lemma open_public turn attempt r1 r2 :
  same_public r1 r2 -> agree (open_turn run_id turn attempt r1) (open_turn run_id turn attempt r2).
Proof.
  intros Hr. unfold open_turn, recover_pending_provider.
  agree; auto using decision_public, request_public.
Qed.

Lemma close_public turn attempt envelope r1 r2 :
  same_public r1 r2 ->
  agree (close_turn run_id turn attempt envelope r1) (close_turn run_id turn attempt envelope r2).
Proof. intros Hr. unfold close_turn. rewrite (canonical_public envelope _ _ Hr). agree. Qed.

(** C30. What the host stores, publishes and answers depends on the secret part
    of a request only through what the provider answers to it: two requests that
    agree on the five safe fields and on the step key, and to which the provider
    would answer the same on every call, leave the same in-memory store, the
    same durable store, the same trace of storage commands and published events
    and the same answer, whatever messages, prompts, credentials or headers they
    carry. *)
Theorem secrets_never_stored r1 r2 s :
  same_public r1 r2 ->
  (forall n key, ph_inner n (transport_request key r1) = ph_inner n (transport_request key r2)) ->
  ps_commit (fst (call run_id r1 s)) = ps_commit (fst (call run_id r2 s)) /\
  snd (call run_id r1 s) = snd (call run_id r2 s).
Proof.
  intros Hr Hi. assert (agree (call_body run_id r1) (call_body run_id r2)) as Ha.
  { unfold call_body, step_key. rewrite (Hr "_provider_step_key") by set_solver.
    agree; auto using select_public, replay_agrees, open_public, close_public. }
  destruct (Ha s s eq_refl) as [Hs Hsnd]. apply alike_inv in Hs as (Hs & _). unfold call.
  destruct (call_body run_id r1 s) as [s1 a1], (call_body run_id r2 s) as [s2 a2]. cbn in *. subst a2.
  by destruct a1.
Qed.
End Secrets.

(** ** Step keys *)

Section Keys.
Context `{JTL : JsonTextLaws, SR : StoreReaders, BS : BlockSerde, PH : ProviderHost}.
Variable run_id : string.

Abbreviation requested_id turn := (durable_provider_event_id run_id turn "model.requested").
Abbreviation store_of s := (cs_store (ps_commit s)).

Definition request_key (e : GatewayEvent) : option string :=
  if str_eqb (ge_event e) "model.requested" then jget "step_key" (ge_data e) ≫= as_str else None.

(** The log of a run whose requests all carry a key: every request names its
    key and its turn, no key twice, and request identifiers belong to requests. *)
Record keyed_log (run : RunRecord) : Prop := {
  keyed_requests e : e ∈ rr_events run -> ge_event e = "model.requested" ->
    exists k t, jget "step_key" (ge_data e) = Some (JString k) /\ event_turn e = Some t;
  keyed_once : NoDup (omap request_key (rr_events run));
  keyed_named e turn : e ∈ rr_events run -> ge_event e = "model.requested" -> event_turn e = Some turn ->
    ge_event_id e = requested_id turn;
  keyed_ids e turn : e ∈ rr_events run -> is_u64 turn = true -> ge_event_id e = requested_id turn ->
    ge_event e = "model.requested" /\ event_turn e = Some turn
}.

(** The event is the request of this key, with this fingerprint, for a turn. *)
Definition asks (key fingerprint : string) (turn : Z) (e : GatewayEvent) : Prop :=
  ge_event e = "model.requested" /\ jget "step_key" (ge_data e) = Some (JString key) /\
  event_turn e = Some turn /\ jget "request_fingerprint" (ge_data e) ≫= as_str = Some fingerprint.

Lemma asks_key key fp turn e : asks key fp turn e -> request_key e = Some key.
Proof. intros (He & Hk & _). unfold request_key. by rewrite He, Hk. Qed.

Definition all_keyed (events : list GatewayEvent) : Prop :=
  forall e, e ∈ events -> ge_event e = "model.requested" ->
  exists k t, jget "step_key" (ge_data e) = Some (JString k) /\ event_turn e = Some t.

Lemma all_keyed_cons e events :
  all_keyed (e :: events) ->
  all_keyed events /\
  (str_eqb (ge_event e) "model.requested" = false /\ request_key e = None \/
   exists k t, str_eqb (ge_event e) "model.requested" = true /\ jget "step_key" (ge_data e) = Some (JString k) /\
               event_turn e = Some t /\ request_key e = Some k).
Proof.
  intros Hk. split; [intros e' He'; apply Hk; by right|]. unfold request_key.
  destruct (str_eqb (ge_event e) _) eqn:E; [right|by left].
  destruct (Hk e) as (k & t & Hkey & Ht); [by left|by apply str_eqb_true|]. exists k, t. by rewrite Hkey.
Qed.

Section Scan.
Variables (run : RunRecord) (key : string) (positional : Z) (request : Json).
Abbreviation scan := (turn_scan run run_id key positional request).

(** The highest turn a scan has seen. *)
Definition highest (max_turn : Z) (e : GatewayEvent) : Z :=
  if starts_with (s2b (ge_event e)) (s2b "model.") then Z.max max_turn (default 0%Z (event_turn e)) else max_turn.

(** Without a request of its key, the scan changes the highest turn only. *)
Lemma scan_past events found max_turn :
  all_keyed events -> key ∉ omap request_key events ->
  scan events found max_turn = Ok (inr (found, fold_left highest events max_turn)).
Proof.
  revert max_turn. induction events as [|e events IH]; intros m0 Hk Hn; [done|].
  cbn [turn_scan fold_left]. fold (highest m0 e).
  apply all_keyed_cons in Hk as [Hk [[-> Hr]|(k & t & -> & Hkey & Ht & Hr)]]; cbn in Hn; rewrite Hr in Hn; [by apply IH|].
  rewrite Ht, Hkey. cbn [ok_or]. apply not_elem_of_cons in Hn as [Hne Hn].
  rewrite (proj2 (str_eqb_false k key)) by congruence. by apply IH.
Qed.

Lemma scan_found events turn e max_turn :
  all_keyed events -> NoDup (omap request_key events) -> e ∈ events ->
  asks key (canonical_provider_request_fingerprint request) turn e ->
  exists m, scan events None max_turn = Ok (inr (Some turn, m)).
Proof.
  revert max_turn. induction events as [|e0 events IH]; intros m0 Hk Hnd Hin Ha; [by apply not_elem_of_nil in Hin|].
  cbn [turn_scan]. fold (highest m0 e0). pose proof (asks_key _ _ _ _ Ha) as Hrk.
  apply elem_of_cons in Hin as [<-|Hin].
  - apply all_keyed_cons in Hk as [Hk _]. cbn in Hnd. rewrite Hrk in Hnd. apply NoDup_cons in Hnd as [Hn _].
    destruct Ha as (-> & -> & -> & Hfp). cbn [ok_or]. rewrite !str_eqb_refl, bool_decide_eq_true_2 by done.
    rewrite scan_past by done. eauto.
  - apply all_keyed_cons in Hk as [Hk [[-> Hr]|(k & t & -> & Hkey & Ht & Hr)]]; cbn in Hnd; rewrite Hr in Hnd;
      [by apply IH|]. apply NoDup_cons in Hnd as [Hn Hnd]. rewrite Ht, Hkey. cbn [ok_or].
    assert (key ∈ omap request_key events) by (apply list_elem_of_omap; eauto).
    rewrite (proj2 (str_eqb_false k key)) by (intros ->; done). by apply IH.
Qed.

(** A scan that ends has met the key's request, or the key is new. *)
Lemma scan_inv events max_turn r :
  all_keyed events -> NoDup (omap request_key events) -> scan events None max_turn = Ok r ->
  (exists e turn m, e ∈ events /\ asks key (canonical_provider_request_fingerprint request) turn e /\
                    r = inr (Some turn, m)) \/
  (key ∉ omap request_key events) /\ r = inr (None, fold_left highest events max_turn).
Proof.
  intros Hk Hnd Hs. destruct (decide (key ∈ omap request_key events)) as [Hin|Hn].
  2: { rewrite scan_past in Hs by done. injection Hs as <-. by right. }
  left. revert max_turn Hs. induction events as [|e0 events IH]; intros m0 Hs; [by apply not_elem_of_nil in Hin|].
  cbn [turn_scan] in Hs. fold (highest m0 e0) in Hs.
  apply all_keyed_cons in Hk as [Hk [[E Hr]|(k & t & E & Hkey & Ht & Hr)]]; cbn in Hnd, Hin; rewrite Hr in Hnd, Hin;
    rewrite E in Hs.
  - destruct (IH Hk Hnd Hin _ Hs) as (e & turn & m & ? & ?). exists e, turn, m. split; [by right|done].
  - apply NoDup_cons in Hnd as [Hn Hnd]. rewrite Ht, Hkey in Hs. cbn [ok_or] in Hs.
    destruct (str_eqb k key) eqn:Ek.
    + apply str_eqb_true in Ek as ->. case_bool_decide as Hfp; [|done]. rewrite scan_past in Hs by done.
      injection Hs as <-. exists e0, t. eexists. split; [by left|]. split; [|done].
      by apply str_eqb_true in E.
    + apply str_eqb_false in Ek. apply elem_of_cons in Hin as [->|Hin]; [done|].
      destruct (IH Hk Hnd Hin _ Hs) as (e & turn & m & ? & ?). exists e, turn, m. split; [by right|done].
Qed.
End Scan.

(** The key is asked in the store: its request is in a keyed log. *)
Definition asked (key fp : string) (turn : Z) (store : GatewayStore) : Prop :=
  exists run e, gs_runs store !! run_id = Some run /\ all_keyed (rr_events run) /\
    NoDup (omap request_key (rr_events run)) /\ e ∈ rr_events run /\ asks key fp turn e.

(** A key keeps its turn, wherever the host stands. *)
Lemma asked_turn store key turn positional request :
  asked key (canonical_provider_request_fingerprint request) turn store ->
  provider_turn_for_step store run_id key positional request = Ok turn.
Proof.
  intros (run & e & Hrun & Hk & Hnd & Hin & Ha). unfold provider_turn_for_step. rewrite Hrun. cbn [ok_or].
  by destruct (scan_found run key positional request _ _ _ 0 Hk Hnd Hin Ha) as [m ->].
Qed.

(** The log has room for [n] more events. *)
Definition room (n : nat) (store : GatewayStore) : Prop :=
  forall run, gs_runs store !! run_id = Some run -> length (rr_events run) + n <= ph_max_events_per_run.

Definition keyed (store : GatewayStore) : Prop :=
  forall run, gs_runs store !! run_id = Some run -> keyed_log run.

(** Beside a keyed call, other threads leave the requests of the run alone and
    do not fill its log. *)
Class KeyedThreads : Prop := {
  threads_keyed n store : keyed store -> keyed (ph_env n store);
  threads_asked n store key fp turn : asked key fp turn store -> asked key fp turn (ph_env n store);
  threads_room n k store : k <= 2 -> room k store -> room k (ph_env n store);
  threads_steps n store key positional request :
    provider_turn_for_step (ph_env n store) run_id key positional request =
    provider_turn_for_step store run_id key positional request
}.

(** Appending an event that is no request keeps a key asked. *)
Lemma append_other_asked key fp turn store store' run e :
  asked key fp turn store -> gs_runs store !! run_id = Some run ->
  length (rr_events run) + 1 <= ph_max_events_per_run ->
  gs_runs store' !! run_id = Some (apply_event_locked run e ph_max_events_per_run) ->
  ge_event e <> "model.requested" -> asked key fp turn store'.
Proof.
  intros (run0 & x & Hrun0 & Hk & Hnd & Hin & Ha) Hrun Hroom Hrun' Hne. rewrite Hrun in Hrun0. injection Hrun0 as <-.
  exists (apply_event_locked run e ph_max_events_per_run), x. split; [done|]. unfold apply_event_locked.
  destruct (existsb _ _); [done|]. cbn [set_events rr_events].
  rewrite keep_last_all by (rewrite length_app; cbn; lia). split_and!; [| |by apply elem_of_app; left|done].
  - intros y [Hy|Hy%list_elem_of_singleton]%elem_of_app; [by apply Hk|]. by subst y.
  - rewrite omap_app. cbn. unfold request_key at 2. rewrite (proj2 (str_eqb_false _ _)) by done.
    by rewrite app_nil_r.
Qed.

(** A new request of an unused key makes the key asked. *)
Lemma append_request_asked key fp turn store store' run e :
  gs_runs store !! run_id = Some run -> keyed_log run -> key ∉ omap request_key (rr_events run) ->
  length (rr_events run) + 1 <= ph_max_events_per_run ->
  ge_event_id e ∉ map ge_event_id (rr_events run) ->
  gs_runs store' !! run_id = Some (apply_event_locked run e ph_max_events_per_run) ->
  asks key fp turn e -> asked key fp turn store'.
Proof.
  intros Hrun [Hk Hnd _ _] Hn Hroom Hfresh Hrun' Ha.
  exists (apply_event_locked run e ph_max_events_per_run), e. split; [done|].
  rewrite apply_fresh by done. cbn [set_events rr_events].
  rewrite keep_last_all by (rewrite length_app; cbn; lia). split_and!; [| |by apply elem_of_app; right; left|done].
  - intros y [Hy|Hy%list_elem_of_singleton]%elem_of_app; [by apply Hk|]. subst y.
    destruct Ha as (_ & ? & ? & _). eauto.
  - rewrite omap_app. cbn. rewrite (asks_key _ _ _ _ Ha). apply NoDup_app. split_and!; [done| |by apply NoDup_singleton].
    intros x Hx Hx'%list_elem_of_singleton. by subst x.
Qed.

Lemma fold_highest_le events m : (m <= fold_left highest events m)%Z.
Proof.
  revert m. induction events as [|e events IH]; intros m; cbn; [lia|].
  etransitivity; [|apply IH]. unfold highest. case_match; lia.
Qed.

Lemma fold_highest_ge events m e turn :
  e ∈ events -> ge_event e = "model.requested" -> event_turn e = Some turn ->
  (turn <= fold_left highest events m)%Z.
Proof.
  intros Hin He Ht. revert m. induction Hin as [events|x e' events _ IH]; intros m; cbn [fold_left]; [|by apply IH].
  etransitivity; [|apply fold_highest_le]. unfold highest. rewrite He, Ht.
  change (starts_with _ _) with true. cbn [from_option id]. lia.
Qed.

(** The turn of a key is the one it was asked for, or nobody has asked it. *)
Lemma turn_for_step_inv store run key positional request turn :
  gs_runs store !! run_id = Some run -> keyed_log run -> is_u64 turn = true ->
  provider_turn_for_step store run_id key positional request = Ok turn ->
  asked key (canonical_provider_request_fingerprint request) turn store /\
    has_provider_request store run_id turn = true \/
  (key ∉ omap request_key (rr_events run)) /\ has_provider_request store run_id turn = false.
Proof.
  intros Hrun [Hk Hnd Hname Hids] Hu. unfold provider_turn_for_step, has_provider_request. rewrite Hrun. cbn [ok_or].
  destruct (turn_scan _ _ _ _ _ _ _ _) as [r|] eqn:Hs; [|done].
  apply scan_inv in Hs as [(e & t & m & Hin & Ha & ->)|[Hn ->]]; [| |done..].
  - intros [= ->]. left. split; [by exists run, e|]. apply has_event_spec, list_elem_of_fmap.
    destruct Ha as (He & _ & Ht & _). exists e. split; [|done]. symmetry. eauto.
  - destruct (_ && _); [done|]. destruct (_ =? _)%Z; [done|]. intros [= <-]. right. split; [done|].
    destruct (has_event run _) eqn:Hev; [|done]. exfalso.
    apply has_event_spec, list_elem_of_fmap in Hev as (e & Hid & Hin).
    destruct (Hids e _ Hin Hu (eq_sym Hid)) as [He Ht].
    pose proof (fold_highest_ge _ 0 _ _ Hin He Ht). lia.
Qed.

(** The boundary a keyed request stores. *)
Definition keyed_boundary (turn attempt : Z) (key : string) (request : Json) : Json :=
  without_secrets (jset "step_key" (JString key) (request_payload turn attempt true request)).

Definition boundary_fits (turn attempt : Z) (key : string) (request : Json) : Prop :=
  (slen (json_text (keyed_boundary turn attempt key request)) <= ph_max_event_bytes)%Z.

Section KeyedCalls.
Context {HT : HostThreads run_id} {KT : KeyedThreads}.
Hypothesis run_id_short : (slen run_id <= 64)%Z.

(** A call is under way for this key and turn. *)
Definition on_step (key : string) (positional turn : Z) (request : Json) (store : GatewayStore) : Prop :=
  seated run_id store /\ keyed store /\ room 2 store /\
  provider_turn_for_step store run_id key positional request = Ok turn.

Lemma on_step_yield key positional turn request s :
  on_step key positional turn request (store_of s) -> on_step key positional turn request (store_of (yield s)).
Proof.
  intros (Hs & Hk & Hr & Ht). split_and!; cbn;
    [by apply threads_seated|by apply threads_keyed|by apply threads_room; [lia|]|by rewrite threads_steps].
Qed.

Lemma boundary_asks turn attempt key request run (s : CState) :
  boundary_fits turn attempt key request ->
  asks key (canonical_provider_request_fingerprint request) turn
    (named_event s run (requested_id turn) "model.requested" (keyed_boundary turn attempt key request)).
Proof.
  intros Hfit. unfold asks, event_turn, named_event, event_candidate. cbn [ge_event ge_data].
  rewrite (proj2 (Z.ltb_ge _ _)) by exact Hfit. done.
Qed.

Lemma room_append k store store' run e :
  gs_runs store !! run_id = Some run -> room (S k) store ->
  gs_runs store' !! run_id = Some (apply_event_locked run e ph_max_events_per_run) -> room k store'.
Proof.
  intros Hrun Hr Hrun' run' Hr'. rewrite Hrun' in Hr'. injection Hr' as <-. specialize (Hr run Hrun).
  unfold apply_event_locked. case_match; cbn [set_events rr_events]; [lia|].
  rewrite keep_last_length, length_app. cbn. lia.
Qed.

Lemma open_turn_asked key positional turn attempt request s s' :
  is_u64 turn = true -> jget "_provider_step_key" request = Some (JString key) -> step_key_ok key = true ->
  boundary_fits turn attempt key request -> on_step key positional turn request (store_of s) ->
  open_turn run_id turn attempt request s = (s', Ok tt) ->
  asked key (canonical_provider_request_fingerprint request) turn (store_of s') /\ room 1 (store_of s').
Proof.
  intros Hu Hkey Hok Hfit Hs%on_step_yield%on_step_yield Ho. apply open_turn_inv in Ho; [|exact HT].
  set (s2 := yield (yield s)) in *. destruct Hs as ((run & Hrun & Hid & Hse) & Hk & Hroom & Ht).
  pose proof (turn_for_step_inv _ _ _ _ _ _ Hrun (Hk run Hrun) Hu Ht) as Hcase.
  destruct Ho as [[-> Hdec]|(Hq & c & Hc & ->)].
  - destruct Hcase as [[Ha _]|[_ Hno]]; [split; [done|]; intros r Hr; specialize (Hroom r Hr); lia|].
    apply decision_retry in Hdec as (run' & Hrun' & _ & [_ _ (e & Hin & Hide & _) _]).
    rewrite Hrun in Hrun'. injection Hrun' as <-. unfold has_provider_request in Hno. rewrite Hrun in Hno.
    assert (has_event run (requested_id turn) = true); [|congruence].
    apply has_event_spec, list_elem_of_fmap. eauto.
  - assert (has_provider_request (store_of s2) run_id turn = false) as Hno by (cbn; by rewrite !threads_requests).
    destruct Hcase as [[_ Hyes]|[Hn _]]; [congruence|]. unfold commit_provider_request in Hc.
    rewrite Hkey in Hc. cbn [as_str] in Hc. rewrite Hok in Hc.
    apply persist_event_Ok in Hc as (run' & Hrun' & Hcase). rewrite Hrun in Hrun'. injection Hrun' as <-.
    unfold has_provider_request in Hno. rewrite Hrun in Hno. rewrite Hno in Hcase.
    destruct Hcase as [[? _]|(_ & _ & Hst & _)]; [done|]. cbn [ps_commit with_commit]. rewrite Hst.
    destruct (apply_event_store _ (ph_times (S (cs_ticks (ps_commit s2)))) _ run
                (reserve_provider_event run_id (requested_id turn) "model.requested"
                   (keyed_boundary turn attempt key request) run (ps_commit s2)) Hrun Hid eq_refl) as [Hr2 _].
    split; [|exact (room_append 1 _ _ run _ Hrun Hroom Hr2)]. specialize (Hroom run Hrun).
    eapply append_request_asked; [exact Hrun|by apply Hk|exact Hn|lia| |exact Hr2|by apply boundary_asks].
    cbn. intros Hin%has_event_spec. congruence.
Qed.

Lemma commit_step_asked key fp turn turn' step (s s' : CState) o :
  seated run_id (cs_store s) -> asked key fp turn (cs_store s) -> room 1 (cs_store s) ->
  commit_provider_step_with_meta run_id turn' step s = (s', Ok o) -> asked key fp turn (cs_store s').
Proof.
  intros (run & Hrun & Hid & _) Ha Hroom. unfold commit_provider_step_with_meta.
  destruct (let? _ := _ in _); [|done]. rewrite Hrun. destruct (has_event run _); [by intros [= <- _]|].
  destruct (str_eqb _ _); [done|]. destruct (run_refuses_pending_provider run); [done|].
  destruct (reconstruct_provider_envelope _ _ _); [|done].
  destruct (provider_persist _ s) as [s1 [u|e]] eqn:Hp; [|done]. intros [= <- _].
  apply persist_and_apply_spec in Hp as [Hst _]. rewrite Hst.
  eapply append_other_asked; [exact Ha|exact Hrun|exact (Hroom run Hrun)| |].
  - unfold apply_reserved. cbn. rewrite Hid, lookup_alter_eq, Hrun. reflexivity.
  - done.
Qed.

Lemma room_positive store : seated run_id store -> room 2 store -> 0 < ph_max_events_per_run.
Proof. intros (run & Hrun & _) Hr. specialize (Hr run Hrun). lia. Qed.

(** A keyed request that reaches the provider has a valid key. *)
Lemma call_key_ok key request s s1 answer c :
  jget "_provider_step_key" request = Some (JString key) -> call run_id request s = (s1, answer) ->
  ps_calls s1 = ps_calls s ++ [c] -> step_key_ok key = true.
Proof.
  intros Hkey [Hc|(key' & turn & attempt & t1 & t2 & t3 & Hk & _)]%call_inv Hcalls.
  { rewrite Hc in Hcalls. apply (f_equal length) in Hcalls. rewrite length_app in Hcalls. cbn in Hcalls. lia. }
  unfold step_key in Hk. rewrite Hkey in Hk. by destruct (step_key_ok key).
Qed.

(** After a keyed call that succeeded with the provider, the key is asked. *)
Lemma call_asked key request s s1 answer c :
  seated run_id (store_of s) -> keyed (store_of s) -> room 2 (store_of s) ->
  jget "_provider_step_key" request = Some (JString key) ->
  call run_id request s = (s1, answer) -> ps_calls s1 = ps_calls s ++ [c] ->
  is_u64 (call_turn c) = true -> boundary_fits (call_turn c) (call_attempt c) key request ->
  is_success answer ->
  asked key (canonical_provider_request_fingerprint request) (call_turn c) (store_of s1).
Proof.
  intros Hs Hk Hroom Hkey Hcall Hcalls Hu Hfit Hok. pose proof (call_key_ok _ _ _ _ _ _ Hkey Hcall Hcalls) as Hkok.
  apply call_inv in Hcall as
    [Hc|(key' & turn & attempt & t1 & t2 & t3 & Ek & Et & Hp & _ & Ho & r & Hcl & Hr & _ & Hc)];
    rewrite Hc in Hcalls.
  { apply (f_equal length) in Hcalls. rewrite length_app in Hcalls. cbn in Hcalls. lia. }
  apply app_inv_head in Hcalls. injection Hcalls as <-. cbn [call_turn call_attempt] in *.
  unfold step_key in Ek. rewrite Hkey, Hkok in Ek. injection Ek as <-.
  unfold select_turn in Et. apply fs_bind_inv in Et as [(u & a & [= <- Ha] & Et)|(? & _ & [=])].
  destruct a as [turn'|]; [|done]. injection Et as <- ->. rewrite threads_steps in Ha.
  apply replay_Ok in Hp as [-> Hn]; [|exact HT].
  assert (on_step key (ps_turn s) turn request (store_of (yield (yield (set_turn turn (yield s)))))) as Hon.
  { by apply on_step_yield, (on_step_yield _ _ _ _ (set_turn turn (yield s))), (on_step_yield _ _ _ _ s). }
  assert (seated run_id (store_of t3)) as Hs3.
  { eapply open_turn_unanswered; [exact HT|by eapply room_positive|exact run_id_short|exact Hu|apply Hon| |exact Ho]. cbn in *.
    by rewrite !threads_answers in *. }
  destruct (open_turn_asked _ _ _ _ _ _ _ Hu Hkey Hkok Hfit Hon Ho) as [Ha3 Hr3].
  destruct (close_turn_success _ _ _ _ _ _ _ _ _ Hcl Hr Hok) as (step & cst & o & _ & Hcom & _ & Hs').
  rewrite Hs'. eapply commit_step_asked; [| | |exact Hcom]; cbn;
    [by apply threads_seated|by apply threads_asked|by apply threads_room; [lia|]].
Qed.

(** The key is asked in the store, with the request's safe fields, and its turn is
    answered there. *)
Definition key_answered (key : string) (request : Json) (turn : Z) (answer : Json) (store : GatewayStore) : Prop :=
  asked key (canonical_provider_request_fingerprint request) turn store /\
  replay_provider_envelope store run_id turn = Ok (Some answer).

(** C29. A step key names one answer, across restarts.  Suppose that a keyed
    request was sent to the provider and the script got a success with a finish
    reason; that the run's identifier has at most 64 bytes; that its log holds
    well-formed keyed requests only, at most one for a key, and had room for two
    more events, so that none was pruned; that the boundary with the key fits in an event; and that other threads
    neither ask nor answer turns of the run nor fill its log meanwhile.  Then
    the key is recorded with its answer, and from any later state that still
    has both, the one right after the call included, a request with the same
    key and the same safe fields gets the very same envelope without a call of
    the provider, wherever the host's turn counter stands (a host built after a
    restart starts at one). *)
Theorem step_key_names_one_answer key request s s1 answer c :
  seated run_id (store_of s) -> keyed (store_of s) -> room 2 (store_of s) ->
  jget "_provider_step_key" request = Some (JString key) ->
  call run_id request s = (s1, answer) -> ps_calls s1 = ps_calls s ++ [c] ->
  is_u64 (call_turn c) = true -> boundary_fits (call_turn c) (call_attempt c) key request ->
  is_success answer -> is_Some (jget "response" answer ≫= jget "finish_reason") ->
  key_answered key request (call_turn c) answer (store_of s1) /\
  forall request2 s2, same_public request request2 -> key_answered key request (call_turn c) answer (store_of s2) ->
  exists s3, call run_id request2 s2 = (s3, answer) /\ ps_calls s3 = ps_calls s2.
Proof.
  intros Hs Hk Hroom Hkey Hcall Hcalls Hu Hfit Hok Hfin. pose proof (room_positive _ Hs Hroom) as Hlog.
  split; [split; [by eapply call_asked|by eapply (call_answers run_id Hlog run_id_short)]|].
  intros request2 s2 Hsame [Hasked Hans].
  assert (exists s', call run_id request2 s2 = (s', answer) /\ ps_calls s' = ps_calls s2 /\
                     ps_turn s' = wrap64 (call_turn c + 1)) as (s' & ? & ? & _); [|eauto].
  eapply (call_replays_at run_id (Some key) (call_turn c) request2 s2 (yield s2)).
  - unfold step_key. rewrite <- (Hsame "_provider_step_key"), Hkey by set_solver.
    by rewrite (call_key_ok _ _ _ _ _ _ Hkey Hcall Hcalls).
  - unfold select_turn. erewrite fs_bind_Ok by reflexivity. cbn [store_of].
    rewrite (asked_turn _ key (call_turn c)); [done|]. cbn.
    rewrite <- (fingerprint_public _ _ Hsame). by apply threads_asked.
  - cbn. by rewrite threads_answers.
Qed.
End KeyedCalls.
End Keys.

(** ** Storing a step *)

Section Storing.
Context `{JTL : JsonTextLaws, SR : StoreReaders, PH : ProviderHost}.

(** The blocks a provider answer is reduced to. *)
Inductive canonical_block : LlmContentBlock -> Prop :=
| CanonicalText t cut : canonical_block (plain_text t cut)
| CanonicalCall cid name' args value cut : canonical_block (call_block cid name' args value cut).

Lemma decode_strict_canonical v b : decode_provider_block_strict v = Ok b -> canonical_block b.
Proof.
  unfold decode_provider_block_strict. intros Hd. destruct v as [| | | | |[|kv m]]; try done.
  destruct (obj_get "type" _ ≫= as_str) as [t|]; [|done]. destruct (str_eqb t "text").
  - destruct (_ ≫= as_str) as [x|]; [|done]. injection Hd as <-. constructor.
  - destruct (str_eqb t "tool_call"); [|done]. destruct (is_empty _ || is_empty _); [done|].
    destruct (bool_decide _); [done|]. destruct (parse_strict_tool_arguments _) as [args|]; [|done].
    injection Hd as <-. constructor.
Qed.

Lemma try_map_Forall {A B E} (f : A -> result B E) (P : B -> Prop) l k :
  (forall a b, f a = Ok b -> P b) -> try_map f l = Ok k -> Forall P k.
Proof.
  intros Hf. revert k. induction l as [|a l IH]; intros k Hm; cbn in Hm; [by injection Hm as <-|].
  destruct (f a) as [b|] eqn:Hb; [|done]. cbn in Hm. destruct (try_map f l) as [k'|]; [|done].
  injection Hm as <-. constructor; eauto.
Qed.

Lemma canonical_step_blocks envelope request step :
  canonical_provider_step_from_envelope envelope request = Ok step -> Forall canonical_block (st_blocks step).
Proof.
  unfold canonical_provider_step_from_envelope. intros Hc.
  destruct (jget "response" envelope) as [response|]; [|done]. destruct (negb _); [done|].
  destruct (misfit is_string _); [done|].
  destruct (match jget "usage" response with Some _ => _ | None => _ end); [|done]. cbn in Hc.
  destruct (misfit is_array _); [done|]. unfold canonical_provider_step in Hc.
  destruct (match jget "content" response with Some _ => _ | None => _ end) as [blocks|] eqn:Hb; [|done].
  assert (Forall canonical_block blocks) as Hf.
  { destruct (jget "content" response) as [c|]; [|by injection Hb as <-]. apply map_err_Ok in Hb.
    unfold decode_provider_blocks_strict in Hb. destruct c; try done.
    by eapply try_map_Forall, Hb; intros; eapply decode_strict_canonical. }
  cbn in Hc. injection Hc as <-. cbn [st_blocks].
  set (b1 := match blocks with [] => _ | _ => _ end).
  assert (Forall canonical_block b1) as Hf1.
  { unfold b1. destruct blocks; [|done]. destruct (_ ≫= as_str) as [t|]; [|done].
    destruct (is_empty t); repeat constructor. }
  set (b2 := if existsb _ b1 then b1 else _).
  assert (Forall canonical_block b2) as Hf2.
  { unfold b2. destruct (existsb _ b1); [done|]. destruct (_ ≫= as_array) as [calls|]; [|done].
    apply Forall_app. split; [done|]. apply Forall_map, Forall_true. constructor. }
  destruct b2; [repeat constructor|done].
Qed.

(** What storage keeps of a block: the arguments as text, and no [false] mark. *)
Definition stored_block (b : LlmContentBlock) : LlmContentBlock := {|
  block_type := block_type b; text := text b; tool_call_id := tool_call_id b; name := name b;
  arguments_json := arguments_json b; arguments := None; content := content b; is_error := is_error b;
  result_ := result_ b; error := error b; artifact := artifact b;
  truncated := if bool_decide (truncated b = Some true) then Some true else None |}.

Lemma bound_text_short t : length (chars t) <= MAX_DURABLE_TEXT_CHARS -> bound_text (Some t) = (Some t, false).
Proof.
  intros Hl. unfold bound_text.
  rewrite truncate_utf8_chars_spec, take_ge, of_chars_chars, bool_decide_eq_false_2; [done|lia|done].
Qed.

(** A valid block has a short text or short arguments that are an object. *)
Lemma validate_text t cut :
  validate_provider_block (plain_text t cut) = Ok tt -> length (chars t) <= MAX_DURABLE_TEXT_CHARS.
Proof. unfold validate_provider_block. cbn. case_bool_decide; [done|lia]. Qed.

Lemma validate_call cid name' args value cut :
  validate_provider_block (call_block cid name' args value cut) = Ok tt ->
  exists i n a v, cid = Some i /\ name' = Some n /\ args = Some a /\ is_empty i = false /\ is_empty n = false /\
    cut <> Some true /\ (slen a <= Z.of_nat MAX_DURABLE_TEXT_CHARS)%Z /\ str_valid a = true /\
    json_parse a = Ok (JObject v).
Proof.
  unfold validate_provider_block. cbn [text call_block block_type tool_call_id name truncated arguments_json].
  cbn [str_eqb]. intros Hv. change (str_eqb "tool_call" "tool_call") with true in Hv. cbn [negb] in Hv.
  destruct cid as [i|]; [|done]. cbn [from_option id] in Hv.
  destruct name' as [n|]; cbn [from_option id] in Hv; [|by rewrite orb_true_r in Hv].
  destruct (is_empty i) eqn:Hi, (is_empty n) eqn:Hn; try done. cbn in Hv.
  case_bool_decide; [done|]. destruct args as [a|]; [|done].
  destruct (Z.ltb_spec (Z.of_nat MAX_DURABLE_TEXT_CHARS) (slen a)); [done|].
  destruct (str_valid a) eqn:Ha; [|done]. cbn in Hv. destruct (json_parse a) as [v|] eqn:Hp; [|done].
  destruct v as [| | | | |v]; try done. exists i, n, a, v. by split_and!.
Qed.

Definition storable (b : LlmContentBlock) : Prop := canonical_block b /\ validate_provider_block b = Ok tt.

Lemma short_arguments a : (slen a <= Z.of_nat MAX_DURABLE_TEXT_CHARS)%Z -> length (chars a) <= MAX_DURABLE_TEXT_CHARS.
Proof. intros Ha. pose proof (length_chars_le a). lia. Qed.

Lemma bound_storable b : storable b -> bound_content_block b = stored_block b.
Proof.
  intros [Hc Hv]. destruct Hc as [t cut|cid name' args value cut].
  - apply validate_text in Hv. unfold bound_content_block, stored_block.
    cbn [plain_text text content arguments_text arguments_json arguments result_ error truncated].
    rewrite bound_text_short by done. cbn. by destruct cut as [[]|].
  - apply validate_call in Hv as (i & n & a & v & -> & -> & -> & _ & _ & Hcut & Ha & _).
    unfold bound_content_block, stored_block, arguments_text.
    cbn [call_block text content arguments_json arguments result_ error truncated].
    rewrite bound_text_short by (by apply short_arguments). cbn. by destruct cut as [[]|].
Qed.

Lemma encode_storable blocks :
  Forall storable blocks ->
  encode_message_content blocks = JArray (map (fun b => derived_to_value (stored_block b)) blocks).
Proof.
  intros Hf. unfold encode_message_content. f_equal. apply map_ext_in. intros b Hb%list_elem_of_In.
  rewrite Forall_forall in Hf. cbn. by rewrite bound_storable by auto.
Qed.

Lemma stored_truncated b : storable b -> block_type b = "tool_call" -> truncated (stored_block b) = None.
Proof.
  intros [Hc Hv] Ht. destruct Hc; [done|].
  apply validate_call in Hv as (i & n & a & v & _ & _ & _ & _ & _ & Hcut & _). cbn.
  by rewrite bool_decide_eq_false_2.
Qed.

Lemma validate_stored b : storable b -> validate_provider_block (stored_block b) = Ok tt.
Proof.
  intros Hb. pose proof (stored_truncated b Hb) as Ht. destruct Hb as [Hc Hv].
  unfold validate_provider_block in *. cbn [stored_block text block_type tool_call_id name arguments_json].
  destruct Hc; [done|]. rewrite (Ht eq_refl). revert Hv. cbn [call_block text block_type truncated]. 
  repeat case_match; bool_to_prop; naive_solver.
Qed.

(** The members of a stored block. *)
Lemma stored_get b :
  exists kv m, derived_fields (stored_block b) = kv :: m.
Proof.
  destruct (derived_fields (stored_block b)) as [|kv m] eqn:E; [|eauto].
  destruct (derived_get_strings (stored_block b)) as (Ht & _). by rewrite E in Ht.
Qed.

Lemma decode_stored b : storable b -> decode_provider_block_strict (derived_to_value (stored_block b)) = Ok (stored_block b).
Proof.
  intros Hb. unfold decode_provider_block_strict, derived_to_value.
  destruct (stored_get b) as (kv & m & E). rewrite E.
  destruct (derived_get_strings (stored_block b)) as (Ht & Hx & Hi & Hn & Ha & _).
  destruct (derived_get_values (stored_block b)) as (_ & _ & _ & _ & _ & Hc).
  pose proof (stored_truncated b Hb) as Htr.
  unfold get_or. cbn [jget]. unfold parse_strict_tool_arguments. rewrite E in *. rewrite Ht, Hx, Hi, Hn, Ha, Hc.
  destruct Hb as [Hcb Hv]. destruct Hcb as [t cut|cid name' args value cut].
  - by destruct cut as [[]|].
  - rewrite (Htr eq_refl). apply validate_call in Hv as (i & n & a & v & -> & -> & -> & Hi' & Hn' & Hcut & _ & _ & Hp).
    cbn. rewrite Hi', Hn'. cbn. rewrite Hp. by destruct cut as [[]|].
Qed.

Lemma stored_value_roundtrip b : storable b -> decode_one_block (derived_to_value (stored_block b)) = stored_block b.
Proof.
  intros [Hc _]. unfold decode_one_block. cbn [block_from_value derived_serde].
  rewrite derived_value_roundtrip by (by destruct Hc).
  destruct Hc as [t cut|cid name' args value cut]; unfold arguments_text; cbn; destruct cut as [[]|];
    by try destruct args.
Qed.

Lemma validate_blocks_Forall blocks :
  validate_provider_blocks blocks = Ok tt <-> Forall (fun b => validate_provider_block b = Ok tt) blocks.
Proof.
  induction blocks as [|b blocks IH]; cbn; [done|]. rewrite Forall_cons, <- IH.
  destruct (validate_provider_block b) as [[]|]; cbn; naive_solver.
Qed.

Lemma try_map_pointwise {A B C E} (f : A -> result B E) (g : C -> B) (h : C -> A) l :
  Forall (fun a => f (h a) = Ok (g a)) l -> try_map f (map h l) = Ok (map g l).
Proof. induction 1 as [|a l Ha _ IH]; [done|]. cbn [map try_map]. by rewrite Ha, IH. Qed.

(** The text of a step, and its calls as the script sees them. *)
Definition step_text (blocks : list LlmContentBlock) : string := foldr String.append EmptyString (omap text blocks).

Definition call_view (b : LlmContentBlock) : option Json :=
  match tool_call_id b, name b, arguments_json b with
  | Some i, Some n, Some a =>
      match json_parse a with
      | Ok v => Some (jobj [("id", JString i); ("name", JString n); ("arguments", v);
                            ("arguments_json", JString a)])
      | Err _ => None
      end
  | _, _, _ => None
  end.

Lemma string_app_empty_r t : t +:+ EmptyString = t.
Proof. induction t as [|c t IH]; [done|]. change (String c (t +:+ EmptyString) = String c t). by f_equal. Qed.

Lemma string_app_assoc t1 t2 t3 : (t1 +:+ t2) +:+ t3 = t1 +:+ (t2 +:+ t3).
Proof. induction t1 as [|c t IH]; [done|]. change (String c ((t +:+ t2) +:+ t3) = String c (t +:+ (t2 +:+ t3))). by f_equal. Qed.

Lemma read_stored blocks out calls :
  Forall storable blocks ->
  try_fold read_block (out, calls) (map stored_block blocks) =
  Ok (out +:+ step_text blocks, calls ++ omap call_view blocks).
Proof.
  intros Hf. revert out calls. induction Hf as [|b blocks [Hc Hv] _ IH]; intros out calls.
  { cbn [map try_fold omap list_omap]. by rewrite app_nil_r, string_app_empty_r. }
  destruct Hc as [t cut|cid name' args value cut].
  - transitivity (try_fold read_block (out +:+ t, calls) (map stored_block blocks)); [reflexivity|].
    by rewrite IH, string_app_assoc.
  - apply validate_call in Hv as (i & n & a & v & -> & -> & -> & Hi & Hn & _ & _ & _ & Hp).
    set (view := jobj [("id", JString i); ("name", JString n); ("arguments", JObject v);
                       ("arguments_json", JString a)]).
    transitivity (try_fold read_block (out, calls ++ [view]) (map stored_block blocks)).
    + cbn [map try_fold]. unfold read_block at 1. cbn. by rewrite Hp, Hi, Hn.
    + rewrite IH, <- app_assoc. unfold step_text. cbn. unfold call_view at 2. cbn. by rewrite Hp.
Qed.

(** The envelope of a stored step, member by member. *)
Definition shows (step : CanonicalProviderStep) (envelope : Json) : Prop :=
  let member k := jget "response" envelope ≫= jget k in
  jget "ok" envelope = Some (JBool true) /\
  member "text" = Some (JString (step_text (st_blocks step))) /\
  member "tool_calls" = Some (JArray (omap call_view (st_blocks step))) /\
  member "finish_reason" = JString <$> st_finish_reason step /\
  member "stop_reason" = JString <$> st_finish_reason step /\
  member "model" = JString <$> non_empty_str (st_model step) /\
  member "provider" = JString <$> non_empty_str (st_provider step) /\
  member "truncated" = JBool <$> st_truncated step /\
  member "reasoning" = st_reasoning step.

(** Looks a literal key up in a chain of insertions. *)
Ltac member_get :=
  rewrite ?obj_get_insert_opt, ?obj_get_insert;
  repeat match goal with
  | |- context [str_eqb ?a ?b] =>
      let v := eval vm_compute in (str_eqb a b) in change (str_eqb a b) with v
  end; cbn iota.

Lemma metadata_members turn step :
  let get k := jget k (step_metadata turn step) in
  get "model" = JString <$> non_empty_str (st_model step) /\
  get "provider" = JString <$> non_empty_str (st_provider step) /\
  get "truncated" = JBool <$> st_truncated step /\ get "reasoning" = st_reasoning step.
Proof.
  cbv zeta. unfold step_metadata. cbn [jget].
  split_and!; member_get; by repeat case_match.
Qed.

Lemma not_empty_text_JString o : not_empty_text (JString <$> non_empty_str o) = JString <$> non_empty_str o.
Proof. destruct o as [t|]; [|done]. cbn. by destruct (is_empty t) eqn:E; cbn; rewrite ?E. Qed.

Lemma reconstruct_stored turn step :
  Forall storable (st_blocks step) ->
  exists envelope, reconstruct_provider_envelope (encode_message_content (st_blocks step))
                     (step_metadata turn step) (st_finish_reason step) = Ok envelope /\
                   shows step envelope.
Proof.
  intros Hf. rewrite encode_storable by done. unfold reconstruct_provider_envelope, decode_provider_blocks_strict.
  rewrite (try_map_pointwise _ stored_block) by (eapply Forall_impl; [exact Hf|apply decode_stored]).
  assert (validate_provider_blocks (map stored_block (st_blocks step)) = Ok tt) as ->.
  { apply validate_blocks_Forall, Forall_map. eapply Forall_impl; [exact Hf|apply validate_stored]. }
  rewrite read_stored by done. eexists. split; [reflexivity|]. cbn [fst snd].
  unfold shows. rewrite !envelope_response. cbn [mbind option_bind jget].
  destruct (metadata_members turn step) as (-> & -> & -> & ->). rewrite !not_empty_text_JString.
  split_and!; [done|member_get; by repeat case_match..].
Qed.

Lemma provider_persist_error reserved (s s' : CState) e :
  provider_persist reserved s = (s', Err e) -> exists m, e = PersistFailed m.
Proof.
  unfold provider_persist, persist_and_apply. destruct (if ph_persistence then _ else _) as [s1 [u|m]];
    intros [= <- <-]. eauto.
Qed.

(** A provider answer that passes validation is never lost between the
    provider and the script: while the run is live and the turn unanswered, the
    commit ends with the step stored and the script is given the envelope read
    back from what was stored (the text of the blocks in order, every tool call
    with its identifier, name and arguments, finish reason, model, provider,
    truncation and reasoning unchanged), or storage refuses it and memory is as
    before; no third outcome exists. *)
Theorem validated_step_commits run_id turn envelope request step run (s s' : CState) r :
  canonical_provider_step_from_envelope envelope request = Ok step ->
  validate_provider_blocks (st_blocks step) = Ok tt ->
  gs_runs (cs_store s) !! run_id = Some run -> run_refuses_pending_provider run = false ->
  has_event run (durable_provider_event_id run_id turn "model.completed") = false ->
  commit_provider_step_with_meta run_id turn step s = (s', r) ->
  match r with
  | Ok (Inserted c) => shows step (pc_envelope c)
  | Ok (Existing _) => False
  | Err e => ph_persistence = true /\ (exists m, e = PersistFailed m) /\ cs_store s' = cs_store s
  end.
Proof.
  intros Hc Hv Hrun Hr He.
  assert (Forall storable (st_blocks step)) as Hf.
  { apply Forall_and. split; [by eapply canonical_step_blocks|by apply validate_blocks_Forall]. }
  unfold commit_provider_step_with_meta. rewrite Hv.
  assert (validate_provider_blocks (decode_message_blocks (encode_message_content (st_blocks step))) = Ok tt) as ->.
  { rewrite encode_storable by done. cbn [decode_message_blocks]. rewrite map_map.
    apply validate_blocks_Forall, Forall_map. eapply Forall_impl; [exact Hf|].
    intros b Hb. cbn. rewrite stored_value_roundtrip by done. by apply validate_stored. }
  rewrite Hrun, He, Hr. destruct (reconstruct_stored turn step Hf) as (out & -> & Hshow).
  rewrite (proj2 (str_eqb_false _ _)).
  2: { intros Hs. apply not_refused_not_over in Hr as [Hr _]. rewrite Hs in Hr. set_solver. }
  destruct (provider_persist _ s) as [s1 [u|e]] eqn:Hp; intros [= <- <-]; [done|].
  pose proof (provider_persist_error _ _ _ _ Hp).
  by apply persist_and_apply_spec in Hp as (? & ? & _).
Qed.
End Storing.
End ProviderSpec.

(** ** A run at work *)

Module ProviderExample.
Import ProviderSpec.

#[local] Existing Instance CompactText.compact_text.
#[local] Existing Instance CompactText.compact_text_laws.
#[local] Existing Instance derived_serde.

(** The one argument text of the example. *)
#[local] Instance one_text : StoreReaders := {|
  json_parse t := if str_eqb t "{}" then Ok (JObject []) else Err t; workspace_from_value _ := None |}.

Definition example_run : RunRecord := {|
  rr_run_id := "r1"; rr_session_id := "s1"; rr_parent_run_id := None; rr_status := "running";
  rr_events := []; rr_sender := true; rr_cancel_requested := false |}.

Definition example_session : SessionRecord := {|
  sr_view := {| sv_id := "s1"; sv_object := "hermes.session"; sv_title := None; sv_model := "m";
                sv_provider := None; sv_source := "api"; sv_system_prompt := None; sv_workspace := None;
                sv_created_at := 1; sv_updated_at := 1; sv_message_count := 0; sv_end_reason := None |};
  sr_messages := [] |}.

Definition example_state : CommitState (D := list Json) := {|
  cs_store := {| gs_sessions := {["s1" := example_session]}; gs_runs := {["r1" := example_run]};
                 gs_jobs := ∅; gs_idempotency := ∅ |};
  cs_durable := []; cs_trace := []; cs_ids := 0; cs_ticks := 0; cs_attempts := 0; cs_failures := 0;
  cs_truncations := 0 |}.

Definition accept (payload : Json) (d : list Json) : list Json * result Json string := (payload :: d, Ok JNull).

Definition provider_with (inner : nat -> Json -> Json) : ProviderHost := {|
  PD := list Json; ph_event_append := accept; ph_step_commit := accept; ph_event_append_pair := accept;
  ph_uuids _ := "uuid"; ph_times n := Z.of_nat n; ph_persistence := true; ph_max_event_bytes := 4096;
  ph_max_events_per_run := 100; ph_inner := inner; ph_env _ store := store |}.

(** An answer with a text and a tool call. *)
Definition example_answer : Json :=
  jobj [("ok", JBool true);
        ("response", jobj [("text", JString "reading"); ("stop_reason", JString "tool_use");
                           ("tool_calls", JArray [jobj [("id", JString "c1"); ("name", JString "read_file");
                                                        ("arguments_json", JString "{}")]])])].

Definition overloaded : Json :=
  jobj [("ok", JBool false); ("error", jobj [("code", JString "overloaded"); ("status", JNumber (PosInt 529))])].

Definition example_request (key : string) : Json :=
  jobj [("model", JString "m"); ("api_key", JString "secret"); ("_provider_step_key", JString key)].

Definition plain_request (secret : string) : Json := jobj [("model", JString "m"); ("api_key", JString secret)].

#[local] Instance steady : ProviderHost := provider_with (fun _ _ => example_answer).

#[local] Instance steady_threads : HostThreads "r1".
Proof. split; done. Qed.

#[local] Instance steady_keyed : KeyedThreads "r1".
Proof. split; done. Qed.

Definition host : PState := new_host example_state 0.

Lemma host_seated : seated "r1" (cs_store (ps_commit host)).
Proof. exists example_run. by split_and!. Defined.

(** Three attempts at a turn that keeps failing, then it is given up. *)
Example budget_spent :
  let fix ask n s := match n with
                     | 0 => s
                     | S n => ask n (fst (call (PH := provider_with (fun _ _ => overloaded)) "r1"
                                            (plain_request "k") s))
                     end in
  let s := ask 3 (new_host (PH := provider_with (fun _ _ => overloaded)) example_state 0) in
  let last := call (PH := provider_with (fun _ _ => overloaded)) "r1" (plain_request "k") s in
  length (ps_calls s) = 3 /\ length (ps_calls (fst last)) = 3 /\
  (jget "error" (snd last) ≫= jget "code") = Some (JString "interrupted_provider").
Proof. vm_compute. by split_and!. Qed.

(** *** The theorems at this run *)

Local Abbreviation first := (call "r1" (plain_request "k") host).
Local Abbreviation keyed_first := (call "r1" (example_request "step-1") host).

(** The call of the provider a host has made. *)
Definition made (s : PState) : ProviderCall :=
  default {| call_turn := 0; call_attempt := 0; call_request := JNull;
             call_store := cs_store example_state; call_trace := [] |} (last (ps_calls s)).

Lemma log_is_kept : 0 < ph_max_events_per_run.
Proof. by apply Nat.ltb_lt. Qed.

Lemma id_is_short : (slen "r1" <= 64)%Z.
Proof. by apply Z.leb_le. Qed.


(** A host built later, at some turn. *)
Local Abbreviation later turn s := (set_turn turn (new_host (ps_commit (fst s)) 7)).

Lemma later_store turn c : cs_store (ps_commit (set_turn turn (new_host c 7))) = cs_store c.
Proof. reflexivity. Qed.

Lemma later_turn turn c : ps_turn (set_turn turn (new_host c 7)) = turn.
Proof. reflexivity. Qed.

Lemma answered_turn_is_replayed_witness :
  call_turn (made (fst first)) = 1%Z /\
  exists s3, call "r1" (plain_request "k") (later 1 first) = (s3, snd first) /\
    ps_calls s3 = ps_calls (later 1 first) /\ ps_turn s3 = wrap64 (call_turn (made (fst first)) + 1).
Proof.
  assert (call_turn (made (fst first)) = 1%Z) as Ht by (vm_compute; reflexivity). split; [exact Ht|].
  refine (answered_turn_is_replayed "r1" log_is_kept id_is_short (plain_request "k") host (fst first)
            (snd first) (made (fst first)) host_seated (surjective_pairing first) _ _ _ _
            (plain_request "k") (later 1 first) eq_refl (later_store 1 (ps_commit (fst first)))
            (eq_trans (later_turn 1 (ps_commit (fst first))) (eq_sym Ht))).
  - vm_compute. reflexivity.
  - rewrite Ht. reflexivity.
  - vm_compute. reflexivity.
  - vm_compute. eauto.
Defined.

Lemma secrets_never_stored_witness :
  ps_commit (fst first) = ps_commit (fst (call "r1" (plain_request "other") host)) /\
  snd first = snd (call "r1" (plain_request "other") host).
Proof.
  apply (secrets_never_stored "r1" (plain_request "k") (plain_request "other") host); [|done].
  intros k Hk. repeat (apply elem_of_cons in Hk as [->|Hk]; [reflexivity|]). by apply not_elem_of_nil in Hk.
Defined.

Definition example_step : CanonicalProviderStep :=
  match canonical_provider_step_from_envelope example_answer (plain_request "k") with
  | Ok step => step
  | Err _ => {| st_blocks := []; st_usage := None; st_finish_reason := None; st_model := None;
                st_provider := None; st_truncated := None; st_reasoning := None |}
  end.

Lemma validated_step_commits_witness :
  step_text (st_blocks example_step) = "reading" /\
  match snd (commit_provider_step_with_meta "r1" 1 example_step example_state) with
  | Ok (Inserted c) => shows example_step (pc_envelope c)
  | _ => False
  end.
Proof.
  split; [vm_compute; reflexivity|].
  pose proof (validated_step_commits "r1" 1 example_answer (plain_request "k") example_step example_run example_state
    _ _ ltac:(vm_compute; reflexivity) ltac:(vm_compute; reflexivity) eq_refl eq_refl eq_refl
    (surjective_pairing _)) as H.
  destruct (snd _) as [[c|c]|e] eqn:E; [exact H|destruct H|].
  exfalso. clear H. vm_compute in E. discriminate E.
Defined.

Lemma step_key_names_one_answer_witness :
  exists s3, call "r1" (example_request "step-1") (later 5 keyed_first) = (s3, snd keyed_first) /\
             ps_calls s3 = ps_calls (later 5 keyed_first).
Proof.
  refine (let '(conj A B) := step_key_names_one_answer "r1" id_is_short "step-1" (example_request "step-1") host
            (fst keyed_first) (snd keyed_first) (made (fst keyed_first)) host_seated _ _ eq_refl
            (surjective_pairing keyed_first) _ _ _ _ _ in
          B (example_request "step-1") (later 5 keyed_first) (fun k _ => eq_refl)
            (eq_ind_r (key_answered "r1" "step-1" (example_request "step-1") (call_turn (made (fst keyed_first))) (snd keyed_first))
              A (later_store 5 (ps_commit (fst keyed_first))))).
  - intros run [= <-]. split; [by intros ? ?%not_elem_of_nil|constructor|by intros ? ? ?%not_elem_of_nil..].
  - intros run [= <-]. by apply Nat.leb_le.
  - vm_compute. reflexivity.
  - vm_compute. reflexivity.
  - apply Z.leb_le. vm_compute. reflexivity.
  - vm_compute. reflexivity.
  - vm_compute. eauto.
Defined.

(** A step without a finish reason is answered once without one and, replayed,
    with an empty one. *)
Definition no_reason : Json :=
  jobj [("ok", JBool true); ("response", jobj [("text", JString "hi")])].

Example replay_adds_finish_reason :
  let answers := call (PH := provider_with (fun _ _ => no_reason)) "r1" (plain_request "k")
                   (new_host (PH := provider_with (fun _ _ => no_reason)) example_state 0) in
  let again := call (PH := provider_with (fun _ _ => no_reason)) "r1" (plain_request "k")
                 (new_host (PH := provider_with (fun _ _ => no_reason)) (ps_commit (fst answers)) 0) in
  jget "response" (snd answers) ≫= jget "finish_reason" = None /\
  jget "response" (snd again) ≫= jget "finish_reason" = Some (JString EmptyString) /\
  ps_calls (fst again) = [].
Proof. vm_compute. by split_and!. Qed.
End ProviderExample.
