(* ===== verification/Approvals.v ===== *)
(** * Pending approvals ([src/service.rs], [src/durable_provider.rs])

    A tool call that needs a person's consent is a durable approval row and an
    in-memory preview of the action.  The script's host requests the row and
    binds the preview to it; a person lists the pending approvals of a run and
    resolves one of them.  An approval can be granted only while the preview the
    person was shown is still bound to exactly that call.

    The storage commands are one parameter, as are clock readings.  Other
    threads may change runs, contexts and previews before each access
    ([ap_env]); each storage command is recorded with the state the operation
    saw when it sent it. *)

From S2P Require Import Prelude Utf8 Json Store Events Commit Provider.

Definition MAX_PENDING_APPROVAL_PREVIEWS : Z := 256.
Definition MAX_APPROVAL_PREVIEW_BYTES : Z := 2048.

Record PendingApprovalPreview := {
  pp_session_id : string;
  pp_tool_call_id : string;
  pp_tool_name : string;
  pp_risk_class : string;
  pp_expires_at_ms : Z;
  pp_text : string
}.

Record PreviewBinding := {
  pb_session_id : string;
  pb_approval_id : string;
  pb_tool_call_id : string;
  pb_tool_name : string;
  pb_risk_class : string;
  pb_expires_at_ms : Z
}.

(** What the operations read of a run handle. *)
Record LiveRun := { lr_terminal : bool; lr_cancel_requested : bool }.

Record ApprovalView := {
  av_handles : gmap string LiveRun;
  av_contexts : gmap string string;
  av_previews : gmap (string * string) PendingApprovalPreview
}.

Class ApprovalStorage := {
  AD : Type;
  ap_command : string -> Json -> AD -> AD * result Json StorageError;
  ap_persistence : bool;
  ap_times : nat -> Z;
  ap_max_concurrent_runs : Z;
  ap_env : nat -> ApprovalView -> ApprovalView
}.

(** A storage command and its answer, with what the operation knew when it
    sent it. *)
Record SentCommand := {
  sent_command : string;
  sent_payload : Json;
  sent_answer : result Json StorageError;
  sent_view : ApprovalView
}.

Section Approvals.
Context `{AS : ApprovalStorage}.

Record AState := {
  as_view : ApprovalView;
  as_durable : AD;
  as_sent : list SentCommand;
  as_ticks : nat;
  as_steps : nat
}.

Definition with_view (v : ApprovalView) (s : AState) : AState := {|
  as_view := v; as_durable := as_durable s; as_sent := as_sent s; as_ticks := as_ticks s;
  as_steps := as_steps s |}.

Definition with_previews (p : gmap (string * string) PendingApprovalPreview) (v : ApprovalView) :
    ApprovalView := {|
  av_handles := av_handles v; av_contexts := av_contexts v; av_previews := p |}.

(** A computation continues with a value or has failed with a code. *)
Definition AM (A : Type) : Type := FS AState string A.

(** A lock is taken: other threads have had their turn. *)
Definition a_yield (s : AState) : AState := {|
  as_view := ap_env (as_steps s) (as_view s); as_durable := as_durable s; as_sent := as_sent s;
  as_ticks := as_ticks s; as_steps := S (as_steps s) |}.

Definition read_view {A} (f : ApprovalView -> A) : AM A := fun s =>
  let s := a_yield s in (s, Ok (f (as_view s))).

(** [previews.lock()] and what the holder does with the map. *)
Definition on_previews {A}
    (f : gmap (string * string) PendingApprovalPreview ->
         gmap (string * string) PendingApprovalPreview * result A string) : AM A := fun s =>
  let s := a_yield s in
  let '(p, r) := f (av_previews (as_view s)) in (with_view (with_previews p (as_view s)) s, r).

(** [i64::try_from(timestamp()).unwrap_or(i64::MAX)]. *)
Definition now_ms : AM Z := fun s =>
  let t := ap_times (as_ticks s) in
  ({| as_view := as_view s; as_durable := as_durable s; as_sent := as_sent s;
      as_ticks := S (as_ticks s); as_steps := as_steps s |},
   Ok (if (t <=? i64_max)%Z then t else i64_max)).

Definition command (name : string) (payload : Json) : AM (result Json StorageError) := fun s =>
  let '(d, r) := ap_command name payload (as_durable s) in
  ({| as_view := as_view s; as_durable := d;
      as_sent := as_sent s ++ [{| sent_command := name; sent_payload := payload; sent_answer := r;
                                  sent_view := as_view s |}];
      as_ticks := as_ticks s; as_steps := as_steps s |}, Ok r).

Definition approval_get (approval_id : string) : AM (result Json StorageError) :=
  command "approval.get" (jobj [("approval_id", JString approval_id)]).

Definition approval_list (run_id session_id : string) : AM (result Json StorageError) :=
  command "approval.list" (jobj [("run_id", JString run_id); ("session_id", JString session_id)]).

Definition session_get (session_id : string) : AM (result Json StorageError) :=
  command "session.get" (jobj [("session_id", JString session_id)]).

(** [map_err(|_| "storage_unavailable")]. *)
Definition or_unavailable {A E} (r : result A E) : AM A :=
  match r with Ok a => fs_ret a | Err _ => fs_fail "storage_unavailable" end.

(** The first row of an answer. *)
Definition first_row (data : Json) : option (list Json) :=
  ((jget "rows" data ≫= as_array) ≫= head) ≫= as_array.

Definition cell_str (r : list Json) (i : nat) : option string := r !! i ≫= as_str.
Definition cell_i64 (r : list Json) (i : nat) : option Z := r !! i ≫= as_i64.

(** ** Previews *)

Definition binding_ok (b : PreviewBinding) (text : string) : bool :=
  negb (is_empty (pb_approval_id b) || is_empty (pb_tool_call_id b) || is_empty (pb_tool_name b) ||
        is_empty (pb_risk_class b) || (256 <? slen (pb_session_id b))%Z ||
        (512 <? slen (pb_approval_id b))%Z || (256 <? slen (pb_tool_call_id b))%Z ||
        (128 <? slen (pb_tool_name b))%Z || (32 <? slen (pb_risk_class b))%Z ||
        is_empty (trim text) || (MAX_APPROVAL_PREVIEW_BYTES <? slen text)%Z).

(** The preview is of this binding. *)
Definition same_binding (p : PendingApprovalPreview) (b : PreviewBinding) : bool :=
  str_eqb (pp_session_id p) (pb_session_id b) && str_eqb (pp_tool_call_id p) (pb_tool_call_id b) &&
  str_eqb (pp_tool_name p) (pb_tool_name b) && str_eqb (pp_risk_class p) (pb_risk_class b) &&
  (pp_expires_at_ms p =? pb_expires_at_ms b)%Z.

(** The row is of this binding and still pending. *)
Definition row_matches (r : list Json) (run_id : string) (b : PreviewBinding) : bool :=
  bool_decide (cell_str r 0 = Some (pb_approval_id b)) && bool_decide (cell_str r 1 = Some run_id) &&
  bool_decide (cell_str r 2 = Some (pb_session_id b)) &&
  bool_decide (cell_str r 3 = Some (pb_tool_call_id b)) &&
  bool_decide (cell_str r 4 = Some (pb_tool_name b)) && bool_decide (cell_str r 5 = Some "{}") &&
  bool_decide (cell_str r 6 = Some (pb_risk_class b)) && bool_decide (cell_str r 7 = Some "pending") &&
  bool_decide (cell_i64 r 11 = Some (pb_expires_at_ms b)).

(** [max_concurrent_runs.clamp(1, MAX_PENDING_APPROVAL_PREVIEWS)]. *)
Definition preview_capacity : Z :=
  Z.min (Z.max ap_max_concurrent_runs 1) MAX_PENDING_APPROVAL_PREVIEWS.

Definition preview_of (b : PreviewBinding) (text : string) : PendingApprovalPreview := {|
  pp_session_id := pb_session_id b; pp_tool_call_id := pb_tool_call_id b;
  pp_tool_name := pb_tool_name b; pp_risk_class := pb_risk_class b;
  pp_expires_at_ms := pb_expires_at_ms b; pp_text := text |}.

(** What [store_pending_approval_preview] does to the map. *)
Definition insert_preview (run_id : string) (b : PreviewBinding) (text : string) (now : Z)
    (previews : gmap (string * string) PendingApprovalPreview) :
    gmap (string * string) PendingApprovalPreview * result unit string :=
  let key := (run_id, pb_approval_id b) in
  let previews := filter (fun kp => now < pp_expires_at_ms (snd kp))%Z previews in
  match previews !! key with
  | Some existing =>
      (previews, if same_binding existing b && str_eqb (pp_text existing) text then Ok tt
                 else Err "approval_preview_conflict")
  | None =>
      if existsb (fun kp => str_eqb (fst (fst kp)) run_id) (map_to_list previews) then
        (previews, Err "approval_preview_conflict")
      else if (preview_capacity <=? Z.of_nat (size previews))%Z then
        (previews, Err "approval_preview_capacity")
      else (<[key := preview_of b text]> previews, Ok tt)
  end.

(** The run's handle is there, not terminal and not being cancelled. *)
Definition run_active (v : ApprovalView) (run_id : string) : bool :=
  match av_handles v !! run_id with
  | Some h => negb (lr_terminal h || lr_cancel_requested h)
  | None => false
  end.

Definition active_run (run_id : string) : AM unit :=
  let* active := read_view (fun v => run_active v run_id) in fs_guard active "run_not_active".

Definition context_session (run_id : string) : AM string :=
  let* session := read_view (fun v => av_contexts v !! run_id) in
  fs_lift (ok_or session "run_not_active").

Definition store_pending_approval_preview (run_id : string) (b : PreviewBinding) (text : string) : AM unit :=
  let* _ := fs_guard (binding_ok b text) "approval_preview_invalid" in
  let* now := now_ms in
  let* _ := fs_guard (now <? pb_expires_at_ms b)%Z "approval_expired" in
  let* _ := active_run run_id in
  let* session := context_session run_id in
  let* _ := fs_guard (str_eqb session (pb_session_id b)) "approval_owner_mismatch" in
  let* _ := fs_guard ap_persistence "storage_unavailable" in
  let* current := approval_get (pb_approval_id b) in
  let* current := or_unavailable current in
  let* row := fs_lift (ok_or (first_row current) "approval_not_found") in
  let* _ := fs_guard (row_matches row run_id b) "approval_call_mismatch" in
  on_previews (insert_preview run_id b text now).

Definition clear_pending_approval_preview (run_id approval_id : string) : AM unit :=
  on_previews (fun p => (delete (run_id, approval_id) p, Ok tt)).

Definition clear_run_approval_previews (run_id : string) : AM unit :=
  on_previews (fun p => (filter (fun kp => fst (fst kp) <> run_id) p, Ok tt)).

Definition match_preview (previews : gmap (string * string) PendingApprovalPreview) (run_id : string)
    (b : PreviewBinding) (now : Z) : option string :=
  preview ← previews !! (run_id, pb_approval_id b);
  if same_binding preview b && (now <? pp_expires_at_ms preview)%Z &&
     (slen (pp_text preview) <=? MAX_APPROVAL_PREVIEW_BYTES)%Z
  then Some (pp_text preview) else None.

Definition matching_pending_approval_preview (run_id : string) (b : PreviewBinding) (now : Z) :
    AM (option string) :=
  read_view (fun v => match_preview (av_previews v) run_id b now).

(** ** Listing *)

(** The owner the stored session names. *)
Definition session_owner (data : Json) : option string := first_row data ≫= (fun r => cell_str r 6).

Definition check_owner (session_id actor_id : string) : AM unit :=
  let* session := session_get session_id in
  let* session := or_unavailable session in
  fs_guard (bool_decide (session_owner session = Some actor_id)) "approval_owner_mismatch".

Definition approval_view (run_id : string) (b : PreviewBinding) (preview : string) : Json :=
  jobj [("approval_id", JString (pb_approval_id b)); ("run_id", JString run_id);
        ("session_id", JString (pb_session_id b)); ("tool_name", JString (pb_tool_name b));
        ("risk_class", JString (pb_risk_class b)); ("state", JString "pending");
        ("expires_at_ms", jint (pb_expires_at_ms b)); ("preview", JString preview)].

(** One row of the list: nothing for a row that is not shown. *)
Definition list_row (run_id session_id : string) (now : Z) (row : list Json) : AM (option Json) :=
  if negb (bool_decide (cell_str row 7 = Some "pending")) then fs_ret None
  else
    let* approval_id := fs_lift (ok_or (cell_str row 0) "storage_unavailable") in
    let* expires_at_ms := fs_lift (ok_or (cell_i64 row 11) "storage_unavailable") in
    if (expires_at_ms <=? now)%Z then
      let* _ := clear_pending_approval_preview run_id approval_id in fs_ret None
    else
      let* tool_call_id := fs_lift (ok_or (cell_str row 3) "storage_unavailable") in
      let* tool_name := fs_lift (ok_or (cell_str row 4) "storage_unavailable") in
      let* risk_class := fs_lift (ok_or (cell_str row 6) "storage_unavailable") in
      let b := {| pb_session_id := session_id; pb_approval_id := approval_id;
                  pb_tool_call_id := tool_call_id; pb_tool_name := tool_name;
                  pb_risk_class := risk_class; pb_expires_at_ms := expires_at_ms |} in
      let* preview := matching_pending_approval_preview run_id b now in
      fs_ret (approval_view run_id b <$> preview).

Fixpoint list_rows (run_id session_id : string) (now : Z) (rows : list (list Json)) : AM (list Json) :=
  match rows with
  | [] => fs_ret []
  | row :: rows =>
      let* shown := list_row run_id session_id now row in
      let* rest := list_rows run_id session_id now rows in
      fs_ret (match shown with Some v => v :: rest | None => rest end)
  end.

Definition pending_approvals_for_owner (run_id : string) (expected_session_id expected_actor_id : option string) :
    AM (list Json) :=
  let* _ := active_run run_id in
  let* session := context_session run_id in
  let* _ := fs_guard (match expected_session_id with
                   | Some expected => str_eqb session expected
                   | None => true
                   end) "approval_owner_mismatch" in
  let* _ := fs_guard ap_persistence "storage_unavailable" in
  let* _ := match expected_actor_id with
            | Some actor_id => check_owner session actor_id
            | None => fs_ret tt
            end in
  let* data := approval_list run_id session in
  let* data := or_unavailable data in
  let* now := now_ms in
  let* rows := fs_lift (ok_or (jget "rows" data ≫= as_array) "storage_unavailable") in
  list_rows run_id session now (omap as_array rows).

Definition pending_approvals (run_id : string) (expected_session_id : option string) : AM (list Json) :=
  pending_approvals_for_owner run_id expected_session_id None.

Definition pending_approvals_for_actor (run_id expected_session_id expected_actor_id : string) :
    AM (list Json) :=
  pending_approvals_for_owner run_id (Some expected_session_id) (Some expected_actor_id).

(** ** Resolving *)

(** [resolver.strip_prefix("telegram:")]. *)
Definition telegram_actor (resolver : string) : option string :=
  if starts_with (s2b resolver) (s2b "telegram:") then Some (b2s (drop 9 (s2b resolver))) else None.

Definition is_ascii_digit (b : Byte.byte) : bool :=
  let n := Z.of_N (Byte.to_N b) in ((48 <=? n) && (n <=? 57))%Z.

Definition resolver_valid (resolver : string) : bool :=
  str_eqb resolver "http-bearer" ||
  match telegram_actor resolver with
  | Some id => negb (is_empty id) && forallb is_ascii_digit (s2b id)
  | None => false
  end.

(** The row is the approval's, of this run, its context and the expected session. *)
Definition row_owned (row : list Json) (run_id approval_id session : string) (expected : option string) : bool :=
  bool_decide (cell_str row 0 = Some approval_id) && bool_decide (cell_str row 1 = Some run_id) &&
  bool_decide (cell_str row 2 = Some session) &&
  match expected with
  | Some e => bool_decide (cell_str row 2 = Some e) && str_eqb session e
  | None => true
  end.

Definition expired (row : list Json) (now : Z) : bool :=
  match cell_i64 row 11 with Some expiry => (0 <? expiry)%Z && (expiry <=? now)%Z | None => false end.

(** The preview an approval needs. *)
Definition approved_preview (run_id approval_id session : string) (row : list Json) (now : Z) : AM string :=
  let* tool_call_id := fs_lift (ok_or (cell_str row 3) "approval_not_found") in
  let* tool_name := fs_lift (ok_or (cell_str row 4) "approval_not_found") in
  let* risk_class := fs_lift (ok_or (cell_str row 6) "approval_not_found") in
  let* expires_at_ms := fs_lift (ok_or (cell_i64 row 11) "approval_not_found") in
  let b := {| pb_session_id := session; pb_approval_id := approval_id; pb_tool_call_id := tool_call_id;
              pb_tool_name := tool_name; pb_risk_class := risk_class;
              pb_expires_at_ms := expires_at_ms |} in
  let* preview := matching_pending_approval_preview run_id b now in
  fs_lift (ok_or preview "approval_preview_unavailable").

Definition resolve_payload (run_id approval_id decision resolver : string) (now : Z) : Json :=
  jobj [("id", JString approval_id); ("run_id", JString run_id); ("state", JString decision);
        ("resolver", JString resolver); ("decision_reason", JString "user_decision");
        ("resolved_at_ms", jint now)].

Definition resolved_as (row : list Json) (run_id approval_id decision resolver : string) : bool :=
  bool_decide (cell_str row 0 = Some approval_id) && bool_decide (cell_str row 1 = Some run_id) &&
  bool_decide (cell_str row 7 = Some decision) && bool_decide (cell_str row 13 = Some resolver).

(** Everything that is checked before the decision is sent: the session, the
    row and the time of the decision. *)
Definition check_resolution (run_id approval_id decision resolver : string)
    (expected_session_id : option string) : AM (string * list Json * Z) :=
  let* _ := fs_guard (str_eqb decision "approved" || str_eqb decision "denied") "decision_invalid" in
  let* _ := fs_guard (resolver_valid resolver) "resolver_invalid" in
  let* _ := active_run run_id in
  let* session := context_session run_id in
  let* _ := fs_guard ap_persistence "storage_unavailable" in
  let* current := approval_get approval_id in
  let* current := or_unavailable current in
  let* row := fs_lift (ok_or (first_row current) "approval_not_found") in
  let* _ := fs_guard (row_owned row run_id approval_id session expected_session_id) "approval_owner_mismatch" in
  let* _ := match telegram_actor resolver with
            | Some actor_id => check_owner session actor_id
            | None => fs_ret tt
            end in
  let* _ := fs_guard (bool_decide (cell_str row 7 = Some "pending")) "approval_not_pending" in
  let* now := now_ms in
  let* _ := fs_guard (negb (expired row now)) "approval_expired" in
  let* _ := if str_eqb decision "approved" then
              let* _ := approved_preview run_id approval_id session row now in fs_ret tt
            else fs_ret tt in
  fs_ret (session, row, now).

(** What follows an answered decision: storage must confirm it. *)
Definition confirm_resolution (run_id approval_id decision resolver : string)
    (resolution : result Json StorageError) : AM unit :=
  let* resolution := or_unavailable resolution in
  let* _ := fs_guard (bool_decide (jget "rows_affected" resolution ≫= as_i64 = Some 1%Z))
              "approval_not_pending" in
  let* resolved := approval_get approval_id in
  let* resolved := or_unavailable resolved in
  let* resolved_row := fs_lift (ok_or (first_row resolved) "storage_unavailable") in
  let* _ := fs_guard (resolved_as resolved_row run_id approval_id decision resolver) "storage_unavailable" in
  clear_pending_approval_preview run_id approval_id.

Definition resolve_pending_approval (run_id approval_id decision resolver : string)
    (expected_session_id : option string) : AM unit :=
  let* checked := check_resolution run_id approval_id decision resolver expected_session_id in
  let* resolution := command "approval.resolve"
                       (resolve_payload run_id approval_id decision resolver (snd checked)) in
  confirm_resolution run_id approval_id decision resolver resolution.

(** ** The script's side *)

(** What the host reads of the run's cancellation. *)
Record RunCancellation := { cn_deadline_passed : bool; cn_requested : bool }.

Definition str_member (payload : Json) (key code : string) : AM string :=
  fs_lift (ok_or (jget key payload ≫= as_str) code).

(** [durable_payload.remove("owner_preview")]. *)
Definition without_preview (payload : Json) : Json :=
  match payload with JObject m => JObject (obj_remove "owner_preview" m) | other => other end.

(** [and_then] on a storage answer, keeping its code. *)
Definition or_code (r : result Json StorageError) : AM Json :=
  match r with Ok v => fs_ret v | Err e => fs_fail (se_code e) end.

Definition request_approval (run_id : string) (payload : Json) : AM Json :=
  let* preview := str_member payload "owner_preview" "approval_preview_unavailable" in
  let* session_id := str_member payload "session_id" "approval_session_invalid" in
  let* approval_id := str_member payload "id" "approval_id_invalid" in
  let* tool_call_id := str_member payload "tool_call_id" "approval_call_invalid" in
  let* tool_name := str_member payload "tool_name" "approval_tool_invalid" in
  let* risk_class := str_member payload "risk_class" "approval_risk_invalid" in
  let* expires_at_ms := fs_lift (ok_or (jget "expires_at_ms" payload ≫= as_i64) "approval_expiry_invalid") in
  let b := {| pb_session_id := session_id; pb_approval_id := approval_id; pb_tool_call_id := tool_call_id;
              pb_tool_name := tool_name; pb_risk_class := risk_class;
              pb_expires_at_ms := expires_at_ms |} in
  let* requested := command "approval.request" (without_preview payload) in
  let* requested := or_code requested in
  let* _ := store_pending_approval_preview run_id b preview in
  fs_ret requested.

Definition resolve_by_script (run_id : string) (payload : Json) : AM Json :=
  let* resolution := command "approval.resolve" payload in
  let* _ := match resolution, jget "id" payload ≫= as_str with
            | Ok v, Some approval_id =>
                if bool_decide (jget "rows_affected" v ≫= as_i64 = Some 1%Z)
                then clear_pending_approval_preview run_id approval_id else fs_ret tt
            | _, _ => fs_ret tt
            end in
  or_code resolution.

(** The codes of a request a script may see as they are. *)
Definition REQUEST_CODES : list string :=
  ["approval_preview_invalid"; "approval_expired"; "run_not_active"; "approval_owner_mismatch";
   "storage_unavailable"; "approval_not_found"; "approval_call_mismatch"; "approval_preview_conflict";
   "approval_preview_capacity"].

Definition approval_operation (run_id operation : string) (payload : Json) : option (AM Json) :=
  if str_eqb operation "request" then Some (request_approval run_id payload)
  else if str_eqb operation "get" then
    Some (let* approval_id := str_member payload "approval_id" "approval_id_invalid" in
          let* r := approval_get approval_id in or_code r)
  else if str_eqb operation "list" then
    Some (let* session_id := str_member payload "session_id" "approval_session_invalid" in
          let* r := approval_list run_id session_id in or_code r)
  else if str_eqb operation "resolve" then Some (resolve_by_script run_id payload)
  else None.

Definition approval_storage (run_id operation : string) (payload : Json) (cancellation : RunCancellation)
    (s : AState) : AState * Json :=
  if cn_deadline_passed cancellation then (s, typed_fail "deadline_elapsed" "run deadline elapsed")
  else if cn_requested cancellation then (s, typed_fail "cancelled" "run was cancelled")
  else if negb (bool_decide (jget "run_id" payload ≫= as_str = Some run_id)) then
    (s, typed_fail "approval_owner_mismatch" "approval run identity does not match")
  else if negb ap_persistence then
    (s, typed_fail "approval_storage_unavailable" "approval storage is unavailable")
  else
    match approval_operation run_id operation payload with
    | None => (s, typed_fail "approval_operation_invalid" "approval operation is invalid")
    | Some op =>
        match op s with
        | (s', Ok result) => (s', jobj [("ok", JBool true); ("result", result)])
        | (s', Err code) =>
            let code := if str_eqb operation "request" && contains REQUEST_CODES code then code
                        else "approval_storage_unavailable" in
            (s', typed_fail code "approval request could not be bound to its live action")
        end
    end.
End Approvals.
