(* ===== verification/ApprovalsSpec.v ===== *)
(** * What the approval operations guarantee

    Theorems on [Approvals]: the previews stay bounded, one per run; a decision
    is sent to storage only for a pending, unexpired row of the run's session,
    by its owner, and an approval only while the preview of exactly that call is
    bound; what is listed is what was bound; the preview never reaches storage. *)

From S2P Require Import Prelude Utf8 Json Store Events Commit Provider Approvals.

Module ApprovalsSpec.

Section Spec.
Context `{AS : ApprovalStorage}.

(** ** Invariants of the view *)

(** The computation keeps a property of the view. *)
Definition keeps (I : ApprovalView -> Prop) {A} (m : AM A) : Prop :=
  forall s, I (as_view s) -> I (as_view (fst (m s))).

Section Keeps.
Variable I : ApprovalView -> Prop.
Hypothesis env_keeps : forall n v, I v -> I (ap_env n v).

Lemma retains_bind {A B} (m : AM A) (k : A -> AM B) :
  keeps I m -> (forall a, keeps I (k a)) -> keeps I (fs_bind m k).
Proof.
  intros Hm Hk s Hs. specialize (Hm s Hs). unfold fs_bind. destruct (m s) as [s1 [a|e]]; [by apply Hk|done].
Qed.

Lemma retains_ret {A} (a : A) : keeps I (fs_ret a).
Proof. by intros s. Qed.

Lemma retains_fail {A} e : keeps I (fs_fail (A := A) e).
Proof. by intros s. Qed.

Lemma retains_lift {A} (r : result A string) : keeps I (fs_lift r).
Proof. by intros s. Qed.

Lemma retains_guard b e : keeps I (fs_guard b e).
Proof. destruct b; by intros s. Qed.

Lemma retains_read {A} (f : ApprovalView -> A) : keeps I (read_view f).
Proof. intros s. apply env_keeps. Qed.

Lemma retains_now : keeps I now_ms.
Proof. by intros s. Qed.

Lemma keeps_command name payload : keeps I (command name payload).
Proof. intros s Hs. unfold command. by destruct (ap_command _ _ _). Qed.

Lemma keeps_unavailable {A E} (r : result A E) : keeps I (or_unavailable r).
Proof. destruct r; by intros s. Qed.

Lemma keeps_code r : keeps I (or_code r).
Proof. destruct r; by intros s. Qed.

Lemma keeps_previews {A} f :
  (forall v, I v -> I (with_previews (fst (f (av_previews v))) v)) -> keeps I (on_previews (A := A) f).
Proof.
  intros Hf s Hs%(env_keeps (as_steps s))%Hf. unfold on_previews. cbn. by destruct (f _).
Qed.
End Keeps.
End Spec.

Create HintDb retains.
#[export] Hint Resolve retains_ret retains_fail retains_lift retains_guard retains_read retains_now keeps_command
  keeps_unavailable keeps_code : retains.

Ltac keeps :=
  repeat match goal with
  | |- keeps _ (fs_bind _ _) => apply retains_bind; [|intros]
  | |- keeps _ (match ?x with _ => _ end) => destruct x
  | |- keeps _ _ => solve [eauto with retains]
  end.

Section Bounded.
Context `{AS : ApprovalStorage}.

Definition preview_ok (p : PendingApprovalPreview) : Prop :=
  (slen (pp_text p) <= MAX_APPROVAL_PREVIEW_BYTES)%Z /\ trim (pp_text p) <> EmptyString /\
  (slen (pp_session_id p) <= 256)%Z /\ (slen (pp_tool_call_id p) <= 256)%Z /\
  (slen (pp_tool_name p) <= 128)%Z /\ (slen (pp_risk_class p) <= 32)%Z /\
  pp_tool_call_id p <> EmptyString /\ pp_tool_name p <> EmptyString /\ pp_risk_class p <> EmptyString.

(** Each preview is well formed, a run has at most one, and there are at most
    [preview_capacity]. *)
Record previews_ok (v : ApprovalView) : Prop := {
  previews_each : map_Forall (fun _ p => preview_ok p) (av_previews v);
  previews_one run_id a1 a2 : is_Some (av_previews v !! (run_id, a1)) ->
                              is_Some (av_previews v !! (run_id, a2)) -> a1 = a2;
  previews_few : (Z.of_nat (size (av_previews v)) <= preview_capacity)%Z
}.

Lemma previews_ok_subset v p : p ⊆ av_previews v -> previews_ok v -> previews_ok (with_previews p v).
Proof.
  intros Hp [Hf Ho Hs]. split; cbn.
  - intros k x Hx. eapply Hf, lookup_weaken; eauto.
  - intros run_id a1 a2 [x Hx] [y Hy]. apply (Ho run_id); eauto using lookup_weaken.
  - pose proof (map_subseteq_size _ _ Hp). lia.
Qed.

Lemma preview_of_ok b text : binding_ok b text = true -> preview_ok (preview_of b text).
Proof.
  unfold binding_ok. rewrite negb_true_iff. intros Hb.
  repeat match goal with H : _ || _ = false |- _ => apply orb_false_iff in H as [? ?] end.
  bool_to_prop. unfold preview_ok. cbn [preview_of pp_text pp_session_id pp_tool_call_id pp_tool_name pp_risk_class].
  split_and!; try done; try lia;
    match goal with H : is_empty ?x = false |- ?x <> _ => by intros Heq; rewrite Heq in H end.
Qed.

Lemma insert_preview_ok run_id b text now v :
  binding_ok b text = true -> previews_ok v ->
  previews_ok (with_previews (fst (insert_preview run_id b text now (av_previews v))) v).
Proof.
  intros Hb Hv. unfold insert_preview.
  set (live := filter _ (av_previews v)).
  assert (previews_ok (with_previews live v)) as Hl by (apply previews_ok_subset; [apply map_filter_subseteq|done]).
  destruct (live !! _) eqn:Hn; [done|]. destruct (existsb _ _) eqn:He; [done|].
  destruct (Z.leb_spec preview_capacity (Z.of_nat (size live))); [done|]. destruct Hl as [Hf Ho Hs]. cbn in *.
  rewrite existsb_false_iff in He.
  assert (forall a, live !! (run_id, a) = None) as Hnone.
  { intros a. destruct (live !! (run_id, a)) as [p|] eqn:E; [|done]. apply elem_of_map_to_list in E.
    specialize (He _ E). cbn in He. by rewrite str_eqb_refl in He. }
  split; cbn.
  - apply map_Forall_insert_2; [by apply preview_of_ok|done].
  - intros r a1 a2. rewrite !lookup_insert_is_Some. intros [E1|[_ [x Hx]]] [E2|[_ [y Hy]]]; simplify_eq; try done.
    + by rewrite Hnone in Hy.
    + by rewrite Hnone in Hx.
    + apply (Ho r); eauto.
  - rewrite map_size_insert_None by done. lia.
Qed.

Hypothesis env_ok : forall n v, previews_ok v -> previews_ok (ap_env n v).

Lemma keeps_guarded I {A} (b : bool) e (k : AM A) : (b = true -> keeps I k) -> keeps I (let* _ := fs_guard b e in k).
Proof. intros Hk s Hs. destruct b; cbn; [by apply Hk|done]. Qed.

Lemma keeps_clear run_id approval_id : keeps previews_ok (clear_pending_approval_preview run_id approval_id).
Proof. apply keeps_previews; [done|]. intros v Hv. apply previews_ok_subset; [apply delete_subseteq|done]. Qed.

Lemma keeps_clear_run run_id : keeps previews_ok (clear_run_approval_previews run_id).
Proof. apply keeps_previews; [done|]. intros v Hv. apply previews_ok_subset; [apply map_filter_subseteq|done]. Qed.

#[local] Hint Resolve keeps_clear keeps_clear_run : retains.

Lemma keeps_store run_id b text : keeps previews_ok (store_pending_approval_preview run_id b text).
Proof.
  unfold store_pending_approval_preview, active_run, context_session, approval_get.
  apply keeps_guarded. intros Hb. keeps.
  apply keeps_previews; [done|]. intros v Hv. by apply insert_preview_ok.
Qed.

#[local] Hint Resolve keeps_store : retains.

Lemma keeps_list_rows run_id session_id now rows : keeps previews_ok (list_rows run_id session_id now rows).
Proof.
  induction rows as [|row rows IH]; cbn [list_rows]; [apply retains_ret|].
  apply retains_bind; [|intros; apply retains_bind; [done|intros; apply retains_ret]].
  unfold list_row, matching_pending_approval_preview. keeps.
Qed.

#[local] Hint Resolve keeps_list_rows : retains.

Lemma keeps_list run_id session actor : keeps previews_ok (pending_approvals_for_owner run_id session actor).
Proof.
  unfold pending_approvals_for_owner, active_run, context_session, check_owner, approval_list, session_get. keeps.
Qed.

Lemma keeps_resolve run_id approval_id decision resolver session :
  keeps previews_ok (resolve_pending_approval run_id approval_id decision resolver session).
Proof.
  unfold resolve_pending_approval, check_resolution, confirm_resolution, active_run, context_session, check_owner, approved_preview,
    matching_pending_approval_preview, approval_get, session_get. keeps.
Qed.

Lemma keeps_operation run_id operation payload op :
  approval_operation run_id operation payload = Some op -> keeps previews_ok op.
Proof.
  unfold approval_operation, request_approval, resolve_by_script, str_member, approval_get, approval_list.
  intros Ho. repeat case_match; simplify_eq; keeps.
Qed.

Inductive ApprovalOp :=
| OpPreview (run_id : string) (b : PreviewBinding) (text : string)
| OpClear (run_id approval_id : string)
| OpClearRun (run_id : string)
| OpList (run_id : string) (session actor : option string)
| OpResolve (run_id approval_id decision resolver : string) (session : option string)
| OpScript (run_id operation : string) (payload : Json) (cancellation : RunCancellation).

Definition run_approval_op (op : ApprovalOp) (s : AState) : AState :=
  match op with
  | OpPreview run_id b text => fst (store_pending_approval_preview run_id b text s)
  | OpClear run_id approval_id => fst (clear_pending_approval_preview run_id approval_id s)
  | OpClearRun run_id => fst (clear_run_approval_previews run_id s)
  | OpList run_id session actor => fst (pending_approvals_for_owner run_id session actor s)
  | OpResolve run_id approval_id decision resolver session =>
      fst (resolve_pending_approval run_id approval_id decision resolver session s)
  | OpScript run_id operation payload cancellation => fst (approval_storage run_id operation payload cancellation s)
  end.

Lemma keeps_script run_id operation payload cancellation s :
  previews_ok (as_view s) -> previews_ok (as_view (fst (approval_storage run_id operation payload cancellation s))).
Proof.
  intros Hs. unfold approval_storage. destruct (cn_deadline_passed _); [done|]. destruct (cn_requested _); [done|].
  destruct (negb (bool_decide _)); [done|]. destruct (negb ap_persistence); [done|].
  destruct (approval_operation _ _ _) as [op|] eqn:Ho; [|done].
  pose proof (keeps_operation _ _ _ _ Ho s Hs) as Hk. by destruct (op s) as [s1 [|]].
Qed.

(** Over any sequence of approval operations, whatever storage answers, the
    previews stay bounded: every one has a text of at most 2048 bytes that is
    not blank and fields within their limits, a run has at most one, and there
    are at most [max_concurrent_runs], at most 256 and at least one. *)
Theorem approval_previews_bounded ops s :
  previews_ok (as_view s) -> previews_ok (as_view (fold_left (fun s op => run_approval_op op s) ops s)).
Proof.
  revert s. induction ops as [|op ops IH]; intros s Hs; [done|]. cbn [fold_left]. apply IH.
  destruct op; cbn [run_approval_op];
    [by apply keeps_store|by apply keeps_clear|by apply keeps_clear_run|by apply keeps_list
    |by apply keeps_resolve|by apply keeps_script].
Qed.
End Bounded.

(** ** Commands sent *)

Section Sends.
Context `{AS : ApprovalStorage}.

(** The computation sends only commands of a kind. *)
Definition sends (kind : string -> Json -> Prop) {A} (m : AM A) : Prop :=
  forall s, exists new, as_sent (fst (m s)) = as_sent s ++ new /\
                        Forall (fun c => kind (sent_command c) (sent_payload c)) new.

Variable kind : string -> Json -> Prop.

Lemma sends_nothing {A} (m : AM A) : (forall s, as_sent (fst (m s)) = as_sent s) -> sends kind m.
Proof. intros Hm s. exists []. rewrite Hm, app_nil_r. done. Qed.

Lemma sends_bind {A B} (m : AM A) (k : A -> AM B) :
  sends kind m -> (forall a, sends kind (k a)) -> sends kind (fs_bind m k).
Proof.
  intros Hm Hk s. destruct (Hm s) as (n1 & H1 & F1). unfold fs_bind. destruct (m s) as [s1 [a|e]]; [|eauto].
  destruct (Hk a s1) as (n2 & H2 & F2). exists (n1 ++ n2). cbn in H1.
  rewrite H2, H1, <- app_assoc. split; [done|]. by apply Forall_app.
Qed.

Lemma sends_command name payload : kind name payload -> sends kind (command name payload).
Proof.
  intros Hk s. unfold command. destruct (ap_command _ _ _) as [d r]. eexists. split; [done|].
  by apply Forall_singleton.
Qed.

Lemma sends_ret {A} (a : A) : sends kind (fs_ret a).
Proof. by apply sends_nothing. Qed.

Lemma sends_fail {A} e : sends kind (fs_fail (A := A) e).
Proof. by apply sends_nothing. Qed.

Lemma sends_lift {A} (r : result A string) : sends kind (fs_lift r).
Proof. by apply sends_nothing. Qed.

Lemma sends_guard b e : sends kind (fs_guard b e).
Proof. apply sends_nothing. by destruct b. Qed.

Lemma sends_read {A} (f : ApprovalView -> A) : sends kind (read_view f).
Proof. by apply sends_nothing. Qed.

Lemma sends_now : sends kind now_ms.
Proof. by apply sends_nothing. Qed.

Lemma sends_unavailable {A E} (r : result A E) : sends kind (or_unavailable r).
Proof. apply sends_nothing. by destruct r. Qed.

Lemma sends_code r : sends kind (or_code r).
Proof. apply sends_nothing. by destruct r. Qed.

Lemma sends_previews {A} f : sends kind (on_previews (A := A) f).
Proof. apply sends_nothing. intros s. unfold on_previews. by destruct (f _). Qed.
End Sends.

#[export] Hint Resolve sends_ret sends_fail sends_lift sends_guard sends_read sends_now sends_unavailable
  sends_code sends_previews : retains.

Ltac sends :=
  repeat match goal with
  | |- sends _ (fs_bind _ _) => apply sends_bind; [|intros]
  | |- sends _ (match ?x with _ => _ end) => destruct x
  | |- sends _ (command _ _) => apply sends_command
  | |- sends _ _ => solve [eauto with retains]
  end.

Section Decisions.
Context `{AS : ApprovalStorage}.

Definition no_decision (name : string) (_ : Json) : Prop := name <> "approval.resolve".

Lemma check_sends run_id approval_id decision resolver session :
  sends no_decision (check_resolution run_id approval_id decision resolver session).
Proof.
  unfold check_resolution, active_run, context_session, approval_get, check_owner, session_get, approved_preview,
    matching_pending_approval_preview. by sends.
Qed.

Lemma confirm_sends run_id approval_id decision resolver resolution :
  sends no_decision (confirm_resolution run_id approval_id decision resolver resolution).
Proof. unfold confirm_resolution, approval_get, clear_pending_approval_preview. by sends. Qed.

(** The binding a stored row describes. *)
Definition row_binding (row : list Json) (session approval_id : string) (b : PreviewBinding) : Prop :=
  pb_session_id b = session /\ pb_approval_id b = approval_id /\ cell_str row 3 = Some (pb_tool_call_id b) /\
  cell_str row 4 = Some (pb_tool_name b) /\ cell_str row 6 = Some (pb_risk_class b) /\
  cell_i64 row 11 = Some (pb_expires_at_ms b).

Lemma match_preview_spec previews run_id b now text :
  match_preview previews run_id b now = Some text <->
  exists p, previews !! (run_id, pb_approval_id b) = Some p /\ same_binding p b = true /\
    (now < pp_expires_at_ms p)%Z /\ (slen (pp_text p) <= MAX_APPROVAL_PREVIEW_BYTES)%Z /\ pp_text p = text.
Proof.
  unfold match_preview. destruct (previews !! _) as [p|]; cbn; [|naive_solver].
  destruct (same_binding p b && _ && _) eqn:E.
  - bool_to_prop. split; [|by intros (q & [= <-] & _ & _ & _ & <-)]. intros [= <-]. exists p. by split_and!.
  - split; [done|]. intros (q & [= <-] & Hs & Hn & Hl & _).
    by rewrite Hs, (proj2 (Z.ltb_lt _ _) Hn), (proj2 (Z.leb_le _ _) Hl) in E.
Qed.

Lemma approved_preview_done run_id approval_id session row now s s' text :
  approved_preview run_id approval_id session row now s = (s', Ok text) ->
  exists b, row_binding row session approval_id b /\
    match_preview (av_previews (as_view s')) run_id b now = Some text /\ as_sent s' = as_sent s.
Proof.
  unfold approved_preview. intros Hrun.
  apply fs_bind_done in Hrun as (s1 & call & Hm & Hrun). apply fs_lift_done in Hm as [?%ok_or_Ok ->].
  apply fs_bind_done in Hrun as (s1 & name & Hm & Hrun). apply fs_lift_done in Hm as [?%ok_or_Ok ->].
  apply fs_bind_done in Hrun as (s1 & risk & Hm & Hrun). apply fs_lift_done in Hm as [?%ok_or_Ok ->].
  apply fs_bind_done in Hrun as (s1 & expiry & Hm & Hrun). apply fs_lift_done in Hm as [?%ok_or_Ok ->].
  apply fs_bind_done in Hrun as (s1 & preview & [= <- Hp] & Hrun). apply fs_lift_done in Hrun as [?%ok_or_Ok ->].
  eexists. split; [|split; [cbn; rewrite Hp; done|done]]. by split_and!.
Qed.

Lemma command_done name payload s s' r :
  command name payload s = (s', Ok r) ->
  as_view s' = as_view s /\
  as_sent s' = as_sent s ++ [{| sent_command := name; sent_payload := payload; sent_answer := r;
                                sent_view := as_view s |}].
Proof. unfold command. destruct (ap_command _ _ _) as [d x]. by intros [= <- <-]. Qed.

(** Storage has answered this command with this value. *)
Definition answered (log : list SentCommand) (name : string) (payload value : Json) : Prop :=
  exists c, c ∈ log /\ sent_command c = name /\ sent_payload c = payload /\ sent_answer c = Ok value.

Lemma answered_app log1 log2 name payload value :
  answered log1 name payload value \/ answered log2 name payload value ->
  answered (log1 ++ log2) name payload value.
Proof. intros [(c & ? & ?)|(c & ? & ?)]; exists c; rewrite elem_of_app; tauto. Qed.

(** A command and its answer, with the view at that moment. *)
Definition asked_at (c : SentCommand) (name : string) (payload value : Json) (view : ApprovalView) : Prop :=
  sent_command c = name /\ sent_payload c = payload /\ sent_answer c = Ok value /\ sent_view c = view.

Lemma query_at {A} name payload (k : Json -> AM A) s s' a :
  (let* r := command name payload in let* v := or_unavailable r in k v) s = (s', Ok a) ->
  exists s1 v c, k v s1 = (s', Ok a) /\ as_sent s1 = as_sent s ++ [c] /\ asked_at c name payload v (as_view s).
Proof.
  intros (s1 & r & Hc & Hk)%fs_bind_done. apply command_done in Hc as [_ Hs].
  apply fs_bind_done in Hk as (s2 & v & Hv & Hk). destruct r as [r|]; [|done]. injection Hv as <- <-.
  exists s1, r. eexists. split; [done|]. split; [exact Hs|done].
Qed.

Lemma query_done {A} name payload (k : Json -> AM A) s s' a :
  (let* r := command name payload in let* v := or_unavailable r in k v) s = (s', Ok a) ->
  exists s1 v new, k v s1 = (s', Ok a) /\ as_sent s1 = as_sent s ++ new /\ answered new name payload v.
Proof.
  intros (s1 & v & c & Hk & Hs & ? & ? & ? & _)%query_at. exists s1, v, [c]. split_and!; [done|done|].
  exists c. split; [by left|done].
Qed.

(** The row is of this approval, of this run and of the session, which is the
    expected one if there is one. *)
Definition row_of (row : list Json) (run_id approval_id session : string) (expected : option string) : Prop :=
  cell_str row 0 = Some approval_id /\ cell_str row 1 = Some run_id /\ cell_str row 2 = Some session /\
  (forall e, expected = Some e -> e = session).

(** What is known when a decision is sent. *)
Record decidable (run_id approval_id decision resolver : string) (expected : option string)
    (log : list SentCommand) (view : ApprovalView) (now : Z) : Prop := {
  dec_kind : decision = "approved" \/ decision = "denied";
  dec_resolver : resolver_valid resolver = true;
  dec_row : exists c session data row asked_view,
    c ∈ log /\ asked_at c "approval.get" (jobj [("approval_id", JString approval_id)]) data asked_view /\
    av_contexts asked_view !! run_id = Some session /\
    first_row data = Some row /\ row_of row run_id approval_id session expected /\
    cell_str row 7 = Some "pending" /\
    (forall expiry, cell_i64 row 11 = Some expiry -> (0 < expiry)%Z -> (now < expiry)%Z) /\
    (forall actor, telegram_actor resolver = Some actor ->
       exists stored, answered log "session.get" (jobj [("session_id", JString session)]) stored /\
                      session_owner stored = Some actor) /\
    (decision = "approved" ->
       exists b text, row_binding row session approval_id b /\
                      match_preview (av_previews view) run_id b now = Some text)
}.

Lemma row_owned_of row run_id approval_id session expected :
  row_owned row run_id approval_id session expected = true -> row_of row run_id approval_id session expected.
Proof.
  unfold row_owned, row_of. intros H. bool_to_prop. split_and!; try done. intros e ->. bool_to_prop. congruence.
Qed.

Lemma unexpired row now expiry : expired row now = false -> cell_i64 row 11 = Some expiry -> (0 < expiry)%Z -> (now < expiry)%Z.
Proof.
  unfold expired. intros He Hc Hp. rewrite Hc in He. apply andb_false_iff in He as [He|He]; [apply Z.ltb_ge in He|apply Z.leb_gt in He]; lia.
Qed.

Lemma active_sent run_id s s' : active_run run_id s = (s', Ok tt) -> as_sent s' = as_sent s.
Proof.
  unfold active_run. intros (s1 & v & [= <- _] & Hg)%fs_bind_done. by apply fs_guard_done in Hg as [_ ->].
Qed.

Lemma context_sent run_id s s' session :
  context_session run_id s = (s', Ok session) -> as_sent s' = as_sent s /\ av_contexts (as_view s') !! run_id = Some session.
Proof.
  unfold context_session. intros (s1 & v & [= <- Hv] & Hg)%fs_bind_done. apply fs_lift_done in Hg as [Hs%ok_or_Ok ->].
  split; [done|]. rewrite <-Hs. exact Hv.
Qed.

(** The owner was checked, when the resolver names one. *)
Lemma owner_done session resolver s s' :
  match telegram_actor resolver with
  | Some actor_id => check_owner session actor_id
  | None => fs_ret tt
  end s = (s', Ok tt) ->
  exists new, as_sent s' = as_sent s ++ new /\
    forall actor, telegram_actor resolver = Some actor ->
    exists stored, answered new "session.get" (jobj [("session_id", JString session)]) stored /\
                   session_owner stored = Some actor.
Proof.
  destruct (telegram_actor resolver) as [actor|].
  - unfold check_owner. intros (s1 & v & new & Hg & Hs & Ha)%query_done.
    apply fs_guard_done in Hg as [Ho%bool_decide_eq_true ->]. exists new. split; [done|].
    intros actor' [= <-]. eauto.
  - intros [= <-]. exists []. by rewrite app_nil_r.
Qed.

Lemma check_done run_id approval_id decision resolver expected s s' session row now :
  check_resolution run_id approval_id decision resolver expected s = (s', Ok (session, row, now)) ->
  exists log, as_sent s' = as_sent s ++ log /\
    decidable run_id approval_id decision resolver expected log (as_view s') now.
Proof.
  unfold check_resolution. intros Hrun.
  apply fs_bind_done in Hrun as (s1 & [] & Hm & Hrun). apply fs_guard_done in Hm as [Hd ->].
  apply fs_bind_done in Hrun as (s1 & [] & Hm & Hrun). apply fs_guard_done in Hm as [Hr ->].
  apply fs_bind_done in Hrun as (s1 & [] & Hm & Hrun). apply active_sent in Hm as S1.
  apply fs_bind_done in Hrun as (s2 & session' & Hm' & Hrun). apply context_sent in Hm' as [S2 Hses].
  apply fs_bind_done in Hrun as (s3 & [] & Hg & Hrun). apply fs_guard_done in Hg as [_ ->].
  apply query_at in Hrun as (s4 & data & c & Hrun & S4 & Ha1).
  apply fs_bind_done in Hrun as (s5 & row' & Hl & Hrun). apply fs_lift_done in Hl as [Hrow%ok_or_Ok ->].
  apply fs_bind_done in Hrun as (s5 & [] & Hg & Hrun). apply fs_guard_done in Hg as [Hown ->].
  apply fs_bind_done in Hrun as (s5 & [] & Ho & Hrun). apply owner_done in Ho as (new2 & S5 & Ha2).
  apply fs_bind_done in Hrun as (s6 & [] & Hg & Hrun). apply fs_guard_done in Hg as [Hp%bool_decide_eq_true ->].
  apply fs_bind_done in Hrun as (s6 & now' & Hn & Hrun). injection Hn as <- Hn.
  apply fs_bind_done in Hrun as (s7 & [] & Hg & Hrun). apply fs_guard_done in Hg as [He%negb_true_iff ->].
  apply fs_bind_done in Hrun as (s7 & [] & Hv & Hrun). injection Hrun as -> -> -> ->.
  assert (as_sent s' = as_sent s5 /\
          (decision = "approved" -> exists b text, row_binding row session approval_id b /\
             match_preview (av_previews (as_view s')) run_id b now = Some text)) as [S7 Happ].
  { destruct (str_eqb decision "approved") eqn:Ed.
    - apply fs_bind_done in Hv as (s8 & text & Hv & Hret). injection Hret as ->.
      apply approved_preview_done in Hv as (b & Hb & Hmp & Hs8). eauto.
    - injection Hv as <-. split; [done|]. intros ->. by rewrite str_eqb_refl in Ed. }
  exists ([c] ++ new2). split; [by rewrite S7, S5, S4, S2, S1, app_assoc|]. split.
  - apply orb_true_iff in Hd as [?%str_eqb_true|?%str_eqb_true]; auto.
  - done.
  - exists c, session, data, row. eexists. split; [by left|]. split; [exact Ha1|]. split_and!; try done.
    + by apply row_owned_of.
    + intros expiry. by apply unexpired.
    + intros actor Hactor. destruct (Ha2 actor Hactor) as (stored & ? & ?). exists stored.
      split; [|done]. apply answered_app. by right.
Qed.

Lemma confirm_done run_id approval_id decision resolver resolution s s' :
  confirm_resolution run_id approval_id decision resolver resolution s = (s', Ok tt) ->
  av_previews (as_view s') !! (run_id, approval_id) = None.
Proof.
  unfold confirm_resolution. intros (s1 & v & _ & Hrun)%fs_bind_done.
  apply fs_bind_done in Hrun as (s2 & u & _ & Hrun).
  apply query_done in Hrun as (s3 & data & new & Hrun & _).
  apply fs_bind_done in Hrun as (s4 & row & _ & Hrun). apply fs_bind_done in Hrun as (s5 & u' & _ & Hrun).
  unfold clear_pending_approval_preview, on_previews in Hrun. injection Hrun as <-. cbn. apply lookup_delete_eq.
Qed.

Definition is_no_decision (c : SentCommand) : Prop := sent_command c <> "approval.resolve".

(** C31. A decision on an approval reaches storage at most once per call, and
    only when all of this holds: it is an approval or a denial by a valid
    resolver; storage has just shown the row, which is of this approval and of
    this run, of the session that the run's live context had when the row was
    asked for, which is the expected session if one is expected; the row is
    pending, and an expiry it has, if positive, has not come; a Telegram
    resolver, unlike the HTTP one, whose owner is not compared, is the stored
    owner of the session; and, for an approval, an unexpired preview of exactly
    that call (session, call, tool, risk and expiry as in the row) is bound at
    the moment the decision is sent.  Without such a decision the call fails,
    and when it succeeds the preview is gone. *)
Theorem decision_sent_only_when_due run_id approval_id decision resolver expected s s' r :
  resolve_pending_approval run_id approval_id decision resolver expected s = (s', r) ->
  exists new, as_sent s' = as_sent s ++ new /\
  (Forall is_no_decision new /\ r <> Ok tt \/
   exists before c after now, new = before ++ c :: after /\ Forall is_no_decision before /\
     Forall is_no_decision after /\ sent_command c = "approval.resolve" /\
     sent_payload c = resolve_payload run_id approval_id decision resolver now /\
     decidable run_id approval_id decision resolver expected before (sent_view c) now /\
     (r = Ok tt -> av_previews (as_view s') !! (run_id, approval_id) = None)).
Proof.
  unfold resolve_pending_approval. intros Hrun.
  destruct (check_sends run_id approval_id decision resolver expected s) as (before & Hb & Fb).
  apply fs_bind_inv in Hrun as [(s1 & [[session row] now] & Hc & Hrun)|(e & Hc & ->)].
  2: { rewrite Hc in Hb. exists before. split; [done|]. by left. }
  rewrite Hc in Hb. cbn in Hb. apply check_done in Hc as (log & Hs1 & Hdec).
  rewrite Hb in Hs1. apply app_inv_head in Hs1 as <-.
  apply fs_bind_inv in Hrun as [(s2 & x & Hx & Hrun)|(e & Hx & _)].
  2: { unfold command in Hx. by destruct (ap_command _ _ _). }
  apply command_done in Hx as [_ Hs2].
  destruct (confirm_sends run_id approval_id decision resolver x s2) as (after & Ha & Fa).
  rewrite Hrun in Ha. cbn in Ha. eexists. split; [rewrite Ha, Hs2, Hb, <- !app_assoc; reflexivity|].
  right. eexists before, _, after, now. split; [reflexivity|]. split_and!; try done.
  intros ->. by eapply confirm_done.
Qed.
End Decisions.

(** ** The preview stays in memory *)

Section Private.
Context `{AS : ApprovalStorage}.

Definition private (payload : Json) (name : string) (sent : Json) : Prop :=
  jget "owner_preview" sent = None /\
  (name = "approval.request" -> forall k, k <> "owner_preview" -> jget k sent = jget k payload).

Lemma without_preview_spec payload : private payload "approval.request" (without_preview payload).
Proof.
  unfold private, without_preview. destruct payload as [| | | | |m]; try done. cbn.
  split; [by rewrite obj_get_remove|]. intros _ k Hk. rewrite obj_get_remove.
  by rewrite (proj2 (str_eqb_false _ _)).
Qed.

Lemma request_sends run_id payload : sends (private payload) (request_approval run_id payload).
Proof.
  unfold request_approval, str_member, store_pending_approval_preview, active_run, context_session, approval_get.
  sends; [apply without_preview_spec|done].
Qed.

(** The preview of an action never reaches storage: every storage command a
    script's approval request sends is free of it, and the request itself is the
    script's payload in every other field. *)
Theorem preview_never_stored run_id payload cancellation s s' answer :
  approval_storage run_id "request" payload cancellation s = (s', answer) ->
  exists new, as_sent s' = as_sent s ++ new /\
    Forall (fun c => jget "owner_preview" (sent_payload c) = None /\
                     (sent_command c = "approval.request" ->
                      forall k, k <> "owner_preview" -> jget k (sent_payload c) = jget k payload)) new.
Proof.
  unfold approval_storage. intros Hrun.
  assert (exists new, as_sent s = as_sent s ++ new /\
            Forall (fun c => private payload (sent_command c) (sent_payload c)) new) as Hnone.
  { exists []. by rewrite app_nil_r. }
  destruct (cn_deadline_passed _); [by injection Hrun as <- _|].
  destruct (cn_requested _); [by injection Hrun as <- _|].
  destruct (negb (bool_decide _)); [by injection Hrun as <- _|].
  destruct (negb ap_persistence); [by injection Hrun as <- _|].
  change (approval_operation run_id "request" payload) with (Some (request_approval run_id payload)) in Hrun.
  cbv iota beta in Hrun.
  pose proof (request_sends run_id payload s) as Hsend.
  destruct (request_approval run_id payload s) as [s1 [v|e]]; cbn [fst] in Hsend; injection Hrun as <- _; exact Hsend.
Qed.
End Private.

(** ** What is shown *)

Section Shown.
Context `{AS : ApprovalStorage}.
Hypothesis env_previews : forall n v, av_previews (ap_env n v) = av_previews v.

(** A listed entry is the view of a bound, unexpired preview. *)
Definition shows_preview (run_id session_id : string) (previews : gmap (string * string) PendingApprovalPreview)
    (v : Json) : Prop :=
  exists b p, v = approval_view run_id b (pp_text p) /\ pb_session_id b = session_id /\
    previews !! (run_id, pb_approval_id b) = Some p /\ same_binding p b = true.

Abbreviation previews_of s := (av_previews (as_view s)).

Lemma list_row_done run_id session_id now row s s' shown :
  list_row run_id session_id now row s = (s', Ok shown) ->
  previews_of s' ⊆ previews_of s /\
  forall v, shown = Some v -> shows_preview run_id session_id (previews_of s) v.
Proof.
  unfold list_row. destruct (negb _); [by intros [= <- <-]|]. intros Hrun.
  apply fs_bind_done in Hrun as (s1 & id & Hl & Hrun). apply fs_lift_done in Hl as [_ ->].
  apply fs_bind_done in Hrun as (s1 & expiry & Hl & Hrun). apply fs_lift_done in Hl as [_ ->].
  destruct (expiry <=? now)%Z.
  - apply fs_bind_done in Hrun as (s1 & u & Hc & Hrun). injection Hrun as <- <-.
    unfold clear_pending_approval_preview, on_previews in Hc. injection Hc as <- _. cbn. rewrite env_previews.
    split; [apply delete_subseteq|done].
  - apply fs_bind_done in Hrun as (s1 & call & Hl & Hrun). apply fs_lift_done in Hl as [_ ->].
    apply fs_bind_done in Hrun as (s1 & name & Hl & Hrun). apply fs_lift_done in Hl as [_ ->].
    apply fs_bind_done in Hrun as (s1 & risk & Hl & Hrun). apply fs_lift_done in Hl as [_ ->].
    apply fs_bind_done in Hrun as (s1 & text & [= <- Ht] & Hrun). injection Hrun as <- <-.
    cbn in *. rewrite env_previews in *. split; [done|]. intros v Hv.
    destruct text as [text|]; [|done]. injection Hv as <-.
    apply match_preview_spec in Ht as (p & Hp & Hb & _ & _ & <-). eexists _, p. by split_and!.
Qed.

Lemma list_rows_done run_id session_id now rows s s' views :
  list_rows run_id session_id now rows s = (s', Ok views) ->
  Forall (shows_preview run_id session_id (previews_of s)) views.
Proof.
  revert s s' views. induction rows as [|row rows IH]; intros s s' views; cbn [list_rows].
  { by intros [= <- <-]. }
  intros (s1 & shown & Hr & Hrun)%fs_bind_done. apply list_row_done in Hr as [Hsub Hshown].
  apply fs_bind_done in Hrun as (s2 & rest & Hrest & Hrun). injection Hrun as <- <-. apply IH in Hrest.
  assert (Forall (shows_preview run_id session_id (previews_of s)) rest) as Hf.
  { eapply Forall_impl; [exact Hrest|]. intros v (b & p & -> & Hs & Hp & Hb).
    exists b, p. split_and!; try done. by eapply lookup_weaken. }
  destruct shown; [|done]. constructor; auto.
Qed.

Lemma kept (I : ApprovalView -> Prop) {A} (m : AM A) s s' r :
  m s = (s', r) -> keeps I m -> I (as_view s) -> I (as_view s').
Proof. intros Hm Hk Hs. specialize (Hk s Hs). by rewrite Hm in Hk. Qed.

(** The previews are those of a state. *)
Definition same_previews (s : AState) (v : ApprovalView) : Prop := av_previews v = previews_of s.

Lemma env_same s n v : same_previews s v -> same_previews s (ap_env n v).
Proof. unfold same_previews. by rewrite env_previews. Qed.

#[local] Hint Resolve env_same : retains.

Lemma list_done run_id session actor s s' views :
  pending_approvals_for_owner run_id session actor s = (s', Ok views) ->
  exists session_id, Forall (shows_preview run_id session_id (previews_of s)) views.
Proof.
  unfold pending_approvals_for_owner, active_run, context_session, approval_list, check_owner, session_get.
  intros Hrun. assert (same_previews s (as_view s)) as Hs by done. revert Hrun Hs. generalize s at 1 3 as t. intros t Hrun Ht.
  repeat match type of Hrun with
  | fs_bind _ _ _ = _ =>
      let s1 := fresh "t" in let x := fresh "x" in let Hm := fresh "Hm" in
      apply fs_bind_done in Hrun as (s1 & x & Hm & Hrun);
      apply (kept (same_previews s)) in Hm; [|keeps|done]
  end.
  apply list_rows_done in Hrun. unfold same_previews in *.
  match goal with
  | E : previews_of ?u = _, H : Forall (shows_preview _ _ (previews_of ?u)) _ |- _ => rewrite E in H
  end. eauto.
Qed.

Lemma resolve_checked run_id approval_id decision resolver expected s s' :
  resolve_pending_approval run_id approval_id decision resolver expected s = (s', Ok tt) ->
  exists log more s1 now, same_previews s (as_view s1) /\
    decidable run_id approval_id decision resolver expected log (as_view s1) now /\
    as_sent s' = as_sent s ++ log ++ more.
Proof.
  unfold resolve_pending_approval. intros (s1 & [[session row] now] & Hc & Hrun)%fs_bind_done.
  apply fs_bind_done in Hrun as (s2 & x & Hx & Hrun). apply command_done in Hx as [_ Hs2].
  destruct (confirm_sends run_id approval_id decision resolver x s2) as (after & Ha & _).
  rewrite Hrun in Ha. cbn in Ha.
  pose proof Hc as (log & Hlog & Hd)%check_done. eexists log, _, s1, now. split_and!.
  - apply (kept (same_previews s)) in Hc; [done| |done].
    unfold check_resolution, active_run, context_session, approval_get, check_owner, session_get, approved_preview,
      matching_pending_approval_preview. keeps.
  - done.
  - rewrite Ha, Hs2, Hlog, <- !app_assoc. reflexivity.
Qed.

Lemma approval_view_get run_id b text :
  let v := approval_view run_id b text in
  jget "approval_id" v = Some (JString (pb_approval_id b)) /\
  jget "session_id" v = Some (JString (pb_session_id b)) /\
  jget "tool_name" v = Some (JString (pb_tool_name b)) /\
  jget "risk_class" v = Some (JString (pb_risk_class b)) /\
  jget "expires_at_ms" v = Some (jint (pb_expires_at_ms b)) /\ jget "preview" v = Some (JString text).
Proof. by split_and!. Qed.

Lemma same_binding_inj p b1 b2 :
  same_binding p b1 = true -> same_binding p b2 = true -> pb_approval_id b1 = pb_approval_id b2 -> b1 = b2.
Proof.
  unfold same_binding. intros H1 H2 Hid. bool_to_prop. destruct b1, b2. cbn in *. by subst.
Qed.

(** C32. What a person approves is what they were shown: when a listing showed
    an approval, its preview is still bound when the decision is made, and the
    approval succeeds, then the durable row the decision applies to names the
    very session, tool, risk class and expiry that were shown, and the preview
    text that was shown is the one bound to that row's tool call. *)
Theorem approved_action_was_shown run_id session actor s s1 views v approval_id resolver expected t t' :
  pending_approvals_for_owner run_id session actor s = (s1, Ok views) -> v ∈ views ->
  jget "approval_id" v = Some (JString approval_id) ->
  previews_of t !! (run_id, approval_id) = previews_of s !! (run_id, approval_id) ->
  resolve_pending_approval run_id approval_id "approved" resolver expected t = (t', Ok tt) ->
  exists data row name risk text p expiry,
    answered (as_sent t') "approval.get" (jobj [("approval_id", JString approval_id)]) data /\
    first_row data = Some row /\
    cell_str row 4 = Some name /\ jget "tool_name" v = Some (JString name) /\
    cell_str row 6 = Some risk /\ jget "risk_class" v = Some (JString risk) /\
    cell_i64 row 11 = Some expiry /\ jget "expires_at_ms" v = Some (jint expiry) /\
    jget "preview" v = Some (JString text) /\
    previews_of t !! (run_id, approval_id) = Some p /\ pp_text p = text /\
    cell_str row 3 = Some (pp_tool_call_id p).
Proof.
  intros (session_id & Hf)%list_done Hin Hid Hsame Hres.
  rewrite Forall_forall in Hf. destruct (Hf v Hin) as (b & p & -> & Hses & Hp & Hb).
  destruct (approval_view_get run_id b (pp_text p)) as (Hv & _ & Hn & Hr & He & Ht).
  rewrite Hv in Hid. injection Hid as <-.
  apply resolve_checked in Hres as (log & more & t1 & now & Hprev & [_ _ Hrow] & Hlog).
  destruct Hrow as (c & ses & data & row & av & Hc & (Ec & Ep & Ea & _) & _ & Hfirst & _ & _ & _ & _ & Happ).
  destruct (Happ eq_refl) as (b' & text & (_ & Hid & Hc3 & Hc4 & Hc6 & Hc11) & Hm).
  apply match_preview_spec in Hm as (p' & Hp' & Hb' & _). unfold same_previews in Hprev.
  rewrite Hprev, Hid, Hsame, Hp in Hp'. injection Hp' as <-.
  pose proof (same_binding_inj _ _ _ Hb Hb' (eq_sym Hid)) as <-.
  exists data, row, (pb_tool_name b), (pb_risk_class b), (pp_text p), p, (pb_expires_at_ms b).
  split_and!; try done.
  - rewrite Hlog. exists c. rewrite !elem_of_app. split; [tauto|done].
  - by rewrite Hsame.
  - rewrite Hc3. f_equal. unfold same_binding in Hb. by bool_to_prop.
Qed.
End Shown.
End ApprovalsSpec.

(** ** An approval at work *)

Module ApprovalsExample.
Import ApprovalsSpec.

(** Storage with one approval: its state and resolver. *)
Definition example_row (state resolver : string) : Json :=
  JArray [JString "a1"; JString "r1"; JString "s1"; JString "c1"; JString "shell"; JString "{}"; JString "high";
          JString state; JNull; JNull; JNull; jint 500; JNull; JString resolver].

Definition rows (row : Json) : Json := jobj [("rows", JArray [row])].

Definition text_of (k : string) (j : Json) : string := default EmptyString (jget k j ≫= as_str).

Definition example_command (name : string) (payload : Json) (d : string * string) :
    (string * string) * result Json StorageError :=
  if str_eqb name "approval.resolve" then
    ((text_of "state" payload, text_of "resolver" payload), Ok (jobj [("rows_affected", jint 1)]))
  else if str_eqb name "session.get" then
    (d, Ok (rows (JArray [JNull; JNull; JNull; JNull; JNull; JNull; JString "42"])))
  else (d, Ok (rows (example_row (fst d) (snd d)))).

#[local] Instance example_storage : ApprovalStorage := {|
  AD := string * string; ap_command := example_command; ap_persistence := true;
  ap_times n := Z.of_nat (100 + n); ap_max_concurrent_runs := 4; ap_env _ v := v |}.

Definition example_start : AState := {|
  as_view := {| av_handles := {["r1" := {| lr_terminal := false; lr_cancel_requested := false |}]};
                av_contexts := {["r1" := "s1"]}; av_previews := ∅ |};
  as_durable := ("pending", EmptyString); as_sent := []; as_ticks := 0; as_steps := 0 |}.

Definition example_payload : Json :=
  jobj [("run_id", JString "r1"); ("session_id", JString "s1"); ("id", JString "a1"); ("tool_call_id", JString "c1");
        ("tool_name", JString "shell"); ("risk_class", JString "high"); ("expires_at_ms", jint 500);
        ("owner_preview", JString "rm -r build")].

Definition running : RunCancellation := {| cn_deadline_passed := false; cn_requested := false |}.

Local Abbreviation asked := (approval_storage "r1" "request" example_payload running example_start).
Local Abbreviation listed := (pending_approvals_for_actor "r1" "s1" "42" (fst asked)).
Local Abbreviation granted := (resolve_pending_approval "r1" "a1" "approved" "telegram:42" (Some "s1") (fst listed)).

Lemma start_ok : previews_ok (as_view example_start).
Proof.
  split; cbn.
  - apply map_Forall_empty.
  - intros run_id a1 a2 [x Hx]. by rewrite lookup_empty in Hx.
  - by apply Z.leb_le.
Qed.

Lemma approval_previews_bounded_witness :
  let s := run_approval_op (OpScript "r1" "request" example_payload running) example_start in
  pp_text <$> (av_previews (as_view s) !! ("r1", "a1")) = Some "rm -r build" /\ previews_ok (as_view s).
Proof.
  split; [vm_compute; reflexivity|].
  apply (approval_previews_bounded (AS := example_storage) (fun _ _ h => h)
           [OpScript "r1" "request" example_payload running] example_start).
  exact start_ok.
Defined.

Lemma preview_never_stored_witness :
  exists new, as_sent (fst asked) = as_sent example_start ++ new /\
    Forall (fun c => jget "owner_preview" (sent_payload c) = None /\
                     (sent_command c = "approval.request" ->
                      forall k, k <> "owner_preview" -> jget k (sent_payload c) = jget k example_payload)) new.
Proof. exact (preview_never_stored "r1" example_payload running example_start _ _ (surjective_pairing asked)). Defined.

Lemma decision_sent_only_when_due_witness :
  snd granted = Ok tt /\
  exists new, as_sent (fst granted) = as_sent (fst listed) ++ new /\
  (Forall is_no_decision new /\ snd granted <> Ok tt \/
   exists before c after now, new = before ++ c :: after /\ Forall is_no_decision before /\
     Forall is_no_decision after /\ sent_command c = "approval.resolve" /\
     sent_payload c = resolve_payload "r1" "a1" "approved" "telegram:42" now /\
     decidable "r1" "a1" "approved" "telegram:42" (Some "s1") before (sent_view c) now /\
     (snd granted = Ok tt -> av_previews (as_view (fst granted)) !! ("r1", "a1") = None)).
Proof.
  split; [vm_compute; reflexivity|].
  exact (decision_sent_only_when_due "r1" "a1" "approved" "telegram:42" (Some "s1") (fst listed) _ _
           (surjective_pairing granted)).
Defined.

(** The one entry of the listing. *)
Definition shown : Json :=
  match snd listed with Ok (v :: _) => v | _ => JNull end.

Lemma approved_action_was_shown_witness :
  jget "preview" shown = Some (JString "rm -r build") /\
  exists data row name risk text p expiry,
    answered (as_sent (fst granted)) "approval.get" (jobj [("approval_id", JString "a1")]) data /\
    first_row data = Some row /\
    cell_str row 4 = Some name /\ jget "tool_name" shown = Some (JString name) /\
    cell_str row 6 = Some risk /\ jget "risk_class" shown = Some (JString risk) /\
    cell_i64 row 11 = Some expiry /\ jget "expires_at_ms" shown = Some (jint expiry) /\
    jget "preview" shown = Some (JString text) /\
    av_previews (as_view (fst listed)) !! ("r1", "a1") = Some p /\ pp_text p = text /\
    cell_str row 3 = Some (pp_tool_call_id p).
Proof.
  split; [vm_compute; reflexivity|].
  assert (listed = (fst listed, Ok [shown])) as Hl.
  { refine (eq_trans (surjective_pairing listed) (f_equal (pair (fst listed)) (_ : snd listed = Ok [shown]))).
    vm_compute. reflexivity. }
  assert (granted = (fst granted, Ok tt)) as Hg.
  { refine (eq_trans (surjective_pairing granted) (f_equal (pair (fst granted)) (_ : snd granted = Ok tt))).
    vm_compute. reflexivity. }
  refine (approved_action_was_shown (AS := example_storage) (fun _ _ => eq_refl) "r1" (Some "s1") (Some "42") (fst asked)
            (fst listed) [shown] shown "a1" "telegram:42" (Some "s1") (fst listed) (fst granted) Hl _ _ _ Hg).
  - by left.
  - vm_compute. reflexivity.
  - vm_compute. reflexivity.
Defined.
End ApprovalsExample.
