(* ===== verification/Credentials.v ===== *)
(** Credential identifiers, PKCE material and base64url.

    - [Token]: [CredentialId] and [AuthStatus] of [auth/token.rs].
    - [Pkce]: [auth/pkce.rs], the S256 verifier, challenge and state, over the
      digest and the random source of the [ring] crate.
    - [AccountClaim]: the base64url decoder of [auth/oauth/codex_metadata.rs].

    The decoder is shown to invert the encoder, and generated material to be
    valid, to carry all the random bytes and to match its challenge. *)
From stdpp Require Import base list strings numbers pretty.
From S2P Require Import Prelude Sha256 Utf8.

(** ** Identifiers *)
Module Token.

Inductive TokenError := InvalidCredentialId | InvalidStatus.

Definition blank_or_control (c : char) : bool := is_whitespace c || is_control c.

Definition validate_credential_id (value : string) : result unit TokenError :=
  if is_empty value || (128 <? slen value)%Z || existsb blank_or_control (chars value)
     || bool_decide (Byte.x2f ∈ s2b value) || bool_decide (Byte.x5c ∈ s2b value)
  then Err InvalidCredentialId else Ok tt.

(** [CredentialId::new]: the identifier is the validated text. *)
Definition credential_id_new (value : string) : result string TokenError :=
  let? _ := validate_credential_id value in Ok value.

Inductive AuthStatus := Active | ReauthRequired | Disabled.

Definition status_as_str (s : AuthStatus) : string :=
  match s with Active => "active" | ReauthRequired => "reauth_required" | Disabled => "disabled" end.

Definition status_from_str (value : string) : result AuthStatus TokenError :=
  if str_eqb value "active" then Ok Active
  else if str_eqb value "reauth_required" then Ok ReauthRequired
  else if str_eqb value "disabled" then Ok Disabled
  else Err InvalidStatus.

Lemma status_round_trip s : status_from_str (status_as_str s) = Ok s.
Proof. by destruct s. Qed.

Lemma status_from_str_Ok v s : status_from_str v = Ok s -> v = status_as_str s.
Proof. unfold status_from_str. intros H. repeat (case_match; bool_to_prop; simplify_eq); done. Qed.

Lemma credential_id_new_Ok v id : credential_id_new v = Ok id -> id = v /\ v <> EmptyString /\ (slen v <= 128)%Z.
Proof.
  unfold credential_id_new, validate_credential_id. destruct (_ || _) eqn:E; [done|]. intros [= <-].
  bool_to_prop. split; [done|]. split; [by intros ->|lia].
Qed.

End Token.

(** ** PKCE *)

(** What [pkce.rs] uses of [ring]: SHA-256, and [SystemRandom::fill] as the
    answers of its successive calls. *)
Class Ring := {
  ring_sha256 : list byte -> list byte;
  ring_fill : nat -> nat -> option (list byte)
}.

(** A digest is 32 bytes; [fill] fills the whole buffer or fails. *)
Class RingLaws `{Ring} : Prop := {
  ring_sha256_length bs : length (ring_sha256 bs) = 32;
  ring_fill_length call n bs : ring_fill call n = Some bs -> length bs = n
}.

Module Pkce.

Inductive PkceError := EntropyUnavailable | InvalidVerifier.

Definition VERIFIER_BYTES : nat := 32.
Definition STATE_BYTES : nat := 16.
Definition PKCE_CHALLENGE_METHOD : string := "S256".

Definition is_unreserved_byte (b : byte) : bool :=
  in_range 65 90 b || in_range 97 122 b || in_range 48 57 b || bool_decide (b = Byte.x2d)
  || bool_decide (b = Byte.x2e) || bool_decide (b = Byte.x5f) || bool_decide (b = Byte.x7e).

Definition is_unreserved (value : string) : bool :=
  negb (is_empty value) && forallb is_unreserved_byte (s2b value).

Definition TABLE : list byte :=
  s2b "ABCDEFGHIJKLMNOPQRSTUVWXYZabcdefghijklmnopqrstuvwxyz0123456789-_".

(** [TABLE[((n >> k) & 63) as usize]]. *)
Definition digit (n k : Z) : byte := default Byte.x00 (TABLE !! Z.to_nat (Z.land (Z.shiftr n k) 63)).

Fixpoint base64url_nopad (bytes : list byte) : list byte :=
  match bytes with
  | a :: b :: c :: rest =>
      let n := Z.lor (Z.lor (Z.shiftl (bval a) 16) (Z.shiftl (bval b) 8)) (bval c) in
      digit n 18 :: digit n 12 :: digit n 6 :: digit n 0 :: base64url_nopad rest
  | [a; b] =>
      let n := Z.lor (Z.shiftl (bval a) 16) (Z.shiftl (bval b) 8) in
      [digit n 18; digit n 12; digit n 6]
  | [a] => let n := Z.shiftl (bval a) 16 in [digit n 18; digit n 12]
  | [] => []
  end.

Record PkceMaterial := { challenge : string; verifier : string; state : string }.

Section pkce.
Context `{R : Ring}.

Definition s256_challenge (verifier : string) : result string PkceError :=
  if (slen verifier <? 43)%Z || (128 <? slen verifier)%Z || negb (is_unreserved verifier)
  then Err InvalidVerifier
  else Ok (b2s (base64url_nopad (ring_sha256 (s2b verifier)))).

Definition random_base64url (call nbytes : nat) : result string PkceError :=
  let? bytes := ok_or (ring_fill call nbytes) EntropyUnavailable in
  Ok (b2s (base64url_nopad bytes)).

(** [generate], at the [call]-th use of the random source. *)
Definition generate (call : nat) : result PkceMaterial PkceError :=
  let? verifier := random_base64url call VERIFIER_BYTES in
  let? state := random_base64url (S call) STATE_BYTES in
  let? challenge := s256_challenge verifier in
  Ok {| challenge := challenge; verifier := verifier; state := state |}.

End pkce.
End Pkce.

(** ** The decoder of the account claim *)
Module AccountClaim.

Definition MAX_PAYLOAD_BYTES : Z := 65536.

Definition base64_value (byte : byte) : option Z :=
  if in_range 65 90 byte then Some (bval byte - 65)%Z
  else if in_range 97 122 byte then Some (bval byte - 97 + 26)%Z
  else if in_range 48 57 byte then Some (bval byte - 48 + 52)%Z
  else if bool_decide (byte = Byte.x2d) then Some 62%Z
  else if bool_decide (byte = Byte.x5f) then Some 63%Z
  else None.

(** The loop: [accumulator] holds the [bits] bits not yet emitted. *)
Fixpoint decode_loop (input : list byte) (accumulator bits : Z) (output : list byte) :
    option (list byte * Z) :=
  match input with
  | [] => Some (output, accumulator)
  | byte :: rest =>
      match base64_value byte with
      | None => None
      | Some value =>
          let accumulator := Z.lor (wrap32 (Z.shiftl accumulator 6)) value in
          let bits := (bits + 6)%Z in
          if (8 <=? bits)%Z then
            let bits := (bits - 8)%Z in
            decode_loop rest (Z.land accumulator (wrap32 (Z.shiftl 1 bits - 1))) bits
              (output ++ [Sha256.byte_of_Z (Z.shiftr accumulator bits)])
          else decode_loop rest accumulator bits output
      end
  end.

Definition decode_base64url (input : string) : option (list byte) :=
  if is_empty input || (slen input mod 4 =? 1)%Z then None else
  if (usize_max <? slen input * 3)%Z then None else
  if (MAX_PAYLOAD_BYTES <? slen input * 3 / 4)%Z then None else
  match decode_loop (s2b input) 0 0 [] with
  | Some (output, accumulator) =>
      if (accumulator =? 0)%Z && (blen output <=? MAX_PAYLOAD_BYTES)%Z then Some output else None
  | None => None
  end.

Definition is_compact_segment (segment : list byte) : bool :=
  forallb (fun b => is_ascii_alphanumeric b || bool_decide (b = Byte.x2d) || bool_decide (b = Byte.x5f)) segment.

Definition valid_account_id (account_id : string) : bool :=
  negb (is_empty account_id) && (slen account_id <=? 128)%Z
  && forallb (fun b => is_ascii_alphanumeric b || bool_decide (b = Byte.x2e)
                       || bool_decide (b = Byte.x5f) || bool_decide (b = Byte.x2d)) (s2b account_id).

End AccountClaim.

(** ** Encoding and decoding *)

Lemma lor_shiftl a k v : (0 <= k)%Z -> (0 <= v < 2 ^ k)%Z -> Z.lor (Z.shiftl a k) v = (a * 2 ^ k + v)%Z.
Proof.
  intros Hk Hv. rewrite <- Z.shiftl_mul_pow2 by done.
  assert (Hland : Z.land (Z.shiftl a k) v = 0%Z).
  { apply Z.bits_inj'. intros n Hn. rewrite Z.land_spec, Z.bits_0, Z.shiftl_spec by done.
    destruct (decide (n < k)%Z) as [Hnk|Hnk]; [rewrite Z.testbit_neg_r by lia; done|].
    destruct (decide (v = 0)%Z) as [->|Hv0]; [by rewrite Z.bits_0, andb_false_r|].
    rewrite (Z.bits_above_log2 v n), andb_false_r; [done|lia|].
    enough (Z.log2 v < k)%Z by lia. apply Z.log2_lt_pow2; lia. }
  pose proof (Z.add_lor_land (Z.shiftl a k) v). lia.
Qed.

Lemma land_mask n k : (0 <= k)%Z -> Z.land n (Z.shiftl 1 k - 1) = (n mod 2 ^ k)%Z.
Proof.
  intros Hk. rewrite <- Z.land_ones by done. done.
Qed.

Module Base64.
Import Pkce AccountClaim.

(** The alphabet and the decoder's ranges agree on every digit. *)
Lemma base64_digit_value n k : (0 <= k)%Z -> base64_value (digit n k) = Some ((n / 2 ^ k) mod 64)%Z.
Proof.
  intros Hk. unfold digit. change 63%Z with (Z.shiftl 1 6 - 1)%Z.
  rewrite land_mask, Z.shiftr_div_pow2 by done. set (v := ((n / 2 ^ k) mod 2 ^ 6)%Z).
  assert (Hv : (0 <= v < 64)%Z) by (apply Z.mod_pos_bound; lia). change (base64_value
    (default Byte.x00 (TABLE !! Z.to_nat v)) = Some v).
  assert (Hall : forallb (fun i => bool_decide (base64_value (default Byte.x00 (TABLE !! i)) = Some (Z.of_nat i)))
                   (seq 0 64) = true) by (vm_compute; reflexivity).
  rewrite forallb_forall in Hall. specialize (Hall (Z.to_nat v)). rewrite bool_decide_eq_true, Z2Nat.id in Hall by lia.
  apply Hall, in_seq. lia.
Qed.

Lemma digit_unreserved n k : is_unreserved_byte (digit n k) = true.
Proof.
  unfold digit. destruct (TABLE !! _) as [b|] eqn:Hb; cbn [default].
  - assert (Hall : forallb is_unreserved_byte TABLE = true) by (vm_compute; reflexivity).
    rewrite forallb_forall in Hall. apply Hall, list_elem_of_In, (list_elem_of_lookup_2 _ _ _ Hb).
  - apply lookup_ge_None in Hb. change (length TABLE) with 64 in Hb.
    change 63%Z with (Z.shiftl 1 6 - 1)%Z in Hb. rewrite land_mask in Hb by lia.
    pose proof (Z.mod_pos_bound (Z.shiftr n k) (2 ^ 6)). lia.
Qed.

(** Three bytes at a time. *)
Lemma triple_ind (P : list byte -> Prop) :
  P [] -> (forall a, P [a]) -> (forall a b, P [a; b]) ->
  (forall a b c bs, P bs -> P (a :: b :: c :: bs)) -> forall bs, P bs.
Proof.
  intros H0 H1 H2 H3. refine (fix go bs := match bs with
    | [] => H0 | [a] => H1 a | [a; b] => H2 a b | a :: b :: c :: rest => H3 a b c rest (go rest) end).
Qed.

Lemma encoded_unreserved bs : forallb is_unreserved_byte (base64url_nopad bs) = true.
Proof. induction bs using triple_ind; cbn -[digit]; rewrite ?digit_unreserved; done. Qed.

Lemma encoded_length bs : Z.of_nat (length (base64url_nopad bs)) = ((4 * blen bs + 2) / 3)%Z.
Proof.
  unfold blen. induction bs as [| | |a b c bs IH] using triple_ind; [done..|].
  cbn [base64url_nopad length]. rewrite !Nat2Z.inj_succ, IH.
  replace (4 * Z.succ (Z.succ (Z.succ (Z.of_nat (length bs)))) + 2)%Z
    with (4 * Z.of_nat (length bs) + 2 + 4 * 3)%Z by lia.
  rewrite Z.div_add by lia. lia.
Qed.

Lemma decode_step d v rest acc bits out :
  base64_value d = Some v -> (0 <= v < 64)%Z -> (0 <= acc < 2 ^ 26)%Z -> (0 <= bits <= 6)%Z ->
  decode_loop (d :: rest) acc bits out =
    let n := (acc * 64 + v)%Z in
    if (2 <=? bits)%Z
    then decode_loop rest (n mod 2 ^ (bits - 2)) (bits - 2) (out ++ [Sha256.byte_of_Z (n / 2 ^ (bits - 2))])
    else decode_loop rest n (bits + 6) out.
Proof.
  intros Hd Hv Ha Hb. cbn [decode_loop]. rewrite Hd. cbv zeta.
  assert (Hlor : Z.lor (wrap32 (Z.shiftl acc 6)) v = (acc * 64 + v)%Z).
  { unfold wrap32. rewrite Z.mod_small by (rewrite Z.shiftl_mul_pow2; lia). by apply lor_shiftl. }
  rewrite Hlor. replace (8 <=? bits + 6)%Z with (2 <=? bits)%Z by lia.
  destruct (2 <=? bits)%Z eqn:H2; [|done]. apply Z.leb_le in H2.
  replace (bits + 6 - 8)%Z with (bits - 2)%Z by lia.
  rewrite Z.shiftr_div_pow2 by lia. unfold wrap32. rewrite (Z.mod_small (Z.shiftl 1 _ - 1)).
  - by rewrite land_mask by lia.
  - rewrite Z.shiftl_mul_pow2 by lia.
    assert (2 ^ 0 <= 2 ^ (bits - 2) <= 2 ^ 4)%Z by (split; apply Z.pow_le_mono_r; lia). lia.
Qed.

Ltac div_lia := Z.to_euclidean_division_equations; lia.

(** The digits of three bytes, packed as the encoder packs them. *)
Definition packed (a b c : byte) : Z := (bval a * 65536 + bval b * 256 + bval c)%Z.

Lemma packed_digits a b c :
  let n := packed a b c in
  base64_value (digit n 18) = Some (bval a / 4)%Z
  /\ base64_value (digit n 12) = Some (bval a mod 4 * 16 + bval b / 16)%Z
  /\ base64_value (digit n 6) = Some (bval b mod 16 * 4 + bval c / 64)%Z
  /\ base64_value (digit n 0) = Some (bval c mod 64)%Z.
Proof.
  pose proof (bval_range a). pose proof (bval_range b). pose proof (bval_range c).
  cbv zeta. rewrite !base64_digit_value by lia. unfold packed. cbn [Z.pow Z.pow_pos Pos.iter Z.mul Pos.mul].
  repeat split; f_equal; div_lia.
Qed.

(** Steps through one digit, whose value is the one given. *)
Ltac decode_digit H :=
  erewrite decode_step; [| exact H | div_lia | div_lia | lia]; cbv zeta;
  repeat match goal with
  | |- context [(2 <=? ?b)%Z] => let v := eval vm_compute in (2 <=? b)%Z in change (2 <=? b)%Z with v
  | |- context [decode_loop _ _ ?b _] =>
      let v := eval vm_compute in b in progress change b with v
  | |- context [(2 ^ ?b)%Z] => let v := eval vm_compute in (2 ^ b)%Z in change (2 ^ b)%Z with v
  end; cbv iota.

Lemma byte_of_Z_of z a : z = bval a -> Sha256.byte_of_Z z = a.
Proof. intros ->. apply bval_inj. apply Sha256.byte_of_Z_val. pose proof (bval_range a). lia. Qed.

Lemma pack2 a b : Z.lor (Z.shiftl (bval a) 16) (Z.shiftl (bval b) 8) = packed a b Byte.x00.
Proof.
  pose proof (bval_range a). pose proof (bval_range b).
  rewrite (lor_shiftl (bval a) 16) by (rewrite ?Z.shiftl_mul_pow2 by lia; lia).
  rewrite Z.shiftl_mul_pow2 by lia. unfold packed. change (bval Byte.x00) with 0%Z. lia.
Qed.

Lemma pack3 a b c :
  Z.lor (Z.lor (Z.shiftl (bval a) 16) (Z.shiftl (bval b) 8)) (bval c) = packed a b c.
Proof.
  pose proof (bval_range c). rewrite pack2. unfold packed. change (bval Byte.x00) with 0%Z.
  replace (bval a * 65536 + bval b * 256 + 0)%Z with (Z.shiftl (bval a * 256 + bval b) 8)
    by (rewrite Z.shiftl_mul_pow2; lia).
  rewrite lor_shiftl by lia. lia.
Qed.

Lemma pack1 a : Z.shiftl (bval a) 16 = packed a Byte.x00 Byte.x00.
Proof. rewrite Z.shiftl_mul_pow2 by lia. unfold packed. change (bval Byte.x00) with 0%Z. lia. Qed.

(** The decoder reads back what the encoder wrote and is left with no bits. *)
Lemma decode_loop_encoded bs out : decode_loop (base64url_nopad bs) 0 0 out = Some (out ++ bs, 0%Z).
Proof.
  revert out. induction bs as [|a|a b|a b c bs IH] using triple_ind; intros out.
  - by rewrite app_nil_r.
  - cbn [base64url_nopad]. rewrite pack1. destruct (packed_digits a Byte.x00 Byte.x00) as (D1 & D2 & _).
    pose proof (bval_range a). change (bval Byte.x00) with 0%Z in *.
    decode_digit D1. decode_digit D2. cbn [decode_loop]. rewrite (byte_of_Z_of _ a) by div_lia.
    do 2 f_equal. div_lia.
  - cbn [base64url_nopad]. rewrite pack2. destruct (packed_digits a b Byte.x00) as (D1 & D2 & D3 & _).
    pose proof (bval_range a). pose proof (bval_range b). change (bval Byte.x00) with 0%Z in *.
    decode_digit D1. decode_digit D2. decode_digit D3. cbn [decode_loop].
    rewrite <- app_assoc. cbn [app]. do 2 f_equal; [|div_lia].
    f_equal. repeat (apply f_equal2; [apply byte_of_Z_of; div_lia|]). done.
  - cbn [base64url_nopad]. rewrite pack3. destruct (packed_digits a b c) as (D1 & D2 & D3 & D4).
    pose proof (bval_range a). pose proof (bval_range b). pose proof (bval_range c).
    decode_digit D1. decode_digit D2. decode_digit D3. decode_digit D4.
    rewrite Z.mod_1_r, IH, <- !app_assoc. cbn [app]. do 3 f_equal.
    repeat (apply f_equal2; [apply byte_of_Z_of; div_lia|]). done.
Qed.

(** The base64url decoder of the account claim inverts the encoder of the
    PKCE material on every non-empty payload within the decoder's bound: the
    two alphabets agree, the missing padding is accounted for, and the bits
    left over at the end are zero for each of the three input lengths modulo
    three. *)
Lemma base64url_round_trip bs :
  bs <> [] -> (blen bs <= MAX_PAYLOAD_BYTES)%Z -> decode_base64url (b2s (base64url_nopad bs)) = Some bs.
Proof.
  intros Hne Hle. unfold decode_base64url, MAX_PAYLOAD_BYTES in *.
  assert (Hm : (0 < blen bs)%Z) by (unfold blen; destruct bs; [done|cbn; lia]).
  assert (Hl : slen (b2s (base64url_nopad bs)) = ((4 * blen bs + 2) / 3)%Z)
    by (unfold slen, blen at 1; rewrite s2b_b2s; apply encoded_length).
  rewrite s2b_b2s, decode_loop_encoded, Hl. cbn [app].
  destruct (is_empty _) eqn:He.
  { assert (slen (b2s (base64url_nopad bs)) = 0)%Z by (by destruct (b2s (base64url_nopad bs))).
    exfalso. rewrite Hl in *. div_lia. }
  unfold usize_max, u64_max. cbn [orb].
  replace (_ =? 1)%Z with false by (symmetry; apply Z.eqb_neq; div_lia).
  replace (_ <? _)%Z with false by (symmetry; apply Z.ltb_ge; div_lia).
  replace (_ <? _)%Z with false by (symmetry; apply Z.ltb_ge; div_lia).
  replace (_ <=? _)%Z with true by (symmetry; apply Z.leb_le; lia). done.
Qed.

End Base64.

(** ** Generated material *)
Module PkceSpec.
Import Pkce.

Section generated.
Context `{R : Ring} {RL : RingLaws}.

Lemma encoded_string_length n bs :
  length bs = n -> slen (b2s (base64url_nopad bs)) = ((4 * Z.of_nat n + 2) / 3)%Z.
Proof. intros <-. unfold slen, blen. rewrite s2b_b2s. apply Base64.encoded_length. Qed.

(** 32 bytes make a verifier of 43 unreserved characters: always admitted. *)
Lemma s256_challenge_encoded bs :
  length bs = VERIFIER_BYTES ->
  s256_challenge (b2s (base64url_nopad bs))
  = Ok (b2s (base64url_nopad (ring_sha256 (base64url_nopad bs)))).
Proof.
  intros Hl. unfold s256_challenge, is_unreserved.
  rewrite (encoded_string_length _ _ Hl), !s2b_b2s, Base64.encoded_unreserved.
  change ((4 * Z.of_nat VERIFIER_BYTES + 2) / 3)%Z with 43%Z. cbn [Z.ltb Z.compare Pos.compare Pos.compare_cont orb].
  destruct (is_empty _) eqn:He; [|done]. apply (encoded_string_length _ _) in Hl.
  by destruct (b2s (base64url_nopad bs)).
Qed.

(** Whenever the random source answers, [generate] succeeds: it never
    reports an invalid verifier.  The verifier it returns is 43 unreserved
    characters that [s256_challenge] accepts with exactly the published
    challenge (so the token endpoint's S256 check succeeds), the challenge is
    43 characters, and both secrets keep every random bit: decoding the
    verifier and the state gives back the 32 and the 16 bytes drawn. *)
Theorem generated_material_sound call v s :
  ring_fill call VERIFIER_BYTES = Some v -> ring_fill (S call) STATE_BYTES = Some s ->
  exists m, generate call = Ok m
    /\ s256_challenge (verifier m) = Ok (challenge m)
    /\ is_unreserved (verifier m) = true /\ slen (verifier m) = 43%Z /\ slen (challenge m) = 43%Z
    /\ AccountClaim.decode_base64url (verifier m) = Some v
    /\ AccountClaim.decode_base64url (state m) = Some s.
Proof.
  intros Hv Hs. pose proof (ring_fill_length _ _ _ Hv) as Lv. pose proof (ring_fill_length _ _ _ Hs) as Ls.
  eexists. split; [unfold generate, random_base64url; rewrite Hv, Hs; cbn [ok_or];
    rewrite (s256_challenge_encoded v) by done; reflexivity|].
  cbn [verifier challenge state]. split; [by apply s256_challenge_encoded|].
  split; [unfold is_unreserved; rewrite s2b_b2s, Base64.encoded_unreserved|].
  { pose proof (encoded_string_length _ _ Lv) as H. by destruct (b2s (base64url_nopad v)). }
  split; [by rewrite (encoded_string_length _ _ Lv)|].
  split; [by rewrite (encoded_string_length _ _ (ring_sha256_length _))|].
  split; apply Base64.base64url_round_trip; unfold blen, AccountClaim.MAX_PAYLOAD_BYTES;
    rewrite ?Lv, ?Ls; try (intros ->; done); vm_compute; congruence.
Qed.

End generated.

(** The digest of [capabilities/hash.rs] meets the laws. *)
Definition test_digest (bs : list byte) : list byte := concat (map (Sha256.to_be_bytes 4) (Sha256.sha256_state bs)).
Definition counted (n : nat) : list byte := map (fun i => Sha256.byte_of_Z (Z.of_nat i)) (seq 0 n).

#[local] Instance test_ring : Ring := {| ring_sha256 := test_digest; ring_fill := fun _ n => Some (counted n) |}.

#[local] Instance test_ring_laws : RingLaws.
Proof.
  split.
  - intros bs. cbn. unfold test_digest. pose proof (Sha256.sha256_state_length bs) as Hl.
    destruct (Sha256.sha256_state bs) as [|? [|? [|? [|? [|? [|? [|? [|? [|? ?]]]]]]]]]; try done.
  - intros call n bs [= <-]. unfold counted. by rewrite length_map, length_seq.
Qed.

Lemma generated_material_sound_witness :
  exists m, generate 0 = Ok m
    /\ s256_challenge (verifier m) = Ok (challenge m)
    /\ is_unreserved (verifier m) = true /\ slen (verifier m) = 43%Z /\ slen (challenge m) = 43%Z
    /\ AccountClaim.decode_base64url (verifier m) = Some (counted 32)
    /\ AccountClaim.decode_base64url (state m) = Some (counted 16).
Proof. apply (generated_material_sound 0 (counted 32) (counted 16)); reflexivity. Defined.

(** The example of RFC 7636, appendix B, which the unit test also checks. *)
Example rfc7636_appendix_b :
  s256_challenge "dBjftJeZ4CVP-mB92K27uhbUJU1p1r_wW1gFWFOEjXk" = Ok "E9Melhoa2OwvFrEMTJguCHaoeK1t8URWbuGJSstw-cM".
Proof. vm_compute. reflexivity. Qed.

End PkceSpec.
