(* ===== verification/RequestBody.v ===== *)
(** Encoding of provider request bodies with injected secret fields:
    [auth/request_body.rs].

    A public body, written by a script, is parsed, checked against the keys the
    host reserves, and written again with the secret fields appended, as a form
    or as a JSON object.  The output is bounded while it is written.

    The parser's cursor is the input that is left; a token is cut out of the
    input between two cursors.  [serde_json]'s reading and writing of one JSON
    string is the class [JsonStrings]. *)
From stdpp Require Import base list strings numbers pretty.
From S2P Require Import Prelude Utf8.

Module Body.

Definition MAX_BODY_BYTES : Z := 65536.
Definition MAX_FIELDS : nat := 8.
Definition MAX_FIELD_NAME_BYTES : Z := 64.
Definition MAX_JSON_DEPTH : nat := 8.

Definition RESERVED_PUBLIC_KEYS : list string :=
  ["access_token"; "refresh_token"; "id_token"; "device_code"; "device_auth_id"; "device_id";
   "authorization_code"; "code_verifier"; "verifier"; "client_secret"; "password"; "api_key";
   "authorization"; "cookie"; "code"].

Inductive RequestBodyEncoding := Form | JsonObject.

Definition content_type (e : RequestBodyEncoding) : string :=
  match e with Form => "application/x-www-form-urlencoded" | JsonObject => "application/json" end.

Inductive RequestBodyError :=
| InputTooLarge | OutputTooLarge | TooManyFields | InvalidFieldName | EmptySecret | SecretTooLarge
| SecretContainsNul | DuplicateInjectedField | InvalidFormEncoding | InvalidFormUtf8 | EmptyFormKey
| DuplicatePublicKey | ReservedPublicKey | InvalidJson | DuplicateJsonKey | JsonTopLevelNotObject
| JsonDepthExceeded
| OutOfFuel.  (* the model's parser, never the code: see [parser_has_fuel] *)

(** ** Secret fields *)

Record SecretField := { name : string; value : string }.

Definition is_ascii_alphabetic (b : byte) : bool := in_range 65 90 b || in_range 97 122 b.

Definition is_valid_field_name (name : string) : bool :=
  match s2b name with
  | [] => false
  | first :: rest =>
      if (MAX_FIELD_NAME_BYTES <? slen name)%Z then false else
      if negb (is_ascii_alphabetic first || bool_decide (first = Byte.x5f)) then false else
      forallb (fun b => is_ascii_alphanumeric b || bool_decide (b = Byte.x5f) || bool_decide (b = Byte.x2d)) rest
  end.

Definition contains_byte (b : byte) (s : string) : bool := bool_decide (b ∈ s2b s).

(** The checks [SecretField::new] and [validate_fields] share, in order. *)
Definition check_field (f : SecretField) : result unit RequestBodyError :=
  if negb (is_valid_field_name (name f)) then Err InvalidFieldName else
  if is_empty (value f) then Err EmptySecret else
  if (MAX_BODY_BYTES <? slen (value f))%Z then Err SecretTooLarge else
  if contains_byte Byte.x00 (value f) then Err SecretContainsNul else
  Ok tt.

Definition secret_field_new (name value : string) : result SecretField RequestBodyError :=
  let f := {| name := name; value := value |} in
  let? _ := check_field f in Ok f.

Definition named (n : string) (f : SecretField) : bool := eq_ignore_ascii_case (name f) n.

Fixpoint validate_each (previous fields : list SecretField) : result unit RequestBodyError :=
  match fields with
  | [] => Ok tt
  | f :: rest =>
      let? _ := check_field f in
      if existsb (named (name f)) previous then Err DuplicateInjectedField
      else validate_each (previous ++ [f]) rest
  end.

Definition validate_fields (fields : list SecretField) : result unit RequestBodyError :=
  if bool_decide (MAX_FIELDS < length fields) then Err TooManyFields else validate_each [] fields.

Definition is_reserved_public_key (key : string) (fields : list SecretField) : bool :=
  existsb (fun reserved => eq_ignore_ascii_case key reserved) RESERVED_PUBLIC_KEYS
  || existsb (fun f => eq_ignore_ascii_case key (name f)) fields.

(** ** Forms *)

Definition hex_value (byte : byte) : option Z :=
  if in_range 48 57 byte then Some (bval byte - 48)%Z
  else if in_range 97 102 byte then Some (bval byte - 97 + 10)%Z
  else if in_range 65 70 byte then Some (bval byte - 65 + 10)%Z
  else None.

Definition byte_of (z : Z) : byte := default Byte.x00 (Byte.of_N (Z.to_N (z mod 256))).

Fixpoint decode_bytes (bytes : list byte) : option (list byte) :=
  match bytes with
  | [] => Some []
  | b :: rest =>
      if bool_decide (b = Byte.x2b) then cons Byte.x20 <$> decode_bytes rest
      else if bool_decide (b = Byte.x25) then
        match rest with
        | h :: l :: rest' =>
            match hex_value h, hex_value l with
            | Some high, Some low =>
                cons (byte_of (Z.lor (Z.shiftl high 4) low)) <$> decode_bytes rest'
            | _, _ => None
            end
        | _ => None
        end
      else cons b <$> decode_bytes rest
  end.

Definition decode_form_component (component : list byte) : result string RequestBodyError :=
  let? decoded := ok_or (decode_bytes component) InvalidFormEncoding in
  if utf8_valid decoded then Ok (b2s decoded) else Err InvalidFormUtf8.

(** One [key=value] segment; without [=] the value is empty. *)
Definition split_segment (segment : list byte) : list byte * list byte :=
  default (segment, []) (split_once Byte.x3d segment).

Definition parse_segment (fields : list SecretField) (pairs : list (string * string))
    (segment : list byte) : result (list (string * string)) RequestBodyError :=
  let '(encoded_key, encoded_value) := split_segment segment in
  let? key := decode_form_component encoded_key in
  if is_empty key then Err EmptyFormKey else
  if existsb (fun '(previous, _) => eq_ignore_ascii_case previous key) pairs then Err DuplicatePublicKey else
  if is_reserved_public_key key fields then Err ReservedPublicKey else
  let? value := decode_form_component encoded_value in
  Ok (pairs ++ [(key, value)]).

Definition parse_form (public_body : string) (fields : list SecretField) :
    result (list (string * string)) RequestBodyError :=
  if is_empty public_body then Ok []
  else try_fold (parse_segment fields) [] (split_on Byte.x26 (s2b public_body)).

(** *** Bounded output *)

Definition Output (A : Type) : Type := FS (list byte) RequestBodyError A.

Definition append_bounded (bytes : list byte) : Output unit := fun output =>
  if (MAX_BODY_BYTES <? saturating_add (blen output) (blen bytes))%Z then (output, Err OutputTooLarge)
  else (output ++ bytes, Ok tt).

Definition HEX : list byte := s2b "0123456789ABCDEF".
Definition hex_digit (z : Z) : byte := default Byte.x00 (HEX !! Z.to_nat z).

Definition is_unreserved (b : byte) : bool :=
  is_ascii_alphanumeric b || bool_decide (b = Byte.x2d) || bool_decide (b = Byte.x2e)
  || bool_decide (b = Byte.x5f) || bool_decide (b = Byte.x7e).

Definition escape_byte (b : byte) : list byte :=
  [Byte.x25; hex_digit (Z.shiftr (bval b) 4); hex_digit (Z.land (bval b) 15)].

Definition append_byte (b : byte) : Output unit := fun output =>
  if is_unreserved b then
    if (blen output =? MAX_BODY_BYTES)%Z then (output, Err OutputTooLarge) else (output ++ [b], Ok tt)
  else append_bounded (escape_byte b) output.

Fixpoint append_form_component (value : list byte) : Output unit :=
  match value with
  | [] => fs_ret tt
  | b :: rest => let* _ := append_byte b in append_form_component rest
  end.

Definition append_form_pair (key value : string) : Output unit := fun output =>
  (let* _ := match output with [] => fs_ret tt | _ => append_bounded [Byte.x26] end in
   let* _ := append_form_component (s2b key) in
   let* _ := append_bounded [Byte.x3d] in
   append_form_component (s2b value)) output.

Fixpoint append_form_pairs (pairs : list (string * string)) : Output unit :=
  match pairs with
  | [] => fs_ret tt
  | (key, value) :: rest => let* _ := append_form_pair key value in append_form_pairs rest
  end.

Definition field_pair (f : SecretField) : string * string := (name f, value f).

Definition encode_form (public_body : string) (fields : list SecretField) : result string RequestBodyError :=
  let? pairs := parse_form public_body fields in
  match (let* _ := append_form_pairs pairs in append_form_pairs (map field_pair fields)) [] with
  | (body, Ok _) => Ok (b2s body)
  | (_, Err e) => Err e
  end.

(** ** JSON objects *)

(** [serde_json] on one string: [from_str::<String>], and the pieces
    [to_writer] hands to the writer. *)
Class JsonStrings := {
  read_string : string -> option string;
  string_pieces : string -> list (list byte)
}.

Inductive JsonPublicValue :=
| Scalar (token : list byte)
| Array (values : list JsonPublicValue)
| Object (entries : list (string * JsonPublicValue)).

Section json.
Context `{JS : JsonStrings}.

(** *** The parser *)

Definition Parser (A : Type) : Type := FS (list byte) RequestBodyError A.

Definition peek_byte : Parser (option byte) := fun input => (input, Ok (head input)).
Definition advance : Parser unit := fun input => (tail input, Ok tt).
Definition invalid {A} : Parser A := fs_fail InvalidJson.

Definition is_json_space (b : byte) : bool :=
  bool_decide (b = Byte.x20) || bool_decide (b = Byte.x09) || bool_decide (b = Byte.x0d) || bool_decide (b = Byte.x0a).

Fixpoint skip_while (p : byte -> bool) (input : list byte) : list byte :=
  match input with b :: rest => if p b then skip_while p rest else input | [] => [] end.

Definition skip_whitespace : Parser unit := fun input => (skip_while is_json_space input, Ok tt).

(** [input.get(start..cursor)]: both ends must be character boundaries. *)
Definition at_boundary (input : list byte) : bool :=
  match input with b :: _ => negb (is_cont b) | [] => true end.

Definition get_token (start cursor : list byte) : option (list byte) :=
  if at_boundary start && at_boundary cursor then Some (take (length start - length cursor) start) else None.

(** From after the opening quote to after the closing one. *)
Fixpoint scan_string (input : list byte) : option (list byte) :=
  match input with
  | [] => None
  | b :: rest =>
      if bool_decide (b = Byte.x22) then Some rest
      else if bool_decide (b = Byte.x5c) then match rest with [] => None | _ :: rest' => scan_string rest' end
      else if in_range 0 31 b then None
      else scan_string rest
  end.

Definition parse_string_token : Parser (list byte) := fun input =>
  match input with
  | b :: rest =>
      if bool_decide (b = Byte.x22) then
        match scan_string rest with
        | None => (input, Err InvalidJson)
        | Some cursor =>
            (cursor,
             let? token := ok_or (get_token input cursor) InvalidJson in
             let? _ := ok_or (read_string (b2s token)) InvalidJson in
             Ok token)
        end
      else (input, Err InvalidJson)
  | [] => (input, Err InvalidJson)
  end.

Definition parse_literal (expected : string) : Parser (list byte) := fun input =>
  if at_boundary input && starts_with input (s2b expected) then
    let cursor := drop (length (s2b expected)) input in
    (cursor, ok_or (get_token input cursor) InvalidJson)
  else (input, Err InvalidJson).

Definition is_digit (b : byte) : bool := in_range 48 57 b.
Definition skip_digits : list byte -> list byte := skip_while is_digit.
Definition next_is (p : byte -> bool) (input : list byte) : bool :=
  match input with b :: _ => p b | [] => false end.

(** At least one digit, after the decimal point or in the exponent. *)
Definition some_digits (input : list byte) : option (list byte) :=
  if next_is is_digit input then Some (skip_digits input) else None.

Definition scan_integer (input : list byte) : option (list byte) :=
  match input with
  | b :: rest =>
      if bool_decide (b = Byte.x30) then if next_is is_digit rest then None else Some rest
      else if in_range 49 57 b then Some (skip_digits rest)
      else None
  | [] => None
  end.

Definition scan_fraction (input : list byte) : option (list byte) :=
  match input with
  | b :: rest => if bool_decide (b = Byte.x2e) then some_digits rest else Some input
  | [] => Some input
  end.

Definition scan_exponent (input : list byte) : option (list byte) :=
  match input with
  | b :: rest =>
      if bool_decide (b = Byte.x65) || bool_decide (b = Byte.x45) then
        match rest with
        | s :: rest' =>
            if bool_decide (s = Byte.x2b) || bool_decide (s = Byte.x2d) then some_digits rest' else some_digits rest
        | [] => some_digits rest
        end
      else Some input
  | [] => Some input
  end.

Definition skip_minus (input : list byte) : list byte :=
  match input with b :: rest => if bool_decide (b = Byte.x2d) then rest else input | [] => input end.

Definition scan_number (input : list byte) : option (list byte) :=
  cursor ← scan_integer (skip_minus input); cursor ← scan_fraction cursor; scan_exponent cursor.

Definition parse_number_token : Parser (list byte) := fun input =>
  match scan_number input with
  | None => (input, Err InvalidJson)
  | Some cursor => (cursor, ok_or (get_token input cursor) InvalidJson)
  end.

Definition scalar (p : Parser (list byte)) : Parser JsonPublicValue :=
  let* token := p in fs_ret (Scalar token).

(** [parse_value], and the loops of [parse_object] and [parse_array]; the fuel
    bounds the calls, not the nesting. *)
Fixpoint parse_value (fuel : nat) (depth : nat) {struct fuel} : Parser JsonPublicValue :=
  match fuel with
  | 0 => fs_fail OutOfFuel
  | S fuel =>
      let* next := peek_byte in
      match next with
      | None => invalid
      | Some b =>
          if bool_decide (b = Byte.x7b) then
            let* _ := fs_guard (depth <? MAX_JSON_DEPTH) JsonDepthExceeded in
            let* _ := advance in
            let* _ := skip_whitespace in
            let* next := peek_byte in
            if bool_decide (next = Some Byte.x7d) then let* _ := advance in fs_ret (Object [])
            else parse_entries fuel depth [] []
          else if bool_decide (b = Byte.x5b) then
            let* _ := fs_guard (depth <? MAX_JSON_DEPTH) JsonDepthExceeded in
            let* _ := advance in
            let* _ := skip_whitespace in
            let* next := peek_byte in
            if bool_decide (next = Some Byte.x5d) then let* _ := advance in fs_ret (Array [])
            else parse_values fuel depth []
          else if bool_decide (b = Byte.x22) then scalar parse_string_token
          else if bool_decide (b = Byte.x74) then scalar (parse_literal "true")
          else if bool_decide (b = Byte.x66) then scalar (parse_literal "false")
          else if bool_decide (b = Byte.x6e) then scalar (parse_literal "null")
          else if bool_decide (b = Byte.x2d) || is_digit b then scalar parse_number_token
          else invalid
      end
  end
with parse_entries (fuel : nat) (depth : nat) (seen_keys : list string)
    (entries : list (string * JsonPublicValue)) {struct fuel} : Parser JsonPublicValue :=
  match fuel with
  | 0 => fs_fail OutOfFuel
  | S fuel =>
      let* raw_key := parse_string_token in
      let* key := fs_lift (ok_or (read_string (b2s raw_key)) InvalidJson) in
      let* _ := fs_guard (negb (existsb (str_eqb key) seen_keys)) DuplicateJsonKey in
      let* _ := skip_whitespace in
      let* next := peek_byte in
      let* _ := fs_guard (bool_decide (next = Some Byte.x3a)) InvalidJson in
      let* _ := advance in
      let* _ := skip_whitespace in
      let* value := parse_value fuel (S depth) in
      let entries := entries ++ [(key, value)] in
      let* _ := skip_whitespace in
      let* next := peek_byte in
      if bool_decide (next = Some Byte.x2c) then
        let* _ := advance in
        let* _ := skip_whitespace in
        parse_entries fuel depth (key :: seen_keys) entries
      else if bool_decide (next = Some Byte.x7d) then let* _ := advance in fs_ret (Object entries)
      else invalid
  end
with parse_values (fuel : nat) (depth : nat) (values : list JsonPublicValue) {struct fuel} :
    Parser JsonPublicValue :=
  match fuel with
  | 0 => fs_fail OutOfFuel
  | S fuel =>
      let* value := parse_value fuel (S depth) in
      let values := values ++ [value] in
      let* _ := skip_whitespace in
      let* next := peek_byte in
      if bool_decide (next = Some Byte.x2c) then
        let* _ := advance in
        let* _ := skip_whitespace in
        parse_values fuel depth values
      else if bool_decide (next = Some Byte.x5d) then let* _ := advance in fs_ret (Array values)
      else invalid
  end.

(** Two calls per byte of input, see [parser_has_fuel]. *)
Definition parser_fuel (input : list byte) : nat := 2 * length input + 1.

Definition parse_document (input : list byte) : result JsonPublicValue RequestBodyError :=
  snd ((let* _ := skip_whitespace in
        let* value := parse_value (parser_fuel input) 0 in
        let* _ := skip_whitespace in
        fun cursor => (cursor, match cursor with [] => Ok value | _ => Err InvalidJson end)) input).

(** *** Key checks *)

Fixpoint validate_json_keys (fields : list SecretField) (value : JsonPublicValue) : result unit RequestBodyError :=
  match value with
  | Object object =>
      (fix go entries := match entries with
       | [] => Ok tt
       | (key, nested) :: rest =>
           if is_reserved_public_key key fields then Err ReservedPublicKey
           else let? _ := validate_json_keys fields nested in go rest
       end) object
  | Array values =>
      (fix go values := match values with
       | [] => Ok tt
       | nested :: rest => let? _ := validate_json_keys fields nested in go rest
       end) values
  | Scalar _ => Ok tt
  end.

(** *** The bounded writer *)

Record BoundedJsonWriter := { encoded : list byte; exceeded : bool }.

Definition Writer (A : Type) : Type := FS BoundedJsonWriter RequestBodyError A.

(** [io::Write::write_all] over [write]: an empty buffer is not written. *)
Definition write_all (bytes : list byte) (w : BoundedJsonWriter) : BoundedJsonWriter * bool :=
  match bytes with
  | [] => (w, true)
  | _ =>
      if (MAX_BODY_BYTES <? saturating_add (blen (encoded w)) (blen bytes))%Z
      then ({| encoded := encoded w; exceeded := true |}, false)
      else ({| encoded := encoded w ++ bytes; exceeded := exceeded w |}, true)
  end.

Definition failure (w : BoundedJsonWriter) : RequestBodyError :=
  if exceeded w then OutputTooLarge else InvalidJson.

Definition write_json_bytes (bytes : list byte) : Writer unit := fun w =>
  let '(w, written) := write_all bytes w in
  (w, if written then Ok tt else Err (failure w)).

(** [serde_json::to_writer] stops at the first piece the writer refuses. *)
Fixpoint write_pieces (pieces : list (list byte)) (w : BoundedJsonWriter) : BoundedJsonWriter * bool :=
  match pieces with
  | [] => (w, true)
  | piece :: rest =>
      let '(w, written) := write_all piece w in
      if written then write_pieces rest w else (w, false)
  end.

Definition write_json_string (value : string) : Writer unit := fun w =>
  let '(w, written) := write_pieces (string_pieces value) w in
  (w, if written then Ok tt else Err (failure w)).

Section write_object.
Variable write_json_value : JsonPublicValue -> Writer unit.

Definition write_comma (first : bool) : Writer unit :=
  if first then fs_ret tt else write_json_bytes [Byte.x2c].

Fixpoint write_public (first : bool) (public : list (string * JsonPublicValue)) : Writer bool :=
  match public with
  | [] => fs_ret first
  | (key, value) :: rest =>
      let* _ := write_comma first in
      let* _ := write_json_string key in
      let* _ := write_json_bytes [Byte.x3a] in
      let* _ := write_json_value value in
      write_public false rest
  end.

Fixpoint write_fields (first : bool) (fields : list SecretField) : Writer unit :=
  match fields with
  | [] => fs_ret tt
  | f :: rest =>
      let* _ := write_comma first in
      let* _ := write_json_string (name f) in
      let* _ := write_json_bytes [Byte.x3a] in
      let* _ := write_json_string (value f) in
      write_fields false rest
  end.

Definition write_object_with (public : list (string * JsonPublicValue)) (fields : list SecretField) : Writer unit :=
  let* _ := write_json_bytes [Byte.x7b] in
  let* first := write_public true public in
  let* _ := write_fields first fields in
  write_json_bytes [Byte.x7d].

Fixpoint write_values (first : bool) (values : list JsonPublicValue) : Writer unit :=
  match values with
  | [] => fs_ret tt
  | value :: rest =>
      let* _ := write_comma first in
      let* _ := write_json_value value in
      write_values false rest
  end.

End write_object.

Fixpoint write_json_value (value : JsonPublicValue) : Writer unit :=
  match value with
  | Scalar token => write_json_bytes token
  | Array values =>
      let* _ := write_json_bytes [Byte.x5b] in
      let* _ := write_values write_json_value true values in
      write_json_bytes [Byte.x5d]
  | Object entries => write_object_with write_json_value entries []
  end.

Definition write_json_object : list (string * JsonPublicValue) -> list SecretField -> Writer unit :=
  write_object_with write_json_value.

Definition encode_json_object (public_body : string) (fields : list SecretField) : result string RequestBodyError :=
  let? public_value := if is_empty public_body then Ok (Object []) else parse_document (s2b public_body) in
  match public_value with
  | Object public_object =>
      let? _ := validate_json_keys fields public_value in
      let '(writer, result) := write_json_object public_object fields {| encoded := []; exceeded := false |} in
      if exceeded writer then Err OutputTooLarge else
      let? _ := result in
      if utf8_valid (encoded writer) then Ok (b2s (encoded writer)) else Err InvalidJson
  | _ => Err JsonTopLevelNotObject
  end.

Definition encode_injected_body (public_body : string) (encoding : RequestBodyEncoding)
    (fields : list SecretField) : result string RequestBodyError :=
  if (MAX_BODY_BYTES <? slen public_body)%Z then Err InputTooLarge else
  let? _ := validate_fields fields in
  match encoding with
  | Form => encode_form public_body fields
  | JsonObject => encode_json_object public_body fields
  end.

End json.

End Body.
