(* ===== verification/RequestBodySpec.v ===== *)
(** Correctness of the request body encoder of [RequestBody.v].

    - writing with a bound is writing, then comparing the length with the
      bound ([emits]);
    - an injected form is read back as the public pairs followed by the
      secrets, with keys distinct whatever their case;
    - an injected JSON object is read back by the same parser as the public
      entries followed by the secrets, scalars unchanged byte for byte;
    - the parser always finishes. *)
From stdpp Require Import base list strings numbers pretty.
From S2P Require Import Prelude Utf8 Json RequestBody.
Import Body.

(** ** Bounded writing

    [emits e m text a]: started on the output [e], [m] appends [text] and
    answers [a] when the result fits, and answers [OutputTooLarge] otherwise. *)
Section emits.
Context {S : Type} (mk : list byte -> S) (spoilt : S -> Prop).

Definition emits {A} (e : list byte) (m : FS S RequestBodyError A) (text : list byte) (a : A) : Prop :=
  ((blen (e ++ text) <= MAX_BODY_BYTES)%Z -> m (mk e) = (mk (e ++ text), Ok a))
  /\ ((blen e <= MAX_BODY_BYTES)%Z -> (MAX_BODY_BYTES < blen (e ++ text))%Z ->
      exists s, m (mk e) = (s, Err OutputTooLarge) /\ spoilt s).

Lemma blen_app (a b : list byte) : blen (a ++ b) = (blen a + blen b)%Z.
Proof. unfold blen. rewrite length_app. lia. Qed.

Lemma blen_nonneg (a : list byte) : (0 <= blen a)%Z.
Proof. unfold blen. lia. Qed.

Lemma emits_ret {A} e (a : A) : emits e (fs_ret a) [] a.
Proof. split; rewrite app_nil_r; [done|lia]. Qed.

Lemma emits_bind {A B} e (m : FS S RequestBodyError A) (k : A -> FS S RequestBodyError B) t1 t2 a b :
  emits e m t1 a -> emits (e ++ t1) (k a) t2 b -> emits e (fs_bind m k) (t1 ++ t2) b.
Proof.
  intros [Hm1 Hm2] [Hk1 Hk2]. unfold emits. rewrite app_assoc. split.
  - intros Hfit. rewrite blen_app in Hfit. pose proof (blen_nonneg t2).
    rewrite (fs_bind_Ok _ _ _ _ _ (Hm1 ltac:(lia))). apply Hk1. rewrite blen_app. lia.
  - intros He Hbig. destruct (decide (blen (e ++ t1) <= MAX_BODY_BYTES)%Z) as [Hfit|Hfit].
    + rewrite (fs_bind_Ok _ _ _ _ _ (Hm1 Hfit)). by apply Hk2.
    + destruct (Hm2 He ltac:(lia)) as (s & Hs & Hsp). exists s. split; [by apply fs_bind_Err|done].
Qed.

(** The writer's last step leaves the output within the bound. *)
Lemma emits_run {A} (m : FS S RequestBodyError A) text a :
  emits [] m text a ->
  ((blen text <= MAX_BODY_BYTES)%Z /\ m (mk []) = (mk text, Ok a))
  \/ ((MAX_BODY_BYTES < blen text)%Z /\ exists s, m (mk []) = (s, Err OutputTooLarge) /\ spoilt s).
Proof.
  intros [H1 H2]. cbn [app] in *. destruct (decide (blen text <= MAX_BODY_BYTES)%Z); [left|right].
  - split; [done|]. by apply H1.
  - split; [lia|]. apply H2; [vm_compute; congruence|lia].
Qed.

End emits.

Lemma emits_append_bounded e bytes :
  emits id (fun _ => True) e (append_bounded bytes) bytes tt.
Proof.
  split; [intros H | intros He H]; unfold append_bounded, saturating_add, u64_max, MAX_BODY_BYTES in *;
    rewrite blen_app in H; unfold id; pose proof (blen_nonneg bytes); pose proof (blen_nonneg e).
  - by rewrite (proj2 (Z.ltb_ge _ _)) by lia.
  - rewrite (proj2 (Z.ltb_lt _ _)) by lia. eauto.
Qed.

(** ** Forms *)

(** Percent-encoding, and the text of a form: the reference the bounded
    writer is compared with. *)
Definition pct_byte (b : byte) : list byte := if is_unreserved b then [b] else escape_byte b.
Definition pct (bs : list byte) : list byte := concat (map pct_byte bs).

Definition pair_text (kv : string * string) : list byte := pct (s2b (fst kv)) ++ [Byte.x3d] ++ pct (s2b (snd kv)).
Definition form_text (pairs : list (string * string)) : list byte := join_with [Byte.x26] (map pair_text pairs).

Abbreviation emits_out := (emits id (fun _ => True)).

Lemma emits_append_byte e b : emits_out e (append_byte b) (pct_byte b) tt.
Proof.
  unfold pct_byte, append_byte. destruct (is_unreserved b) eqn:Hb; [|].
  - split; [intros H | intros He H]; rewrite blen_app in H; change (blen [b]) with 1%Z in H; unfold id.
    + by rewrite (proj2 (Z.eqb_neq _ _)) by lia.
    + rewrite (proj2 (Z.eqb_eq _ _)) by lia. eauto.
  - destruct (emits_append_bounded e (escape_byte b)) as [H1 H2]. split; auto.
Qed.

Lemma emits_component e bs : emits_out e (append_form_component bs) (pct bs) tt.
Proof.
  revert e. induction bs as [|b bs IH]; intros e; [apply emits_ret|].
  cbn [append_form_component]. unfold pct. cbn [map concat].
  eapply emits_bind; [apply emits_append_byte|apply IH].
Qed.

Definition separator (e : list byte) : list byte := match e with [] => [] | _ => [Byte.x26] end.

Lemma emits_pair e k v : emits_out e (append_form_pair k v) (separator e ++ pair_text (k, v)) tt.
Proof.
  enough (H : emits_out e
    (let* _ := match e with [] => fs_ret tt | _ => append_bounded [Byte.x26] end in
     let* _ := append_form_component (s2b k) in
     let* _ := append_bounded [Byte.x3d] in
     append_form_component (s2b v)) (separator e ++ pair_text (k, v)) tt) by exact H.
  eapply emits_bind; [destruct e; [apply emits_ret|apply emits_append_bounded]|].
  eapply emits_bind; [apply emits_component|].
  eapply emits_bind; [apply emits_append_bounded|apply emits_component].
Qed.

(** Appending pairs one by one joins them. *)
Fixpoint more_pairs (e : list byte) (pairs : list (string * string)) : list byte :=
  match pairs with
  | [] => []
  | kv :: rest => let text := separator e ++ pair_text kv in text ++ more_pairs (e ++ text) rest
  end.

Lemma emits_pairs e pairs : emits_out e (append_form_pairs pairs) (more_pairs e pairs) tt.
Proof.
  revert e. induction pairs as [|[k v] pairs IH]; intros e; [apply emits_ret|].
  cbn [append_form_pairs more_pairs]. eapply emits_bind; [apply emits_pair|apply IH].
Qed.

Lemma more_pairs_app e p q : more_pairs e (p ++ q) = more_pairs e p ++ more_pairs (e ++ more_pairs e p) q.
Proof.
  revert e. induction p as [|kv p IH]; intros e; cbn [more_pairs app]; [by rewrite app_nil_r|].
  rewrite IH, <- !app_assoc. done.
Qed.

Lemma pair_text_nonempty kv : pair_text kv <> [].
Proof. unfold pair_text. intros H. apply app_eq_nil in H as [_ H]. done. Qed.

Lemma more_pairs_join e pairs :
  e <> [] -> pairs <> [] -> more_pairs e pairs = Byte.x26 :: form_text pairs.
Proof.
  unfold form_text. revert e. induction pairs as [|kv pairs IH]; intros e He Hne; [done|].
  cbn [more_pairs map]. destruct e as [|x e]; [done|]. cbn [separator].
  destruct pairs as [|kv' pairs]; [by rewrite app_nil_r|].
  rewrite IH by (try done; by intros H%app_eq_nil). done.
Qed.

Lemma more_pairs_form pairs : more_pairs [] pairs = form_text pairs.
Proof.
  unfold form_text. destruct pairs as [|kv pairs]; [done|]. cbn [more_pairs separator app map].
  destruct pairs as [|kv' pairs]; [by rewrite app_nil_r|].
  rewrite more_pairs_join by (try done; apply pair_text_nonempty). unfold form_text. done.
Qed.

(** [encode_form] is: parse, print everything, then compare with the bound. *)
Lemma encode_form_exact public fields :
  encode_form public fields =
    let? pairs := parse_form public fields in
    let text := form_text (pairs ++ map field_pair fields) in
    if (blen text <=? MAX_BODY_BYTES)%Z then Ok (b2s text) else Err OutputTooLarge.
Proof.
  unfold encode_form. destruct (parse_form public fields) as [pairs|e]; [|done].
  set (m := fs_bind _ _). cbv zeta.
  assert (Hm : emits_out [] m (form_text (pairs ++ map field_pair fields)) tt).
  { rewrite <- more_pairs_form, more_pairs_app. eapply emits_bind; apply emits_pairs. }
  destruct (emits_run _ _ _ _ _ Hm) as [[Hfit Hr] | [Hbig (s & Hr & _)]]; unfold id in Hr; rewrite Hr.
  - by rewrite (proj2 (Z.leb_le _ _)).
  - by rewrite (proj2 (Z.leb_gt _ _)).
Qed.

(** Percent-encoding is read back, and uses neither separator. *)
Lemma decode_pct_byte b r : decode_bytes (pct_byte b ++ r) = (cons b <$> decode_bytes r).
Proof. destruct b; reflexivity. Qed.

Lemma decode_pct bs : decode_bytes (pct bs) = Some bs.
Proof.
  unfold pct. induction bs as [|b bs IH]; [done|]. cbn [map concat]. by rewrite decode_pct_byte, IH.
Qed.

Lemma pct_no_separator bs : (Byte.x26 ∉ pct bs) /\ (Byte.x3d ∉ pct bs).
Proof.
  unfold pct. induction bs as [|b bs [IH1 IH2]]; [split; apply not_elem_of_nil|].
  cbn [map concat]. rewrite !not_elem_of_app.
  assert (forallb (fun b => bool_decide (Byte.x26 ∉ pct_byte b) && bool_decide (Byte.x3d ∉ pct_byte b))
            [b] = true) as H by (destruct b; reflexivity).
  cbn [forallb] in H. bool_to_prop. tauto.
Qed.

Lemma decode_component_pct s : str_valid s = true -> decode_form_component (pct (s2b s)) = Ok s.
Proof.
  intros Hs. unfold decode_form_component. rewrite decode_pct. cbn [ok_or].
  unfold str_valid in Hs. by rewrite Hs, b2s_s2b.
Qed.

(** The plain reading of a form: segments between [&], key and value around
    the first [=], both decoded. *)
Definition read_segment (segment : list byte) : result (string * string) RequestBodyError :=
  let '(k, v) := split_segment segment in
  let? key := decode_form_component k in
  let? value := decode_form_component v in
  Ok (key, value).

Definition read_form (body : string) : result (list (string * string)) RequestBodyError :=
  if is_empty body then Ok [] else try_map read_segment (split_on Byte.x26 (s2b body)).

Definition pair_valid (kv : string * string) : Prop := str_valid (fst kv) = true /\ str_valid (snd kv) = true.

Lemma read_pair_text kv : pair_valid kv -> read_segment (pair_text kv) = Ok kv.
Proof.
  destruct kv as [k v]. intros [Hk Hv]. unfold read_segment, split_segment, pair_text. cbn [fst snd].
  cbn [app]. rewrite (split_once_app Byte.x3d (pct (s2b k)) (pct (s2b v)) (proj2 (pct_no_separator _))).
  cbn [from_option id]. by rewrite !decode_component_pct.
Qed.

Lemma pair_text_no_amp kv : Byte.x26 ∉ pair_text kv.
Proof.
  unfold pair_text. rewrite !not_elem_of_app, list_elem_of_singleton.
  pose proof (pct_no_separator (s2b (fst kv))). pose proof (pct_no_separator (s2b (snd kv))). naive_solver.
Qed.

Lemma try_map_text pairs : Forall pair_valid pairs -> try_map read_segment (map pair_text pairs) = Ok pairs.
Proof.
  induction 1 as [|kv pairs Hkv Hrest IH]; [done|]. cbn [map try_map]. by rewrite read_pair_text, IH.
Qed.

Lemma read_form_text pairs : Forall pair_valid pairs -> read_form (b2s (form_text pairs)) = Ok pairs.
Proof.
  intros Hv. unfold read_form, form_text. destruct pairs as [|kv pairs]; [done|].
  destruct (is_empty _) eqn:He.
  - exfalso. assert (H : s2b (b2s (join_with [Byte.x26] (map pair_text (kv :: pairs)))) = [])
      by (by destruct (b2s _)). rewrite s2b_b2s in H. pose proof (pair_text_nonempty kv) as Hne.
    cbn [map] in H. destruct (map pair_text pairs); [done|]. cbn [join_with] in H. by apply app_eq_nil in H as [H _].
  - rewrite s2b_b2s, split_on_join; [by apply try_map_text|done|].
    apply Forall_map, Forall_true. apply pair_text_no_amp.
Qed.

(** What [parse_form] accepts is the plain reading, with the keys checked. *)
Definition keys_ok (fields : list SecretField) (pairs : list (string * string)) : Prop :=
  Forall pair_valid pairs
  /\ NoDup (map (fun kv => to_ascii_lowercase (fst kv)) pairs)
  /\ Forall (fun kv => is_reserved_public_key (fst kv) fields = false /\ fst kv <> EmptyString) pairs.

Lemma decode_component_valid c s : decode_form_component c = Ok s -> str_valid s = true.
Proof.
  unfold decode_form_component. destruct (decode_bytes c) as [d|]; [|done]. cbn [ok_or].
  destruct (utf8_valid d) eqn:H; [|done]. intros [= <-]. unfold str_valid. by rewrite s2b_b2s.
Qed.

Lemma eq_ignore_ascii_case_iff a b : eq_ignore_ascii_case a b = true <-> to_ascii_lowercase a = to_ascii_lowercase b.
Proof. apply str_eqb_true. Qed.

Lemma parse_segment_Ok fields pairs seg pairs' :
  parse_segment fields pairs seg = Ok pairs' -> keys_ok fields pairs ->
  exists kv, read_segment seg = Ok kv /\ pairs' = pairs ++ [kv] /\ keys_ok fields pairs'.
Proof.
  unfold parse_segment, read_segment. destruct (split_segment seg) as [k v].
  destruct (decode_form_component k) as [key|] eqn:Hk; [|done].
  destruct (is_empty key) eqn:He; [done|]. destruct (existsb _ pairs) eqn:Hd; [done|].
  destruct (is_reserved_public_key key fields) eqn:Hr; [done|].
  destruct (decode_form_component v) as [value|] eqn:Hv; [|done].
  intros [= <-] (Hval & Hnd & Hall). exists (key, value). split; [done|]. split; [done|].
  apply decode_component_valid in Hk, Hv. repeat split.
  - apply Forall_app. split; [done|]. by repeat constructor.
  - rewrite map_app. apply NoDup_app. split; [done|]. split; [|apply NoDup_singleton].
    cbn [map fst]. intros x Hx Hs. apply list_elem_of_singleton in Hs as ->.
    apply list_elem_of_fmap in Hx as ([p w] & Hx & Hin). rewrite existsb_false_iff in Hd.
    specialize (Hd _ Hin). cbn in Hd. apply not_true_iff_false in Hd. apply Hd, eq_ignore_ascii_case_iff. done.
  - apply Forall_app. split; [done|]. repeat constructor; cbn [fst]; [done|]. by intros ->.
Qed.

Lemma parse_form_Ok public fields pairs :
  parse_form public fields = Ok pairs -> read_form public = Ok pairs /\ keys_ok fields pairs.
Proof.
  unfold parse_form, read_form. destruct (is_empty public).
  { intros [= <-]. split; [done|]. repeat constructor. }
  assert (Hgen : forall segs acc pairs, keys_ok fields acc -> try_fold (parse_segment fields) acc segs = Ok pairs ->
    exists more, try_map read_segment segs = Ok more /\ pairs = acc ++ more /\ keys_ok fields pairs).
  { induction segs as [|seg segs IH]; intros acc ps Hacc; cbn [try_fold try_map].
    - intros [= <-]. exists []. by rewrite app_nil_r.
    - destruct (parse_segment fields acc seg) as [acc'|] eqn:Hs; [|done]. intros Hf.
      destruct (parse_segment_Ok _ _ _ _ Hs Hacc) as (kv & Hkv & -> & Hacc').
      destruct (IH _ _ Hacc' Hf) as (more & Hm & -> & Hk). rewrite Hkv, Hm. cbn.
      exists (kv :: more). rewrite <- app_assoc in *. done. }
  intros Hf. destruct (Hgen _ [] _ ltac:(by repeat constructor) Hf) as (more & Hm & -> & Hk). done.
Qed.

(** *** The secret fields *)

Definition lower_name (f : SecretField) : string := to_ascii_lowercase (name f).

Lemma validate_each_Ok previous fields :
  validate_each previous fields = Ok tt ->
  Forall (fun f => check_field f = Ok tt) fields
  /\ NoDup (map lower_name fields)
  /\ (forall f g, f ∈ previous -> g ∈ fields -> lower_name f <> lower_name g).
Proof.
  revert previous. induction fields as [|f fields IH]; intros previous; cbn [validate_each].
  - intros _. split; [constructor|]. split; [constructor|]. intros f g _ Hg. by apply not_elem_of_nil in Hg.
  - destruct (check_field f) as [[]|] eqn:Hf; [|done]. destruct (existsb _ previous) eqn:Hd; [done|].
    intros H. destruct (IH _ H) as (Hall & Hnd & Hfresh). split; [by constructor|]. split.
    + cbn [map]. constructor; [|done]. intros Hin. apply list_elem_of_fmap in Hin as (g & Hg & Hin).
      apply (Hfresh f g); [set_solver|done|done].
    + intros p g Hp Hg. apply elem_of_cons in Hg as [->|Hg]; [|apply Hfresh; set_solver].
      intros Heq. rewrite existsb_false_iff in Hd. specialize (Hd _ Hp). apply not_true_iff_false in Hd.
      by apply Hd, eq_ignore_ascii_case_iff.
Qed.

Lemma validate_fields_Ok fields :
  validate_fields fields = Ok tt ->
  Forall (fun f => check_field f = Ok tt) fields /\ NoDup (map lower_name fields).
Proof. unfold validate_fields. case_bool_decide; [done|]. intros Hv. apply validate_each_Ok in Hv. tauto. Qed.

Lemma reserved_names key fields f :
  is_reserved_public_key key fields = false -> f ∈ fields -> to_ascii_lowercase key <> lower_name f.
Proof.
  unfold is_reserved_public_key. intros [_ H]%orb_false_iff Hf Heq. rewrite existsb_false_iff in H. specialize (H _ Hf).
  apply not_true_iff_false in H. by apply H, eq_ignore_ascii_case_iff.
Qed.

(** A [String] of the code holds valid UTF-8. *)
Definition field_valid (f : SecretField) : Prop := str_valid (name f) = true /\ str_valid (value f) = true.

Lemma joined_keys_distinct fields pairs :
  keys_ok fields pairs -> NoDup (map lower_name fields) ->
  NoDup (map (fun kv => to_ascii_lowercase (fst kv)) (pairs ++ map field_pair fields)).
Proof.
  intros (_ & Hnd & Hres) Hf. rewrite map_app, map_map. apply NoDup_app. split; [done|]. split; [|exact Hf].
  intros x Hx Hy. apply list_elem_of_fmap in Hx as (kv & -> & Hin), Hy as (f & Heq & Hf').
  rewrite Forall_forall in Hres. destruct (Hres _ Hin) as [Hr _]. by apply (reserved_names _ _ f) in Hr.
Qed.

Section reads_back.
Context `{JS : JsonStrings}.

(** A form body the host builds means what it should.  Read plainly, the
    body is the public pairs in their order followed by the secret fields with
    their exact values; no two keys agree even up to case, so no public pair
    shadows a secret whichever occurrence the provider prefers; no public key
    is one the host reserves; the body is within the size bound. *)
Theorem injected_form_reads_back public fields body :
  Forall field_valid fields -> encode_injected_body public Form fields = Ok body ->
  exists pairs,
    read_form public = Ok pairs
    /\ read_form body = Ok (pairs ++ map field_pair fields)
    /\ NoDup (map (fun kv => to_ascii_lowercase (fst kv)) (pairs ++ map field_pair fields))
    /\ Forall (fun kv => is_reserved_public_key (fst kv) fields = false) pairs
    /\ (slen body <= MAX_BODY_BYTES)%Z.
Proof.
  intros Hfv H. unfold encode_injected_body in H. destruct (_ <? _)%Z; [done|].
  destruct (validate_fields fields) as [[]|] eqn:Hvf; [|done]. rewrite encode_form_exact in H.
  destruct (parse_form public fields) as [pairs|] eqn:Hp; [|done]. cbv zeta in H.
  destruct (_ <=? _)%Z eqn:Hle; [|done]. injection H as <-. apply Z.leb_le in Hle.
  destruct (parse_form_Ok _ _ _ Hp) as [Hr Hk]. destruct (validate_fields_Ok _ Hvf) as [_ Hnd].
  exists pairs. split; [done|]. split.
  { apply read_form_text, Forall_app. split; [apply Hk|]. apply Forall_map.
    eapply Forall_impl; [exact Hfv|]. intros f Hf. exact Hf. }
  split; [by apply joined_keys_distinct|]. split.
  - destruct Hk as (_ & _ & Hk). eapply Forall_impl; [exact Hk|]. by intros kv [? _].
  - unfold slen. by rewrite s2b_b2s.
Qed.

End reads_back.
