(* ===== verification/RequestJsonSpec.v ===== *)
(** Correctness of the JSON half of [RequestBody.v]: the parser's fuel, what
    the parser accepts, and that what the bounded writer produces is read back
    as the public entries followed by the secrets. *)
From stdpp Require Import base list strings numbers pretty.
From S2P Require Import Prelude Utf8 Json RequestBody RequestBodySpec.
Import Body.

(** ** Strings

    What RFC 8259 and [serde_json] fix of a JSON string: between the quotes
    stand no bare quote, backslash or control byte, and a backslash escapes the
    byte after it. *)
Fixpoint string_body (bs : list byte) : bool :=
  match bs with
  | [] => true
  | b :: rest =>
      if bool_decide (b = Byte.x5c) then match rest with [] => false | _ :: rest' => string_body rest' end
      else negb (bool_decide (b = Byte.x22)) && negb (in_range 0 31 b) && string_body rest
  end.

Definition quoted (body : list byte) : list byte := Byte.x22 :: body ++ [Byte.x22].

Definition str_text `{JsonStrings} (s : string) : list byte := concat (string_pieces s).

Class JsonStringLaws `{JsonStrings} : Prop := {
  written_is_token s : str_valid s = true ->
    exists body, str_text s = quoted body /\ string_body body = true;
  written_is_read s : str_valid s = true -> read_string (b2s (str_text s)) = Some s;
  read_is_valid t s : read_string t = Some s -> str_valid s = true
}.

Section laws.
Context `{JS : JsonStrings} {JL : JsonStringLaws}.

(** ** Tokens *)

Definition delim (tail : list byte) : bool :=
  match tail with
  | [] => true
  | b :: _ => bool_decide (b = Byte.x2c) || bool_decide (b = Byte.x7d) || bool_decide (b = Byte.x5d)
  end.

Lemma delim_cases tail :
  delim tail = true ->
  tail = [] \/ exists b r, tail = b :: r /\ (b = Byte.x2c \/ b = Byte.x7d \/ b = Byte.x5d).
Proof.
  destruct tail as [|b r]; [by left|]. cbn [delim]. rewrite !orb_true_iff, !bool_decide_eq_true.
  intros H. right. exists b, r. tauto.
Qed.

Ltac by_delim H := destruct (delim_cases _ H) as [-> | (? & ? & -> & [-> | [-> | ->]])].

Lemma delim_boundary tail : delim tail = true -> at_boundary tail = true.
Proof. intros H. by by_delim H. Qed.

Lemma get_token_app t tail :
  at_boundary (t ++ tail) = true -> at_boundary tail = true -> get_token (t ++ tail) tail = Some t.
Proof.
  intros H1 H2. unfold get_token. rewrite H1, H2. cbn [andb]. rewrite length_app.
  replace (length t + length tail - length tail) with (length t) by lia. by rewrite take_app_length.
Qed.

Lemma get_token_Some t tail u : get_token (t ++ tail) tail = Some u -> u = t /\ at_boundary (t ++ tail) = true.
Proof.
  unfold get_token. destruct (at_boundary (t ++ tail) && at_boundary tail) eqn:E; [|done].
  intros [= <-]. bool_to_prop. split; [|done]. rewrite length_app.
  replace (length t + length tail - length tail) with (length t) by lia. by rewrite take_app_length.
Qed.


Lemma two_step_ind (P : list byte -> Prop) :
  P [] -> (forall b, P [b]) -> (forall a b l, P l -> P (b :: l) -> P (a :: b :: l)) -> forall l, P l.
Proof.
  intros H0 H1 H2 l. enough (P l /\ forall b, P (b :: l)) by tauto.
  induction l as [|b l [IH1 IH2]]; [by split|]. split; [apply IH2|]. intros a. apply H2; auto.
Qed.

Lemma scan_body body tail :
  string_body body = true -> scan_string (body ++ Byte.x22 :: tail) = Some tail.
Proof.
  induction body as [|b|a b body IH1 IH2] using two_step_ind; intros H; cbn [string_body] in H; cbn [app scan_string].
  - done.
  - destruct (bool_decide (b = Byte.x5c)) eqn:Eb; [done|]. bool_to_prop.
    rewrite bool_decide_eq_false_2 by done. by rewrite H1.
  - destruct (bool_decide (a = Byte.x5c)) eqn:Ea.
    + apply bool_decide_eq_true in Ea as ->. rewrite bool_decide_eq_false_2 by done. by apply IH1.
    + bool_to_prop. rewrite bool_decide_eq_false_2 by done. rewrite H1. by apply IH2.
Qed.

Lemma token_scan_inv input rest :
  scan_string input = Some rest -> exists body, input = body ++ Byte.x22 :: rest /\ string_body body = true.
Proof.
  revert rest. induction input as [|b|a b l IH1 IH2] using two_step_ind; intros rest; cbn [scan_string].
  - done.
  - case_bool_decide as Hb; [intros [= <-]; subst; by exists []|].
    case_bool_decide; [done|]. by destruct (in_range 0 31 b).
  - case_bool_decide as Ha; [intros [= <-]; subst; by exists []|].
    case_bool_decide as Ha'.
    + intros H. destruct (IH1 _ H) as (body & -> & Hb). exists (a :: b :: body). split; [done|].
      cbn [string_body]. by rewrite bool_decide_eq_true_2.
    + destruct (in_range 0 31 a) eqn:Hr; [done|]. intros H. destruct (IH2 _ H) as (body & Heq & Hb).
      exists (a :: body). split; [by rewrite Heq|]. cbn [string_body]. rewrite bool_decide_eq_false_2 by done.
      by rewrite bool_decide_eq_false_2, Hr, Hb.
Qed.

Lemma parse_string_inv input rest t :
  parse_string_token input = (rest, Ok t) ->
  exists body s, t = quoted body /\ input = t ++ rest /\ string_body body = true /\ read_string (b2s t) = Some s.
Proof.
  unfold parse_string_token. destruct input as [|b input]; [done|]. case_bool_decide as Hb; [|done]. subst b.
  destruct (scan_string input) as [cursor|] eqn:Hs; [|done]. intros [= <- H].
  apply token_scan_inv in Hs as (body & -> & Hbody).
  assert (Heq : Byte.x22 :: body ++ Byte.x22 :: cursor = quoted body ++ cursor)
    by (unfold quoted; cbn [app]; by rewrite <- app_assoc).
  rewrite Heq in H. destruct (get_token _ _) as [u|] eqn:Hg; [|done]. apply get_token_Some in Hg as [-> _].
  cbn [ok_or] in H. destruct (read_string _) as [s|] eqn:Hr; [|done]. injection H as <-. by exists body, s.
Qed.

Lemma parse_string_of body s tail :
  string_body body = true -> read_string (b2s (quoted body)) = Some s -> at_boundary tail = true ->
  parse_string_token (quoted body ++ tail) = (tail, Ok (quoted body)).
Proof.
  intros Hb Hr Ht.
  assert (Heq : Byte.x22 :: body ++ Byte.x22 :: tail = quoted body ++ tail)
    by (unfold quoted; cbn [app]; by rewrite <- app_assoc).
  rewrite <- Heq. unfold parse_string_token. rewrite bool_decide_eq_true_2, scan_body by done.
  rewrite Heq, get_token_app by done. cbn [ok_or]. by rewrite Hr.
Qed.

(** *** Numbers *)

Definition stops (p : byte -> bool) (tail : list byte) : Prop := next_is p tail = false.
Definition in_number (b : byte) : bool :=
  is_digit b || bool_decide (b = Byte.x2e) || bool_decide (b = Byte.x65) || bool_decide (b = Byte.x45).

Lemma delim_stops tail : delim tail = true -> stops in_number tail.
Proof. intros H. by by_delim H. Qed.

Lemma skip_digits_inv input :
  exists ds, input = ds ++ skip_digits input
    /\ forall tail, stops is_digit tail -> skip_digits (ds ++ tail) = tail.
Proof.
  unfold skip_digits. induction input as [|b input (ds & Heq & Hds)].
  - exists []. split; [done|]. intros [|b tail] Ht; [done|]. cbn. cbn in Ht. by rewrite Ht.
  - cbn [skip_while]. destruct (is_digit b) eqn:Hb.
    + exists (b :: ds). split; [by rewrite Heq at 1|]. intros tail Ht. cbn. rewrite Hb. by apply Hds.
    + exists []. split; [done|]. intros [|c tail] Ht; [done|]. cbn. cbn in Ht. by rewrite Ht.
Qed.

Lemma some_digits_inv input rest :
  some_digits input = Some rest ->
  exists ds, input = ds ++ rest /\ forall tail, stops is_digit tail -> some_digits (ds ++ tail) = Some tail.
Proof.
  unfold some_digits. destruct (next_is is_digit input) eqn:Hn; [|done]. intros [= <-].
  destruct (skip_digits_inv input) as (ds & Heq & Hds). exists ds. split; [done|]. intros tail Ht.
  rewrite Hds by done. destruct ds as [|d ds]; [|].
  - cbn in Heq. exfalso. destruct input as [|b input]; [done|]. cbn in Hn, Heq.
    unfold skip_digits in Heq. cbn in Heq. rewrite Hn in Heq.
    assert (length (skip_while is_digit input) <= length input) as Hle.
    { clear. induction input as [|b input IH]; [done|]. cbn. destruct (is_digit b); cbn; lia. }
    rewrite <- Heq in Hle. cbn in Hle. lia.
  - destruct input as [|b input]; [done|]. injection Heq as -> _. cbn in Hn. cbn. by rewrite Hn.
Qed.

Lemma scan_integer_inv input rest :
  scan_integer input = Some rest ->
  exists t, input = t ++ rest /\ forall tail, stops is_digit tail -> scan_integer (t ++ tail) = Some tail.
Proof.
  unfold scan_integer. destruct input as [|b input]; [done|]. case_bool_decide as Hb.
  - destruct (next_is is_digit input) eqn:Hn; [done|]. intros [= <-]. exists [b]. split; [done|].
    intros tail Ht. cbn [app]. rewrite bool_decide_eq_true_2 by done. by rewrite Ht.
  - destruct (in_range 49 57 b) eqn:Hr; [|done]. intros [= <-].
    destruct (skip_digits_inv input) as (ds & Heq & Hds). exists (b :: ds). split; [by rewrite Heq at 1|].
    intros tail Ht. cbn [app]. rewrite bool_decide_eq_false_2, Hr by done. by rewrite Hds.
Qed.

Lemma scan_fraction_inv input rest :
  scan_fraction input = Some rest ->
  exists t, input = t ++ rest /\ (t = [] \/ head t = Some Byte.x2e)
    /\ forall tail, stops in_number tail \/ head tail = Some Byte.x65 \/ head tail = Some Byte.x45 ->
       scan_fraction (t ++ tail) = Some tail.
Proof.
  assert (Hnil : forall tail, stops in_number tail \/ head tail = Some Byte.x65 \/ head tail = Some Byte.x45 ->
    stops is_digit tail /\ scan_fraction tail = Some tail).
  { intros [|c tail] Ht; [done|]. unfold stops, next_is, in_number in *. cbn [scan_fraction head] in *.
    destruct Ht as [Ht | [[= ->] | [= ->]]]; [|done|done]. bool_to_prop.
    by rewrite bool_decide_eq_false_2 by done. }
  unfold scan_fraction at 1. destruct input as [|b input]; [intros [= <-]; exists []; naive_solver|].
  case_bool_decide as Hb.
  - subst. intros H. destruct (some_digits_inv _ _ H) as (ds & -> & Hds). exists (Byte.x2e :: ds).
    split; [done|]. split; [by right|]. intros tail Ht. cbn [app scan_fraction].
    rewrite bool_decide_eq_true_2 by done. apply Hds, Hnil, Ht.
  - intros [= <-]. exists []. split; [done|]. split; [by left|]. intros tail Ht. apply Hnil, Ht.
Qed.

Lemma scan_exponent_inv input rest :
  scan_exponent input = Some rest ->
  exists t, input = t ++ rest /\ (t = [] \/ head t = Some Byte.x65 \/ head t = Some Byte.x45)
    /\ forall tail, stops in_number tail -> scan_exponent (t ++ tail) = Some tail.
Proof.
  assert (Hnil : forall tail, stops in_number tail -> stops is_digit tail /\ scan_exponent tail = Some tail).
  { intros [|c tail] Ht; [done|]. unfold stops, next_is, in_number in *. cbn [scan_exponent].
    bool_to_prop. split; [done|]. by rewrite !bool_decide_eq_false_2 by done. }
  unfold scan_exponent at 1. destruct input as [|b input]; [intros [= <-]; exists []; naive_solver|].
  destruct (bool_decide (b = Byte.x65) || bool_decide (b = Byte.x45)) eqn:Hb.
  - intros H. assert (exists sign ds, input = sign ++ ds ++ rest
      /\ forall tail, stops is_digit tail ->
           match sign ++ ds ++ tail with
           | s :: rest' =>
               if bool_decide (s = Byte.x2b) || bool_decide (s = Byte.x2d) then some_digits rest'
               else some_digits (sign ++ ds ++ tail)
           | [] => some_digits (sign ++ ds ++ tail)
           end = Some tail) as (sign & ds & -> & Hds).
    { destruct input as [|s input]; [done|].
      destruct (bool_decide (s = Byte.x2b) || bool_decide (s = Byte.x2d)) eqn:Hs;
        destruct (some_digits_inv _ _ H) as (ds & Heq & Hds).
      - subst input. exists [s], ds. split; [done|]. intros tail Ht. cbn [app]. rewrite Hs. by apply Hds.
      - exists [], ds. split; [done|]. intros tail Ht. cbn [app].
        destruct ds as [|d ds]; [by specialize (Hds [] eq_refl)|]. injection Heq as -> _.
        cbn [app]. rewrite Hs. by apply (Hds tail). }
    exists (b :: sign ++ ds). split; [cbn [app]; by rewrite <- app_assoc|]. split.
    { right. cbn [head]. bool_to_prop. destruct Hb; bool_to_prop; subst; auto. }
    intros tail Ht. cbn [app scan_exponent]. rewrite Hb, <- app_assoc. apply Hds, Hnil, Ht.
  - intros [= <-]. exists []. split; [done|]. split; [by left|]. intros tail Ht. apply Hnil, Ht.
Qed.

Lemma scan_number_inv input rest :
  scan_number input = Some rest ->
  exists t, input = t ++ rest /\ forall tail, delim tail = true -> scan_number (t ++ tail) = Some tail.
Proof.
  unfold scan_number. intros H.
  assert (exists minus, input = minus ++ skip_minus input
    /\ forall x, scan_integer x <> None -> skip_minus (minus ++ x) = x) as (minus & Hin & Hminus).
  { destruct input as [|b input]; [done|]. cbn [skip_minus]. case_bool_decide as Hb.
    - subst. exists [Byte.x2d]. split; [done|]. intros x _. cbn. by rewrite bool_decide_eq_true_2.
    - exists []. split; [done|]. intros [|c x] Hx; [done|]. cbn. case_bool_decide; [by subst|done]. }
  rewrite Hin. clear Hin. revert H. generalize (skip_minus input) as i. intros i H.
  apply bind_Some in H as (c1 & H1 & H). apply bind_Some in H as (c2 & H2 & H3).
  destruct (scan_integer_inv _ _ H1) as (t1 & -> & T1). destruct (scan_fraction_inv _ _ H2) as (t2 & -> & S2 & T2).
  destruct (scan_exponent_inv _ _ H3) as (t3 & -> & S3 & T3).
  exists (minus ++ t1 ++ t2 ++ t3). split; [by rewrite <- !app_assoc|]. intros tail Ht%delim_stops.
  rewrite <- !app_assoc.
  assert (Hafter : stops in_number (t3 ++ tail) \/ head (t3 ++ tail) = Some Byte.x65 \/ head (t3 ++ tail) = Some Byte.x45).
  { destruct t3 as [|c t3]; [by left|]. right. by destruct S3. }
  assert (Hint : scan_integer (t1 ++ t2 ++ t3 ++ tail) = Some (t2 ++ t3 ++ tail)).
  { apply T1. unfold stops, next_is. destruct t2 as [|c t2]; cbn [app].
    - destruct Hafter as [Ha | Ha]; destruct (t3 ++ tail) as [|c r]; try done.
      + unfold stops, next_is, in_number in Ha. by bool_to_prop.
      + cbn in Ha. by destruct Ha as [[= ->] | [= ->]].
    - destruct S2 as [|[= ->]]; done. }
  rewrite Hminus by (by rewrite Hint). rewrite Hint. cbn. rewrite T2 by done. cbn. by apply T3.
Qed.

(** *** Scalars

    [parse_value] picks the scalar's parser by its first byte. *)
Definition scalar_parser (b : byte) : option (Parser (list byte)) :=
  if bool_decide (b = Byte.x22) then Some parse_string_token
  else if bool_decide (b = Byte.x74) then Some (parse_literal "true")
  else if bool_decide (b = Byte.x66) then Some (parse_literal "false")
  else if bool_decide (b = Byte.x6e) then Some (parse_literal "null")
  else if bool_decide (b = Byte.x2d) || is_digit b then Some parse_number_token
  else None.

Definition is_open (b : byte) : bool := bool_decide (b = Byte.x7b) || bool_decide (b = Byte.x5b).

Lemma parse_value_scalar fuel depth b input :
  is_open b = false ->
  parse_value (S fuel) depth (b :: input) =
    match scalar_parser b with Some p => scalar p | None => invalid end (b :: input).
Proof.
  intros H. unfold is_open in H. bool_to_prop. unfold scalar_parser.
  change (parse_value (S fuel) depth (b :: input)) with
    ((if bool_decide (b = Byte.x7b) then
            let* _ := fs_guard (depth <? MAX_JSON_DEPTH) JsonDepthExceeded in
            let* _ := advance in
            let* _ := skip_whitespace in
            let* next := peek_byte in
            if bool_decide (next = Some Byte.x7d) then let* _ := advance in fs_ret (Object [])
            else parse_entries fuel depth [] []
      else if bool_decide (b = Byte.x5b) then
            let* _ := fs_guard (depth <? MAX_JSON_DEPTH) JsonDepthExceeded in
            let* _ := advance in
            let* _ := skip_whitespace in
            let* next := peek_byte in
            if bool_decide (next = Some Byte.x5d) then let* _ := advance in fs_ret (Array [])
            else parse_values fuel depth []
      else if bool_decide (b = Byte.x22) then scalar parse_string_token
      else if bool_decide (b = Byte.x74) then scalar (parse_literal "true")
      else if bool_decide (b = Byte.x66) then scalar (parse_literal "false")
      else if bool_decide (b = Byte.x6e) then scalar (parse_literal "null")
      else if bool_decide (b = Byte.x2d) || is_digit b then scalar parse_number_token
      else invalid) (b :: input)).
  rewrite (bool_decide_eq_false_2 (b = Byte.x7b)), (bool_decide_eq_false_2 (b = Byte.x5b)) by done.
  repeat (destruct (bool_decide _); [done|]). cbn [orb]. by destruct (is_digit b).
Qed.

(** A token parser gives the same token whatever delimiter follows. *)
Lemma literal_inv l input rest t :
  parse_literal l input = (rest, Ok t) -> t = s2b l /\ input = t ++ rest.
Proof.
  unfold parse_literal. destruct (_ && _) eqn:E; [|done]. intros [= <- H]. bool_to_prop.
  apply starts_with_spec in H1 as (r & ->). rewrite drop_app_length in *.
  destruct (get_token _ _) as [u|] eqn:Hg; [|done]. apply get_token_Some in Hg as [-> _].
  by injection H as <-.
Qed.

Lemma literal_of l tail :
  at_boundary (s2b l ++ tail) = true -> at_boundary tail = true ->
  parse_literal l (s2b l ++ tail) = (tail, Ok (s2b l)).
Proof.
  intros Hb Ht. unfold parse_literal. rewrite Hb, (proj2 (starts_with_spec _ _)) by eauto. cbn [andb].
  by rewrite drop_app_length, get_token_app.
Qed.

Lemma scalar_parser_stable b p input rest t :
  scalar_parser b = Some p -> p (b :: input) = (rest, Ok t) ->
  b :: input = t ++ rest /\ head t = Some b
  /\ forall tail, delim tail = true -> p (t ++ tail) = (tail, Ok t).
Proof.
  unfold scalar_parser. intros Hp H.
  assert (Hlit : forall l c s, s2b l = c :: s -> is_cont c = false -> parse_literal l (b :: input) = (rest, Ok t) ->
    b :: input = t ++ rest /\ head t = Some b
    /\ forall tail, delim tail = true -> parse_literal l (t ++ tail) = (tail, Ok t)).
  { intros l c s Hl Hc Hlit. assert (Hbd : forall r, at_boundary (s2b l ++ r) = true) by (intros r; rewrite Hl; cbn; by rewrite Hc).
    destruct (literal_inv _ _ _ _ Hlit) as [-> Heq]. split; [done|].
    split; [rewrite Hl in *; by injection Heq as -> _|].
    intros tail Ht. apply literal_of; [apply Hbd|by apply delim_boundary]. }
  case_bool_decide as H1.
  { injection Hp as <-. destruct (parse_string_inv _ _ _ H) as (body & s & -> & Heq & Hbody & Hr).
    split; [done|]. split; [by injection Heq as -> _|]. intros tail Ht. by eapply parse_string_of; eauto using delim_boundary. }
  case_bool_decide as H2; [injection Hp as <-; by eapply (Hlit "true")|].
  case_bool_decide as H3; [injection Hp as <-; by eapply (Hlit "false")|].
  case_bool_decide as H4; [injection Hp as <-; by eapply (Hlit "null")|].
  destruct (_ || _) eqn:H5; [|done]. injection Hp as <-. unfold parse_number_token in H.
  destruct (scan_number (b :: input)) as [cursor|] eqn:Hs; [|done]. injection H as -> H.
  destruct (scan_number_inv _ _ Hs) as (u & Heq & Hu). rewrite Heq in H.
  destruct (get_token _ _) as [v|] eqn:Hg; [|done]. injection H as <-. apply get_token_Some in Hg as [-> _].
  assert (Hne : u <> []) by (intros ->; specialize (Hu [] eq_refl); done).
  destruct u as [|c u]; [done|]. injection Heq as -> ->. split; [done|]. split; [done|].
  intros tail Ht. unfold parse_number_token. rewrite Hu by done. rewrite get_token_app; [done| |by apply delim_boundary].
  cbn. unfold is_digit, is_cont, in_range in *. bool_to_prop. destruct H5; bool_to_prop; [by subst|].
  apply negb_true_iff, andb_false_iff. left. apply Z.leb_gt. lia.
Qed.

Definition scalar_ok (t : list byte) : Prop :=
  forall fuel depth tail, delim tail = true -> parse_value (S fuel) depth (t ++ tail) = (tail, Ok (Scalar t)).

Lemma scalar_ok_of b p t :
  is_open b = false -> scalar_parser b = Some p -> head t = Some b ->
  (forall tail, delim tail = true -> p (t ++ tail) = (tail, Ok t)) -> scalar_ok t.
Proof.
  intros Ho Hp Ht H fuel depth tail Htail. destruct t as [|c t]; [done|]. injection Ht as ->. cbn [app].
  rewrite parse_value_scalar, Hp by done. unfold scalar. by rewrite (fs_bind_Ok _ _ _ _ _ (H _ Htail)).
Qed.

Lemma string_scalar s : str_valid s = true -> scalar_ok (str_text s).
Proof.
  intros Hs. destruct (written_is_token s Hs) as (body & Heq & Hb).
  apply (scalar_ok_of Byte.x22 parse_string_token); [done|done|by rewrite Heq|].
  intros tail Ht. pose proof (written_is_read s Hs) as Hr. rewrite Heq in *.
  by eapply parse_string_of; eauto using delim_boundary.
Qed.

(** ** Values *)

(** What the parser guarantees of a value at nesting depth [depth]. *)
Inductive value_ok : nat -> JsonPublicValue -> Prop :=
| ok_scalar depth t : scalar_ok t -> value_ok depth (Scalar t)
| ok_array depth vs : depth < MAX_JSON_DEPTH -> Forall (value_ok (S depth)) vs -> value_ok depth (Array vs)
| ok_object depth es :
    depth < MAX_JSON_DEPTH -> NoDup (map fst es) ->
    Forall (fun kv => str_valid (fst kv) = true /\ value_ok (S depth) (snd kv)) es ->
    value_ok depth (Object es).

Lemma parse_value_nil fuel depth : parse_value (S fuel) depth [] = ([], Err InvalidJson).
Proof. done. Qed.

(** Opening brackets: the body of [parse_value] as a program of its own. *)
Definition container (close : byte) (empty : JsonPublicValue) (depth : nat) (loop : Parser JsonPublicValue) :
    Parser JsonPublicValue :=
  let* _ := fs_guard (depth <? MAX_JSON_DEPTH) JsonDepthExceeded in
  let* _ := advance in
  let* _ := skip_whitespace in
  let* next := peek_byte in
  if bool_decide (next = Some close) then let* _ := advance in fs_ret empty else loop.

Lemma parse_value_object fuel depth input :
  parse_value (S fuel) depth (Byte.x7b :: input) =
    container Byte.x7d (Object []) depth (parse_entries fuel depth [] []) (Byte.x7b :: input).
Proof. done. Qed.

Lemma parse_value_array fuel depth input :
  parse_value (S fuel) depth (Byte.x5b :: input) =
    container Byte.x5d (Array []) depth (parse_values fuel depth []) (Byte.x5b :: input).
Proof. done. Qed.

Definition skip (input : list byte) : list byte := skip_while is_json_space input.

(** Runs the steps of a parser that cannot fail or are guards. *)
Ltac run_steps :=
  cbv beta iota zeta delta [fs_bind fs_guard fs_ret fs_fail fs_lift advance skip_whitespace peek_byte invalid].

Lemma container_eq close empty depth loop b input :
  container close empty depth loop (b :: input) =
    if depth <? MAX_JSON_DEPTH then
      if bool_decide (head (skip input) = Some close) then (tail (skip input), Ok empty) else loop (skip input)
    else (b :: input, Err JsonDepthExceeded).
Proof.
  unfold container. destruct (depth <? MAX_JSON_DEPTH); [|done].
  cbn [fs_bind fs_guard fs_ret advance skip_whitespace peek_byte tail]. fold (skip input).
  by destruct (bool_decide _).
Qed.

(** After an element: a comma and the rest of the loop, or the closing bracket. *)
Definition after_element (close : byte) (closed : JsonPublicValue) (again : Parser JsonPublicValue)
    (input : list byte) : list byte * result JsonPublicValue RequestBodyError :=
  let i := skip input in
  if bool_decide (head i = Some Byte.x2c) then again (skip (tail i))
  else if bool_decide (head i = Some close) then (tail i, Ok closed)
  else (i, Err InvalidJson).

Lemma parse_values_eq fuel depth vs input :
  parse_values (S fuel) depth vs input =
    match parse_value fuel (S depth) input with
    | (r, Ok v) => after_element Byte.x5d (Array (vs ++ [v])) (parse_values fuel depth (vs ++ [v])) r
    | (r, Err e) => (r, Err e)
    end.
Proof.
  cbn [parse_values]. unfold fs_bind at 1. destruct (parse_value fuel (S depth) input) as [r [v|e]]; [|done].
  unfold after_element. cbn [fs_bind skip_whitespace peek_byte]. fold (skip r).
  destruct (bool_decide (head (skip r) = Some Byte.x2c)); [done|].
  by destruct (bool_decide (head (skip r) = Some Byte.x5d)).
Qed.

Lemma parse_entries_eq fuel depth seen es input :
  parse_entries (S fuel) depth seen es input =
    match parse_string_token input with
    | (r, Ok raw) =>
        match read_string (b2s raw) with
        | Some key =>
            if existsb (str_eqb key) seen then (r, Err DuplicateJsonKey) else
            if bool_decide (head (skip r) = Some Byte.x3a) then
              match parse_value fuel (S depth) (skip (tail (skip r))) with
              | (r', Ok v) =>
                  after_element Byte.x7d (Object (es ++ [(key, v)])) (parse_entries fuel depth (key :: seen) (es ++ [(key, v)])) r'
              | (r', Err e) => (r', Err e)
              end
            else (skip r, Err InvalidJson)
        | None => (r, Err InvalidJson)
        end
    | (r, Err e) => (r, Err e)
    end.
Proof.
  cbn [parse_entries]. run_steps. destruct (parse_string_token input) as [r [raw|e]]; [|done].
  destruct (read_string (b2s raw)) as [key|]; cbn [ok_or]; [|done].
  destruct (existsb _ seen); cbn [negb]; [done|]. unfold after_element, skip.
  destruct (bool_decide (head (skip_while is_json_space r) = Some Byte.x3a)); [|done].
  destruct (parse_value fuel (S depth) _) as [r' [v|e]]; [|done].
  destruct (bool_decide (head (skip_while is_json_space r') = Some Byte.x2c)); [done|].
  by destruct (bool_decide (head (skip_while is_json_space r') = Some Byte.x7d)).
Qed.

Lemma skip_length input : length (skip input) <= length input.
Proof. unfold skip. induction input as [|b i IH]; [done|]. cbn. destruct (is_json_space b); cbn; lia. Qed.

Lemma tail_length b (l : list byte) : head l = Some b -> length (tail l) < length l.
Proof. destruct l; cbn; [done|lia]. Qed.

Lemma string_token_length input rest t : parse_string_token input = (rest, Ok t) -> length rest < length input.
Proof.
  intros H. apply parse_string_inv in H as (body & s & -> & -> & _). unfold quoted. cbn [app length].
  rewrite length_app. lia.
Qed.

Lemma after_element_inv close closed again input rest v :
  after_element close closed again input = (rest, Ok v) ->
  (exists i, length i < length input /\ again i = (rest, Ok v)) \/ (v = closed /\ length rest < length input).
Proof.
  unfold after_element. pose proof (skip_length input) as Hl. case_bool_decide as Hc.
  - pose proof (tail_length _ _ Hc) as Ht. intros H. left. exists (skip (tail (skip input))). split; [|done].
    pose proof (skip_length (tail (skip input))). lia.
  - case_bool_decide as Hd; [|done]. pose proof (tail_length _ _ Hd). intros [= <- <-]. right. split; [done|lia].
Qed.

(** *** What is parsed is well-formed, and shorter input is left *)

Definition value_sound (fuel : nat) : Prop := forall depth input rest v,
  parse_value fuel depth input = (rest, Ok v) -> value_ok depth v /\ length rest < length input.

Definition entries_sound (fuel : nat) : Prop := forall depth seen es input rest v,
  parse_entries fuel depth seen es input = (rest, Ok v) ->
  depth < MAX_JSON_DEPTH -> seen ≡ₚ map fst es -> NoDup (map fst es) ->
  Forall (fun kv => str_valid (fst kv) = true /\ value_ok (S depth) (snd kv)) es ->
  value_ok depth v /\ length rest < length input.

Definition elements_sound (fuel : nat) : Prop := forall depth vs input rest v,
  parse_values fuel depth vs input = (rest, Ok v) ->
  depth < MAX_JSON_DEPTH -> Forall (value_ok (S depth)) vs ->
  value_ok depth v /\ length rest < length input.

Lemma value_sound_step fuel : entries_sound fuel -> elements_sound fuel -> value_sound (S fuel).
Proof.
  intros IHe IHa.
  intros depth input rest v H. destruct input as [|b input]; [done|]. destruct (is_open b) eqn:Hb.
  + unfold is_open in Hb. pose proof (skip_length input) as Hl.
    assert (Hc : forall close empty loop,
      container close empty depth loop (b :: input) = (rest, Ok v) ->
      depth < MAX_JSON_DEPTH /\ (v = empty /\ length rest < S (length input) \/ loop (skip input) = (rest, Ok v))).
    { intros close empty loop. rewrite container_eq. destruct (Nat.ltb_spec depth MAX_JSON_DEPTH); [|done].
      destruct (bool_decide (head _ = _)) eqn:Hh; [apply bool_decide_eq_true in Hh|tauto]. intros [= <- <-]. apply tail_length in Hh. split; [done|]. left. split; [done|lia]. }
    destruct (decide (b = Byte.x7b)) as [->|Hb1].
    * rewrite parse_value_object in H. destruct (Hc _ _ _ H) as [Hd [[-> Hr] | Hloop]].
      -- split; [|cbn; lia]. constructor; [done|apply NoDup_nil_2|constructor].
      -- destruct (IHe _ _ _ _ _ _ Hloop) as [? ?]; try done; [apply NoDup_nil_2|]. split; [done|cbn; lia].
    * apply orb_true_iff in Hb as [Hb|Hb]; bool_to_prop; [done|]. subst b.
      rewrite parse_value_array in H. destruct (Hc _ _ _ H) as [Hd [[-> Hr] | Hloop]].
      -- split; [|cbn; lia]. apply ok_array; [done|constructor].
      -- destruct (IHa _ _ _ _ _ Hloop) as [? ?]; try done. split; [done|cbn; lia].
  + rewrite parse_value_scalar in H by done. destruct (scalar_parser b) as [p|] eqn:Hp; [|done].
    unfold scalar in H. apply fs_bind_done in H as (r1 & t & Ht & [= <- <-]).
    destruct (scalar_parser_stable _ _ _ _ _ Hp Ht) as (Heq & Hh & Hs). split.
    * constructor. by eapply scalar_ok_of.
    * rewrite Heq, length_app. destruct t; [done|]. cbn. lia.
Qed.

Lemma entries_sound_step fuel : value_sound fuel -> entries_sound fuel -> entries_sound (S fuel).
Proof.
  intros IHv IHe.
  intros depth seen es input rest v H Hd Hseen Hnd Hall. rewrite parse_entries_eq in H.
  destruct (parse_string_token input) as [r [raw|]] eqn:Hs; [|done]. apply string_token_length in Hs.
  destruct (read_string _) as [key|] eqn:Hr; [|done]. destruct (existsb _ seen) eqn:Hex; [done|].
  case_bool_decide as Hc; [|done]. apply tail_length in Hc.
  destruct (parse_value _ _ _) as [r' [w|]] eqn:Hw; [|done]. apply IHv in Hw as [Hw Hlw].
  pose proof (skip_length r). pose proof (skip_length (tail (skip r))).
  assert (Hfresh : key ∉ map fst es).
  { rewrite <- Hseen. intros Hin. rewrite existsb_false_iff in Hex. specialize (Hex _ Hin).
    by rewrite str_eqb_refl in Hex. }
  assert (Hnd' : NoDup (map fst (es ++ [(key, w)]))).
  { rewrite map_app. apply NoDup_app. split; [done|]. split; [|apply NoDup_singleton].
    intros x Hx ->%list_elem_of_singleton. done. }
  assert (Hall' : Forall (fun kv => str_valid (fst kv) = true /\ value_ok (S depth) (snd kv)) (es ++ [(key, w)])).
  { apply Forall_app. split; [done|]. repeat constructor; [|done]. by apply read_is_valid in Hr. }
  apply after_element_inv in H as [(i & Hi & H) | [-> Hl]].
  + assert (Hperm : key :: seen ≡ₚ map fst (es ++ [(key, w)]))
      by (rewrite map_app, Hseen; cbn; by rewrite Permutation_app_comm).
    destruct (IHe _ _ _ _ _ _ H Hd Hperm Hnd' Hall') as [? ?]. split; [done|lia].
  + split; [by constructor|lia].
Qed.

Lemma elements_sound_step fuel : value_sound fuel -> elements_sound fuel -> elements_sound (S fuel).
Proof.
  intros IHv IHa.
  intros depth vs input rest v H Hd Hall. rewrite parse_values_eq in H.
  destruct (parse_value _ _ _) as [r [w|]] eqn:Hw; [|done]. apply IHv in Hw as [Hw Hlw].
  assert (Hall' : Forall (value_ok (S depth)) (vs ++ [w])) by (apply Forall_app; split; [done|by constructor]).
  apply after_element_inv in H as [(i & Hi & H) | [-> Hl]].
  + destruct (IHa _ _ _ _ _ H Hd Hall') as [? ?]. split; [done|lia].
  + split; [by constructor|lia].
Qed.

Lemma parse_sound fuel : value_sound fuel /\ entries_sound fuel /\ elements_sound fuel.
Proof.
  induction fuel as [|fuel (IHv & IHe & IHa)]; [by split; [|split]|].
  split; [by apply value_sound_step|]. split; [by apply entries_sound_step|by apply elements_sound_step].
Qed.

(** *** The parser has fuel *)

Definition no_fuel_error {A} (r : list byte * result A RequestBodyError) : Prop := snd r <> Err OutOfFuel.

Lemma string_token_fuel input : no_fuel_error (parse_string_token input).
Proof.
  unfold no_fuel_error, parse_string_token. destruct input as [|b input]; [done|]. case_bool_decide; [|done].
  destruct (scan_string input); [|done]. cbn [snd]. destruct (get_token _ _); [|done]. cbn [ok_or].
  by destruct (read_string _).
Qed.

Lemma literal_fuel l input : no_fuel_error (parse_literal l input).
Proof. unfold no_fuel_error, parse_literal. destruct (_ && _); [|done]. cbn. by destruct (get_token _ _). Qed.

Lemma number_fuel input : no_fuel_error (parse_number_token input).
Proof.
  unfold no_fuel_error, parse_number_token. destruct (scan_number input); [|done]. cbn. by destruct (get_token _ _).
Qed.

Lemma scalar_fuel b p input : scalar_parser b = Some p -> no_fuel_error (scalar p input).
Proof.
  intros Hp. assert (H : no_fuel_error (p input)).
  { unfold scalar_parser in Hp. destruct (bool_decide _); [injection Hp as <-; apply string_token_fuel|].
    do 3 (destruct (bool_decide _); [injection Hp as <-; apply literal_fuel|]).
    destruct (_ || _); [injection Hp as <-; apply number_fuel|done]. }
  unfold no_fuel_error, scalar, fs_bind in *. destruct (p input) as [? [?|e]]; [done|]. by intros [= ->].
Qed.

Lemma after_element_fuel close closed again input :
  (forall i, length i < length input -> no_fuel_error (again i)) -> no_fuel_error (after_element close closed again input).
Proof.
  intros H. unfold after_element. pose proof (skip_length input). case_bool_decide as Hc.
  - apply H. pose proof (skip_length (tail (skip input))). apply tail_length in Hc. lia.
  - by case_bool_decide.
Qed.

Lemma parser_has_fuel fuel :
  (forall depth input, 2 * length input + 1 <= fuel -> no_fuel_error (parse_value fuel depth input))
  /\ (forall depth seen es input, 2 * length input + 2 <= fuel -> no_fuel_error (parse_entries fuel depth seen es input))
  /\ (forall depth vs input, 2 * length input + 2 <= fuel -> no_fuel_error (parse_values fuel depth vs input)).
Proof.
  induction fuel as [|fuel (IHv & IHe & IHa)]; [split; [|split]; intros; lia|]. split; [|split].
  - intros depth [|b input] Hf; [done|]. destruct (is_open b) eqn:Hb.
    + assert (Hc : forall close empty loop, no_fuel_error (loop (skip input)) ->
        no_fuel_error (container close empty depth loop (b :: input))).
      { intros close empty loop Hl. rewrite container_eq. destruct (depth <? _); [|done]. by destruct (bool_decide _). }
      pose proof (skip_length input). cbn [length] in Hf. unfold is_open in Hb.
      apply orb_true_iff in Hb as [Hb|Hb]; apply bool_decide_eq_true in Hb as ->.
      * rewrite parse_value_object. apply Hc, IHe. lia.
      * rewrite parse_value_array. apply Hc, IHa. lia.
    + rewrite parse_value_scalar by done. destruct (scalar_parser b) eqn:Hp; [by eapply scalar_fuel|done].
  - intros depth seen es input Hf. rewrite parse_entries_eq. pose proof (string_token_fuel input) as Hs.
    destruct (parse_string_token input) as [r [raw|e]] eqn:Ht; [|intros [= ->]; by apply Hs]. apply string_token_length in Ht.
    destruct (read_string _); [|done]. destruct (existsb _ _); [done|]. case_bool_decide as Hc; [|done].
    apply tail_length in Hc. pose proof (skip_length r). pose proof (skip_length (tail (skip r))).
    pose proof (IHv (S depth) (skip (tail (skip r))) ltac:(lia)) as Hv.
    destruct (parse_value _ _ _) as [r' [w|]] eqn:Hw; [|exact Hv]. apply parse_sound in Hw as [_ Hw].
    apply after_element_fuel. intros i Hi. apply IHe. lia.
  - intros depth vs input Hf. rewrite parse_values_eq. pose proof (IHv (S depth) input ltac:(lia)) as Hv.
    destruct (parse_value _ _ _) as [r [w|]] eqn:Hw; [|exact Hv]. apply parse_sound in Hw as [_ Hw].
    apply after_element_fuel. intros i Hi. apply IHa. lia.
Qed.

Lemma parse_document_fuel input : parse_document input <> Err OutOfFuel.
Proof.
  unfold parse_document. unfold fs_bind at 1, skip_whitespace at 1. fold (skip input). cbv beta iota.
  pose proof (skip_length input) as Hl.
  pose proof (proj1 (parser_has_fuel (parser_fuel input)) 0 (skip input) ltac:(unfold parser_fuel; lia)) as H.
  unfold no_fuel_error in H. unfold fs_bind at 1. destruct (parse_value _ _ _) as [r [v|e]]; [|exact H].
  unfold fs_bind, skip_whitespace. cbn [snd]. by destruct (skip_while _ r).
Qed.

(** ** Printing and reading back *)

Section value_ind.
Variable P : JsonPublicValue -> Prop.
Hypothesis P_scalar : forall t, P (Scalar t).
Hypothesis P_array : forall vs, Forall P vs -> P (Array vs).
Hypothesis P_object : forall es, Forall (fun kv => P (snd kv)) es -> P (Object es).

Fixpoint value_ind' (v : JsonPublicValue) : P v :=
  match v with
  | Scalar t => P_scalar t
  | Array vs => P_array vs ((fix go vs : Forall P vs := match vs with
      | [] => Forall_nil_2 _ | v :: vs => Forall_cons_2 _ _ _ (value_ind' v) (go vs) end) vs)
  | Object es => P_object es ((fix go es : Forall (fun kv : string * _ => P (snd kv)) es := match es with
      | [] => Forall_nil_2 _
      | kv :: es => Forall_cons_2 (fun kv : string * _ => P (snd kv)) kv es (value_ind' (snd kv)) (go es) end) es)
  end.
End value_ind.

(** The compact text of a value, scalars as they are. *)
Fixpoint value_text (v : JsonPublicValue) : list byte :=
  match v with
  | Scalar t => t
  | Array vs => [Byte.x5b] ++ join_with [Byte.x2c] (map value_text vs) ++ [Byte.x5d]
  | Object es =>
      [Byte.x7b] ++ join_with [Byte.x2c] (map (fun kv => str_text (fst kv) ++ [Byte.x3a] ++ value_text (snd kv)) es)
      ++ [Byte.x7d]
  end.

Definition entry_text (kv : string * JsonPublicValue) : list byte :=
  str_text (fst kv) ++ [Byte.x3a] ++ value_text (snd kv).

Definition starts_value (b : byte) : Prop := is_json_space b = false /\ b <> Byte.x5d /\ b <> Byte.x7d.

Lemma scalar_parser_starts b p : scalar_parser b = Some p -> starts_value b.
Proof.
  intros H. assert (Hb : forallb (fun b => match scalar_parser b with
    | Some _ => negb (is_json_space b) && negb (bool_decide (b = Byte.x5d)) && negb (bool_decide (b = Byte.x7d))
    | None => true end) [b] = true) by (clear H; destruct b; reflexivity).
  cbn [forallb] in Hb. rewrite H in Hb. bool_to_prop. done.
Qed.

Lemma value_text_head depth v : value_ok depth v -> exists b r, value_text v = b :: r /\ starts_value b.
Proof.
  destruct 1 as [depth t Ht | depth vs _ _ | depth es _ _ _]; [|by eexists _, _|by eexists _, _].
  specialize (Ht 0 0 [] eq_refl). rewrite app_nil_r in Ht. destruct t as [|b t]; [done|].
  exists b, t. split; [done|]. destruct (is_open b) eqn:Hb.
  - unfold is_open in Hb. apply orb_true_iff in Hb as [Hb|Hb]; by apply bool_decide_eq_true in Hb as ->.
  - rewrite parse_value_scalar in Ht by done.
    destruct (scalar_parser b) eqn:Hp; [by eapply scalar_parser_starts|done].
Qed.

Lemma skip_start b r : starts_value b -> skip (b :: r) = b :: r.
Proof. intros [H _]. unfold skip. cbn. by rewrite H. Qed.

Lemma skip_value depth v tail : value_ok depth v -> skip (value_text v ++ tail) = value_text v ++ tail.
Proof. intros (b & r & -> & Hb)%value_text_head. by apply skip_start. Qed.

Lemma after_element_comma close closed again tail :
  skip tail = tail -> after_element close closed again (Byte.x2c :: tail) = again tail.
Proof. intros H. unfold after_element. cbn -[skip]. change (skip (Byte.x2c :: tail)) with (Byte.x2c :: tail). cbn -[skip]. by rewrite H. Qed.

Lemma after_element_close close closed again tail :
  close = Byte.x5d \/ close = Byte.x7d ->
  after_element close closed again (close :: tail) = (tail, Ok closed).
Proof. by intros [-> | ->]. Qed.

(** [reads v]: the parser inverts [value_text] on [v]. *)
Definition reads (v : JsonPublicValue) : Prop :=
  forall depth tail fuel, value_ok depth v -> delim tail = true -> 2 * length (value_text v) + 1 <= fuel ->
  parse_value fuel depth (value_text v ++ tail) = (tail, Ok v).

Lemma read_elements depth acc vs tail fuel :
  vs <> [] -> Forall reads vs -> Forall (value_ok (S depth)) vs ->
  2 * length (join_with [Byte.x2c] (map value_text vs)) + 2 <= fuel ->
  parse_values fuel depth acc (join_with [Byte.x2c] (map value_text vs) ++ Byte.x5d :: tail)
  = (tail, Ok (Array (acc ++ vs))).
Proof.
  intros Hne Hr. revert acc fuel. induction Hr as [|v vs Hv Hvs IH]; intros acc fuel Hok Hf; [done|].
  destruct fuel as [|fuel]; [lia|]. apply Forall_cons in Hok as [Hok Hoks]. rewrite parse_values_eq.
  destruct vs as [|w vs].
  - cbn [map join_with] in *. rewrite Hv by (done || lia). by rewrite after_element_close by auto.
  - change (join_with [Byte.x2c] (map value_text (v :: w :: vs)))
      with (value_text v ++ Byte.x2c :: join_with [Byte.x2c] (map value_text (w :: vs))) in *.
    rewrite length_app in Hf. cbn [length] in Hf. rewrite <- app_assoc. cbn [app].
    rewrite Hv by (done || lia). rewrite after_element_comma.
    + rewrite IH; [by rewrite <- app_assoc|done|done|lia].
    + apply Forall_cons in Hoks as [Hw _]. destruct (value_text_head _ _ Hw) as (b & r & Hb & Hs).
      cbn [map]. destruct (map value_text vs); cbn [join_with]; rewrite Hb; by apply skip_start.
Qed.

Lemma read_key k tail :
  str_valid k = true -> parse_string_token (str_text k ++ Byte.x3a :: tail) = (Byte.x3a :: tail, Ok (str_text k)).
Proof.
  intros Hk. pose proof (written_is_read k Hk) as Hr. destruct (written_is_token k Hk) as (body & Heq & Hb).
  rewrite Heq in *. by eapply parse_string_of.
Qed.

Lemma entry_text_skip k v tail :
  str_valid k = true -> skip (entry_text (k, v) ++ tail) = entry_text (k, v) ++ tail.
Proof.
  intros Hk. destruct (written_is_token k Hk) as (body & Heq & _). unfold entry_text. cbn [fst].
  rewrite Heq. unfold quoted. cbn [app]. by apply skip_start.
Qed.

Lemma read_entries depth seen acc es tail fuel :
  es <> [] -> Forall (fun kv => reads (snd kv)) es ->
  Forall (fun kv => str_valid (fst kv) = true /\ value_ok (S depth) (snd kv)) es ->
  NoDup (map fst es) -> (forall k, k ∈ seen -> k ∉ map fst es) ->
  2 * length (join_with [Byte.x2c] (map entry_text es)) + 2 <= fuel ->
  parse_entries fuel depth seen acc (join_with [Byte.x2c] (map entry_text es) ++ Byte.x7d :: tail)
  = (tail, Ok (Object (acc ++ es))).
Proof.
  intros Hne Hr. revert seen acc fuel.
  induction Hr as [|[k v] es Hv Hvs IH]; intros seen acc fuel Hok Hnd Hseen Hf; [done|].
  destruct fuel as [|fuel]; [lia|]. apply Forall_cons in Hok as [[Hk Hok] Hoks]. cbn [map fst snd] in *.
  apply NoDup_cons in Hnd as [Hfresh Hnd].
  assert (Hstep : forall rest, 2 * length (value_text v) + 1 <= fuel -> delim rest = true ->
    parse_entries (S fuel) depth seen acc (entry_text (k, v) ++ rest) =
      after_element Byte.x7d (Object (acc ++ [(k, v)])) (parse_entries fuel depth (k :: seen) (acc ++ [(k, v)])) rest).
  { intros rest Hfv Hd. rewrite parse_entries_eq. unfold entry_text. cbn [fst snd]. rewrite <- !app_assoc. cbn [app].
    rewrite read_key, written_is_read by done.
    replace (existsb (str_eqb k) seen) with false.
    2: { symmetry. apply existsb_false_iff. intros x Hx. apply str_eqb_false. intros ->. apply (Hseen x Hx). set_solver. }
    change (skip (Byte.x3a :: value_text v ++ rest)) with (Byte.x3a :: value_text v ++ rest).
    rewrite bool_decide_eq_true_2 by done. cbn [tl]. rewrite (skip_value (S depth)) by done. by rewrite Hv. }
  assert (Hlen : length (value_text v) < length (entry_text (k, v)))
    by (unfold entry_text; rewrite !length_app; cbn; lia).
  destruct es as [|[k' v'] es].
  - cbn [map join_with] in *. rewrite Hstep by (done || lia). by rewrite after_element_close by auto.
  - change (join_with [Byte.x2c] (entry_text (k, v) :: map entry_text ((k', v') :: es)))
      with (entry_text (k, v) ++ Byte.x2c :: join_with [Byte.x2c] (map entry_text ((k', v') :: es))) in *.
    rewrite length_app in Hf. cbn [length] in Hf. rewrite <- app_assoc. cbn [app].
    rewrite Hstep by (done || lia). rewrite after_element_comma.
    + rewrite IH; [by rewrite <- app_assoc|done|done|done| |lia].
      intros x [->|Hx]%elem_of_cons; [done|]. specialize (Hseen _ Hx). set_solver.
    + apply Forall_cons in Hoks as [[Hk' _] _]. cbn [map].
      destruct (map entry_text es); cbn [join_with]; rewrite <- ?app_assoc; by apply entry_text_skip.
Qed.

(** Every well-formed value is read back, exactly, from its compact text. *)
Lemma reads_all v : reads v.
Proof.
  induction v as [t | vs IH | es IH] using value_ind'; intros depth tail fuel Hok Hd Hf;
    inversion Hok as [? ? Ht | ? ? Hdepth Hvs | ? ? Hdepth Hnd Hes]; subst; cbn [value_text] in *;
    (destruct fuel as [|fuel]; [lia|]).
  - by apply Ht.
  - cbn [app] in *. rewrite parse_value_array, container_eq, (proj2 (Nat.ltb_lt _ _)), <- app_assoc by done. cbn [app].
    cbn [length] in Hf. rewrite length_app in Hf. cbn [length] in Hf. destruct vs as [|v vs]; [done|].
    assert (Hs : exists b r, join_with [Byte.x2c] (map value_text (v :: vs)) = b :: r /\ starts_value b).
    { apply Forall_cons in Hvs as [Hv _]. destruct (value_text_head _ _ Hv) as (b & r & Hb & Hs).
      cbn [map]. destruct (map value_text vs); cbn [join_with]; rewrite Hb; by eexists _, _. }
    pose proof (read_elements depth [] (v :: vs) tail fuel ltac:(done) IH Hvs ltac:(lia)) as Hread.
    destruct Hs as (b & r & Heq & Hs). rewrite Heq in *. cbn [app]. rewrite skip_start by done. cbn [head].
    rewrite bool_decide_eq_false_2; [done|]. intros [= ->]. by destruct Hs as (_ & ? & _).
  - change (map (fun kv => str_text (fst kv) ++ [Byte.x3a] ++ value_text (snd kv)) es) with (map entry_text es) in *.
    cbn [app] in *.
    rewrite parse_value_object, container_eq, (proj2 (Nat.ltb_lt _ _)), <- app_assoc by done. cbn [app].
    cbn [length] in Hf. rewrite length_app in Hf. cbn [length] in Hf. destruct es as [|[k v] es]; [done|].
    pose proof (read_entries depth [] [] ((k, v) :: es) tail fuel ltac:(done) IH Hes Hnd
      ltac:(intros ? []%not_elem_of_nil) ltac:(lia)) as Hread.
    apply Forall_cons in Hes as [[Hk _] _]. destruct (written_is_token k Hk) as (body & Heq & _).
    assert (Hs : exists r, join_with [Byte.x2c] (map entry_text ((k, v) :: es)) = Byte.x22 :: r).
    { cbn [map]. unfold entry_text at 1. cbn [fst]. rewrite Heq. unfold quoted.
      destruct (map entry_text es); cbn [join_with app]; by eexists. }
    destruct Hs as (r & Hr). rewrite Hr in *. cbn [app]. by rewrite skip_start by done.
Qed.

(** ** The bounded writer writes the text *)

Definition fresh_writer (e : list byte) : BoundedJsonWriter := {| encoded := e; exceeded := false |}.
Abbreviation emits_json := (emits fresh_writer (fun w => exceeded w = true)).

Lemma write_all_fits e bytes :
  (blen (e ++ bytes) <= MAX_BODY_BYTES)%Z -> write_all bytes (fresh_writer e) = (fresh_writer (e ++ bytes), true).
Proof.
  intros H. destruct bytes as [|b bytes]; [by rewrite app_nil_r|]. unfold write_all. cbn [encoded fresh_writer exceeded].
  rewrite blen_app in H. pose proof (blen_nonneg e). unfold saturating_add, u64_max, MAX_BODY_BYTES in *.
  by rewrite (proj2 (Z.ltb_ge _ _)) by lia.
Qed.

Lemma write_all_exceeds e bytes :
  (blen e <= MAX_BODY_BYTES)%Z -> (MAX_BODY_BYTES < blen (e ++ bytes))%Z ->
  write_all bytes (fresh_writer e) = ({| encoded := e; exceeded := true |}, false).
Proof.
  intros He H. rewrite blen_app in H. destruct bytes as [|b bytes]; [change (blen []) with 0%Z in H; lia|].
  unfold write_all. cbn [encoded fresh_writer]. unfold saturating_add, u64_max, MAX_BODY_BYTES in *.
  by rewrite (proj2 (Z.ltb_lt _ _)) by lia.
Qed.

Lemma emits_bytes e bytes : emits_json e (write_json_bytes bytes) bytes tt.
Proof.
  split; [intros H | intros He H]; unfold write_json_bytes.
  - by rewrite write_all_fits.
  - rewrite write_all_exceeds by done. by eexists.
Qed.

Lemma write_pieces_spec pieces e :
  ((blen (e ++ concat pieces) <= MAX_BODY_BYTES)%Z ->
     write_pieces pieces (fresh_writer e) = (fresh_writer (e ++ concat pieces), true))
  /\ ((blen e <= MAX_BODY_BYTES)%Z -> (MAX_BODY_BYTES < blen (e ++ concat pieces))%Z ->
     exists w, write_pieces pieces (fresh_writer e) = (w, false) /\ exceeded w = true).
Proof.
  revert e. induction pieces as [|p pieces IH]; intros e; cbn [concat write_pieces].
  { rewrite app_nil_r. split; [done|lia]. }
  destruct (IH (e ++ p)) as [IH1 IH2]. rewrite <- app_assoc in *. split.
  - intros H. rewrite write_all_fits; [by apply IH1|]. rewrite !blen_app in *. pose proof (blen_nonneg (concat pieces)). lia.
  - intros He H. destruct (decide (blen (e ++ p) <= MAX_BODY_BYTES)%Z) as [Hp|Hp].
    + rewrite write_all_fits by done. by apply IH2.
    + rewrite write_all_exceeds by (done || lia). by eexists.
Qed.

Lemma emits_string e s : emits_json e (write_json_string s) (str_text s) tt.
Proof.
  destruct (write_pieces_spec (string_pieces s) e) as [H1 H2]. split; [intros H | intros He H]; unfold write_json_string.
  - by rewrite H1.
  - destruct (H2 He H) as (w & -> & Hw). exists w. unfold failure. by rewrite Hw.
Qed.

(** Pieces separated by commas, as the writer's [first] flag produces them. *)
Definition comma (first : bool) : list byte := if first then [] else [Byte.x2c].

Fixpoint commas (first : bool) (l : list (list byte)) : list byte :=
  match l with [] => [] | x :: rest => (comma first ++ x) ++ commas false rest end.

Definition is_first {A} (first : bool) (l : list A) : bool := match l with [] => first | _ => false end.

Lemma commas_join l : commas true l = join_with [Byte.x2c] l.
Proof.
  assert (H : forall l, commas false l = concat (map (cons Byte.x2c) l)).
  { induction l0 as [|x l0 IH]; [done|]. cbn [commas map concat]. by rewrite IH. }
  destruct l as [|x l]; [done|]. cbn [commas comma app]. rewrite H. clear H. revert x.
  induction l as [|y l IH]; intros x; cbn [map concat]; [by rewrite app_nil_r|].
  change (join_with [Byte.x2c] (x :: y :: l)) with (x ++ [Byte.x2c] ++ join_with [Byte.x2c] (y :: l)).
  by rewrite <- IH.
Qed.

Lemma commas_app first a b : commas first (a ++ b) = commas first a ++ commas (is_first first a) b.
Proof.
  revert first. induction a as [|x a IH]; intros first; [done|]. cbn [app commas is_first].
  rewrite IH. destruct a; cbn [is_first]; by rewrite app_assoc.
Qed.

Lemma emits_comma e first : emits_json e (write_comma first) (comma first) tt.
Proof. destruct first; [apply emits_ret|apply emits_bytes]. Qed.

Definition secret_entry (f : SecretField) : string * JsonPublicValue := (name f, Scalar (str_text (value f))).

Lemma emits_public wv e first es :
  Forall (fun kv => forall e, emits_json e (wv (snd kv)) (value_text (snd kv)) tt) es ->
  emits_json e (write_public wv first es) (commas first (map entry_text es)) (is_first first es).
Proof.
  intros H. revert e first. induction H as [|[k v] es Hv Hes IH]; intros e first; [apply emits_ret|].
  cbn [write_public map commas is_first]. unfold entry_text at 1. cbn [fst snd] in *. rewrite <- !app_assoc.
  eapply emits_bind; [apply emits_comma|]. eapply emits_bind; [apply emits_string|].
  eapply emits_bind; [apply emits_bytes|]. eapply emits_bind; [apply Hv|].
  replace false with (is_first false es) at 3 by (by destruct es). apply IH.
Qed.

Lemma emits_fields e first fields :
  emits_json e (write_fields first fields) (commas first (map entry_text (map secret_entry fields))) tt.
Proof.
  revert e first. induction fields as [|f fields IH]; intros e first; [apply emits_ret|].
  cbn [write_fields map commas]. unfold entry_text at 1, secret_entry at 1. cbn [fst snd value_text]. rewrite <- !app_assoc.
  eapply emits_bind; [apply emits_comma|]. eapply emits_bind; [apply emits_string|].
  eapply emits_bind; [apply emits_bytes|]. eapply emits_bind; [apply emits_string|]. apply IH.
Qed.

Lemma emits_object wv e es fields :
  Forall (fun kv => forall e, emits_json e (wv (snd kv)) (value_text (snd kv)) tt) es ->
  emits_json e (write_object_with wv es fields) (value_text (Object (es ++ map secret_entry fields))) tt.
Proof.
  intros H. cbn [value_text]. fold entry_text.
  change (map _ (es ++ map secret_entry fields)) with (map entry_text (es ++ map secret_entry fields)).
  rewrite <- commas_join, map_app, commas_app, <- app_assoc. unfold write_object_with.
  eapply emits_bind; [apply emits_bytes|]. eapply emits_bind; [by apply emits_public|].
  replace (is_first true (map entry_text es)) with (is_first true es) by (by destruct es).
  eapply emits_bind; [apply emits_fields|apply emits_bytes].
Qed.

Lemma emits_values wv e first vs :
  Forall (fun v => forall e, emits_json e (wv v) (value_text v) tt) vs ->
  emits_json e (write_values wv first vs) (commas first (map value_text vs)) tt.
Proof.
  intros H. revert e first. induction H as [|v vs Hv Hvs IH]; intros e first; [apply emits_ret|].
  cbn [write_values map commas]. rewrite <- app_assoc.
  eapply emits_bind; [apply emits_comma|]. eapply emits_bind; [apply Hv|apply IH].
Qed.

Lemma emits_value v e : emits_json e (write_json_value v) (value_text v) tt.
Proof.
  revert e. induction v as [t | vs IH | es IH] using value_ind'; intros e.
  - apply emits_bytes.
  - cbn [write_json_value value_text]. rewrite <- commas_join.
    eapply emits_bind; [apply emits_bytes|]. eapply emits_bind; [by apply emits_values|apply emits_bytes].
  - cbn [write_json_value]. pose proof (emits_object write_json_value e es [] IH) as H.
    cbn [map] in H. by rewrite app_nil_r in H.
Qed.

(** ** The encoder *)

Fixpoint all_keys (v : JsonPublicValue) : list string :=
  match v with
  | Scalar _ => []
  | Array vs => concat (map all_keys vs)
  | Object es => concat (map (fun kv => fst kv :: all_keys (snd kv)) es)
  end.

Definition public_key (fields : list SecretField) (k : string) : Prop := is_reserved_public_key k fields = false.

Lemma validated_keys fields v : validate_json_keys fields v = Ok tt -> Forall (public_key fields) (all_keys v).
Proof.
  induction v as [t | vs IH | es IH] using value_ind'; cbn [validate_json_keys all_keys].
  - constructor.
  - induction IH as [|v vs Hv Hvs IHvs]; cbn [map concat]; [constructor|].
    destruct (validate_json_keys fields v) as [[]|] eqn:E; [|done]. intros H. apply Forall_app.
    split; [by apply Hv|by apply IHvs].
  - induction IH as [|[k v] es Hv Hes IHes]; cbn [map concat fst snd]; [constructor|].
    destruct (is_reserved_public_key k fields) eqn:Hk; [done|].
    destruct (validate_json_keys fields v) as [[]|] eqn:E; [|done]. intros H. constructor; [done|]. apply Forall_app.
    split; [by apply Hv|by apply IHes].
Qed.

Definition public_document (public : string) : result JsonPublicValue RequestBodyError :=
  if is_empty public then Ok (Object []) else parse_document (s2b public).

Lemma validate_keys_fuel fields v : validate_json_keys fields v <> Err OutOfFuel.
Proof.
  induction v as [t | vs IH | es IH] using value_ind'; cbn [validate_json_keys]; [done| |].
  - induction IH as [|v vs Hv Hvs IHvs]; [done|].
    destruct (validate_json_keys fields v); [done|congruence].
  - induction IH as [|[k v] es Hv Hes IHes]; [done|]. cbn [snd] in Hv.
    destruct (is_reserved_public_key k fields); [done|]. destruct (validate_json_keys fields v); [done|congruence].
Qed.

Lemma validate_fields_fuel fields : validate_fields fields <> Err OutOfFuel.
Proof.
  unfold validate_fields. case_bool_decide; [done|]. generalize (@nil SecretField) as previous.
  induction fields as [|f fields IH]; intros previous; [done|]. cbn [validate_each].
  assert (Hc : check_field f <> Err OutOfFuel) by (unfold check_field; by repeat case_match).
  destruct (check_field f) as [[]|]; [|congruence]. destruct (existsb _ previous); [done|].
  apply IH. cbn in *. lia.
Qed.

(** [encode_json_object] is: parse, check the keys, print everything, then
    compare with the bound. *)
Lemma encode_json_exact public fields :
  encode_json_object public fields =
    let? v := public_document public in
    match v with
    | Object es =>
        let? _ := validate_json_keys fields v in
        let text := value_text (Object (es ++ map secret_entry fields)) in
        if (blen text <=? MAX_BODY_BYTES)%Z
        then if utf8_valid text then Ok (b2s text) else Err InvalidJson
        else Err OutputTooLarge
    | _ => Err JsonTopLevelNotObject
    end.
Proof.
  unfold encode_json_object. fold (public_document public). destruct (public_document public) as [[| |es]|]; try done.
  destruct (validate_json_keys fields (Object es)); [|done]. cbv zeta.
  assert (Hm : emits_json [] (write_json_object es fields) (value_text (Object (es ++ map secret_entry fields))) tt).
  { apply emits_object, Forall_true. intros kv e. apply emits_value. }
  change {| encoded := []; exceeded := false |} with (fresh_writer []).
  destruct (emits_run _ _ _ _ _ Hm) as [[Hfit ->] | [Hbig (w & -> & Hw)]].
  - by rewrite (proj2 (Z.leb_le _ _)).
  - by rewrite Hw, (proj2 (Z.leb_gt _ _)).
Qed.

Lemma public_document_ok public v : public_document public = Ok v -> value_ok 0 v.
Proof.
  unfold public_document. destruct (is_empty public).
  { intros [= <-]. apply ok_object; [unfold MAX_JSON_DEPTH; lia|apply NoDup_nil_2|constructor]. }
  unfold parse_document. set (m := fs_bind _ _). destruct (m (s2b public)) as [r a] eqn:Hm. cbn [snd]. intros ->.
  apply fs_bind_done in Hm as (s1 & [] & _ & Hm). apply fs_bind_done in Hm as (s2 & w & Hw & Hm).
  apply fs_bind_done in Hm as (s3 & [] & _ & Hm). apply parse_sound in Hw as [Hw _].
  injection Hm as -> Hm. destruct r; [|done]. by injection Hm as ->.
Qed.

Lemma parse_document_text v : value_ok 0 v -> parse_document (value_text v) = Ok v.
Proof.
  intros Hv. unfold parse_document. unfold fs_bind at 1, skip_whitespace at 1. fold (skip (value_text v)).
  pose proof (skip_value 0 v [] Hv) as Hs. rewrite app_nil_r in Hs. rewrite Hs. cbv beta iota.
  pose proof (reads_all v 0 [] (parser_fuel (value_text v)) Hv eq_refl ltac:(unfold parser_fuel; lia)) as Hr.
  rewrite app_nil_r in Hr. by rewrite (fs_bind_Ok _ _ _ _ _ Hr).
Qed.

Lemma lower_names_distinct fields : NoDup (map lower_name fields) -> NoDup (map name fields).
Proof.
  unfold lower_name. intros H. apply (NoDup_fmap_1 to_ascii_lowercase).
  change (NoDup (map to_ascii_lowercase (map name fields))). by rewrite map_map.
Qed.

(** The body is a document of the same shape as the public one. *)
Lemma joined_object_ok es fields :
  value_ok 0 (Object es) -> Forall (public_key fields) (all_keys (Object es)) ->
  Forall field_valid fields -> NoDup (map lower_name fields) ->
  value_ok 0 (Object (es ++ map secret_entry fields)).
Proof.
  intros Hes Hkeys Hf Hnd. inversion Hes as [| |? ? Hd Hnd' Hall]; subst. apply ok_object; [done| |].
  - rewrite map_app, map_map. apply NoDup_app. split; [done|]. split; [|by apply lower_names_distinct].
    intros k Hk Hk'. apply list_elem_of_fmap in Hk' as (f & -> & Hf').
    apply list_elem_of_fmap in Hk as ([k v] & Hk & Hin). cbn in Hk. subst k.
    rewrite Forall_forall in Hkeys. assert (Hr : public_key fields (name f)).
    { apply Hkeys. cbn [all_keys]. apply list_elem_of_In, in_concat. exists (name f :: all_keys v). split; [|by left].
      apply (in_map (fun kv => fst kv :: all_keys (snd kv)) es (name f, v)), list_elem_of_In, Hin. }
    by apply (reserved_names _ _ f) in Hr.
  - apply Forall_app. split; [done|]. apply Forall_map. eapply Forall_impl; [exact Hf|].
    intros f [Hn Hv]. split; [done|]. constructor. by apply string_scalar.
Qed.

(** C18. A JSON body the host builds means what it should.  The public body is
    an object within the nesting limit; read by the same parser, the encoded
    body is the public entries, in order and with every scalar token unchanged
    byte for byte, followed by the secret fields, each a string that reads as
    the secret; no key at any nesting level of the public entries is one the
    host reserves, so none stands for a secret; the body is within the size
    bound.  The code never runs out of the model's fuel on the way. *)
Theorem injected_json_reads_back public fields :
  Forall field_valid fields ->
  encode_injected_body public JsonObject fields <> Err OutOfFuel
  /\ forall body, encode_injected_body public JsonObject fields = Ok body ->
     exists entries,
       public_document public = Ok (Object entries)
       /\ parse_document (s2b body) = Ok (Object (entries ++ map secret_entry fields))
       /\ Forall (fun f => read_string (b2s (str_text (value f))) = Some (value f)) fields
       /\ Forall (public_key fields) (all_keys (Object entries))
       /\ (slen body <= MAX_BODY_BYTES)%Z.
Proof.
  intros Hfv. unfold encode_injected_body. destruct (_ <? _)%Z; [done|].
  assert (Hvf : validate_fields fields <> Err OutOfFuel) by apply validate_fields_fuel.
  destruct (validate_fields fields) as [[]|e] eqn:Hv; [|split; [congruence|done]]. clear Hvf. rewrite encode_json_exact.
  assert (Hdf : public_document public <> Err OutOfFuel)
    by (unfold public_document; destruct (is_empty public); [done|apply parse_document_fuel]).
  destruct (public_document public) as [v|e] eqn:Hd; [|split; [congruence|done]].
  destruct v as [| |es]; [done..|]. apply public_document_ok in Hd as Hok.
  destruct (validate_json_keys fields (Object es)) as [[]|e] eqn:Hk; [|split; [|done]].
  2: { intros [= ->]. by apply (validate_keys_fuel fields (Object es)). }
  cbv zeta. destruct (_ <=? _)%Z eqn:Hle; [|done]. destruct (utf8_valid _); [|done]. split; [done|].
  intros body Hb. assert (body = b2s (value_text (Object (es ++ map secret_entry fields)))) as -> by congruence.
  apply validate_fields_Ok in Hv as [_ Hnd]. apply validated_keys in Hk.
  exists es. split; [done|]. rewrite s2b_b2s. split; [by apply parse_document_text, joined_object_ok|].
  split; [eapply Forall_impl; [exact Hfv|]; intros f [_ Hf]; by apply written_is_read|].
  split; [done|]. unfold slen. rewrite s2b_b2s. by apply Z.leb_le.
Qed.

End laws.

(** ** A string codec that meets the laws, and examples *)
Module RequestExample.

Definition unescaped (c : byte) : option byte :=
  match c with
  | Byte.x22 | Byte.x5c | Byte.x2f => Some c
  | Byte.x62 => Some Byte.x08 | Byte.x66 => Some Byte.x0c | Byte.x6e => Some Byte.x0a
  | Byte.x72 => Some Byte.x0d | Byte.x74 => Some Byte.x09
  | _ => None
  end.

(** Escapes of control characters are all the writer below produces. *)
Fixpoint unescape (bs : list byte) : option (list byte) :=
  match bs with
  | [] => Some []
  | Byte.x5c :: Byte.x75 :: Byte.x30 :: Byte.x30 :: h :: l :: rest =>
      match hex_value h, hex_value l with
      | Some high, Some low => cons (byte_of (high * 16 + low)) <$> unescape rest
      | _, _ => None
      end
  | Byte.x5c :: c :: rest => match unescaped c with Some b => cons b <$> unescape rest | None => None end
  | b :: rest => cons b <$> unescape rest
  end.

Definition strip_quotes (bs : list byte) : list byte := take (length bs - 2) (drop 1 bs).

Definition test_read (t : string) : option string :=
  let body := strip_quotes (s2b t) in
  if bool_decide (s2b t = quoted body) && string_body body then
    decoded ← unescape body; if utf8_valid decoded then Some (b2s decoded) else None
  else None.

#[local] Instance test_strings : JsonStrings := {|
  read_string := test_read;
  string_pieces s := [[Byte.x22]; s2b (CompactText.escape s); [Byte.x22]]
|}.

Lemma escape_body b r : string_body (s2b (CompactText.escape_byte b) ++ r) = string_body r.
Proof. destruct b; reflexivity. Qed.

Lemma unescape_escape b r : unescape (s2b (CompactText.escape_byte b) ++ r) = (cons b <$> unescape r).
Proof. destruct b; reflexivity. Qed.

Lemma escaped_bytes bs : string_body (concat (map (fun b => s2b (CompactText.escape_byte b)) bs)) = true
  /\ unescape (concat (map (fun b => s2b (CompactText.escape_byte b)) bs)) = Some bs.
Proof.
  induction bs as [|b bs [IH1 IH2]]; [done|]. cbn [map concat]. by rewrite escape_body, unescape_escape, IH2.
Qed.

Lemma strip_quoted body : strip_quotes (quoted body) = body.
Proof.
  unfold strip_quotes, quoted. cbn [length drop]. rewrite length_app. cbn [length].
  replace (S (length body + 1) - 2) with (length body) by lia. by rewrite drop_0, take_app_length.
Qed.

#[local] Instance test_string_laws : JsonStringLaws.
Proof.
  assert (Htext : forall s, str_text s = quoted (s2b (CompactText.escape s))).
  { intros s. unfold str_text. cbn [concat string_pieces test_strings app]. done. }
  split.
  - intros s _. rewrite Htext. eexists. split; [done|]. unfold CompactText.escape.
    rewrite CompactText.s2b_escape. apply escaped_bytes.
  - intros s Hs. rewrite Htext. unfold read_string, test_strings, test_read. rewrite s2b_b2s, strip_quoted.
    rewrite bool_decide_eq_true_2 by done. unfold CompactText.escape. rewrite CompactText.s2b_escape.
    destruct (escaped_bytes (s2b s)) as [-> ->]. cbn. unfold str_valid in Hs. by rewrite Hs, b2s_s2b.
  - intros t s. unfold read_string, test_strings, test_read. destruct (_ && _); [|done].
    intros H. apply bind_Some in H as (d & _ & H). destruct (utf8_valid d) eqn:Hd; [|done].
    injection H as <-. unfold str_valid. by rewrite s2b_b2s.
Qed.

Definition secrets : list SecretField := [{| name := "client_assertion"; value := "s%1&=" |}].

Lemma secrets_valid : Forall field_valid secrets.
Proof. by repeat constructor. Qed.

Definition form_body : string := "grant=x%20y&client_assertion=s%251%26%3D".

Lemma injected_form_reads_back_witness :
  encode_injected_body "grant=x+y" Form secrets = Ok form_body
  /\ exists pairs,
    read_form "grant=x+y" = Ok pairs
    /\ read_form form_body = Ok (pairs ++ map field_pair secrets)
    /\ NoDup (map (fun kv => to_ascii_lowercase (fst kv)) (pairs ++ map field_pair secrets))
    /\ Forall (fun kv => is_reserved_public_key (fst kv) secrets = false) pairs
    /\ (slen form_body <= MAX_BODY_BYTES)%Z.
Proof.
  split; [vm_compute; reflexivity|].
  apply injected_form_reads_back; [exact secrets_valid | vm_compute; reflexivity].
Defined.

(** [{"n": [1.50, {"ok": true}]}]: the number keeps its spelling. *)
Definition json_public : string :=
  "{" +:+ dquote +:+ "n" +:+ dquote +:+ ": [1.50, {" +:+ dquote +:+ "ok" +:+ dquote +:+ ": true}]}".

Definition json_body : string :=
  "{" +:+ dquote +:+ "n" +:+ dquote +:+ ":[1.50,{" +:+ dquote +:+ "ok" +:+ dquote +:+ ":true}],"
  +:+ dquote +:+ "client_assertion" +:+ dquote +:+ ":" +:+ dquote +:+ "s%1&=" +:+ dquote +:+ "}".

Lemma injected_json_reads_back_witness :
  encode_injected_body json_public JsonObject secrets = Ok json_body
  /\ exists entries,
       public_document json_public = Ok (Object entries)
       /\ parse_document (s2b json_body) = Ok (Object (entries ++ map secret_entry secrets))
       /\ Forall (fun f => read_string (b2s (str_text (value f))) = Some (value f)) secrets
       /\ Forall (public_key secrets) (all_keys (Object entries))
       /\ (slen json_body <= MAX_BODY_BYTES)%Z.
Proof.
  split; [vm_compute; reflexivity|].
  apply (injected_json_reads_back json_public secrets secrets_valid). vm_compute. reflexivity.
Defined.

(** Each way a public body could stand in for a secret is refused. *)
Example shadowing_refused :
  encode_injected_body "a=1&Client_Assertion=x" Form secrets = Err ReservedPublicKey
  /\ encode_injected_body "a=1&re%66resh_token=x" Form secrets = Err ReservedPublicKey
  /\ encode_injected_body "a=1&A=2" Form secrets = Err DuplicatePublicKey
  /\ encode_injected_body "a=%zz" Form secrets = Err InvalidFormEncoding
  /\ encode_injected_body ("[" +:+ "1]") JsonObject secrets = Err JsonTopLevelNotObject
  /\ encode_injected_body ("{" +:+ dquote +:+ "x" +:+ dquote +:+ ":{" +:+ dquote +:+ "Code" +:+ dquote +:+ ":0}}")
       JsonObject secrets = Err ReservedPublicKey.
Proof. by vm_compute. Qed.

End RequestExample.
