(* ===== verification/Rely.v ===== *)
(** A small rely/guarantee logic for the fallible-state computations.

    A component whose shared state is changed by other threads between its
    steps names an invariant of the state and the changes a step may make
    ([Steps]).  A triple says that a computation keeps the invariant, makes
    only such changes, and leaves its postcondition when it succeeds; a fact
    that such changes preserve ([stable]) may be carried across it. *)
From stdpp Require Import base list.
From S2P Require Import Prelude.

Class Steps (S : Type) := {
  sound : S -> Prop;
  goes : S -> S -> Prop;
  goes_refl s : goes s s;
  goes_trans s1 s2 s3 : goes s1 s2 -> goes s2 s3 -> goes s1 s3
}.

Section rely.
Context {S E : Type} `{ST : Steps S}.

Definition stable (P : S -> Prop) : Prop := forall s s', goes s s' -> P s -> P s'.

Definition triple {A} (P : S -> Prop) (m : FS S E A) (Q : A -> S -> Prop) : Prop := forall s, sound s -> P s ->
  sound (fst (m s)) /\ goes s (fst (m s)) /\ forall a, snd (m s) = Ok a -> Q a (fst (m s)).

Definition always (s : S) : Prop := True.

(** ** Facts that last *)

Lemma always_stable : stable always.
Proof. done. Qed.
Lemma pure_stable (X : Prop) : stable (fun _ => X).
Proof. intros ??. done. Qed.
Lemma and_stable P Q : stable P -> stable Q -> stable (fun s => P s /\ Q s).
Proof. intros HP HQ s s' L [? ?]. eauto. Qed.
Lemma goes_stable s0 : stable (goes s0).
Proof. intros s s' ? ?. by eapply goes_trans. Qed.

(** ** Rules *)

Lemma triple_bind {A B} (m : FS S E A) (k : A -> FS S E B) P Q R :
  triple P m Q -> (forall a, triple (Q a) (k a) R) -> triple P (fs_bind m k) R.
Proof.
  intros Hm Hk s Hw HP. destruct (Hm s Hw HP) as (W & L & O). unfold fs_bind.
  destruct (m s) as [s1 [a|e]]; simpl in *; [|done].
  destruct (Hk a s1 W (O a eq_refl)) as (W' & L' & O'). eauto using goes_trans.
Qed.

Lemma triple_conseq {A} (P P' : S -> Prop) (m : FS S E A) (Q Q' : A -> S -> Prop) :
  triple P' m Q' -> (forall s, sound s -> P s -> P' s) -> (forall a s, sound s -> Q' a s -> Q a s) -> triple P m Q.
Proof. intros Hm HP HQ s W X. destruct (Hm s W (HP s W X)) as (W' & L & O). eauto. Qed.

Lemma triple_frame {A} (P F P' : S -> Prop) (m : FS S E A) (Q Q' : A -> S -> Prop) :
  triple P m Q -> stable F -> (forall s, sound s -> P' s -> P s /\ F s) ->
  (forall a s, sound s -> Q a s -> F s -> Q' a s) -> triple P' m Q'.
Proof.
  intros Hm HF HP HQ s W X. destruct (HP s W X) as [X1 X2]. destruct (Hm s W X1) as (W' & L & O). eauto 6.
Qed.

Lemma triple_pure {A} (P : S -> Prop) (r : result A E) : triple P (fun s => (s, r)) (fun _ => P).
Proof. intros s W X. simpl. auto using goes_refl. Qed.
Lemma triple_ret {A} (Q : A -> S -> Prop) a : triple (Q a) (fs_ret a) Q.
Proof. intros s W X. split; [done|]. split; [apply goes_refl|]. by intros ? [= <-]. Qed.
Lemma triple_fail {A} P e (Q : A -> S -> Prop) : triple P (fs_fail e) Q.
Proof. intros s W X. split; [done|]. split; [apply goes_refl|done]. Qed.

(** *** Computations that only carry a fact across *)

Definition keeps {A} (P : S -> Prop) (m : FS S E A) : Prop := triple P m (fun _ => P).

Lemma triple_bind_keep {A B} (P : S -> Prop) (m : FS S E A) (k : A -> FS S E B) R :
  keeps P m -> (forall a, triple P (k a) R) -> triple P (fs_bind m k) R.
Proof. intros Hm Hk. by eapply triple_bind. Qed.
Lemma keeps_bind {A B} P (m : FS S E A) (k : A -> FS S E B) : keeps P m -> (forall a, keeps P (k a)) -> keeps P (fs_bind m k).
Proof. apply triple_bind_keep. Qed.
Lemma keeps_ret {A} P (a : A) : keeps P (fs_ret a).
Proof. apply (triple_ret (fun _ => P)). Qed.
Lemma keeps_fail {A} P e : keeps P (fs_fail (A := A) e).
Proof. apply triple_fail. Qed.
Lemma keeps_guard P b e : keeps P (fs_guard b e).
Proof. destruct b; [apply keeps_ret|apply keeps_fail]. Qed.
Lemma triple_guard_true P (b : bool) e : triple P (fs_guard b e) (fun _ s => P s /\ b = true).
Proof.
  destruct b; [|apply triple_fail]. intros s W X. split; [done|]. split; [apply goes_refl|]. by intros ? [= <-].
Qed.
Lemma keeps_lift {A} P (r : result A E) : keeps P (fs_lift r).
Proof. apply triple_pure. Qed.

(** A specification whose precondition a stable fact implies. *)
Lemma keeps_of {A} (P R : S -> Prop) (m : FS S E A) Q :
  triple R m Q -> stable P -> (forall s, sound s -> P s -> R s) -> keeps P m.
Proof. intros Hm HP HR. eapply triple_frame; [apply Hm|apply HP|eauto|done]. Qed.

Lemma keeps_run {A} P (m : FS S E A) s : keeps P m -> sound s -> P s -> sound (fst (m s)) /\ goes s (fst (m s)).
Proof. intros Hm W X. by destruct (Hm s W X) as (? & ? & _). Qed.
Lemma keeps_done {A} P (m : FS S E A) s s' r : keeps P m -> stable P -> sound s -> P s -> m s = (s', r) ->
  sound s' /\ goes s s' /\ P s'.
Proof. intros Hm HP W X Em. destruct (Hm s W X) as (? & L & _). rewrite Em in *. eauto. Qed.

Lemma keeps_match {A B} P (m : FS S E A) (k : result A E -> FS S E B) :
  stable P -> keeps P m -> (forall r, keeps P (k r)) -> keeps P (fs_match m k).
Proof.
  intros HP Hm Hk s W X. unfold fs_match. destruct (keeps_run P m s Hm W X) as [W1 L1].
  destruct (m s) as [s1 r]. simpl in *. destruct (Hk r s1 W1 (HP _ _ L1 X)) as (? & ? & ?). eauto using goes_trans.
Qed.

End rely.

Create HintDb keeps discriminated.
#[export] Hint Resolve keeps_ret keeps_fail keeps_guard keeps_lift always_stable : keeps.

Ltac keeping := repeat first
  [ solve [auto with keeps]
  | match goal with
    | |- keeps _ (fs_bind _ _) => apply keeps_bind; [|intros]
    | |- keeps _ (if ?b then _ else _) => destruct b
    | |- keeps _ (match ?x with _ => _ end) => destruct x
    end ].
