(* ===== verification/AuthStore.v ===== *)
(** The credential store: [auth/store.rs] and the stored schema of
    [auth/config.rs].

    Secret slots and issued handles are shared cells of the host (an [Arc] and
    an atomic state each); here they are entries of a heap, and a reference to
    one is its number.  Every access to a cell's state and every acquisition of
    a lock is a step of its own, before which other threads and processes may
    run ([threads]).  [file_locked] says whether this call holds the lock file.
    The clock, the outcome of each file-system call and of each mutation guard
    are streams read in order.  Each rename of the credential file this call
    makes is recorded with the file it replaced. *)
From stdpp Require Import base list strings numbers pretty gmap.
From S2P Require Import Prelude Utf8 Json Credentials.

Module AuthStore.

(** ** Data *)

Inductive SlotState := SLOT_LIVE | SLOT_USED | SLOT_EXPIRED.
Inductive HandleState := HANDLE_LIVE | HANDLE_USED | HANDLE_EXPIRED | HANDLE_REVOKED.
Inductive SecretSlotKind := Access | Refresh.

#[export] Instance slot_state_eq_dec : EqDecision SlotState.
Proof. solve_decision. Defined.
#[export] Instance handle_state_eq_dec : EqDecision HandleState.
Proof. solve_decision. Defined.
#[export] Instance slot_kind_eq_dec : EqDecision SecretSlotKind.
Proof. solve_decision. Defined.

Definition kind_str (k : SecretSlotKind) : string := match k with Access => "access" | Refresh => "refresh" end.

(** Times are in nanoseconds. *)
Definition seconds (n : Z) : Z := (n * 1000000000)%Z.
Definition SECRET_SLOT_TTL : Z := seconds 300.
Definition ACCESS_HANDLE_TTL : Z := seconds 300.
Definition REFRESH_HANDLE_TTL : Z := seconds 60.
Definition MAX_SECRET_SLOT_BYTES : Z := 65536.
Definition MAX_AUTH_STORE_BYTES : Z := 262144.

Record SecretSlot := {
  ss_kind : SecretSlotKind; ss_credential_id : string; ss_expected_generation : Z;
  ss_policy_generation : Z; ss_run_id : string; ss_bytes : list byte; ss_state : SlotState; ss_expires_at : Z
}.

Record IssuedHandle := {
  ih_kind : SecretSlotKind; ih_credential_id : string; ih_generation : Z; ih_policy_generation : Z;
  ih_run_id : string; ih_expires_at : Z; ih_state : HandleState; ih_slot : nat
}.

Record IssuedHandleSet := { hs_access : list nat; hs_refresh : option nat }.
Definition empty_handle_set : IssuedHandleSet := {| hs_access := []; hs_refresh := None |}.

Record CredentialConfig := {
  cc_provider : string; cc_kind : string; cc_source : string; cc_token_type : string; cc_expires_at_ms : Z;
  cc_scopes : list string; cc_account_id : option string; cc_generation : Z; cc_status : string;
  cc_last_refresh_at_ms : option Z; cc_has_refresh_token : bool
}.

Record StoredCredentialConfig := {
  sc_provider : string; sc_kind : string; sc_source : string; sc_token_type : string;
  sc_access_token : string; sc_refresh_token : option string; sc_expires_at_ms : Z; sc_scopes : list string;
  sc_account_id : option string; sc_generation : Z; sc_status : string; sc_last_refresh_at_ms : option Z
}.

Record StoredAuthConfig := { ac_version : Z; ac_credentials : gmap string StoredCredentialConfig }.
Definition stored_empty : StoredAuthConfig := {| ac_version := 1; ac_credentials := ∅ |}.

Record AuthMetadata := {
  md_credential_id : string; md_provider : string; md_kind : string; md_source : string; md_token_type : string;
  md_expires_at_ms : Z; md_scopes : list string; md_account_id : option string; md_generation : Z;
  md_status : string; md_last_refresh_at_ms : option Z; md_has_refresh_token : bool
}.

Definition from_stored (credential_id : string) (c : StoredCredentialConfig) : AuthMetadata := {|
  md_credential_id := credential_id; md_provider := sc_provider c; md_kind := sc_kind c; md_source := sc_source c;
  md_token_type := sc_token_type c; md_expires_at_ms := sc_expires_at_ms c; md_scopes := sc_scopes c;
  md_account_id := sc_account_id c; md_generation := sc_generation c; md_status := sc_status c;
  md_last_refresh_at_ms := sc_last_refresh_at_ms c; md_has_refresh_token := bool_decide (is_Some (sc_refresh_token c)) |}.

Inductive AuthStoreError :=
| MutationInactive
| FileSystem (operation message : string)   (* [Io], [Lock] and the path errors *)
| CorruptFile (reason : string)
| FileTooLarge (max_bytes : Z)
| CredentialNotFound (credential_id : string)
| GenerationConflict (credential_id : string) (expected actual : Z)
| InvalidGeneration (credential_id : string) (expected supplied : Z)
| GenerationOverflow (credential_id : string)
| InvalidCredential (credential_id reason : string)
| InvalidMetadata (credential_id field reason : string)
| SecretSlotInvalid (credential_id kind reason : string)
| SecretSlotProvenance (credential_id kind : string)
| SecretSlotReplayed (credential_id kind : string)
| SecretSlotExpired (credential_id kind : string)
| HandleExpired (credential_id kind : string)
| HandleProvenance (credential_id kind : string)
| HandleReplayed (credential_id kind : string)
| HandleRevoked (credential_id kind : string)
| Serialization (message : string).

(** ** The stored schema *)

Definition visible (value : string) : bool :=
  negb (is_empty value) && negb (existsb (fun c => is_whitespace c || is_control c) (chars value)).

Definition invalid_value (field : string) : string := "invalid auth field " +:+ field.

(** [validate_visible]; the error is its text. *)
Definition validate_visible (value field : string) : result unit string :=
  if visible value then Ok tt else Err (invalid_value field).

Fixpoint validate_scopes (path : string) (index : nat) (scopes : list string) : result unit string :=
  match scopes with
  | [] => Ok tt
  | scope :: rest =>
      let? _ := validate_visible scope (path +:+ ".scopes[" +:+ pretty index +:+ "]") in
      validate_scopes path (S index) rest
  end.

(** [StoredCredentialConfig::validate]. *)
Definition validate_credential (credential_id : string) (c : StoredCredentialConfig) : result unit string :=
  let path := "credentials." +:+ credential_id in
  let? _ := validate_visible (sc_provider c) (path +:+ ".provider") in
  let? _ := validate_visible (sc_kind c) (path +:+ ".kind") in
  let? _ := validate_visible (sc_source c) (path +:+ ".source") in
  let? _ := validate_visible (sc_token_type c) (path +:+ ".token_type") in
  if is_empty (sc_access_token c) then Err (invalid_value (path +:+ ".access_token")) else
  let? _ := validate_visible (sc_status c) (path +:+ ".status") in
  let? _ := validate_scopes path 0 (sc_scopes c) in
  match sc_account_id c with
  | Some account_id => validate_visible account_id (path +:+ ".account_id")
  | None => Ok tt
  end.

(** [StoredAuthConfig::validate], in the order of the keys. *)
Definition validate_stored (d : StoredAuthConfig) : result unit string :=
  if negb (ac_version d =? 1)%Z then Err "unsupported auth version" else
  try_fold (fun _ '(credential_id, c) =>
    let? _ := validate_visible credential_id ("credentials." +:+ credential_id) in
    validate_credential credential_id c) tt
    (sort_by_key (fun a b => negb (str_ltb b a)) fst (map_to_list (ac_credentials d))).

Definition public_projection (c : StoredCredentialConfig) : CredentialConfig := {|
  cc_provider := sc_provider c; cc_kind := sc_kind c; cc_source := sc_source c; cc_token_type := sc_token_type c;
  cc_expires_at_ms := sc_expires_at_ms c; cc_scopes := sc_scopes c; cc_account_id := sc_account_id c;
  cc_generation := sc_generation c; cc_status := sc_status c; cc_last_refresh_at_ms := sc_last_refresh_at_ms c;
  cc_has_refresh_token := bool_decide (is_Some (sc_refresh_token c)) |}.

(** ** The host *)

Record Store := {
  slots : gmap nat SecretSlot; handles : gmap nat IssuedHandle;
  handle_registry : gmap string IssuedHandleSet; file : option (list byte); file_locked : bool;
  alive : bool; next : nat; ticks : nat; ios : nat; guards : nat; yields : nat;
  renames : list (option (list byte) * list byte)
}.

Definition M (A : Type) : Type := FS Store AuthStoreError A.

(** [stored_of_bytes] is [preflight_yaml], [serde_yaml] and the derived schema;
    [bytes_of_stored] is [serde_yaml::to_string]. *)
Class AuthHost := {
  clock : nat -> Z;
  wall : nat -> Z;
  io_result : nat -> result unit AuthStoreError;
  lock_waits : nat -> nat;
  threads : nat -> Store -> Store;
  stored_of_bytes : list byte -> result StoredAuthConfig string;
  bytes_of_stored : StoredAuthConfig -> option (list byte)
}.

Section store.
Context `{H : AuthHost}.

(** *** Steps *)

Definition with_slots f (s : Store) : Store := {|
  slots := f (slots s); handles := handles s; handle_registry := handle_registry s; file := file s;
  file_locked := file_locked s; alive := alive s;
  next := next s; ticks := ticks s; ios := ios s; guards := guards s; yields := yields s; renames := renames s |}.
Definition with_handles f (s : Store) : Store := {|
  slots := slots s; handles := f (handles s); handle_registry := handle_registry s; file := file s;
  file_locked := file_locked s; alive := alive s;
  next := next s; ticks := ticks s; ios := ios s; guards := guards s; yields := yields s; renames := renames s |}.
Definition with_registry f (s : Store) : Store := {|
  slots := slots s; handles := handles s; handle_registry := f (handle_registry s); file := file s;
  file_locked := file_locked s; alive := alive s;
  next := next s; ticks := ticks s; ios := ios s; guards := guards s; yields := yields s; renames := renames s |}.
Definition with_next f (s : Store) : Store := {|
  slots := slots s; handles := handles s; handle_registry := handle_registry s; file := file s;
  file_locked := file_locked s; alive := alive s;
  next := f (next s); ticks := ticks s; ios := ios s; guards := guards s; yields := yields s; renames := renames s |}.
Definition counted (t i g y : nat) (s : Store) : Store := {|
  slots := slots s; handles := handles s; handle_registry := handle_registry s; file := file s;
  file_locked := file_locked s; alive := alive s;
  next := next s; ticks := t + ticks s; ios := i + ios s; guards := g + guards s; yields := y + yields s;
  renames := renames s |}.
Definition renamed (bytes : list byte) (s : Store) : Store := {|
  slots := slots s; handles := handles s; handle_registry := handle_registry s; file := Some bytes;
  file_locked := file_locked s; alive := alive s;
  next := next s; ticks := ticks s; ios := ios s; guards := guards s; yields := yields s;
  renames := renames s ++ [(file s, bytes)] |}.

Definition with_file_locked b (s : Store) : Store := {|
  slots := slots s; handles := handles s; handle_registry := handle_registry s; file := file s;
  file_locked := b; alive := alive s; next := next s; ticks := ticks s; ios := ios s; guards := guards s;
  yields := yields s; renames := renames s |}.

(** [Instant::now()]. *)
Definition now : M Z := fun s => (counted 1 0 0 0 s, Ok (clock (ticks s))).

(** One file-system call. *)
Definition io : M unit := fun s => (counted 0 1 0 0 s, io_result (ios s)).

Definition MutationGuard : Type := option (nat -> result unit AuthStoreError).

Definition check_mutation_guard (guard : MutationGuard) : M unit := fun s =>
  match guard with
  | Some check => (counted 0 0 1 0 s, check (guards s))
  | None => (s, Ok tt)
  end.

(** Taking a lock: other threads and processes have run before. *)
Definition acquire : M unit := fun s => (threads (yields s) (counted 0 0 0 1 s), Ok tt).

(** One access to a shared cell. *)
Definition atomic {A} (f : Store -> Store * A) : M A := fun s =>
  let '(s, a) := f (threads (yields s) (counted 0 0 0 1 s)) in (s, Ok a).

Definition null_slot : SecretSlot := {|
  ss_kind := Access; ss_credential_id := EmptyString; ss_expected_generation := 0; ss_policy_generation := 0;
  ss_run_id := EmptyString; ss_bytes := []; ss_state := SLOT_USED; ss_expires_at := 0 |}.
Definition null_handle : IssuedHandle := {|
  ih_kind := Access; ih_credential_id := EmptyString; ih_generation := 0; ih_policy_generation := 0;
  ih_run_id := EmptyString; ih_expires_at := 0; ih_state := HANDLE_REVOKED; ih_slot := 0 |}.

Definition slot_of (s : Store) (id : nat) : SecretSlot := default null_slot (slots s !! id).
Definition handle_of (s : Store) (id : nat) : IssuedHandle := default null_handle (handles s !! id).

Definition get_slot (id : nat) : M SecretSlot := fun s => (s, Ok (slot_of s id)).
Definition get_handle (id : nat) : M IssuedHandle := fun s => (s, Ok (handle_of s id)).

Definition set_slot_state (st : SlotState) (x : SecretSlot) : SecretSlot := {|
  ss_kind := ss_kind x; ss_credential_id := ss_credential_id x; ss_expected_generation := ss_expected_generation x;
  ss_policy_generation := ss_policy_generation x; ss_run_id := ss_run_id x; ss_bytes := ss_bytes x;
  ss_state := st; ss_expires_at := ss_expires_at x |}.
Definition clear_slot_bytes (x : SecretSlot) : SecretSlot := {|
  ss_kind := ss_kind x; ss_credential_id := ss_credential_id x; ss_expected_generation := ss_expected_generation x;
  ss_policy_generation := ss_policy_generation x; ss_run_id := ss_run_id x; ss_bytes := [];
  ss_state := ss_state x; ss_expires_at := ss_expires_at x |}.
Definition set_handle_state (st : HandleState) (x : IssuedHandle) : IssuedHandle := {|
  ih_kind := ih_kind x; ih_credential_id := ih_credential_id x; ih_generation := ih_generation x;
  ih_policy_generation := ih_policy_generation x; ih_run_id := ih_run_id x; ih_expires_at := ih_expires_at x;
  ih_state := st; ih_slot := ih_slot x |}.

Definition slot_load (id : nat) : M SlotState := atomic (fun s => (s, ss_state (slot_of s id))).
Definition slot_cas (id : nat) (from to : SlotState) : M bool := atomic (fun s =>
  if decide (ss_state (slot_of s id) = from) then (with_slots (alter (set_slot_state to) id) s, true) else (s, false)).
Definition slot_swap (id : nat) (to : SlotState) : M SlotState := atomic (fun s =>
  (with_slots (alter (set_slot_state to) id) s, ss_state (slot_of s id))).
Definition slot_bytes (id : nat) : M (list byte) := atomic (fun s => (s, ss_bytes (slot_of s id))).
Definition zeroize_bytes (id : nat) : M unit := atomic (fun s => (with_slots (alter clear_slot_bytes id) s, tt)).

Definition handle_load (id : nat) : M HandleState := atomic (fun s => (s, ih_state (handle_of s id))).
Definition handle_cas (id : nat) (from to : HandleState) : M bool := atomic (fun s =>
  if decide (ih_state (handle_of s id) = from) then (with_handles (alter (set_handle_state to) id) s, true)
  else (s, false)).
Definition handle_swap (id : nat) (to : HandleState) : M HandleState := atomic (fun s =>
  (with_handles (alter (set_handle_state to) id) s, ih_state (handle_of s id))).

(** ** Secret slots *)

Definition slot_mark_expired (id : nat) : M unit :=
  let* won := slot_cas id SLOT_LIVE SLOT_EXPIRED in
  if won then zeroize_bytes id else fs_ret tt.

Definition slot_expired_error (x : SecretSlot) : AuthStoreError :=
  SecretSlotExpired (ss_credential_id x) (kind_str (ss_kind x)).

Definition expire_if_due (id : nat) : M unit :=
  let* x := get_slot id in
  let* st := slot_load id in
  if decide (st = SLOT_EXPIRED) then let* _ := zeroize_bytes id in fs_fail (slot_expired_error x) else
  let* t := now in
  if (ss_expires_at x <=? t)%Z then let* _ := slot_mark_expired id in fs_fail (slot_expired_error x)
  else fs_ret tt.

Definition validate_slot_provenance (credential_id : string) (policy_generation : Z) (run_id : string) :
    result unit AuthStoreError :=
  if negb (is_ok (Token.credential_id_new credential_id))
  then Err (InvalidCredential credential_id "credential ID is invalid") else
  if (policy_generation =? 0)%Z || is_empty run_id || (128 <? slen run_id)%Z
  then Err (SecretSlotInvalid credential_id "unknown" "policy and run provenance are invalid") else
  if existsb (fun c => is_control c || is_whitespace c) (chars run_id)
  then Err (SecretSlotInvalid credential_id "unknown" "run provenance is not a visible identifier") else
  Ok tt.

(** [OpaqueSecretSlot::from_host_secret_until]. *)
Definition from_host_secret_until (kind : SecretSlotKind) (credential_id : string) (expected_generation policy_generation : Z)
    (run_id : string) (bytes : list byte) (expires_at : Z) : M nat :=
  let* _ := fs_guard (negb ((blen bytes =? 0)%Z || (MAX_SECRET_SLOT_BYTES <? blen bytes)%Z))
    (SecretSlotInvalid credential_id (kind_str kind) "secret slot size is outside the bounded range") in
  let* _ := fs_guard (utf8_valid bytes)
    (SecretSlotInvalid credential_id (kind_str kind) "secret slot is not valid UTF-8") in
  let* _ := fs_lift (validate_slot_provenance credential_id policy_generation run_id) in
  let* t := now in
  fun s =>
    let x := {| ss_kind := kind; ss_credential_id := credential_id; ss_expected_generation := expected_generation;
      ss_policy_generation := policy_generation; ss_run_id := run_id; ss_bytes := bytes; ss_state := SLOT_LIVE;
      ss_expires_at := Z.min expires_at (t + SECRET_SLOT_TTL) |} in
    (with_next S (with_slots (insert (next s) x) s), Ok (next s)).

Definition slot_matches (x : SecretSlot) (kind : SecretSlotKind) (credential_id : string)
    (expected_generation policy_generation : Z) (run_id : string) : bool :=
  bool_decide (ss_kind x = kind) && str_eqb (ss_credential_id x) credential_id
  && (ss_expected_generation x =? expected_generation)%Z && (ss_policy_generation x =? policy_generation)%Z
  && str_eqb (ss_run_id x) run_id.

Definition validate_for_request (id : nat) (kind : SecretSlotKind) (credential_id : string)
    (expected_generation policy_generation : Z) (run_id : string) : M unit :=
  let* _ := expire_if_due id in
  let* x := get_slot id in
  let* _ := fs_guard (slot_matches x kind credential_id expected_generation policy_generation run_id)
    (SecretSlotProvenance credential_id (kind_str kind)) in
  let* st := slot_load id in
  let* _ := fs_guard (bool_decide (st = SLOT_LIVE)) (SecretSlotReplayed credential_id (kind_str kind)) in
  let* bytes := slot_bytes id in
  let* _ := fs_guard (negb (blen bytes =? 0)%Z)
    (SecretSlotInvalid credential_id (kind_str kind) "secret slot is empty") in
  fs_guard (utf8_valid bytes) (SecretSlotInvalid credential_id (kind_str kind) "secret slot is not valid UTF-8").

(** The secret as text, valid UTF-8 by construction. *)
Definition snapshot_text (id : nat) (kind : SecretSlotKind) (credential_id : string)
    (expected_generation policy_generation : Z) (run_id : string) : M string :=
  let* _ := validate_for_request id kind credential_id expected_generation policy_generation run_id in
  let* bytes := slot_bytes id in
  if utf8_valid bytes then fs_ret (b2s bytes)
  else fs_fail (SecretSlotInvalid credential_id (kind_str kind) "secret slot is not valid UTF-8").

Definition slot_consume (id : nat) : M unit :=
  let* _ := expire_if_due id in
  let* x := get_slot id in
  let* won := slot_cas id SLOT_LIVE SLOT_USED in
  let* _ := fs_guard won (SecretSlotReplayed (ss_credential_id x) (kind_str (ss_kind x))) in
  zeroize_bytes id.

Definition slot_revoke (id : nat) : M unit :=
  let* previous := slot_swap id SLOT_USED in
  if decide (previous = SLOT_USED) then fs_ret tt else zeroize_bytes id.

(** ** Issued handles *)

Definition replayed_error (h : IssuedHandle) : AuthStoreError := HandleReplayed (ih_credential_id h) (kind_str (ih_kind h)).
Definition revoked_error (h : IssuedHandle) : AuthStoreError := HandleRevoked (ih_credential_id h) (kind_str (ih_kind h)).
Definition expired_error (h : IssuedHandle) : AuthStoreError := HandleExpired (ih_credential_id h) (kind_str (ih_kind h)).

Definition is_time_expired (id : nat) : M bool :=
  let* h := get_handle id in
  let* t := now in
  fs_ret (ih_expires_at h <=? t)%Z.

Definition is_inflight (id : nat) : M bool :=
  let* st := handle_load id in
  if decide (st = HANDLE_LIVE) then let* expired := is_time_expired id in fs_ret (negb expired) else fs_ret false.

Definition mark_revoked (id : nat) : M unit :=
  let* h := get_handle id in
  let* previous := handle_swap id HANDLE_REVOKED in
  if bool_decide (previous = HANDLE_USED) || bool_decide (previous = HANDLE_REVOKED) then fs_ret tt
  else slot_revoke (ih_slot h).

Definition mark_expired (id : nat) : M unit :=
  let* h := get_handle id in
  let* won := handle_cas id HANDLE_LIVE HANDLE_EXPIRED in
  if won then slot_revoke (ih_slot h) else fs_ret tt.

Definition handle_is_terminal (id : nat) : M bool :=
  let* expired := is_time_expired id in
  let* _ := if expired then mark_expired id else fs_ret tt in
  let* st := handle_load id in
  fs_ret (negb (bool_decide (st = HANDLE_LIVE))).

Definition check_live (id : nat) : M unit :=
  let* h := get_handle id in
  let* st := handle_load id in
  match st with
  | HANDLE_USED => fs_fail (replayed_error h)
  | HANDLE_REVOKED => fs_fail (revoked_error h)
  | HANDLE_EXPIRED => let* _ := slot_revoke (ih_slot h) in fs_fail (expired_error h)
  | HANDLE_LIVE =>
      let* expired := is_time_expired id in
      if expired then let* _ := mark_expired id in fs_fail (expired_error h) else fs_ret tt
  end.

Definition check_binding (id : nat) (credential_id : string) (generation policy_generation : Z) (run_id : string) : M unit :=
  let* h := get_handle id in
  fs_guard (str_eqb (ih_credential_id h) credential_id && (ih_generation h =? generation)%Z
            && (ih_policy_generation h =? policy_generation)%Z && str_eqb (ih_run_id h) run_id)
    (HandleProvenance credential_id (kind_str (ih_kind h))).

Definition validate_binding (id : nat) (credential_id : string) (generation policy_generation : Z) (run_id : string) : M unit :=
  let* _ := check_live id in check_binding id credential_id generation policy_generation run_id.

Definition consume_live (id : nat) : M unit :=
  let* _ := check_live id in
  let* h := get_handle id in
  let* won := handle_cas id HANDLE_LIVE HANDLE_USED in
  let* _ := fs_guard won (replayed_error h) in
  slot_revoke (ih_slot h).

(** ** The registry of issued handles *)

Fixpoint expire_due (ids : list nat) : M unit :=
  match ids with
  | [] => fs_ret tt
  | id :: rest =>
      let* expired := is_time_expired id in
      let* _ := if expired then mark_expired id else fs_ret tt in
      expire_due rest
  end.

Fixpoint retain_inflight (ids : list nat) : M (list nat) :=
  match ids with
  | [] => fs_ret []
  | id :: rest =>
      let* keep := is_inflight id in
      let* rest := retain_inflight rest in
      fs_ret (if keep then id :: rest else rest)
  end.

Definition sweep_entry (entry : IssuedHandleSet) : M IssuedHandleSet :=
  let* _ := expire_due (hs_access entry) in
  let* access := retain_inflight (hs_access entry) in
  match hs_refresh entry with
  | None => fs_ret {| hs_access := access; hs_refresh := None |}
  | Some id =>
      let* expired := is_time_expired id in
      let* _ := if expired then mark_expired id else fs_ret tt in
      let* keep := is_inflight id in
      fs_ret {| hs_access := access; hs_refresh := if keep then Some id else None |}
  end.

Definition set_is_empty (entry : IssuedHandleSet) : bool :=
  bool_decide (hs_access entry = []) && bool_decide (hs_refresh entry = None).

Definition put_entry (credential_id : string) (entry : IssuedHandleSet) : M unit := fun s =>
  (with_registry (if set_is_empty entry then delete credential_id else insert credential_id entry) s, Ok tt).

Fixpoint sweep_entries (entries : list (string * IssuedHandleSet)) : M unit :=
  match entries with
  | [] => fs_ret tt
  | (credential_id, entry) :: rest =>
      let* entry := sweep_entry entry in
      let* _ := put_entry credential_id entry in
      sweep_entries rest
  end.

(** [retain] visits the map's entries in some order; the registry's mutex is
    held, so the map does not change under it. *)
Definition sweep_expired : M unit := fun s => sweep_entries (map_to_list (handle_registry s)) s.

Definition entry_of (s : Store) (credential_id : string) : IssuedHandleSet :=
  default empty_handle_set (handle_registry s !! credential_id).
Definition get_entry (credential_id : string) : M IssuedHandleSet := fun s => (s, Ok (entry_of s credential_id)).
Definition set_entry (credential_id : string) (entry : IssuedHandleSet) : M unit := fun s =>
  (with_registry (insert credential_id entry) s, Ok tt).

Definition register (id : nat) : M unit :=
  let* _ := sweep_expired in
  let* h := get_handle id in
  let* entry := get_entry (ih_credential_id h) in
  match ih_kind h with
  | Access =>
      set_entry (ih_credential_id h) {| hs_access := hs_access entry ++ [id]; hs_refresh := hs_refresh entry |}
  | Refresh =>
      let* _ := match hs_refresh entry with
        | None => fs_ret tt
        | Some existing =>
            let* busy := is_inflight existing in
            if busy then
              let* e := get_handle existing in
              let* _ := set_entry (ih_credential_id h) entry in
              fs_fail (replayed_error e)
            else mark_revoked existing
        end in
      set_entry (ih_credential_id h) {| hs_access := hs_access entry; hs_refresh := Some id |}
  end.

Definition unregister (id : nat) : M unit := fun s =>
  let h := handle_of s id in
  match handle_registry s !! ih_credential_id h with
  | None => (s, Ok tt)
  | Some entry =>
      let entry := match ih_kind h with
        | Access => {| hs_access := filter (fun x => x <> id) (hs_access entry); hs_refresh := hs_refresh entry |}
        | Refresh => {| hs_access := hs_access entry;
            hs_refresh := if decide (hs_refresh entry = Some id) then None else hs_refresh entry |}
        end in
      put_entry (ih_credential_id h) entry s
  end.

(** The registry's mutex. *)
Definition locked_registry {A} (m : M A) : M A := let* _ := atomic (fun s => (s, tt)) in m.
Definition register_issued (id : nat) : M unit := locked_registry (register id).
Definition unregister_issued (id : nat) : M unit := locked_registry (unregister id).

Definition revoke_credential (credential_id : string) : M IssuedHandleSet := fun s =>
  (with_registry (delete credential_id) s, Ok (entry_of s credential_id)).

Fixpoint mark_all_revoked (ids : list nat) : M unit :=
  match ids with [] => fs_ret tt | id :: rest => let* _ := mark_revoked id in mark_all_revoked rest end.

Definition revoke_issued_handles (credential_id : string) : M unit :=
  let* revoked := locked_registry (revoke_credential credential_id) in
  let* _ := mark_all_revoked (hs_access revoked) in
  match hs_refresh revoked with Some id => mark_revoked id | None => fs_ret tt end.

(** [IssuedHandleInner::force_expire]. *)
Definition force_expire (id : nat) : M unit :=
  let* _ := mark_expired id in
  fun s => if alive s then unregister_issued id s else (s, Ok tt).

(** ** The file *)

Definition parse_stored_yaml (bytes : list byte) : result StoredAuthConfig string :=
  let? config := stored_of_bytes bytes in
  let? _ := validate_stored config in
  Ok config.

Definition read_file : M (option (list byte)) := fun s => (s, Ok (file s)).

Definition load_locked : M StoredAuthConfig :=
  let* _ := io in
  let* contents := read_file in
  match contents with
  | None => fs_ret stored_empty
  | Some bytes =>
      let* _ := io in
      let* _ := fs_guard (blen bytes <=? MAX_AUTH_STORE_BYTES)%Z (FileTooLarge MAX_AUTH_STORE_BYTES) in
      match parse_stored_yaml bytes with Ok document => fs_ret document | Err reason => fs_fail (CorruptFile reason) end
  end.

(** [unix::atomic_write]: the calls that stage the replacement, the final
    admission check, the rename, and the synchronisation of the directory,
    which may fail after the rename. *)
Definition atomic_write (bytes : list byte) (guard : MutationGuard) : M unit :=
  let* _ := io in
  let* _ := check_mutation_guard guard in
  let* _ := io in
  let* _ := (fun s => (renamed bytes s, Ok tt)) in
  io.

Definition save_locked (document : StoredAuthConfig) (guard : MutationGuard) : M unit :=
  let* _ := fs_lift (map_err CorruptFile (validate_stored document)) in
  let* bytes := fs_lift (ok_or (bytes_of_stored document) (Serialization "auth document serialization failed")) in
  let* _ := fs_guard (blen bytes <=? MAX_AUTH_STORE_BYTES)%Z (FileTooLarge MAX_AUTH_STORE_BYTES) in
  atomic_write bytes guard.

(** *** Locks *)

Definition with_process_lock {A} (m : M A) : M A := let* _ := acquire in m.
(** The lock file is held while [m] runs. *)
Definition holding {A} (m : M A) : M A := fun s =>
  let '(s, r) := m (with_file_locked true s) in (with_file_locked false s, r).

Definition with_file_lock {A} (m : M A) : M A := let* _ := io in let* _ := acquire in holding m.

(** [n] attempts find the lock taken. *)
Fixpoint try_lock (guard : MutationGuard) (n : nat) : M unit :=
  let* _ := check_mutation_guard guard in
  match n with 0 => acquire | S n => try_lock guard n end.

Definition with_mutation_process_lock {A} (guard : MutationGuard) (m : M A) : M A :=
  match guard with
  | None => with_process_lock m
  | Some _ =>
      let* _ := (fun s => try_lock guard (lock_waits (yields s)) s) in
      let* _ := check_mutation_guard guard in
      m
  end.

Definition with_mutation_file_lock {A} (guard : MutationGuard) (m : M A) : M A :=
  let* _ := check_mutation_guard guard in
  match guard with
  | None => with_file_lock m
  | Some _ =>
      let* _ := check_mutation_guard guard in
      let* _ := io in
      let* _ := (fun s => try_lock guard (lock_waits (yields s)) s) in
      holding (let* _ := check_mutation_guard guard in let* _ := check_mutation_guard guard in m)
  end.

(** ** Operations *)

Inductive RefreshSecretAction := Preserve | Replace (slot : nat) | Clear.

Record SaveCredentialRequest := {
  sr_credential_id : string; sr_expected_generation : Z; sr_policy_generation : Z; sr_run_id : string;
  sr_metadata : CredentialConfig; sr_access_slot : nat; sr_refresh : RefreshSecretAction
}.

Inductive SaveOutcome := Committed (metadata : AuthMetadata) | Adopted (metadata : AuthMetadata).

Definition bounded_visible (max : Z) (value : string) : bool :=
  negb (is_empty value) && (slen value <=? max)%Z
  && negb (existsb (fun c => is_control c || is_whitespace c) (chars value)).

Fixpoint validate_metadata_scopes (credential_id : string) (index : nat) (scopes : list string) :
    result unit AuthStoreError :=
  match scopes with
  | [] => Ok tt
  | scope :: rest =>
      if bounded_visible 256 scope then validate_metadata_scopes credential_id (S index) rest
      else Err (InvalidMetadata credential_id ("scopes[" +:+ pretty index +:+ "]") "must be a bounded visible identifier")
  end.

Definition validate_metadata (credential_id : string) (m : CredentialConfig) : result unit AuthStoreError :=
  let bad field := InvalidMetadata credential_id field "must be a bounded visible identifier" in
  if negb (bounded_visible 512 (cc_provider m)) then Err (bad "provider") else
  if negb (bounded_visible 512 (cc_kind m)) then Err (bad "kind") else
  if negb (bounded_visible 512 (cc_source m)) then Err (bad "source") else
  if negb (bounded_visible 512 (cc_token_type m)) then Err (bad "token_type") else
  if negb (bounded_visible 512 (cc_status m)) then Err (bad "status") else
  if (cc_expires_at_ms m =? 0)%Z then Err (InvalidMetadata credential_id "expires_at_ms" "must be nonzero") else
  let? _ := validate_metadata_scopes credential_id 0 (cc_scopes m) in
  match cc_account_id m with
  | Some account_id => if bounded_visible 256 account_id then Ok tt else Err (bad "account_id")
  | None => Ok tt
  end.

Definition checked_credential_id (value : string) : result string AuthStoreError :=
  map_err (fun _ => InvalidCredential value "credential ID is invalid") (Token.credential_id_new value).

Definition validate_request (r : SaveCredentialRequest) : M unit :=
  let* _ := fs_lift (validate_slot_provenance (sr_credential_id r) (sr_policy_generation r) (sr_run_id r)) in
  let* _ := fs_lift (validate_metadata (sr_credential_id r) (sr_metadata r)) in
  let* _ := fs_guard (cc_generation (sr_metadata r) =? sr_expected_generation r)%Z
    (InvalidGeneration (sr_credential_id r) (sr_expected_generation r) (cc_generation (sr_metadata r))) in
  let* _ := validate_for_request (sr_access_slot r) Access (sr_credential_id r) (sr_expected_generation r)
    (sr_policy_generation r) (sr_run_id r) in
  match sr_refresh r with
  | Replace slot => validate_for_request slot Refresh (sr_credential_id r) (sr_expected_generation r)
      (sr_policy_generation r) (sr_run_id r)
  | _ => fs_ret tt
  end.

Definition revoke_slots (r : SaveCredentialRequest) : M unit :=
  let* _ := slot_revoke (sr_access_slot r) in
  match sr_refresh r with Replace slot => slot_revoke slot | _ => fs_ret tt end.

(** The record a save writes. *)
Definition updated_credential (m : CredentialConfig) (access : string) (refresh : option string) (generation : Z) :
    StoredCredentialConfig := {|
  sc_provider := cc_provider m; sc_kind := cc_kind m; sc_source := cc_source m; sc_token_type := cc_token_type m;
  sc_access_token := access; sc_refresh_token := refresh; sc_expires_at_ms := cc_expires_at_ms m;
  sc_scopes := cc_scopes m; sc_account_id := cc_account_id m; sc_generation := generation; sc_status := cc_status m;
  sc_last_refresh_at_ms := cc_last_refresh_at_ms m |}.

Definition insert_credential (id : string) (c : StoredCredentialConfig) (d : StoredAuthConfig) : StoredAuthConfig :=
  {| ac_version := ac_version d; ac_credentials := <[id := c]> (ac_credentials d) |}.
Definition remove_credential (id : string) (d : StoredAuthConfig) : StoredAuthConfig :=
  {| ac_version := ac_version d; ac_credentials := delete id (ac_credentials d) |}.

Definition actual_generation (d : StoredAuthConfig) (id : string) : Z :=
  match ac_credentials d !! id with Some c => sc_generation c | None => 0 end.

(** The generation is the expected one: publish, then use up the slots. *)
Definition commit (r : SaveCredentialRequest) (guard : MutationGuard) (document : StoredAuthConfig)
    (current : option StoredCredentialConfig) : M SaveOutcome :=
  let id := sr_credential_id r in
  let expected := sr_expected_generation r in
  let* next_generation := fs_lift (ok_or (checked_add expected 1) (GenerationOverflow id)) in
  let* access := snapshot_text (sr_access_slot r) Access id expected (sr_policy_generation r) (sr_run_id r) in
  let* refresh := match sr_refresh r with
    | Preserve => fs_ret (c ← current; sc_refresh_token c)
    | Replace slot =>
        let* t := snapshot_text slot Refresh id expected (sr_policy_generation r) (sr_run_id r) in fs_ret (Some t)
    | Clear => fs_ret None
    end in
  let updated := updated_credential (sr_metadata r) access refresh next_generation in
  let* _ := save_locked (insert_credential id updated document) guard in
  let* _ := slot_consume (sr_access_slot r) in
  let* _ := match sr_refresh r with Replace slot => slot_consume slot | _ => fs_ret tt end in
  fs_ret (Committed (from_stored id updated)).

(** Under both locks. *)
Definition save_under_lock (r : SaveCredentialRequest) (guard : MutationGuard) : M SaveOutcome :=
  let id := sr_credential_id r in
  let* document := load_locked in
  let current := ac_credentials document !! id in
  let actual := actual_generation document id in
  match current, (sr_expected_generation r <? actual)%Z with
  | Some current, true => fs_ret (Adopted (from_stored id current))
  | _, _ =>
      let* _ := fs_guard (sr_expected_generation r <=? actual)%Z
        (GenerationConflict id (sr_expected_generation r) actual) in
      commit r guard document current
  end.

(** Runs [m] and, when its answer is one the [if matches!] names, [after]. *)
Definition finally {A} (m : M A) (wanted : result A AuthStoreError -> bool) (after : M unit) : M A :=
  fs_match m (fun r => if wanted r then let* _ := after in fs_lift r else fs_lift r).

Definition lost_race (r : result SaveOutcome AuthStoreError) : bool :=
  match r with Err (GenerationConflict _ _ _) | Ok (Adopted _) => true | _ => false end.

Definition save_if_generation_impl (r : SaveCredentialRequest) (guard : MutationGuard) : M SaveOutcome :=
  let* _ := check_mutation_guard guard in
  let* _ := validate_request r in
  finally
    (with_mutation_process_lock guard (
       let* outcome := with_mutation_file_lock guard (save_under_lock r guard) in
       let* _ := match outcome with Committed _ => revoke_issued_handles (sr_credential_id r) | Adopted _ => fs_ret tt end in
       fs_ret outcome))
    lost_race (revoke_slots r).

Definition delete_under_lock (id : string) (guard : MutationGuard) : M AuthMetadata :=
  let* document := load_locked in
  match ac_credentials document !! id with
  | None => fs_fail (CredentialNotFound id)
  | Some removed =>
      let* _ := save_locked (remove_credential id document) guard in
      fs_ret (from_stored id removed)
  end.

Definition delete_impl (credential_id : string) (guard : MutationGuard) : M AuthMetadata :=
  let* _ := check_mutation_guard guard in
  let* id := fs_lift (checked_credential_id credential_id) in
  with_mutation_process_lock guard (
    let* metadata := with_mutation_file_lock guard (delete_under_lock id guard) in
    let* _ := revoke_issued_handles id in
    fs_ret metadata).

Definition load : M (Z * gmap string CredentialConfig) :=
  with_process_lock (with_file_lock (
    let* document := load_locked in
    let* _ := fs_lift (map_err CorruptFile (validate_stored document)) in
    fs_ret (ac_version document, public_projection <$> ac_credentials document))).

Definition load_all_metadata : M (list AuthMetadata) :=
  with_process_lock (with_file_lock (
    let* document := load_locked in
    fs_ret ((fun '(id, c) => from_stored id c) <$>
      sort_by_key (fun a b => negb (str_ltb b a)) fst (map_to_list (ac_credentials document))))).

Definition load_metadata (credential_id : string) : M AuthMetadata :=
  let* id := fs_lift (checked_credential_id credential_id) in
  with_process_lock (with_file_lock (
    let* document := load_locked in
    match ac_credentials document !! id with
    | Some c => fs_ret (from_stored id c)
    | None => fs_fail (CredentialNotFound id)
    end)).

(** *** Issuing and using handles *)

Definition credential_remaining (expires_at_ms : Z) : M Z := fun s =>
  (counted 1 0 0 0 s, Ok (Z.max 0 (expires_at_ms * 1000000 - wall (ticks s)))).

Definition handle_deadline (kind : SecretSlotKind) (expires_at_ms request_deadline : Z) : M Z :=
  let* t := now in
  let capped := (t + match kind with Access => ACCESS_HANDLE_TTL | Refresh => REFRESH_HANDLE_TTL end)%Z in
  let request_bound := if (t <? request_deadline)%Z then request_deadline else t in
  match kind with
  | Access =>
      let* remaining := credential_remaining expires_at_ms in
      fs_ret (Z.min (Z.min capped request_bound) (t + remaining))
  | Refresh => fs_ret (Z.min capped request_bound)
  end.

Definition issued_secret (id : string) (generation : Z) (kind : SecretSlotKind) : M (Z * string) :=
  let* document := load_locked in
  match ac_credentials document !! id with
  | None => fs_fail (CredentialNotFound id)
  | Some c =>
      let* _ := fs_guard (sc_generation c =? generation)%Z (GenerationConflict id generation (sc_generation c)) in
      let* secret := match kind with
        | Access => fs_ret (sc_access_token c)
        | Refresh => fs_lift (ok_or (sc_refresh_token c) (InvalidMetadata id "refresh_token" "refresh slot is absent"))
        end in
      fs_ret (sc_expires_at_ms c, secret)
  end.

(** [Arc::new(IssuedHandleInner { .. })]. *)
Definition new_handle (h : IssuedHandle) : M nat := fun s =>
  (with_next S (with_handles (insert (next s) h) s), Ok (next s)).

Definition new_issued (kind : SecretSlotKind) (id : string) (generation policy_generation : Z) (run_id secret : string)
    (expires_at : Z) : M nat :=
  let* slot := from_host_secret_until kind id generation policy_generation run_id (s2b secret) expires_at in
  new_handle {| ih_kind := kind; ih_credential_id := id; ih_generation := generation;
    ih_policy_generation := policy_generation; ih_run_id := run_id; ih_expires_at := expires_at;
    ih_state := HANDLE_LIVE; ih_slot := slot |}.

Definition issue_handle (credential_id : string) (generation policy_generation : Z) (run_id : string)
    (kind : SecretSlotKind) (request_deadline : Z) : M nat :=
  let* id := fs_lift (checked_credential_id credential_id) in
  with_process_lock (
    let* found := with_file_lock (issued_secret id generation kind) in
    let* expires_at := handle_deadline kind (fst found) request_deadline in
    let* t := now in
    let* _ := fs_guard (t <? expires_at)%Z (HandleExpired id (kind_str kind)) in
    let* h := new_issued kind id generation policy_generation run_id (snd found) expires_at in
    let* _ := register_issued h in
    fs_ret h).

Definition live_store_generation (id : nat) : M Z :=
  let* document := load_locked in
  let* h := get_handle id in
  match ac_credentials document !! ih_credential_id h with
  | Some c => fs_ret (sc_generation c)
  | None => fs_fail (revoked_error h)
  end.

Definition fail_stale_handle {A} (id : nat) (error : AuthStoreError) : M A :=
  let* _ := mark_revoked id in
  let* _ := unregister_issued id in
  fs_fail error.

(** What [revalidate_issued], [consume_issued] and [take_issued] share. *)
Definition with_issued {A} (id : nat) (use : M A) : M A :=
  let* h := get_handle id in
  let* _ := (fun s => if alive s then (s, Ok tt) else (s, Err (revoked_error h))) in
  let* _ := check_live id in
  with_process_lock (
    let* _ := check_live id in
    fs_match (with_file_lock (live_store_generation id)) (fun r =>
      match r with
      | Ok actual =>
          if (actual =? ih_generation h)%Z then use
          else fail_stale_handle id (GenerationConflict (ih_credential_id h) (ih_generation h) actual)
      | Err (HandleRevoked c k) => fail_stale_handle id (HandleRevoked c k)
      | Err e => fs_fail e
      end)).

Definition revalidate_issued (id : nat) : M unit := with_issued id (fs_ret tt).

Definition consume_issued (id : nat) : M unit := with_issued id (
  let* _ := consume_live id in unregister_issued id).

Definition take_issued (id : nat) : M string := with_issued id (
  let* h := get_handle id in
  let* secret := snapshot_text (ih_slot h) (ih_kind h) (ih_credential_id h) (ih_generation h)
    (ih_policy_generation h) (ih_run_id h) in
  let* _ := consume_live id in
  let* _ := unregister_issued id in
  fs_ret secret).

End store.
End AuthStore.
