(* ===== verification/AuthRely.v ===== *)
(** What the credential store's calls do to one another's cells.

    A rely/guarantee argument over [AuthStore]: what every call may do to the
    shared slots and handles ([later], with the invariant [wf]) is what it may
    assume of the other threads ([ThreadLaws]). *)
From stdpp Require Import base list strings numbers pretty gmap.
From S2P Require Import Prelude Utf8 Json Rely Credentials AuthStore.

Module AuthRely.
Import AuthStore.

(** ** What a step may do *)

(** The part of a cell that no operation changes. *)
Definition handle_core (h : IssuedHandle) : IssuedHandle := set_handle_state HANDLE_LIVE h.
Definition slot_core (x : SecretSlot) : SecretSlot := clear_slot_bytes (set_slot_state SLOT_LIVE x).

Definition dead (h : IssuedHandle) : Prop := ih_state h <> HANDLE_LIVE.

Definition same_handle (h h' : IssuedHandle) : Prop := handle_core h' = handle_core h /\ (dead h -> dead h').
(** A slot in use keeps its bytes: they are erased once it no longer is. *)
Definition same_slot (x x' : SecretSlot) : Prop :=
  slot_core x' = slot_core x /\ (ss_bytes x' = [] \/ ss_bytes x' = ss_bytes x)
  /\ (ss_state x <> SLOT_LIVE -> ss_state x' <> SLOT_LIVE) /\ (ss_state x' = SLOT_LIVE -> ss_bytes x' = ss_bytes x).

Record later (s s' : Store) : Prop := {
  later_handles : forall id h, handles s !! id = Some h -> exists h', handles s' !! id = Some h' /\ same_handle h h';
  later_slots : forall id x, slots s !! id = Some x -> exists x', slots s' !! id = Some x' /\ same_slot x x';
  later_new : forall id h', handles s' !! id = Some h' -> is_Some (handles s !! id) \/ next s <= ih_slot h';
  later_next : next s <= next s';
  later_ticks : ticks s <= ticks s'
}.

Definition members (e : IssuedHandleSet) (id : nat) : Prop := id ∈ hs_access e \/ hs_refresh e = Some id.

Section spec.
Context `{H : AuthHost}.

(** The clock has shown the handle's deadline. *)
Definition due (s : Store) (h : IssuedHandle) : Prop := exists t, t < ticks s /\ (ih_expires_at h <= clock t)%Z.

Definition over (s : Store) (h : IssuedHandle) : Prop := dead h \/ due s h.

Record wf (s : Store) : Prop := {
  wf_fresh : forall id, next s <= id -> handles s !! id = None /\ slots s !! id = None;
  wf_owned : forall id h, handles s !! id = Some h -> exists x, slots s !! ih_slot h = Some x
    /\ (ih_expires_at h <= ss_expires_at x)%Z /\ (ss_bytes x = [] \/ ss_state x = SLOT_EXPIRED -> over s h);
  wf_unshared : forall i j h k, handles s !! i = Some h -> handles s !! j = Some k -> ih_slot h = ih_slot k -> i = j;
  wf_registry : forall c e id, handle_registry s !! c = Some e -> members e id -> is_Some (handles s !! id)
}.

(** What other threads and processes may do. *)
Class ThreadLaws := {
  clock_monotone : forall i j, i <= j -> (clock i <= clock j)%Z;
  threads_wf : forall n s, wf s -> wf (threads n s);
  threads_later : forall n s, wf s -> later s (threads n s);
  threads_record : forall n s, renames (threads n s) = renames s;
  threads_lock : forall n s, file_locked (threads n s) = file_locked s;
  threads_file : forall n s, file_locked s = true -> file (threads n s) = file s
}.
Context {TL : ThreadLaws}.

(** ** Steps compose *)

Lemma same_handle_refl h : same_handle h h.
Proof. by split. Qed.
Lemma same_slot_refl x : same_slot x x.
Proof. split; [done|]. split; [by right|done]. Qed.

Lemma later_refl s : later s s.
Proof. split; eauto using same_handle_refl, same_slot_refl. Qed.

Lemma later_trans a b c : later a b -> later b c -> later a c.
Proof.
  intros [h1 s1 n1 x1 t1] [h2 s2 n2 x2 t2]. split; [| | |lia|lia].
  - intros id h (h' & Hh & E & D)%h1. apply h2 in Hh as (h'' & ? & E' & D'). exists h''. split; [done|].
    split; [congruence|auto].
  - intros id x (x' & Hx & E & B & D)%s1. apply s2 in Hx as (x'' & ? & E' & B' & D'). exists x''. split; [done|].
    split; [congruence|]. split; [destruct B' as [->| ->]; auto|]. destruct D as [D K], D' as [D' K'].
    split; [auto|]. intros V. rewrite (K' V). apply K. destruct (decide (ss_state x' = SLOT_LIVE)) as [?|N]; [done|].
    by apply D' in N.
  - intros id h' Hc. destruct (n2 _ _ Hc) as [[h Hh]|?]; [|right; lia].
    destruct (h2 _ _ Hh) as (h3 & Hh3 & E & _). rewrite Hc in Hh3. injection Hh3 as <-.
    destruct (n1 _ _ Hh) as [?|?]; [by left|]. right. apply (f_equal ih_slot) in E. simpl in E. lia.
Qed.

#[export] Instance store_steps : Steps Store :=
  {| sound := wf; goes := later; goes_refl := later_refl; goes_trans := later_trans |}.

(** Steps that leave the cells alone. *)
Definition same_cells (s s' : Store) : Prop :=
  slots s' = slots s /\ handles s' = handles s /\ next s' = next s /\ ticks s <= ticks s'.

Lemma same_cells_later s s' : same_cells s s' -> later s s'.
Proof.
  intros (E1 & E2 & E3 & L). split; [| | |lia|lia]; rewrite ?E1, ?E2; eauto using same_handle_refl, same_slot_refl.
Qed.

Lemma due_ticks s s' h : ticks s <= ticks s' -> due s h -> due s' h.
Proof. intros L (t & ? & ?). exists t. split; [lia|done]. Qed.

Lemma same_cells_wf s s' : same_cells s s' -> handle_registry s' = handle_registry s -> wf s -> wf s'.
Proof.
  intros (E1 & E2 & E3 & L) E4 [w1 w2 w3 w4]. split; rewrite ?E1, ?E2, ?E3, ?E4; [done| |done|done].
  intros id h (x & ? & ? & O)%w2. exists x. split_and!; [done..|]. intros [?|?]%O; [by left|]. right. by eapply due_ticks.
Qed.

Lemma triple_counted {A} P (f : Store -> result A AuthStoreError) t i g y :
  stable P -> triple P (fun s => (counted t i g y s, f s)) (fun _ => P).
Proof.
  intros HP s W X. assert (same_cells s (counted t i g y s)) by (split_and!; simpl; [done..|lia]).
  assert (L : later s (counted t i g y s)) by by apply same_cells_later. simpl. split_and!; [|done|eauto].
  by eapply same_cells_wf.
Qed.

(** ** Facts that last *)

Definition valid (id : nat) (s : Store) : Prop := is_Some (handles s !! id).
Definition owns (id k : nat) (s : Store) : Prop := exists h, handles s !! id = Some h /\ ih_slot h = k.
Definition closed (id : nat) (s : Store) : Prop := exists h, handles s !! id = Some h /\ over s h.
Definition gone (id : nat) (s : Store) : Prop := exists h, handles s !! id = Some h /\ dead h.

(** No handle in use depends on the slot. *)
Definition spare (k : nat) (s : Store) : Prop :=
  (k < next s /\ is_Some (slots s !! k)) /\ forall id h, handles s !! id = Some h -> ih_slot h = k -> over s h.

(** A slot that has been used, revoked or has run out. *)
Definition used (k : nat) (s : Store) : Prop := exists x, slots s !! k = Some x /\ ss_state x <> SLOT_LIVE.

Lemma later_over s s' h h' : later s s' -> same_handle h h' -> over s h -> over s' h'.
Proof.
  intros L [E D] [?|(t & ? & Ht)]; [left; auto|right]. exists t. split; [pose proof (later_ticks _ _ L); lia|].
  apply (f_equal ih_expires_at) in E. simpl in E. by rewrite E.
Qed.

Lemma valid_stable id : stable (valid id).
Proof. intros s s' L [h (h' & ? & _)%(later_handles _ _ L)]. by exists h'. Qed.
Lemma owns_stable id k : stable (owns id k).
Proof.
  intros s s' L (h & Hh & <-). destruct (later_handles _ _ L _ _ Hh) as (h' & ? & E & _). exists h'.
  split; [done|]. by apply (f_equal ih_slot) in E.
Qed.
Lemma closed_stable id : stable (closed id).
Proof.
  intros s s' L (h & Hh & O). destruct (later_handles _ _ L _ _ Hh) as (h' & ? & S). exists h'.
  eauto using later_over.
Qed.
Lemma gone_stable id : stable (gone id).
Proof.
  intros s s' L (h & Hh & O). destruct (later_handles _ _ L _ _ Hh) as (h' & ? & ? & D). exists h'. auto.
Qed.
Lemma spare_stable k : stable (spare k).
Proof.
  intros s s' L [[B [y Hy]] O]. split.
  { split; [pose proof (later_next _ _ L); lia|]. destruct (later_slots _ _ L _ _ Hy) as (y' & ? & _). by exists y'. }
  intros id h' Hh' <-.
  destruct (later_new _ _ L _ _ Hh') as [[h Hh]|?]; [|lia].
  destruct (later_handles _ _ L _ _ Hh) as (h'' & Hh'' & S). rewrite Hh' in Hh''. injection Hh'' as <-.
  apply (later_over _ _ h h' L S), (O _ _ Hh). destruct S as [E _]. by apply (f_equal ih_slot) in E.
Qed.
Lemma used_stable k : stable (used k).
Proof. intros s s' L (x & Hx & N). destruct (later_slots _ _ L _ _ Hx) as (x' & ? & _ & _ & D & _). exists x'. auto. Qed.
Lemma owns_spare id k s : wf s -> owns id k s -> closed id s -> spare k s.
Proof.
  intros W (h & Hh & <-) (h2 & Hh2 & O). simplify_eq.
  destruct (wf_owned _ W _ _ Hh) as (x & Hx & _). split.
  - split; [|by exists x]. destruct (decide (ih_slot h < next s)) as [|G]; [done|]. apply not_lt in G.
    apply (wf_fresh _ W) in G as [_ G]. congruence.
  - intros j h' Hj E. pose proof (wf_unshared _ W _ _ _ _ Hj Hh E) as ->. by simplify_eq.
Qed.

Lemma gone_closed id s : gone id s -> closed id s.
Proof. intros (h & ? & ?). exists h. split; [done|by left]. Qed.

(** ** The cells *)

Lemma triple_atomic {A} (P : Store -> Prop) (f : Store -> Store * A) (Q : A -> Store -> Prop) : stable P ->
  (forall s, wf s -> P s -> wf (fst (f s)) /\ later s (fst (f s)) /\ Q (snd (f s)) (fst (f s))) -> triple P (atomic f) Q.
Proof.
  intros HP Hf s W X. unfold atomic.
  assert (C : same_cells s (counted 0 0 0 1 s)) by (split_and!; simpl; [done..|lia]).
  pose proof (same_cells_later _ _ C) as L1. apply (same_cells_wf _ _ C eq_refl) in W.
  pose proof (threads_later (yields s) _ W) as L2. apply (threads_wf (yields s)) in W.
  pose proof (later_trans _ _ _ L1 L2) as L. destruct (Hf _ W (HP _ _ L X)) as (W' & L' & O).
  destruct (f _) as [s' a]. simpl in *. split_and!; [done|by eapply later_trans|]. by intros ? [= <-].
Qed.

Lemma triple_read {A} (P : Store -> Prop) (g : Store -> A) :
  stable P -> triple P (atomic (fun s => (s, g s))) (fun a s => P s /\ a = g s).
Proof. intros HP. apply triple_atomic; [done|]. simpl. auto using later_refl. Qed.

Lemma with_slots_wf f k s : wf s -> spare k s ->
  (forall x, ss_expires_at (f x) = ss_expires_at x) -> wf (with_slots (alter f k) s).
Proof.
  intros [w1 w2 w3 w4] [B O] Hf. split; simpl; [|intros id h Hh|done|done].
  - intros id (? & E)%w1. split; [done|]. by apply lookup_alter_None.
  - destruct (w2 _ _ Hh) as (x & Hx & D & Y). destruct (decide (ih_slot h = k)) as [<-|].
    + rewrite lookup_alter_eq, Hx. exists (f x). rewrite Hf. split_and!; [done..|]. intros _. by apply (O _ _ Hh).
    + rewrite lookup_alter_ne by done. eauto.
Qed.

Lemma with_slots_later f k s :
  (forall x, slots s !! k = Some x -> same_slot x (f x)) -> later s (with_slots (alter f k) s).
Proof.
  intros Hf. split; simpl; eauto using same_handle_refl. intros id x Hx. destruct (decide (id = k)) as [->|].
  - rewrite lookup_alter_eq, Hx. simpl. eauto.
  - rewrite lookup_alter_ne by done. eauto using same_slot_refl.
Qed.

Lemma set_slot_same to x : to <> SLOT_LIVE -> same_slot x (set_slot_state to x).
Proof. split; [done|]. split; [by right|done]. Qed.
Lemma clear_slot_same x : ss_state x <> SLOT_LIVE -> same_slot x (clear_slot_bytes x).
Proof. split; [done|]. split; [by left|done]. Qed.

(** A slot that no handle in use depends on, and that is not in use either. *)
Definition idle (k : nat) (s : Store) : Prop := spare k s /\ used k s.

Lemma idle_stable k : stable (idle k).
Proof. apply and_stable; [apply spare_stable|apply used_stable]. Qed.

Lemma set_slot_idle k to s : to <> SLOT_LIVE -> wf s -> spare k s ->
  wf (with_slots (alter (set_slot_state to) k) s) /\ later s (with_slots (alter (set_slot_state to) k) s)
  /\ idle k (with_slots (alter (set_slot_state to) k) s).
Proof.
  intros N W X. assert (L : later s (with_slots (alter (set_slot_state to) k) s))
    by (apply with_slots_later; intros; by apply set_slot_same).
  split_and!; [by apply with_slots_wf|done|]. split; [by eapply spare_stable|]. destruct X as [[_ [x Hx]] _].
  exists (set_slot_state to x). simpl. by rewrite lookup_alter_eq, Hx.
Qed.

Lemma triple_zeroize k : triple (idle k) (zeroize_bytes k) (fun _ => idle k).
Proof.
  apply triple_atomic; [apply idle_stable|]. intros s W X. simpl.
  assert (L : later s (with_slots (alter clear_slot_bytes k) s)).
  { apply with_slots_later. intros x Hx. destruct X as [_ (y & Hy & N)]. simplify_eq. by apply clear_slot_same. }
  split_and!; [|done|by eapply idle_stable]. by apply with_slots_wf; [|apply X|].
Qed.
Lemma triple_slot_swap k to : to <> SLOT_LIVE -> triple (spare k) (slot_swap k to) (fun _ => idle k).
Proof. intros N. apply triple_atomic; [apply spare_stable|]. intros s W X. by apply set_slot_idle. Qed.

Lemma triple_slot_cas k from to : to <> SLOT_LIVE ->
  triple (spare k) (slot_cas k from to) (fun won s => spare k s /\ (won = true -> used k s)).
Proof.
  intros N. apply triple_atomic; [apply spare_stable|]. intros s W X. case_decide; simpl.
  2: { by split_and!; [|apply later_refl|..]. }
  destruct (set_slot_idle k to s N W X) as (? & ? & ? & ?). by split_and!.
Qed.

Lemma set_handle_wf to k s : to <> HANDLE_LIVE -> wf s -> wf (with_handles (alter (set_handle_state to) k) s).
Proof.
  intros N [w1 w2 w3 w4].
  assert (B : forall id h, alter (set_handle_state to) k (handles s) !! id = Some h ->
    exists h0, handles s !! id = Some h0 /\ (h = h0 \/ h = set_handle_state to h0)).
  { intros id h. destruct (decide (id = k)) as [->|].
    - rewrite lookup_alter_eq. intros (h0 & ? & E)%fmap_Some. eauto.
    - rewrite lookup_alter_ne by done. eauto. }
  split; simpl.
  - intros id (E & ?)%w1. split; [by apply lookup_alter_None|done].
  - intros id h (h0 & Hh & C)%B. destruct (w2 _ _ Hh) as (x & Hx & D & O). exists x.
    destruct C as [E|E]; rewrite E; [done|]. split_and!; [done..|]. intros _. by left.
  - intros i j h h' (h0 & Hi & C)%B (h0' & Hj & C')%B E. eapply (w3 i j h0 h0'); [done..|].
    destruct C, C'; by subst.
  - intros c e id He Hid. destruct (w4 c e id He Hid) as [h Hh]. apply lookup_alter_is_Some. by exists h.
Qed.

Lemma set_handle_later to k s : to <> HANDLE_LIVE -> later s (with_handles (alter (set_handle_state to) k) s).
Proof.
  intros N. split; simpl; [|eauto using same_slot_refl| |done|done].
  - intros id h Hh. destruct (decide (id = k)) as [->|].
    + rewrite lookup_alter_eq, Hh. exists (set_handle_state to h). split; [done|]. split; [done|]. by intros _.
    + rewrite lookup_alter_ne by done. eauto using same_handle_refl.
  - intros id h' Hh. left. apply (lookup_alter_is_Some (set_handle_state to) _ k). by exists h'.
Qed.

Lemma set_handle_gone to k s :
  to <> HANDLE_LIVE -> valid k s -> gone k (with_handles (alter (set_handle_state to) k) s).
Proof. intros N [h Hh]. exists (set_handle_state to h). simpl. by rewrite lookup_alter_eq, Hh. Qed.

Lemma triple_handle_swap k to : to <> HANDLE_LIVE -> triple (valid k) (handle_swap k to) (fun _ => gone k).
Proof.
  intros N. apply triple_atomic; [apply valid_stable|]. intros s W X. simpl.
  auto using set_handle_wf, set_handle_later, set_handle_gone.
Qed.

Lemma valid_of k s : valid k s -> handles s !! k = Some (handle_of s k).
Proof. intros [h Hh]. unfold handle_of. by rewrite Hh. Qed.

(** An exchange leaves the handle closed whether it wins or finds it closed. *)
Lemma triple_handle_cas k to :
  to <> HANDLE_LIVE -> triple (valid k) (handle_cas k HANDLE_LIVE to) (fun _ => gone k).
Proof.
  intros N. apply triple_atomic; [apply valid_stable|]. intros s W X. case_decide as E; simpl.
  - auto using set_handle_wf, set_handle_later, set_handle_gone.
  - split_and!; [done|apply later_refl|]. exists (handle_of s k). split; [by apply valid_of|done].
Qed.

(** ** Slots and handles *)

Definition allocated (k : nat) (s : Store) : Prop := is_Some (slots s !! k).
Definition shown (t : Z) (s : Store) : Prop := exists i, i < ticks s /\ t = clock i.

Lemma allocated_stable k : stable (allocated k).
Proof. intros s s' L [x (x' & ? & _)%(later_slots _ _ L)]. by exists x'. Qed.
Lemma allocated_below k s : wf s -> allocated k s -> k < next s.
Proof.
  intros W [x Hx]. destruct (decide (k < next s)) as [|G]; [done|]. apply not_lt, (wf_fresh _ W) in G as [_ G].
  congruence.
Qed.
Definition slot_like (k : nat) (x : SecretSlot) (s : Store) : Prop :=
  exists x', slots s !! k = Some x' /\ slot_core x' = slot_core x.
Lemma slot_like_stable k x : stable (slot_like k x).
Proof.
  intros s s' L (x' & Hx & E). destruct (later_slots _ _ L _ _ Hx) as (x'' & ? & E' & _). exists x''.
  split; [done|congruence].
Qed.
Lemma shown_stable t : stable (shown t).
Proof. intros s s' L (i & ? & ?). pose proof (later_ticks _ _ L). exists i. split; [lia|done]. Qed.

Lemma triple_now P : stable P -> triple P now (fun t s => P s /\ shown t s).
Proof.
  intros HP s W X. destruct (triple_counted P (fun s => Ok (clock (ticks s))) 1 0 0 0 HP s W X) as (W' & L & _).
  split_and!; [done..|]. intros a [= <-]. split; [by eapply HP|]. exists (ticks s). simpl. split; [lia|done].
Qed.

Lemma triple_get_handle (P : Store -> Prop) id : (forall s, P s -> valid id s) ->
  triple P (get_handle id) (fun h s => P s /\ handles s !! id = Some h).
Proof.
  intros HP s W X. split; [done|]. split; [apply later_refl|]. intros a [= <-]. auto using valid_of.
Qed.

Lemma triple_slot_revoke k : triple (spare k) (slot_revoke k) (fun _ => idle k).
Proof.
  eapply triple_bind; [by apply triple_slot_swap|]. intros previous. case_decide.
  - apply (triple_ret (fun _ => idle k)).
  - apply triple_zeroize.
Qed.

(** Closing a handle and giving up its slot. *)
Lemma closing_stable id k : stable (fun s => gone id s /\ owns id k s).
Proof. apply and_stable; [apply gone_stable|apply owns_stable]. Qed.

Lemma triple_revoke_owned id k : triple (fun s => gone id s /\ owns id k s) (slot_revoke k) (fun _ => gone id).
Proof.
  eapply triple_frame; [apply triple_slot_revoke|apply (closing_stable id k)| |]; simpl; [|naive_solver].
  intros s W [G O]. split; [|done]. eapply owns_spare; eauto using gone_closed.
Qed.

(** A step that closes the handle [h], which its slot then follows. *)
Lemma triple_closing {A} id h (m : M A) (k : A -> M unit) :
  triple (valid id) m (fun _ => gone id) -> 
  (forall a, k a = slot_revoke (ih_slot h) \/ k a = fs_ret tt \/ exists e, k a = fs_fail e) ->
  triple (fun s => valid id s /\ handles s !! id = Some h) (fs_bind m k) (fun _ => gone id).
Proof.
  intros Hm Hk. eapply triple_bind with (Q := fun _ s => gone id s /\ owns id (ih_slot h) s).
  - eapply triple_frame; [apply Hm|apply (owns_stable id (ih_slot h))| |]; simpl; [|done].
    intros s W [? E]. split; [done|]. by exists h.
  - intros a. destruct (Hk a) as [-> |[-> |[e ->]]]; [apply triple_revoke_owned| |apply triple_fail].
    eapply triple_conseq; [apply (triple_ret (fun _ s => gone id s /\ owns id (ih_slot h) s))|..]; naive_solver.
Qed.

Lemma triple_mark_revoked id : triple (valid id) (mark_revoked id) (fun _ => gone id).
Proof.
  eapply triple_bind; [by apply triple_get_handle|]. intros h.
  apply triple_closing; [by apply triple_handle_swap|]. intros a. destruct (_ || _); auto.
Qed.

Lemma triple_mark_expired id : triple (valid id) (mark_expired id) (fun _ => gone id).
Proof.
  eapply triple_bind; [by apply triple_get_handle|]. intros h.
  apply triple_closing; [by apply triple_handle_cas|]. intros []; auto.
Qed.

Lemma gone_valid id s : gone id s -> valid id s.
Proof. intros (h & ? & _). by exists h. Qed.

Lemma triple_is_time_expired id :
  triple (valid id) (is_time_expired id) (fun expired s => valid id s /\ (expired = true -> closed id s)).
Proof.
  intros s W X. destruct (triple_counted (valid id) (fun s => Ok tt) 1 0 0 0 (valid_stable id) s W X) as (W' & L & _).
  split_and!; [done..|]. intros a [= <-]. split; [done|]. intros E%Z.leb_le. exists (handle_of s id).
  split; [exact (valid_of id s X)|]. right. exists (ticks s). split; [simpl; lia|done].
Qed.

Lemma triple_handle_load id : triple (valid id) (handle_load id) (fun st s => valid id s /\ (st <> HANDLE_LIVE -> gone id s)).
Proof.
  eapply triple_conseq; [apply triple_read, (valid_stable id)|done|]. simpl. intros a s W [V ->]. split; [done|].
  intros N. exists (handle_of s id). split; [by apply valid_of|done].
Qed.

Lemma keeps_get_handle P id : keeps P (get_handle id).
Proof. intros s W X. split; [done|]. split; [apply later_refl|done]. Qed.
Lemma keeps_get_slot P id : keeps P (get_slot id).
Proof. intros s W X. split; [done|]. split; [apply later_refl|done]. Qed.
Lemma keeps_now P : stable P -> keeps P now.
Proof. intros. by apply triple_counted. Qed.
Lemma keeps_io P : stable P -> keeps P io.
Proof. intros. by apply triple_counted. Qed.
Lemma keeps_mutation_guard P g : stable P -> keeps P (check_mutation_guard g).
Proof. intros. destruct g; [by apply triple_counted|apply triple_pure]. Qed.
Lemma keeps_read {A} P (g : Store -> A) : stable P -> keeps P (atomic (fun s => (s, g s))).
Proof. intros. eapply triple_conseq; [by apply triple_read|done|]. by intros a s W [? _]. Qed.

Definition needs (id : nat) (P : Store -> Prop) : Prop := stable P /\ forall s, P s -> valid id s.

Lemma keeps_mark_revoked P id : needs id P -> keeps P (mark_revoked id).
Proof. intros [HP HV]. eapply keeps_of; [apply triple_mark_revoked|done|auto]. Qed.
Lemma keeps_mark_expired P id : needs id P -> keeps P (mark_expired id).
Proof. intros [HP HV]. eapply keeps_of; [apply triple_mark_expired|done|auto]. Qed.
Lemma keeps_is_time_expired P id : needs id P -> keeps P (is_time_expired id).
Proof. intros [HP HV]. eapply keeps_of; [apply triple_is_time_expired|done|auto]. Qed.
Lemma keeps_handle_load P id : stable P -> keeps P (handle_load id).
Proof. apply keeps_read. Qed.

#[local] Hint Resolve keeps_get_handle keeps_get_slot
  keeps_now keeps_io keeps_mutation_guard keeps_read keeps_mark_revoked keeps_mark_expired keeps_is_time_expired
  keeps_handle_load : keeps.

Lemma keeps_is_inflight P id : needs id P -> keeps P (is_inflight id).
Proof. intros N. pose proof (proj1 N). unfold is_inflight. keeping. Qed.

Lemma keeps_is_terminal P id : needs id P -> keeps P (handle_is_terminal id).
Proof. intros N. pose proof (proj1 N). unfold handle_is_terminal. keeping. Qed.

(** A closed handle's slot may be given up again. *)
Lemma triple_revoke_closed id h : triple (fun s => gone id s /\ handles s !! id = Some h) (slot_revoke (ih_slot h)) (fun _ => gone id).
Proof.
  eapply triple_conseq; [apply (triple_revoke_owned id (ih_slot h))| |done]. intros s W [? ?]. split; [done|]. by exists h.
Qed.

Lemma triple_check_live id : triple (valid id) (check_live id) (fun _ => valid id).
Proof.
  eapply triple_bind; [by apply triple_get_handle|]. intros h.
  eapply triple_bind with (Q := fun st s => (valid id s /\ (st <> HANDLE_LIVE -> gone id s)) /\ owns id (ih_slot h) s).
  - eapply triple_frame; [apply triple_handle_load|apply (owns_stable id (ih_slot h))| |]; simpl; [|done].
    intros s W [? E]. split; [done|]. by exists h.
  - intros []; [|apply triple_fail| |apply triple_fail].
    + eapply triple_bind with (Q := fun _ => valid id).
      * eapply triple_conseq; [apply triple_is_time_expired|naive_solver|naive_solver].
      * intros []; [|apply keeps_ret]. eapply triple_bind; [apply triple_mark_expired|]. intros. apply triple_fail.
    + eapply triple_bind with (Q := fun _ => gone id); [|intros; apply triple_fail].
      eapply triple_conseq; [apply (triple_revoke_owned id (ih_slot h))| |done]. naive_solver.
Qed.

(** A handle that passes is neither closed nor past its deadline. *)
Lemma check_live_open id s s' : wf s -> valid id s -> check_live id s = (s', Ok tt) -> ~ closed id s.
Proof.
  intros W V E C. unfold check_live, fs_bind at 1, get_handle in E.
  apply fs_bind_done in E as (s1 & st & E1 & E2).
  destruct (triple_read (valid id) (fun s => ih_state (handle_of s id)) (valid_stable id) s W V) as (W1 & L1 & Q1).
  unfold handle_load in E1. rewrite E1 in W1, L1, Q1. destruct (Q1 _ eq_refl) as [V1 G1].
  apply (closed_stable _ _ _ L1) in C as (h & Hh & O).
  destruct st; [|done|by apply fs_bind_done in E2 as (? & ? & _ & [=])|done].
  apply fs_bind_done in E2 as (s2 & [] & E2 & E3); [by apply fs_bind_done in E3 as (? & ? & _ & [=])|].
  injection E2 as <- N%Z.leb_gt. simpl in *. unfold handle_of in N, G1. rewrite Hh in N, G1. simpl in *.
  destruct O as [D|(t & Ht & D)]; [by symmetry in G1|]. assert (clock t <= clock (ticks s1))%Z by (apply clock_monotone; lia).
  lia.
Qed.

Lemma triple_consume_live id : triple (valid id) (consume_live id) (fun _ => gone id).
Proof.
  eapply triple_bind; [apply triple_check_live|]. intros ?.
  eapply triple_bind; [by apply triple_get_handle|]. intros h.
  apply triple_closing; [by apply triple_handle_cas|]. intros []; [by left|right; right; by eexists].
Qed.

Lemma handle_cas_wins id to s s' : wf s -> handle_cas id HANDLE_LIVE to s = (s', Ok true) ->
  exists s1, later s s1 /\ wf s1 /\ ih_state (handle_of s1 id) = HANDLE_LIVE
    /\ s' = with_handles (alter (set_handle_state to) id) s1.
Proof.
  intros W E. destruct (triple_read always (fun _ => tt) always_stable s W I) as (W1 & L1 & _).
  unfold handle_cas, atomic in *. simpl in *. case_decide as D; simplify_eq. eauto.
Qed.

(** The call that succeeds makes the one transition of the handle from live to
    used. *)
Definition wins (id : nat) (s s' : Store) : Prop := exists s1,
  later s s1 /\ valid id s1 /\ ~ gone id s1 /\ later (with_handles (alter (set_handle_state HANDLE_USED) id) s1) s'.

Lemma consume_live_wins id s s' :
  wf s -> valid id s -> consume_live id s = (s', Ok tt) -> ~ closed id s /\ wins id s s'.
Proof.
  intros W V E. pose proof E as (s1 & [] & E1 & E2)%fs_bind_done. split; [by eapply check_live_open|].
  destruct (triple_check_live id s W V) as (W1 & L1 & Q1). rewrite E1 in W1, L1, Q1. specialize (Q1 _ eq_refl).
  simpl in *. unfold fs_bind at 1, get_handle in E2. apply fs_bind_done in E2 as (s2 & won & E2 & E3).
  apply fs_bind_done in E3 as (s3 & [] & [-> ->]%fs_guard_done & E3).
  pose proof E2 as (sc & Lc & Wc & Live & ->)%handle_cas_wins; [|done].
  assert (Vc : valid id sc) by by eapply valid_stable. exists sc. split_and!; [by eapply later_trans|done| |].
  - intros (h & Hh & D). unfold handle_of in Live. by rewrite Hh in Live.
  - destruct (triple_revoke_owned id (ih_slot (handle_of s1 id)) (with_handles (alter (set_handle_state HANDLE_USED) id) sc))
      as (_ & L3 & _); [by apply set_handle_wf| |by rewrite E3 in L3].
    split; [by apply set_handle_gone|]. eapply owns_stable; [by apply set_handle_later|]. eapply owns_stable; [done|].
    exists (handle_of s1 id). split; [by apply valid_of|done].
Qed.

Lemma valid_not_over id s : valid id s -> ~ closed id s -> ih_state (handle_of s id) = HANDLE_LIVE.
Proof.
  intros V N. destruct (decide (ih_state (handle_of s id) = HANDLE_LIVE)) as [|D]; [done|]. destruct N.
  exists (handle_of s id). split; [by apply valid_of|by left].
Qed.

(** *** Slots *)

Lemma due_spare k x t s : wf s -> slot_like k x s -> shown t s -> (ss_expires_at x <= t)%Z -> spare k s.
Proof.
  intros W (x' & Hx & E) (i & Hi & ->) D. apply (f_equal ss_expires_at) in E. simpl in E.
  split; [split; [apply (allocated_below _ _ W)|]; by exists x'|].
  intros id h Hh <-. destruct (wf_owned _ W _ _ Hh) as (y & Hy & B & _). simplify_eq. right. exists i.
  split; [done|lia].
Qed.

Lemma expired_idle k s : wf s -> allocated k s -> ss_state (slot_of s k) = SLOT_EXPIRED -> idle k s.
Proof.
  intros W A E. split; [split; [split; [by apply allocated_below|done]|]|]; destruct A as [x Hx];
    unfold slot_of in E; rewrite Hx in E; [|exists x; simpl in E; by rewrite E].
  intros id h Hh <-. destruct (wf_owned _ W _ _ Hh) as (y & Hy & _ & O). simplify_eq. auto.
Qed.

Lemma triple_slot_mark_expired k : triple (spare k) (slot_mark_expired k) (fun _ => spare k).
Proof.
  eapply triple_bind; [by apply triple_slot_cas|]. intros [].
  - eapply triple_conseq; [apply (triple_zeroize k)| |by intros ??? [? _]].
    intros s W [? U]. split; auto.
  - eapply triple_conseq; [apply (keeps_ret (spare k))|by intros s W [? _]|done].
Qed.

Lemma triple_expire_if_due k : triple (allocated k) (expire_if_due k) (fun _ => allocated k).
Proof.
  eapply triple_bind with (Q := fun x s => allocated k s /\ slot_like k x s).
  { intros s W A. split; [done|]. split; [apply later_refl|]. intros x [= <-]. split; [done|].
    destruct A as [x Hx]. unfold slot_of. exists x. by rewrite Hx. }
  intros x. assert (ST : stable (fun s => allocated k s /\ slot_like k x s))
    by (apply and_stable; [apply allocated_stable|apply slot_like_stable]).
  eapply triple_bind; [by apply triple_read|]. intros st. case_decide as D.
  - eapply triple_bind; [|intros; apply triple_fail].
    eapply triple_conseq; [apply triple_zeroize| |done]. intros s W ([? _] & ->). by apply expired_idle.
  - eapply triple_bind; [eapply triple_conseq; [by apply (triple_now _ ST)|naive_solver|by intros ??? X; exact X]|].
    intros t. destruct (ss_expires_at x <=? t)%Z eqn:E.
    + eapply triple_bind; [|intros; apply triple_fail].
      eapply triple_conseq; [apply triple_slot_mark_expired| |done]. intros s W ([_ ?] & ?).
      apply Z.leb_le in E. by eapply due_spare.
    + eapply triple_conseq; [apply (keeps_ret (allocated k))| |done]. by intros s W ([? _] & _).
Qed.

Lemma keeps_expire_if_due P k : stable P -> (forall s, P s -> allocated k s) -> keeps P (expire_if_due k).
Proof. intros HP HA. eapply keeps_of; [apply triple_expire_if_due|done|auto]. Qed.

Definition uses (k : nat) (P : Store -> Prop) : Prop := stable P /\ forall s, P s -> allocated k s.

Lemma keeps_validate_for_request P k kind id g p r : uses k P -> keeps P (validate_for_request k kind id g p r).
Proof.
  intros [HP HA]. unfold validate_for_request, slot_load, slot_bytes.
  apply keeps_bind; [by apply keeps_expire_if_due|]. intros. keeping.
Qed.

Lemma keeps_snapshot_text P k kind id g p r : uses k P -> keeps P (snapshot_text k kind id g p r).
Proof.
  intros [HP HA]. unfold snapshot_text, slot_bytes. apply keeps_bind; [by apply keeps_validate_for_request|].
  intros. keeping.
Qed.

Lemma keeps_slot_consume P k :
  uses k P -> (forall s, wf s -> P s -> spare k s) -> keeps P (slot_consume k).
Proof.
  intros [HP HA] HS. unfold slot_consume. apply keeps_bind; [by apply keeps_expire_if_due|]. intros.
  apply keeps_bind; [apply keeps_get_slot|]. intros.
  apply triple_bind with (Q := fun won s => P s /\ (won = true -> used k s)).
  { eapply triple_frame; [by apply triple_slot_cas|exact HP|auto|]. naive_solver. }
  intros won. eapply triple_bind; [apply (triple_guard_true (fun s => P s /\ (won = true -> used k s)))|]. intros [].
  eapply triple_frame; [apply triple_zeroize|exact HP| |done]. intros s W [[X U] G]. split; [split|]; auto.
Qed.

(** ** The registry *)

Definition all_valid (ids : list nat) (s : Store) : Prop := forall id, id ∈ ids -> valid id s.
Definition entry_valid (e : IssuedHandleSet) (s : Store) : Prop := forall id, members e id -> valid id s.

Lemma all_valid_stable ids : stable (all_valid ids).
Proof. intros s s' L V id Hid. eapply valid_stable; [done|auto]. Qed.
Lemma entry_valid_stable e : stable (entry_valid e).
Proof. intros s s' L V id Hid. eapply valid_stable; [done|auto]. Qed.

Lemma needs_in id P : stable P -> (forall s, P s -> valid id s) -> needs id P.
Proof. by split. Qed.

Lemma keeps_expire_due ids : forall P, stable P -> (forall s, P s -> all_valid ids s) -> keeps P (expire_due ids).
Proof.
  induction ids as [|id ids IH]; intros P HP HV; simpl; [apply keeps_ret|].
  assert (N : needs id P) by (split; [done|]; intros s X; apply (HV s X); set_solver).
  keeping. all: apply IH; [done|]; intros s X j Hj; apply (HV s X); set_solver.
Qed.

Lemma triple_retain ids : forall P, stable P -> (forall s, P s -> all_valid ids s) ->
  triple P (retain_inflight ids) (fun l s => P s /\ l ⊆ ids).
Proof.
  induction ids as [|id ids IH]; intros P HP HV; simpl.
  - eapply triple_conseq; [apply (triple_ret (fun l s => P s /\ l ⊆ []))|naive_solver|done].
  - assert (N : needs id P) by (split; [done|]; intros s X; apply (HV s X); set_solver).
    apply triple_bind_keep; [by apply keeps_is_inflight|]. intros keep.
    eapply triple_bind; [apply IH; [done|]; intros s X j Hj; apply (HV s X); set_solver|]. intros l. simpl.
    eapply triple_conseq; [apply (triple_ret (fun l s => P s /\ l ⊆ id :: ids))| |done].
    intros s W [? ?]. split; [done|]. destruct keep; set_solver.
Qed.

Lemma triple_sweep_entry e P : stable P -> (forall s, P s -> entry_valid e s) ->
  triple P (sweep_entry e) (fun e' s => P s /\ entry_valid e' s).
Proof.
  intros HP HV. assert (HA : forall s, P s -> all_valid (hs_access e) s).
  { intros s X id Hid. apply (HV s X). by left. }
  unfold sweep_entry. apply triple_bind_keep; [by apply keeps_expire_due|]. intros [].
  eapply triple_bind; [by apply triple_retain|]. intros access. simpl.
  assert (HP' : stable (fun s => P s /\ access ⊆ hs_access e)) by (apply and_stable; [done|apply pure_stable]).
  assert (HQ : forall s r, P s -> access ⊆ hs_access e -> (r = None \/ r = hs_refresh e) ->
    P s /\ entry_valid {| hs_access := access; hs_refresh := r |} s).
  { intros s r X A R. split; [done|]. intros id [Hid|Hr]; apply (HV s X); [left; set_solver|right].
    destruct R; simpl in *; congruence. }
  destruct (hs_refresh e) as [id|] eqn:R; [|eapply triple_conseq; [apply (triple_ret (fun e' s => P s /\ entry_valid e' s))|
    naive_solver|done]].
  assert (N : needs id (fun s => P s /\ access ⊆ hs_access e)).
  { split; [done|]. intros s [X _]. apply (HV s X). by right. }
  apply triple_bind_keep; [by apply keeps_is_time_expired|]. intros expired.
  apply triple_bind_keep; [destruct expired; [by apply keeps_mark_expired|apply keeps_ret]|]. intros [].
  apply triple_bind_keep; [by apply keeps_is_inflight|]. intros keep.
  eapply triple_conseq; [apply (triple_ret (fun e' s => P s /\ entry_valid e' s))| |done].
  intros s W [X A]. apply HQ; [done..|]. destruct keep; auto.
Qed.

Lemma with_registry_wf f s : wf s -> (forall c e, f (handle_registry s) !! c = Some e -> entry_valid e s) ->
  wf (with_registry f s).
Proof. intros [w1 w2 w3 w4] E. split; simpl; [done..|]. intros c e id He. by apply (E c e). Qed.

Lemma with_registry_later f s : later s (with_registry f s).
Proof. by apply same_cells_later. Qed.

Lemma keeps_registry {A} P f (a : A) : stable P ->
  (forall s, wf s -> P s -> forall c e, f s (handle_registry s) !! c = Some e -> entry_valid e s) ->
  keeps (E := AuthStoreError) P (fun s => (with_registry (f s) s, Ok a)).
Proof.
  intros HP E s W X. pose proof (with_registry_later (f s) s). simpl. split_and!; [|done|eauto].
  apply with_registry_wf; eauto.
Qed.

Lemma wf_entry c e s : wf s -> handle_registry s !! c = Some e -> entry_valid e s.
Proof. intros W He id. by apply (wf_registry _ W c e). Qed.

Lemma entry_of_valid c s : wf s -> entry_valid (entry_of s c) s.
Proof.
  intros W. unfold entry_of. destruct (_ !! c) as [e|] eqn:E; [by eapply wf_entry|].
  intros id [?|?]; [set_solver|done].
Qed.

Lemma keeps_set_entry P c e : stable P -> (forall s, P s -> entry_valid e s) -> keeps P (set_entry c e).
Proof.
  intros HP HV. apply (keeps_registry P (fun _ => insert c e) tt HP). intros s W X c' e' [[<- <-]|[_ ?]]%lookup_insert_Some.
  - auto.
  - by eapply wf_entry.
Qed.

Lemma keeps_put_entry P c e : stable P -> (forall s, P s -> entry_valid e s) -> keeps P (put_entry c e).
Proof.
  intros HP HV. unfold put_entry. destruct (set_is_empty e); [|by apply keeps_set_entry].
  apply (keeps_registry P (fun _ => delete c) tt HP). intros s W X c' e' [_ ?]%lookup_delete_Some. by eapply wf_entry.
Qed.

Lemma keeps_sweep_entries entries : forall P, stable P ->
  (forall s, P s -> forall c e, (c, e) ∈ entries -> entry_valid e s) -> keeps P (sweep_entries entries).
Proof.
  induction entries as [|[c e] entries IH]; intros P HP HV; simpl; [apply keeps_ret|].
  eapply triple_bind; [apply triple_sweep_entry; [done|]; intros s X; apply (HV s X c e); set_solver|]. intros e'. simpl.
  assert (ST : stable (fun s => P s /\ entry_valid e' s)) by (apply and_stable; [done|apply entry_valid_stable]).
  apply triple_bind_keep; [apply keeps_put_entry; [done|]; by intros s [_ ?]|]. intros [].
  eapply triple_frame; [apply (IH P)|apply (pure_stable True)| |naive_solver]; [done| |naive_solver].
  intros s X c' e'' Hin. apply (HV s X c' e''). set_solver.
Qed.

Lemma keeps_sweep_expired P : stable P -> keeps P sweep_expired.
Proof.
  intros HP s W X. set (l := map_to_list (handle_registry s)).
  assert (V : forall c e, (c, e) ∈ l -> entry_valid e s).
  { intros c e Hin%elem_of_map_to_list. by eapply wf_entry. }
  assert (ST : stable (fun s => P s /\ forall c e, (c, e) ∈ l -> entry_valid e s)).
  { apply and_stable; [done|]. intros s1 s2 L A c e Hin. eapply entry_valid_stable; [done|]. by eapply A. }
  destruct (keeps_sweep_entries l _ ST ltac:(naive_solver) s W (conj X V)) as (? & ? & Q). unfold sweep_expired.
  split_and!; [done..|]. intros a E. by destruct (Q a E).
Qed.

Lemma triple_get_entry P c : triple P (get_entry c) (fun e s => P s /\ entry_valid e s).
Proof.
  intros s W X. split; [done|]. split; [apply later_refl|]. intros a [= <-]. split; [done|]. by apply entry_of_valid.
Qed.

Lemma entry_valid_access a r b s : entry_valid {| hs_access := a; hs_refresh := r |} s -> all_valid b s ->
  entry_valid {| hs_access := a ++ b; hs_refresh := r |} s.
Proof.
  intros V B id [[?|?]%elem_of_app|?]; [apply V; by left|auto|apply V; by right].
Qed.

Lemma keeps_register P id : needs id P -> keeps P (register id).
Proof.
  intros [HP HV]. unfold register. apply keeps_bind; [by apply keeps_sweep_expired|]. intros _.
  apply keeps_bind; [apply keeps_get_handle|]. intros h.
  eapply triple_bind; [apply triple_get_entry|]. intros e. simpl.
  assert (ST : stable (fun s => P s /\ entry_valid e s)) by (apply and_stable; [done|apply entry_valid_stable]).
  assert (OUT : forall m : M unit, keeps (fun s => P s /\ entry_valid e s) m ->
    triple (fun s => P s /\ entry_valid e s) m (fun _ => P)).
  { intros m Hm. eapply triple_conseq; [apply Hm|done|naive_solver]. }
  apply OUT. destruct e as [a r]. destruct (ih_kind h); simpl.
  - apply keeps_set_entry; [done|]. intros s [X V]. apply entry_valid_access; [done|].
    intros j ->%list_elem_of_singleton. auto.
  - apply keeps_bind; [|intros _; apply keeps_set_entry; [done|]; intros s [X V] j [?|[= <-]]; [apply V; by left|auto]].
    destruct r as [existing|]; [|apply keeps_ret].
    assert (N : needs existing (fun s => P s /\ entry_valid {| hs_access := a; hs_refresh := Some existing |} s)).
    { split; [done|]. intros s [_ V]. apply V. by right. }
    apply keeps_bind; [by apply keeps_is_inflight|]. intros [].
    + apply keeps_bind; [apply keeps_get_handle|]. intros.
      apply keeps_bind; [apply keeps_set_entry; [done|naive_solver]|]. intros. apply keeps_fail.
    + by apply keeps_mark_revoked.
Qed.

Lemma keeps_unregister P id : stable P -> keeps P (unregister id).
Proof.
  intros HP s W X. unfold unregister. destruct (_ !! _) as [e|] eqn:E; [|apply (triple_pure P (Ok tt)); done].
  set (e' := match ih_kind _ with Access => _ | Refresh => _ end).
  assert (V : entry_valid e' s).
  { intros j Hj. eapply wf_entry; [done..|]. unfold e', members in *. destruct (ih_kind _); simpl in *.
    - destruct Hj as [[_ ?]%list_elem_of_filter|?]; auto.
    - case_decide; naive_solver. }
  assert (ST : stable (fun s => P s /\ entry_valid e' s)) by (apply and_stable; [done|apply entry_valid_stable]).
  destruct (keeps_put_entry _ (ih_credential_id (handle_of s id)) e' ST ltac:(naive_solver) s W (conj X V)) as (? & ? & Q).
  split_and!; [done..|]. intros a Ha. by destruct (Q a Ha).
Qed.

Lemma keeps_locked_registry {A} P (m : M A) : stable P -> keeps P m -> keeps P (locked_registry m).
Proof. intros HP Hm. apply keeps_bind; [by apply keeps_read|]. done. Qed.

Lemma keeps_mark_all ids : forall P, stable P -> (forall s, P s -> all_valid ids s) -> keeps P (mark_all_revoked ids).
Proof.
  induction ids as [|id ids IH]; intros P HP HV; simpl; [apply keeps_ret|].
  apply keeps_bind; [apply keeps_mark_revoked; split; [done|]; intros s X; apply (HV s X); set_solver|]. intros [].
  apply IH; [done|]. intros s X j Hj. apply (HV s X). set_solver.
Qed.

Lemma triple_revoke_credential P c :
  stable P -> triple P (locked_registry (revoke_credential c)) (fun e s => P s /\ entry_valid e s).
Proof.
  intros HP. eapply triple_bind; [by apply keeps_read|]. intros _ s W X. unfold revoke_credential. simpl.
  pose proof (with_registry_later (delete c) s) as L. split_and!; [|done|].
  - apply with_registry_wf; [done|]. intros c' e' [_ ?]%lookup_delete_Some. by eapply wf_entry.
  - intros a [= <-]. split; [eauto|]. apply (entry_valid_stable _ s); [done|by apply entry_of_valid].
Qed.

Lemma keeps_revoke_issued P c : stable P -> keeps P (revoke_issued_handles c).
Proof.
  intros HP. eapply triple_bind; [by apply triple_revoke_credential|]. intros e. simpl.
  assert (ST : stable (fun s => P s /\ entry_valid e s)) by (apply and_stable; [done|apply entry_valid_stable]).
  eapply triple_conseq with (P' := fun s => P s /\ entry_valid e s) (Q' := fun _ s => P s /\ entry_valid e s); [|done|naive_solver].
  apply keeps_bind; [apply keeps_mark_all; [done|]; intros s [_ V] id ?; apply V; by left|]. intros [].
  destruct (hs_refresh e) as [id|] eqn:R; [|apply keeps_ret].
  apply keeps_mark_revoked. split; [done|]. intros s [_ V]. apply V. by right.
Qed.

(** ** The file and the locks *)

Lemma keeps_same_cells {A} P (m : M A) : stable P ->
  (forall s, same_cells s (fst (m s)) /\ handle_registry (fst (m s)) = handle_registry s) -> keeps P m.
Proof.
  intros HP Hm s W X. destruct (Hm s) as [C R]. pose proof (same_cells_later _ _ C). split_and!; [|done|eauto].
  by eapply same_cells_wf.
Qed.

Lemma keeps_acquire P : stable P -> keeps P acquire.
Proof. intros HP. exact (keeps_read P (fun _ => tt) HP). Qed.

Lemma keeps_holding {A} P (m : M A) : stable P -> keeps P m -> keeps P (holding m).
Proof.
  intros HP Hm s W X. unfold holding. set (s1 := with_file_locked true s).
  assert (C1 : same_cells s s1) by by split_and!. pose proof (same_cells_later _ _ C1) as L1.
  pose proof (same_cells_wf _ _ C1 eq_refl W) as W1. destruct (Hm s1 W1 (HP _ _ L1 X)) as (W2 & L2 & Q).
  destruct (m s1) as [s2 r]. simpl in *. set (s3 := with_file_locked false s2).
  assert (C3 : same_cells s2 s3) by by split_and!. pose proof (same_cells_later _ _ C3) as L3.
  pose proof (same_cells_wf _ _ C3 eq_refl W2) as W3. split_and!; [done|eauto using later_trans|].
  intros a E. eapply HP; [done|]. by eapply Q.
Qed.

Lemma keeps_atomic_write P bytes g : stable P -> keeps P (atomic_write bytes g).
Proof.
  intros HP. unfold atomic_write. keeping. apply keeps_same_cells; [done|]. intros s. by split_and!.
Qed.

Lemma keeps_load_locked P : stable P -> keeps P load_locked.
Proof.
  intros HP. unfold load_locked. apply keeps_bind; [by apply keeps_io|]. intros _.
  apply keeps_bind; [by intros s W X; split_and!; [|apply later_refl|]|]. intros []; keeping.
Qed.

Lemma keeps_save_locked P d g : stable P -> keeps P (save_locked d g).
Proof.
  intros HP. unfold save_locked. keeping. by apply keeps_atomic_write.
Qed.

Lemma keeps_try_lock P g n : stable P -> keeps P (try_lock g n).
Proof.
  intros HP. induction n as [|n IH]; simpl; (apply keeps_bind; [by apply keeps_mutation_guard|]); intros; [by apply keeps_acquire|done].
Qed.

Lemma keeps_at {A} P (m : Store -> M A) : (forall s, keeps P (m s)) -> keeps P (fun s => m s s).
Proof. intros Hm s. apply Hm. Qed.

Lemma keeps_with_process_lock {A} P (m : M A) : stable P -> keeps P m -> keeps P (with_process_lock m).
Proof. intros HP Hm. apply keeps_bind; [by apply keeps_acquire|done]. Qed.
Lemma keeps_with_file_lock {A} P (m : M A) : stable P -> keeps P m -> keeps P (with_file_lock m).
Proof.
  intros HP Hm. apply keeps_bind; [by apply keeps_io|]. intros. apply keeps_bind; [by apply keeps_acquire|].
  intros. by apply keeps_holding.
Qed.
Lemma keeps_with_mutation_process_lock {A} P g (m : M A) : stable P -> keeps P m -> keeps P (with_mutation_process_lock g m).
Proof.
  intros HP Hm. destruct g as [c|]; [|by apply keeps_with_process_lock].
  apply keeps_bind; [apply (keeps_at P (fun s => try_lock (Some c) (lock_waits (yields s)))); intros; by apply keeps_try_lock|].
  intros. by apply keeps_bind; [apply keeps_mutation_guard|].
Qed.
Lemma keeps_with_mutation_file_lock {A} P g (m : M A) : stable P -> keeps P m -> keeps P (with_mutation_file_lock g m).
Proof.
  intros HP Hm. apply keeps_bind; [by apply keeps_mutation_guard|]. intros. destruct g as [c|]; [|by apply keeps_with_file_lock].
  apply keeps_bind; [by apply keeps_mutation_guard|]. intros. apply keeps_bind; [by apply keeps_io|]. intros.
  apply keeps_bind; [apply (keeps_at P (fun s => try_lock (Some c) (lock_waits (yields s)))); intros; by apply keeps_try_lock|].
  intros. apply keeps_holding; [done|]. apply keeps_bind; [by apply keeps_mutation_guard|]. intros.
  by apply keeps_bind; [apply keeps_mutation_guard|].
Qed.

(** ** Issuing *)

Definition bounded (expires_at : Z) (s : Store) : Prop := exists t, shown t s /\ (expires_at <= t + SECRET_SLOT_TTL)%Z.

Lemma triple_handle_deadline P kind expires_at_ms deadline : stable P ->
  triple P (handle_deadline kind expires_at_ms deadline) (fun e s => P s /\ bounded e s).
Proof.
  intros HP. eapply triple_bind; [by apply triple_now|]. intros t. simpl.
  assert (ST : stable (fun s => P s /\ shown t s)) by (apply and_stable; [done|apply shown_stable]).
  assert (K : forall e, (e <= t + SECRET_SLOT_TTL)%Z ->
    triple (E := AuthStoreError) (fun s => P s /\ shown t s) (fs_ret e) (fun e s => P s /\ bounded e s)).
  { intros e He. eapply triple_conseq; [apply (triple_ret (fun e s => P s /\ bounded e s))| |done].
    intros s W [? ?]. split; [done|]. by exists t. }
  destruct kind.
  - apply triple_bind_keep; [by apply triple_counted|]. intros. apply K. unfold ACCESS_HANDLE_TTL, SECRET_SLOT_TTL. lia.
  - apply K. unfold REFRESH_HANDLE_TTL, SECRET_SLOT_TTL, seconds. lia.
Qed.

(** A slot and a handle on it, both new. *)
Definition issued_cells (x : SecretSlot) (h : IssuedHandle) (s : Store) : Store :=
  with_next S (with_handles (insert (S (next s)) h) (with_next S (with_slots (insert (next s) x) (counted 1 0 0 0 s)))).

Lemma issued_cells_later x h s : wf s -> ih_slot h = next s -> later s (issued_cells x h s).
Proof.
  intros W E. split; simpl; [| | |lia|lia].
  - intros id k Hk. exists k. split; [|apply same_handle_refl]. apply lookup_insert_Some. right. split; [|done].
    intros <-. destruct (wf_fresh _ W (S (next s))) as [F _]; [lia|congruence].
  - intros id y Hy. exists y. split; [|apply same_slot_refl]. apply lookup_insert_Some. right. split; [|done].
    intros <-. destruct (wf_fresh _ W (next s)) as [_ F]; [lia|congruence].
  - intros id k [[<- <-]|[_ ?]]%lookup_insert_Some; [right; lia|left; by exists k].
Qed.

Lemma issued_cells_wf x h s : wf s -> ih_slot h = next s -> ss_bytes x <> [] -> ss_state x = SLOT_LIVE ->
  (ih_expires_at h <= ss_expires_at x)%Z -> wf (issued_cells x h s).
Proof.
  intros W E B L D. destruct W as [w1 w2 w3 w4].
  assert (N : forall j k, handles s !! j = Some k -> ih_slot k <> next s).
  { intros j k Hk Ek. destruct (w2 _ _ Hk) as (y & Hy & _). rewrite Ek in Hy.
    destruct (w1 (next s)) as [_ F]; [lia|congruence]. }
  split; simpl.
  - intros id Hid. destruct (w1 id) as [F1 F2]; [lia|]. rewrite !lookup_insert_ne by lia. done.
  - intros id k [[<- <-]|[Hn Hk]]%lookup_insert_Some.
    + exists x. rewrite E, lookup_insert_eq. split_and!; [done..|]. intros [?|?]; congruence.
    + destruct (w2 _ _ Hk) as (y & Hy & Dy & O). exists y. rewrite lookup_insert_ne by (apply not_eq_sym; eauto).
      split_and!; [done..|]. intros [?|?]%O; [by left|right]. eapply due_ticks; [|done]. simpl. lia.
  - intros i j k k' Hi Hj. apply lookup_insert_Some in Hi as [[<- <-]|[? Hi]], Hj as [[<- <-]|[? Hj]]; intros Ek.
    + done.
    + exfalso. apply (N _ _ Hj). congruence.
    + exfalso. apply (N _ _ Hi). congruence.
    + eauto.
  - intros c e id He Hid. destruct (w4 _ _ _ He Hid) as [k Hk]. apply lookup_insert_is_Some. destruct (decide (S (next s) = id)); eauto.
Qed.

Lemma triple_new_issued P kind id g p r secret e : stable P ->
  triple (fun s => P s /\ bounded e s) (new_issued kind id g p r secret e) (fun h s => P s /\ valid h s).
Proof.
  intros HP s W [X (t & (i & Hi & ->) & Ht)]. unfold new_issued, from_host_secret_until, fs_guard, fs_lift, fs_bind.
  assert (OUT : wf s /\ later s s) by (split; [done|apply later_refl]).
  destruct (negb _) eqn:G; simpl; [|destruct OUT; done]. destruct (utf8_valid _); simpl; [|destruct OUT; done].
  destruct (validate_slot_provenance _ _ _); simpl; [|destruct OUT; done].
  match goal with |- wf (with_next S (with_handles (insert _ ?h) (with_next S (with_slots (insert _ ?x) _)))) /\ _ =>
    change (wf (issued_cells x h s) /\ later s (issued_cells x h s)
      /\ forall a, Ok (E := AuthStoreError) (S (next s)) = Ok a -> P (issued_cells x h s) /\ valid a (issued_cells x h s)) end.
  match goal with |- wf (issued_cells ?x ?h s) /\ _ => assert (L : later s (issued_cells x h s)) by by apply issued_cells_later end.
  split_and!; [|done|].
  - apply issued_cells_wf; [done..| |done|].
    + intros E. simpl in E. rewrite E in G. done.
    + simpl. apply Z.min_glb; [lia|]. assert (clock i <= clock (ticks s))%Z by (apply clock_monotone; lia). lia.
  - intros b [= <-]. split; [by eapply HP|]. unfold valid. simpl. rewrite lookup_insert_eq. by eexists.
Qed.

(** A new slot that no handle is on. *)
Lemma new_slot_later x s : wf s -> later s (with_next S (with_slots (insert (next s) x) s)).
Proof.
  intros W. split; simpl; [eauto using same_handle_refl| |eauto|lia|lia]. intros id y Hy. exists y.
  split; [|apply same_slot_refl]. apply lookup_insert_Some. right. split; [|done].
  intros <-. destruct (wf_fresh _ W (next s)) as [_ F]; [lia|congruence].
Qed.
Lemma new_slot_wf x s : wf s -> wf (with_next S (with_slots (insert (next s) x) s)).
Proof.
  intros [w1 w2 w3 w4]. split; simpl; [|intros id h Hh|done|done].
  - intros id Hid. destruct (w1 id) as [F1 F2]; [lia|]. by rewrite lookup_insert_ne by lia.
  - destruct (w2 _ _ Hh) as (y & Hy & D & O). exists y. split_and!; [|done|done].
    apply lookup_insert_Some. right. split; [|done]. intros E. destruct (w1 (ih_slot h)) as [_ F]; [lia|congruence].
Qed.

Lemma keeps_from_host_secret P kind id g p r bytes e : stable P -> keeps P (from_host_secret_until kind id g p r bytes e).
Proof.
  intros HP. unfold from_host_secret_until. keeping. intros s W X. simpl.
  match goal with |- context [insert (next s) ?x] =>
    pose proof (new_slot_later x s W); pose proof (new_slot_wf x s W) end. simpl. split_and!; [done|done|]. eauto.
Qed.

Lemma keeps_issued_secret P id g kind : stable P -> keeps P (issued_secret id g kind).
Proof.
  intros HP. apply keeps_bind; [by apply keeps_load_locked|]. intros d. destruct (_ !! id) as [c|]; [|apply keeps_fail].
  keeping.
Qed.

Lemma keeps_issue_handle P id g p r kind deadline : stable P -> keeps P (issue_handle id g p r kind deadline).
Proof.
  intros HP. unfold issue_handle. apply keeps_bind; [apply keeps_lift|]. intros id'. apply keeps_with_process_lock; [done|].
  apply keeps_bind; [apply keeps_with_file_lock; [done|by apply keeps_issued_secret]|]. intros found.
  eapply triple_bind; [by apply triple_handle_deadline|]. intros e. simpl.
  assert (ST : stable (fun s => P s /\ bounded e s)).
  { apply and_stable; [done|]. intros s s' L (t & ? & ?). exists t. split; [by eapply shown_stable|done]. }
  apply triple_bind_keep; [by apply keeps_now|]. intros t. apply triple_bind_keep; [apply keeps_guard|]. intros [].
  eapply triple_bind; [by apply triple_new_issued|]. intros h. simpl.
  assert (N : needs h (fun s => P s /\ valid h s)).
  { split; [apply and_stable; [done|apply valid_stable]|naive_solver]. }
  apply triple_bind_keep; [apply keeps_locked_registry; [apply N|by apply keeps_register]|]. intros [].
  eapply triple_conseq; [apply (keeps_ret P)|naive_solver|done].
Qed.

(** ** Using *)

Lemma keeps_check_live P id : needs id P -> keeps P (check_live id).
Proof. intros [HP HV]. eapply keeps_of; [apply triple_check_live|done|auto]. Qed.
Lemma keeps_consume_live P id : needs id P -> keeps P (consume_live id).
Proof. intros [HP HV]. eapply keeps_of; [apply triple_consume_live|done|auto]. Qed.

Lemma keeps_validate_binding P id c g p r : needs id P -> keeps P (validate_binding id c g p r).
Proof. intros N. apply keeps_bind; [by apply keeps_check_live|]. intros. unfold check_binding. keeping. Qed.

Lemma keeps_unregister_issued P id : stable P -> keeps P (unregister_issued id).
Proof. intros HP. apply keeps_locked_registry; [done|by apply keeps_unregister]. Qed.

Lemma keeps_fail_stale {A} P id e : needs id P -> keeps P (fail_stale_handle (A := A) id e).
Proof.
  intros N. pose proof (proj1 N) as HP. apply keeps_bind; [by apply keeps_mark_revoked|]. intros _.
  apply keeps_bind; [by apply keeps_unregister_issued|]. intros _. apply keeps_fail.
Qed.

Lemma keeps_live_store_generation P id : stable P -> keeps P (live_store_generation id).
Proof.
  intros HP. apply keeps_bind; [by apply keeps_load_locked|]. intros d. apply keeps_bind; [apply keeps_get_handle|].
  intros h. destruct (_ !! _); [apply keeps_ret|apply keeps_fail].
Qed.

Lemma keeps_with_issued {A} P id (use : M A) : needs id P -> keeps P use -> keeps P (with_issued id use).
Proof.
  intros N Hu. pose proof (proj1 N) as HP. apply keeps_bind; [apply keeps_get_handle|]. intros h.
  apply keeps_bind; [by apply keeps_same_cells; [|intros s; destruct (alive s)]|]. intros _.
  apply keeps_bind; [by apply keeps_check_live|]. intros _. apply keeps_with_process_lock; [done|].
  apply keeps_bind; [by apply keeps_check_live|]. intros _. apply keeps_match; [done| |].
  - apply keeps_with_file_lock; [done|by apply keeps_live_store_generation].
  - intros [actual|[]]; try apply keeps_fail; [destruct (_ =? _)%Z; [done|]|]; by apply keeps_fail_stale.
Qed.

Lemma owned_allocated id h s : wf s -> handles s !! id = Some h -> allocated (ih_slot h) s.
Proof. intros W Hh. destruct (wf_owned _ W _ _ Hh) as (x & ? & _). by exists x. Qed.

Lemma keeps_take_issued P id : needs id P -> keeps P (take_issued id).
Proof.
  intros N. destruct N as [HP HV]. apply keeps_with_issued; [done|].
  eapply triple_bind with (Q := fun h s => P s /\ allocated (ih_slot h) s).
  { eapply triple_conseq; [by apply (triple_get_handle P id)|done|]. intros h s W [? ?].
    split; [done|by eapply owned_allocated]. }
  intros h. assert (ST : stable (fun s => P s /\ allocated (ih_slot h) s)) by (apply and_stable; [done|apply allocated_stable]).
  apply triple_bind_keep; [apply keeps_snapshot_text; split; [done|naive_solver]|]. intros secret.
  apply triple_bind_keep; [apply keeps_consume_live; split; [done|naive_solver]|]. intros [].
  apply triple_bind_keep; [by apply keeps_unregister_issued|]. intros [].
  eapply triple_conseq; [apply (keeps_ret P)|naive_solver|done].
Qed.

Lemma keeps_consume_issued P id : needs id P -> keeps P (consume_issued id).
Proof.
  intros N. apply keeps_with_issued; [done|]. apply keeps_bind; [by apply keeps_consume_live|]. intros [].
  apply keeps_unregister_issued, N.
Qed.

Lemma keeps_force_expire P id : needs id P -> keeps P (force_expire id).
Proof.
  intros N. pose proof (proj1 N) as HP. apply keeps_bind; [by apply keeps_mark_expired|]. intros _ s W X.
  destruct (alive s); [by apply keeps_unregister_issued|by apply (triple_pure P)].
Qed.

(** ** Saving *)

(** A slot of a request: no handle owns it. *)
Definition unowned (k : nat) (s : Store) : Prop :=
  allocated k s /\ k < next s /\ forall id h, handles s !! id = Some h -> ih_slot h <> k.

Lemma unowned_stable k : stable (unowned k).
Proof.
  intros s s' L (A & B & U). split_and!; [by eapply allocated_stable|pose proof (later_next _ _ L); lia|].
  intros id h' Hh E. destruct (later_new _ _ L _ _ Hh) as [[h Hh0]|?]; [|lia].
  destruct (later_handles _ _ L _ _ Hh0) as (h2 & Hh2 & C & _). rewrite Hh in Hh2. injection Hh2 as <-.
  apply (f_equal ih_slot) in C. apply (U _ _ Hh0). by rewrite <-E.
Qed.
Lemma unowned_spare k s : unowned k s -> spare k s.
Proof. intros (? & ? & U). split; [done|]. intros id h Hh E. by destruct (U id h Hh). Qed.

Definition request_slots (r : SaveCredentialRequest) (s : Store) : Prop :=
  unowned (sr_access_slot r) s /\ match sr_refresh r with Replace k => unowned k s | _ => True end.

Lemma request_slots_stable r : stable (request_slots r).
Proof.
  apply and_stable; [apply unowned_stable|]. destruct (sr_refresh r); [by apply (pure_stable True)|apply unowned_stable|by apply (pure_stable True)].
Qed.

Lemma uses_access r : uses (sr_access_slot r) (request_slots r).
Proof. split; [apply request_slots_stable|]. by intros s [[? _] _]. Qed.
Lemma uses_refresh r k : sr_refresh r = Replace k -> uses k (request_slots r).
Proof. intros E. split; [apply request_slots_stable|]. unfold request_slots. rewrite E. by intros s [_ [? _]]. Qed.
Lemma access_spare r s : request_slots r s -> spare (sr_access_slot r) s.
Proof. intros [? _]. by apply unowned_spare. Qed.
Lemma refresh_spare r k s : sr_refresh r = Replace k -> request_slots r s -> spare k s.
Proof. unfold request_slots. intros ->. intros [_ ?]. by apply unowned_spare. Qed.

Lemma keeps_validate_request r : keeps (request_slots r) (validate_request r).
Proof.
  unfold validate_request. do 3 (apply keeps_bind; [first [apply keeps_lift|apply keeps_guard]|intros []]).
  apply keeps_bind; [apply keeps_validate_for_request, uses_access|]. intros [].
  destruct (sr_refresh r) as [|k|] eqn:E; [apply keeps_ret| |apply keeps_ret].
  by apply keeps_validate_for_request, uses_refresh.
Qed.

Lemma keeps_revoke_slots r : keeps (request_slots r) (revoke_slots r).
Proof.
  pose proof (request_slots_stable r) as ST. unfold revoke_slots. apply keeps_bind.
  { eapply keeps_of; [apply triple_slot_revoke|done|]. intros s _. apply access_spare. }
  intros []. destruct (sr_refresh r) as [|k|] eqn:E; [apply keeps_ret| |apply keeps_ret].
  eapply keeps_of; [apply triple_slot_revoke|done|]. intros s _. by apply refresh_spare.
Qed.

Lemma keeps_commit r g d current : keeps (request_slots r) (commit r g d current).
Proof.
  pose proof (request_slots_stable r) as ST. unfold commit. apply keeps_bind; [apply keeps_lift|]. intros next_generation.
  apply keeps_bind; [apply keeps_snapshot_text, uses_access|]. intros access.
  apply keeps_bind.
  { destruct (sr_refresh r) as [|k|] eqn:E; [apply keeps_ret| |apply keeps_ret].
    apply keeps_bind; [by apply keeps_snapshot_text, uses_refresh|]. intros. apply keeps_ret. }
  intros refresh. apply keeps_bind; [by apply keeps_save_locked|]. intros [].
  apply keeps_bind; [apply keeps_slot_consume; [apply uses_access|]; intros s _; apply access_spare|]. intros [].
  apply keeps_bind; [|intros; apply keeps_ret]. destruct (sr_refresh r) as [|k|] eqn:E; [apply keeps_ret| |apply keeps_ret].
  apply keeps_slot_consume; [by apply uses_refresh|]. intros s _. by apply refresh_spare.
Qed.

Lemma keeps_save_under_lock r g : keeps (request_slots r) (save_under_lock r g).
Proof.
  unfold save_under_lock. apply keeps_bind; [apply keeps_load_locked, request_slots_stable|]. intros d.
  destruct (_ !! _); [destruct (_ <? _)%Z; [apply keeps_ret|]|]; (apply keeps_bind; [apply keeps_guard|intros; apply keeps_commit]).
Qed.

Lemma keeps_save_body r g : keeps (request_slots r) (with_mutation_process_lock g (
  let* outcome := with_mutation_file_lock g (save_under_lock r g) in
  let* _ := match outcome with Committed _ => revoke_issued_handles (sr_credential_id r) | Adopted _ => fs_ret tt end in
  fs_ret outcome)).
Proof.
  pose proof (request_slots_stable r) as ST. apply keeps_with_mutation_process_lock; [done|].
  apply keeps_bind; [apply keeps_with_mutation_file_lock; [done|apply keeps_save_under_lock]|]. intros outcome.
  apply keeps_bind; [destruct outcome; [by apply keeps_revoke_issued|apply keeps_ret]|]. intros. apply keeps_ret.
Qed.

Lemma keeps_save r g : keeps (request_slots r) (save_if_generation_impl r g).
Proof.
  pose proof (request_slots_stable r) as ST. unfold save_if_generation_impl.
  apply keeps_bind; [by apply keeps_mutation_guard|]. intros []. apply keeps_bind; [apply keeps_validate_request|]. intros [].
  apply keeps_match; [done|apply keeps_save_body|].
  intros o. destruct (lost_race o); [|apply keeps_lift]. apply keeps_bind; [apply keeps_revoke_slots|]. intros. apply keeps_lift.
Qed.

Lemma keeps_delete P id g : stable P -> keeps P (delete_impl id g).
Proof.
  intros HP. unfold delete_impl. apply keeps_bind; [by apply keeps_mutation_guard|]. intros [].
  apply keeps_bind; [apply keeps_lift|]. intros id'. apply keeps_with_mutation_process_lock; [done|].
  apply keeps_bind; [|intros; apply keeps_bind; [by apply keeps_revoke_issued|intros; apply keeps_ret]].
  apply keeps_with_mutation_file_lock; [done|]. apply keeps_bind; [by apply keeps_load_locked|]. intros d.
  destruct (_ !! _); [|apply keeps_fail]. apply keeps_bind; [by apply keeps_save_locked|]. intros. apply keeps_ret.
Qed.

(** ** Every call *)

Inductive call :=
| Issue (credential_id : string) (generation policy_generation : Z) (run_id : string) (kind : SecretSlotKind) (deadline : Z)
| Mint (kind : SecretSlotKind) (credential_id : string) (generation policy_generation : Z) (run_id : string)
    (bytes : list byte) (expires_at : Z)
| Validate (id : nat) (credential_id : string) (generation policy_generation : Z) (run_id : string)
| Revalidate (id : nat) | Consume (id : nat) | Take (id : nat) | ForceExpire (id : nat) | IsTerminal (id : nat)
| Save (r : SaveCredentialRequest) (g : MutationGuard) | Delete (credential_id : string) (g : MutationGuard)
| LoadMetadata (credential_id : string) | LoadAll | Load.

(** What the caller holds: the handle it names, slots that are its own. *)
Definition holds (c : call) (s : Store) : Prop :=
  match c with
  | Validate id _ _ _ _ | Revalidate id | Consume id | Take id | ForceExpire id | IsTerminal id => valid id s
  | Save r _ => request_slots r s
  | _ => True
  end.

Definition run (c : call) (s : Store) : Store :=
  match c with
  | Issue id g p r k d => fst (issue_handle id g p r k d s)
  | Mint kind id g p r bytes e => fst (from_host_secret_until kind id g p r bytes e s)
  | Validate id c g p r => fst (validate_binding id c g p r s)
  | Revalidate id => fst (revalidate_issued id s)
  | Consume id => fst (consume_issued id s)
  | Take id => fst (take_issued id s)
  | ForceExpire id => fst (force_expire id s)
  | IsTerminal id => fst (handle_is_terminal id s)
  | Save r g => fst (save_if_generation_impl r g s)
  | Delete id g => fst (delete_impl id g s)
  | LoadMetadata id => fst (load_metadata id s)
  | LoadAll => fst (load_all_metadata s)
  | Load => fst (load s)
  end.

Lemma keeps_call {A} P (m : M A) s : keeps P m -> wf s -> P s -> wf (fst (m s)) /\ later s (fst (m s)).
Proof. exact (keeps_run P m s). Qed.

Lemma needs_valid id : needs id (valid id).
Proof. split; [apply valid_stable|done]. Qed.

Lemma keeps_reading {A} (k : StoredAuthConfig -> M A) :
  (forall d, keeps always (k d)) -> keeps always (with_process_lock (with_file_lock (fs_bind load_locked k))).
Proof.
  intros Hk. apply keeps_with_process_lock; [done|]. apply keeps_with_file_lock; [done|].
  apply keeps_bind; [by apply keeps_load_locked|done].
Qed.

(** C16. Every call of the store, run by any thread while others run, keeps the
    invariant that ties each handle to its own slot, and does to the shared
    cells only what it relies on other threads doing: it never revives a
    handle or a slot, never alters a cell's identity or deadline, and never
    replaces a secret except by erasing it; the secret of a handle that is
    live and whose deadline has not been seen is not erased. *)
Theorem every_call_guarantees_what_it_relies_on (c : call) (s : Store) :
  wf s -> holds c s -> wf (run c s) /\ later s (run c s).
Proof.
  intros W X. destruct c; simpl in *.
  - apply (keeps_call always); [by apply keeps_issue_handle|done|done].
  - apply (keeps_call always); [by apply keeps_from_host_secret|done|done].
  - eapply keeps_call; [|done|apply X]. apply keeps_validate_binding, needs_valid.
  - eapply keeps_call; [|done|apply X]. apply keeps_with_issued; [apply needs_valid|apply keeps_ret].
  - eapply keeps_call; [|done|apply X]. apply keeps_consume_issued, needs_valid.
  - eapply keeps_call; [|done|apply X]. apply keeps_take_issued, needs_valid.
  - eapply keeps_call; [|done|apply X]. apply keeps_force_expire, needs_valid.
  - eapply keeps_call; [|done|apply X]. apply keeps_is_terminal, needs_valid.
  - eapply keeps_call; [|done|apply X]. apply keeps_save.
  - apply (keeps_call always); [by apply keeps_delete|done|done].
  - apply (keeps_call always); [|done|done]. apply keeps_bind; [apply keeps_lift|]. intros id.
    apply keeps_reading. intros d. destruct (_ !! id); [apply keeps_ret|apply keeps_fail].
  - apply (keeps_call always); [|done|done]. apply keeps_reading. intros. apply keeps_ret.
  - apply (keeps_call always); [|done|done]. apply keeps_reading. intros.
    apply keeps_bind; [apply keeps_lift|]. intros. apply keeps_ret.
Qed.

End spec.
End AuthRely.
