(* ===== verification/AuthStoreSpec.v ===== *)
(** The credential store's promises to its callers.

    On [AuthRely]: an issued handle gives its secret at most once, unaltered,
    and only while the file carries the handle's generation; a save publishes
    exactly one credential, and only over the generation it expected. *)
From stdpp Require Import base list strings numbers pretty gmap.
From S2P Require Import Prelude Utf8 Json Rely Credentials AuthStore AuthRely.

Module AuthStoreSpec.
Import AuthStore AuthRely.

Create HintDb quiet discriminated.

Section spec.
Context `{H : AuthHost} {TL : ThreadLaws}.

(** The document the file holds. *)
Definition document_in (contents : option (list byte)) : result StoredAuthConfig string :=
  match contents with None => Ok stored_empty | Some bytes => parse_stored_yaml bytes end.
Definition disk (s : Store) : result StoredAuthConfig string := document_in (file s).

(** ** Taking a secret *)

Lemma load_locked_disk s s' d : load_locked s = (s', Ok d) -> disk s = Ok d /\ file s' = file s.
Proof.
  intros (s1 & [] & E1 & E)%fs_bind_done. apply fs_bind_done in E as (s2 & c & [= <- <-] & E).
  injection E1 as <- _. unfold disk, document_in. simpl in *. destruct (file s) as [bytes|] eqn:F; [|by injection E as <- <-].
  apply fs_bind_done in E as (s3 & [] & [= <- _] & E).
  apply fs_bind_done in E as (s4 & [] & [_ ->]%fs_guard_done & E).
  destruct (parse_stored_yaml bytes) as [d'|]; [|done]. by injection E as <- <-.
Qed.

Lemma snapshot_text_reads k kind id g p r s s' t : wf s -> allocated k s ->
  snapshot_text k kind id g p r s = (s', Ok t) ->
  wf s' /\ exists s1, later s s1 /\ wf s1 /\ later s1 s' /\ t = b2s (ss_bytes (slot_of s1 k)).
Proof.
  intros W A (s1 & [] & E1 & E)%fs_bind_done.
  assert (U : uses k (allocated k)) by (split; [apply allocated_stable|done]).
  destruct (keeps_done _ _ _ _ _ (keeps_validate_for_request _ k kind id g p r U) (allocated_stable k) W A E1) as (W1 & L1 & A1).
  apply fs_bind_done in E as (s2 & bytes & E2 & E).
  destruct (triple_read (allocated k) (fun s => ss_bytes (slot_of s k)) (allocated_stable k) s1 W1 A1) as (W2 & L2 & Q2).
  unfold slot_bytes in E2. rewrite E2 in W2, L2, Q2. destruct (Q2 _ eq_refl) as [_ B]. simpl in *.
  destruct (utf8_valid _); [|done]. injection E as <- <-. rewrite B. split; [done|]. exists s2. eauto using later_trans, later_refl.
Qed.

(** A live handle's secret is the one it was issued with. *)
Lemma kept_secret id s s1 : wf s -> valid id s -> later s s1 -> wf s1 -> ~ closed id s1 ->
  ss_bytes (slot_of s1 (ih_slot (handle_of s id))) = ss_bytes (slot_of s (ih_slot (handle_of s id))).
Proof.
  intros W V L W1 N. pose proof (valid_of _ _ V) as Hh. destruct (wf_owned _ W _ _ Hh) as (x & Hx & _).
  destruct (later_slots _ _ L _ _ Hx) as (x1 & Hx1 & _ & B & _). unfold slot_of. rewrite Hx, Hx1. simpl.
  destruct B as [B|B]; [|done]. destruct N. destruct (later_handles _ _ L _ _ Hh) as (h1 & Hh1 & E & _). exists h1.
  split; [done|]. destruct (wf_owned _ W1 _ _ Hh1) as (y & Hy & _ & O). apply (f_equal ih_slot) in E. simpl in E.
  rewrite E, Hx1 in Hy. injection Hy as <-. auto.
Qed.

Definition generation_on_disk (s : Store) (h : IssuedHandle) : Prop :=
  exists d c, disk s = Ok d /\ ac_credentials d !! ih_credential_id h = Some c /\ sc_generation c = ih_generation h.

Lemma handle_same id s s' : valid id s -> later s s' -> handle_core (handle_of s' id) = handle_core (handle_of s id).
Proof.
  intros V L. pose proof (valid_of _ _ V) as Hh. destruct (later_handles _ _ L _ _ Hh) as (h' & Hh' & E & _).
  unfold handle_of at 1. by rewrite Hh'.
Qed.

Lemma handle_same_credential id s s' :
  valid id s -> later s s' -> ih_credential_id (handle_of s' id) = ih_credential_id (handle_of s id).
Proof. intros V L. by apply (f_equal ih_credential_id (handle_same id s s' V L)). Qed.
Lemma handle_same_slot id s s' : valid id s -> later s s' -> ih_slot (handle_of s' id) = ih_slot (handle_of s id).
Proof. intros V L. by apply (f_equal ih_slot (handle_same id s s' V L)). Qed.

Lemma read_generation id s s' g : wf s -> valid id s -> with_file_lock (live_store_generation id) s = (s', Ok g) ->
  exists s1, later s s1 /\ later s1 s' /\ exists d c, disk s1 = Ok d
    /\ ac_credentials d !! ih_credential_id (handle_of s id) = Some c /\ sc_generation c = g.
Proof.
  intros W V E. pose proof (valid_stable id) as ST. apply fs_bind_done in E as (s1 & [] & E1 & E).
  destruct (keeps_done _ _ _ _ _ (keeps_io _ ST) ST W V E1) as (W1 & L1 & V1).
  apply fs_bind_done in E as (s2 & [] & E2 & E).
  destruct (keeps_done _ _ _ _ _ (keeps_acquire _ ST) ST W1 V1 E2) as (W2 & L2 & V2).
  destruct (keeps_done _ _ _ _ _ (keeps_holding _ _ ST (keeps_live_store_generation _ id ST)) ST W2 V2 E) as (_ & L3 & _).
  exists s2. split_and!; [by apply (later_trans _ s1)|done|]. unfold holding in E.
  destruct (live_store_generation id _) as [s3 r] eqn:E3. injection E as _ ->.
  apply fs_bind_done in E3 as (s4 & d & E4 & E3). pose proof (load_locked_disk _ _ _ E4) as [D _].
  assert (L4 : later s s4).
  { destruct (keeps_done _ _ _ _ _ (keeps_load_locked _ ST) ST (same_cells_wf s2 (with_file_locked true s2)
      ltac:(by split_and!) eq_refl W2) V2 E4) as (_ & L4 & _).
    apply (later_trans _ s1); [done|]. apply (later_trans _ s2); [done|]. eapply later_trans; [|done]. by apply same_cells_later. }
  unfold fs_bind, get_handle in E3. exists d.
  rewrite <-(handle_same_credential id s s4 V L4).
  destruct (ac_credentials d !! _) as [c|] eqn:C; [|done]. injection E3 as _ <-. by exists c.
Qed.

(** What must have happened when a use of a handle succeeds. *)
Lemma with_issued_done {A} id (use : M A) s s' a : wf s -> valid id s -> with_issued id use s = (s', Ok a) ->
  exists s1 s2, later s s1 /\ generation_on_disk s1 (handle_of s id) /\ later s1 s2 /\ wf s2 /\ use s2 = (s', Ok a).
Proof.
  intros W V E. assert (N : needs id (later s)).
  { split; [exact (goes_stable s)|]. intros s1 L. by eapply valid_stable. }
  pose proof (proj1 N) as ST.
  unfold with_issued, fs_bind at 1, get_handle in E.
  apply fs_bind_done in E as (s1 & [] & E1 & E). assert (s1 = s) as -> by (by destruct (alive s); simplify_eq).
  apply fs_bind_done in E as (s2 & [] & E2 & E).
  destruct (keeps_done _ _ _ _ _ (keeps_check_live _ id N) ST W (later_refl s) E2) as (W2 & _ & L2).
  apply fs_bind_done in E as (s3 & [] & E3 & E).
  destruct (keeps_done _ _ _ _ _ (keeps_acquire _ ST) ST W2 L2 E3) as (W3 & _ & L3).
  apply fs_bind_done in E as (s4 & [] & E4 & E).
  destruct (keeps_done _ _ _ _ _ (keeps_check_live _ id N) ST W3 L3 E4) as (W4 & _ & L4).
  unfold fs_match in E. destruct (with_file_lock _ s4) as [s5 r] eqn:E5.
  destruct (keeps_done _ _ _ _ _ (keeps_with_file_lock _ _ ST (keeps_live_store_generation _ id ST)) ST W4 L4 E5) as (W5 & _ & L5).
  destruct r as [actual|e]; [|exfalso; by destruct e; try (apply fs_bind_done in E as (? & ? & _ & E);
    apply fs_bind_done in E as (? & ? & _ & [=]))].
  destruct (Z.eqb_spec actual (ih_generation (handle_of s id))) as [->|]; [|exfalso;
    apply fs_bind_done in E as (? & ? & _ & E); by apply fs_bind_done in E as (? & ? & _ & [=])].
  destruct (read_generation _ _ _ _ W4 (proj2 N _ L4) E5) as (s6 & L6 & L7 & d & c & D & C & G).
  exists s6, s5. split_and!; [by apply (later_trans _ s4)| |done|done|done]. exists d, c. split_and!; [done| |done].
  by rewrite <-(handle_same_credential id s s4 V L4).
Qed.

Lemma with_issued_open {A} id (use : M A) s s' a :
  wf s -> valid id s -> with_issued id use s = (s', Ok a) -> ~ closed id s.
Proof.
  intros W V E. unfold with_issued, fs_bind at 1, get_handle in E. apply fs_bind_done in E as (s1 & [] & E1 & E).
  assert (s1 = s) as -> by (by destruct (alive s); simplify_eq).
  apply fs_bind_done in E as (s2 & [] & E2 & _). by eapply check_live_open.
Qed.

Lemma take_issued_done id s s' secret : wf s -> valid id s -> take_issued id s = (s', Ok secret) ->
  secret = b2s (ss_bytes (slot_of s (ih_slot (handle_of s id)))) /\ gone id s'
  /\ exists s1, later s s1 /\ generation_on_disk s1 (handle_of s id) /\ wins id s1 s'.
Proof.
  intros W V (s1 & s2 & L1 & G & L2 & W2 & E)%with_issued_done; [|done..].
  assert (L : later s s2) by by apply (later_trans _ s1). assert (V2 : valid id s2) by by eapply valid_stable.
  unfold fs_bind at 1, get_handle in E. rewrite (handle_same_slot _ _ _ V L) in E.
  apply fs_bind_done in E as (s3 & text & (W3 & sr & Lr & Wr & Lr3 & ->)%snapshot_text_reads & E); [|done|].
  2: { rewrite <-(handle_same_slot _ _ _ V L). apply (owned_allocated id _ _ W2). by apply valid_of. }
  assert (V3 : valid id s3) by (eapply valid_stable; [by apply (later_trans _ sr)|done]).
  apply fs_bind_done in E as (s4 & [] & E4 & E).
  destruct (consume_live_wins _ _ _ W3 V3 E4) as [N (sc & Lc & Vc & Gc & Lw)].
  destruct (triple_consume_live id s3 W3 V3) as (W4 & L34 & G4). rewrite E4 in W4, L34, G4. specialize (G4 _ eq_refl).
  apply fs_bind_done in E as (s5 & [] & E5 & [= <- <-]).
  destruct (keeps_done _ _ _ _ _ (keeps_unregister_issued _ id (gone_stable id)) (gone_stable id) W4 G4 E5) as (_ & L5 & G5).
  split_and!; [|done|].
  - f_equal. apply (kept_secret id s sr W V); [by apply (later_trans _ s2)|done|]. intros C. apply N. by eapply closed_stable.
  - exists s1. split_and!; [done..|]. exists sc. split_and!; [|done|done|by apply (later_trans _ s4)].
    apply (later_trans _ s2); [done|]. apply (later_trans _ sr); [done|]. by apply (later_trans _ s3).
Qed.

(** C6. A handle's secret is taken at most once, whatever other threads do
    meanwhile: a call that returns it found the handle live and before its
    deadline, made the handle's one transition from live to used, returns the
    bytes the handle was issued with, and read the handle's generation from
    the credential file after it was called; no later call returns it again. *)
Theorem secret_taken_once (id : nat) (s s' : Store) (secret : string) :
  wf s -> valid id s -> take_issued id s = (s', Ok secret) ->
  ~ closed id s /\ secret = b2s (ss_bytes (slot_of s (ih_slot (handle_of s id))))
  /\ (exists s1, later s s1 /\ generation_on_disk s1 (handle_of s id) /\ wins id s1 s')
  /\ forall s2 s3 again, later s' s2 -> wf s2 -> take_issued id s2 <> (s3, Ok again).
Proof.
  intros W V E. pose proof (take_issued_done _ _ _ _ W V E) as (S & G & X). split_and!; [by eapply with_issued_open|done|done|].
  intros s2 s3 again L W2 E2. apply (gone_stable _ _ _ L) in G.
  by apply (with_issued_open _ _ _ _ _ W2 (gone_valid _ _ G) E2), gone_closed.
Qed.

(** ** Saving *)

(** A step that renames nothing and, with the lock file held, sees the file
    unchanged. *)
Definition quiet {A} (m : M A) : Prop := forall s,
  renames (fst (m s)) = renames s /\ file_locked (fst (m s)) = file_locked s
  /\ (file_locked s = true -> file (fst (m s)) = file s).

Lemma quiet_pure {A} (m : M A) : (forall s, renames (fst (m s)) = renames s /\ file_locked (fst (m s)) = file_locked s
  /\ file (fst (m s)) = file s) -> quiet m.
Proof. intros Hm s. destruct (Hm s) as (? & ? & ?). done. Qed.
Lemma quiet_here {A} (r : result A AuthStoreError) : quiet (fun s => (s, r)).
Proof. by apply quiet_pure. Qed.
Lemma quiet_store_bind {A B} (m : M A) (k : A -> M B) : quiet m -> (forall a, quiet (k a)) -> quiet (fs_bind m k).
Proof.
  intros Hm Hk s. unfold fs_bind. destruct (Hm s) as (R & L & F). destruct (m s) as [s1 [a|e]]; simpl in *; [|done].
  destruct (Hk a s1) as (R' & L' & F'). split_and!; [congruence..|]. intros X. rewrite F' by congruence. auto.
Qed.
Lemma quiet_atomic {A} (f : Store -> Store * A) :
  (forall s, renames (fst (f s)) = renames s /\ file_locked (fst (f s)) = file_locked s /\ file (fst (f s)) = file s) ->
  quiet (atomic f).
Proof.
  intros Hf s. unfold atomic. set (s1 := threads _ _). destruct (Hf s1) as (R & L & F). destruct (f s1) as [s2 a].
  simpl in *. rewrite R, L, F. unfold s1. rewrite threads_record, threads_lock. split_and!; [done..|].
  intros X. by rewrite threads_file.
Qed.
Lemma quiet_store_lift {A} (r : result A AuthStoreError) : quiet (fs_lift r).
Proof. apply quiet_here. Qed.
Lemma quiet_guard b e : quiet (fs_guard b e).
Proof. destruct b; apply quiet_here. Qed.

#[local] Hint Resolve quiet_here quiet_guard : quiet.

Ltac quieting := repeat first
  [ solve [auto with quiet]
  | match goal with
    | |- quiet (fs_bind _ _) => apply quiet_store_bind; [|intros]
    | |- quiet (fs_ret _) => apply quiet_here
    | |- quiet (fs_fail _) => apply quiet_here
    | |- quiet (fs_lift _) => apply quiet_here
    | |- quiet (if ?b then _ else _) => destruct b
    | |- quiet (match ?x with _ => _ end) => destruct x
    | |- quiet (atomic _) => apply quiet_atomic; intros; first [done|case_decide; done]
    end
  | by apply quiet_pure ].

Lemma quiet_mutation_guard g : quiet (check_mutation_guard g).
Proof. destruct g; by apply quiet_pure. Qed.
Lemma quiet_acquire : quiet acquire.
Proof. exact (quiet_atomic (fun s => (s, tt)) ltac:(done)). Qed.
Lemma quiet_zeroize k : quiet (zeroize_bytes k).
Proof. unfold zeroize_bytes. quieting. Qed.
#[local] Hint Resolve quiet_mutation_guard quiet_acquire quiet_zeroize : quiet.
Lemma quiet_slot_revoke k : quiet (slot_revoke k).
Proof. unfold slot_revoke, slot_swap. quieting. Qed.
Lemma quiet_expire_if_due k : quiet (expire_if_due k).
Proof. unfold expire_if_due, slot_load, slot_mark_expired, slot_cas, now, get_slot. quieting. Qed.
#[local] Hint Resolve quiet_slot_revoke quiet_expire_if_due : quiet.
Lemma quiet_validate_for_request k kind id g p r : quiet (validate_for_request k kind id g p r).
Proof. unfold validate_for_request, slot_load, slot_bytes, get_slot. quieting. Qed.
#[local] Hint Resolve quiet_validate_for_request : quiet.
Lemma quiet_snapshot_text k kind id g p r : quiet (snapshot_text k kind id g p r).
Proof. unfold snapshot_text, slot_bytes. quieting. Qed.
Lemma quiet_slot_consume k : quiet (slot_consume k).
Proof. unfold slot_consume, slot_cas, get_slot. quieting. Qed.
Lemma quiet_mark_revoked id : quiet (mark_revoked id).
Proof. unfold mark_revoked, handle_swap, get_handle. quieting. Qed.
#[local] Hint Resolve quiet_snapshot_text quiet_slot_consume quiet_mark_revoked : quiet.
Lemma quiet_mark_all ids : quiet (mark_all_revoked ids).
Proof. induction ids; simpl; quieting. Qed.
#[local] Hint Resolve quiet_mark_all : quiet.
Lemma quiet_revoke_issued c : quiet (revoke_issued_handles c).
Proof. unfold revoke_issued_handles, locked_registry, revoke_credential. quieting. Qed.
Lemma quiet_validate_request r : quiet (validate_request r).
Proof. unfold validate_request. quieting. Qed.
Lemma quiet_revoke_slots r : quiet (revoke_slots r).
Proof. unfold revoke_slots. quieting. Qed.
Lemma quiet_try_lock g n : quiet (try_lock g n).
Proof. induction n; simpl; quieting. Qed.
Lemma quiet_load_locked : quiet load_locked.
Proof. unfold load_locked, io, read_file. quieting. Qed.

Lemma validate_stored_each d id c :
  validate_stored d = Ok tt -> ac_credentials d !! id = Some c -> validate_credential id c = Ok tt.
Proof.
  unfold validate_stored. destruct (negb _); [done|]. intros E C.
  set (f := fun (_ : unit) '(credential_id, c) => _) in E. set (l := sort_by_key _ _ _) in E.
  assert (I : (id, c) ∈ l).
  { unfold l. rewrite sort_by_key_perm. by apply elem_of_map_to_list. }
  pose proof (try_fold_inv (fun pre _ => forall p, p ∈ pre -> validate_credential p.1 p.2 = Ok tt) f tt l tt) as V.
  refine (V _ _ E (id, c) I); [set_solver|]. intros pre [i x] [] [] IH Ef p [?| ->%list_elem_of_singleton]%elem_of_app; [auto|].
  unfold f in Ef. by destruct (validate_visible _ _).
Qed.

Lemma access_not_empty d id m access refresh g :
  validate_stored (insert_credential id (updated_credential m access refresh g) d) = Ok tt -> access <> EmptyString.
Proof.
  intros E ->. eapply validate_stored_each in E; [|by apply lookup_insert_eq]. revert E. unfold validate_credential.
  repeat (destruct (validate_visible _ _); [simpl|done]). done.
Qed.

Definition refresh_written (r : SaveCredentialRequest) (d : StoredAuthConfig) (s : Store) (refresh : option string) : Prop :=
  match sr_refresh r with
  | Preserve => refresh = (c ← ac_credentials d !! sr_credential_id r; sc_refresh_token c)
  | Clear => refresh = None
  | Replace k => exists t, refresh = Some t /\ (t = EmptyString \/ t = b2s (ss_bytes (slot_of s k)))
  end.

(** The record [s'] of a save that published over the file [old]: the document
    read from it with one entry replaced, one generation on. *)
Definition published (r : SaveCredentialRequest) (s : Store) (old : option (list byte)) (new : list byte)
    (o : result SaveOutcome AuthStoreError) : Prop :=
  exists d refresh, let id := sr_credential_id r in
    let updated := updated_credential (sr_metadata r) (b2s (ss_bytes (slot_of s (sr_access_slot r)))) refresh
      (sr_expected_generation r + 1) in
    document_in old = Ok d /\ actual_generation d id = sr_expected_generation r
    /\ refresh_written r d s refresh /\ bytes_of_stored (insert_credential id updated d) = Some new
    /\ forall outcome, o = Ok outcome -> outcome = Committed (from_stored id updated).

Lemma atomic_write_record bytes g s s' o : atomic_write bytes g s = (s', o) ->
  file_locked s' = file_locked s /\ (renames s' = renames s /\ o <> Ok tt \/ renames s' = renames s ++ [(file s, bytes)]).
Proof.
  unfold atomic_write, io, check_mutation_guard, fs_bind. destruct (io_result _) as [[]|]; [|intros [= <- <-]; auto].
  destruct g as [check|]; simpl; [destruct (check _) as [[]|]; [|intros [= <- <-]; auto]|];
    (destruct (io_result _) as [[]|]; [|intros [= <- <-]; auto]); simpl; intros [= <- <-]; auto.
Qed.

(** A slot's text, read while other threads may erase it. *)
Lemma snapshot_text_now k kind id g p r s0 s s' t : allocated k s0 -> later s0 s -> wf s ->
  snapshot_text k kind id g p r s = (s', Ok t) -> t = EmptyString \/ t = b2s (ss_bytes (slot_of s0 k)).
Proof.
  intros A L W (_ & s1 & L1 & _ & _ & ->)%snapshot_text_reads; [|done|by eapply allocated_stable]. destruct A as [x Hx].
  destruct (later_slots _ _ (later_trans _ _ _ L L1) _ _ Hx) as (x1 & Hx1 & _ & B & _). unfold slot_of. rewrite Hx, Hx1. simpl.
  destruct B as [-> | ->]; auto.
Qed.

Lemma save_locked_record d g s s' o : save_locked d g s = (s', o) ->
  renames s' = renames s /\ o <> Ok tt
  \/ exists bytes, validate_stored d = Ok tt /\ bytes_of_stored d = Some bytes /\ renames s' = renames s ++ [(file s, bytes)].
Proof.
  unfold save_locked, fs_bind, fs_lift, fs_guard. destruct (validate_stored d) as [[]|]; simpl; [|intros [= <- <-]; auto].
  destruct (bytes_of_stored d) as [bytes|]; simpl; [|intros [= <- <-]; auto].
  destruct (_ <=? _)%Z; simpl; [|intros [= <- <-]; auto]. intros [_ [?|?]]%atomic_write_record; [auto|]. right. eauto.
Qed.

Lemma quiet_done {A} (m : M A) s s' o : quiet m -> m s = (s', o) -> file_locked s = true ->
  renames s' = renames s /\ file_locked s' = true /\ file s' = file s.
Proof. intros Q E L. destruct (Q s) as (? & ? & F). rewrite E in *. simpl in *. split_and!; [done|congruence|auto]. Qed.

Lemma quiet_step {A B} (m : M A) (k : A -> M B) s s' o : quiet m -> file_locked s = true -> fs_bind m k s = (s', o) ->
  (renames s' = renames s /\ forall b, o <> Ok b)
  \/ exists s1 a, m s = (s1, Ok a) /\ (renames s1 = renames s /\ file_locked s1 = true /\ file s1 = file s) /\ k a s1 = (s', o).
Proof.
  intros Q L [(s1 & a & E1 & E)|(e & E1 & ->)]%fs_bind_inv; [right|left].
  - exists s1, a. split; [done|]. split; [by eapply quiet_done|done].
  - split; [by eapply quiet_done|done].
Qed.

Lemma quiet_refresh r d : quiet match sr_refresh r with
  | Preserve => fs_ret (c ← ac_credentials d !! sr_credential_id r; sc_refresh_token c)
  | Replace slot => let* t := snapshot_text slot Refresh (sr_credential_id r) (sr_expected_generation r)
      (sr_policy_generation r) (sr_run_id r) in fs_ret (Some t)
  | Clear => fs_ret None
  end.
Proof. quieting. Qed.

(** The text of the new refresh token. *)
Lemma refresh_text r d s0 s s' refresh : request_slots r s0 -> later s0 s -> wf s ->
  match sr_refresh r with
  | Preserve => fs_ret (c ← ac_credentials d !! sr_credential_id r; sc_refresh_token c)
  | Replace slot => let* t := snapshot_text slot Refresh (sr_credential_id r) (sr_expected_generation r)
      (sr_policy_generation r) (sr_run_id r) in fs_ret (Some t)
  | Clear => fs_ret None
  end s = (s', Ok refresh) -> refresh_written r d s0 refresh.
Proof.
  intros [_ R] L W. unfold refresh_written. destruct (sr_refresh r) as [|k|]; [by intros [= _ <-]| |by intros [= _ <-]].
  intros (s1 & t & E & [= _ <-])%fs_bind_done. exists t. split; [done|]. destruct R as [A _]. by eapply snapshot_text_now.
Qed.

Lemma commit_end_record r (m : SaveOutcome) s s' o :
  (let* _ := slot_consume (sr_access_slot r) in
   let* _ := match sr_refresh r with Replace slot => slot_consume slot | _ => fs_ret tt end in fs_ret m) s = (s', o) ->
  renames s' = renames s /\ forall outcome, o = Ok outcome -> outcome = m.
Proof.
  intros E. assert (Q : quiet (let* _ := slot_consume (sr_access_slot r) in
    let* _ := match sr_refresh r with Replace slot => slot_consume slot | _ => fs_ret tt end in fs_ret m)) by quieting.
  destruct (Q s) as [R _]. rewrite E in R. split; [done|]. intros outcome ->.
  apply fs_bind_done in E as (? & ? & _ & E). by apply fs_bind_done in E as (? & ? & _ & [= _ <-]).
Qed.

Lemma commit_record r g d s0 s s' o : request_slots r s0 -> later s0 s -> wf s -> file_locked s = true ->
  document_in (file s) = Ok d -> actual_generation d (sr_credential_id r) = sr_expected_generation r ->
  commit r g d (ac_credentials d !! sr_credential_id r) s = (s', o) ->
  (renames s' = renames s /\ forall m, o <> Ok m)
  \/ exists new, renames s' = renames s ++ [(file s, new)] /\ published r s0 (file s) new o.
Proof.
  intros R L W K D G E. assert (Rs : request_slots r s) by by eapply request_slots_stable.
  pose proof (request_slots_stable r) as ST.
  apply quiet_step in E as [?|(s1 & n & E1 & _ & E)]; [by left| |apply quiet_store_lift|done].
  apply fs_lift_done in E1 as [N%ok_or_Ok ->].
  assert (n = sr_expected_generation r + 1)%Z as -> by (unfold checked_add in N; by destruct (_ <=? _)%Z; simplify_eq).
  apply quiet_step in E as [?|(s1 & access & E1 & (Rn1 & K1 & F1) & E)]; [by left| |apply quiet_snapshot_text|done].
  destruct (keeps_done _ _ _ _ _ (keeps_snapshot_text _ _ _ _ _ _ _ (uses_access r)) ST W Rs E1) as (W1 & L1 & R1).
  apply (snapshot_text_now _ _ _ _ _ _ s0) in E1; [|apply R|done|done].
  apply quiet_step in E as [?|(s2 & refresh & E2 & (Rn2 & K2 & F2) & E)]; [left; by rewrite <-Rn1| |apply quiet_refresh|done].
  apply (refresh_text _ _ s0) in E2; [|done|by eapply later_trans|done].
  assert (P : forall s3 o3, save_locked (insert_credential (sr_credential_id r) (updated_credential (sr_metadata r) access
    refresh (sr_expected_generation r + 1)) d) g s2 = (s3, o3) -> renames s3 = renames s /\ o3 <> Ok tt
    \/ exists new, renames s3 = renames s ++ [(file s, new)] /\ forall o', (forall outcome, o' = Ok outcome ->
      outcome = Committed (from_stored (sr_credential_id r) (updated_credential (sr_metadata r) access refresh
        (sr_expected_generation r + 1)))) -> published r s0 (file s) new o').
  { intros s3 o3 [[-> ?]|(new & V & B & ->)]%save_locked_record; [left; by rewrite Rn2|right]. exists new.
    rewrite F2, F1, Rn2, Rn1. split; [done|]. intros o' Ho. pose proof (access_not_empty _ _ _ _ _ _ V) as NE.
    destruct E1 as [?|E1]; [done|]. exists d, refresh. rewrite <-E1. done. }
  apply fs_bind_inv in E as [(s3 & [] & E3 & E)|(e & E3 & ->)].
  - destruct (P _ _ E3) as [[_ []]|(new & Rn & Pub)]; [done|right]. exists new.
    apply commit_end_record in E as [-> ?]. auto.
  - destruct (P _ _ E3) as [[? _]|(new & Rn & Pub)]; [by left|right]. exists new. split; [done|]. by apply Pub.
Qed.

(** What a save that does not publish may answer. *)
Definition declined (r : SaveCredentialRequest) (old : option (list byte)) (o : result SaveOutcome AuthStoreError) : Prop :=
  match o with
  | Ok (Committed _) => False
  | Ok (Adopted metadata) => exists d c, document_in old = Ok d /\ ac_credentials d !! sr_credential_id r = Some c
      /\ (sr_expected_generation r < sc_generation c)%Z /\ metadata = from_stored (sr_credential_id r) c
  | Err _ => True
  end.

Definition recorded (r : SaveCredentialRequest) (s s' : Store) (o : result SaveOutcome AuthStoreError) : Prop :=
  (renames s' = renames s /\ exists s1, later s s1 /\ declined r (file s1) o)
  \/ exists old new, renames s' = renames s ++ [(old, new)] /\ published r s old new o.

Lemma recorded_err r s s' (o : result SaveOutcome AuthStoreError) :
  renames s' = renames s -> (forall b, o <> Ok b) -> recorded r s s' o.
Proof.
  intros ? N. left. split; [done|]. exists s. split; [apply later_refl|]. destruct o as [m|]; [by destruct (N m)|done].
Qed.

(** What was published stays published when a later step fails. *)
Lemma recorded_weaken r s s' o e : recorded r s s' o -> recorded r s s' (Err e).
Proof.
  intros [(? & s3 & ? & _)|(old & new & ? & d & refresh & ? & ? & ? & ? & _)]; [left|right].
  - split; [done|]. by exists s3.
  - exists old, new. split; [done|]. by exists d, refresh.
Qed.

Lemma save_under_lock_record r g s0 s s' o :
  request_slots r s0 -> later s0 s -> wf s -> (0 <= sr_expected_generation r)%Z -> file_locked s = true ->
  renames s = renames s0 -> save_under_lock r g s = (s', o) -> recorded r s0 s' o.
Proof.
  intros R L W U K Rn E. assert (Rs : request_slots r s) by by eapply request_slots_stable.
  pose proof (request_slots_stable r) as ST. unfold save_under_lock in E.
  apply quiet_step in E as [[? ?]|(s1 & d & E1 & (Rn1 & K1 & F1) & E)];
    [apply recorded_err; [congruence|done]| |apply quiet_load_locked|done].
  destruct (keeps_done _ _ _ _ _ (keeps_load_locked _ ST) ST W Rs E1) as (W1 & L1 & R1).
  apply load_locked_disk in E1 as [D _]. unfold disk in D.
  assert (C : (actual_generation d (sr_credential_id r) <= sr_expected_generation r)%Z ->
    (let* _ := fs_guard (sr_expected_generation r <=? actual_generation d (sr_credential_id r))%Z
       (GenerationConflict (sr_credential_id r) (sr_expected_generation r) (actual_generation d (sr_credential_id r))) in
     commit r g d (ac_credentials d !! sr_credential_id r)) s1 = (s', o) -> recorded r s0 s' o).
  { intros G Ec. apply quiet_step in Ec as [[? ?]|(s2 & [] & [G2%Z.leb_le ->]%fs_guard_done & _ & Ec)];
      [apply recorded_err; [congruence|done]| |apply quiet_guard|done].
    apply (commit_record _ _ _ s0) in Ec; [|done|by eapply later_trans|done|done|by rewrite F1|lia].
    rewrite Rn1, F1, Rn in Ec. destruct Ec as [[? ?]|(new & ? & ?)]; [by apply recorded_err|]. right. eauto. }
  assert (A : actual_generation d (sr_credential_id r) =
    match ac_credentials d !! sr_credential_id r with Some c => sc_generation c | None => 0%Z end) by done.
  destruct (ac_credentials d !! sr_credential_id r) as [c|] eqn:Hc; [|apply C; [lia|done]].
  destruct (Z.ltb_spec (sr_expected_generation r) (actual_generation d (sr_credential_id r))) as [G|]; [|by apply C].
  injection E as <- <-. left. split; [congruence|]. exists s. split; [done|]. exists d, c. split_and!; [done..|lia|done].
Qed.

(** Steps before the work proper: other threads run, nothing is renamed. *)
Definition reaches {A} (m : M A) (s s' : Store) (o : result A AuthStoreError) : Prop :=
  (renames s' = renames s /\ forall a, o <> Ok a)
  \/ exists s1, wf s1 /\ later s s1 /\ (renames s1 = renames s /\ file_locked s1 = file_locked s) /\ m s1 = (s', o).

Lemma reaches_here {A} (m : M A) s s' o : wf s -> m s = (s', o) -> reaches m s s' o.
Proof. intros. right. exists s. auto using later_refl. Qed.

Lemma reaches_bind {A B} (pre : M A) (k : A -> M B) (m : M B) s s' o : quiet pre -> keeps always pre -> wf s ->
  (forall s1 a, wf s1 -> k a s1 = (s', o) -> reaches m s1 s' o) -> fs_bind pre k s = (s', o) -> reaches m s s' o.
Proof.
  intros Q K W Hk E. destruct (Q s) as (R & F & _). destruct (K s W I) as (W1 & L1 & _).
  apply fs_bind_inv in E as [(s1 & a & E1 & E)|(e & E1 & ->)]; rewrite E1 in *; simpl in *; [|by left].
  destruct (Hk s1 a W1 E) as [[? ?]|(s2 & ? & ? & [? ?] & ?)]; [left; split; [congruence|done]|right].
  exists s2. split_and!; [done|by eapply later_trans|congruence..|done].
Qed.

Lemma quiet_io : quiet io.
Proof. by apply quiet_pure. Qed.
Lemma quiet_waits g : quiet (fun s => try_lock g (lock_waits (yields s)) s).
Proof. intros s. apply quiet_try_lock. Qed.
Lemma keeps_waits g : keeps always (fun s => try_lock g (lock_waits (yields s)) s).
Proof. intros s. by apply keeps_try_lock. Qed.

Lemma process_lock_done {A} g (m : M A) s s' o : wf s -> with_mutation_process_lock g m s = (s', o) -> reaches m s s' o.
Proof.
  intros W. destruct g as [check|]; simpl.
  - apply reaches_bind; [apply quiet_waits|apply keeps_waits|done|]. intros s1 _ W1.
    apply reaches_bind; [apply quiet_mutation_guard|by apply keeps_mutation_guard|done|]. intros s2 _ W2. by apply reaches_here.
  - apply reaches_bind; [apply quiet_acquire|by apply keeps_acquire|done|]. intros s2 _ W2. by apply reaches_here.
Qed.

Lemma holding_done {A} (m : M A) s s' o : holding m s = (s', o) ->
  exists s1, m (with_file_locked true s) = (s1, o) /\ renames s' = renames s1.
Proof. unfold holding. destruct (m _) as [s1 r]. intros [= <- ->]. by exists s1. Qed.

(** With the lock file held. *)
Lemma file_lock_done {A} g (m : M A) s s' o : wf s -> with_mutation_file_lock g m s = (s', o) ->
  (renames s' = renames s /\ forall a, o <> Ok a)
  \/ exists s1 s2, wf s1 /\ later s s1 /\ renames s1 = renames s /\ file_locked s1 = true /\ m s1 = (s2, o) /\ renames s' = renames s2.
Proof.
  intros W E. assert (X : reaches (match g with None => holding m | Some _ =>
    holding (let* _ := check_mutation_guard g in let* _ := check_mutation_guard g in m) end) s s' o).
  { revert E. apply reaches_bind; [apply quiet_mutation_guard|by apply keeps_mutation_guard|done|]. intros s1 _ W1.
    destruct g as [check|]; [apply reaches_bind; [apply quiet_mutation_guard|by apply keeps_mutation_guard|done|]; intros s2 _ W2|
      rename s1 into s2, W1 into W2].
    all: apply reaches_bind; [apply quiet_io|by apply keeps_io|done|]; intros s3 _ W3.
    - apply reaches_bind; [apply quiet_waits|apply keeps_waits|done|]. intros s4 _ W4. by apply reaches_here.
    - apply reaches_bind; [apply quiet_acquire|by apply keeps_acquire|done|]. intros s4 _ W4. by apply reaches_here. }
  destruct X as [?|(s1 & W1 & L1 & [R1 _] & X)]; [by left|]. set (s2 := with_file_locked true s1).
  assert (W2 : wf s2) by by eapply (same_cells_wf s1); [split_and!|..].
  assert (L2 : later s s2) by (eapply later_trans; [done|]; by apply same_cells_later).
  assert (Y : exists s3, reaches m s2 s3 o /\ renames s' = renames s3).
  { destruct g as [check|]; apply holding_done in X as (s3 & E3 & R3); exists s3; (split; [|done]); [revert E3|by apply reaches_here].
    apply reaches_bind; [apply quiet_mutation_guard|by apply keeps_mutation_guard|done|]. intros s4 _ W4.
    apply reaches_bind; [apply quiet_mutation_guard|by apply keeps_mutation_guard|done|]. intros s5 _ W5. by apply reaches_here. }
  destruct Y as (s3 & [[R3 ?]|(s4 & W4 & L4 & [R4 F4] & E4)] & R').
  - left. split; [by rewrite R', R3|done].
  - right. exists s4, s3. split_and!; [done|by eapply later_trans|by rewrite R4|by rewrite F4|done|done].
Qed.

(** Both locks around the save, and the handles it makes stale. *)
Lemma save_locked_both r g s0 s s' o :
  request_slots r s0 -> later s0 s -> wf s -> (0 <= sr_expected_generation r)%Z -> renames s = renames s0 ->
  with_mutation_process_lock g (
    let* outcome := with_mutation_file_lock g (save_under_lock r g) in
    let* _ := match outcome with Committed _ => revoke_issued_handles (sr_credential_id r) | Adopted _ => fs_ret tt end in
    fs_ret outcome) s = (s', o) -> recorded r s0 s' o.
Proof.
  intros R L W U Rn [[? ?]|(s1 & W1 & L1 & [R1 _] & E)]%process_lock_done; [|..|done].
  { apply recorded_err; [congruence|done]. }
  assert (X : forall s2 o2, with_mutation_file_lock g (save_under_lock r g) s1 = (s2, o2) -> recorded r s0 s2 o2).
  { intros s2 o2 [[? ?]|(s3 & s4 & W3 & L3 & R3 & K3 & E3 & R4)]%file_lock_done; [apply recorded_err; [congruence|done]| |done].
    unfold recorded. rewrite R4. apply (save_under_lock_record r g s0 s3); [done| |done|done|done|congruence|done].
    eapply later_trans; [done|]. by eapply later_trans. }
  apply fs_bind_inv in E as [(s2 & outcome & E2 & E)|(e & E2 & ->)]; [|by apply X].
  apply X in E2. assert (Q : quiet (let* _ := match outcome with Committed _ => revoke_issued_handles (sr_credential_id r)
    | Adopted _ => fs_ret tt end in fs_ret outcome)).
  { destruct outcome; apply quiet_store_bind; [apply quiet_revoke_issued| |apply quiet_here|]; intros; apply quiet_here. }
  destruct (Q s2) as [R2 _]. rewrite E in R2. simpl in R2. unfold recorded in *. rewrite R2.
  apply fs_bind_inv in E as [(s3 & [] & _ & [= <- <-])|(e & _ & ->)]; [done|]. by apply (recorded_weaken r s0 s2 (Ok outcome)).
Qed.

(** *** Giving the slots up *)

Lemma triple_slot_revoke_used k : triple (unowned k) (slot_revoke k) (fun _ => used k).
Proof.
  eapply triple_conseq; [apply triple_slot_revoke| |by intros ??? [_ ?]]. intros s _. apply unowned_spare.
Qed.

Lemma revoke_slots_used r s s' k o : wf s -> request_slots r s -> revoke_slots r s = (s', o) -> o = Ok tt ->
  k = sr_access_slot r \/ sr_refresh r = Replace k -> used k s'.
Proof.
  intros W R E -> K. apply fs_bind_done in E as (s1 & [] & E1 & E).
  destruct (triple_slot_revoke_used (sr_access_slot r) s W (proj1 R)) as (W1 & L1 & U1). rewrite E1 in W1, L1, U1.
  specialize (U1 _ eq_refl). assert (R1 : request_slots r s1) by by eapply request_slots_stable.
  destruct K as [->|K].
  - destruct (sr_refresh r) as [|k|] eqn:Er; [by injection E as <-| |by injection E as <-].
    assert (T : triple (fun s => spare k s /\ used (sr_access_slot r) s) (slot_revoke k) (fun _ => used (sr_access_slot r))).
    { eapply triple_frame; [apply triple_slot_revoke|apply (used_stable (sr_access_slot r))|done|done]. }
    destruct (T s1 W1 (conj (refresh_spare _ _ _ Er R1) U1)) as (_ & _ & Q).
    rewrite E in Q. by apply (Q tt).
  - rewrite K in E. unfold request_slots in R1. rewrite K in R1.
    destruct (triple_slot_revoke_used k s1 W1 (proj2 R1)) as (_ & _ & Q). rewrite E in Q. by apply (Q tt).
Qed.

(** *** Errors other than a lost race *)

Definition conflict (e : AuthStoreError) : bool := match e with GenerationConflict _ _ _ => true | _ => false end.
Definition orderly {A} (m : M A) : Prop := forall s s' e, m s = (s', Err e) -> conflict e = false.

Lemma orderly_bind {A B} (m : M A) (k : A -> M B) : orderly m -> (forall a, orderly (k a)) -> orderly (fs_bind m k).
Proof. intros Hm Hk s s' e E. apply fs_bind_inv in E as [(s1 & a & _ & E)|(e' & E & [= ->])]; [by eapply Hk|by eapply Hm]. Qed.
Lemma orderly_done {A} (m : M A) : (forall s, is_ok (snd (m s)) = true) -> orderly m.
Proof. intros Hm s s' e E. specialize (Hm s). by rewrite E in Hm. Qed.
Lemma orderly_fail {A} e : conflict e = false -> orderly (fs_fail (A := A) e).
Proof. by intros He s s' ? [= _ <-]. Qed.
Lemma orderly_guard b e : conflict e = false -> orderly (fs_guard b e).
Proof. intros He. destruct b; [by apply orderly_done|by apply orderly_fail]. Qed.
Lemma orderly_lift {A} (r : result A AuthStoreError) :
  match r with Err e => conflict e = false | Ok _ => True end -> orderly (fs_lift r).
Proof. intros Hr s s' e [= _ ->]. done. Qed.
Lemma atomic_ok {A} (f : Store -> Store * A) s : is_ok (snd (atomic f s)) = true.
Proof. unfold atomic. by destruct (f _). Qed.
Lemma orderly_expire_if_due k : orderly (expire_if_due k).
Proof.
  apply orderly_bind; [by apply orderly_done|]. intros x. apply orderly_bind; [apply orderly_done, atomic_ok|]. intros st.
  case_decide; [apply orderly_bind; [apply orderly_done, atomic_ok|intros; by apply orderly_fail]|].
  apply orderly_bind; [by apply orderly_done|]. intros t. destruct (_ <=? _)%Z; [|by apply orderly_done].
  apply orderly_bind; [|intros; by apply orderly_fail]. apply orderly_bind; [apply orderly_done, atomic_ok|].
  intros []; apply orderly_done; [apply atomic_ok|done].
Qed.
Lemma orderly_validate_for_request k kind id g p r : orderly (validate_for_request k kind id g p r).
Proof.
  apply orderly_bind; [apply orderly_expire_if_due|]. intros. apply orderly_bind; [by apply orderly_done|]. intros.
  apply orderly_bind; [by apply orderly_guard|]. intros. apply orderly_bind; [apply orderly_done, atomic_ok|]. intros.
  apply orderly_bind; [by apply orderly_guard|]. intros. apply orderly_bind; [apply orderly_done, atomic_ok|]. intros.
  apply orderly_bind; [by apply orderly_guard|]. intros. by apply orderly_guard.
Qed.
Lemma orderly_scopes id scopes : forall i,
  match validate_metadata_scopes id i scopes with Err e => conflict e = false | Ok _ => True end.
Proof. induction scopes as [|scope scopes IH]; intros i; simpl; [done|]. destruct (bounded_visible _ _); [apply IH|done]. Qed.
Lemma orderly_validate_request r : orderly (validate_request r).
Proof.
  apply orderly_bind; [apply orderly_lift; unfold validate_slot_provenance; by repeat case_match; simplify_eq|]. intros.
  apply orderly_bind.
  { apply orderly_lift. unfold validate_metadata. pose proof (orderly_scopes (sr_credential_id r) (cc_scopes (sr_metadata r)) 0).
    repeat (case_match; simplify_eq; try done). }
  intros. apply orderly_bind; [by apply orderly_guard|]. intros. apply orderly_bind; [apply orderly_validate_for_request|]. intros.
  destruct (sr_refresh r); [by apply orderly_done|apply orderly_validate_for_request|by apply orderly_done].
Qed.

(** A guard refuses a mutation only as inactive. *)
Definition guard_answers (g : MutationGuard) : Prop :=
  forall check n e, g = Some check -> check n = Err e -> e = MutationInactive.

Lemma orderly_mutation_guard g : guard_answers g -> orderly (check_mutation_guard g).
Proof.
  intros Hg s s' e E. destruct g as [check|]; [|done]. injection E as _ E. by rewrite (Hg check _ _ eq_refl E).
Qed.

Lemma slot_revoke_ok k s : is_ok (snd (slot_revoke k s)) = true.
Proof.
  unfold slot_revoke, fs_bind. pose proof (atomic_ok (fun s => (with_slots (alter (set_slot_state SLOT_USED) k) s, ss_state (slot_of s k))) s) as A.
  unfold slot_swap. destruct (atomic _ s) as [s1 [previous|]]; [|done]. case_decide; [done|apply atomic_ok].
Qed.
Lemma revoke_slots_ok r s s' e : revoke_slots r s <> (s', Err e).
Proof.
  intros E. apply fs_bind_inv in E as [(s1 & [] & _ & E)|(e' & E & _)].
  - destruct (sr_refresh r) as [|k|]; [done| |done]. pose proof (slot_revoke_ok k s1) as O. by rewrite E in O.
  - pose proof (slot_revoke_ok (sr_access_slot r) s) as O. by rewrite E in O.
Qed.


End spec.
End AuthStoreSpec.

(** ** A concrete store *)

Module AuthStoreExample.
Import AuthStore AuthRely AuthStoreSpec.

Definition credential (generation : Z) : StoredCredentialConfig := {|
  sc_provider := "codex"; sc_kind := "oauth"; sc_source := "device"; sc_token_type := "Bearer";
  sc_access_token := "access-1"; sc_refresh_token := Some "refresh-1"; sc_expires_at_ms := 1000000;
  sc_scopes := ["offline"]; sc_account_id := None; sc_generation := generation; sc_status := "active";
  sc_last_refresh_at_ms := None |}.

Definition document : StoredAuthConfig := {| ac_version := 1; ac_credentials := {[ "codex" := credential 3 ]} |}.

(** One thread, a working disk, and a format in which every document reads as
    [document]. *)
#[local] Instance host : AuthHost := {|
  clock := fun n => Z.of_nat n; wall := fun n => Z.of_nat n; io_result := fun _ => Ok tt; lock_waits := fun _ => 0;
  threads := fun _ s => s; stored_of_bytes := fun _ => Ok document; bytes_of_stored := fun _ => Some (s2b "yaml") |}.

#[local] Instance host_laws : ThreadLaws.
Proof. split; simpl; intros; [lia|done|apply later_refl|done..]. Qed.

Definition empty : Store := {|
  slots := ∅; handles := ∅; handle_registry := ∅; file := Some (s2b "yaml"); file_locked := false; alive := true; next := 0;
  ticks := 0; ios := 0; guards := 0; yields := 0; renames := [] |}.

Lemma empty_wf : wf empty.
Proof. by split. Qed.

Definition issued : Store := fst (issue_handle "codex" 3 1 "run-1" Access 500 empty).

Lemma issued_wf : wf issued.
Proof. by destruct (keeps_run always _ empty (keeps_issue_handle always "codex" 3 1 "run-1" Access 500 always_stable) empty_wf I). Qed.

Lemma issued_valid : valid 1 issued.
Proof. vm_compute. by eexists. Qed.

Lemma every_call_guarantees_what_it_relies_on_witness :
  holds (Take 1) issued /\ wf (run (Take 1) issued) /\ later issued (run (Take 1) issued).
Proof.
  split; [exact issued_valid|]. apply (every_call_guarantees_what_it_relies_on (Take 1) issued).
  - exact issued_wf.
  - exact issued_valid.
Defined.

Lemma secret_taken_once_witness : let s' := fst (take_issued 1 issued) in
  take_issued 1 issued = (s', Ok "access-1")
  /\ forall s2 s3 again, later s' s2 -> wf s2 -> take_issued 1 s2 <> (s3, Ok again).
Proof.
  assert (E : take_issued 1 issued = (fst (take_issued 1 issued), Ok "access-1")) by (vm_compute; reflexivity).
  split; [exact E|]. exact (proj2 (proj2 (proj2 (secret_taken_once 1 issued _ _ issued_wf issued_valid E)))).
Defined.

(** A slot with a fresh access token, and a save over the given generation; the
    file has generation 3. *)
Definition offered (generation : Z) : Store := with_next S (with_slots (insert 0 {|
  ss_kind := Access; ss_credential_id := "codex"; ss_expected_generation := generation; ss_policy_generation := 1;
  ss_run_id := "run-1"; ss_bytes := s2b "access-2"; ss_state := SLOT_LIVE; ss_expires_at := 1000 |}) empty).

Definition request (generation : Z) : SaveCredentialRequest := {|
  sr_credential_id := "codex"; sr_expected_generation := generation; sr_policy_generation := 1; sr_run_id := "run-1";
  sr_metadata := public_projection (credential generation); sr_access_slot := 0; sr_refresh := Preserve |}.

Lemma offered_wf generation : wf (offered generation).
Proof.
  split; try done. simpl. intros id Hid. split; [done|]. apply lookup_insert_None. split; [done|lia].
Qed.

Lemma offered_slots generation : request_slots (request generation) (offered generation).
Proof. split; [|done]. split_and!; [vm_compute; by eexists|vm_compute; lia|done]. Qed.

Definition save (generation : Z) : Store * result SaveOutcome AuthStoreError :=
  save_if_generation_impl (request generation) None (offered generation).


End AuthStoreExample.
