(* ===== verification/OAuthText.v ===== *)
(** The texts of the OAuth host: [auth/oauth.rs], the functions that build,
    admit and clean what crosses the host boundary, and the account claim of
    [auth/oauth/codex_metadata.rs].

    The JSON of a response is read by [serde_json]'s streaming deserializer,
    driven by the crate's strict visitor: [json_tree] gives what the
    deserializer yields, duplicates and the place of a syntax error included.
    Slicing a [str] inside a character panics; [percent_decode] answers [None]
    there. *)
From stdpp Require Import base list strings numbers pretty gmap.
From S2P Require Import Prelude Utf8 Json Credentials RequestBody AuthStore.

Module OAuthText.

Definition MAX_REQUEST_BODY_BYTES : Z := 65536.
Definition MAX_RESPONSE_BODY_BYTES : Z := 65536.
Definition MAX_ACCESS_STREAM_BODY_BYTES : Z := 8388608.
Definition MAX_EXCHANGE_CODE_BYTES : Z := 4096.
Definition MAX_PUBLIC_QUERY_ENTRIES : nat := 32.
Definition MAX_PUBLIC_QUERY_BYTES : Z := 2048.
Definition MAX_JSON_DEPTH : nat := 8.
Definition CALLBACK_TTL : Z := AuthStore.seconds 900.
Definition MAX_LIVE_OAUTH_FLOWS : nat := 64.

Definition CALLBACK_HANDLE_CLASS : string := "OpaqueCallbackHandle".
Definition VERIFIER_HANDLE_CLASS : string := "OpaqueVerifierHandle".
Definition CODE_HANDLE_CLASS : string := "OpaqueAuthorizationCodeHandle".
Definition DEVICE_HANDLE_CLASS : string := "OpaqueDeviceSessionHandle".

Definition RESERVED_FORM_KEYS : list string := ["refresh_token"; "code"; "code_verifier"; "device_code"].

Definition SECRET_JSON_KEYS : list string :=
  ["access_token"; "refresh_token"; "id_token"; "device_code"; "device_auth_id"; "device_id"; "code_verifier";
   "authorization_code"; "verifier"; "client_secret"; "password"; "api_key"; "authorization"; "cookie"; "code"].

(** ** Data *)

Inductive OAuthFlowKind := AuthorizationCodePkce | DeviceCode.
Inductive CallbackMode := Browser | Manual | NoCallback.

Record BoundedPublicOAuthIntent := {
  in_flow : OAuthFlowKind; in_callback_mode : CallbackMode; in_path : string; in_scopes : list string;
  in_public_query : list (string * string); in_credential_id : string
}.

Record TrustedEndpoint := { te_authority : string; te_path_prefix : string }.

(** [TrustedTransportIdentity::CodexAccessClaim]. *)
Record TrustedTransportPolicy := {
  tp_generation : Z; tp_run_id : string; tp_deadline : Z; tp_endpoints : list TrustedEndpoint;
  tp_allowed_header_names : list string; tp_transport_identity : option TrustedEndpoint
}.

Record ProviderRequest := {
  pr_method : string; pr_path : string; pr_public_headers : list (string * string); pr_public_body : string;
  pr_credential_id : string
}.

Record PreparedHttpsRequest := {
  ph_method : string; ph_url : string; ph_headers : list (string * string); ph_body : string
}.

Record RawHttpsResponse := { rr_status : Z; rr_headers : list (string * string); rr_body : list byte }.

Inductive ExchangeCodeField := Code | AuthorizationCode.
Inductive DeviceIdField := DeviceCodeField | DeviceAuthId | DeviceId.
Inductive SecretBodyFieldSelection :=
| NoField | DeviceField (field : DeviceIdField) | AuthorizationCodeField (code_field : ExchangeCodeField).

Record NativeRequestBodyIntent := {
  nb_encoding : Body.RequestBodyEncoding; nb_secret_fields : SecretBodyFieldSelection
}.

Record OpaqueExchangeResponseIntent := { er_code_field : ExchangeCodeField; er_redirect_uri : string }.

Inductive OAuthError :=
| PkceFailure (error : Pkce.PkceError)
| StoreFailure (error : AuthStore.AuthStoreError)
| HandleInvalid (class : string) | HandleReplayed (class : string) | HandleExpired (class : string)
| HandleRevoked (class : string) | HandleProvenance (class : string)
| PathDenied (path : string) | HeaderDenied (name : string) | MethodDenied (method : string)
| RequestTooLarge (max_bytes : Z) | ResponseTooLarge (max_bytes : Z) | MalformedResponse (reason : string)
| CallbackTimeout | CallbackCancelled | StateMismatch | Cancelled | DeadlineExceeded
| InvalidIntent (reason : string)
| CodexMetadataUnavailable | CodexMetadataInvalid | CodexMetadataConflict
| Transport (message : string).

(** ** Percent encoding *)

Definition percent_encode_byte (b : byte) : list byte :=
  if Pkce.is_unreserved_byte b then [b] else
  [Byte.x25; Body.hex_digit (Z.shiftr (bval b) 4); Body.hex_digit (Z.land (bval b) 15)].

Definition percent_encode (value : string) : string := b2s (concat (map percent_encode_byte (s2b value))).

Definition encode_pair (kv : string * string) : list byte :=
  s2b (percent_encode (fst kv)) ++ Byte.x3d :: s2b (percent_encode (snd kv)).

Definition encode_query (query : list (string * string)) : string :=
  b2s (join_with [Byte.x26] (map encode_pair query)).

Definition ends_with_byte (b : byte) (s : string) : bool := bool_decide (last (s2b s) = Some b).

Definition append_form (body key value : string) : string :=
  (if negb (is_empty body) && negb (ends_with_byte Byte.x26 body) then body +:+ "&" else body)
  +:+ percent_encode key +:+ "=" +:+ percent_encode value.

(** [u8::from_str_radix(_, 16)] of two bytes: a leading plus is a sign. *)
Definition from_str_radix (h l : byte) : option Z :=
  if bool_decide (h = Byte.x2b) then Body.hex_value l else
  h ← Body.hex_value h; l ← Body.hex_value l; Some (h * 16 + l)%Z.

(** The loop; [None] where the slice [index + 1 .. index + 3] does not end at a
    character boundary. *)
Fixpoint percent_decode_bytes (bytes : list byte) : option (list byte) :=
  match bytes with
  | [] => Some []
  | b :: rest =>
      match rest with
      | h :: l :: after =>
          if bool_decide (b = Byte.x25) then
            if match after with c :: _ => is_cont c | [] => false end then None else
            match from_str_radix h l with
            | Some v => cons (Body.byte_of v) <$> percent_decode_bytes after
            | None => cons b <$> percent_decode_bytes rest
            end
          else cons b <$> percent_decode_bytes rest
      | _ => cons b <$> percent_decode_bytes rest
      end
  end.

Definition percent_decode (value : string) : option string :=
  bytes ← percent_decode_bytes (s2b value); Some (b2s (from_utf8_lossy bytes)).

(** *** Callback URLs *)

(** The last [state] and the last [code] of the query. *)
Fixpoint scan_callback (pairs : list (list byte)) (state code : option string) : option (option string * option string) :=
  match pairs with
  | [] => Some (state, code)
  | segment :: rest =>
      match split_once Byte.x3d segment with
      | None => scan_callback rest state code
      | Some (key, value) =>
          if str_eqb (b2s key) "state" then v ← percent_decode (b2s value); scan_callback rest (Some v) code
          else if str_eqb (b2s key) "code" then v ← percent_decode (b2s value); scan_callback rest state (Some v)
          else scan_callback rest state code
      end
  end.

(** [None] when it panics. *)
Definition parse_callback_url (url : string) : option (result (string * string) OAuthError) :=
  if (MAX_REQUEST_BODY_BYTES <? slen url)%Z then Some (Err (RequestTooLarge MAX_REQUEST_BODY_BYTES)) else
  match split_once Byte.x3f (s2b url) with
  | None => Some (Err (MalformedResponse "callback URL is missing a query"))
  | Some (_, query) =>
      found ← scan_callback (split_on Byte.x26 query) None None;
      Some match found with
      | (Some state, Some code) => Ok (state, code)
      | _ => Err (MalformedResponse "callback URL is missing state or code")
      end
  end.

(** *** Host-owned form keys *)

Definition replace_plus (bs : list byte) : list byte := map (fun b => if bool_decide (b = Byte.x2b) then Byte.x20 else b) bs.

Definition decode_form_key (raw : list byte) : option string := percent_decode (b2s (replace_plus raw)).

Definition reserved_form_key (key : string) : bool :=
  existsb (fun candidate => eq_ignore_ascii_case candidate key) RESERVED_FORM_KEYS.

Definition raw_key (segment : list byte) : list byte :=
  match split_once Byte.x3d segment with Some (key, _) => key | None => segment end.

Fixpoint reject_pairs (pairs : list (list byte)) : option (result unit OAuthError) :=
  match pairs with
  | [] => Some (Ok tt)
  | segment :: rest =>
      key ← decode_form_key (raw_key segment);
      if reserved_form_key key
      then Some (Err (InvalidIntent "public body must not include host-owned form keys"))
      else reject_pairs rest
  end.

(** [None] when it panics. *)
Definition reject_reserved_form_keys (body : string) : option (result unit OAuthError) :=
  if is_empty body then Some (Ok tt) else reject_pairs (split_on Byte.x26 (s2b body)).

(** ** Admission *)

Definition contains_bytes (needle : list byte) (s : string) : bool :=
  existsb (fun i => starts_with (drop i (s2b s)) needle) (seq 0 (S (length (s2b s)))).

Definition path_denied (path : string) : bool :=
  contains_bytes (s2b "://") path || contains_bytes (s2b "..") path || negb (starts_with (s2b path) (s2b "/")).

Definition FORBIDDEN_QUERY_KEYS : list string :=
  ["host"; "authorization"; "cookie"; "redirect_uri"; "code_verifier"; "state"; "code_challenge";
   "code_challenge_method"; "url"; "authority"].

Fixpoint validate_query (query : list (string * string)) : result unit OAuthError :=
  match query with
  | [] => Ok tt
  | (key, value) :: rest =>
      if (MAX_PUBLIC_QUERY_BYTES <? saturating_add (slen key) (slen value))%Z
      then Err (InvalidIntent "public query parameter exceeds the bound") else
      if bool_decide (to_ascii_lowercase key ∈ FORBIDDEN_QUERY_KEYS)
      then Err (InvalidIntent (key +:+ " cannot be supplied by RSS")) else
      validate_query rest
  end.

Definition validate_intent (intent : BoundedPublicOAuthIntent) : result unit OAuthError :=
  if MAX_PUBLIC_QUERY_ENTRIES <? length (in_public_query intent)
  then Err (InvalidIntent "too many public query parameters") else
  let? _ := validate_query (in_public_query intent) in
  if path_denied (in_path intent) then Err (PathDenied (in_path intent)) else Ok tt.

Definition path_matches (prefix path : string) : bool :=
  str_eqb path prefix || starts_with (s2b path) (s2b (prefix +:+ "/")).

Definition admit_path (policy : TrustedTransportPolicy) (path : string) : result TrustedEndpoint OAuthError :=
  if path_denied path then Err (PathDenied path) else
  ok_or (head (filter (fun e => path_matches (te_path_prefix e) path = true) (tp_endpoints policy))) (PathDenied path).

Definition IDENTITY_HEADERS : list string := ["chatgpt-account-id"; "originator"; "user-agent"].
Definition FORBIDDEN_HEADERS : list string := ["authorization"; "cookie"; "host"; "cookie2"; "proxy-authorization"].

Fixpoint admit_each (policy : TrustedTransportPolicy) (headers admitted : list (string * string)) :
    result (list (string * string)) OAuthError :=
  match headers with
  | [] => Ok admitted
  | (name, value) :: rest =>
      let lowered := to_ascii_lowercase name in
      if bool_decide (is_Some (tp_transport_identity policy)) && bool_decide (lowered ∈ IDENTITY_HEADERS)
      then Err CodexMetadataConflict else
      if bool_decide (lowered ∈ FORBIDDEN_HEADERS) then Err (HeaderDenied lowered) else
      if negb (existsb (fun allowed => eq_ignore_ascii_case allowed lowered) (tp_allowed_header_names policy))
      then Err (HeaderDenied lowered) else
      admit_each policy rest (obj_insert lowered value admitted)
  end.

Definition admit_headers (policy : TrustedTransportPolicy) (headers : list (string * string)) :
    result (list (string * string)) OAuthError := admit_each policy headers [].

(** ** Request bodies *)

Definition device_field_name (field : DeviceIdField) : string :=
  match field with DeviceCodeField => "device_code" | DeviceAuthId => "device_auth_id" | DeviceId => "device_id" end.

Definition exchange_code_field_name (field : ExchangeCodeField) : string :=
  match field with Code => "code" | AuthorizationCode => "authorization_code" end.

Definition invalid_native_body : OAuthError := InvalidIntent "selected request body is invalid".

Definition map_request_body_error (error : Body.RequestBodyError) : OAuthError :=
  match error with
  | Body.InputTooLarge | Body.OutputTooLarge => RequestTooLarge MAX_REQUEST_BODY_BYTES
  | _ => invalid_native_body
  end.

(** ** Redirect URIs *)

(** What the checks use of the [url] crate's parsed URL. *)
Record Url := {
  url_scheme : string; url_username : string; url_password : option string; url_fragment : option string;
  url_host : option string; url_port : option Z
}.
Class UrlCrate := url_parse : string -> option Url.

(** [std::net]'s address parser, over the bytes not yet read. *)
Definition Reader (A : Type) : Type := list byte -> option (A * list byte).

(** [read_given_char]. *)
Definition read_given_char (b : byte) : Reader unit := fun input =>
  match input with c :: rest => if bool_decide (c = b) then Some (tt, rest) else None | [] => None end.

(** [char::to_digit]. *)
Definition to_digit (radix : Z) (b : byte) : option Z :=
  v ← Body.hex_value b; if (v <? radix)%Z then Some v else None.

(** The digits of [read_number], at most [max_digits] of them; one more fails. *)
Fixpoint read_digits (radix limit : Z) (max_digits : nat) (count : nat) (value : Z) (input : list byte) :
    option (Z * nat * list byte) :=
  match input with
  | b :: rest =>
      match to_digit radix b with
      | Some d =>
          match max_digits with
          | 0 => None
          | S max_digits =>
              let value := (value * radix + d)%Z in
              if (limit <? value)%Z then None else read_digits radix limit max_digits (S count) value rest
          end
      | None => Some (value, count, input)
      end
  | [] => Some (value, count, [])
  end.

Definition read_number (radix limit : Z) (max_digits : nat) (allow_zero_prefix : bool) : Reader Z := fun input =>
  match read_digits radix limit max_digits 0 0 input with
  | Some (value, count, rest) =>
      if (count =? 0) then None
      else if negb allow_zero_prefix && bool_decide (head input = Some Byte.x30) && (1 <? count) then None
      else Some (value, rest)
  | None => None
  end.

(** [read_separator]. *)
Definition read_separator {A} (separator : byte) (index : nat) (inner : Reader A) : Reader A := fun input =>
  match index with
  | 0 => inner input
  | S _ => r ← read_given_char separator input; inner (snd r)
  end.

Definition read_ipv4_addr : Reader (list Z) := fun input =>
  let octet index := read_separator Byte.x2e index (read_number 10 255 3 false) in
  a ← octet 0 input; b ← octet 1 (snd a); c ← octet 2 (snd b); d ← octet 3 (snd c);
  Some ([fst a; fst b; fst c; fst d], snd d).

(** [read_groups]: the groups read, whether they end with an IPv4 address, and
    the rest. *)
Fixpoint read_groups (left index : nat) (input : list byte) : list Z * bool * list byte :=
  match left with
  | 0 => ([], false, input)
  | S left' =>
      match (if 1 <? left then read_separator Byte.x3a index read_ipv4_addr input else None) with
      | Some ([a; b; c; d], rest) => ([a * 256 + b; c * 256 + d]%Z, true, rest)
      | _ =>
          match read_separator Byte.x3a index (read_number 16 65535 4 true) input with
          | Some (group, rest) =>
              let '(groups, ipv4, rest) := read_groups left' (S index) rest in (group :: groups, ipv4, rest)
          | None => ([], false, input)
          end
      end
  end.

Definition read_ipv6_addr : Reader (list Z) := fun input =>
  let '(front, ipv4, rest) := read_groups 8 0 input in
  if length front =? 8 then Some (front, rest) else
  if (ipv4 : bool) then None else
  r ← read_given_char Byte.x3a rest; r ← read_given_char Byte.x3a (snd r);
  let '(back, _, rest) := read_groups (8 - (length front + 1)) 0 (snd r) in
  Some (front ++ replicate (8 - length front - length back) 0%Z ++ back, rest).

(** [host.parse::<IpAddr>().is_ok_and(|a| a.is_loopback())]. *)
Definition is_loopback_ip (host : string) : bool :=
  match read_ipv4_addr (s2b host) with
  | Some (octets, rest) => bool_decide (rest = []) && bool_decide (head octets = Some 127%Z)
  | None =>
      match read_ipv6_addr (s2b host) with
      | Some (groups, rest) => bool_decide (rest = []) && bool_decide (groups = [0; 0; 0; 0; 0; 0; 0; 1]%Z)
      | None => false
      end
  end.

Fixpoint until_any (stops bs : list byte) : list byte :=
  match bs with [] => [] | b :: rest => if bool_decide (b ∈ stops) then [] else b :: until_any stops rest end.

(** [str::split_once] with a longer separator. *)
Fixpoint split_at_bytes (separator bs : list byte) : option (list byte * list byte) :=
  if starts_with bs separator then Some ([], drop (length separator) bs) else
  match bs with
  | [] => None
  | b :: rest => '(front, back) ← split_at_bytes separator rest; Some (b :: front, back)
  end.

Definition invalid_redirect : OAuthError := InvalidIntent "redirect URI is not an admitted absolute URI".

Definition validate_exchange_response_intent `{UrlCrate} (intent : OpaqueExchangeResponseIntent) : result unit OAuthError :=
  let uri := er_redirect_uri intent in
  if is_empty uri || (2048 <? slen uri)%Z || existsb is_control (chars uri) then Err invalid_redirect else
  match split_at_bytes (s2b "://") (s2b uri) with
  | None => Err invalid_redirect
  | Some (raw_scheme, after_scheme) =>
      let raw_scheme := b2s raw_scheme in
      if negb (eq_ignore_ascii_case raw_scheme "https" || eq_ignore_ascii_case raw_scheme "http")
         || bool_decide (Byte.x5c ∈ s2b uri) then Err invalid_redirect else
      let raw_authority := until_any [Byte.x2f; Byte.x3f; Byte.x23] after_scheme in
      if bool_decide (raw_authority = []) || bool_decide (Byte.x40 ∈ raw_authority) then Err invalid_redirect else
      let? parsed := ok_or (url_parse uri) invalid_redirect in
      if negb (eq_ignore_ascii_case raw_scheme (url_scheme parsed)) || negb (is_empty (url_username parsed))
         || bool_decide (is_Some (url_password parsed)) || bool_decide (is_Some (url_fragment parsed))
      then Err invalid_redirect else
      if str_eqb (url_scheme parsed) "https" && bool_decide (is_Some (url_host parsed)) then Ok tt else
      if str_eqb (url_scheme parsed) "http" then
        let loopback := match url_host parsed with
          | Some host => eq_ignore_ascii_case host "localhost" || is_loopback_ip host
          | None => false
          end in
        if loopback && bool_decide (is_Some (url_port parsed)) then Ok tt else Err invalid_redirect
      else Err invalid_redirect
  end.

(** ** Strict JSON *)

(** What the deserializer yields: an array or object that stops at a syntax
    error carries its text. *)
Inductive Raw :=
| RNull | RBool (b : bool) | RNumber (n : Number) | RString (s : string)
| RArray (values : list Raw) (stop : option string)
| RObject (entries : list (string * Raw)) (stop : option string)
| RError (reason : string).

(** [json_tree text] is the value at the start of [text], and what the final
    check for trailing characters answers. *)
Class JsonStream := json_tree : string -> Raw * option string.

Definition ended {A} (stop : option string) (a : A) : result A string :=
  match stop with Some reason => Err reason | None => Ok a end.

Section strict.
Variables (max_depth : nat) (max_container_depth : option nat).

Definition container_denied (depth : nat) : bool :=
  match max_container_depth with Some m => m <? depth | None => false end.

(** [StrictJsonSeed] and [StrictJsonVisitor]. *)
Fixpoint strict (depth : nat) (raw : Raw) {struct raw} : result Json string :=
  if max_depth <? depth then Err "response JSON exceeds depth" else
  match raw with
  | RNull => Ok JNull
  | RBool b => Ok (JBool b)
  | RNumber n => Ok (JNumber n)
  | RString s => Ok (JString s)
  | RError reason => Err reason
  | RArray values stop =>
      if container_denied depth then Err "response JSON exceeds container depth" else
      let? values := (fix each l := match l with
        | [] => Ok []
        | v :: l => let? v := strict (S depth) v in let? l := each l in Ok (v :: l)
        end) values in
      ended stop (JArray values)
  | RObject entries stop =>
      if container_denied depth then Err "response JSON exceeds container depth" else
      let? values := (fix each seen values l := match l with
        | [] => Ok values
        | (key, v) :: l =>
            if bool_decide (key ∈ seen) then Err "response JSON contains a duplicate object key" else
            let? v := strict (S depth) v in
            each (key :: seen) (obj_insert key v values) l
        end) [] [] entries in
      ended stop (JObject values)
  end.

End strict.

Section parse.
Context `{JsonStream}.

(** The text of an error, without the position [serde_json] appends. *)
Definition parse_strict_json_with_limits (text : string) (max_depth : nat) (max_container_depth : option nat) :
    result Json OAuthError :=
  let '(raw, trailing) := json_tree text in
  let? parsed := map_err MalformedResponse (strict max_depth max_container_depth 1 raw) in
  map_err MalformedResponse (ended trailing parsed).

Definition parse_strict_json (text : string) : result Json OAuthError :=
  parse_strict_json_with_limits text MAX_JSON_DEPTH None.

(** [codex_metadata::account_id_from_access_token]. *)
Definition ACCOUNT_NAMESPACE : string := "https://api.openai.com/auth".
Definition ACCOUNT_CLAIM : string := "chatgpt_account_id".
Definition FLATTENED_ALTERNATE_CLAIM : string := "https://api.openai.com/auth.chatgpt_account_id".

Definition invalid_claim {A} (o : option A) : result A OAuthError := ok_or o CodexMetadataInvalid.

Definition check_alternate (account_id : string) (alternate : option Json) : result unit OAuthError :=
  match alternate with
  | None => Ok tt
  | Some alternate =>
      let? alternate := invalid_claim (as_str alternate) in
      if negb (AccountClaim.valid_account_id alternate) then Err CodexMetadataInvalid else
      if str_eqb alternate account_id then Ok tt else Err CodexMetadataConflict
  end.

Definition account_id_from_access_token (token : string) : result string OAuthError :=
  if is_empty token || (65536 <? slen token)%Z then Err CodexMetadataInvalid else
  match split_on Byte.x2e (s2b token) with
  | [header; payload; signature] =>
      if bool_decide (header = []) || bool_decide (payload = []) || bool_decide (signature = [])
         || negb (forallb AccountClaim.is_compact_segment [header; payload; signature])
      then Err CodexMetadataInvalid else
      let? payload := invalid_claim (AccountClaim.decode_base64url (b2s payload)) in
      if (AccountClaim.MAX_PAYLOAD_BYTES <? blen payload)%Z || negb (utf8_valid payload) then Err CodexMetadataInvalid else
      let? parsed := map_err (fun _ => CodexMetadataInvalid) (parse_strict_json (b2s payload)) in
      let? root := invalid_claim (as_object parsed) in
      let? namespace := ok_or (obj_get ACCOUNT_NAMESPACE root) CodexMetadataUnavailable in
      let? namespace := invalid_claim (as_object namespace) in
      let? value := ok_or (obj_get ACCOUNT_CLAIM namespace) CodexMetadataUnavailable in
      let? account_id := invalid_claim (as_str value) in
      if negb (AccountClaim.valid_account_id account_id) then Err CodexMetadataInvalid else
      let? _ := check_alternate account_id (obj_get FLATTENED_ALTERNATE_CLAIM root) in
      Ok account_id
  | _ => Err CodexMetadataInvalid
  end.

End parse.

(** ** Cleaning a response *)

Definition secret_key (key : string) : bool :=
  existsb (fun candidate => eq_ignore_ascii_case candidate key) SECRET_JSON_KEYS.

Definition device_secret_key (key : string) : bool :=
  bool_decide (to_ascii_lowercase key ∈ ["device_code"; "device_id"; "device_auth_id"]).

(** Every secret-shaped key removed, nothing minted. *)
Fixpoint strip_secret_keys (value : Json) : Json :=
  match value with
  | JObject map =>
      JObject ((fix each kept l := match l with
        | [] => kept
        | (key, nested) :: l =>
            each (if secret_key key then kept else obj_insert key (strip_secret_keys nested) kept) l
        end) [] map)
  | JArray values => JArray (map strip_secret_keys values)
  | other => other
  end.

Definition public_headers (headers : list (string * string)) : list (string * string) :=
  fold_left (fun public '(name, value) =>
    let lowered := to_ascii_lowercase name in
    if bool_decide (lowered ∈ ["authorization"; "cookie"; "set-cookie"; "proxy-authorization"]) then public
    else obj_insert lowered value public) headers [].

(** [str::parse::<u64>]: an optional plus, then digits, within range. *)
Definition parse_u64 (value : string) : option Z :=
  let digits := match s2b value with b :: bs => if bool_decide (b = Byte.x2b) then bs else b :: bs | [] => [] end in
  n ← parse_digits digits;
  if is_u64 n then Some n else None.

(** [find_map]: the first header of that name whose value is a number. *)
Fixpoint retry_after_ms (headers : list (string * string)) : option Z :=
  match headers with
  | [] => None
  | (name, value) :: rest =>
      match (if eq_ignore_ascii_case name "retry-after" then parse_u64 value else None) with
      | Some seconds => Some (Z.min u64_max (seconds * 1000))
      | None => retry_after_ms rest
      end
  end.

Fixpoint json_depth (value : Json) : nat :=
  match value with
  | JObject map => S (fold_right max 0 ((fix each l := match l with [] => [] | (_, v) :: l => json_depth v :: each l end) map))
  | JArray values => S (fold_right max 0 (map json_depth values))
  | _ => 1
  end.

(** ** Exchange pairs *)

Definition keys_like (name : string) (object : list (string * Json)) : list string :=
  filter (fun key => eq_ignore_ascii_case key name = true) (map fst object).

Definition malformed_exchange : OAuthError := MalformedResponse "exchange response contains ambiguous or invalid controls".

Definition exchange_code_ok (code : string) : bool :=
  negb (is_empty code) && (slen code <=? MAX_EXCHANGE_CODE_BYTES)%Z && negb (existsb is_control (chars code)).
Definition exchange_verifier_ok (verifier : string) : bool :=
  (43 <=? slen verifier)%Z && (slen verifier <=? 128)%Z
  && forallb (fun b => is_ascii_alphanumeric b || bool_decide (b ∈ [Byte.x2d; Byte.x2e; Byte.x5f; Byte.x7e])) (s2b verifier).

Definition removed_string (key : string) (object : list (string * Json)) : result string OAuthError :=
  match obj_get key object with Some (JString s) => Ok s | _ => Err malformed_exchange end.

(** The response without the pair, and the pair. *)
Definition take_exchange_pair (value : Json) (code_field : ExchangeCodeField) :
    result (Json * option (string * string)) OAuthError :=
  match value with
  | JObject object =>
      let code_keys := keys_like "code" object in
      let authorization_code_keys := keys_like "authorization_code" object in
      let verifier_keys := keys_like "code_verifier" object in
      if (1 <? length code_keys) || (1 <? length authorization_code_keys) || (1 <? length verifier_keys)
         || (negb (bool_decide (code_keys = [])) && negb (bool_decide (authorization_code_keys = [])))
      then Err malformed_exchange else
      let selected := match code_field with Code => head code_keys | AuthorizationCode => head authorization_code_keys end in
      let has_any_code := negb (bool_decide (code_keys = [])) || negb (bool_decide (authorization_code_keys = [])) in
      match selected, head verifier_keys with
      | None, None => if has_any_code then Err malformed_exchange else Ok (value, None)
      | Some code_key, Some verifier_key =>
          let? code := removed_string code_key object in
          let object := obj_remove code_key object in
          let? verifier := removed_string verifier_key object in
          let object := obj_remove verifier_key object in
          if exchange_code_ok code && exchange_verifier_ok verifier then Ok (JObject object, Some (code, verifier))
          else Err malformed_exchange
      | _, _ => Err malformed_exchange
      end
  | _ => Ok (value, None)
  end.

Definition exchange_control (key : string) : bool :=
  bool_decide (to_ascii_lowercase key ∈ ["access_token"; "refresh_token"; "device_code"; "device_id"; "device_auth_id"]).

Fixpoint contains_new_exchange_controls (value : Json) : bool :=
  match value with
  | JObject object => existsb exchange_control (map fst object)
      || (fix each l := match l with [] => false | (_, v) :: l => contains_new_exchange_controls v || each l end) object
  | JArray values => existsb contains_new_exchange_controls values
  | _ => false
  end.

End OAuthText.
