(* ===== verification/OAuthTextSpec.v ===== *)
(** What the OAuth host's texts guarantee: percent encoding is undone by the
    host's own decoding, so a callback URL and a query read back; a cleaned
    response has no secret-shaped member at any level and keeps every other
    member; the strict reader admits no duplicate member and no depth beyond
    its bound. *)
From stdpp Require Import base list strings numbers pretty gmap.
From S2P Require Import Prelude Utf8 Json Credentials RequestBody AuthStore OAuthText.

Module OAuthTextSpec.
Import OAuthText.

(** ** Percent encoding *)

(** An escape reads back as its byte. *)
Lemma escape_reads b : from_str_radix (Body.hex_digit (Z.shiftr (bval b) 4)) (Body.hex_digit (Z.land (bval b) 15)) = Some (bval b)
  /\ Body.byte_of (bval b) = b.
Proof. split; destruct b; vm_compute; reflexivity. Qed.

Lemma unreserved_plain b : Pkce.is_unreserved_byte b = true -> b <> Byte.x25 /\ is_cont b = false /\ b <> Byte.x26 /\ b <> Byte.x3d.
Proof. destruct b; vm_compute; intros; split_and!; congruence. Qed.

Lemma hex_digit_plain b : let h := Body.hex_digit (Z.shiftr (bval b) 4) in let l := Body.hex_digit (Z.land (bval b) 15) in
  h <> Byte.x26 /\ h <> Byte.x3d /\ l <> Byte.x26 /\ l <> Byte.x3d.
Proof. destruct b; vm_compute; split_and!; congruence. Qed.

Definition encoded (bs : list byte) : list byte := concat (map percent_encode_byte bs).

Lemma encoded_head bs : match encoded bs with c :: _ => is_cont c | [] => false end = false.
Proof.
  destruct bs as [|b bs]; [done|]. unfold encoded. simpl. unfold percent_encode_byte.
  destruct (Pkce.is_unreserved_byte b) eqn:E; [by apply unreserved_plain in E as (_ & E & _)|done].
Qed.

Lemma percent_decode_plain b rest : b <> Byte.x25 ->
  percent_decode_bytes (b :: rest) = cons b <$> percent_decode_bytes rest.
Proof.
  intros N. destruct rest as [|h [|l after]]; try done. cbn [percent_decode_bytes]. by rewrite bool_decide_eq_false_2.
Qed.

Lemma percent_decode_encoded bs : percent_decode_bytes (encoded bs) = Some bs.
Proof.
  induction bs as [|b bs IH]; [done|]. change (encoded (b :: bs)) with (percent_encode_byte b ++ encoded bs).
  unfold percent_encode_byte. destruct (Pkce.is_unreserved_byte b) eqn:E.
  - apply unreserved_plain in E as (N & _). change ([b] ++ encoded bs) with (b :: encoded bs).
    by rewrite percent_decode_plain, IH.
  - set (h := Body.hex_digit _). set (l := Body.hex_digit _).
    change ([Byte.x25; h; l] ++ encoded bs) with (Byte.x25 :: h :: l :: encoded bs). cbn [percent_decode_bytes].
    rewrite bool_decide_eq_true_2, encoded_head by done. destruct (escape_reads b) as [R B]. fold h l in R. rewrite R, IH, B. done.
Qed.

Lemma s2b_percent_encode v : s2b (percent_encode v) = encoded (s2b v).
Proof. apply s2b_b2s. Qed.

(** Decoding undoes encoding. *)
Lemma percent_decode_encode v : str_valid v = true -> percent_decode (percent_encode v) = Some v.
Proof.
  intros V. unfold percent_decode. rewrite s2b_percent_encode, percent_decode_encoded. simpl.
  by rewrite from_utf8_lossy_id, b2s_s2b.
Qed.

(** Encoded text has no separator. *)
Lemma encoded_plain bs b : b ∈ encoded bs -> b <> Byte.x26 /\ b <> Byte.x3d.
Proof.
  unfold encoded. rewrite list_elem_of_In, in_concat. intros (c & (x & <- & _)%in_map_iff & Hb).
  unfold percent_encode_byte in Hb. destruct (Pkce.is_unreserved_byte x) eqn:E.
  - destruct Hb as [<-|[]]. apply unreserved_plain in E. naive_solver.
  - pose proof (hex_digit_plain x) as (? & ? & ? & ?). by destruct Hb as [<-|[<-|[<-|[]]]].
Qed.

Lemma not_in_encoded v b : b = Byte.x26 \/ b = Byte.x3d -> b ∉ s2b (percent_encode v).
Proof. intros D. rewrite s2b_percent_encode. intros ?%encoded_plain. naive_solver. Qed.

(** ** Queries *)

(** The query as a server reads it. *)
Definition read_pair (segment : list byte) : option (string * string) :=
  '(k, v) ← split_once Byte.x3d segment; k ← percent_decode (b2s k); v ← percent_decode (b2s v); Some (k, v).
Definition read_query (query : string) : list (option (string * string)) := map read_pair (split_on Byte.x26 (s2b query)).

Lemma encode_pair_no_amp kv : Byte.x26 ∉ encode_pair kv.
Proof.
  unfold encode_pair. rewrite elem_of_app, elem_of_cons. intros [H|[H|H]]; [|done|];
    revert H; apply not_in_encoded; by left.
Qed.

Lemma read_encode_pair kv : str_valid (fst kv) = true -> str_valid (snd kv) = true -> read_pair (encode_pair kv) = Some kv.
Proof.
  destruct kv as [k v]. simpl. intros Hk Hv. unfold read_pair, encode_pair. simpl.
  rewrite split_once_app by (apply not_in_encoded; by right). simpl. rewrite !b2s_s2b, !percent_decode_encode by done. done.
Qed.

Lemma read_encode_query query : query <> [] -> Forall (fun kv => str_valid (fst kv) = true /\ str_valid (snd kv) = true) query ->
  read_query (encode_query query) = map Some query.
Proof.
  intros N V. unfold read_query, encode_query. rewrite s2b_b2s, split_on_join.
  - rewrite map_map. apply map_ext_in. intros kv Hkv%list_elem_of_In. rewrite Forall_forall in V.
    destruct (V kv Hkv). by apply read_encode_pair.
  - intros E. by destruct query.
  - apply Forall_forall. intros p (kv & -> & _)%list_elem_of_fmap. apply encode_pair_no_amp.
Qed.

(** ** Callback URLs *)

Lemma encode_pair_named k v : encode_pair (k, v) = s2b (percent_encode k +:+ "=" +:+ percent_encode v).
Proof. unfold encode_pair. by rewrite !s2b_app. Qed.

Lemma scan_pair k v rest st co : str_valid v = true -> percent_encode k = k ->
  scan_callback (encode_pair (k, v) :: rest) st co =
    if str_eqb k "state" then scan_callback rest (Some v) co
    else if str_eqb k "code" then scan_callback rest st (Some v) else scan_callback rest st co.
Proof.
  intros V K. cbn [scan_callback]. unfold encode_pair. simpl fst. simpl snd.
  rewrite split_once_app by (apply not_in_encoded; by right). rewrite b2s_s2b, b2s_s2b, K.
  destruct (str_eqb k "state"); [by rewrite percent_decode_encode|]. destruct (str_eqb k "code"); [|done].
  by rewrite percent_decode_encode.
Qed.

(** A callback URL whose query carries a state and a code, percent-encoded
    as the host encodes, reads back as exactly that state and code, whatever
    precedes the query and in either order of the two. *)
Theorem callback_url_reads_back (base state code : string) (state_first : bool) :
  Byte.x3f ∉ s2b base -> str_valid state = true -> str_valid code = true ->
  let query := if state_first then [("state", state); ("code", code)] else [("code", code); ("state", state)] in
  let url := base +:+ "?" +:+ encode_query query in
  (slen url <= MAX_REQUEST_BODY_BYTES)%Z -> parse_callback_url url = Some (Ok (state, code)).
Proof.
  intros B S C query url L. unfold parse_callback_url. rewrite (proj2 (Z.ltb_ge _ _)) by done.
  unfold url. rewrite !s2b_app. change (s2b "?") with [Byte.x3f]. simpl ([_] ++ _). rewrite split_once_app by done.
  unfold encode_query. rewrite s2b_b2s, split_on_join.
  - unfold query. destruct state_first; simpl map; by rewrite !scan_pair by done.
  - by destruct state_first.
  - apply Forall_forall. intros p (kv & -> & _)%list_elem_of_fmap. apply encode_pair_no_amp.
Qed.

Lemma callback_url_reads_back_witness :
  parse_callback_url ("http://127.0.0.1:10001/callback" +:+ "?" +:+ encode_query [("code", "a b&c=%"); ("state", "s+1")])
  = Some (Ok ("s+1", "a b&c=%")).
Proof.
  apply (callback_url_reads_back "http://127.0.0.1:10001/callback" "s+1" "a b&c=%" false).
  - vm_compute. intros H. repeat (apply elem_of_cons in H as [H|H]; [discriminate H|]). by apply elem_of_nil in H.
  - vm_compute. reflexivity.
  - vm_compute. reflexivity.
  - vm_compute. discriminate.
Defined.

(** A percent sign, a letter and a character of several bytes: the decoder
    slices inside the character. *)
Definition split_character : string := b2s (s2b "%a" ++ [Byte.xc3; Byte.xa9]).

Example percent_decode_panics : str_valid split_character = true
  /\ percent_decode split_character = None
  /\ reject_reserved_form_keys split_character = None
  /\ parse_callback_url ("http://127.0.0.1/?code=" +:+ split_character) = None.
Proof. vm_compute. split_and!; reflexivity. Qed.

(** ** Cleaned responses *)

(** Members in order, without duplicates, at every level. *)
Fixpoint well_keyed (j : Json) : bool :=
  match j with
  | JArray l => forallb well_keyed l
  | JObject m => obj_sorted m && forallb (fun kv => well_keyed (snd kv)) m
  | _ => true
  end.

(** A place in a value. *)
Inductive place := Member (key : string) | Element (index : nat).

Fixpoint at_place (path : list place) (j : Json) : option Json :=
  match path with
  | [] => Some j
  | Member key :: path => match j with JObject m => v ← obj_get key m; at_place path v | _ => None end
  | Element i :: path => match j with JArray l => v ← l !! i; at_place path v | _ => None end
  end.

Definition secret_place (p : place) : bool := match p with Member key => secret_key key | Element _ => false end.

Lemma strip_object m : strip_secret_keys (JObject m) = JObject (fold_left (fun kept '(key, nested) =>
  if secret_key key then kept else obj_insert key (strip_secret_keys nested) kept) m []).
Proof.
  cbn [strip_secret_keys]. f_equal. generalize (@nil (string * Json)) as kept.
  induction m as [|[key nested] m IH]; intros kept; [done|]. cbn [fold_left]. apply IH.
Qed.

Lemma obj_get_absent {V} k (m : list (string * V)) : k ∉ map fst m -> obj_get k m = None.
Proof.
  intros N. destruct (obj_get k m) as [v|] eqn:E; [|done]. destruct N. apply obj_get_elem in E.
  apply list_elem_of_fmap. by exists (k, v).
Qed.

Lemma strip_fold_get k m kept : NoDup (map fst m) ->
  obj_get k (fold_left (fun kept '(key, nested) =>
    if secret_key key then kept else obj_insert key (strip_secret_keys nested) kept) m kept)
  = match (if secret_key k then None else obj_get k m) with
    | Some v => Some (strip_secret_keys v)
    | None => obj_get k kept
    end.
Proof.
  revert kept. induction m as [|[key nested] m IH]; intros kept; simpl; [by destruct (secret_key k)|].
  intros [N ND]%NoDup_cons. rewrite IH by done. destruct (str_eqb_spec k key) as [->|D].
  - rewrite (obj_get_absent key m) by done. destruct (secret_key key); [done|]. by rewrite obj_get_insert, str_eqb_refl.
  - destruct (secret_key k); destruct (secret_key key); try done.
    + rewrite obj_get_insert. by destruct (str_eqb_spec k key).
    + destruct (obj_get k m); [done|]. rewrite obj_get_insert. by destruct (str_eqb_spec k key).
Qed.

(** Nothing at a place under a secret-shaped key remains, and everything else
    does. *)
Lemma strip_at_place path j : well_keyed j = true ->
  at_place path (strip_secret_keys j) =
    if existsb secret_place path then None else strip_secret_keys <$> at_place path j.
Proof.
  revert j. induction path as [|p path IH]; intros j W; [done|]. destruct p as [key|i].
  - destruct j as [| | | |l|m]; [by simpl; destruct (_ || _)..|]. rewrite strip_object. cbn [at_place existsb secret_place].
    simpl in W. apply andb_true_iff in W as [S F]. rewrite strip_fold_get by by apply obj_sorted_NoDup.
    destruct (secret_key key); [done|]. destruct (obj_get key m) as [v|] eqn:E; simpl; [|by destruct (existsb _ _)].
    apply IH. apply obj_get_elem in E. rewrite forallb_forall in F. by apply (F (key, v)), list_elem_of_In.
  - destruct j as [| | | |l|m]; simpl; try by destruct (existsb secret_place path).
    simpl in W. rewrite list_lookup_fmap. destruct (l !! i) as [v|] eqn:E; simpl; [|by destruct (existsb _ _)].
    apply IH. rewrite forallb_forall in W. apply W, list_elem_of_In. by eapply list_elem_of_lookup_2.
Qed.

(** *** The secrets a response holds *)

(** The texts under secret-shaped keys, in the order of the response; nothing
    below such a key is looked at. *)
Fixpoint secret_leaves (j : Json) : list (string * string) :=
  match j with
  | JObject m => concat (map (fun kv =>
      if secret_key (fst kv) then match snd kv with JString secret => [(fst kv, secret)] | _ => [] end
      else secret_leaves (snd kv)) m)
  | JArray l => concat (map secret_leaves l)
  | _ => []
  end.

Definition device_secrets (leaves : list (string * string)) : list string :=
  map snd (List.filter (fun kv => device_secret_key (fst kv)) leaves).
(** Those under keys that name a token, and not a device. *)
Definition token_secrets (name : string) (leaves : list (string * string)) : list string :=
  map snd (List.filter (fun kv => negb (device_secret_key (fst kv)) && eq_ignore_ascii_case (fst kv) name) leaves).

Lemma device_secrets_app l k : device_secrets (l ++ k) = device_secrets l ++ device_secrets k.
Proof. unfold device_secrets. by rewrite List.filter_app, map_app. Qed.
Lemma token_secrets_app name l k : token_secrets name (l ++ k) = token_secrets name l ++ token_secrets name k.
Proof. unfold token_secrets. by rewrite List.filter_app, map_app. Qed.

Lemma strip_remove key m : secret_key key = true -> strip_secret_keys (JObject (obj_remove key m)) = strip_secret_keys (JObject m).
Proof.
  intros Hk. rewrite !strip_object. f_equal. generalize (@nil (string * Json)) as kept. unfold obj_remove.
  induction m as [|[k x] m IH]; intros kept; [done|]. simpl. destruct (str_eqb_spec key k) as [<-|]; simpl; [by rewrite Hk|done].
Qed.

Lemma leaves_remove (f : list (string * string) -> list string) key m : (forall l k, f (l ++ k) = f l ++ f k) ->
  secret_key key = true -> (forall secret, f [(key, secret)] = []) ->
  f (secret_leaves (JObject (obj_remove key m))) = f (secret_leaves (JObject m)).
Proof.
  intros Happ Hk Hf. assert (Hn : f [] = []).
  { pose proof (Happ [] []) as E. simpl in E. apply (f_equal length) in E. rewrite length_app in E. apply nil_length_inv. lia. }
  cbn [secret_leaves]. unfold obj_remove. induction m as [|[k x] m IH]; [done|].
  simpl. destruct (str_eqb_spec key k) as [<-|]; simpl; rewrite Happ; [|by rewrite Happ, IH].
  rewrite IH, Hk. by destruct x; rewrite ?Hf, ?Hn.
Qed.

Definition code_name (field : ExchangeCodeField) : string :=
  match field with Code => "code" | AuthorizationCode => "authorization_code" end.

Definition PAIR_KEYS : list string := ["code"; "authorization_code"; "code_verifier"].

Lemma pair_key key : to_ascii_lowercase key ∈ PAIR_KEYS -> secret_key key = true /\ device_secret_key key = false
  /\ forall name, name ∈ ["access_token"; "refresh_token"] -> eq_ignore_ascii_case key name = false.
Proof.
  intros Hk. unfold secret_key, device_secret_key, eq_ignore_ascii_case. set_unfold in Hk.
  split_and!; [| |intros name Hn; set_unfold in Hn];
    repeat match goal with H : _ \/ _ |- _ => destruct H as [H|H] end; try done; simpl; rewrite Hk; try (subst name); done.
Qed.

Lemma head_keys_like name m key : name ∈ PAIR_KEYS -> head (keys_like name m) = Some key ->
  eq_ignore_ascii_case key name = true /\ to_ascii_lowercase key ∈ PAIR_KEYS.
Proof.
  intros Hn Hh. assert (key ∈ keys_like name m) as [Eq _]%list_elem_of_filter
    by (destruct (keys_like name m); [done|]; injection Hh as ->; by left).
  split; [done|]. apply str_eqb_true in Eq. rewrite Eq. set_unfold in Hn. by repeat destruct Hn as [->|Hn]; [vm_compute; set_solver..|].
Qed.

Lemma removed_pair_key name key m value : name ∈ PAIR_KEYS -> eq_ignore_ascii_case key name = true ->
  to_ascii_lowercase key ∈ PAIR_KEYS -> removed_string key m = Ok value ->
  (strip_secret_keys (JObject (obj_remove key m)) = strip_secret_keys (JObject m)
   /\ device_secrets (secret_leaves (JObject (obj_remove key m))) = device_secrets (secret_leaves (JObject m))
   /\ forall name, name ∈ ["access_token"; "refresh_token"] ->
     token_secrets name (secret_leaves (JObject (obj_remove key m))) = token_secrets name (secret_leaves (JObject m)))
  /\ value ∈ token_secrets name (secret_leaves (JObject m)).
Proof.
  intros Hn Hk Hp Hr. destruct (pair_key key Hp) as (Sk & Dk & Tk). split_and!.
  - by apply strip_remove.
  - apply leaves_remove; [apply device_secrets_app|done|]. intros secret. unfold device_secrets. simpl. by rewrite Dk.
  - intros name' Hn'. apply leaves_remove; [apply token_secrets_app|done|]. intros secret. unfold token_secrets. simpl.
    by rewrite Dk, (Tk _ Hn').
  - unfold removed_string in Hr. destruct (obj_get key m) as [[| | |t| |]|] eqn:E; try done. injection Hr as ->.
    apply obj_get_elem, list_elem_of_In in E. apply list_elem_of_In, in_map_iff. exists (key, value). split; [done|].
    apply filter_In. simpl. rewrite Dk. split; [|done]. apply in_concat. eexists. split; [by apply in_map|].
    simpl. rewrite Sk. by left.
Qed.

(** Taking the pair out of a response changes neither what is left of it nor
    the tokens and devices it names; the pair is a code and a verifier of it. *)
Lemma exchange_pair_apart value field rest pair : take_exchange_pair value field = Ok (rest, pair) ->
  (strip_secret_keys rest = strip_secret_keys value
   /\ device_secrets (secret_leaves rest) = device_secrets (secret_leaves value)
   /\ forall name, name ∈ ["access_token"; "refresh_token"] ->
     token_secrets name (secret_leaves rest) = token_secrets name (secret_leaves value))
  /\ forall code verifier, pair = Some (code, verifier) -> code ∈ token_secrets (code_name field) (secret_leaves value)
    /\ verifier ∈ token_secrets "code_verifier" (secret_leaves value).
Proof.
  unfold take_exchange_pair. destruct value as [| | | | |m]; try (by intros [= <- <-]). destruct (_ || _); [done|].
  assert (Ef : match field with Code => head (keys_like "code" m) | AuthorizationCode => head (keys_like "authorization_code" m) end
    = head (keys_like (code_name field) m)) by by destruct field. rewrite Ef. clear Ef.
  assert (Hc : code_name field ∈ PAIR_KEYS) by (destruct field; vm_compute; set_solver).
  assert (Hv : "code_verifier" ∈ PAIR_KEYS) by (vm_compute; set_solver).
  destruct (head (keys_like (code_name field) m)) as [ck|] eqn:Ec, (head (keys_like "code_verifier" m)) as [vk|] eqn:Ev;
    [|done|done|destruct (_ || _); [done|by intros [= <- <-]]].
  destruct (removed_string ck m) as [code|] eqn:Rc; [|done].
  destruct (removed_string vk (obj_remove ck m)) as [verifier|] eqn:Rv; [|done]. simpl. destruct (_ && _); [|done].
  apply head_keys_like in Ec as [Ec Pc]; [|done]. apply head_keys_like in Ev as [Ev Pv]; [|done].
  destruct (removed_pair_key (code_name field) ck m code Hc Ec Pc Rc) as [(S1 & D1 & T1) C].
  destruct (removed_pair_key "code_verifier" vk (obj_remove ck m) verifier Hv Ev Pv Rv) as [(S2 & D2 & T2) _].
  assert (V : removed_string vk m = Ok verifier).
  { unfold removed_string in *. rewrite obj_get_remove in Rv. by destruct (str_eqb vk ck). }
  destruct (removed_pair_key "code_verifier" vk m verifier Hv Ev Pv V) as [_ CV].
  intros [= <- <-]. split_and!; [by rewrite S2, S1|by rewrite D2, D1| |by intros ? ? [= <- <-]].
  intros name Hn. by rewrite T2, T1.
Qed.

Lemma no_controls j : contains_new_exchange_controls j = false ->
  Forall (fun kv => exchange_control (fst kv) = false) (secret_leaves j).
Proof.
  induction j as [|b|n|t|l IH|m IH] using json_ind'; try done; cbn [contains_new_exchange_controls secret_leaves].
  - intros E. apply Forall_concat, Forall_map. induction IH as [|x l Hx _ IH]; [done|]. simpl in E.
    apply orb_false_iff in E as [? ?]. constructor; auto.
  - intros [E1 E2]%orb_false_iff. apply Forall_concat, Forall_map. induction IH as [|[k x] m Hx _ IH]; [done|]. simpl in E1, E2.
    apply orb_false_iff in E1 as [Ek E1], E2 as [Ex E2]. constructor; [|auto]. simpl. destruct (secret_key k); [|auto].
    destruct x; auto.
Qed.

Lemma no_control_secrets j : contains_new_exchange_controls j = false ->
  device_secrets (secret_leaves j) = [] /\ token_secrets "access_token" (secret_leaves j) = []
  /\ token_secrets "refresh_token" (secret_leaves j) = [].
Proof.
  intros F%no_controls. unfold device_secrets, token_secrets.
  assert (N : forall f : string -> bool, (forall key, f key = true -> exchange_control key = true) ->
    map snd (List.filter (fun kv => f (fst kv)) (secret_leaves j)) = []).
  { intros f Hf. induction F as [|[k s] l Hk _ IH]; [done|]. simpl. destruct (f k) eqn:E; [|done].
    apply Hf in E. simpl in Hk. congruence. }
  assert (T : forall name key, exchange_control name = true -> to_ascii_lowercase name = name ->
    negb (device_secret_key key) && eq_ignore_ascii_case key name = true -> exchange_control key = true).
  { intros name key Hn Hl [_ E%str_eqb_true]%andb_true_iff. unfold exchange_control in *. by rewrite E, Hl, <-Hl. }
  split_and!; [apply (N device_secret_key)|apply (N (fun key => negb (device_secret_key key) && _ key _))..]; intros key;
    [|by apply T..].
  intros E%bool_decide_eq_true. apply bool_decide_eq_true. set_solver.
Qed.

(** ** The strict reader *)

Lemma raw_ind' (P : Raw -> Prop) : P RNull -> (forall b, P (RBool b)) -> (forall n, P (RNumber n)) -> (forall s, P (RString s)) ->
  (forall l stop, Forall P l -> P (RArray l stop)) -> (forall m stop, Forall (fun kv => P (snd kv)) m -> P (RObject m stop)) ->
  (forall e, P (RError e)) -> forall r, P r.
Proof.
  intros H1 H2 H3 H4 H5 H6 H7. fix IH 1. intros [| | | |l stop|m stop|].
  - exact H1.
  - apply H2.
  - apply H3.
  - apply H4.
  - apply H5. induction l as [|r l IHl]; constructor; [apply IH|apply IHl].
  - apply H6. induction m as [|[k v] m IHm]; constructor; [apply IH|apply IHm].
  - apply H7.
Qed.

Lemma forallb_insert {V} (p : string * V -> bool) k v m :
  p (k, v) = true -> forallb p m = true -> forallb p (obj_insert k v m) = true.
Proof.
  rewrite !forallb_forall. intros Hk Hm x Hx%list_elem_of_In. apply obj_insert_keys in Hx as [->|Hx]; [done|].
  by apply Hm, list_elem_of_In.
Qed.

Section strict.
Variables (max_depth : nat) (containers : option nat).

Lemma strict_array depth l stop : strict max_depth containers depth (RArray l stop) =
  if max_depth <? depth then Err "response JSON exceeds depth" else
  if container_denied containers depth then Err "response JSON exceeds container depth" else
  let? values := try_map (strict max_depth containers (S depth)) l in ended stop (JArray values).
Proof.
  cbn [strict]. destruct (max_depth <? depth); [done|]. destruct (container_denied _ _); [done|].
  match goal with |- match ?f l with _ => _ end = _ =>
    assert (E : f l = try_map (strict max_depth containers (S depth)) l) end; [|by rewrite E].
  induction l as [|v l IH]; [done|]. simpl. destruct (strict _ _ _ v); [by rewrite IH|done].
Qed.

(** The member loop, from the members read so far. *)
Fixpoint strict_members (depth : nat) (seen : list string) (values : list (string * Json)) (l : list (string * Raw)) :
    result (list (string * Json)) string :=
  match l with
  | [] => Ok values
  | (key, v) :: l =>
      if bool_decide (key ∈ seen) then Err "response JSON contains a duplicate object key" else
      let? v := strict max_depth containers (S depth) v in
      strict_members depth (key :: seen) (obj_insert key v values) l
  end.

Lemma strict_object depth m stop : strict max_depth containers depth (RObject m stop) =
  if max_depth <? depth then Err "response JSON exceeds depth" else
  if container_denied containers depth then Err "response JSON exceeds container depth" else
  let? values := strict_members depth [] [] m in ended stop (JObject values).
Proof.
  cbn [strict]. destruct (max_depth <? depth); [done|]. destruct (container_denied _ _); [done|].
  match goal with |- match ?f [] [] m with _ => _ end = _ =>
    assert (E : forall seen values, f seen values m = strict_members depth seen values m) end; [|by rewrite E].
  induction m as [|[key v] m IH]; intros seen values; [done|]. simpl. destruct (bool_decide _); [done|].
  destruct (strict _ _ _ v); [apply IH|done].
Qed.

Lemma fold_max_bound (f : Json -> nat) l d m :
  d <= m -> Forall (fun v => f v + d <= m) l -> foldr max 0 (map f l) + d <= m.
Proof. intros ? HF. induction HF; simpl; lia. Qed.

Lemma json_depth_members (m : list (string * Json)) :
  (fix each l := match l with [] => [] | (_, v) :: l => json_depth v :: each l end) m = map json_depth (map snd m).
Proof. induction m as [|[k v] m IH]; simpl; [done|by rewrite IH]. Qed.

Lemma strict_members_ok depth m seen values vs :
  obj_sorted values = true ->
  Forall (fun kv => well_keyed (snd kv) = true /\ json_depth (snd kv) + depth <= max_depth) values ->
  Forall (fun kv => forall v, strict max_depth containers (S depth) (snd kv) = Ok v ->
    well_keyed v = true /\ json_depth v + depth <= max_depth) m ->
  strict_members depth seen values m = Ok vs ->
  obj_sorted vs = true /\ Forall (fun kv => well_keyed (snd kv) = true /\ json_depth (snd kv) + depth <= max_depth) vs.
Proof.
  intros S A F. revert seen values S A. induction F as [|[key r] m Hr F IH]; intros seen values S A; simpl.
  - by intros [= <-].
  - destruct (bool_decide _); [done|]. destruct (strict _ _ _ r) as [v|] eqn:E; [|done].
    apply IH; [by apply obj_insert_sorted|]. apply Forall_forall. intros kv [->|Hkv]%obj_insert_keys; [by apply Hr|].
    rewrite Forall_forall in A. auto.
Qed.

(** What it returns has no duplicate member and at most [max_depth] levels. *)
Lemma strict_ok depth raw j : strict max_depth containers depth raw = Ok j ->
  well_keyed j = true /\ json_depth j + depth <= S max_depth.
Proof.
  revert depth j. induction raw as [| | | |l stop IH|m stop IH|] using raw_ind'; intros depth j.
  5: rewrite strict_array. 6: rewrite strict_object. 1-4,7: cbn [strict].
  all: destruct (Nat.ltb_spec max_depth depth) as [|Hd]; [done|].
  1-4: by intros [= <-]; simpl; split; [done|lia].
  - done.
  - destruct (container_denied _ _); [done|]. destruct (try_map _ _) as [vs|] eqn:E; [|done].
    destruct stop; [done|]. intros [= <-]. apply try_map_Ok in E.
    assert (A : Forall (fun v => well_keyed v = true /\ json_depth v + depth <= max_depth) vs).
    { clear -IH E. induction E as [|r v l vs Hr _ IHv]; [constructor|]. apply Forall_cons in IH as [Hi IH].
      constructor; [|by apply IHv]. destruct (Hi _ _ Hr). split; [done|lia]. }
    simpl. split.
    + apply forallb_forall. intros v Hv%list_elem_of_In. rewrite Forall_forall in A. by apply A.
    + enough (foldr max 0 (map json_depth vs) + depth <= max_depth) by lia. apply fold_max_bound; [lia|].
      eapply Forall_impl; [apply A|]. simpl. intros v [_ ?]. lia.
  - destruct (container_denied _ _); [done|]. destruct (strict_members _ _ _ _) as [vs|] eqn:E; [|done].
    destruct stop; [done|]. intros [= <-]. apply strict_members_ok in E as [S A].
    + simpl. rewrite S, json_depth_members. split.
      * apply forallb_forall. intros kv Hv%list_elem_of_In. rewrite Forall_forall in A. by apply A.
      * enough (foldr max 0 (map json_depth (map snd vs)) + depth <= max_depth) by lia. apply fold_max_bound; [lia|].
        apply Forall_forall. intros v (kv & -> & Hkv)%list_elem_of_fmap. rewrite Forall_forall in A.
        destruct (A kv Hkv). lia.
    + done.
    + constructor.
    + eapply Forall_impl; [apply IH|]. simpl. intros kv Hkv v Hv. destruct (Hkv _ _ Hv). split; [done|lia].
Qed.

End strict.

End OAuthTextSpec.
