(* ===== verification/OAuth.v ===== *)
(** The OAuth host: [auth/oauth.rs], the flows and the transport boundary.

    A flow is a shared cell of the host (an [Arc] with atomic flags and locked
    texts); here it is an entry of a heap, referred to by its number.  A
    handle of another host, or of none, is [Elsewhere].  Before every access
    to a shared cell, every acquisition of the registry's lock and every call
    of the transport, the browser or the callback waiter, other threads may
    run ([oauth_threads]); while [flows_locked], they leave the registry
    alone.  Requests sent, pages opened and callback sessions closed are
    recorded.  A flow's destructor, which closes its callback session when the
    last handle goes, is not modelled. *)
From stdpp Require Import base list strings numbers pretty gmap.
From S2P Require Import Prelude Utf8 Json Credentials RequestBody AuthStore OAuthText.

Module OAuth.
Import OAuthText.
Import AuthStore (HandleState, HANDLE_LIVE, HANDLE_USED, HANDLE_EXPIRED, HANDLE_REVOKED).
#[local] Existing Instance AuthStore.handle_state_eq_dec.

(** ** Data *)

Inductive Handle := Here (flow : nat) | Elsewhere.

Inductive CredentialUse :=
| NoCredential
| AccessUse (handle : nat)
| RefreshUse (handle : nat)
| AuthorizationCodeUse (code verifier : Handle)
| DeviceUse (handle : Handle).

Inductive RawCallbackInput := Query (state code : string) | ManualUrl (url : string) | TimeoutInput | CancelledInput.

Record FlowInner := {
  fl_id : nat; fl_policy_generation : Z; fl_run_id : string; fl_credential_id : string; fl_expires_at : Z;
  fl_redirect_uri : string; fl_prepared_callback : option nat;
  fl_state : string; fl_verifier : string; fl_code : option string; fl_device_code : string;
  fl_callback : HandleState; fl_verifier_state : HandleState; fl_code_state : HandleState; fl_device_state : HandleState;
  fl_callback_succeeded : bool; fl_revoked : bool; fl_device_in_flight : bool
}.

Inductive Flag := CallbackFlag | VerifierFlag | CodeFlag | DeviceFlag.

Record Host := {
  cells : gmap nat FlowInner; next_cell : nat; registry : gmap nat nat; flows_locked : bool; next_id : nat;
  native_callbacks : bool;
  vault : AuthStore.Store;
  clocks : nat; checks : nat; calls : nat; draws : nat; pauses : nat;
  sent : list PreparedHttpsRequest; opened : list string; closed_sessions : list nat
}.

(** A call ends with a value, an error, or a panic. *)
Inductive Fault := Fails (error : OAuthError) | Panics.

Definition M (A : Type) : Type := FS Host Fault A.

(** [OAuthIoContext]: its deadline, its response bound and whether an owner can
    cancel it too. *)
Record Context_ := { cx_deadline : Z; cx_owned : bool; cx_max_response_body_bytes : Z }.

Class OAuthDeps := {
  oauth_clock : nat -> Z;
  host_cancelled : nat -> bool;
  owner_cancelled : nat -> bool;
  transport_send : nat -> PreparedHttpsRequest -> Context_ -> result RawHttpsResponse OAuthError;
  transport_start : nat -> PreparedHttpsRequest -> Context_ -> result unit OAuthError;
  callback_prepare : nat -> CallbackMode -> result (option string) OAuthError;
  callback_wait_one : nat -> option nat -> result RawCallbackInput OAuthError;
  callback_inject : nat -> RawCallbackInput -> result unit OAuthError;
  browser_open : nat -> string -> result unit OAuthError;
  oauth_threads : nat -> Host -> Host
}.

Section host.
Context `{D : OAuthDeps} `{AH : AuthStore.AuthHost} `{R : Ring} `{J : JsonStream} `{U : UrlCrate} `{JS : Body.JsonStrings}.

(** ** Steps *)

Definition with_cells f (h : Host) : Host := {|
  cells := f (cells h); next_cell := next_cell h; registry := registry h; flows_locked := flows_locked h; next_id := next_id h;
  native_callbacks := native_callbacks h; vault := vault h; clocks := clocks h; checks := checks h; calls := calls h;
  draws := draws h; pauses := pauses h; sent := sent h; opened := opened h; closed_sessions := closed_sessions h |}.
Definition with_registry f (h : Host) : Host := {|
  cells := cells h; next_cell := next_cell h; registry := f (registry h); flows_locked := flows_locked h; next_id := next_id h;
  native_callbacks := native_callbacks h; vault := vault h; clocks := clocks h; checks := checks h; calls := calls h;
  draws := draws h; pauses := pauses h; sent := sent h; opened := opened h; closed_sessions := closed_sessions h |}.
Definition with_locked b (h : Host) : Host := {|
  cells := cells h; next_cell := next_cell h; registry := registry h; flows_locked := b; next_id := next_id h;
  native_callbacks := native_callbacks h; vault := vault h; clocks := clocks h; checks := checks h; calls := calls h;
  draws := draws h; pauses := pauses h; sent := sent h; opened := opened h; closed_sessions := closed_sessions h |}.
Definition with_next_id f (h : Host) : Host := {|
  cells := cells h; next_cell := next_cell h; registry := registry h; flows_locked := flows_locked h; next_id := f (next_id h);
  native_callbacks := native_callbacks h; vault := vault h; clocks := clocks h; checks := checks h; calls := calls h;
  draws := draws h; pauses := pauses h; sent := sent h; opened := opened h; closed_sessions := closed_sessions h |}.
Definition with_vault v (h : Host) : Host := {|
  cells := cells h; next_cell := next_cell h; registry := registry h; flows_locked := flows_locked h; next_id := next_id h;
  native_callbacks := native_callbacks h; vault := v; clocks := clocks h; checks := checks h; calls := calls h;
  draws := draws h; pauses := pauses h; sent := sent h; opened := opened h; closed_sessions := closed_sessions h |}.
Definition counted (t k c d p : nat) (h : Host) : Host := {|
  cells := cells h; next_cell := next_cell h; registry := registry h; flows_locked := flows_locked h; next_id := next_id h;
  native_callbacks := native_callbacks h; vault := vault h; clocks := t + clocks h; checks := k + checks h;
  calls := c + calls h; draws := d + draws h; pauses := p + pauses h; sent := sent h; opened := opened h;
  closed_sessions := closed_sessions h |}.
Definition recorded (requests : list PreparedHttpsRequest) (pages : list string) (sessions : list nat) (h : Host) : Host := {|
  cells := cells h; next_cell := next_cell h; registry := registry h; flows_locked := flows_locked h; next_id := next_id h;
  native_callbacks := native_callbacks h; vault := vault h; clocks := clocks h; checks := checks h; calls := calls h;
  draws := draws h; pauses := pauses h; sent := sent h ++ requests; opened := opened h ++ pages;
  closed_sessions := closed_sessions h ++ sessions |}.

Definition fail {A} (e : OAuthError) : M A := fs_fail (Fails e).
Definition guard (b : bool) (e : OAuthError) : M unit := fs_guard b (Fails e).
Definition lift {A} (r : result A OAuthError) : M A := fs_lift (map_err Fails r).
(** A function that may panic. *)
Definition unwinding {A} (r : option (result A OAuthError)) : M A :=
  match r with Some r => lift r | None => fs_fail Panics end.

Definition clock_now : M Z := fun h => (counted 1 0 0 0 0 h, Ok (oauth_clock (clocks h))).

(** [self.inner.cancel.is_cancelled()]. *)
Definition is_cancelled (owned : bool) : M bool := fun h =>
  (counted 0 1 0 0 0 h, Ok (host_cancelled (checks h) || owned && owner_cancelled (checks h))).

Definition io_context (deadline : Z) (owned : bool) : Context_ :=
  {| cx_deadline := deadline; cx_owned := owned; cx_max_response_body_bytes := MAX_RESPONSE_BODY_BYTES |}.

(** [OAuthIoContext::check]. *)
Definition context_check (context : Context_) : M unit :=
  let* cancelled := is_cancelled (cx_owned context) in
  let* _ := guard (negb cancelled) Cancelled in
  let* now := clock_now in
  guard (now <? cx_deadline context)%Z DeadlineExceeded.

(** [m.is_ok()], and [m] with its error ignored. *)
Definition attempt {A} (m : M A) : M (result A Fault) := fs_match m fs_ret.

Definition atomic {A} (f : Host -> Host * A) : M A := fun h =>
  let '(h, a) := f (oauth_threads (pauses h) (counted 0 0 0 0 1 h)) in (h, Ok a).

(** A call into an injected component. *)
Definition external {A} (f : nat -> result A OAuthError) : M A := fun h =>
  let h := oauth_threads (pauses h) (counted 0 0 0 0 1 h) in
  (counted 0 0 1 0 0 h, map_err Fails (f (calls h))).

Definition in_vault {A} (m : AuthStore.M A) : M A := fun h =>
  let '(v, r) := m (vault h) in (with_vault v h, map_err (fun e => Fails (StoreFailure e)) r).

Definition null_flow : FlowInner := {|
  fl_id := 0; fl_policy_generation := 0; fl_run_id := EmptyString; fl_credential_id := EmptyString; fl_expires_at := 0;
  fl_redirect_uri := EmptyString; fl_prepared_callback := None; fl_state := EmptyString; fl_verifier := EmptyString;
  fl_code := None; fl_device_code := EmptyString; fl_callback := HANDLE_REVOKED; fl_verifier_state := HANDLE_REVOKED;
  fl_code_state := HANDLE_REVOKED; fl_device_state := HANDLE_REVOKED; fl_callback_succeeded := false; fl_revoked := true;
  fl_device_in_flight := false |}.

Definition flow_of (h : Host) (id : nat) : FlowInner := default null_flow (cells h !! id).
(** The fields that never change. *)
Definition get_flow (id : nat) : M FlowInner := fun h => (h, Ok (flow_of h id)).

Definition flag_of (f : Flag) (x : FlowInner) : HandleState :=
  match f with
  | CallbackFlag => fl_callback x | VerifierFlag => fl_verifier_state x
  | CodeFlag => fl_code_state x | DeviceFlag => fl_device_state x
  end.

(** The flow with new texts, flags and marks; its binding stays. *)
Definition with_texts (st vf : string) (co : option string) (dc : string) (x : FlowInner) : FlowInner := {|
  fl_id := fl_id x; fl_policy_generation := fl_policy_generation x; fl_run_id := fl_run_id x; fl_credential_id := fl_credential_id x;
  fl_expires_at := fl_expires_at x; fl_redirect_uri := fl_redirect_uri x; fl_prepared_callback := fl_prepared_callback x;
  fl_state := st; fl_verifier := vf; fl_code := co; fl_device_code := dc;
  fl_callback := fl_callback x; fl_verifier_state := fl_verifier_state x; fl_code_state := fl_code_state x;
  fl_device_state := fl_device_state x; fl_callback_succeeded := fl_callback_succeeded x; fl_revoked := fl_revoked x;
  fl_device_in_flight := fl_device_in_flight x |}.
Definition set_flag (f : Flag) (v : HandleState) (x : FlowInner) : FlowInner := {|
  fl_id := fl_id x; fl_policy_generation := fl_policy_generation x; fl_run_id := fl_run_id x; fl_credential_id := fl_credential_id x;
  fl_expires_at := fl_expires_at x; fl_redirect_uri := fl_redirect_uri x; fl_prepared_callback := fl_prepared_callback x;
  fl_state := fl_state x; fl_verifier := fl_verifier x; fl_code := fl_code x; fl_device_code := fl_device_code x;
  fl_callback := match f with CallbackFlag => v | _ => fl_callback x end;
  fl_verifier_state := match f with VerifierFlag => v | _ => fl_verifier_state x end;
  fl_code_state := match f with CodeFlag => v | _ => fl_code_state x end;
  fl_device_state := match f with DeviceFlag => v | _ => fl_device_state x end;
  fl_callback_succeeded := fl_callback_succeeded x; fl_revoked := fl_revoked x;
  fl_device_in_flight := fl_device_in_flight x |}.
Definition with_marks (succeeded revoked in_flight : bool) (x : FlowInner) : FlowInner := {|
  fl_id := fl_id x; fl_policy_generation := fl_policy_generation x; fl_run_id := fl_run_id x; fl_credential_id := fl_credential_id x;
  fl_expires_at := fl_expires_at x; fl_redirect_uri := fl_redirect_uri x; fl_prepared_callback := fl_prepared_callback x;
  fl_state := fl_state x; fl_verifier := fl_verifier x; fl_code := fl_code x; fl_device_code := fl_device_code x;
  fl_callback := fl_callback x; fl_verifier_state := fl_verifier_state x; fl_code_state := fl_code_state x;
  fl_device_state := fl_device_state x; fl_callback_succeeded := succeeded; fl_revoked := revoked;
  fl_device_in_flight := in_flight |}.

Definition clear_state (x : FlowInner) : FlowInner := with_texts EmptyString (fl_verifier x) (fl_code x) (fl_device_code x) x.
Definition clear_verifier (x : FlowInner) : FlowInner := with_texts (fl_state x) EmptyString (fl_code x) (fl_device_code x) x.
Definition put_code (co : option string) (x : FlowInner) : FlowInner := with_texts (fl_state x) (fl_verifier x) co (fl_device_code x) x.
Definition clear_device (x : FlowInner) : FlowInner := with_texts (fl_state x) (fl_verifier x) (fl_code x) EmptyString x.
Definition mark_succeeded (x : FlowInner) : FlowInner := with_marks true (fl_revoked x) (fl_device_in_flight x) x.
Definition mark_flow_revoked (x : FlowInner) : FlowInner := with_marks (fl_callback_succeeded x) true (fl_device_in_flight x) x.
Definition mark_in_flight (b : bool) (x : FlowInner) : FlowInner := with_marks (fl_callback_succeeded x) (fl_revoked x) b x.

Definition reading {A} (id : nat) (g : FlowInner -> A) : M A := atomic (fun h => (h, g (flow_of h id))).
Definition updating (id : nat) (f : FlowInner -> FlowInner) : M unit := atomic (fun h => (with_cells (alter f id) h, tt)).
Definition flag_load (id : nat) (f : Flag) : M HandleState := reading id (flag_of f).
Definition flag_store (id : nat) (f : Flag) (v : HandleState) : M unit := updating id (set_flag f v).
(** [compare_exchange(HANDLE_LIVE, HANDLE_USED)]. *)
Definition flag_take (id : nat) (f : Flag) : M bool := atomic (fun h =>
  if decide (flag_of f (flow_of h id) = HANDLE_LIVE) then (with_cells (alter (set_flag f HANDLE_USED) id) h, true)
  else (h, false)).

(** ** Flows *)

Definition check_flag (id : nat) (f : Flag) (class : string) (now : Z) : M unit :=
  let* x := get_flow id in
  let* st := flag_load id f in
  match st with
  | HANDLE_USED => fail (HandleReplayed class)
  | HANDLE_REVOKED => fail (HandleRevoked class)
  | HANDLE_EXPIRED => fail (HandleExpired class)
  | HANDLE_LIVE =>
      if (fl_expires_at x <=? now)%Z
      then let* _ := flag_store id f HANDLE_EXPIRED in fail (HandleExpired class)
      else fs_ret tt
  end.

Definition take_flag (id : nat) (f : Flag) (class : string) : M unit :=
  let* won := flag_take id f in guard won (HandleReplayed class).

Definition consume_flag (id : nat) (f : Flag) (class : string) (now : Z) : M unit :=
  let* _ := check_flag id f class now in take_flag id f class.

Definition flow_check_binding (id : nat) (policy : TrustedTransportPolicy) (credential_id class : string) : M unit :=
  let* x := get_flow id in
  guard ((fl_policy_generation x =? tp_generation policy)%Z && str_eqb (fl_run_id x) (tp_run_id policy)
         && str_eqb (fl_credential_id x) credential_id) (HandleProvenance class).

Definition preview_exchange (id : nat) (now : Z) : M (string * string) :=
  let* _ := check_flag id CodeFlag CODE_HANDLE_CLASS now in
  let* _ := check_flag id VerifierFlag VERIFIER_HANDLE_CLASS now in
  let* code := reading id fl_code in
  let* raw_code := lift (ok_or code (HandleInvalid CODE_HANDLE_CLASS)) in
  let* raw_verifier := reading id fl_verifier in
  let* _ := guard (negb (is_empty raw_verifier)) (HandleInvalid VERIFIER_HANDLE_CLASS) in
  fs_ret (raw_code, raw_verifier).

Definition consume_exchange (id : nat) (now : Z) : M (string * string) :=
  let* parts := preview_exchange id now in
  let* _ := take_flag id CodeFlag CODE_HANDLE_CLASS in
  let* _ := take_flag id VerifierFlag VERIFIER_HANDLE_CLASS in
  let* _ := updating id (put_code None) in
  let* _ := updating id clear_verifier in
  fs_ret parts.

Definition begin_device_poll (id : nat) (now : Z) : M unit :=
  let* _ := check_flag id DeviceFlag DEVICE_HANDLE_CLASS now in
  let* won := atomic (fun h => if fl_device_in_flight (flow_of h id) then (h, false)
    else (with_cells (alter (mark_in_flight true) id) h, true)) in
  guard won (HandleReplayed DEVICE_HANDLE_CLASS).

Definition device_id (id : nat) : M string :=
  let* device_code := reading id fl_device_code in
  let* _ := guard (negb (is_empty device_code)) (HandleInvalid DEVICE_HANDLE_CLASS) in
  fs_ret device_code.

Definition flow_revoke (id : nat) : M unit :=
  let* x := get_flow id in
  let* _ := updating id mark_flow_revoked in
  let* _ := flag_store id CallbackFlag HANDLE_REVOKED in
  let* _ := flag_store id VerifierFlag HANDLE_REVOKED in
  let* _ := flag_store id CodeFlag HANDLE_REVOKED in
  let* _ := flag_store id DeviceFlag HANDLE_REVOKED in
  let* _ := updating id (mark_in_flight false) in
  let* _ := match fl_prepared_callback x with Some session => (fun h => (recorded [] [] [session] h, Ok tt)) | None => fs_ret tt end in
  let* _ := updating id clear_verifier in
  let* _ := updating id (put_code None) in
  let* _ := updating id clear_device in
  updating id clear_state.

(** [&&] over loads. *)
Fixpoint none_live (id : nat) (flags : list Flag) : M bool :=
  match flags with
  | [] => fs_ret true
  | f :: rest => let* st := flag_load id f in if decide (st = HANDLE_LIVE) then fs_ret false else none_live id rest
  end.

Definition is_terminal (id : nat) : M bool := none_live id [CallbackFlag; VerifierFlag; CodeFlag; DeviceFlag].

(** ** The registry *)

(** The lock is held while [m] runs. *)
Definition with_flows {A} (m : M A) : M A :=
  let* _ := atomic (fun h => (with_locked true h, tt)) in
  fs_match m (fun r h => (with_locked false h, r)).

(** [flows.remove(&flow.id)] and [flows.insert(flow.id, flow)]. *)
Definition forget (cell : nat) : M unit := fun h => (with_registry (delete (fl_id (flow_of h cell))) h, Ok tt).
Definition register (cell : nat) : M unit := fun h => (with_registry (insert (fl_id (flow_of h cell)) cell) h, Ok tt).
(** The flow itself is the one registered under its number. *)
Definition registered (cell : nat) : M bool := fun h =>
  (h, Ok (bool_decide (registry h !! fl_id (flow_of h cell) = Some cell))).
Definition flow_count : M nat := fun h => (h, Ok (size (registry h))).

(** The flows the registry holds, in some order. *)
Definition registry_cells (h : Host) : list nat := map snd (map_to_list (registry h)).

Fixpoint sweep_flows (now : Z) (ids : list nat) : M unit :=
  match ids with
  | [] => fs_ret tt
  | id :: rest =>
      let* x := get_flow id in
      let* over := if (fl_expires_at x <=? now)%Z then fs_ret true else is_terminal id in
      let* _ := if (over : bool) then let* _ := flow_revoke id in forget id else fs_ret tt in
      sweep_flows now rest
  end.

Definition sweep_locked : M unit :=
  let* now := clock_now in
  fun h => sweep_flows now (registry_cells h) h.

Definition insert_flow (id : nat) : M unit :=
  let* full := with_flows (
    let* _ := sweep_locked in
    let* count := flow_count in
    if MAX_LIVE_OAUTH_FLOWS <=? count then fs_ret true else let* _ := register id in fs_ret false) in
  if (full : bool) then let* _ := flow_revoke id in fail (InvalidIntent "live oauth flow limit reached") else fs_ret tt.

Definition drop_flow (id : nat) : M unit := with_flows (forget id).

Definition drop_and_revoke (id : nat) : M unit :=
  let* _ := flow_revoke id in drop_flow id.

(** [drop_and_revoke] before an error is returned. *)
Definition revoke_and_fail {A} (id : nat) (e : OAuthError) : M A := let* _ := drop_and_revoke id in fail e.

(** [if let Err(error) = m { .. return Err(error) }]. *)
Definition or_else {A} (m : M A) (cleanup : M unit) : M A :=
  fs_match m (fun r => match r with
    | Ok a => fs_ret a
    | Err (Fails e) => let* _ := cleanup in fail e
    | Err Panics => fs_fail Panics
    end).

Definition fetch_id : M nat := atomic (fun h => (with_next_id S h, next_id h)).
(** [Arc::new(FlowInner { .. })]. *)
Definition new_flow (x : FlowInner) : M nat := fun h =>
  ({| cells := <[next_cell h := x]> (cells h); next_cell := S (next_cell h); registry := registry h;
      flows_locked := flows_locked h; next_id := next_id h; native_callbacks := native_callbacks h; vault := vault h;
      clocks := clocks h; checks := checks h; calls := calls h; draws := draws h; pauses := pauses h; sent := sent h;
      opened := opened h; closed_sessions := closed_sessions h |}, Ok (next_cell h)).

Definition live_flow (handle : Handle) (class : string) : M nat :=
  match handle with Here id => fs_ret id | Elsewhere => fail (HandleInvalid class) end.

Fixpoint revoke_matching (run_id : string) (ids : list nat) : M unit :=
  match ids with
  | [] => fs_ret tt
  | id :: rest =>
      let* x := get_flow id in
      let* _ := if str_eqb (fl_run_id x) run_id then let* _ := flow_revoke id in forget id else fs_ret tt in
      revoke_matching run_id rest
  end.

Definition revoke_run (run_id : string) : M unit :=
  with_flows (fun h => revoke_matching run_id (registry_cells h) h).

(** ** Authorization *)

Record PkceBeginEnvelope := {
  pb_authorization_url : string; pb_redirect_uri : string; pb_code_challenge : string; pb_flow : nat
}.

(** [pkce::generate], two draws of the random source. *)
Definition generate_pkce : M Pkce.PkceMaterial := fun h =>
  (counted 0 0 0 2 0 h, map_err (fun e => Fails (PkceFailure e)) (Pkce.generate (draws h))).

(** [PreparedCallbackGuard]: the session is closed when [m] fails. *)
Definition guarding (session : option nat) {A} (m : M A) : M A :=
  fs_match m (fun r => match r, session with
    | Err _, Some k => (fun h => (recorded [] [] [k] h, r))
    | _, _ => fs_lift r
    end).

(** The prepared session, by the number of the call that prepared it, and its
    redirect URI. *)
Definition prepare_callback (mode : CallbackMode) : M (option (nat * string)) := fun h =>
  let h := oauth_threads (pauses h) (counted 0 0 0 0 1 h) in
  (counted 0 0 1 0 0 h, map_err Fails (result_map (fun uri => pair (calls h) <$> uri) (callback_prepare (calls h) mode))).

Definition default_redirect (id : nat) : string :=
  "http://127.0.0.1:" +:+ pretty (10000 + Z.of_nat id mod 50000)%Z +:+ "/callback".

Definition authorization_query (intent : BoundedPublicOAuthIntent) (state challenge redirect_uri : string) :
    list (string * string) :=
  let query := obj_of_list (in_public_query intent) in
  let query := match in_scopes intent with [] => query | scopes => obj_insert "scope" (String.concat " " scopes) query end in
  let query := obj_insert "state" state query in
  let query := obj_insert "code_challenge" challenge query in
  let query := obj_insert "code_challenge_method" Pkce.PKCE_CHALLENGE_METHOD query in
  obj_insert "redirect_uri" redirect_uri query.

Definition authorization_url_of (endpoint : TrustedEndpoint) (path : string) (query : list (string * string)) : string :=
  "https://" +:+ te_authority endpoint +:+ path +:+ "?" +:+ encode_query query.

Definition pkce_flow (id : nat) (policy : TrustedTransportPolicy) (intent : BoundedPublicOAuthIntent) (expires_at : Z)
    (material : Pkce.PkceMaterial) (redirect_uri : string) (session : option nat) : FlowInner := {|
  fl_id := id; fl_policy_generation := tp_generation policy; fl_run_id := tp_run_id policy; fl_credential_id := in_credential_id intent;
  fl_expires_at := expires_at; fl_redirect_uri := redirect_uri; fl_prepared_callback := session;
  fl_state := Pkce.state material; fl_verifier := Pkce.verifier material; fl_code := None; fl_device_code := EmptyString;
  fl_callback := HANDLE_LIVE; fl_verifier_state := HANDLE_LIVE; fl_code_state := HANDLE_LIVE;
  fl_device_state := HANDLE_REVOKED; fl_callback_succeeded := false; fl_revoked := false; fl_device_in_flight := false |}.

Definition open_browser (url : string) : M unit :=
  let* _ := (fun h => (recorded [] [url] [] h, Ok tt)) in
  external (fun call => browser_open call url).

(** [first.and(second)] of two results. *)
Definition both {A} (first : result unit Fault) (second : result A Fault) : M A :=
  match first with Ok _ => fs_lift second | Err e => fs_fail e end.

Definition is_browser (mode : CallbackMode) : bool := match mode with Browser => true | _ => false end.

Definition pkce_begin_inner (policy : TrustedTransportPolicy) (intent : BoundedPublicOAuthIntent) (owned : bool) :
    M PkceBeginEnvelope :=
  let* _ := context_check (io_context (tp_deadline policy) owned) in
  let* _ := match in_flow intent with
    | DeviceCode => fail (InvalidIntent "device_code flow does not use pkce_begin")
    | AuthorizationCodePkce => fs_ret tt
    end in
  let* _ := lift (validate_intent intent) in
  let* endpoint := lift (admit_path policy (in_path intent)) in
  let* material := generate_pkce in
  let* id := fetch_id in
  let* now := clock_now in
  let expires_at := Z.min (tp_deadline policy) (now + CALLBACK_TTL) in
  let context := io_context expires_at owned in
  let* _ := context_check context in
  let* prepared := prepare_callback (in_callback_mode intent) in
  let session := fst <$> prepared in
  let* built := guarding session (
    let* _ := context_check context in
    let* _ := (fun h => if native_callbacks h && bool_decide (prepared = None)
      then (h, Err (Fails (Transport "native callback session preparation failed"))) else (h, Ok tt)) in
    let redirect_uri := match prepared with Some (_, uri) => uri | None => default_redirect id end in
    let query := authorization_query intent (Pkce.state material) (Pkce.challenge material) redirect_uri in
    let authorization_url := authorization_url_of endpoint (in_path intent) query in
    let* cell := new_flow (pkce_flow id policy intent expires_at material redirect_uri session) in
    let* _ := insert_flow cell in
    fs_ret (authorization_url, redirect_uri, cell)) in
  let '(authorization_url, redirect_uri, cell) := built in
  let* opened := attempt (
    let* _ := context_check context in
    if is_browser (in_callback_mode intent) then open_browser authorization_url else fs_ret tt) in
  let* again := attempt (context_check context) in
  let* _ := or_else (both again opened) (drop_and_revoke cell) in
  fs_ret {| pb_authorization_url := authorization_url; pb_redirect_uri := redirect_uri;
            pb_code_challenge := Pkce.challenge material; pb_flow := cell |}.

(** ** The callback *)

Definition callback_wait_error (e : OAuthError) : OAuthError :=
  match e with Cancelled => CallbackCancelled | DeadlineExceeded => CallbackTimeout | other => other end.

Definition csrf_state (id : nat) : M string := reading id fl_state.

(** [state_matches]: equality, in constant time. *)
Definition state_matches (a b : string) : bool := str_eqb a b.

Definition callback_parts (id : nat) (input : RawCallbackInput) : M (string * string) :=
  match input with
  | TimeoutInput => revoke_and_fail id CallbackTimeout
  | CancelledInput => revoke_and_fail id CallbackCancelled
  | Query state code => fs_ret (state, code)
  | ManualUrl url => or_else (unwinding (parse_callback_url url)) (drop_and_revoke id)
  end.

(** The answer is a handle on the code of this flow. *)
Definition finish_callback (id : nat) (input : RawCallbackInput) : M nat :=
  let* x := get_flow id in
  let* revoked := reading id fl_revoked in
  let* _ := guard (negb revoked) (HandleRevoked CALLBACK_HANDLE_CLASS) in
  let* now := clock_now in
  let* cancelled := is_cancelled false in
  let* _ := if (cancelled : bool) then revoke_and_fail id CallbackCancelled else fs_ret tt in
  let* _ := if (fl_expires_at x <=? now)%Z then revoke_and_fail id CallbackTimeout else fs_ret tt in
  let* parts := callback_parts id input in
  let* _ := if (MAX_REQUEST_BODY_BYTES <? slen (snd parts))%Z || (MAX_PUBLIC_QUERY_BYTES <? slen (fst parts))%Z
    then revoke_and_fail id (RequestTooLarge MAX_REQUEST_BODY_BYTES) else fs_ret tt in
  let* state := csrf_state id in
  let* _ := if state_matches (fst parts) state then fs_ret tt else revoke_and_fail id StateMismatch in
  let* _ := updating id clear_state in
  let* _ := updating id (put_code (Some (snd parts))) in
  let* _ := updating id mark_succeeded in
  fs_ret id.

Definition expired_fault (e : OAuthError) : bool := match e with HandleExpired _ => true | _ => false end.

(** The callback is taken, or the flow is given up. *)
Definition take_callback (id : nat) (now : Z) : M unit :=
  fs_match (consume_flag id CallbackFlag CALLBACK_HANDLE_CLASS now) (fun r => match r with
    | Ok _ => fs_ret tt
    | Err Panics => fs_fail Panics
    | Err (Fails e) =>
        let* over := if expired_fault e then fs_ret true else reading id fl_revoked in
        if (over : bool) then revoke_and_fail id e else fail e
    end).

(** An error of the wait gives the flow up. *)
Definition settle {A} (id : nat) (r : result A Fault) : M A :=
  match r with
  | Ok a => fs_ret a
  | Err (Fails e) => revoke_and_fail id (callback_wait_error e)
  | Err Panics => fs_fail Panics
  end.

Definition callback_wait_inner (policy : option TrustedTransportPolicy) (handle : Handle) (owned : bool) : M nat :=
  let* id := live_flow handle CALLBACK_HANDLE_CLASS in
  let* x := get_flow id in
  let* cancelled := is_cancelled false in
  let* _ := if (cancelled : bool) then revoke_and_fail id CallbackCancelled else fs_ret tt in
  let* revoked := reading id fl_revoked in
  let* _ := guard (negb revoked) (HandleRevoked CALLBACK_HANDLE_CLASS) in
  let* _ := match policy with
    | Some policy => or_else (flow_check_binding id policy (fl_credential_id x) CALLBACK_HANDLE_CLASS) (drop_and_revoke id)
    | None => fs_ret tt
    end in
  let deadline := match policy with Some policy => Z.min (fl_expires_at x) (tp_deadline policy) | None => fl_expires_at x end in
  let context := io_context deadline owned in
  let* _ := match policy with
    | Some _ => let* r := attempt (context_check context) in settle id r
    | None => fs_ret tt
    end in
  let* now := clock_now in
  let* _ := take_callback id now in
  let* waited := attempt (
    let* _ := context_check context in
    external (fun call => callback_wait_one call (fl_prepared_callback x))) in
  let* post := attempt (context_check context) in
  let* merged := attempt (both post waited) in
  let* input := settle id merged in
  let* finished := finish_callback id input in
  let* after := attempt (context_check context) in
  let* _ := settle id after in
  fs_ret finished.

(** ** Responses *)

Record SanitizedProviderResponse := {
  sp_status : Z; sp_public_headers : list (string * string); sp_body : Json; sp_retry_after_ms : option Z;
  sp_access_slot : option nat; sp_refresh_slot : option nat; sp_device_handle : option nat
}.

Record SecretSink := { sk_access : option nat; sk_refresh : option nat; sk_device_id : option string }.
Definition empty_sink : SecretSink := {| sk_access := None; sk_refresh := None; sk_device_id := None |}.

Definition slot_kind_of (key : string) : option AuthStore.SecretSlotKind :=
  if eq_ignore_ascii_case key "access_token" then Some AuthStore.Access
  else if eq_ignore_ascii_case key "refresh_token" then Some AuthStore.Refresh
  else None.

Definition mint_slot (credential_id : string) (policy : TrustedTransportPolicy) (expected_generation : Z)
    (sink : SecretSink) (key secret : string) : AuthStore.M SecretSink :=
  match slot_kind_of key with
  | None => fs_ret sink
  | Some kind =>
      let* slot := AuthStore.from_host_secret_until kind credential_id expected_generation (tp_generation policy)
        (tp_run_id policy) (s2b secret) (tp_deadline policy) in
      fs_ret match kind with
      | AuthStore.Access => {| sk_access := Some slot; sk_refresh := sk_refresh sink; sk_device_id := sk_device_id sink |}
      | AuthStore.Refresh => {| sk_access := sk_access sink; sk_refresh := Some slot; sk_device_id := sk_device_id sink |}
      end
  end.

(** What a secret-shaped member leaves in the sink. *)
Definition sink_secret (credential_id : string) (policy : TrustedTransportPolicy) (expected_generation : Z)
    (sink : SecretSink) (key : string) (nested : Json) : AuthStore.M SecretSink :=
  match nested with
  | JString secret =>
      if device_secret_key key then
        fs_ret match sk_device_id sink with
        | None => {| sk_access := sk_access sink; sk_refresh := sk_refresh sink; sk_device_id := Some secret |}
        | Some _ => sink
        end
      else mint_slot credential_id policy expected_generation sink key secret
  | _ => fs_ret sink
  end.

(** The members and the elements in order, with what is [kept] of them. *)
Definition strip_members (strip : Json -> SecretSink -> AuthStore.M (Json * SecretSink))
    (sink_of : SecretSink -> string -> Json -> AuthStore.M SecretSink) :
    list (string * Json) -> list (string * Json) -> SecretSink -> AuthStore.M (list (string * Json) * SecretSink) :=
  fix each l kept sink := match l with
    | [] => fs_ret (kept, sink)
    | (key, nested) :: l =>
        if secret_key key then let* sink := sink_of sink key nested in each l kept sink
        else let* r := strip nested sink in each l (obj_insert key (fst r) kept) (snd r)
    end.

Definition strip_values (strip : Json -> SecretSink -> AuthStore.M (Json * SecretSink)) :
    list Json -> list Json -> SecretSink -> AuthStore.M (list Json * SecretSink) :=
  fix each l kept sink := match l with
    | [] => fs_ret (kept, sink)
    | nested :: l => let* r := strip nested sink in each l (kept ++ [fst r]) (snd r)
    end.

Fixpoint strip_secrets (credential_id : string) (policy : TrustedTransportPolicy) (expected_generation : Z)
    (value : Json) (sink : SecretSink) {struct value} : AuthStore.M (Json * SecretSink) :=
  let strip nested sink := strip_secrets credential_id policy expected_generation nested sink in
  match value with
  | JObject map =>
      let* r := strip_members strip (sink_secret credential_id policy expected_generation) map [] sink in
      fs_ret (JObject (fst r), snd r)
  | JArray values => let* r := strip_values strip values [] sink in fs_ret (JArray (fst r), snd r)
  | other => fs_ret (other, sink)
  end.

Definition device_flow (id : nat) (policy : TrustedTransportPolicy) (credential_id : string) (expires_at : Z) (device_code : string) :
    FlowInner := {|
  fl_id := id; fl_policy_generation := tp_generation policy; fl_run_id := tp_run_id policy; fl_credential_id := credential_id;
  fl_expires_at := expires_at; fl_redirect_uri := EmptyString; fl_prepared_callback := None;
  fl_state := EmptyString; fl_verifier := EmptyString; fl_code := None; fl_device_code := device_code;
  fl_callback := HANDLE_REVOKED; fl_verifier_state := HANDLE_REVOKED; fl_code_state := HANDLE_REVOKED;
  fl_device_state := HANDLE_LIVE; fl_callback_succeeded := false; fl_revoked := false; fl_device_in_flight := false |}.

Definition mint_device_session (policy : TrustedTransportPolicy) (credential_id device_id : string) : M nat :=
  let* _ := guard (negb (is_empty device_id) && (slen device_id <=? MAX_REQUEST_BODY_BYTES)%Z)
    (MalformedResponse "device identifier is outside the bounded range") in
  let* id := fetch_id in
  let* now := clock_now in
  let* cell := new_flow (device_flow id policy credential_id (Z.min (tp_deadline policy) (now + CALLBACK_TTL)) device_id) in
  let* _ := insert_flow cell in
  fs_ret cell.

Definition exchange_flow (id : nat) (source : FlowInner) (policy : TrustedTransportPolicy) (redirect_uri code verifier : string) :
    FlowInner := {|
  fl_id := id; fl_policy_generation := fl_policy_generation source; fl_run_id := fl_run_id source;
  fl_credential_id := fl_credential_id source; fl_expires_at := Z.min (fl_expires_at source) (tp_deadline policy);
  fl_redirect_uri := redirect_uri; fl_prepared_callback := None;
  fl_state := EmptyString; fl_verifier := verifier; fl_code := Some code; fl_device_code := EmptyString;
  fl_callback := HANDLE_REVOKED; fl_verifier_state := HANDLE_LIVE; fl_code_state := HANDLE_LIVE;
  fl_device_state := HANDLE_REVOKED; fl_callback_succeeded := false; fl_revoked := false; fl_device_in_flight := false |}.

(** [source_is_registered], not revoked and live, each read as [||] reads. *)
Definition promotable (device : nat) : M bool :=
  let* known := registered device in
  if (known : bool) then
    let* revoked := reading device fl_revoked in
    if (revoked : bool) then fs_ret false else
    let* st := flag_load device DeviceFlag in
    fs_ret (bool_decide (st = HANDLE_LIVE))
  else fs_ret false.

Definition promote_device_session (device : nat) (policy : TrustedTransportPolicy) (redirect_uri code verifier : string)
    (context : Context_) : M nat :=
  let* _ := or_else (context_check context) (drop_and_revoke device) in
  let* id := fetch_id in
  let* x := get_flow device in
  let* cell := new_flow (exchange_flow id x policy redirect_uri code verifier) in
  let publication := with_flows (
    let* _ := sweep_locked in
    let* ok := promotable device in
    if (ok : bool) then
      let* _ := context_check context in
      let* _ := flow_revoke device in
      let* _ := forget device in
      let* _ := register cell in
      or_else (context_check context) (forget cell)
    else fail (HandleRevoked DEVICE_HANDLE_CLASS)) in
  let* _ := or_else publication (let* _ := drop_and_revoke device in drop_and_revoke cell) in
  fs_ret cell.

Definition empty_sanitized_response (raw : RawHttpsResponse) : SanitizedProviderResponse := {|
  sp_status := rr_status raw; sp_public_headers := public_headers (rr_headers raw); sp_body := JObject [];
  sp_retry_after_ms := retry_after_ms (rr_headers raw); sp_access_slot := None; sp_refresh_slot := None;
  sp_device_handle := None |}.

Definition sanitize_parsed_response (raw : RawHttpsResponse) (parsed : Json) (credential_id : string)
    (policy : TrustedTransportPolicy) (expected_generation : Z) : M SanitizedProviderResponse :=
  let* r := in_vault (strip_secrets credential_id policy expected_generation parsed empty_sink) in
  let* device_handle := match sk_device_id (snd r) with
    | Some device_id => let* id := mint_device_session policy credential_id device_id in fs_ret (Some id)
    | None => fs_ret None
    end in
  fs_ret {| sp_status := rr_status raw; sp_public_headers := public_headers (rr_headers raw); sp_body := fst r;
    sp_retry_after_ms := retry_after_ms (rr_headers raw); sp_access_slot := sk_access (snd r);
    sp_refresh_slot := sk_refresh (snd r); sp_device_handle := device_handle |}.

Definition response_text (raw : RawHttpsResponse) : result string OAuthError :=
  if utf8_valid (rr_body raw) then Ok (b2s (rr_body raw)) else Err (MalformedResponse "response is not UTF-8").

Definition sanitize_response (raw : RawHttpsResponse) (credential_id : string) (policy : TrustedTransportPolicy)
    (expected_generation : Z) : M SanitizedProviderResponse :=
  if bool_decide (rr_body raw = []) then fs_ret (empty_sanitized_response raw) else
  let* text := lift (response_text raw) in
  let* parsed := lift (parse_strict_json text) in
  let* _ := guard (json_depth parsed <=? MAX_JSON_DEPTH) (MalformedResponse "response JSON exceeds depth") in
  sanitize_parsed_response raw parsed credential_id policy expected_generation.

Definition sanitize_exchange_response (raw : RawHttpsResponse) (credential_id : string) (policy : TrustedTransportPolicy)
    (expected_generation : Z) (intent : OpaqueExchangeResponseIntent) (device : nat) (context : Context_) :
    M (SanitizedProviderResponse * option nat) :=
  if bool_decide (rr_body raw = []) then fs_ret (empty_sanitized_response raw, None) else
  let* text := lift (response_text raw) in
  let* parsed := lift (parse_strict_json text) in
  let* taken := if (200 <=? rr_status raw)%Z && (rr_status raw <? 300)%Z
    then lift (take_exchange_pair parsed (er_code_field intent)) else fs_ret (parsed, None) in
  let '(parsed, pending) := taken in
  let* _ := guard (negb (bool_decide (is_Some pending) && contains_new_exchange_controls parsed))
    (MalformedResponse "exchange response combined a pair with newly issued credentials") in
  let* response := sanitize_parsed_response raw parsed credential_id policy expected_generation in
  match pending with
  | Some (code, verifier) =>
      let* id := promote_device_session device policy (er_redirect_uri intent) code verifier context in
      fs_ret (response, Some id)
  | None => fs_ret (response, None)
  end.

(** ** Transport *)

Definition issued_generation (handle : nat) : M Z := fun h => (h, Ok (AuthStore.ih_generation (AuthStore.handle_of (vault h) handle))).

Definition validate_issued (handle : nat) (policy : TrustedTransportPolicy) (credential_id : string) : M unit :=
  let* generation := issued_generation handle in
  in_vault (AuthStore.validate_binding handle credential_id generation (tp_generation policy) (tp_run_id policy)).

(** [code.flow_id() != verifier.flow_id()]. *)
Definition same_id (code verifier : nat) : M unit :=
  let* c := get_flow code in
  let* v := get_flow verifier in
  guard (fl_id c =? fl_id v) (HandleProvenance CODE_HANDLE_CLASS).

Definition validate_credential_use (policy : TrustedTransportPolicy) (credential_id : string) (use : CredentialUse) : M unit :=
  let* now := clock_now in
  match use with
  | NoCredential => fs_ret tt
  | AccessUse handle | RefreshUse handle => validate_issued handle policy credential_id
  | AuthorizationCodeUse (Here code) (Here verifier) =>
      let* _ := same_id code verifier in
      let* _ := flow_check_binding code policy credential_id CODE_HANDLE_CLASS in
      let* _ := check_flag code CodeFlag CODE_HANDLE_CLASS now in
      check_flag code VerifierFlag VERIFIER_HANDLE_CLASS now
  | AuthorizationCodeUse _ _ => fail (HandleInvalid CODE_HANDLE_CLASS)
  | DeviceUse (Here id) =>
      let* _ := flow_check_binding id policy credential_id DEVICE_HANDLE_CLASS in
      check_flag id DeviceFlag DEVICE_HANDLE_CLASS now
  | DeviceUse Elsewhere => fail (HandleInvalid DEVICE_HANDLE_CLASS)
  end.

Definition credential_expected_generation (use : CredentialUse) : M Z :=
  match use with AccessUse handle | RefreshUse handle => issued_generation handle | _ => fs_ret 0%Z end.

(** The flow a credential use names. *)
Definition submitted_flow (use : CredentialUse) : M (option nat) :=
  match use with
  | AuthorizationCodeUse code _ => let* id := live_flow code CODE_HANDLE_CLASS in fs_ret (Some id)
  | DeviceUse handle => let* id := live_flow handle DEVICE_HANDLE_CLASS in fs_ret (Some id)
  | _ => fs_ret None
  end.

Definition optionally (id : option nat) (f : nat -> M unit) : M unit := match id with Some id => f id | None => fs_ret tt end.

Definition revoke_credential_use (use : CredentialUse) : M unit :=
  match use with
  | AuthorizationCodeUse (Here id) _ | DeviceUse (Here id) => drop_and_revoke id
  | _ => fs_ret tt
  end.

Definition revoke_submitted_if_context_inactive (context : Context_) (flow : option nat) : M unit :=
  let* r := attempt (context_check context) in
  if is_ok r then fs_ret tt else optionally flow drop_and_revoke.

Definition is_device (use : CredentialUse) : bool := match use with DeviceUse _ => true | _ => false end.
Definition is_code (use : CredentialUse) : bool := match use with AuthorizationCodeUse _ _ => true | _ => false end.

Definition selection_matches (selection : SecretBodyFieldSelection) (use : CredentialUse) : bool :=
  match selection with
  | NoField => match use with NoCredential | AccessUse _ => true | _ => false end
  | DeviceField _ => is_device use
  | AuthorizationCodeField _ => is_code use
  end.

Definition validate_native_body_selection (intent : NativeRequestBodyIntent) (use : CredentialUse) : result unit OAuthError :=
  if selection_matches (nb_secret_fields intent) use then Ok tt
  else Err (InvalidIntent "selected request body does not match credential use").

(** The headers with the encoding's content type. *)
Definition admit_body_intent (intent : NativeRequestBodyIntent) (use : CredentialUse) (headers : list (string * string)) :
    result (list (string * string)) OAuthError :=
  let? _ := validate_native_body_selection intent use in
  let canonical := Body.content_type (nb_encoding intent) in
  match obj_get "content-type" headers with
  | Some value =>
      if eq_ignore_ascii_case (trim value) canonical then Ok (obj_insert "content-type" canonical headers)
      else Err (InvalidIntent "selected request body content type does not match encoding")
  | None => Ok (obj_insert "content-type" canonical headers)
  end.

Definition new_field (name value : string) : M Body.SecretField :=
  lift (map_err map_request_body_error (Body.secret_field_new name value)).

Definition native_fields (selection : SecretBodyFieldSelection) (flow : option nat) : M (list Body.SecretField) :=
  match selection with
  | NoField => fs_ret []
  | DeviceField field =>
      let* id := lift (ok_or flow invalid_native_body) in
      let* value := device_id id in
      let* f := new_field (device_field_name field) value in
      fs_ret [f]
  | AuthorizationCodeField code_field =>
      let* id := lift (ok_or flow invalid_native_body) in
      let* now := clock_now in
      let* parts := preview_exchange id now in
      let* x := get_flow id in
      let* c := new_field (exchange_code_field_name code_field) (fst parts) in
      let* v := new_field "code_verifier" (snd parts) in
      let* u := new_field "redirect_uri" (fl_redirect_uri x) in
      fs_ret [c; v; u]
  end.

Definition native_body (intent : NativeRequestBodyIntent) (public_body : string) (flow : option nat) : M string :=
  let* fields := native_fields (nb_secret_fields intent) flow in
  lift (map_err map_request_body_error (Body.encode_injected_body public_body (nb_encoding intent) fields)).

(** [inject_access_authorization]. *)
Definition inject_access_authorization (headers : list (string * string)) (handle : nat) (policy : TrustedTransportPolicy)
    (endpoint : TrustedEndpoint) (path : string) : M (list (string * string)) :=
  let* secret := in_vault (AuthStore.take_issued handle) in
  let* headers := match tp_transport_identity policy with
    | Some identity =>
        if str_eqb (te_authority identity) (te_authority endpoint) && path_matches (te_path_prefix identity) path then
          let* _ := guard (negb (existsb (fun name => bool_decide (is_Some (obj_get name headers))) IDENTITY_HEADERS))
            CodexMetadataConflict in
          let* account_id := lift (account_id_from_access_token secret) in
          let headers := obj_insert "chatgpt-account-id" account_id headers in
          let headers := obj_insert "originator" "codex_cli_rs" headers in
          fs_ret (obj_insert "user-agent" "rustscript-agent-access-e2e/0.1" headers)
        else fs_ret headers
    | None => fs_ret headers
    end in
  fs_ret (obj_insert "authorization" ("Bearer " +:+ secret) headers).

(** The credential is spent: the final headers and body. *)
Definition spend (use : CredentialUse) (native : bool) (policy : TrustedTransportPolicy) (endpoint : TrustedEndpoint)
    (path : string) (headers : list (string * string)) (body : string) : M (list (string * string) * string) :=
  match use with
  | NoCredential | DeviceUse _ => fs_ret (headers, body)
  | AccessUse handle =>
      let* headers := inject_access_authorization headers handle policy endpoint path in fs_ret (headers, body)
  | RefreshUse handle =>
      let* secret := in_vault (AuthStore.take_issued handle) in
      fs_ret (headers, append_form body "refresh_token" secret)
  | AuthorizationCodeUse code _ =>
      let* now := clock_now in
      let* id := live_flow code CODE_HANDLE_CLASS in
      let* parts := or_else (consume_exchange id now) (drop_and_revoke id) in
      let* x := get_flow id in
      let body := if native then body else
        append_form (append_form (append_form body "code" (fst parts)) "code_verifier" (snd parts))
          "redirect_uri" (fl_redirect_uri x) in
      let* _ := drop_flow id in
      fs_ret (headers, body)
  end.

(** [DevicePollGuard]: the mark is cleared when the rest is done. *)
Definition polling {A} (id : option nat) (m : M A) : M A :=
  match id with
  | None => m
  | Some id => fs_match m (fun r => let* _ := updating id (mark_in_flight false) in fs_lift r)
  end.

Definition send_request (prepared : PreparedHttpsRequest) (context : Context_) : M RawHttpsResponse :=
  let* _ := (fun h => (recorded [prepared] [] [] h, Ok tt)) in
  external (fun call => transport_send call prepared context).

(** The context is checked again whether or not the request was sent. *)
Definition send_checked (prepared : PreparedHttpsRequest) (context : Context_) (device : option nat) : M RawHttpsResponse :=
  let* sent := attempt (let* _ := context_check context in send_request prepared context) in
  let* _ := or_else (context_check context) (optionally device drop_and_revoke) in
  let* raw := or_else (fs_lift sent) (optionally device drop_and_revoke) in
  if (MAX_RESPONSE_BODY_BYTES <? blen (rr_body raw))%Z
  then let* _ := optionally device drop_and_revoke in fail (ResponseTooLarge MAX_RESPONSE_BODY_BYTES)
  else fs_ret raw.

Definition receive (raw : RawHttpsResponse) (credential_id : string) (policy : TrustedTransportPolicy)
    (expected_generation : Z) (capture : option OpaqueExchangeResponseIntent) (device : option nat) (context : Context_) :
    M (SanitizedProviderResponse * option nat) :=
  let sanitized := match capture with
    | Some intent =>
        match device with
        | Some id => sanitize_exchange_response raw credential_id policy expected_generation intent id context
        | None => fail (HandleInvalid DEVICE_HANDLE_CLASS)
        end
    | None => let* r := sanitize_response raw credential_id policy expected_generation in fs_ret (r, None)
    end in
  let* got := or_else sanitized (optionally device drop_and_revoke) in
  let* _ := or_else (context_check context) (
    let* _ := optionally device drop_and_revoke in
    let* _ := optionally (sp_device_handle (fst got)) drop_and_revoke in
    optionally (snd got) drop_and_revoke) in
  let credentials := bool_decide (is_Some (sp_access_slot (fst got))) || bool_decide (is_Some (sp_refresh_slot (fst got))) in
  let* _ := match snd got, device with
    | None, Some id =>
        if credentials then
          let* now := clock_now in
          let* _ := or_else (consume_flag id DeviceFlag DEVICE_HANDLE_CLASS now) (drop_and_revoke id) in
          let* _ := updating id clear_device in
          drop_flow id
        else fs_ret tt
    | _, _ => fs_ret tt
    end in
  fs_ret got.

Definition device_selected (intent : option NativeRequestBodyIntent) : bool :=
  match intent with Some i => match nb_secret_fields i with DeviceField _ => true | _ => false end | None => false end.

(** From the admitted request to the answer. *)
Definition transmit (policy : TrustedTransportPolicy) (request : ProviderRequest) (use : CredentialUse)
    (body_intent : option NativeRequestBodyIntent) (capture : option OpaqueExchangeResponseIntent) (override : option Z)
    (method credential_id : string) (endpoint : TrustedEndpoint) (headers : list (string * string))
    (flow : option nat) (context : Context_) : M (SanitizedProviderResponse * option nat) :=
  let inactive := revoke_submitted_if_context_inactive context flow in
  let* headers := match body_intent with
    | Some intent => or_else (lift (admit_body_intent intent use headers)) inactive
    | None => fs_ret headers
    end in
  let* _ := or_else (context_check context) (revoke_credential_use use) in
  let* expected_generation := match override with Some g => fs_ret g | None => credential_expected_generation use end in
  let device := if is_device use then flow else None in
  let* selected := if device_selected body_intent then
      let* now := clock_now in
      let* _ := or_else (match flow with Some id => begin_device_poll id now | None => fs_fail Panics end) inactive in
      fs_ret flow
    else fs_ret None in
  polling selected (
    let* selected_body := match body_intent with
      | Some intent => let* b := or_else (native_body intent (pr_public_body request) flow) inactive in fs_ret (Some b)
      | None => fs_ret None
      end in
    let* _ := or_else (context_check context) (optionally flow drop_and_revoke) in
    let body := default (pr_public_body request) selected_body in
    let native := bool_decide (is_Some body_intent) in
    let* spent := spend use native policy endpoint (pr_path request) headers body in
    let url := "https://" +:+ te_authority endpoint +:+ pr_path request in
    let finish headers body :=
      let prepared := {| ph_method := method; ph_url := url; ph_headers := headers; ph_body := body |} in
      let* raw := send_checked prepared context device in
      receive raw credential_id policy expected_generation capture device context in
    match (if native then None else device) with
    | Some id =>
        let* now := clock_now in
        let* _ := begin_device_poll id now in
        polling (Some id) (
          let* device_code := device_id id in
          finish (fst spent) (append_form (snd spent) "device_code" device_code))
    | None => finish (fst spent) (snd spent)
    end).

Definition to_ascii_uppercase (s : string) : string :=
  b2s (map (fun b => if in_range 97 122 b then default b (Byte.of_N (Byte.to_N b - 32)) else b) (s2b s)).

Definition transport_inner (policy : TrustedTransportPolicy) (request : ProviderRequest) (use : CredentialUse)
    (body_intent : option NativeRequestBodyIntent) (capture : option OpaqueExchangeResponseIntent) (owned : bool)
    (override : option Z) : M (SanitizedProviderResponse * option nat) :=
  let* _ := match capture with
    | Some intent =>
        let* _ := guard (is_device use) (HandleProvenance DEVICE_HANDLE_CLASS) in
        lift (validate_exchange_response_intent intent)
    | None => fs_ret tt
    end in
  let* _ := guard (negb (bool_decide (is_Some override)) || is_code use || is_device use) (HandleProvenance CODE_HANDLE_CLASS) in
  let method := to_ascii_uppercase (pr_method request) in
  let* _ := guard (str_eqb method "GET" || str_eqb method "POST") (MethodDenied method) in
  let* _ := guard (slen (pr_public_body request) <=? MAX_REQUEST_BODY_BYTES)%Z (RequestTooLarge MAX_REQUEST_BODY_BYTES) in
  let* endpoint := lift (admit_path policy (pr_path request)) in
  let* headers := lift (admit_headers policy (pr_public_headers request)) in
  let* credential_id := lift (map_err (fun _ => InvalidIntent "credential ID is invalid")
    (Token.credential_id_new (pr_credential_id request))) in
  let* _ := validate_credential_use policy credential_id use in
  let* _ := match body_intent with
    | None => unwinding (reject_reserved_form_keys (pr_public_body request))
    | Some _ => fs_ret tt
    end in
  let* flow := submitted_flow use in
  let* x := match flow with Some id => let* x := get_flow id in fs_ret (Some x) | None => fs_ret None end in
  let deadline := match x with Some x => Z.min (tp_deadline policy) (fl_expires_at x) | None => tp_deadline policy end in
  let context := io_context deadline owned in
  transmit policy request use body_intent capture override method credential_id endpoint headers flow context.

(** ** Closing and inspecting *)

Definition close_flow (handle : Handle) (class : string) : M unit :=
  let* id := live_flow handle class in drop_and_revoke id.

(** [revoke_callback_flow], [close_verifier_resource], [close_code_resource]
    and [terminal]. *)
Definition revoke_callback_flow (handle : Handle) : M unit := close_flow handle CALLBACK_HANDLE_CLASS.
Definition close_verifier_resource (handle : Handle) : M unit := close_flow handle VERIFIER_HANDLE_CLASS.
Definition close_code_resource (handle : Handle) : M unit := close_flow handle CODE_HANDLE_CLASS.
Definition terminal (handle : Handle) : M unit := close_flow handle DEVICE_HANDLE_CLASS.

(** [first && second]. *)
Definition and_then (first second : M bool) : M bool := let* b := first in if (b : bool) then second else fs_ret false.
Definition succeeds {A} (m : M A) : M bool := let* r := attempt m in fs_ret (is_ok r).

Definition callback_result_live (handle : Handle) : M bool :=
  match handle with
  | Elsewhere => fs_ret false
  | Here id =>
      let* now := clock_now in
      and_then (reading id fl_callback_succeeded) (
      and_then (reading id (fun x => negb (fl_revoked x))) (
      and_then (succeeds (check_flag id CodeFlag CODE_HANDLE_CLASS now))
        (succeeds (check_flag id VerifierFlag VERIFIER_HANDLE_CLASS now))))
  end.

Definition close_callback_resource (handle : Handle) : M unit :=
  let* id := live_flow handle CALLBACK_HANDLE_CLASS in
  let* live := callback_result_live handle in
  if (live : bool) then fs_ret tt else drop_and_revoke id.

Definition inject_callback (handle : Handle) (input : RawCallbackInput) : M unit :=
  let* id := live_flow handle CALLBACK_HANDLE_CLASS in
  let* now := clock_now in
  let* _ := check_flag id CallbackFlag CALLBACK_HANDLE_CLASS now in
  external (fun call => callback_inject call input).

Definition inject_matching_callback (handle : Handle) (code : string) : M unit :=
  let* id := live_flow handle CALLBACK_HANDLE_CLASS in
  let* state := csrf_state id in
  inject_callback handle (Query state code).

Definition binding_matches (x : FlowInner) (policy_generation : Z) (run_id credential_id : string) : bool :=
  (fl_policy_generation x =? policy_generation)%Z && str_eqb (fl_run_id x) run_id && str_eqb (fl_credential_id x) credential_id.

Definition is_registered (id : nat) : M bool := with_flows (registered id).

Definition exchange_pair_matches_binding (code verifier : Handle) (policy_generation : Z) (run_id credential_id : string) : M bool :=
  match code, verifier with
  | Here c, Here v => let* x := get_flow c in fs_ret ((c =? v) && binding_matches x policy_generation run_id credential_id)
  | _, _ => fs_ret false
  end.

Definition exchange_pair_live (code verifier : Handle) (policy_generation : Z) (run_id credential_id : string) : M bool :=
  and_then (exchange_pair_matches_binding code verifier policy_generation run_id credential_id)
  match code with
  | Elsewhere => fs_ret false
  | Here id =>
      let* x := get_flow id in
      let* now := clock_now in
      and_then (fs_ret (now <? fl_expires_at x)%Z) (
      and_then (reading id (fun x => negb (fl_revoked x))) (
      and_then (let* st := flag_load id CodeFlag in fs_ret (bool_decide (st = HANDLE_LIVE))) (
      and_then (let* st := flag_load id VerifierFlag in fs_ret (bool_decide (st = HANDLE_LIVE))) (
      and_then (reading id (fun x => match fl_code x with Some c => negb (is_empty c) | None => false end)) (
      and_then (reading id (fun x => negb (is_empty (fl_verifier x)))) (is_registered id))))))
  end.

Definition device_session_matches_binding (handle : Handle) (policy_generation : Z) (run_id credential_id : string) : M bool :=
  match handle with
  | Here id => let* x := get_flow id in fs_ret (binding_matches x policy_generation run_id credential_id)
  | Elsewhere => fs_ret false
  end.

Definition device_session_live (handle : Handle) (policy_generation : Z) (run_id credential_id : string) : M bool :=
  and_then (device_session_matches_binding handle policy_generation run_id credential_id)
  match handle with
  | Elsewhere => fs_ret false
  | Here id =>
      let* now := clock_now in
      and_then (succeeds (check_flag id DeviceFlag DEVICE_HANDLE_CLASS now)) (
      and_then (reading id (fun x => negb (is_empty (fl_device_code x)))) (is_registered id))
  end.

(** [OAuthHost]'s destructor. *)
Fixpoint revoke_each (ids : list nat) : M unit :=
  match ids with [] => fs_ret tt | id :: rest => let* _ := flow_revoke id in revoke_each rest end.

Definition drop_host : M unit :=
  let* ids := with_flows (fun h => (with_registry (fun _ => ∅) h, Ok (registry_cells h))) in
  revoke_each ids.

(** ** Authenticated streams *)

Definition start_access_stream_scoped (policy : TrustedTransportPolicy) (request : ProviderRequest) (access : nat) : M Context_ :=
  let method := to_ascii_uppercase (pr_method request) in
  let* _ := guard (str_eqb method "GET" || str_eqb method "POST") (MethodDenied method) in
  let* _ := guard (slen (pr_public_body request) <=? MAX_REQUEST_BODY_BYTES)%Z (RequestTooLarge MAX_REQUEST_BODY_BYTES) in
  let* endpoint := lift (admit_path policy (pr_path request)) in
  let* headers := lift (admit_headers policy (pr_public_headers request)) in
  let* credential_id := lift (map_err (fun _ => InvalidIntent "credential ID is invalid")
    (Token.credential_id_new (pr_credential_id request))) in
  let* _ := validate_credential_use policy credential_id (AccessUse access) in
  let* _ := unwinding (reject_reserved_form_keys (pr_public_body request)) in
  let context := {| cx_deadline := tp_deadline policy; cx_owned := true;
    cx_max_response_body_bytes := MAX_ACCESS_STREAM_BODY_BYTES |} in
  let* _ := context_check context in
  let* headers := inject_access_authorization headers access policy endpoint (pr_path request) in
  let prepared := {| ph_method := method; ph_url := "https://" +:+ te_authority endpoint +:+ pr_path request;
    ph_headers := headers; ph_body := pr_public_body request |} in
  let* _ := context_check context in
  let* _ := (fun h => (recorded [prepared] [] [] h, Ok tt)) in
  let* _ := external (fun call => transport_start call prepared context) in
  let* _ := context_check context in
  fs_ret context.

End host.

(** [AuthenticatedAccessStream] over the answers of its context's checks and of
    the inner reader; [as_cancelled] is set when the inner reader is told to
    stop. *)
Record AccessStream := {
  as_max_body_bytes : Z; as_received : Z; as_eof : bool; as_terminal_error : option OAuthError; as_cancelled : bool
}.

Definition stream_open : AccessStream := {|
  as_max_body_bytes := MAX_ACCESS_STREAM_BODY_BYTES; as_received := 0; as_eof := false; as_terminal_error := None;
  as_cancelled := false |}.

Definition stream_fail (e : OAuthError) (s : AccessStream) : AccessStream * result (option (list byte)) OAuthError :=
  ({| as_max_body_bytes := as_max_body_bytes s; as_received := as_received s; as_eof := as_eof s;
      as_terminal_error := Some e; as_cancelled := true |}, Err e).

Definition stream_is_terminal (s : AccessStream) : bool := as_eof s || bool_decide (is_Some (as_terminal_error s)).

(** [read_chunk]: [before] and [after] are the checks around the inner read,
    which answers [chunk]. *)
Definition read_chunk (before : result unit OAuthError) (chunk : result (option (list byte)) OAuthError)
    (after : result unit OAuthError) (s : AccessStream) : AccessStream * result (option (list byte)) OAuthError :=
  match as_terminal_error s with
  | Some e => (s, Err e)
  | None =>
      if as_eof s then (s, Ok None) else
      match before with
      | Err e => stream_fail e s
      | Ok _ =>
          match chunk with
          | Err e => stream_fail e s
          | Ok chunk =>
              match after with
              | Err e => stream_fail e s
              | Ok _ =>
                  match chunk with
                  | None => ({| as_max_body_bytes := as_max_body_bytes s; as_received := as_received s; as_eof := true;
                      as_terminal_error := None; as_cancelled := true |}, Ok None)
                  | Some bytes =>
                      match checked_add (as_received s) (blen bytes) with
                      | Some total =>
                          if (total <=? as_max_body_bytes s)%Z
                          then ({| as_max_body_bytes := as_max_body_bytes s; as_received := total; as_eof := false;
                                   as_terminal_error := None; as_cancelled := as_cancelled s |}, Ok (Some bytes))
                          else stream_fail (ResponseTooLarge (as_max_body_bytes s)) s
                      | None => stream_fail (ResponseTooLarge (as_max_body_bytes s)) s
                      end
                  end
              end
          end
      end
  end.

Definition stream_cancel (s : AccessStream) : AccessStream :=
  if stream_is_terminal s then s else {| as_max_body_bytes := as_max_body_bytes s; as_received := as_received s;
    as_eof := as_eof s; as_terminal_error := Some Cancelled; as_cancelled := true |}.

Definition stream_drop (s : AccessStream) : AccessStream :=
  if stream_is_terminal s then s else {| as_max_body_bytes := as_max_body_bytes s; as_received := as_received s;
    as_eof := true; as_terminal_error := as_terminal_error s; as_cancelled := true |}.

End OAuth.
