(* ===== verification/OAuthRely.v ===== *)
(** What the OAuth host's calls do to one another's flows.

    As for the credential store ([AuthRely]), on which it builds: what a call
    may do to the shared flows, to the registry and to the store ([later],
    with the invariant [wf]) is what it may assume of other threads
    ([OAuthThreadLaws]).  The invariant bounds the number of live flows. *)
From stdpp Require Import base list strings numbers pretty gmap.
From S2P Require Import Prelude Utf8 Json Rely Credentials RequestBody AuthStore AuthRely OAuthText OAuth.

Module OAuthRely.
Import OAuthText OAuth.
Import AuthStore (HandleState, HANDLE_LIVE, HANDLE_USED, HANDLE_EXPIRED, HANDLE_REVOKED).
#[local] Existing Instance AuthStore.handle_state_eq_dec.
#[local] Existing Instance AuthRely.store_steps.

(** The part of a flow that never changes. *)
Definition flow_core (x : FlowInner) : FlowInner :=
  with_marks false false false (with_texts EmptyString EmptyString None EmptyString
    (set_flag CallbackFlag HANDLE_LIVE (set_flag VerifierFlag HANDLE_LIVE
      (set_flag CodeFlag HANDLE_LIVE (set_flag DeviceFlag HANDLE_LIVE x))))).

Definition kept_or_erased (a b : string) : Prop := b = EmptyString \/ b = a.

Record same_flow (x y : FlowInner) : Prop := {
  same_core : flow_core y = flow_core x;
  same_flags : forall f, flag_of f x <> HANDLE_LIVE -> flag_of f y <> HANDLE_LIVE;
  same_verifier : kept_or_erased (fl_verifier x) (fl_verifier y);
  same_state : kept_or_erased (fl_state x) (fl_state y);
  same_device : kept_or_erased (fl_device_code x) (fl_device_code y);
  same_revoked : fl_revoked x = true -> fl_revoked y = true
}.

Record later (h h' : Host) : Prop := {
  later_cells : forall c x, cells h !! c = Some x -> exists y, cells h' !! c = Some y /\ same_flow x y;
  later_next : next_cell h <= next_cell h';
  later_vault : AuthRely.later (vault h) (vault h')
}.

Section rely.
Context `{D : OAuthDeps} `{AH : AuthStore.AuthHost} `{R : Ring} `{J : JsonStream} `{U : UrlCrate} `{JS : Body.JsonStrings}.

Record wf (h : Host) : Prop := {
  wf_fresh : forall c, next_cell h <= c -> cells h !! c = None;
  wf_registry : forall id c, registry h !! id = Some c -> is_Some (cells h !! c);
  wf_bounded : size (registry h) <= MAX_LIVE_OAUTH_FLOWS;
  wf_vault : AuthRely.wf (vault h)
}.

(** What other threads may do. *)
Class OAuthThreadLaws := {
  oauth_threads_wf : forall n h, wf h -> wf (oauth_threads n h);
  oauth_threads_later : forall n h, wf h -> later h (oauth_threads n h);
  oauth_threads_record : forall n h, sent (oauth_threads n h) = sent h /\ opened (oauth_threads n h) = opened h;
  oauth_threads_lock : forall n h, flows_locked (oauth_threads n h) = flows_locked h;
  oauth_threads_registry : forall n h, flows_locked h = true -> registry (oauth_threads n h) = registry h
}.
Context {TL : AuthRely.ThreadLaws} {OL : OAuthThreadLaws}.

(** ** Steps compose *)

Lemma kept_refl a : kept_or_erased a a.
Proof. by right. Qed.
Lemma kept_trans a b c : kept_or_erased a b -> kept_or_erased b c -> kept_or_erased a c.
Proof. unfold kept_or_erased. naive_solver. Qed.

Lemma same_flow_refl x : same_flow x x.
Proof. split; auto using kept_refl. Qed.
Lemma same_flow_trans x y z : same_flow x y -> same_flow y z -> same_flow x z.
Proof. intros [] []. split; eauto using kept_trans; congruence. Qed.

Lemma host_later_refl h : later h h.
Proof. split; [eauto using same_flow_refl|done|apply AuthRely.later_refl]. Qed.
Lemma host_later_trans a b c : later a b -> later b c -> later a c.
Proof.
  intros [c1 n1 v1] [c2 n2 v2]. split; [|lia|by eapply AuthRely.later_trans].
  intros i x (y & Hy & S1)%c1. apply c2 in Hy as (z & ? & S2). eauto using same_flow_trans.
Qed.

#[export] Instance oauth_steps : Steps Host :=
  {| sound := wf; goes := later; goes_refl := host_later_refl; goes_trans := host_later_trans |}.

(** Steps that leave the cells, the registry and the store alone. *)
Definition same_host (h h' : Host) : Prop :=
  cells h' = cells h /\ next_cell h' = next_cell h /\ registry h' = registry h /\ vault h' = vault h.

Lemma same_host_later h h' : same_host h h' -> later h h'.
Proof.
  intros (E1 & E2 & E3 & E4). split; rewrite ?E1, ?E2, ?E4; eauto using same_flow_refl, AuthRely.later_refl.
Qed.
Lemma same_host_wf h h' : same_host h h' -> wf h -> wf h'.
Proof. intros (E1 & E2 & E3 & E4) []. split; rewrite ?E1, ?E2, ?E3, ?E4; done. Qed.

Lemma keeps_same_host {A} P (m : M A) : stable P -> (forall h, same_host h (fst (m h))) -> keeps P m.
Proof.
  intros HP Hm h W X. pose proof (same_host_later _ _ (Hm h)) as L. split_and!; [by eapply same_host_wf|done|].
  intros a _. by eapply HP.
Qed.

(** ** Facts that last *)

Definition valid (c : nat) (h : Host) : Prop := is_Some (cells h !! c).
Definition spent (c : nat) (f : Flag) (h : Host) : Prop := exists x, cells h !! c = Some x /\ flag_of f x <> HANDLE_LIVE.

Lemma flow_valid_stable c : stable (valid c).
Proof. intros h h' L [x (y & ? & _)%(later_cells _ _ L)]. by exists y. Qed.
Lemma spent_stable c f : stable (spent c f).
Proof. intros h h' L (x & Hx & N). destruct (later_cells _ _ L _ _ Hx) as (y & ? & S). exists y. split; [done|]. by apply S. Qed.

Lemma flow_valid_of c h : valid c h -> cells h !! c = Some (flow_of h c).
Proof. intros [x Hx]. unfold flow_of. by rewrite Hx. Qed.

Lemma flow_same c h h' : valid c h -> later h h' -> same_flow (flow_of h c) (flow_of h' c).
Proof.
  intros V L. destruct (later_cells _ _ L _ _ (flow_valid_of _ _ V)) as (y & Hy & S). unfold flow_of at 2. by rewrite Hy.
Qed.

(** ** Steps *)

Lemma triple_host_atomic {A} (P : Host -> Prop) (f : Host -> Host * A) (Q : A -> Host -> Prop) : stable P ->
  (forall h, wf h -> P h -> wf (fst (f h)) /\ later h (fst (f h)) /\ Q (snd (f h)) (fst (f h))) ->
  triple (E := Fault) P (OAuth.atomic f) Q.
Proof.
  intros HP Hf h W X. unfold OAuth.atomic.
  assert (C : same_host h (counted 0 0 0 0 1 h)) by by split_and!.
  pose proof (same_host_later _ _ C) as L1. apply (same_host_wf _ _ C) in W.
  pose proof (oauth_threads_later (pauses h) _ W) as L2. apply (oauth_threads_wf (pauses h)) in W.
  pose proof (host_later_trans _ _ _ L1 L2) as L. destruct (Hf _ W (HP _ _ L X)) as (W' & L' & O).
  destruct (f _) as [h' a]. simpl in *. split_and!; [done|by eapply host_later_trans|]. by intros ? [= <-].
Qed.

Lemma triple_reading {A} (P : Host -> Prop) c (g : FlowInner -> A) :
  stable P -> triple (E := Fault) P (reading c g) (fun a h => P h /\ a = g (flow_of h c)).
Proof. intros HP. apply triple_host_atomic; [done|]. simpl. auto using host_later_refl. Qed.

(** Changes of a flow that every thread may make. *)
Definition allowed (f : FlowInner -> FlowInner) : Prop := forall x, same_flow x (f x).

Lemma with_cells_later f c h : allowed f -> later h (with_cells (alter f c) h).
Proof.
  intros Hf. split; simpl; [|done|apply AuthRely.later_refl]. intros i x Hx. destruct (decide (i = c)) as [->|].
  - rewrite lookup_alter_eq, Hx. simpl. eauto.
  - rewrite lookup_alter_ne by done. eauto using same_flow_refl.
Qed.
Lemma with_cells_wf f c h : wf h -> wf (with_cells (alter f c) h).
Proof.
  intros [w1 w2 w3 w4]. split; simpl; [|..|done|done].
  - intros i Hi. apply lookup_alter_None. auto.
  - intros id i Hi. apply lookup_alter_is_Some. eauto.
Qed.

Lemma keeps_updating P c f : stable P -> allowed f -> keeps P (updating c f).
Proof.
  intros HP Hf. apply triple_host_atomic; [done|]. intros h W X. pose proof (with_cells_later f c h Hf). simpl.
  split_and!; [by apply with_cells_wf|done|by eapply HP].
Qed.

Lemma allowed_flag f v : v <> HANDLE_LIVE -> allowed (set_flag f v).
Proof. intros N x. split; [done| |by right..|done]. intros [] ?; by destruct f. Qed.
Lemma allowed_texts g : (forall x, exists st vf co dc, g x = with_texts st vf co dc x
  /\ kept_or_erased (fl_state x) st /\ kept_or_erased (fl_verifier x) vf /\ kept_or_erased (fl_device_code x) dc) -> allowed g.
Proof.
  intros Hg x. destruct (Hg x) as (st & vf & co & dc & -> & ? & ? & ?). split; [done| |done|done|done|done]. by intros [].
Qed.
Lemma allowed_clear_state : allowed clear_state.
Proof. apply allowed_texts. intros x. eexists _, _, _, _. split_and!; [done|by left|by right|by right]. Qed.
Lemma allowed_clear_verifier : allowed clear_verifier.
Proof. apply allowed_texts. intros x. eexists _, _, _, _. split_and!; [done|by right|by left|by right]. Qed.
Lemma allowed_put_code co : allowed (put_code co).
Proof. apply allowed_texts. intros x. eexists _, _, _, _. split_and!; [done|by right..]. Qed.
Lemma allowed_clear_device : allowed clear_device.
Proof. apply allowed_texts. intros x. eexists _, _, _, _. split_and!; [done|by right|by right|by left]. Qed.
Lemma allowed_marks g : (forall x, exists a b c, g x = with_marks a b c x /\ (fl_revoked x = true -> b = true)) -> allowed g.
Proof.
  intros Hg x. destruct (Hg x) as (a & b & c & -> & ?). split; auto using kept_refl.
Qed.
Lemma allowed_succeeded : allowed mark_succeeded.
Proof. apply allowed_marks. intros x. by eexists _, _, _. Qed.
Lemma allowed_revoked : allowed mark_flow_revoked.
Proof. apply allowed_marks. intros x. by eexists _, _, _. Qed.
Lemma allowed_in_flight b : allowed (mark_in_flight b).
Proof. apply allowed_marks. intros x. by eexists _, _, _. Qed.

(** ** Components of the calls *)

Lemma keeps_flow_reading {A} P c (g : FlowInner -> A) : stable P -> keeps P (reading c g).
Proof. intros. eapply triple_conseq; [by apply triple_reading|done|]. by intros ??? [? _]. Qed.
Lemma keeps_get_flow P c : keeps P (get_flow c).
Proof. intros h W X. split; [done|]. split; [apply host_later_refl|done]. Qed.
Lemma keeps_flag_load P c f : stable P -> keeps P (flag_load c f).
Proof. apply keeps_flow_reading. Qed.
Lemma keeps_flag_store P c f v : stable P -> v <> HANDLE_LIVE -> keeps P (flag_store c f v).
Proof. intros. apply keeps_updating; [done|]. by apply allowed_flag. Qed.

(** An exchange that may or may not change the flow. *)
Lemma keeps_exchange P c (b : FlowInner -> bool) f g v w : stable P -> allowed f ->
  (forall h, g h = if b (flow_of h c) then (with_cells (alter f c) h, v) else (h, w)) -> keeps P (OAuth.atomic (A := bool) g).
Proof.
  intros HP Hf Hg. apply triple_host_atomic; [done|]. intros h W X. rewrite Hg. destruct (b _); simpl; [|auto using host_later_refl].
  pose proof (with_cells_later f c h Hf). split_and!; [by apply with_cells_wf|done|by eapply HP].
Qed.
Lemma keeps_flag_take P c f : stable P -> keeps P (flag_take c f).
Proof.
  intros HP. eapply (keeps_exchange _ c (fun x => bool_decide (flag_of f x = HANDLE_LIVE)) (set_flag f HANDLE_USED)); [done|by apply allowed_flag|].
  intros h. by destruct (decide (flag_of f (flow_of h c) = HANDLE_LIVE)); [rewrite bool_decide_true by done|rewrite bool_decide_false by done].
Qed.

Lemma keeps_clock P : stable P -> keeps P clock_now.
Proof. intros. by apply keeps_same_host. Qed.
Lemma keeps_is_cancelled P b : stable P -> keeps P (is_cancelled b).
Proof. intros. by apply keeps_same_host. Qed.
Lemma keeps_recorded P a b c : stable P -> keeps (E := Fault) P (fun h => (recorded a b c h, Ok tt)).
Proof. intros. by apply keeps_same_host. Qed.
Lemma keeps_generate P : stable P -> keeps P generate_pkce.
Proof. intros. by apply keeps_same_host. Qed.
Lemma keeps_atomic_same {A} P (f : Host -> Host * A) : stable P -> (forall h, same_host h (fst (f h))) -> keeps P (OAuth.atomic f).
Proof.
  intros HP Hf. apply triple_host_atomic; [done|]. intros h W X. pose proof (same_host_later _ _ (Hf h)).
  split_and!; [by eapply same_host_wf|done|by eapply HP].
Qed.
Lemma keeps_fetch_id P : stable P -> keeps P fetch_id.
Proof. intros. by apply keeps_atomic_same. Qed.
(** A step after which the result does not depend on the cells. *)
Lemma keeps_after_threads {A} P (f : Host -> result A Fault) : stable P ->
  keeps P (fun h => let h := oauth_threads (pauses h) (counted 0 0 0 0 1 h) in (counted 0 0 1 0 0 h, f h)).
Proof.
  intros HP h W X. destruct (keeps_atomic_same P (fun h => (counted 0 0 1 0 0 h, tt)) HP ltac:(done) h W X) as (? & L & _).
  simpl in *. split_and!; [done..|]. intros _ _. by eapply HP.
Qed.
Lemma keeps_external {A} P (f : nat -> result A OAuthError) : stable P -> keeps P (external f).
Proof. apply (keeps_after_threads P (fun h => map_err Fails (f (calls h)))). Qed.
Lemma keeps_prepare P mode : stable P -> keeps P (prepare_callback mode).
Proof.
  apply (keeps_after_threads P (fun h => map_err Fails (result_map (fun uri => pair (calls h) <$> uri) (callback_prepare (calls h) mode)))).
Qed.

Lemma keeps_lift_ {A} P (r : result A OAuthError) : keeps P (lift r).
Proof. apply keeps_lift. Qed.
Lemma keeps_guard_ P b e : keeps P (guard b e).
Proof. apply keeps_guard. Qed.
Lemma keeps_fail_ {A} P e : keeps P (OAuth.fail (A := A) e).
Proof. apply keeps_fail. Qed.
Lemma keeps_unwinding {A} P (r : option (result A OAuthError)) : keeps P (unwinding r).
Proof. destruct r; [apply keeps_lift|apply keeps_fail]. Qed.
Lemma keeps_attempt {A} P (m : M A) : stable P -> keeps P m -> keeps P (attempt m).
Proof. intros. apply keeps_match; [done..|]. intros. apply keeps_ret. Qed.
Lemma keeps_or_else {A} P (m : M A) c : stable P -> keeps P m -> keeps P c -> keeps P (or_else m c).
Proof.
  intros HP Hm Hc. apply keeps_match; [done..|]. intros [a|[e|]]; [apply keeps_ret| |apply keeps_fail].
  apply keeps_bind; [done|]. intros. apply keeps_fail.
Qed.
Lemma keeps_both {A} P a (b : result A Fault) : keeps P (both a b).
Proof. destruct a; [apply keeps_lift|apply keeps_fail]. Qed.

#[local] Hint Resolve keeps_flow_reading keeps_get_flow keeps_flag_load keeps_flag_store keeps_flag_take keeps_clock keeps_is_cancelled
  keeps_recorded keeps_generate keeps_fetch_id keeps_external keeps_prepare keeps_lift_ keeps_guard_ keeps_fail_ keeps_unwinding
  keeps_both keeps_updating allowed_clear_state allowed_clear_verifier allowed_put_code allowed_clear_device allowed_succeeded
  allowed_revoked allowed_in_flight : keeps.
#[local] Hint Extern 1 (_ <> _) => discriminate : keeps.

Ltac keep := repeat first
  [ progress keeping
  | match goal with
    | |- keeps _ (attempt _) => apply keeps_attempt
    | |- keeps _ (or_else _ _) => apply keeps_or_else
    | |- keeps _ (fs_match _ _) => apply keeps_match; [| |intros]
    end ].

Lemma keeps_context_check P c : stable P -> keeps P (context_check c).
Proof. intros. unfold context_check. keep. Qed.
Lemma keeps_check_flag P c f class now : stable P -> keeps P (check_flag c f class now).
Proof. intros. unfold check_flag. keep. Qed.
Lemma keeps_take_flag P c f class : stable P -> keeps P (take_flag c f class).
Proof. intros. unfold take_flag. keep. Qed.
#[local] Hint Resolve keeps_context_check keeps_check_flag keeps_take_flag : keeps.
Lemma keeps_consume_flag P c f class now : stable P -> keeps P (consume_flag c f class now).
Proof. intros. unfold consume_flag. keep. Qed.
Lemma keeps_flow_check_binding P c policy id class : stable P -> keeps P (flow_check_binding c policy id class).
Proof. intros. unfold flow_check_binding. keep. Qed.
Lemma keeps_preview P c now : stable P -> keeps P (preview_exchange c now).
Proof. intros. unfold preview_exchange. keep. Qed.
#[local] Hint Resolve keeps_consume_flag keeps_flow_check_binding keeps_preview : keeps.
Lemma keeps_consume_exchange P c now : stable P -> keeps P (consume_exchange c now).
Proof. intros. unfold consume_exchange. keep. Qed.
Lemma keeps_begin_device_poll P c now : stable P -> keeps P (begin_device_poll c now).
Proof.
  intros. unfold begin_device_poll. keep.
  apply (keeps_exchange _ c (fun x => negb (fl_device_in_flight x)) (mark_in_flight true) _ true false); [done|auto with keeps|].
  intros h. by destruct (fl_device_in_flight _).
Qed.
Lemma keeps_device_id P c : stable P -> keeps P (device_id c).
Proof. intros. unfold device_id. keep. Qed.
Lemma keeps_flow_revoke P c : stable P -> keeps P (flow_revoke c).
Proof. intros. unfold flow_revoke. keep. Qed.
Lemma keeps_none_live P c flags : stable P -> keeps P (none_live c flags).
Proof. intros. induction flags; simpl; keep. Qed.
#[local] Hint Resolve keeps_consume_exchange keeps_begin_device_poll keeps_device_id keeps_flow_revoke keeps_none_live : keeps.
Lemma keeps_flow_terminal P c : stable P -> keeps P (is_terminal c).
Proof. apply keeps_none_live. Qed.
#[local] Hint Resolve keeps_flow_terminal : keeps.

(** ** The registry *)

(** Under the lock, other threads leave the registry alone. *)
Definition steady {A} (m : M A) : Prop := forall h, flows_locked h = true ->
  flows_locked (fst (m h)) = true /\ registry (fst (m h)) = registry h.
Definition keeps_lock {A} (m : M A) : Prop := forall h, flows_locked h = true -> flows_locked (fst (m h)) = true.

Lemma steady_bind {A B} (m : M A) (k : A -> M B) : steady m -> (forall a, steady (k a)) -> steady (fs_bind m k).
Proof.
  intros Hm Hk h Lk. unfold fs_bind. destruct (Hm h Lk) as [L1 R1]. destruct (m h) as [h1 [a|e]]; simpl in *; [|done].
  destruct (Hk a h1 L1) as [L2 R2]. split; [done|congruence].
Qed.
Lemma keeps_lock_bind {A B} (m : M A) (k : A -> M B) : keeps_lock m -> (forall a, keeps_lock (k a)) -> keeps_lock (fs_bind m k).
Proof.
  intros Hm Hk h Lk. unfold fs_bind. specialize (Hm h Lk). destruct (m h) as [h1 [a|e]]; simpl in *; [|done]. by apply Hk.
Qed.
Lemma steady_lock {A} (m : M A) : steady m -> keeps_lock m.
Proof. intros Hm h Lk. by apply Hm. Qed.
Lemma steady_pure {A} (f : Host -> result A Fault) : steady (fun h => (h, f h)).
Proof. done. Qed.
Lemma steady_atomic {A} (f : Host -> Host * A) :
  (forall h, flows_locked (fst (f h)) = flows_locked h /\ registry (fst (f h)) = registry h) -> steady (OAuth.atomic f).
Proof.
  intros Hf h Lk. unfold OAuth.atomic. set (h1 := oauth_threads _ _). destruct (Hf h1) as [E1 E2].
  assert (flows_locked h1 = true) by by (unfold h1; rewrite oauth_threads_lock).
  assert (registry h1 = registry h) by by (unfold h1; rewrite oauth_threads_registry).
  destruct (f h1). simpl in *. split; congruence.
Qed.
Lemma steady_guard b e : steady (guard b e).
Proof. by destruct b. Qed.
Lemma steady_if {A} (b : bool) (m k : M A) : steady m -> steady k -> steady (if b then m else k).
Proof. by destruct b. Qed.
Lemma steady_same {A} (m : M A) :
  (forall h, flows_locked (fst (m h)) = flows_locked h /\ registry (fst (m h)) = registry h) -> steady m.
Proof. intros Hm h Lk. destruct (Hm h) as [-> ->]. done. Qed.
Lemma steady_context_check c : steady (context_check c).
Proof.
  apply steady_bind; [by apply steady_same|]. intros. apply steady_bind; [apply steady_guard|]. intros.
  apply steady_bind; [by apply steady_same|]. intros. apply steady_guard.
Qed.
Lemma steady_reading {A} c (g : FlowInner -> A) : steady (reading c g).
Proof. by apply steady_atomic. Qed.
Lemma steady_updating c f : steady (updating c f).
Proof. by apply steady_atomic. Qed.
Lemma steady_flow_revoke c : steady (flow_revoke c).
Proof.
  apply steady_bind; [by apply steady_same|]. intros x. repeat (apply steady_bind; [apply steady_updating|]; intros).
  apply steady_bind; [apply steady_same; by destruct (fl_prepared_callback x)|]. intros.
  repeat (apply steady_bind; [apply steady_updating|]; intros). apply steady_updating.
Qed.
Lemma steady_none_live c flags : steady (none_live c flags).
Proof.
  induction flags as [|f flags IH]; [done|]. apply steady_bind; [apply steady_reading|]. intros st.
  by destruct (decide (st = HANDLE_LIVE)).
Qed.
Lemma steady_promotable c : steady (promotable c).
Proof.
  apply steady_bind; [by apply steady_same|]. intros []; [|done]. apply steady_bind; [apply steady_reading|]. intros []; [done|].
  by apply steady_bind; [apply steady_reading|].
Qed.
Lemma keeps_lock_ret {A} (a : A) : keeps_lock (fs_ret a).
Proof. by intros h Lk. Qed.
Lemma keeps_lock_sweep now ids : keeps_lock (sweep_flows now ids).
Proof.
  induction ids as [|c ids IH]; [apply keeps_lock_ret|]. apply keeps_lock_bind; [by apply steady_lock, steady_same|]. intros x.
  apply keeps_lock_bind; [destruct (_ <=? _)%Z; [apply keeps_lock_ret|apply steady_lock, steady_none_live]|]. intros over.
  apply keeps_lock_bind; [|done]. destruct over; [|apply keeps_lock_ret].
  apply keeps_lock_bind; [apply steady_lock, steady_flow_revoke|]. by intros [] h Lk.
Qed.

Lemma host_registry_later f h : later h (with_registry f h).
Proof. by split; simpl; [eauto using same_flow_refl|..|apply AuthRely.later_refl]. Qed.
Lemma shrink_wf f h : wf h -> (forall id c, f (registry h) !! id = Some c -> registry h !! id = Some c) ->
  size (f (registry h)) <= size (registry h) -> wf (with_registry f h).
Proof. intros [w1 w2 w3 w4] Hf Hs. split; simpl; [done| |lia|done]. eauto. Qed.
Lemma size_delete_le (m : gmap nat nat) i : size (delete i m) <= size m.
Proof. destruct (m !! i) eqn:E; [rewrite map_size_delete_Some by eauto; lia|by rewrite delete_id]. Qed.

Lemma keeps_forget P c : stable P -> keeps P (forget c).
Proof.
  intros HP h W X. pose proof (host_registry_later (delete (fl_id (flow_of h c))) h). simpl. split_and!; [|done|eauto].
  apply shrink_wf; [done| |apply size_delete_le]. by intros id k [_ ?]%lookup_delete_Some.
Qed.

Lemma register_wf c h : wf h -> valid c h -> size (registry h) < MAX_LIVE_OAUTH_FLOWS -> wf (fst (register c h)).
Proof.
  intros [w1 w2 w3 w4] V B. split; simpl; [done| | |done].
  - intros id k [[_ <-]|[_ ?]]%lookup_insert_Some; eauto.
  - rewrite map_size_insert. destruct (_ !! _); simpl; lia.
Qed.

(** A body that runs under the lock. *)
Lemma keeps_with_flows {A} P (m : M A) : stable P ->
  (forall h, wf h -> P h -> flows_locked h = true -> wf (fst (m h)) /\ later h (fst (m h))) -> keeps P (with_flows m).
Proof.
  intros HP Hm h W X. unfold with_flows, fs_bind, fs_match.
  destruct (keeps_atomic_same P (fun h => (with_locked true h, tt)) HP ltac:(intros; by split_and!) h W X) as (W1 & L1 & P1).
  unfold OAuth.atomic in *. simpl in *. set (h1 := with_locked true _) in *. specialize (P1 tt eq_refl).
  destruct (Hm h1 W1 P1 eq_refl) as [W2 L2]. destruct (m h1) as [h2 r]. simpl in *.
  assert (C : same_host h2 (with_locked false h2)) by by split_and!. pose proof (same_host_later _ _ C) as L3.
  pose proof (host_later_trans _ _ _ L1 (host_later_trans _ _ _ L2 L3)) as L. split_and!; [by eapply same_host_wf|done|eauto].
Qed.
Lemma keeps_with_flows_of {A} P (m : M A) : stable P -> keeps P m -> keeps P (with_flows m).
Proof. intros HP Hm. apply keeps_with_flows; [done|]. intros h W X _. exact (keeps_run P m h Hm W X). Qed.
#[local] Hint Resolve keeps_forget : keeps.

Lemma keeps_sweep_flows P now ids : stable P -> keeps P (sweep_flows now ids).
Proof. intros HP. induction ids; simpl; keep. Qed.
Lemma keeps_host_at {A} P (m : Host -> M A) : (forall h, keeps P (m h)) -> keeps P (fun h => m h h).
Proof. intros Hm h. apply Hm. Qed.
Lemma keeps_sweep_locked P : stable P -> keeps P sweep_locked.
Proof.
  intros HP. unfold sweep_locked. keep.
  apply (keeps_host_at P (fun h => sweep_flows _ (registry_cells h))). intros h. by apply keeps_sweep_flows.
Qed.
Lemma keeps_drop_flow P c : stable P -> keeps P (drop_flow c).
Proof. intros HP. apply keeps_with_flows_of; keep. Qed.
#[local] Hint Resolve keeps_sweep_locked keeps_drop_flow : keeps.
Lemma keeps_drop_and_revoke P c : stable P -> keeps P (drop_and_revoke c).
Proof. intros HP. unfold drop_and_revoke. keep. Qed.
#[local] Hint Resolve keeps_drop_and_revoke : keeps.
Lemma keeps_revoke_and_fail {A} P c e : stable P -> keeps P (revoke_and_fail (A := A) c e).
Proof. intros HP. unfold revoke_and_fail. keep. Qed.
#[local] Hint Resolve keeps_revoke_and_fail : keeps.
Lemma keeps_optionally P o f : (forall c, keeps P (f c)) -> keeps P (optionally o f).
Proof. intros. destruct o; simpl; keep. Qed.
#[local] Hint Resolve keeps_optionally : keeps.
Lemma keeps_revoke_run P run_id : stable P -> keeps P (revoke_run run_id).
Proof.
  intros HP. apply keeps_with_flows_of; [done|].
  apply (keeps_host_at P (fun h => revoke_matching run_id (registry_cells h))). intros h. induction (registry_cells h); simpl; keep.
Qed.

Definition has (c : nat) (P : Host -> Prop) : Prop := stable P /\ forall h, P h -> valid c h.

Lemma has_and c P : stable P -> has c (fun h => P h /\ valid c h).
Proof. intros HP. split; [|naive_solver]. apply and_stable; [done|apply flow_valid_stable]. Qed.

Lemma keeps_insert_flow P c : has c P -> keeps P (insert_flow c).
Proof.
  intros [HP HV]. unfold insert_flow. apply keeps_bind; [|intros []; keep]. apply keeps_with_flows_of; [done|].
  apply keeps_bind; [by apply keeps_sweep_locked|]. intros _ h W X.
  unfold fs_bind, flow_count. destruct (_ <=? _) eqn:E; simpl; [auto using host_later_refl|]. apply Nat.leb_gt in E.
  pose proof (host_registry_later (insert (fl_id (flow_of h c)) c) h). split_and!; [|done|eauto].
  apply (register_wf c h); auto.
Qed.

Lemma triple_new_flow P x : stable P -> triple P (new_flow x) (fun c h => P h /\ valid c h).
Proof.
  intros HP h W X. destruct W as [w1 w2 w3 w4]. assert (L : later h (fst (new_flow x h))).
  { split; simpl; [|lia|apply AuthRely.later_refl]. intros c y Hy. exists y. split; [|apply same_flow_refl].
    apply lookup_insert_Some. right. split; [|done]. intros <-. rewrite w1 in Hy; [done|lia]. }
  split_and!; [split; simpl|done|intros a [= <-]; split; [by eapply HP|]].
  - intros c Hc. rewrite lookup_insert_ne by lia. apply w1. lia.
  - intros id c Hc. apply lookup_insert_is_Some. destruct (decide (next_cell h = c)); eauto.
  - done.
  - done.
  - unfold valid. simpl. rewrite lookup_insert_eq. by eexists.
Qed.

#[local] Hint Resolve keeps_insert_flow has_and keeps_revoke_run : keeps.
#[local] Hint Extern 1 (stable (fun h => _ /\ valid _ h)) => apply and_stable; [|apply flow_valid_stable] : keeps.

Lemma keeps_new_flow {A} P x (k : nat -> M A) :
  stable P -> (forall c, keeps (fun h => P h /\ valid c h) (k c)) -> keeps P (fs_bind (new_flow x) k).
Proof.
  intros HP Hk. eapply triple_bind; [by apply triple_new_flow|]. intros c. simpl.
  eapply triple_conseq; [apply Hk|done|]. naive_solver.
Qed.

(** As [keep], across the creation of a flow. *)
Ltac keep_new := repeat first
  [ solve [auto with keeps]
  | match goal with
    | |- keeps _ (fs_bind (new_flow _) _) => apply keeps_new_flow; [|intros ?]
    | |- keeps _ (fs_bind _ _) => apply keeps_bind; [|intros ?]
    | |- keeps _ (attempt _) => apply keeps_attempt
    | |- keeps _ (or_else _ _) => apply keeps_or_else
    | |- keeps _ (fs_match _ _) => apply keeps_match; [| |intros ?]
    | |- keeps _ (if ?b then _ else _) => destruct b
    | |- keeps _ (match ?x with _ => _ end) => destruct x
    end ].

(** The number freed by the old flow is room for the new one. *)
Lemma promotion_wf device cell h h1 : wf h -> valid cell h -> registry h !! fl_id (flow_of h device) = Some device ->
  later h h1 -> wf h1 -> registry h1 = registry h ->
  wf (fst (fs_bind (forget device) (fun _ => register cell) h1)).
Proof.
  intros W V Hr L W1 E. assert (F : fl_id (flow_of h1 device) = fl_id (flow_of h device)).
  { assert (S : same_flow (flow_of h device) (flow_of h1 device)) by (apply flow_same; [by eapply wf_registry|done]).
    exact (f_equal fl_id (same_core _ _ S)). }
  unfold fs_bind, forget. apply register_wf.
  - apply shrink_wf; [done| |apply size_delete_le]. by intros id k [_ ?]%lookup_delete_Some.
  - exact (flow_valid_stable cell _ _ L V).
  - simpl. rewrite F, E, map_size_delete_Some by eauto. pose proof (wf_bounded _ W).
    assert (size (registry h) <> 0) by (intros Z%map_size_empty_inv; by rewrite Z, lookup_empty in Hr). lia.
Qed.

Lemma promotable_registered device h h' : flows_locked h = true -> promotable device h = (h', Ok true) ->
  registry h !! fl_id (flow_of h device) = Some device.
Proof.
  intros Lk E. unfold promotable, fs_bind at 1, registered in E. destruct (bool_decide _) eqn:B; [|done].
  by apply bool_decide_eq_true in B.
Qed.

(** What a body under the lock may do. *)
Definition held {A} (m : M A) (h : Host) : Prop := wf (fst (m h)) /\ later h (fst (m h)).

Lemma held_bind {A B} (m : M A) (k : A -> M B) h :
  held m h -> (forall h' a, m h = (h', Ok a) -> wf h' -> later h h' -> held (k a) h') -> held (fs_bind m k) h.
Proof.
  intros [W L] Hk. unfold held, fs_bind in *. destruct (m h) as [h1 [a|e]]; simpl in *; [|done].
  destruct (Hk h1 a eq_refl W L) as [W2 L2]. eauto using host_later_trans.
Qed.
Lemma held_of {A} (m : M A) h : wf h -> keeps always m -> held m h.
Proof. intros W Hm. exact (keeps_run always m h Hm W I). Qed.

Lemma held_publication device cell context h : wf h -> valid cell h -> flows_locked h = true ->
  held (let* _ := sweep_locked in
    let* ok := promotable device in
    if (ok : bool) then
      let* _ := context_check context in
      let* _ := flow_revoke device in
      let* _ := forget device in
      let* _ := register cell in
      or_else (context_check context) (forget cell)
    else OAuth.fail (HandleRevoked DEVICE_HANDLE_CLASS)) h.
Proof.
  intros W V Lk. apply held_bind; [apply held_of; [done|by apply keeps_sweep_locked]|]. intros h1 [] E1 W1 L1.
  assert (Lk1 : flows_locked h1 = true).
  { unfold sweep_locked, fs_bind, clock_now in E1. set (hc := counted 1 0 0 0 0 h) in E1.
    pose proof (keeps_lock_sweep (oauth_clock (clocks h)) (registry_cells hc) hc Lk) as K. by rewrite E1 in K. }
  apply (flow_valid_stable _ _ _ L1) in V. apply held_bind; [apply held_of; [done|unfold promotable; keep; by intros ?? ?; split_and!; [|apply host_later_refl|]]|].
  intros h2 ok E2 W2 L2. destruct ok; [|apply held_of; [done|apply keeps_fail]].
  pose proof (promotable_registered _ _ _ Lk1 E2) as Hr. destruct (steady_promotable device h1 Lk1) as [Lk2 R2].
  rewrite E2 in Lk2, R2. simpl in *. apply held_bind; [apply held_of; [done|by apply keeps_context_check]|]. intros h3 [] E3 W3 L3.
  destruct (steady_context_check context h2 Lk2) as [Lk3 R3]. rewrite E3 in Lk3, R3. simpl in *.
  apply held_bind; [apply held_of; [done|by apply keeps_flow_revoke]|]. intros h4 [] E4 W4 L4.
  destruct (steady_flow_revoke device h3 Lk3) as [Lk4 R4]. rewrite E4 in Lk4, R4. simpl in *.
  assert (L14 : later h1 h4) by (eapply host_later_trans; [|done]; by eapply host_later_trans).
  pose proof (promotion_wf device cell h1 h4 W1 V Hr L14 W4 ltac:(congruence)) as W6.
  apply held_bind; [apply held_of; [done|by apply keeps_forget]|]. intros h5 [] E5 W5 L5.
  unfold fs_bind at 1 in W6. rewrite E5 in W6.
  apply held_bind; [split; [done|apply host_registry_later]|]. intros h6 [] E6 W6' L6.
  apply held_of; [done|]. assert (stable always) by done. keep.
Qed.

Lemma keeps_promote P device policy uri code verifier context :
  stable P -> keeps P (promote_device_session device policy uri code verifier context).
Proof.
  intros HP. unfold promote_device_session. keep_new. apply keeps_with_flows; [auto with keeps|].
  intros h W [_ V] Lk. by apply held_publication.
Qed.

(** ** The store *)

Lemma keeps_in_vault {A} P (Q : AuthStore.Store -> Prop) (m : AuthStore.M A) :
  stable P -> (forall h, P h -> Q (vault h)) -> keeps Q m -> keeps P (in_vault m).
Proof.
  intros HP HQ Hm h W X. destruct W as [w1 w2 w3 w4]. unfold in_vault.
  destruct (keeps_run Q m (vault h) Hm w4 (HQ h X)) as [Wv Lv]. destruct (m (vault h)) as [v r]. simpl in *.
  assert (L : later h (with_vault v h)) by (split; simpl; eauto using same_flow_refl). split_and!; [by split|done|eauto].
Qed.

Lemma keeps_mint_slot id policy g sink key secret : keeps always (mint_slot id policy g sink key secret).
Proof. unfold mint_slot. keeping. by apply AuthRely.keeps_from_host_secret. Qed.
Lemma keeps_sink_secret id policy g sink key nested : keeps always (sink_secret id policy g sink key nested).
Proof. unfold sink_secret. keeping. apply keeps_mint_slot. Qed.

Lemma keeps_strip_members strip sink_of map : (forall sink key nested, keeps always (sink_of sink key nested)) ->
  Forall (fun kv => forall sink, keeps always (strip kv.2 sink)) map ->
  forall kept sink, keeps always (strip_members strip sink_of map kept sink).
Proof.
  intros Hs Hm. induction Hm as [|[k x] map Hx _ IH]; intros kept sink; [apply keeps_ret|]. simpl. destruct (secret_key k).
  - apply keeps_bind; [apply Hs|]. intros r. apply IH.
  - apply keeps_bind; [apply Hx|]. intros r. apply IH.
Qed.
Lemma keeps_strip_values strip l : Forall (fun x => forall sink, keeps always (strip x sink)) l ->
  forall kept sink, keeps always (strip_values strip l kept sink).
Proof.
  intros Hl. induction Hl as [|x l Hx _ IH]; intros kept sink; [apply keeps_ret|]. apply keeps_bind; [apply Hx|]. intros r. apply IH.
Qed.

Lemma keeps_strip_secrets id policy g value : forall sink, keeps always (strip_secrets id policy g value sink).
Proof.
  induction value as [|b|n|t|l IH|m IH] using json_ind'; intros sink; try apply keeps_ret; (apply keeps_bind; [|intros; apply keeps_ret]).
  - by apply keeps_strip_values.
  - apply keeps_strip_members; [apply keeps_sink_secret|done].
Qed.

Lemma keeps_strip P id policy g value sink : stable P -> keeps P (in_vault (strip_secrets id policy g value sink)).
Proof. intros HP. apply (keeps_in_vault _ always); [done|done|apply keeps_strip_secrets]. Qed.
#[local] Hint Resolve keeps_strip keeps_promote : keeps.

(** ** Transport *)

Definition issued (handle : nat) (P : Host -> Prop) : Prop := stable P /\ forall h, P h -> AuthRely.valid handle (vault h).

Lemma keeps_take_access P handle : issued handle P -> keeps P (in_vault (AuthStore.take_issued handle)).
Proof.
  intros [HP HV]. apply (keeps_in_vault _ (AuthRely.valid handle)); [done..|]. apply AuthRely.keeps_take_issued, AuthRely.needs_valid.
Qed.
Lemma keeps_issued_generation P handle : keeps P (issued_generation handle).
Proof. intros h W X. split; [done|]. split; [apply host_later_refl|done]. Qed.
#[local] Hint Resolve keeps_take_access keeps_issued_generation : keeps.
Lemma keeps_validate_issued P handle policy id : issued handle P -> keeps P (validate_issued handle policy id).
Proof.
  intros [HP HV]. apply keeps_bind; [apply keeps_issued_generation|]. intros g.
  apply (keeps_in_vault _ (AuthRely.valid handle)); [done..|]. apply AuthRely.keeps_validate_binding, AuthRely.needs_valid.
Qed.
#[local] Hint Resolve keeps_validate_issued : keeps.

(** What a caller holds: a handle on the store's entry it names. *)
Definition usable (use : CredentialUse) (h : Host) : Prop :=
  match use with AccessUse handle | RefreshUse handle => AuthRely.valid handle (vault h) | _ => True end.

Lemma usable_stable use : stable (usable use).
Proof. destruct use; try done; intros h h' L; apply (AuthRely.valid_stable _ _ _ (later_vault _ _ L)). Qed.
Lemma usable_issued use handle : use = AccessUse handle \/ use = RefreshUse handle -> issued handle (usable use).
Proof. intros [-> | ->]; split; try done; apply usable_stable. Qed.

Lemma keeps_validate_use policy id use : keeps (usable use) (validate_credential_use policy id use).
Proof.
  pose proof (usable_stable use) as HP. unfold validate_credential_use, same_id. keep; apply keeps_validate_issued, usable_issued; auto.
Qed.
Lemma keeps_expected_generation P use : keeps P (credential_expected_generation use).
Proof. destruct use; simpl; keep. Qed.
Lemma keeps_submitted P use : keeps P (submitted_flow use).
Proof. destruct use; simpl; unfold live_flow; keep. Qed.
Lemma keeps_revoke_use P use : stable P -> keeps P (revoke_credential_use use).
Proof. intros. unfold revoke_credential_use. keep. Qed.
Lemma keeps_inactive P c flow : stable P -> keeps P (revoke_submitted_if_context_inactive c flow).
Proof. intros. unfold revoke_submitted_if_context_inactive. keep. Qed.
Lemma keeps_new_field P name value : keeps P (new_field name value).
Proof. apply keeps_lift_. Qed.
#[local] Hint Resolve keeps_expected_generation keeps_submitted keeps_revoke_use keeps_inactive keeps_new_field : keeps.
Lemma keeps_native_body P intent body flow : stable P -> keeps P (native_body intent body flow).
Proof. intros. unfold native_body, native_fields. keep. Qed.
Lemma keeps_inject P headers handle policy endpoint path :
  issued handle P -> keeps P (inject_access_authorization headers handle policy endpoint path).
Proof. intros. unfold inject_access_authorization. keep. Qed.
#[local] Hint Resolve keeps_native_body keeps_inject : keeps.

Lemma keeps_spend use native policy endpoint path headers body : keeps (usable use) (spend use native policy endpoint path headers body).
Proof.
  pose proof (usable_stable use) as HP. unfold spend, live_flow.
  keep; (apply keeps_inject || apply keeps_take_access); apply usable_issued; auto.
Qed.

Lemma keeps_polling {A} P o (m : M A) : stable P -> keeps P m -> keeps P (polling o m).
Proof. intros. unfold polling. destruct o; keep. Qed.
Lemma keeps_send_checked P prepared c device : stable P -> keeps P (send_checked prepared c device).
Proof. intros. unfold send_checked, send_request. keep. Qed.
Lemma keeps_mint_device P policy id device : stable P -> keeps P (mint_device_session policy id device).
Proof. intros. unfold mint_device_session. keep_new. Qed.
#[local] Hint Resolve keeps_polling keeps_send_checked keeps_mint_device : keeps.
Lemma keeps_sanitize_parsed P raw parsed id policy g : stable P -> keeps P (sanitize_parsed_response raw parsed id policy g).
Proof. intros. unfold sanitize_parsed_response. keep. Qed.
#[local] Hint Resolve keeps_sanitize_parsed : keeps.
Lemma keeps_sanitize P raw id policy g : stable P -> keeps P (sanitize_response raw id policy g).
Proof. intros. unfold sanitize_response. keep. Qed.
Lemma keeps_sanitize_exchange P raw id policy g intent device c :
  stable P -> keeps P (sanitize_exchange_response raw id policy g intent device c).
Proof. intros. unfold sanitize_exchange_response. keep. Qed.
#[local] Hint Resolve keeps_sanitize keeps_sanitize_exchange : keeps.
Lemma keeps_receive P raw id policy g capture device c : stable P -> keeps P (receive raw id policy g capture device c).
Proof. intros. unfold receive. keep. Qed.
#[local] Hint Resolve keeps_receive : keeps.

Lemma keeps_transmit policy request use bi capture override method id endpoint headers flow c :
  keeps (usable use) (transmit policy request use bi capture override method id endpoint headers flow c).
Proof.
  pose proof (usable_stable use) as HP. pose proof keeps_spend as HS. unfold transmit. keep. all: apply keeps_polling; [done|keep].
  all: apply keeps_polling; [done|keep].
Qed.

Lemma keeps_transport policy request use bi capture owned override :
  keeps (usable use) (transport_inner policy request use bi capture owned override).
Proof.
  pose proof (usable_stable use) as HP. pose proof keeps_transmit as HT. pose proof keeps_validate_use as HU.
  unfold transport_inner. keep.
Qed.

Lemma keeps_start_stream policy request access :
  keeps (usable (AccessUse access)) (start_access_stream_scoped policy request access).
Proof.
  pose proof (usable_stable (AccessUse access)) as HP. pose proof (keeps_validate_use policy) as HU.
  assert (issued access (usable (AccessUse access))) by (apply usable_issued; auto).
  unfold start_access_stream_scoped. keep.
Qed.

(** ** Authorization *)

Lemma keeps_guarding {A} P session (m : M A) : stable P -> keeps P m -> keeps P (guarding session m).
Proof.
  intros HP Hm. apply keeps_match; [done..|]. intros [a|e]; destruct session; keep. by apply keeps_same_host.
Qed.

Lemma keeps_open_browser P url : stable P -> keeps P (open_browser url).
Proof. intros. unfold open_browser. keep. Qed.
#[local] Hint Resolve keeps_open_browser : keeps.

Lemma keeps_begin P policy intent owned : stable P -> keeps P (pkce_begin_inner policy intent owned).
Proof.
  intros HP. unfold pkce_begin_inner. keep. all: apply keeps_guarding; [done|keep_new].
  all: intros h W X; destruct (_ && _); (split; [done|split; [apply host_later_refl|done]]).
Qed.

Lemma keeps_finish_callback P c input : stable P -> keeps P (finish_callback c input).
Proof. intros. unfold finish_callback, callback_parts, csrf_state. keep. Qed.
Lemma keeps_take_callback P c now : stable P -> keeps P (take_callback c now).
Proof. intros. unfold take_callback. keep. Qed.
Lemma keeps_settle {A} P c (r : result A Fault) : stable P -> keeps P (settle c r).
Proof. intros. unfold settle. keep. Qed.
#[local] Hint Resolve keeps_finish_callback keeps_take_callback keeps_settle : keeps.
Lemma keeps_wait P policy handle owned : stable P -> keeps P (callback_wait_inner policy handle owned).
Proof. intros. unfold callback_wait_inner, live_flow. keep. Qed.

(** ** Closing and inspecting *)

Lemma keeps_and_then P m k : keeps P m -> keeps P k -> keeps P (and_then m k).
Proof. intros. unfold and_then. keep. Qed.
Lemma keeps_succeeds {A} P (m : M A) : stable P -> keeps P m -> keeps P (succeeds m).
Proof. intros. unfold succeeds. keep. Qed.
Lemma keeps_is_registered P c : stable P -> keeps P (is_registered c).
Proof. intros. apply keeps_with_flows_of; [done|]. by intros h W X; split_and!; [|apply host_later_refl|]. Qed.
#[local] Hint Resolve keeps_and_then keeps_succeeds keeps_is_registered : keeps.
Ltac keep_and := repeat first [progress keep | apply keeps_and_then].

Lemma keeps_callback_live P handle : stable P -> keeps P (callback_result_live handle).
Proof. intros. unfold callback_result_live. keep_and. Qed.
Lemma keeps_pair_live P code verifier g r id : stable P -> keeps P (exchange_pair_live code verifier g r id).
Proof. intros. unfold exchange_pair_live, exchange_pair_matches_binding. keep_and. Qed.
Lemma keeps_device_live P handle g r id : stable P -> keeps P (device_session_live handle g r id).
Proof. intros. unfold device_session_live, device_session_matches_binding. keep_and. Qed.
#[local] Hint Resolve keeps_callback_live : keeps.
Lemma keeps_inject_callback P handle input : stable P -> keeps P (inject_callback handle input).
Proof. intros. unfold inject_callback, live_flow. keep. Qed.
#[local] Hint Resolve keeps_inject_callback : keeps.

Lemma keeps_drop_host P : stable P -> keeps P drop_host.
Proof.
  intros HP. unfold drop_host. apply keeps_bind; [|intros ids; induction ids; simpl; keep].
  apply keeps_with_flows; [done|]. intros h W X Lk. simpl. split; [|apply host_registry_later].
  apply shrink_wf; [done| |rewrite map_size_empty; lia]. intros id c. by rewrite lookup_empty.
Qed.

(** ** Every call *)

Inductive call :=
| Begin (policy : TrustedTransportPolicy) (intent : BoundedPublicOAuthIntent) (owned : bool)
| Wait (policy : option TrustedTransportPolicy) (handle : Handle) (owned : bool)
| Transport (policy : TrustedTransportPolicy) (request : ProviderRequest) (use : CredentialUse)
    (body_intent : option NativeRequestBodyIntent) (capture : option OpaqueExchangeResponseIntent) (owned : bool) (override : option Z)
| StartStream (policy : TrustedTransportPolicy) (request : ProviderRequest) (access : nat)
| Close (handle : Handle) (class : string) | CloseCallback (handle : Handle)
| Inject (handle : Handle) (input : RawCallbackInput) | InjectMatching (handle : Handle) (code : string)
| RevokeRun (run_id : string) | DropHost
| PairLive (code verifier : Handle) (policy_generation : Z) (run_id credential_id : string)
| DeviceLive (handle : Handle) (policy_generation : Z) (run_id credential_id : string).

Definition holds (c : call) (h : Host) : Prop :=
  match c with
  | Transport _ _ use _ _ _ _ => usable use h
  | StartStream _ _ access => usable (AccessUse access) h
  | _ => True
  end.

Definition run (c : call) (h : Host) : Host :=
  match c with
  | Begin policy intent owned => fst (pkce_begin_inner policy intent owned h)
  | Wait policy handle owned => fst (callback_wait_inner policy handle owned h)
  | Transport policy request use bi capture owned override => fst (transport_inner policy request use bi capture owned override h)
  | StartStream policy request access => fst (start_access_stream_scoped policy request access h)
  | Close handle class => fst (close_flow handle class h)
  | CloseCallback handle => fst (close_callback_resource handle h)
  | Inject handle input => fst (inject_callback handle input h)
  | InjectMatching handle code => fst (inject_matching_callback handle code h)
  | RevokeRun run_id => fst (revoke_run run_id h)
  | DropHost => fst (drop_host h)
  | PairLive code verifier g r id => fst (exchange_pair_live code verifier g r id h)
  | DeviceLive handle g r id => fst (device_session_live handle g r id h)
  end.

(** C15. Every call of the OAuth host, run by any thread while others run the
    host's and the store's calls, keeps the host's invariant, and so never
    leaves more than 64 flows registered; and it does to the shared flows and
    secrets only what it relies on other threads doing: no flag of a flow that
    has left its live state becomes live again, a revoked flow stays revoked,
    the verifier, the state and the device code are kept or erased, and a
    flow's binding and deadline never change. *)
Theorem every_oauth_call_guarantees_what_it_relies_on (c : call) (h : Host) :
  wf h -> holds c h -> wf (run c h) /\ later h (run c h).
Proof.
  intros W X. assert (A : stable always) by done.
  assert (G : forall (T : Type) (m : M T), keeps always m -> wf (fst (m h)) /\ later h (fst (m h))).
  { intros T m Hm. exact (keeps_run always m h Hm W I). }
  destruct c; simpl in *; try match goal with X : True |- _ => apply G end.
  - by apply keeps_begin.
  - by apply keeps_wait.
  - exact (keeps_run _ _ h (keeps_transport _ _ _ _ _ _ _) W X).
  - exact (keeps_run _ _ h (keeps_start_stream _ _ _) W X).
  - unfold close_flow, live_flow. keep.
  - unfold close_callback_resource, live_flow. keep.
  - by apply keeps_inject_callback.
  - unfold inject_matching_callback, live_flow, csrf_state. keep.
  - by apply keeps_revoke_run.
  - by apply keeps_drop_host.
  - by apply keeps_pair_live.
  - by apply keeps_device_live.
Qed.

End rely.

#[export] Hint Resolve keeps_flow_reading keeps_get_flow keeps_flag_load keeps_flag_store keeps_flag_take keeps_clock keeps_is_cancelled
  keeps_recorded keeps_generate keeps_fetch_id keeps_external keeps_prepare keeps_lift_ keeps_guard_ keeps_fail_
  keeps_unwinding keeps_both keeps_updating allowed_clear_state allowed_clear_verifier allowed_put_code
  allowed_clear_device allowed_succeeded allowed_revoked allowed_in_flight keeps_context_check keeps_check_flag
  keeps_take_flag keeps_consume_flag keeps_flow_check_binding keeps_preview keeps_consume_exchange
  keeps_begin_device_poll keeps_device_id keeps_flow_revoke keeps_none_live keeps_flow_terminal keeps_forget
  keeps_sweep_locked keeps_drop_flow keeps_drop_and_revoke keeps_revoke_and_fail keeps_optionally
  keeps_insert_flow has_and keeps_revoke_run keeps_strip keeps_promote keeps_take_access keeps_issued_generation
  keeps_validate_issued keeps_expected_generation keeps_submitted keeps_revoke_use keeps_inactive
  keeps_new_field keeps_native_body keeps_inject keeps_polling keeps_send_checked keeps_mint_device
  keeps_sanitize_parsed keeps_sanitize keeps_sanitize_exchange keeps_receive keeps_open_browser
  keeps_finish_callback keeps_take_callback keeps_settle keeps_and_then keeps_succeeds keeps_is_registered
  keeps_callback_live keeps_inject_callback : keeps.
#[export] Hint Extern 1 (_ <> _) => discriminate : keeps.

Ltac keep := repeat first
  [ progress keeping
  | match goal with
    | |- keeps _ (attempt _) => apply keeps_attempt
    | |- keeps _ (or_else _ _) => apply keeps_or_else
    | |- keeps _ (fs_match _ _) => apply keeps_match; [| |intros]
    | |- keeps _ (polling _ _) => apply keeps_polling
    end ].

End OAuthRely.
