(* ===== verification/OAuthSpec.v ===== *)
(** What the OAuth host guarantees: the requests it lets out, the answers it
    lets in, and the single use of codes and callbacks, while other threads run
    the host's calls. *)
From stdpp Require Import base list strings numbers pretty gmap.
From S2P Require Import Prelude Utf8 Json Rely Credentials RequestBody AuthStore AuthRely OAuthText OAuthTextSpec OAuth OAuthRely AuthStoreSpec.

(** ** Authenticated streams *)

Module AccessStreamSpec.
Import OAuthText OAuth.

(** What happens to a stream: a read, with the answers of its checks and of the
    inner reader, a cancellation, or its end of life. *)
Inductive stream_event :=
| Reads (before : result unit OAuthError) (chunk : result (option (list byte)) OAuthError) (after : result unit OAuthError)
| Cancels
| Drops.

Definition answer := result (option (list byte)) OAuthError.

Fixpoint stream_run (events : list stream_event) (s : AccessStream) : list answer :=
  match events with
  | [] => []
  | Reads before chunk after :: rest => let '(s, r) := read_chunk before chunk after s in r :: stream_run rest s
  | Cancels :: rest => stream_run rest (stream_cancel s)
  | Drops :: rest => stream_run rest (stream_drop s)
  end.

(** What the inner reader answers. *)
Fixpoint chunks_of (events : list stream_event) : list answer :=
  match events with
  | [] => []
  | Reads _ chunk _ :: rest => chunk :: chunks_of rest
  | _ :: rest => chunks_of rest
  end.

Definition final (s : AccessStream) : answer := match as_terminal_error s with Some e => Err e | None => Ok None end.

Lemma stream_run_terminal events s : stream_is_terminal s = true ->
  exists n, stream_run events s = repeat (final s) n.
Proof.
  intros T. induction events as [|[b c a| |] events (n & IH)]; simpl; [by exists 0|..].
  - exists (S n). unfold read_chunk. unfold stream_is_terminal in T. unfold final in *.
    destruct (as_terminal_error s) as [e|] eqn:E; [by rewrite IH|]. destruct (as_eof s); [by rewrite IH|done].
  - exists n. unfold stream_cancel. by rewrite T.
  - exists n. unfold stream_drop. by rewrite T.
Qed.

Lemma read_chunk_step b c a s : stream_is_terminal s = false ->
  let '(s', r) := read_chunk b c a s in
  (stream_is_terminal s' = true /\ r = final s')
  \/ (exists bytes, c = Ok (Some bytes) /\ r = Ok (Some bytes) /\ stream_is_terminal s' = false
      /\ as_received s' = (as_received s + blen bytes)%Z /\ as_max_body_bytes s' = as_max_body_bytes s
      /\ (as_received s' <= as_max_body_bytes s')%Z).
Proof.
  intros T. unfold stream_is_terminal in T. apply orb_false_iff in T as [E1 E2]. unfold read_chunk, stream_fail.
  destruct (as_terminal_error s); [done|]. rewrite E1.
  destruct b; [|by left]. destruct c as [[bytes|]|]; [| |by left].
  - destruct a; [|by left]. unfold checked_add. destruct (as_received s + blen bytes <=? u64_max)%Z; [|by left].
    destruct (_ <=? as_max_body_bytes s)%Z eqn:L; [|by left]. right. exists bytes. simpl. apply Z.leb_le in L. by split_and!.
  - destruct a; by left.
Qed.

Lemma stream_run_bounded events : forall s, stream_is_terminal s = false -> (as_received s <= as_max_body_bytes s)%Z ->
  exists bytes n last, stream_run events s = map (fun b => Ok (Some b)) bytes ++ repeat last n
    /\ (forall b, last <> Ok (Some b)) /\ map (fun b => Ok (Some b)) bytes `prefix_of` chunks_of events
    /\ (as_received s + blen (concat bytes) <= as_max_body_bytes s)%Z.
Proof.
  assert (F : forall s b, final s <> Ok (Some b)) by (intros s b; unfold final; by destruct (as_terminal_error s)).
  assert (STOP : forall s events, stream_is_terminal s = true -> exists n, stream_run events s = repeat (final s) n).
  { intros. by apply stream_run_terminal. }
  induction events as [|[b c a| |] events IH]; intros s T B; simpl.
  - exists [], 0, (Ok None). split_and!; [done|done|apply prefix_nil|unfold blen; simpl; lia].
  - pose proof (read_chunk_step b c a s T) as St. destruct (read_chunk b c a s) as [s' r].
    destruct St as [[T' ->]|(bytes & -> & -> & T' & R & Mx & B')].
    + destruct (STOP s' events T') as [n ->]. exists [], (S n), (final s').
      split_and!; [done|auto|apply prefix_nil|unfold blen; simpl; lia].
    + destruct (IH s' T' B') as (bs & n & last & -> & N & Pr & Bd). exists (bytes :: bs), n, last.
      split_and!; [done|done|by apply prefix_cons|]. simpl. unfold blen in *. rewrite length_app. lia.
  - destruct (STOP (stream_cancel s) events) as [n ->]; [unfold stream_cancel; rewrite T; by destruct (as_eof s)|].
    exists [], n, (final (stream_cancel s)). split_and!; [done|auto|apply prefix_nil|unfold blen; simpl; lia].
  - destruct (STOP (stream_drop s) events) as [n ->]; [unfold stream_drop; by rewrite T|].
    exists [], n, (final (stream_drop s)). split_and!; [done|auto|apply prefix_nil|unfold blen; simpl; lia].
Qed.

(** An authenticated stream delivers a prefix of what its reader answers,
    of at most [MAX_ACCESS_STREAM_BODY_BYTES] bytes in all, whatever the
    answers, the cancellations and the checks; once it has ended, every
    further read gets the same answer, the end or one error. *)
Theorem stream_delivers_a_bounded_prefix (events : list stream_event) :
  exists bytes n last, stream_run events stream_open = map (fun b => Ok (Some b)) bytes ++ repeat last n
    /\ (forall b, last <> Ok (Some b)) /\ map (fun b => Ok (Some b)) bytes `prefix_of` chunks_of events
    /\ (blen (concat bytes) <= MAX_ACCESS_STREAM_BODY_BYTES)%Z.
Proof. apply (stream_run_bounded events stream_open); [done|]. by vm_compute. Qed.

End AccessStreamSpec.

(** ** What a new flow keeps *)

Module FrameSpec.
Import OAuthText OAuth OAuthRely.
Import AuthStore (HandleState, HANDLE_LIVE, HANDLE_USED, HANDLE_EXPIRED, HANDLE_REVOKED).
#[local] Existing Instance AuthStore.handle_state_eq_dec.

Section frame.
Context `{D : OAuthDeps} `{AH : AuthStore.AuthHost} `{R : Ring} `{J : JsonStream} `{U : UrlCrate} `{JS : Body.JsonStrings}.

(** Something [g] of the host that the store and the flows that are not [off]
    determine, and that other threads leave alone. *)
Context {T : Type} (g : Host -> T) (off : nat -> Prop).
Definition same_but (h h' : Host) : Prop := vault h' = vault h /\ forall d, ~ off d -> cells h' !! d = cells h !! d.
Hypothesis g_same : forall h h', same_but h h' -> g h' = g h.
Hypothesis g_threads : forall n h, g (oauth_threads n h) = g h.

Definition frames {A} (m : M A) : Prop := forall h, g (fst (m h)) = g h.

Lemma frames_bind {A B} (m : M A) (k : A -> M B) : frames m -> (forall a, frames (k a)) -> frames (fs_bind m k).
Proof.
  intros Hm Hk h. unfold fs_bind. specialize (Hm h). destruct (m h) as [h1 [a|e]]; simpl in *; [|done]. by rewrite Hk.
Qed.
Lemma frames_match {A B} (m : M A) (k : result A Fault -> M B) : frames m -> (forall r, frames (k r)) -> frames (fs_match m k).
Proof. intros Hm Hk h. unfold fs_match. specialize (Hm h). destruct (m h) as [h1 r]. simpl in *. by rewrite Hk. Qed.
Lemma frames_pure {A} (r : result A Fault) : frames (fun h => (h, r)).
Proof. done. Qed.
Lemma frames_of {A} (m : M A) : (forall h, same_but h (fst (m h))) -> frames m.
Proof. intros Hm h. apply g_same, Hm. Qed.
Lemma frames_atomic_of {A} (f : Host -> Host * A) : (forall h, g (fst (f h)) = g h) -> frames (OAuth.atomic f).
Proof.
  intros Hf h. unfold OAuth.atomic. set (h1 := oauth_threads _ _). assert (E : g h1 = g h).
  { unfold h1. rewrite g_threads. by apply g_same. }
  specialize (Hf h1). destruct (f h1). simpl in *. congruence.
Qed.
Lemma frames_atomic {A} (f : Host -> Host * A) : (forall h, same_but h (fst (f h))) -> frames (OAuth.atomic f).
Proof. intros Hf. apply frames_atomic_of. intros h. apply g_same, Hf. Qed.
Lemma frames_external {A} (f : nat -> result A OAuthError) : frames (external f).
Proof.
  intros h. unfold external. cbn [fst]. rewrite (g_same (oauth_threads (pauses h) (OAuth.counted 0 0 0 0 1 h))), g_threads by done.
  by apply g_same.
Qed.
Lemma frames_updating d f : off d -> frames (updating d f).
Proof.
  intros Hd. apply frames_atomic. intros h. split; [done|]. intros c Hc. apply lookup_alter_ne. by intros ->.
Qed.
Lemma frames_flow_revoke d : off d -> frames (flow_revoke d).
Proof.
  intros Hd. unfold flow_revoke, flag_store. apply frames_bind; [by apply frames_of|]. intros x.
  repeat (apply frames_bind; [by apply frames_updating|]; intros _).
  apply frames_bind; [apply frames_of; intros h; by destruct (fl_prepared_callback x)|]. intros _.
  repeat (apply frames_bind; [by apply frames_updating|]; intros _). by apply frames_updating.
Qed.
Lemma frames_reading {A} d (f : FlowInner -> A) : frames (reading d f).
Proof. by apply frames_atomic. Qed.
Lemma frames_none_live d flags : frames (none_live d flags).
Proof.
  induction flags as [|f flags IH]; [apply frames_pure|]. apply frames_bind; [apply frames_reading|]. intros st.
  by destruct (decide (st = HANDLE_LIVE)).
Qed.
Lemma frames_guard b e : frames (guard b e).
Proof. by destruct b. Qed.
Lemma frames_context_check context : frames (context_check context).
Proof.
  apply frames_bind; [by apply frames_of|]. intros. apply frames_bind; [apply frames_guard|]. intros.
  apply frames_bind; [by apply frames_of|]. intros. apply frames_guard.
Qed.
Lemma frames_sweep now ids : Forall off ids -> frames (sweep_flows now ids).
Proof.
  induction 1 as [|d ids Hd _ IH]; [apply frames_pure|]. simpl. apply frames_bind; [by apply frames_of|]. intros x.
  apply frames_bind; [destruct (_ <=? _)%Z; [apply frames_pure|apply frames_none_live]|]. intros over.
  apply frames_bind; [|done]. destruct over; [|apply frames_pure].
  apply frames_bind; [by apply frames_flow_revoke|]. intros. by apply frames_of.
Qed.
Lemma frames_promotable d : frames (promotable d).
Proof.
  apply frames_bind; [by apply frames_of|]. intros []; [|apply frames_pure]. apply frames_bind; [apply frames_reading|].
  intros []; [apply frames_pure|]. apply frames_bind; [apply frames_reading|]. intros. apply frames_pure.
Qed.

(** A computation under the registry's lock, from the point where it is taken. *)
Definition taken (h : Host) : Host := with_locked true (oauth_threads (pauses h) (counted 0 0 0 0 1 h)).
Lemma frames_with_flows {A} (m : M A) h : g (fst (m (taken h))) = g (taken h) -> g (fst (with_flows m h)) = g h.
Proof.
  intros Hm. unfold with_flows, fs_bind, fs_match, OAuth.atomic. change (with_locked true _) with (taken h).
  destruct (m (taken h)) as [h1 r]. simpl in *. rewrite (g_same h1), Hm by done. unfold taken.
  rewrite (g_same (oauth_threads (pauses h) (counted 0 0 0 0 1 h))), g_threads by done. by apply g_same.
Qed.
Lemma frames_sweep_locked h : Forall off (registry_cells h) -> g (fst (sweep_locked h)) = g h.
Proof.
  intros Hr. unfold sweep_locked, fs_bind, clock_now. rewrite frames_sweep by exact Hr. by apply g_same.
Qed.
Lemma frames_insert_flow c h : Forall off (registry_cells (taken h)) -> is_ok (snd (insert_flow c h)) = true ->
  g (fst (insert_flow c h)) = g h.
Proof.
  intros Hr Ok. destruct (insert_flow c h) as [h' r] eqn:E. destruct r as [[]|]; [|done]. cbn [fst].
  unfold insert_flow in E. apply fs_bind_done in E as (h1 & full & E1 & E).
  assert (h' = h1) as -> by (destruct full; [apply fs_bind_done in E as (? & ? & _ & [=])|by injection E as ->]).
  match type of E1 with with_flows ?m h = _ => pose proof (frames_with_flows m h) as F end. rewrite E1 in F. apply F.
  pose proof (frames_sweep_locked _ Hr) as S. unfold fs_bind at 1.
  destruct (sweep_locked (taken h)) as [h2 [a|e]]; cbn [fst] in *; [|done]. unfold fs_bind, flow_count.
  destruct (MAX_LIVE_OAUTH_FLOWS <=? size (registry h2)); [done|]. cbn [fst register fs_ret]. by rewrite (g_same h2).
Qed.

Lemma frames_or_else {A} (m : M A) cleanup : frames m -> frames cleanup -> frames (or_else m cleanup).
Proof.
  intros Hm Hc. apply frames_match; [done|]. intros [b|[e|]]; [apply frames_pure| |apply frames_pure].
  apply frames_bind; [done|]. intros. apply frames_pure.
Qed.

(** The exchange's flow published in the place of the device's. *)
Lemma frames_publish device cell context h : off device -> Forall off (registry_cells (taken h)) ->
  g (fst (with_flows (let* _ := sweep_locked in
    let* ok := promotable device in
    if (ok : bool) then
      let* _ := context_check context in
      let* _ := flow_revoke device in
      let* _ := forget device in
      let* _ := register cell in
      or_else (context_check context) (forget cell)
    else fail (HandleRevoked DEVICE_HANDLE_CLASS)) h)) = g h.
Proof.
  intros Hd Hr. apply frames_with_flows. unfold fs_bind at 1. pose proof (frames_sweep_locked _ Hr) as E.
  destruct (sweep_locked (taken h)) as [h1 [[]|e]]; cbn [fst] in *; [|done]. rewrite <-E.
  revert h1 E. intros h1 _. revert h1. apply frames_bind; [apply frames_promotable|]. intros []; [|apply frames_pure].
  apply frames_bind; [apply frames_context_check|]. intros. apply frames_bind; [by apply frames_flow_revoke|]. intros.
  apply frames_bind; [by apply frames_of|]. intros. apply frames_bind; [by apply frames_of|]. intros.
  apply frames_or_else; [apply frames_context_check|by apply frames_of].
Qed.

End frame.

Section alone.
Context `{D : OAuthDeps} `{AH : AuthStore.AuthHost} `{R : Ring} `{J : JsonStream} `{U : UrlCrate} `{JS : Body.JsonStrings}.
(** Other threads leave the store alone, or a flow of the host: neither the
    flow itself nor whether it is registered. *)
Definition store_alone : Prop := forall n h, vault (oauth_threads n h) = vault h.
Definition flow_alone (c : nat) : Prop := forall n h, cells (oauth_threads n h) !! c = cells h !! c
  /\ (c ∉ registry_cells h -> c ∉ registry_cells (oauth_threads n h)).

Lemma or_else_done {A} (m : M A) cleanup h h' a : or_else m cleanup h = (h', Ok a) -> m h = (h', Ok a).
Proof.
  unfold or_else, fs_match. destruct (m h) as [h1 [b|[e|]]]; [done| |done]. intros E. by apply fs_bind_done in E as (? & ? & _ & [=]).
Qed.
Lemma same_but_cell c h h' : same_but (fun d => d <> c) h h' -> cells h' !! c = cells h !! c.
Proof. intros [_ E]. apply E. auto. Qed.
Lemma same_but_vault h h' : same_but (fun _ => True) h h' -> vault h' = vault h.
Proof. by intros [E _]. Qed.
End alone.
End FrameSpec.

(** ** Answers *)

Module ResponseSpec.
Import OAuthText OAuthTextSpec OAuth OAuthRely FrameSpec.
#[local] Existing Instance AuthRely.store_steps.

Section response.
Context `{D : OAuthDeps} `{AH : AuthStore.AuthHost} `{R : Ring} `{J : JsonStream} `{U : UrlCrate} `{JS : Body.JsonStrings}.
Context {TL : AuthRely.ThreadLaws} {OL : OAuthThreadLaws}.
Variables (credential_id : string) (policy : TrustedTransportPolicy) (expected_generation : Z).

(** *** The secrets put into the store *)

(** The slot made for a secret, bound to the credential and the policy of a
    request. *)
Definition new_slot (kind : AuthStore.SecretSlotKind) (secret : string) (x : AuthStore.SecretSlot) : Prop :=
  AuthStore.ss_kind x = kind /\ AuthStore.ss_credential_id x = credential_id
  /\ AuthStore.ss_expected_generation x = expected_generation /\ AuthStore.ss_policy_generation x = tp_generation policy
  /\ AuthStore.ss_run_id x = tp_run_id policy /\ (AuthStore.ss_expires_at x <= tp_deadline policy)%Z
  /\ AuthStore.ss_bytes x = s2b secret /\ AuthStore.ss_state x = AuthStore.SLOT_LIVE.

Definition slot_of_secret (kind : AuthStore.SecretSlotKind) (s : AuthStore.Store) (secret : string) (k : nat) : Prop :=
  exists x, AuthStore.slots s !! k = Some x /\ new_slot kind secret x.

(** The sink after the leaves [seen]: the last token of each kind and the first
    device. *)
Definition sink_holds (seen : list (string * string)) (sink : SecretSink) (s : AuthStore.Store) : Prop :=
  option_Forall2 (slot_of_secret AuthStore.Access s) (last (token_secrets "access_token" seen)) (sk_access sink)
  /\ option_Forall2 (slot_of_secret AuthStore.Refresh s) (last (token_secrets "refresh_token" seen)) (sk_refresh sink)
  /\ sk_device_id sink = head (device_secrets seen).

Lemma slots_grow kind s s' secret k : AuthStore.slots s ⊆ AuthStore.slots s' ->
  option_Forall2 (slot_of_secret kind s) secret k -> option_Forall2 (slot_of_secret kind s') secret k.
Proof.
  intros G. destruct 1 as [a b (x & Hx & N)|]; constructor. exists x. split; [|done]. by eapply lookup_weaken.
Qed.

Lemma mint_done kind secret s s' k : AuthRely.wf s ->
  AuthStore.from_host_secret_until kind credential_id expected_generation (tp_generation policy) (tp_run_id policy)
    (s2b secret) (tp_deadline policy) s = (s', Ok k) ->
  AuthRely.wf s' /\ AuthStore.slots s ⊆ AuthStore.slots s' /\ slot_of_secret kind s' secret k.
Proof.
  intros W E. pose proof (keeps_done always _ _ _ _ (AuthRely.keeps_from_host_secret always _ _ _ _ _ _ _ always_stable)
    always_stable W I E) as (W' & _ & _).
  unfold AuthStore.from_host_secret_until in E. apply fs_bind_done in E as (s1 & [] & [_ ->]%fs_guard_done & E).
  apply fs_bind_done in E as (s1 & [] & [_ ->]%fs_guard_done & E). apply fs_bind_done in E as (s1 & [] & [_ ->]%fs_lift_done & E).
  apply fs_bind_done in E as (s1 & t & [= <- <-] & E). injection E as <- <-. split; [done|]. simpl. split.
  - apply insert_subseteq, (AuthRely.wf_fresh _ W). simpl. lia.
  - eexists. simpl. rewrite lookup_insert_eq. split; [done|]. split_and!; simpl; try done. lia.
Qed.

Definition leaf (key : string) (nested : Json) : list (string * string) :=
  match nested with JString secret => [(key, secret)] | _ => [] end.

Lemma token_secrets_leaf name key secret seen : token_secrets name (seen ++ [(key, secret)]) =
  token_secrets name seen ++ if negb (device_secret_key key) && eq_ignore_ascii_case key name then [secret] else [].
Proof. rewrite token_secrets_app. f_equal. unfold token_secrets. simpl. by destruct (_ && _). Qed.
Lemma device_secrets_leaf key secret seen : head (device_secrets (seen ++ [(key, secret)])) =
  match head (device_secrets seen) with Some d => Some d | None => if device_secret_key key then Some secret else None end.
Proof.
  rewrite device_secrets_app. unfold device_secrets at 2. simpl. destruct (device_secrets seen); simpl; [|done].
  by destruct (device_secret_key key).
Qed.

Lemma sink_secret_done sink key nested seen s s' sink' : AuthRely.wf s -> sink_holds seen sink s ->
  sink_secret credential_id policy expected_generation sink key nested s = (s', Ok sink') ->
  AuthRely.wf s' /\ sink_holds (seen ++ leaf key nested) sink' s'.
Proof.
  intros W (A & B & Ed) E. unfold sink_secret in E.
  destruct nested as [| | |secret| |]; try (injection E as <- <-; simpl; by rewrite app_nil_r). cbn [leaf]. unfold sink_holds.
  rewrite !token_secrets_leaf, device_secrets_leaf, <-Ed. destruct (device_secret_key key) eqn:K; simpl.
  { injection E as <- <-. rewrite !app_nil_r. by destruct (sk_device_id sink) eqn:Es. }
  unfold mint_slot, slot_kind_of in E. assert (Dv : forall o : option string, match o with Some d => Some d | None => None end = o) by by intros [].
  destruct (eq_ignore_ascii_case key "access_token") eqn:Ka.
  - apply str_eqb_true in Ka as Kl. assert (eq_ignore_ascii_case key "refresh_token" = false) as ->
      by (unfold eq_ignore_ascii_case; by rewrite Kl).
    apply fs_bind_done in E as (s1 & k & E1 & [= <- <-]). apply mint_done in E1 as (W1 & G & M); [|done].
    split; [done|]. rewrite last_snoc, app_nil_r, Dv. split_and!; [by constructor|by eapply slots_grow|done].
  - destruct (eq_ignore_ascii_case key "refresh_token").
    + apply fs_bind_done in E as (s1 & k & E1 & [= <- <-]). apply mint_done in E1 as (W1 & G & M); [|done].
      split; [done|]. rewrite last_snoc, app_nil_r, Dv. split_and!; [by eapply slots_grow|by constructor|done].
    + injection E as <- <-. by rewrite !app_nil_r, Dv.
Qed.

(** A part of the cleaning: what it leaves, and the leaves it has seen. *)
Definition strips {A} (m : SecretSink -> AuthStore.M (A * SecretSink)) (kept : A) (leaves : list (string * string)) : Prop :=
  forall seen sink s s' r, AuthRely.wf s -> sink_holds seen sink s -> m sink s = (s', Ok r) ->
    AuthRely.wf s' /\ fst r = kept /\ sink_holds (seen ++ leaves) (snd r) s'.

Lemma strips_ret {A} (a : A) : strips (fun sink => fs_ret (a, sink)) a [].
Proof. intros seen sink s s' r W O [= <- <-]. by rewrite app_nil_r. Qed.

Lemma strips_members strip map :
  Forall (fun kv => strips (strip kv.2) (strip_secret_keys kv.2) (secret_leaves kv.2)) map -> forall kept,
  strips (strip_members strip (sink_secret credential_id policy expected_generation) map kept)
    (fold_left (fun kept '(key, nested) => if secret_key key then kept else obj_insert key (strip_secret_keys nested) kept) map kept)
    (secret_leaves (JObject map)).
Proof.
  induction 1 as [|[key x] map Hx _ IH]; intros kept; [apply strips_ret|]. intros seen sink s s' r W O E. simpl in E |- *.
  rewrite app_assoc. destruct (secret_key key).
  - apply fs_bind_done in E as (s1 & sink1 & E1 & E). apply (sink_secret_done _ _ _ seen) in E1 as [W1 O1]; [|done|done].
    by eapply IH.
  - apply fs_bind_done in E as (s1 & [j sink1] & E1 & E). apply (Hx seen) in E1 as (W1 & Ej & O1); [|done|done]. simpl in Ej. subst j. by eapply IH.
Qed.
Lemma strips_values strip l : Forall (fun x => strips (strip x) (strip_secret_keys x) (secret_leaves x)) l -> forall kept,
  strips (strip_values strip l kept) (kept ++ map strip_secret_keys l) (secret_leaves (JArray l)).
Proof.
  induction 1 as [|x l Hx _ IH]; intros kept; [simpl; rewrite app_nil_r; apply strips_ret|].
  intros seen sink s s' r W O E. simpl in E |- *. rewrite app_assoc, (cons_middle _ kept), (app_assoc kept). apply fs_bind_done in E as (s1 & [j sink1] & E1 & E).
  apply (Hx seen) in E1 as (W1 & Ej & O1); [|done|done]. simpl in Ej. subst j. by eapply IH.
Qed.

Lemma strips_secrets value : strips (strip_secrets credential_id policy expected_generation value)
  (strip_secret_keys value) (secret_leaves value).
Proof.
  induction value as [|b|n|t|l IH|m IH] using json_ind'; try apply strips_ret; intros seen sink s s' r W O E;
    apply fs_bind_done in E as (s1 & [j sink1] & E1 & [= <- <-]).
  - apply (strips_values _ l IH [] seen) in E1 as (W1 & E1 & O1); [|done|done]. simpl in E1. by subst.
  - apply (strips_members _ m IH [] seen) in E1 as (W1 & E1 & O1); [|done|done]. simpl in E1. subst. by rewrite strip_object.
Qed.

(** *** The flows a response opens *)

(** A flow made as [x], as the host holds it afterwards. *)
Definition kept_flow (c : nat) (x : FlowInner) (h : Host) : Prop :=
  exists y, cells h !! c = Some y /\ same_flow x y /\ (flow_alone c -> y = x).
(** A secret in a slot of the store, as the host holds it afterwards. *)
Definition kept_secret (kind : AuthStore.SecretSlotKind) (h : Host) (secret : string) (k : nat) : Prop :=
  exists x y, new_slot kind secret x /\ AuthStore.slots (vault h) !! k = Some y /\ AuthRely.same_slot x y
    /\ (store_alone -> y = x).

(** A new flow is not among those swept when it is registered. *)
Lemma new_unswept c h : wf h -> c = next_cell h -> flow_alone c -> forall h1, registry h1 = registry h ->
  Forall (fun d => d <> c) (registry_cells (taken h1)).
Proof.
  intros W -> Al h1 E. apply Forall_forall. intros d Hd ->. destruct (Al (pauses h1) (OAuth.counted 0 0 0 0 1 h1)) as [_ N].
  apply N; [|exact Hd]. unfold registry_cells. simpl. rewrite E. intros ([i c] & Ec & Hi)%list_elem_of_fmap. simpl in *.
  apply elem_of_map_to_list, (wf_registry _ W) in Hi as [x Hx]. rewrite (wf_fresh _ W) in Hx; [done|lia].
Qed.

Lemma new_flow_done x h h' c : wf h -> new_flow x h = (h', Ok c) ->
  wf h' /\ later h h' /\ c = next_cell h /\ cells h' !! c = Some x /\ registry h' = registry h /\ vault h' = vault h.
Proof.
  intros W E. destruct (triple_new_flow always x always_stable h W I) as (W' & L & _). rewrite E in W', L.
  injection E as <- <-. split_and!; try done. simpl. by rewrite lookup_insert_eq.
Qed.

Definition device_of (device_id : string) (x : FlowInner) : Prop :=
  exists id expires_at, x = device_flow id policy credential_id expires_at device_id /\ (expires_at <= tp_deadline policy)%Z.

Lemma mint_device_done device_id h h' c : wf h -> mint_device_session policy credential_id device_id h = (h', Ok c) ->
  wf h' /\ later h h' /\ (store_alone -> vault h' = vault h) /\ exists x, device_of device_id x /\ kept_flow c x h'.
Proof.
  intros W E. pose proof (keeps_done always _ _ _ _ (keeps_mint_device always _ _ _ always_stable) always_stable W I E) as (W' & L & _).
  split; [done|]. split; [done|]. unfold mint_device_session in E.
  apply fs_bind_done in E as (h1 & [] & [_ ->]%fs_guard_done & E). apply fs_bind_done in E as (h2 & id & E2 & E).
  apply (keeps_done always) in E2 as K2; [|by apply keeps_fetch_id|done|done|done]. destruct K2 as (W2 & L2 & _).
  apply fs_bind_done in E as (h3 & now & E3 & E). injection E3 as <- <-.
  assert (W3 : wf (counted 1 0 0 0 0 h2)) by by apply (same_host_wf h2). set (h3 := counted 1 0 0 0 0 h2) in *.
  apply fs_bind_done in E as (h4 & c' & E4 & E). apply new_flow_done in E4 as (W4 & L4 & Ec & Hc & Er & Ev); [|done].
  apply fs_bind_done in E as (h5 & [] & E5 & E). injection E as <- <-. split.
  - intros SA. pose proof (frames_insert_flow vault (fun _ => True) same_but_vault SA c' h4) as F. rewrite E5 in F.
    pose proof (frames_atomic vault (fun _ => True) same_but_vault SA (fun h => (with_next_id S h, next_id h)) ltac:(done) h) as F2.
    unfold fetch_id in E2. rewrite E2 in F2. cbn [fst snd] in F, F2. rewrite F, Ev; [exact F2| |done]. by apply Forall_true.
  - eexists. split; [by eexists _, _; split; [|apply Z.le_min_l]|].
    apply (keeps_done (valid c')) in E5 as K5; [|apply keeps_insert_flow; split; [apply flow_valid_stable|done]|apply flow_valid_stable|done|by eexists].
    destruct K5 as (W5 & L5 & _). destruct (later_cells _ _ L5 _ _ Hc) as (y & Hy & S). exists y. split_and!; [done|done|].
    intros FA. pose proof (frames_insert_flow (fun h => cells h !! c') (fun d => d <> c') (same_but_cell c') (fun n h => proj1 (FA n h)) c' h4) as F.
    rewrite E5 in F. specialize (F (new_unswept c' h3 W3 Ec FA h4 Er) eq_refl). simpl in F. rewrite Hc, Hy in F. by injection F.
Qed.

Definition exchange_of (device : nat) (redirect_uri code verifier : string) (h : Host) (x : FlowInner) : Prop :=
  exists id source, x = exchange_flow id source policy redirect_uri code verifier
    /\ flow_core source = flow_core (flow_of h device).

Lemma promote_done device redirect_uri code verifier context h h' c : wf h -> valid device h ->
  promote_device_session device policy redirect_uri code verifier context h = (h', Ok c) ->
  wf h' /\ later h h' /\ (store_alone -> vault h' = vault h)
  /\ exists x, exchange_of device redirect_uri code verifier h x /\ kept_flow c x h'.
Proof.
  intros W V E.
  pose proof (keeps_done always _ _ _ _ (keeps_promote always _ _ _ _ _ _ always_stable) always_stable W I E) as (W' & L & _).
  split; [done|]. split; [done|]. unfold promote_device_session in E.
  apply fs_bind_done in E as (h1 & [] & E1 & E).
  assert (K1 : keeps (valid device) (or_else (context_check context) (drop_and_revoke device))) by (assert (stable (valid device)) by apply flow_valid_stable; keep).
  apply (keeps_done _ _ _ _ _ K1) in E1 as S1; [|apply flow_valid_stable|done|done]. destruct S1 as (W1 & L1 & V1).
  apply or_else_done in E1.
  apply fs_bind_done in E as (h2 & id & E2 & E).
  apply (keeps_done (valid device)) in E2 as S2; [|apply keeps_fetch_id, flow_valid_stable|apply flow_valid_stable|done|done].
  destruct S2 as (W2 & L2 & V2). apply fs_bind_done in E as (h3 & x & [= <- <-] & E).
  apply fs_bind_done in E as (h4 & c' & E4 & E). apply new_flow_done in E4 as (W4 & L4 & Ec & Hc & Er & Ev); [|done].
  apply fs_bind_done in E as (h5 & [] & E5 & E). injection E as <- <-. apply or_else_done in E5.
  split.
  - intros SA. pose proof (frames_publish vault (fun _ => True) same_but_vault SA device c' context h4 I) as F. rewrite E5 in F.
    pose proof (frames_atomic vault (fun _ => True) same_but_vault SA (fun h => (with_next_id S h, next_id h)) ltac:(done) h1) as F2.
    pose proof (frames_context_check vault (fun _ => True) same_but_vault context h) as F1.
    unfold fetch_id in E2. rewrite E2 in F2. rewrite E1 in F1. cbn [fst] in *. rewrite F, Ev, F2; [done|]. by apply Forall_true.
  - eexists. split.
    { eexists _, _. split; [done|]. apply same_core, flow_same; [done|by eapply host_later_trans]. }
    apply (keeps_done (valid c')) in E5 as K5; [|apply keeps_with_flows; [apply flow_valid_stable|]|apply flow_valid_stable|done|by eexists].
    2: { intros hh Wh Vh Lk. by apply held_publication. }
    destruct K5 as (W5 & L5 & _). destruct (later_cells _ _ L5 _ _ Hc) as (y & Hy & S). exists y. split_and!; [done|done|].
    intros FA. assert (device <> c').
    { intros ->. destruct V2 as [z Hz]. rewrite (wf_fresh _ W2) in Hz; [done|lia]. }
    pose proof (frames_publish (fun h => cells h !! c') (fun d => d <> c') (same_but_cell c') (fun n h => proj1 (FA n h)) device c' context h4) as F.
    rewrite E5 in F. cbn [fst] in F. rewrite Hc, Hy in F. specialize (F ltac:(done) (new_unswept c' h2 W2 Ec FA h4 Er)). by injection F.
Qed.

(** *** Cleaned answers *)

(** What an answer keeps of the response [parsed]. *)
Definition cleaned (parsed : Json) (r : SanitizedProviderResponse) (h : Host) : Prop :=
  let leaves := secret_leaves parsed in
  sp_body r = strip_secret_keys parsed
  /\ option_Forall2 (kept_secret AuthStore.Access h) (last (token_secrets "access_token" leaves)) (sp_access_slot r)
  /\ option_Forall2 (kept_secret AuthStore.Refresh h) (last (token_secrets "refresh_token" leaves)) (sp_refresh_slot r)
  /\ option_Forall2 (fun device_id c => exists x, device_of device_id x /\ kept_flow c x h)
       (head (device_secrets leaves)) (sp_device_handle r).

Lemma slot_kept kind h h' secret k : AuthRely.later (vault h) (vault h') -> (store_alone -> vault h' = vault h) ->
  option_Forall2 (slot_of_secret kind (vault h)) secret k -> option_Forall2 (kept_secret kind h') secret k.
Proof.
  intros L S. destruct 1 as [a b (x & Hx & N)|]; constructor. destruct (AuthRely.later_slots _ _ L _ _ Hx) as (y & Hy & E).
  exists x, y. split_and!; [done..|]. intros Al. rewrite (S Al) in Hy. congruence.
Qed.

Lemma sanitize_parsed_done raw parsed h h' r : wf h ->
  sanitize_parsed_response raw parsed credential_id policy expected_generation h = (h', Ok r) ->
  wf h' /\ later h h' /\ cleaned parsed r h' /\ sp_public_headers r = public_headers (rr_headers raw).
Proof.
  intros W E.
  pose proof (keeps_done always _ _ _ _ (keeps_sanitize_parsed always _ _ _ _ _ always_stable) always_stable W I E) as (W' & L & _).
  split; [done|]. split; [done|]. unfold sanitize_parsed_response in E.
  apply fs_bind_done in E as (h1 & [body sink] & E1 & E). 
  pose proof (keeps_done always _ _ _ _ (keeps_strip always _ _ _ _ _ always_stable) always_stable W I E1) as (W1 & L1 & _).
  unfold in_vault in E1. destruct (strip_secrets _ _ _ _ _ (vault h)) as [v [q|]] eqn:Es; [|done]. injection E1 as <- ->.
  apply (strips_secrets parsed []) in Es as (_ & Eb & A & B & Ed); [|apply W|by split_and!; try constructor].
  simpl in Eb, A, B, Ed. subst body. apply fs_bind_done in E as (h2 & device & E2 & E). injection E as <- <-. split; [|done].
  unfold cleaned. simpl. rewrite <-Ed. split; [done|]. simpl in E2. destruct (sk_device_id sink) as [device_id|].
  - apply fs_bind_done in E2 as (h3 & c & E2 & [= <- <-]). apply mint_device_done in E2 as (W2 & L2 & S & x & X); [|done].
    pose proof (later_vault _ _ L2). split_and!; [by eapply slot_kept|by eapply slot_kept|]. constructor. by exists x.
  - injection E2 as <- <-. split_and!; [eapply slot_kept; [apply AuthRely.later_refl|done|done]..|constructor].
Qed.

(** The headers that carry credentials. *)
Definition CREDENTIAL_HEADERS : list string := ["authorization"; "cookie"; "set-cookie"; "proxy-authorization"].

Lemma public_headers_clean headers name : name ∈ CREDENTIAL_HEADERS -> obj_get name (public_headers headers) = None.
Proof.
  intros Hn. unfold public_headers. assert (G : forall acc, obj_get name acc = None ->
    obj_get name (fold_left (fun public '(name, value) =>
      let lowered := to_ascii_lowercase name in
      if bool_decide (lowered ∈ CREDENTIAL_HEADERS) then public else obj_insert lowered value public) headers acc) = None).
  { induction headers as [|[n v] headers IH]; intros acc Ha; simpl; [done|]. apply IH. case_bool_decide as B; [done|].
    rewrite obj_get_insert. destruct (str_eqb_spec name (to_ascii_lowercase n)) as [E|]; [|done]. by rewrite <- E in B. }
  by apply G.
Qed.

(** What the host hands on of the answer [raw]. *)
Definition hides (raw : RawHttpsResponse) (r : SanitizedProviderResponse) (parsed : Json) (h : Host) : Prop :=
  (forall path, at_place path (sp_body r) = if existsb secret_place path then None else strip_secret_keys <$> at_place path parsed)
  /\ (forall name, name ∈ CREDENTIAL_HEADERS -> obj_get name (sp_public_headers r) = None)
  /\ cleaned parsed r h.

Lemma cleaned_hides raw r parsed h : parse_strict_json (b2s (rr_body raw)) = Ok parsed ->
  sp_public_headers r = public_headers (rr_headers raw) -> cleaned parsed r h -> hides raw r parsed h.
Proof.
  intros Ep Eh C. split_and!; [|intros name Hn; rewrite Eh; by apply public_headers_clean|done].
  intros path. rewrite (proj1 C). apply strip_at_place.
  unfold parse_strict_json, parse_strict_json_with_limits in Ep. destruct (json_tree _) as [t trailing].
  destruct (strict _ _ _ t) as [p|] eqn:Es; [|done]. apply strict_ok in Es as [Wk _]. unfold ended in Ep.
  destruct trailing; simpl in Ep; [done|]. by injection Ep as <-.
Qed.

Lemma body_parsed {A} raw (k : Json -> M A) h h' a :
  (let* text := lift (response_text raw) in let* parsed := lift (parse_strict_json text) in k parsed) h = (h', Ok a) ->
  exists parsed, parse_strict_json (b2s (rr_body raw)) = Ok parsed /\ k parsed h = (h', Ok a).
Proof.
  intros E. apply fs_bind_done in E as (h1 & text & E1 & E). apply fs_bind_done in E as (h2 & parsed & E2 & E).
  apply fs_lift_done in E1 as [E1 ->]. apply fs_lift_done in E2 as [E2 ->].
  unfold response_text in E1. destruct (utf8_valid _); [|done]. injection E1 as <-.
  destruct (parse_strict_json _) as [parsed'|] eqn:Ep; [|done]. injection E2 as ->. by exists parsed.
Qed.

(** The exchange's flow: the code and the verifier of the answer, in a flow with
    the binding of the device's. *)
Definition exchange_kept (field : ExchangeCodeField) (redirect_uri : string) (device : nat) (parsed : Json) (h h' : Host) (c : nat) : Prop :=
  exists code verifier x, code ∈ token_secrets (code_name field) (secret_leaves parsed)
    /\ verifier ∈ token_secrets "code_verifier" (secret_leaves parsed)
    /\ exchange_of device redirect_uri code verifier h x /\ kept_flow c x h'.

Lemma pair_taken (b : bool) parsed field h h1 rest pair :
  (if b then lift (take_exchange_pair parsed field) else fs_ret (parsed, None)) h = (h1, Ok (rest, pair)) ->
  h1 = h /\ (forall r h, cleaned rest r h -> cleaned parsed r h)
  /\ forall code verifier, pair = Some (code, verifier) -> code ∈ token_secrets (code_name field) (secret_leaves parsed)
    /\ verifier ∈ token_secrets "code_verifier" (secret_leaves parsed).
Proof.
  destruct b; [|by intros [= <- <- <-]]. intros [E ->]%fs_lift_done. split; [done|].
  destruct (take_exchange_pair parsed field) as [[rest' pair']|] eqn:Et; [|done]. injection E as -> ->.
  apply exchange_pair_apart in Et as [(Es & Ed & Et) M]. split; [|done]. intros r h'. unfold cleaned.
  by rewrite Es, Ed, !Et by set_solver.
Qed.

(** An answer without tokens or devices does not depend on the host. *)
Lemma cleaned_free parsed r h h' : contains_new_exchange_controls parsed = false -> cleaned parsed r h -> cleaned parsed r h'.
Proof.
  intros (E1 & E2 & E3)%no_control_secrets. unfold cleaned. rewrite E1, E2, E3. simpl. intros (? & A & B & C).
  inversion A. inversion B. inversion C. split_and!; [done|constructor..].
Qed.

(** C13. What the host hands on of a provider's answer that is not empty, be it
    an ordinary one or one taken for an exchange, while other threads run.  Its
    body has, at every place, nothing if the path goes through a secret-shaped
    key, and otherwise what the strictly parsed answer has there, cleaned in
    the same way; no header that carries credentials is handed on.  The last
    access token and the last refresh token among the answer's secret texts,
    where there is one, are each in a slot of the store made live with exactly
    the token's bytes, bound to the request's credential, generation, policy
    and run, and ending by the policy's deadline; the first device identifier
    is likewise in a live device flow of the host; where there is none, there
    is no slot or flow.  The code and the verifier of an exchange are in a new
    flow with the redirect address of the request and the binding of the
    device's flow.  Slots and flows are as they were made if other threads
    leave them alone, and otherwise have at most been used up or erased. *)
Theorem answers_hide_their_secrets (raw : RawHttpsResponse) (h : Host) : wf h -> rr_body raw <> [] ->
  (forall h' r, sanitize_response raw credential_id policy expected_generation h = (h', Ok r) ->
    exists parsed, parse_strict_json (b2s (rr_body raw)) = Ok parsed /\ hides raw r parsed h')
  /\ (forall intent device context h' r exchange, valid device h ->
    sanitize_exchange_response raw credential_id policy expected_generation intent device context h = (h', Ok (r, exchange)) ->
    exists parsed, parse_strict_json (b2s (rr_body raw)) = Ok parsed /\ hides raw r parsed h'
      /\ forall c, exchange = Some c -> exchange_kept (er_code_field intent) (er_redirect_uri intent) device parsed h h' c).
Proof.
  intros W B. split.
  - intros h' r E. unfold sanitize_response in E. rewrite bool_decide_false in E by done.
    apply body_parsed in E as (parsed & Ep & E). apply fs_bind_done in E as (h3 & [] & [_ ->]%fs_guard_done & E).
    apply sanitize_parsed_done in E as (_ & _ & C & Eh); [|done]. exists parsed. split; [done|]. by apply cleaned_hides.
  - intros intent device context h' r exchange V E. unfold sanitize_exchange_response in E. rewrite bool_decide_false in E by done.
    apply body_parsed in E as (parsed & Ep & E). exists parsed. split; [done|].
    apply fs_bind_done in E as (h1 & [rest pending] & E1 & E). apply pair_taken in E1 as (-> & Ap & M).
    apply fs_bind_done in E as (h1 & [] & [G ->]%fs_guard_done & E). apply fs_bind_done in E as (h1 & response & E1 & E).
    apply sanitize_parsed_done in E1 as (W1 & L1 & C & Eh); [|done]. destruct pending as [[code verifier]|].
    + apply fs_bind_done in E as (h2 & c & E2 & E). injection E as <- <- <-.
      apply promote_done in E2 as (W2 & L2 & S & x & (id & source & -> & Ec) & K); [|done|by eapply flow_valid_stable].
      apply negb_true_iff in G. rewrite bool_decide_true in G by by eexists. simpl in G.
      split; [apply cleaned_hides; [done|done|]; by eapply Ap, cleaned_free|]. intros c' [= <-].
      destruct (M _ _ eq_refl) as [Mc Mv]. exists code, verifier. eexists. split_and!; [done|done| |exact K].
      exists id, source. split; [done|]. rewrite Ec. apply same_core. by apply flow_same.
    + injection E as <- <- <-. split; [|done]. apply cleaned_hides; auto.
Qed.

End response.
End ResponseSpec.

(** ** Requests *)

Module RequestSpec.
Import OAuthText OAuthTextSpec OAuth OAuthRely.
Import AuthStore (HandleState, HANDLE_LIVE, HANDLE_USED, HANDLE_EXPIRED, HANDLE_REVOKED).
#[local] Existing Instance AuthStore.handle_state_eq_dec.
#[local] Existing Instance AuthRely.store_steps.

Section request.
Context `{D : OAuthDeps} `{AH : AuthStore.AuthHost} `{R : Ring} `{J : JsonStream} `{U : UrlCrate} `{JS : Body.JsonStrings}.
Context {TL : AuthRely.ThreadLaws} {OL : OAuthThreadLaws}.

(** *** Computations that send nothing *)

Definition silent {A} (m : M A) : Prop := forall h, sent (fst (m h)) = sent h.

Lemma silent_host_bind {A B} (m : M A) (k : A -> M B) : silent m -> (forall a, silent (k a)) -> silent (fs_bind m k).
Proof.
  intros Hm Hk h. unfold fs_bind. specialize (Hm h). destruct (m h) as [h1 [a|e]]; simpl in *; [|done]. by rewrite Hk.
Qed.
Lemma silent_match {A B} (m : M A) (k : result A Fault -> M B) : silent m -> (forall r, silent (k r)) -> silent (fs_match m k).
Proof. intros Hm Hk h. unfold fs_match. specialize (Hm h). destruct (m h) as [h1 r]. simpl in *. by rewrite Hk. Qed.
Lemma silent_host_ret {A} (a : A) : silent (fs_ret a).
Proof. done. Qed.
Lemma silent_host_fail {A} e : silent (fs_fail (A := A) e).
Proof. done. Qed.
Lemma silent_fs_lift {A} (r : result A Fault) : silent (fs_lift r).
Proof. done. Qed.
Lemma silent_fail_ {A} e : silent (OAuth.fail (A := A) e).
Proof. done. Qed.
Lemma silent_guard b e : silent (guard b e).
Proof. by destruct b. Qed.
Lemma silent_lift {A} (r : result A OAuthError) : silent (lift r).
Proof. done. Qed.
Lemma silent_unwinding {A} (r : option (result A OAuthError)) : silent (unwinding r).
Proof. by destruct r. Qed.
Lemma silent_atomic {A} (f : Host -> Host * A) : (forall h, sent (fst (f h)) = sent h) -> silent (OAuth.atomic f).
Proof.
  intros Hf h. unfold OAuth.atomic. set (h1 := oauth_threads _ _). specialize (Hf h1).
  assert (sent h1 = sent h) by (unfold h1; by rewrite (proj1 (oauth_threads_record _ _))).
  destruct (f h1). simpl in *. congruence.
Qed.
Lemma silent_external {A} (f : nat -> result A OAuthError) : silent (external f).
Proof. intros h. unfold external. simpl. by rewrite (proj1 (oauth_threads_record _ _)). Qed.
Lemma silent_in_vault {A} (m : AuthStore.M A) : silent (in_vault m).
Proof. intros h. unfold in_vault. by destruct (m _). Qed.
Lemma silent_reading {A} c (g : FlowInner -> A) : silent (reading c g).
Proof. by apply silent_atomic. Qed.
Lemma silent_updating c f : silent (updating c f).
Proof. by apply silent_atomic. Qed.
Lemma silent_flag_load c f : silent (flag_load c f).
Proof. apply silent_reading. Qed.
Lemma silent_flag_store c f v : silent (flag_store c f v).
Proof. apply silent_updating. Qed.
Lemma silent_flag_take c f : silent (flag_take c f).
Proof. apply silent_atomic. intros h. by case_decide. Qed.
Lemma silent_get_flow c : silent (get_flow c).
Proof. done. Qed.
Lemma silent_clock : silent clock_now.
Proof. done. Qed.
Lemma silent_is_cancelled b : silent (is_cancelled b).
Proof. done. Qed.
Lemma silent_fetch_id : silent fetch_id.
Proof. by apply silent_atomic. Qed.
Lemma silent_new_flow x : silent (new_flow x).
Proof. done. Qed.
Lemma silent_forget c : silent (forget c).
Proof. done. Qed.
Lemma silent_register c : silent (register c).
Proof. done. Qed.
Lemma silent_registered c : silent (registered c).
Proof. done. Qed.
Lemma silent_issued_generation c : silent (issued_generation c).
Proof. done. Qed.
Lemma silent_closed session : silent (fun h => (recorded [] [] [session] h, Ok tt)).
Proof. intros h. simpl. by rewrite app_nil_r. Qed.

Create HintDb host_silent discriminated.
#[local] Hint Resolve silent_host_ret silent_host_fail silent_fs_lift silent_fail_ silent_guard silent_lift silent_unwinding silent_external
  silent_in_vault silent_reading silent_updating silent_flag_load silent_flag_store silent_flag_take silent_get_flow silent_clock
  silent_is_cancelled silent_fetch_id silent_new_flow silent_forget silent_register silent_registered silent_issued_generation
  silent_closed : host_silent.

Ltac quietly := repeat first
  [ solve [auto with host_silent]
  | match goal with
    | |- silent (fs_bind _ _) => apply silent_host_bind; [|intros ?]
    | |- silent (fs_match _ _) => apply silent_match; [|intros ?]
    | |- silent (attempt _) => unfold attempt
    | |- silent (or_else _ _) => unfold or_else
    | |- silent (both _ _) => unfold both
    | |- silent (optionally _ _) => unfold optionally
    | |- silent (if ?b then _ else _) => destruct b
    | |- silent (match ?x with _ => _ end) => destruct x
    end ].

Lemma silent_context_check c : silent (context_check c).
Proof. unfold context_check. quietly. Qed.
Lemma silent_check_flag c f class now : silent (check_flag c f class now).
Proof. unfold check_flag. quietly. Qed.
Lemma silent_take_flag c f class : silent (take_flag c f class).
Proof. unfold take_flag. quietly. Qed.
Lemma silent_flow_check_binding c policy id class : silent (flow_check_binding c policy id class).
Proof. unfold flow_check_binding. quietly. Qed.
#[local] Hint Resolve silent_context_check silent_check_flag silent_take_flag silent_flow_check_binding : host_silent.
Lemma silent_preview c now : silent (preview_exchange c now).
Proof. unfold preview_exchange. quietly. Qed.
#[local] Hint Resolve silent_preview : host_silent.
Lemma silent_consume_exchange c now : silent (consume_exchange c now).
Proof. unfold consume_exchange. quietly. Qed.
Lemma silent_begin_device_poll c now : silent (begin_device_poll c now).
Proof. unfold begin_device_poll. quietly. apply silent_atomic. intros h. by destruct (fl_device_in_flight _). Qed.
Lemma silent_device_id c : silent (device_id c).
Proof. unfold device_id. quietly. Qed.
Lemma silent_flow_revoke c : silent (flow_revoke c).
Proof. unfold flow_revoke. quietly. Qed.
Lemma silent_none_live c flags : silent (none_live c flags).
Proof. induction flags; simpl; quietly. Qed.
#[local] Hint Resolve silent_consume_exchange silent_begin_device_poll silent_device_id silent_flow_revoke silent_none_live : host_silent.
Lemma silent_with_flows {A} (m : M A) : silent m -> silent (with_flows m).
Proof. intros Hm. unfold with_flows. quietly. Qed.
Lemma silent_sweep now ids : silent (sweep_flows now ids).
Proof. induction ids; simpl; unfold is_terminal; quietly. Qed.
Lemma silent_sweep_locked : silent sweep_locked.
Proof. unfold sweep_locked. quietly. intros h. apply silent_sweep. Qed.
Lemma silent_drop_flow c : silent (drop_flow c).
Proof. apply silent_with_flows. quietly. Qed.
#[local] Hint Resolve silent_sweep_locked silent_drop_flow silent_with_flows : host_silent.
Lemma silent_drop_and_revoke c : silent (drop_and_revoke c).
Proof. unfold drop_and_revoke. quietly. Qed.
#[local] Hint Resolve silent_drop_and_revoke : host_silent.
Lemma silent_insert_flow c : silent (insert_flow c).
Proof. unfold insert_flow. quietly; apply silent_with_flows; quietly. Qed.
#[local] Hint Resolve silent_insert_flow : host_silent.
Lemma silent_promote device policy uri code verifier context : silent (promote_device_session device policy uri code verifier context).
Proof. unfold promote_device_session. quietly. apply silent_with_flows. unfold promotable. quietly. Qed.
Lemma silent_mint_device policy id device : silent (mint_device_session policy id device).
Proof. unfold mint_device_session. quietly. Qed.
#[local] Hint Resolve silent_promote silent_mint_device : host_silent.
Lemma silent_sanitize_parsed raw parsed id policy g : silent (sanitize_parsed_response raw parsed id policy g).
Proof. unfold sanitize_parsed_response. quietly. Qed.
#[local] Hint Resolve silent_sanitize_parsed : host_silent.
Lemma silent_consume_flag c f class now : silent (consume_flag c f class now).
Proof. unfold consume_flag. quietly. Qed.
#[local] Hint Resolve silent_consume_flag : host_silent.
Lemma silent_receive raw id policy g capture device c : silent (receive raw id policy g capture device c).
Proof. unfold receive, sanitize_exchange_response, sanitize_response. quietly. Qed.
Lemma silent_inactive c flow : silent (revoke_submitted_if_context_inactive c flow).
Proof. unfold revoke_submitted_if_context_inactive. quietly. Qed.
Lemma silent_revoke_use use : silent (revoke_credential_use use).
Proof. unfold revoke_credential_use. quietly. Qed.
Lemma silent_expected_generation use : silent (credential_expected_generation use).
Proof. unfold credential_expected_generation. quietly. Qed.
Lemma silent_native_body intent body flow : silent (native_body intent body flow).
Proof. unfold native_body, native_fields, new_field. quietly. Qed.
Lemma silent_validate_use policy id use : silent (validate_credential_use policy id use).
Proof. unfold validate_credential_use, validate_issued, same_id. quietly. Qed.
Lemma silent_submitted use : silent (submitted_flow use).
Proof. unfold submitted_flow, live_flow. quietly. Qed.
Lemma silent_inject headers handle policy endpoint path : silent (inject_access_authorization headers handle policy endpoint path).
Proof. unfold inject_access_authorization. quietly. Qed.
#[local] Hint Resolve silent_receive silent_inactive silent_revoke_use silent_expected_generation silent_native_body silent_validate_use
  silent_submitted silent_inject : host_silent.
Lemma silent_spend use native policy endpoint path headers body : silent (spend use native policy endpoint path headers body).
Proof. unfold spend, live_flow. quietly. Qed.
#[local] Hint Resolve silent_spend : host_silent.

(** *** What may be sent *)

(** A header the caller gave, admitted by the policy. *)
Definition public_header (policy : TrustedTransportPolicy) (request : ProviderRequest) (name value : string) : Prop :=
  (name ∉ FORBIDDEN_HEADERS) /\ existsb (fun allowed => eq_ignore_ascii_case allowed name) (tp_allowed_header_names policy) = true
  /\ exists given, to_ascii_lowercase given = name /\ (given, value) ∈ pr_public_headers request.

(** A header the host adds: the body's content type, the bearer token of an
    access use, and the identity headers where the policy's identity covers the
    endpoint and the path. *)
Definition host_header (policy : TrustedTransportPolicy) (use : CredentialUse) (intent : option NativeRequestBodyIntent)
    (endpoint : TrustedEndpoint) (path name value : string) : Prop :=
  (name = "content-type" /\ exists i, intent = Some i /\ value = Body.content_type (nb_encoding i))
  \/ ((exists handle, use = AccessUse handle) /\
     ((name = "authorization" /\ exists secret, value = "Bearer " +:+ secret)
      \/ (name ∈ IDENTITY_HEADERS /\ exists identity, tp_transport_identity policy = Some identity
          /\ te_authority identity = te_authority endpoint /\ path_matches (te_path_prefix identity) path = true))).

Record admitted (policy : TrustedTransportPolicy) (request : ProviderRequest) (use : CredentialUse)
    (intent : option NativeRequestBodyIntent) (p : PreparedHttpsRequest) : Prop := {
  admitted_method : ph_method p = "GET" \/ ph_method p = "POST";
  admitted_path : path_denied (pr_path request) = false;
  admitted_endpoint : exists endpoint, endpoint ∈ tp_endpoints policy
    /\ path_matches (te_path_prefix endpoint) (pr_path request) = true
    /\ ph_url p = "https://" +:+ te_authority endpoint +:+ pr_path request
    /\ forall name value, (name, value) ∈ ph_headers p ->
       public_header policy request name value \/ host_header policy use intent endpoint (pr_path request) name value
}.

Lemma admit_path_ok policy path endpoint : admit_path policy path = Ok endpoint ->
  path_denied path = false /\ endpoint ∈ tp_endpoints policy /\ path_matches (te_path_prefix endpoint) path = true.
Proof.
  unfold admit_path. destruct (path_denied path); [done|]. destruct (head _) as [e|] eqn:E; [|done]. intros [= <-].
  split; [done|]. assert (In : e ∈ filter (fun e => path_matches (te_path_prefix e) path = true) (tp_endpoints policy)).
  { destruct (filter _ _) as [|a l] eqn:F; [done|]. injection E as <-. by left. }
  by apply list_elem_of_filter in In as [? ?].
Qed.

Lemma admit_each_ok policy request headers : headers ⊆ pr_public_headers request ->
  forall acc out, admit_each policy headers acc = Ok out ->
  (forall name value, (name, value) ∈ acc -> public_header policy request name value) ->
  forall name value, (name, value) ∈ out -> public_header policy request name value.
Proof.
  induction headers as [|[n v] headers IH]; intros Sub acc out E Ha; simpl in E; [by injection E as <-|].
  destruct (_ && _); [done|]. case_bool_decide as F; [done|]. destruct (existsb _ _) eqn:X; [|done]. simpl in E.
  eapply IH; [set_solver|done|]. intros name value [[= -> ->]|?]%obj_insert_keys; [|auto].
  split_and!; [done..|]. exists n. split; [done|]. set_solver.
Qed.

Lemma admit_headers_ok policy request out : admit_headers policy (pr_public_headers request) = Ok out ->
  forall name value, (name, value) ∈ out -> public_header policy request name value.
Proof. intros E. eapply admit_each_ok; [done|exact E|set_solver]. Qed.

Section sending.
Variables (policy : TrustedTransportPolicy) (request : ProviderRequest) (use : CredentialUse)
  (intent : option NativeRequestBodyIntent) (endpoint : TrustedEndpoint).

(** Headers that may go out to the endpoint. *)
Definition fit (headers : list (string * string)) : Prop := forall name value, (name, value) ∈ headers ->
  public_header policy request name value \/ host_header policy use intent endpoint (pr_path request) name value.

Lemma fit_insert name value headers : fit headers ->
  host_header policy use intent endpoint (pr_path request) name value -> fit (obj_insert name value headers).
Proof. intros F H n v [[= -> ->]|?]%obj_insert_keys; auto. Qed.

Lemma admit_body_intent_fit i headers out :
  intent = Some i -> fit headers -> admit_body_intent i use headers = Ok out -> fit out.
Proof.
  intros Hi F. unfold admit_body_intent. destruct (validate_native_body_selection i use); [|done]. simpl.
  assert (G : fit (obj_insert "content-type" (Body.content_type (nb_encoding i)) headers)).
  { apply fit_insert; [done|]. left. eauto. }
  destruct (obj_get _ _); [destruct (eq_ignore_ascii_case _ _)|]; intros [= <-]; done.
Qed.

Lemma inject_fit handle headers h h' out : use = AccessUse handle -> fit headers ->
  inject_access_authorization headers handle policy endpoint (pr_path request) h = (h', Ok out) -> fit out.
Proof.
  intros Hu F E. unfold inject_access_authorization in E. apply fs_bind_done in E as (h1 & secret & _ & E).
  apply fs_bind_done in E as (h2 & headers2 & E2 & E). injection E as <- <-.
  apply fit_insert; [|right; split; [by exists handle|]; left; split; [done|by exists secret]].
  destruct (tp_transport_identity policy) as [identity|] eqn:I; [|by injection E2 as <- <-].
  destruct (_ && _) eqn:B; [|by injection E2 as <- <-].
  apply andb_true_iff in B as [B1%str_eqb_true B2].
  apply fs_bind_done in E2 as (? & [] & _ & E2). apply fs_bind_done in E2 as (? & account & _ & E2). injection E2 as <- <-.
  assert (ID : forall name value, name ∈ IDENTITY_HEADERS -> host_header policy use intent endpoint (pr_path request) name value).
  { intros name value Hn. right. split; [by exists handle|]. right. split; [done|]. by exists identity. }
  repeat apply fit_insert; [done|apply ID; unfold IDENTITY_HEADERS; set_solver..].
Qed.

Lemma spend_fit native headers body h h' out : fit headers ->
  spend use native policy endpoint (pr_path request) headers body h = (h', Ok out) -> fit (fst out).
Proof.
  intros F E. unfold spend in E. destruct use as [|handle|handle|code verifier|handle] eqn:Hu.
  - by injection E as <- <-.
  - apply fs_bind_done in E as (h1 & hs & E1 & E). injection E as <- <-. by eapply inject_fit.
  - apply fs_bind_done in E as (h1 & secret & _ & E). by injection E as <- <-.
  - apply fs_bind_done in E as (? & ? & _ & E). apply fs_bind_done in E as (? & ? & _ & E).
    apply fs_bind_done in E as (? & ? & _ & E). apply fs_bind_done in E as (? & ? & _ & E).
    apply fs_bind_done in E as (? & ? & _ & E). by injection E as <- <-.
  - by injection E as <- <-.
Qed.

End sending.

(** *** Computations that send at most one request *)

Definition once (P : PreparedHttpsRequest -> Prop) {A} (m : M A) : Prop := forall h,
  sent (fst (m h)) = sent h \/ exists p, P p /\ sent (fst (m h)) = sent h ++ [p].

Lemma once_silent P {A} (m : M A) : silent m -> once P m.
Proof. intros Hm h. left. apply Hm. Qed.
Lemma once_after P {A B} (m : M A) (k : A -> M B) :
  silent m -> (forall h h' a, m h = (h', Ok a) -> once P (k a)) -> once P (fs_bind m k).
Proof.
  intros Hm Hk h. unfold fs_bind. pose proof (Hm h) as E. destruct (m h) as [h1 [a|e]] eqn:Em; simpl in *; [|by left].
  rewrite <- E. by eapply Hk.
Qed.
Lemma once_match P {A B} (m : M A) (k : result A Fault -> M B) : once P m -> (forall r, silent (k r)) -> once P (fs_match m k).
Proof.
  intros Hm Hk h. unfold fs_match. pose proof (Hm h) as E. destruct (m h) as [h1 r]. simpl in *. by rewrite (Hk r h1).
Qed.
Lemma once_before P {A B} (m : M A) (k : A -> M B) : once P m -> (forall a, silent (k a)) -> once P (fs_bind m k).
Proof.
  intros Hm Hk h. unfold fs_bind. pose proof (Hm h) as E. destruct (m h) as [h1 [a|e]]; simpl in *; [by rewrite (Hk a h1)|done].
Qed.

Lemma once_send P prepared context device : P prepared -> once P (send_checked prepared context device).
Proof.
  intros Hp. apply once_before; [|intros; quietly]. apply once_match; [|intros; quietly].
  apply once_after; [quietly|]. intros _ _ _ _ h. right. exists prepared. split; [done|]. unfold send_request, fs_bind. simpl.
  by rewrite (proj1 (oauth_threads_record _ _)).
Qed.

Lemma once_polling P {A} o (m : M A) : once P m -> once P (polling o m).
Proof. intros Hm. unfold polling. destruct o; [|done]. apply once_match; [done|]. intros. quietly. Qed.

Ltac after := apply once_after; [quietly|intros ? ? ? ?].

Lemma once_transmit policy request use intent capture override method id endpoint headers flow c :
  method = "GET" \/ method = "POST" -> path_denied (pr_path request) = false -> endpoint ∈ tp_endpoints policy ->
  path_matches (te_path_prefix endpoint) (pr_path request) = true -> fit policy request use intent endpoint headers ->
  once (admitted policy request use intent)
    (transmit policy request use intent capture override method id endpoint headers flow c).
Proof.
  intros Hm Hp He Hx F. unfold transmit. apply once_after; [quietly|]. intros h0 h1 headers' E0.
  assert (F' : fit policy request use intent endpoint headers').
  { destruct intent as [i|]; [|by injection E0 as <- <-]. unfold or_else, fs_match, lift, fs_lift in E0. simpl in E0.
    destruct (admit_body_intent i use headers) as [out|e] eqn:Ea; simpl in E0.
    - injection E0 as <- <-. by eapply admit_body_intent_fit.
    - by apply fs_bind_done in E0 as (? & ? & _ & [=]). }
  after. after. after. apply once_polling. after. after.
  apply once_after; [quietly|]. intros hb hc spent E1. pose proof (spend_fit _ _ _ _ _ _ _ _ _ _ _ F' E1) as F2.
  assert (FIN : forall g body device, once (admitted policy request use intent)
    (let* raw := send_checked {| ph_method := method; ph_url := "https://" +:+ te_authority endpoint +:+ pr_path request;
        ph_headers := fst spent; ph_body := body |} c device in
     receive raw id policy g capture device c)).
  { intros g body device. apply once_before; [|intros; quietly]. apply once_send. split; [done|done|]. by exists endpoint. }
  destruct (if bool_decide _ then None else _); [|apply FIN]. after. after. apply once_polling. after. apply FIN.
Qed.

Lemma method_ok method : str_eqb method "GET" || str_eqb method "POST" = true -> method = "GET" \/ method = "POST".
Proof. intros [?%str_eqb_true|?%str_eqb_true]%orb_true_iff; auto. Qed.

Lemma once_transport policy request use intent capture owned override :
  once (admitted policy request use intent) (transport_inner policy request use intent capture owned override).
Proof.
  unfold transport_inner. after. after. apply once_after; [quietly|]. intros ? ? [] [Hm%method_ok _]%fs_guard_done. after.
  apply once_after; [quietly|]. intros ? ? endpoint [E1 _]%fs_lift_done. apply once_after; [quietly|].
  intros ? ? headers [E2 _]%fs_lift_done. after. after. after. after. after.
  destruct (admit_path _ _) as [e|] eqn:Ep; [|done]. injection E1 as ->. apply admit_path_ok in Ep as (? & ? & ?).
  destruct (admit_headers _ _) as [hs|] eqn:Eh; [|done]. injection E2 as ->.
  apply once_transmit; [done..|]. intros name value Hin. left. by eapply admit_headers_ok.
Qed.

Lemma once_start_stream policy request access :
  once (admitted policy request (AccessUse access) None) (start_access_stream_scoped policy request access).
Proof.
  unfold start_access_stream_scoped. apply once_after; [quietly|]. intros ? ? [] [Hm%method_ok _]%fs_guard_done. after.
  apply once_after; [quietly|]. intros ? ? endpoint [E1 _]%fs_lift_done. apply once_after; [quietly|].
  intros ? ? headers [E2 _]%fs_lift_done. after. after. after. after. apply once_after; [quietly|]. intros hb hc headers' E3.
  destruct (admit_path _ _) as [e|] eqn:Ep; [|done]. injection E1 as ->. apply admit_path_ok in Ep as (? & ? & ?).
  destruct (admit_headers _ _) as [hs|] eqn:Eh; [|done]. injection E2 as ->.
  assert (F : fit policy request (AccessUse access) None endpoint headers').
  { eapply inject_fit; [done| |exact E3]. intros name value Hin. left. by eapply admit_headers_ok. }
  after. apply once_before; [|intros; quietly]. intros hs'. right. eexists. split; [|done]. split; [done|done|]. by exists endpoint.
Qed.

Lemma silent_prepare mode : silent (prepare_callback mode).
Proof. intros h. unfold prepare_callback. simpl. by rewrite (proj1 (oauth_threads_record _ _)). Qed.
Lemma silent_generate : silent generate_pkce.
Proof. done. Qed.
Lemma silent_guarding {A} session (m : M A) : silent m -> silent (guarding session m).
Proof. intros Hm. apply silent_match; [done|]. intros [a|e]; destruct session; try done. intros h. simpl. by rewrite app_nil_r. Qed.
Lemma silent_open_browser url : silent (open_browser url).
Proof. unfold open_browser. apply silent_host_bind; [|intros; quietly]. intros h. simpl. by rewrite app_nil_r. Qed.
Lemma silent_revoke_and_fail {A} c e : silent (revoke_and_fail (A := A) c e).
Proof. unfold revoke_and_fail. quietly. Qed.
#[local] Hint Resolve silent_prepare silent_generate silent_open_browser silent_revoke_and_fail : host_silent.

Lemma silent_begin policy intent owned : silent (pkce_begin_inner policy intent owned).
Proof.
  unfold pkce_begin_inner. quietly. all: apply silent_guarding; quietly. all: intros h; by destruct (_ && _).
Qed.
Lemma silent_wait policy handle owned : silent (callback_wait_inner policy handle owned).
Proof.
  unfold callback_wait_inner, live_flow, take_callback, settle, finish_callback, callback_parts, csrf_state. quietly.
Qed.
Lemma silent_and_then m k : silent m -> silent k -> silent (and_then m k).
Proof. intros. unfold and_then. quietly. Qed.
Lemma silent_succeeds {A} (m : M A) : silent m -> silent (succeeds m).
Proof. intros. unfold succeeds. quietly. Qed.
Ltac all_quietly := repeat first [progress quietly | apply silent_and_then | apply silent_succeeds | apply silent_with_flows].
Lemma silent_callback_live handle : silent (callback_result_live handle).
Proof. unfold callback_result_live. all_quietly. Qed.
Lemma silent_inject_callback handle input : silent (inject_callback handle input).
Proof. unfold inject_callback, live_flow. quietly. Qed.
#[local] Hint Resolve silent_callback_live silent_inject_callback : host_silent.
Lemma silent_revoke_run run_id : silent (revoke_run run_id).
Proof.
  apply silent_with_flows. assert (X : forall ids, silent (revoke_matching run_id ids)) by (induction ids; simpl; quietly).
  intros h. apply X.
Qed.

(** What a call may send. *)
Definition may_send (c : call) (p : PreparedHttpsRequest) : Prop :=
  match c with
  | Transport policy request use intent _ _ _ => admitted policy request use intent p
  | StartStream policy request access => admitted policy request (AccessUse access) None p
  | _ => False
  end.

(** C8. A call of the host sends at most one request, whatever the other
    threads do.  Only the transport calls send, and what they send is a GET or
    a POST to the authority of an endpoint the policy trusts, under that
    endpoint's path prefix and at no denied path; every header is one the
    caller gave and the policy allows, never one of the forbidden names, or one
    the host added for this use. *)
Theorem requests_stay_admitted (c : call) (h : Host) :
  sent (run c h) = sent h \/ exists p, may_send c p /\ sent (run c h) = sent h ++ [p].
Proof.
  destruct c; simpl; try apply once_transport; try apply once_start_stream; left.
  - apply silent_begin.
  - apply silent_wait.
  - apply (silent_host_bind (live_flow handle class)); [by destruct handle|]. intros. quietly.
  - apply (silent_host_bind (live_flow handle CALLBACK_HANDLE_CLASS)); [by destruct handle|]. intros. quietly.
  - apply silent_inject_callback.
  - apply (silent_host_bind (live_flow handle CALLBACK_HANDLE_CLASS)); [by destruct handle|]. intros. unfold csrf_state. quietly.
  - apply silent_revoke_run.
  - apply (silent_host_bind (with_flows _)); [by apply silent_with_flows|]. intros ids. induction ids; simpl; quietly.
  - match goal with |- sent (fst (?m _)) = _ => assert (X : silent m); [|apply X] end. unfold exchange_pair_live, exchange_pair_matches_binding, is_registered. all_quietly.
  - match goal with |- sent (fst (?m _)) = _ => assert (X : silent m); [|apply X] end. unfold device_session_live, device_session_matches_binding, is_registered. all_quietly.
Qed.

(** *** A code is submitted once *)

(** The call that goes from [h] to [h'] makes the one step of the flag from
    live to used. *)
Definition takes (c : nat) (f : Flag) (h h' : Host) : Prop := exists h1,
  later h h1 /\ valid c h1 /\ ~ spent c f h1 /\ later (with_cells (alter (set_flag f HANDLE_USED) c) h1) h'.

Lemma takes_before c f h0 h h' : later h0 h -> takes c f h h' -> takes c f h0 h'.
Proof. intros L (h1 & ? & ?). exists h1. split; [by eapply host_later_trans|done]. Qed.
Lemma takes_after c f h h' h2 : takes c f h h' -> later h' h2 -> takes c f h h2.
Proof. intros (h1 & ? & ? & ? & ?) L. exists h1. split_and!; [done..|by eapply host_later_trans]. Qed.
Lemma takes_fresh c f h h' : takes c f h h' -> ~ spent c f h.
Proof. intros (h1 & L & _ & N & _) X. apply N. by eapply spent_stable. Qed.
Lemma takes_spends c f h h' : takes c f h h' -> spent c f h'.
Proof.
  intros (h1 & _ & V & _ & L). eapply spent_stable; [done|]. destruct V as [x Hx]. exists (set_flag f HANDLE_USED x).
  simpl. rewrite lookup_alter_eq, Hx. split; [done|]. by destruct f.
Qed.

Lemma spent_of c f h : valid c h -> flag_of f (flow_of h c) <> HANDLE_LIVE -> spent c f h.
Proof. intros V N. exists (flow_of h c). split; [by apply flow_valid_of|done]. Qed.

Lemma flag_take_wins c f h h' : wf h -> valid c h -> flag_take c f h = (h', Ok true) -> takes c f h h'.
Proof.
  intros W V E. destruct (keeps_atomic_same always (fun h => (h, tt)) always_stable ltac:(done) h W I) as (W1 & L1 & _).
  unfold flag_take, OAuth.atomic in *. simpl in *. set (h1 := oauth_threads _ _) in *. case_decide as Live; simplify_eq.
  exists h1. split_and!; [done|by eapply flow_valid_stable| |apply host_later_refl].
  intros (x & Hx & N). unfold flow_of in Live. by rewrite Hx in Live.
Qed.

Lemma take_flag_wins c f class h h' : wf h -> valid c h -> take_flag c f class h = (h', Ok tt) -> takes c f h h'.
Proof.
  intros W V E. apply fs_bind_done in E as (h1 & won & E1 & [Ew ->]%fs_guard_done). rewrite Ew in E1. by apply flag_take_wins.
Qed.

Lemma keeps_valid {A} c (m : M A) h h' r : (forall P, stable P -> keeps P m) -> wf h -> valid c h -> m h = (h', r) ->
  wf h' /\ later h h' /\ valid c h'.
Proof. intros K W V E. exact (keeps_done (valid c) m h h' r (K _ (flow_valid_stable c)) (flow_valid_stable c) W V E). Qed.

Definition exchanged (c : nat) (h h' : Host) : Prop := takes c CodeFlag h h' /\ takes c VerifierFlag h h'.

Lemma exchanged_before c h0 h h' : later h0 h -> exchanged c h h' -> exchanged c h0 h'.
Proof. intros ? [? ?]. split; by eapply takes_before. Qed.
Lemma exchanged_after c h h' h2 : exchanged c h h' -> later h' h2 -> exchanged c h h2.
Proof. intros [? ?] ?. split; by eapply takes_after. Qed.

Lemma consume_exchange_takes c now h h' parts :
  wf h -> valid c h -> consume_exchange c now h = (h', Ok parts) -> exchanged c h h'.
Proof.
  intros W V E. apply fs_bind_done in E as (h1 & ps & E1 & E).
  apply (keeps_valid c) in E1 as (W1 & L1 & V1); [|intros; by apply keeps_preview|done|done].
  apply fs_bind_done in E as (h2 & [] & E2 & E). pose proof (take_flag_wins _ _ _ _ _ W1 V1 E2) as T2.
  apply (keeps_valid c) in E2 as (W2 & L2 & V2); [|intros; by apply keeps_take_flag|done|done].
  apply fs_bind_done in E as (h3 & [] & E3 & E). pose proof (take_flag_wins _ _ _ _ _ W2 V2 E3) as T3.
  apply (keeps_valid c) in E3 as (W3 & L3 & V3); [|intros; by apply keeps_take_flag|done|done].
  assert (L4 : later h3 h').
  { apply fs_bind_done in E as (h4 & [] & E4 & E). apply fs_bind_done in E as (h5 & [] & E5 & E). injection E as <- _.
    apply (keeps_valid c) in E4 as (W4 & L4 & V4); [|intros; apply keeps_updating; [done|apply allowed_put_code]|done|done].
    apply (keeps_valid c) in E5 as (W5 & L5 & V5); [|intros; apply keeps_updating; [done|apply allowed_clear_verifier]|done|done].
    by eapply host_later_trans. }
  split.
  - eapply takes_before; [done|]. eapply takes_after; [done|]. by eapply host_later_trans.
  - eapply takes_before; [by eapply host_later_trans|]. by eapply takes_after.
Qed.

(** A computation that sends only if it exchanges the flow's code. *)
Definition guarded (c : nat) {A} (m : M A) : Prop := forall h, wf h -> valid c h ->
  sent (fst (m h)) = sent h \/ exchanged c h (fst (m h)).

Lemma guarded_after c {A B} (m : M A) (k : A -> M B) : silent m -> keeps (valid c) m ->
  (forall h h' a, m h = (h', Ok a) -> guarded c (k a)) -> guarded c (fs_bind m k).
Proof.
  intros Hs Hm Hk h W V. destruct (Hm h W V) as (W1 & L1 & V1). pose proof (Hs h) as E. unfold fs_bind.
  destruct (m h) as [h1 [a|e]] eqn:Em; simpl in *; [|by left]. rewrite <- E.
  destruct (Hk _ _ _ Em h1 W1 (V1 a eq_refl)) as [?|?]; [by left|]. right. by eapply exchanged_before.
Qed.
Lemma guarded_exchange c {A B} (m : M A) (k : A -> M B) : silent m -> keeps (valid c) m ->
  (forall h h' a, wf h -> valid c h -> m h = (h', Ok a) -> exchanged c h h') -> (forall a, keeps always (k a)) ->
  guarded c (fs_bind m k).
Proof.
  intros Hs Hm Hx Hk h W V. destruct (Hm h W V) as (W1 & L1 & _). pose proof (Hs h) as E. unfold fs_bind.
  destruct (m h) as [h1 [a|e]] eqn:Em; simpl in *; [|by left]. right. destruct (Hk a h1 W1 I) as (_ & L2 & _).
  eapply exchanged_after; [by eapply Hx|done].
Qed.
Lemma guarded_polling c {A} o (m : M A) : guarded c m -> keeps (valid c) m -> guarded c (polling o m).
Proof.
  intros Hg Hm. unfold polling. destruct o as [i|]; [|done]. intros h W V. unfold fs_match.
  set (k := fun r : result A Fault => let* _ := updating i (mark_in_flight false) in fs_lift r).
  assert (S : forall r, silent (k r)) by (intros; unfold k; quietly).
  assert (K : forall r, keeps always (k r)).
  { intros r. apply keeps_bind; [apply keeps_updating; [done|apply allowed_in_flight]|]. intros. apply keeps_lift. }
  destruct (Hg h W V) as [E|X]; destruct (Hm h W V) as (W1 & _ & _); destruct (m h) as [h1 r].
  - left. rewrite <- E. apply (S r h1).
  - right. eapply exchanged_after; [done|]. by destruct (K r h1 W1 I) as (_ & ? & _).
Qed.

Lemma spend_exchanges c verifier native policy endpoint path headers body h h' out : wf h -> valid c h ->
  spend (AuthorizationCodeUse (Here c) verifier) native policy endpoint path headers body h = (h', Ok out) -> exchanged c h h'.
Proof.
  intros W V E. unfold spend in E. apply fs_bind_done in E as (h1 & now & E1 & E).
  apply (keeps_valid c) in E1 as (W1 & L1 & V1); [|intros; by apply keeps_clock|done|done].
  unfold live_flow, fs_bind at 1, fs_ret in E. apply fs_bind_done in E as (h2 & parts & E2 & E).
  assert (E2' : consume_exchange c now h1 = (h2, Ok parts)).
  { unfold or_else, fs_match in E2. destruct (consume_exchange c now h1) as [h3 [p|[e|]]]; [done| |done].
    by apply fs_bind_done in E2 as (? & ? & _ & [=]). }
  pose proof (consume_exchange_takes _ _ _ _ _ W1 V1 E2') as X.
  apply (keeps_valid c) in E2' as (W2 & L2 & V2); [|intros; by apply keeps_consume_exchange|done|done].
  unfold fs_bind at 1, get_flow in E. apply fs_bind_done in E as (h3 & [] & E3 & E). injection E as <- _.
  apply (keeps_valid c) in E3 as (W3 & L3 & V3); [|intros; by apply keeps_drop_flow|done|done].
  eapply exchanged_before; [done|]. by eapply exchanged_after.
Qed.

Ltac then_guarded := apply guarded_after; [quietly|pose proof (flow_valid_stable); keep|intros ? ? ? ?].

Lemma guarded_transmit c verifier policy request intent capture override method id endpoint headers context :
  guarded c (transmit policy request (AuthorizationCodeUse (Here c) verifier) intent capture override method id endpoint headers
    (Some c) context).
Proof.
  assert (ST : stable always) by done. pose proof (flow_valid_stable c) as SV. pose proof keeps_spend as KS.
  pose proof (fun P n p e a h b => keeps_of P always _ _ (KS (AuthorizationCodeUse (Here c) verifier) n p e a h b)) as KS'.
  unfold transmit. do 4 then_guarded. apply guarded_polling.
  - do 2 then_guarded. apply guarded_exchange; [quietly|apply KS'; auto with keeps; done|intros; by eapply spend_exchanges|].
    intros spent. simpl. destruct (bool_decide _); keep.
  - keep. all: apply KS'; auto with keeps; done.
Qed.

(** The requests that submit the code of a flow. *)
Definition submits (c : nat) (call : call) : Prop :=
  match call with Transport _ _ (AuthorizationCodeUse (Here c') _) _ _ _ _ => c' = c | _ => False end.

Lemma guarded_transport c verifier policy request intent capture owned override :
  guarded c (transport_inner policy request (AuthorizationCodeUse (Here c) verifier) intent capture owned override).
Proof.
  pose proof (flow_valid_stable c) as SV. assert (KU : forall id, keeps (valid c) (validate_credential_use policy id (AuthorizationCodeUse (Here c) verifier))).
  { intros id. apply (keeps_of _ (usable (AuthorizationCodeUse (Here c) verifier)) _ _ (keeps_validate_use _ _ _)); [done|]. by intros. }
  unfold transport_inner. do 9 then_guarded. apply guarded_after; [quietly|keep|]. intros ? ? flow [= _ <-]. then_guarded.
  apply guarded_transmit.
Qed.

(** A flag that is no longer live is refused. *)
Lemma check_flag_refuses c f class now : triple (spent c f) (check_flag c f class now) (fun _ _ => False).
Proof.
  apply triple_bind_keep; [apply keeps_get_flow|]. intros x.
  eapply triple_bind; [apply triple_reading, spent_stable|]. intros st. simpl. destruct st; try apply triple_fail.
  intros h W [(y & Hy & N) E]. unfold flow_of in E. rewrite Hy in E. by simpl in E.
Qed.

Lemma validate_refuses policy id c verifier :
  triple (spent c CodeFlag) (validate_credential_use policy id (AuthorizationCodeUse (Here c) verifier)) (fun _ _ => False).
Proof.
  pose proof (spent_stable c CodeFlag) as ST. unfold validate_credential_use. apply triple_bind_keep; [keep|]. intros now.
  destruct verifier; [|apply triple_fail]. apply triple_bind_keep; [unfold same_id; keep|]. intros _.
  apply triple_bind_keep; [keep|]. intros _. eapply triple_bind; [apply check_flag_refuses|]. intros _ h W [].
Qed.

(** Nothing is sent from a state in which the flag is spent. *)
Definition refused (c : nat) {A} (m : M A) : Prop := forall h, wf h -> spent c CodeFlag h -> sent (fst (m h)) = sent h.

Lemma refused_after c {A B} (m : M A) (k : A -> M B) : silent m -> keeps (spent c CodeFlag) m ->
  (forall a, refused c (k a)) -> refused c (fs_bind m k).
Proof.
  intros Hs Hm Hk h W X. destruct (Hm h W X) as (W1 & _ & X1). pose proof (Hs h) as E. unfold fs_bind.
  destruct (m h) as [h1 [a|e]]; simpl in *; [|done]. rewrite <- E. apply Hk; [done|]. by apply (X1 a).
Qed.
Lemma refused_stop c {A B} (m : M A) (k : A -> M B) :
  silent m -> triple (spent c CodeFlag) m (fun _ _ => False) -> refused c (fs_bind m k).
Proof.
  intros Hs Hm h W X. destruct (Hm h W X) as (_ & _ & X1). pose proof (Hs h) as E. unfold fs_bind.
  destruct (m h) as [h1 [a|e]]; simpl in *; [|done]. by destruct (X1 a eq_refl).
Qed.

Lemma transport_refused c verifier policy request intent capture owned override :
  refused c (transport_inner policy request (AuthorizationCodeUse (Here c) verifier) intent capture owned override).
Proof.
  pose proof (spent_stable c CodeFlag) as ST. unfold transport_inner.
  do 7 (apply refused_after; [quietly|keep|intros ?]). apply refused_stop; [quietly|apply validate_refuses].
Qed.

(** C7. The code of an authorization flow reaches the transport at most once,
    however calls interleave: a call that submits it and sends a request has
    itself moved the flow's code and verifier from live to used, each of which
    happens once, and no later submission of that code sends anything. *)
Theorem code_is_submitted_once (c : nat) (first second : call) (h later_h : Host) :
  wf h -> valid c h -> submits c first -> sent (run first h) <> sent h ->
  wf later_h -> later (run first h) later_h -> submits c second ->
  takes c CodeFlag h (run first h) /\ takes c VerifierFlag h (run first h) /\ sent (run second later_h) = sent later_h.
Proof.
  intros W V S1 N W2 L S2. assert (X : exchanged c h (run first h)).
  { destruct first as [| |? ? [| | |[c'|] v|]| | | | | | | | |]; try done. simpl in S1. subst c'.
    destruct (guarded_transport c v policy request body_intent capture owned override h W V) as [?|?]; [done|done]. }
  split_and!; [apply X|apply X|]. assert (Sp : spent c CodeFlag later_h) by (eapply spent_stable, takes_spends, X; done).
  destruct second as [| |? ? [| | |[c'|] v|]| | | | | | | | |]; try done. simpl in S2. subst c'. by apply transport_refused.
Qed.

End request.
End RequestSpec.

(** ** Callbacks *)

Module CallbackSpec.
Import OAuthText OAuth OAuthRely RequestSpec FrameSpec.

Section callback.
Context `{D : OAuthDeps} `{AH : AuthStore.AuthHost} `{R : Ring} `{J : JsonStream} `{U : UrlCrate} `{JS : Body.JsonStrings}.
Context {TL : AuthRely.ThreadLaws} {OL : OAuthThreadLaws}.

(** The state and the code that a callback carries. *)
Definition input_parts (input : RawCallbackInput) : option (string * string) :=
  match input with
  | Query state code => Some (state, code)
  | ManualUrl url => match parse_callback_url url with Some (Ok parts) => Some parts | _ => None end
  | TimeoutInput | CancelledInput => None
  end.

Lemma revoke_and_fail_fails {A} c e h h' (a : A) : revoke_and_fail c e h <> (h', Ok a).
Proof. intros E. by apply fs_bind_done in E as (? & ? & _ & [=]). Qed.
Lemma settle_done {A} c (r : result A Fault) h h' a : settle c r h = (h', Ok a) -> r = Ok a /\ h' = h.
Proof. destruct r as [b|[e|]]; simpl; [by intros [= <- ->]|by intros ?%revoke_and_fail_fails|done]. Qed.

Lemma callback_parts_done c input h h' parts :
  callback_parts c input h = (h', Ok parts) -> input_parts input = Some parts.
Proof.
  destruct input as [st co|url| |]; simpl; [by intros [= <- <-]| |by intros ?%revoke_and_fail_fails..].
  intros E%or_else_done. unfold unwinding in E. destruct (parse_callback_url url) as [[p|e]|]; [|done|done].
  by injection E as <- <-.
Qed.

(** *** The state of a flow that other threads leave alone *)

Section state.
Variable c : nat.

Definition state_alone : Prop := forall n h, fl_state (flow_of (oauth_threads n h) c) = fl_state (flow_of h c).
(** Computations whose success leaves the flow's state. *)
Definition passes {A} (m : M A) : Prop := state_alone -> forall h h' a, m h = (h', Ok a) ->
  fl_state (flow_of h' c) = fl_state (flow_of h c).

Lemma state_same h h' : same_but (fun d => d <> c) h h' -> fl_state (flow_of h' c) = fl_state (flow_of h c).
Proof. intros E%same_but_cell. unfold flow_of. by rewrite E. Qed.
Lemma passes_frames {A} (m : M A) :
  (state_alone -> frames (fun h => fl_state (flow_of h c)) m) -> passes m.
Proof. intros F Al h h' a E. specialize (F Al h). by rewrite E in F. Qed.
Lemma passes_bind {A B} (m : M A) (k : A -> M B) : passes m -> (forall a, passes (k a)) -> passes (fs_bind m k).
Proof. intros Hm Hk Al h h' b E. apply fs_bind_done in E as (h1 & a & E1 & E). rewrite (Hk a Al _ _ _ E). by eapply Hm. Qed.
Lemma passes_fail {A} e : passes (fs_fail (A := A) e).
Proof. by intros Al h h' a [=]. Qed.
Lemma passes_pure {A} (f : Host -> A) : passes (fun h => (h, Ok (f h))).
Proof. by intros Al h h' a [= <- <-]. Qed.
Lemma passes_guard b e : passes (guard b e).
Proof. intros Al h h' a E. by destruct b; injection E as <-. Qed.
Lemma passes_revoke_and_fail {A} d e : passes (revoke_and_fail (A := A) d e).
Proof. by intros Al h h' a ?%revoke_and_fail_fails. Qed.
Lemma passes_or_else {A} (m : M A) cleanup : passes m -> passes (or_else m cleanup).
Proof. intros Hm Al h h' a E%or_else_done. by eapply Hm. Qed.
Lemma passes_settle {A} d (r : result A Fault) : passes (settle d r).
Proof. by intros Al h h' a [_ ->]%settle_done. Qed.
Lemma passes_reading {A} d (f : FlowInner -> A) : passes (reading d f).
Proof. apply passes_frames. intros Al. by apply (frames_reading _ _ state_same Al). Qed.
Lemma passes_tick {A} (m : M A) : (forall h, same_but (fun d => d <> c) h (fst (m h))) -> passes m.
Proof. intros Hm. apply passes_frames. intros _. by apply (frames_of _ _ state_same). Qed.
Lemma passes_attempt {A} (m : M A) :
  (state_alone -> frames (fun h => fl_state (flow_of h c)) m) -> passes (attempt m).
Proof. intros F. apply passes_frames. intros Al. apply frames_match; [auto|]. intros r. by apply frames_pure. Qed.
Lemma passes_check_flag d f class now : passes (check_flag d f class now).
Proof.
  unfold check_flag. apply passes_bind; [apply passes_pure|]. intros x. apply passes_bind; [apply passes_reading|].
  intros []; [|apply passes_fail..]. destruct (_ <=? _)%Z; [|apply passes_pure]. intros Al h h' a E.
  by apply fs_bind_done in E as (? & ? & _ & [=]).
Qed.
Lemma passes_take_flag d f class : passes (take_flag d f class).
Proof.
  unfold take_flag. apply passes_bind; [|intros; apply passes_guard]. apply passes_frames. intros Al.
  apply (frames_atomic_of _ _ state_same Al). intros h. destruct (decide _); [|done]. simpl. unfold flow_of. simpl.
  destruct (decide (d = c)) as [->|N]; [|by rewrite lookup_alter_ne]. rewrite lookup_alter_eq.
  destruct (cells h !! c); [|done]. by destruct f.
Qed.
Lemma passes_callback_parts d input : passes (callback_parts d input).
Proof.
  destruct input; simpl; [apply passes_pure|apply passes_or_else|apply passes_revoke_and_fail..].
  unfold unwinding. destruct (parse_callback_url url) as [[p|e]|]; [apply passes_pure|apply passes_fail..].
Qed.
End state.

Create HintDb passing.
#[local] Hint Resolve passes_fail passes_pure passes_guard passes_revoke_and_fail passes_settle passes_reading passes_check_flag
  passes_take_flag passes_callback_parts : passing.
#[local] Hint Extern 2 (passes _ (is_cancelled _)) => (by apply passes_tick) : passing.
#[local] Hint Extern 2 (passes _ clock_now) => (by apply passes_tick) : passing.

(** One step of a call, which other threads may precede, after [h0]. *)
Lemma step_done {A B} c (m : M A) (k : A -> M B) h0 h h' b : (forall P, stable P -> keeps P m) -> wf h /\ valid c h /\ later h0 h ->
  fs_bind m k h = (h', Ok b) -> exists h1 a, m h = (h1, Ok a) /\ k a h1 = (h', Ok b) /\ wf h1 /\ valid c h1 /\ later h0 h1.
Proof.
  intros K (W & V & L) E. apply fs_bind_done in E as (h1 & a & E1 & E). destruct (keeps_valid c _ _ _ _ K W V E1) as (? & ? & ?).
  exists h1, a. split_and!; [done..|by eapply host_later_trans].
Qed.
Ltac step := match goal with
  | E : fs_bind ?m ?k ?h = (?h', Ok ?b), S : wf ?h /\ valid ?c ?h /\ later ?h0 ?h |- _ =>
      let K := fresh "K" in assert (K : forall P, stable P -> keeps P m) by (intros; keep);
      apply (step_done c m k h0 h h' b K S) in E; clear K S; destruct E as (? & ? & ? & E & S)
  end.

(** The same where the step leaves the flow's state. *)
Lemma step_passed {A B} c (m : M A) (k : A -> M B) h0 h h' b : (forall P, stable P -> keeps P m) -> passes c m ->
  wf h /\ valid c h /\ later h0 h -> (state_alone c -> fl_state (flow_of h c) = fl_state (flow_of h0 c)) ->
  fs_bind m k h = (h', Ok b) -> exists h1 a, m h = (h1, Ok a) /\ k a h1 = (h', Ok b) /\ (wf h1 /\ valid c h1 /\ later h0 h1)
    /\ (state_alone c -> fl_state (flow_of h1 c) = fl_state (flow_of h0 c)).
Proof.
  intros K Pm S Q E. destruct (step_done c m k h0 h h' b K S E) as (h1 & a & E1 & E2 & S1). exists h1, a.
  split_and!; [done|done|apply S1..|]. intros Al. rewrite <-(Q Al). by eapply Pm.
Qed.
Ltac pass := solve [first [by eauto with passing | unfold get_flow, csrf_state, live_flow; by eauto with passing | case_match; pass]].
Ltac step_state := match goal with
  | E : fs_bind ?m ?k ?h = (?h', Ok ?b), S : wf ?h /\ valid ?c ?h /\ later ?h0 ?h,
    Q : state_alone ?c -> fl_state (flow_of ?h ?c) = fl_state (flow_of ?h0 ?c) |- _ =>
      let K := fresh "K" in let Pm := fresh "Pm" in
      assert (K : forall P, stable P -> keeps P m) by (intros; keep); assert (Pm : passes c m) by pass;
      apply (step_passed c m k h0 h h' b K Pm S Q) in E; clear K Pm S Q; destruct E as (? & ? & ? & E & S & Q)
  end.

Lemma keeps_callback_parts P c input : stable P -> keeps P (callback_parts c input).
Proof. intros. unfold callback_parts. keep. Qed.
Lemma keeps_csrf_state P c : stable P -> keeps P (csrf_state c).
Proof. intros. unfold csrf_state. keep. Qed.
#[local] Hint Resolve keeps_callback_parts keeps_csrf_state : keeps.

Lemma csrf_state_done c h h' st : csrf_state c h = (h', Ok st) -> st = fl_state (flow_of h' c).
Proof. unfold csrf_state, reading, OAuth.atomic. by intros [= <- <-]. Qed.

Lemma started c h : wf h -> valid c h -> wf h /\ valid c h /\ later h h.
Proof. intros. split_and!; [done..|apply host_later_refl]. Qed.

(** The state that passes in [h]: the flow's, or the empty one if the flow's has
    been erased. *)
Definition state_passes (c : nat) (h : Host) (state : string) : Prop :=
  kept_or_erased (fl_state (flow_of h c)) state /\ (state_alone c -> state = fl_state (flow_of h c)).

Lemma state_passes_before c h0 h state : valid c h0 -> later h0 h -> (state_alone c -> fl_state (flow_of h c) = fl_state (flow_of h0 c)) ->
  state_passes c h state -> state_passes c h0 state.
Proof.
  intros V L Q [K E]. split; [eapply kept_trans; [by apply (flow_same c h0 h V L)|done]|]. intros Al. by rewrite <-(Q Al), (E Al).
Qed.

Lemma finish_callback_done c input h h' r : wf h -> valid c h -> finish_callback c input h = (h', Ok r) ->
  r = c /\ exists st co, input_parts input = Some (st, co) /\ state_passes c h st.
Proof.
  intros W V E. pose proof (started c h W V) as S. assert (Q : state_alone c -> fl_state (flow_of h c) = fl_state (flow_of h c)) by done.
  unfold finish_callback in E. do 10 step_state.
  match goal with E1 : callback_parts _ _ _ = (_, Ok ?parts), E2 : csrf_state _ _ = (?h1, Ok _) |- _ =>
    apply callback_parts_done in E1 as P; apply csrf_state_done in E2 as T; destruct parts as [st co]; set (hs := h1) in * end.
  destruct S as (Ws & Vs & Ls). apply fs_bind_done in E as (h1 & u & Em & E). simpl in Em.
  unfold state_matches in Em. destruct (str_eqb_spec st (fl_state (flow_of hs c))) as [M|M]; subst; [|].
  - split; [|exists (fl_state (flow_of hs c)), co; split; [done|]; split; [apply (flow_same c h hs V Ls)|done]].
    repeat (apply fs_bind_done in E as (? & ? & _ & E)). by injection E as _ <-.
  - exfalso. destruct (str_eqb_spec st (fl_state (flow_of hs c))); [done|]. by apply revoke_and_fail_fails in Em.
Qed.

Lemma consume_flag_takes c f class now h h' : wf h -> valid c h -> consume_flag c f class now h = (h', Ok tt) -> takes c f h h'.
Proof.
  intros W V E. pose proof (started c h W V) as S. unfold consume_flag in E. step. destruct S as (W1 & V1 & L1).
  eapply takes_before; [done|]. by eapply take_flag_wins.
Qed.

Lemma take_callback_done c now h h' u : take_callback c now h = (h', Ok u) ->
  consume_flag c CallbackFlag CALLBACK_HANDLE_CLASS now h = (h', Ok tt).
Proof.
  unfold take_callback, fs_match. destruct (consume_flag _ _ _ _ h) as [h1 [[]|[e|]]]; [by intros [= <- _]| |done]. intros E.
  apply fs_bind_done in E as (h2 & o & _ & E). destruct o; [by apply revoke_and_fail_fails in E|done].
Qed.

Lemma attempt_result {A} (m : M A) h h' r : attempt m h = (h', Ok r) -> m h = (h', r).
Proof. unfold attempt, fs_match. destruct (m h) as [h1 r1]. by intros [= <- <-]. Qed.

Lemma both_done {A} first (second : result A Fault) h h' a : both first second h = (h', Ok a) -> second = Ok a.
Proof. destruct first; [by intros [= _ ->]|done]. Qed.

(** From the callback's taking to the end. *)
Definition await_callback (c : nat) (session : option nat) (context : Context_) : M nat :=
  let* waited := attempt (let* _ := context_check context in external (fun call => callback_wait_one call session)) in
  let* post := attempt (context_check context) in
  let* merged := attempt (both post waited) in
  let* input := settle c merged in
  let* finished := finish_callback c input in
  let* after := attempt (context_check context) in
  let* _ := settle c after in
  fs_ret finished.

Lemma passes_waited c context session :
  passes c (attempt (let* _ := context_check context in external (fun call => callback_wait_one call session))).
Proof.
  apply passes_attempt. intros Al. apply frames_bind; [by apply (frames_context_check _ _ (state_same c))|].
  intros. by apply (frames_external _ _ (state_same c)).
Qed.
Lemma passes_checked c context : passes c (attempt (context_check context)).
Proof. apply passes_attempt. intros Al. by apply (frames_context_check _ _ (state_same c)). Qed.
Lemma passes_merged {A} c first (second : result A Fault) : passes c (attempt (both first second)).
Proof. apply passes_attempt. intros Al. by destruct first. Qed.
Lemma passes_take_callback c d now : passes c (take_callback d now).
Proof.
  intros Al h h' u E%take_callback_done. revert Al h h' E. assert (P : passes c (consume_flag d CallbackFlag CALLBACK_HANDLE_CLASS now)).
  { apply passes_bind; [apply passes_check_flag|]. intros. apply passes_take_flag. }
  intros Al h h' E. by eapply P.
Qed.
Lemma passes_binding c d policy id class : passes c (or_else (flow_check_binding d policy id class) (drop_and_revoke d)).
Proof. apply passes_or_else, passes_bind; [apply passes_pure|]. intros. apply passes_guard. Qed.
Lemma passes_deadline c d context :
  passes c (let* r := attempt (context_check context) in settle d r).
Proof. apply passes_bind; [apply passes_checked|]. intros. apply passes_settle. Qed.
#[local] Hint Resolve passes_waited passes_checked passes_merged passes_take_callback passes_binding passes_deadline : passing.

Lemma await_callback_done c session context h h' r : wf h -> valid c h -> await_callback c session context h = (h', Ok r) ->
  r = c /\ later h h' /\ exists n input state code, callback_wait_one n session = Ok input
    /\ input_parts input = Some (state, code) /\ state_passes c h state.
Proof.
  intros W V E. pose proof (started c h W V) as S. assert (Q : state_alone c -> fl_state (flow_of h c) = fl_state (flow_of h c)) by done.
  unfold await_callback in E. do 4 step_state. pose proof S as (Wf & Vf & Lf).
  match goal with E1 : attempt _ h = _, E2 : attempt (both _ _) _ = _, E3 : settle _ _ _ = _ |- _ =>
    apply attempt_result in E1; apply attempt_result in E2; apply settle_done in E3 as [-> ->];
    apply both_done in E2 as ->; apply fs_bind_done in E1 as (hx & [] & _ & E1) end.
  match goal with E1 : external _ _ = (_, Ok ?i), S : wf ?h1 /\ _ |- _ =>
    set (input := i) in *; set (hi := h1) in *; unfold external in E1; injection E1 as _ Ei end.
  apply (step_done c) with (h0 := h) in E as (hf & fin & Ef & E & Sf); [|intros; by apply keeps_finish_callback|done].
  destruct (finish_callback_done c input hi hf fin Wf Vf Ef) as (-> & st & co & P & K).
  clear S. do 2 step. injection E as <- <-. split_and!; [done|apply Sf|].
  eexists _, input, st, co. split_and!; [|done|by apply (state_passes_before c h hi)].
  destruct (callback_wait_one _ session) as [j|] eqn:Ej in Ei; [|done]. injection Ei as <-. exact Ej.
Qed.

(** C14. A callback that is accepted, while other threads run, was waited for by
    the call that took the flow's callback, which happens once, and came from
    one answer of the callback's source.  The state it carries is the one the
    flow had when the call began, if no other thread touches that; and if one
    does, it is either the state the flow had at any earlier point, its opening
    included, or empty: the flow can be given up and its state erased between
    the check that it is not revoked and the comparison of the states, and then
    an empty state passes. *)
Theorem callback_accepts_only_its_state (policy : option TrustedTransportPolicy) (c r : nat) (owned : bool) (h h' : Host) :
  wf h -> valid c h -> callback_wait_inner policy (Here c) owned h = (h', Ok r) ->
  r = c /\ takes c CallbackFlag h h' /\ exists n input state code,
    callback_wait_one n (fl_prepared_callback (flow_of h c)) = Ok input /\ input_parts input = Some (state, code)
    /\ (state_alone c -> state = fl_state (flow_of h c))
    /\ (forall h0, valid c h0 -> later h0 h -> state = fl_state (flow_of h0 c) \/ state = EmptyString).
Proof.
  intros W V E. pose proof (started c h W V) as S. assert (Q : state_alone c -> fl_state (flow_of h c) = fl_state (flow_of h c)) by done.
  unfold callback_wait_inner, live_flow in E. do 2 step_state.
  match goal with E1 : fs_ret c h = _, E2 : get_flow _ _ = _ |- _ => injection E1 as <- <-; injection E2 as <- <- end.
  do 7 step_state. pose proof S as (Wk & Vk & Lk). step_state.
  match goal with E1 : take_callback _ _ _ = _ |- _ => apply take_callback_done in E1 as T end.
  apply (consume_flag_takes c) in T; [|done|done]. destruct S as (Wt & Vt & Lt).
  apply (await_callback_done c (fl_prepared_callback (flow_of h c)) _ _ _ _ Wt Vt) in E as (-> & Le & n & input & st & co & E1 & E2 & E3).
  split_and!; [done|eapply takes_before; [exact Lk|by eapply takes_after]|]. exists n, input, st, co.
  apply (state_passes_before c h _ _ V Lt Q) in E3 as [K Al]. split_and!; [done|done|done|]. intros h0 V0 L0.
  apply (kept_trans (fl_state (flow_of h0 c))) in K as [?|?]; [by right|by left|apply (flow_same c h0 h V0 L0)].
Qed.

End callback.
End CallbackSpec.

(** ** A host at work *)

Module OAuthExample.
Import OAuthText OAuthTextSpec OAuth OAuthRely.
Import AuthStore (HANDLE_LIVE, HANDLE_USED, HANDLE_REVOKED).
#[local] Existing Instance AuthStoreExample.host.
#[local] Existing Instance AuthStoreExample.host_laws.

(** One thread, and a provider that answers every request with one token; any
    other text reads as a code and its verifier. *)
#[local] Instance deps : OAuthDeps := {|
  oauth_clock := Z.of_nat; host_cancelled := fun _ => false; owner_cancelled := fun _ => false;
  transport_send := fun _ _ _ => Ok {| rr_status := 200; rr_headers := [("Set-Cookie", "session")]; rr_body := s2b "{}" |};
  transport_start := fun _ _ _ => Ok tt; callback_prepare := fun _ _ => Ok None;
  callback_wait_one := fun _ _ => Ok (Query "state-1" "code-1"); callback_inject := fun _ _ => Ok tt;
  browser_open := fun _ _ => Ok tt; oauth_threads := fun _ h => h |}.
#[local] Instance entropy : Ring := {| ring_sha256 := fun _ => repeat Byte.x61 32; ring_fill := fun _ n => Some (repeat Byte.x62 n) |}.
#[local] Instance answers : JsonStream := fun text =>
  (if str_eqb text "{}" then RObject [("access_token", RString "token-1"); ("scope", RString "offline")] None
   else RObject [("code", RString "code-2"); ("code_verifier", RString "verifier-0123456789-0123456789-0123456789-01")] None, None).
#[local] Instance urls : UrlCrate := fun _ => None.
#[local] Instance texts : Body.JsonStrings := {| Body.read_string := fun _ => None; Body.string_pieces := fun _ => [] |}.

#[local] Instance deps_laws : OAuthThreadLaws.
Proof. split; simpl; intros; [done|apply host_later_refl|done..]. Qed.

Definition endpoint : TrustedEndpoint := {| te_authority := "auth.example.com"; te_path_prefix := "/oauth" |}.
Definition policy : TrustedTransportPolicy := {|
  tp_generation := 1; tp_run_id := "run-1"; tp_deadline := 1000; tp_endpoints := [endpoint];
  tp_allowed_header_names := ["accept"]; tp_transport_identity := None |}.
Definition request : ProviderRequest := {|
  pr_method := "post"; pr_path := "/oauth/token"; pr_public_headers := [("Accept", "application/json")];
  pr_public_body := "client_id=app"; pr_credential_id := "codex" |}.

Definition flow (callback : AuthStore.HandleState) (code : option string) : FlowInner := {|
  fl_id := 0; fl_policy_generation := 1; fl_run_id := "run-1"; fl_credential_id := "codex"; fl_expires_at := 500;
  fl_redirect_uri := "http://127.0.0.1:10000/callback"; fl_prepared_callback := None; fl_state := "state-1";
  fl_verifier := "verifier-1"; fl_code := code; fl_device_code := EmptyString; fl_callback := callback;
  fl_verifier_state := HANDLE_LIVE; fl_code_state := HANDLE_LIVE; fl_device_state := HANDLE_REVOKED;
  fl_callback_succeeded := false; fl_revoked := false; fl_device_in_flight := false |}.

Definition holding_flow (x : FlowInner) : Host := {|
  cells := {[ 0 := x ]}; next_cell := 1; registry := {[ 0 := 0 ]}; flows_locked := false; next_id := 1; native_callbacks := false;
  vault := AuthStoreExample.empty; clocks := 0; checks := 0; calls := 0; draws := 0; pauses := 0; sent := []; opened := [];
  closed_sessions := [] |}.

Lemma holding_wf x : wf (holding_flow x).
Proof.
  split; simpl; [| | |apply AuthStoreExample.empty_wf].
  - intros c Hc. apply lookup_singleton_ne. lia.
  - intros id c [<- <-]%lookup_singleton_Some. by eexists.
  - rewrite map_size_singleton. vm_compute. lia.
Qed.
Lemma holding_valid x : valid 0 (holding_flow x).
Proof. by eexists. Qed.

(** A flow whose callback has come, and one still waiting. *)
Definition with_code : Host := holding_flow (flow HANDLE_USED (Some "code-1")).
Definition waiting : Host := holding_flow (flow HANDLE_LIVE None).

Definition exchange : call := Transport policy request (AuthorizationCodeUse (Here 0) (Here 0)) None None false None.

Lemma every_oauth_call_guarantees_what_it_relies_on_witness :
  holds exchange with_code /\ wf (run exchange with_code) /\ later with_code (run exchange with_code).
Proof.
  split; [exact I|]. apply (every_oauth_call_guarantees_what_it_relies_on exchange with_code).
  - apply holding_wf.
  - exact I.
Defined.

Lemma requests_stay_admitted_witness :
  exists p, RequestSpec.may_send exchange p /\ sent (run exchange with_code) = [p].
Proof.
  destruct (RequestSpec.requests_stay_admitted exchange with_code) as [E|(p & A & E)].
  - exfalso. revert E. vm_compute. discriminate.
  - exists p. split; [exact A|]. exact E.
Defined.

Lemma code_is_submitted_once_witness :
  sent (run exchange with_code) <> sent with_code
  /\ sent (run exchange (run exchange with_code)) = sent (run exchange with_code).
Proof.
  assert (N : sent (run exchange with_code) <> sent with_code) by (vm_compute; discriminate).
  split; [exact N|].
  assert (W : wf (run exchange with_code)).
  { exact (proj1 (keeps_run _ _ with_code
      (keeps_transport policy request (AuthorizationCodeUse (Here 0) (Here 0)) None None false None) (holding_wf _) I)). }
  exact (proj2 (proj2 (RequestSpec.code_is_submitted_once 0 exchange exchange with_code (run exchange with_code)
    (holding_wf _) (holding_valid _) eq_refl N W (host_later_refl _) eq_refl))).
Defined.

Definition polling_device : Host := holding_flow (device_flow 0 policy "codex" 500 "device-1").
Definition raw_answer (body : string) : RawHttpsResponse :=
  {| rr_status := 200; rr_headers := [("Set-Cookie", "session")]; rr_body := s2b body |}.
Definition capture : OpaqueExchangeResponseIntent := {| er_code_field := Code; er_redirect_uri := "http://127.0.0.1/callback" |}.

Lemma answers_hide_their_secrets_witness :
  (let done := sanitize_response (raw_answer "{}") "codex" policy 3 waiting in
   exists r parsed, snd done = Ok r /\ last (token_secrets "access_token" (secret_leaves parsed)) = Some "token-1"
     /\ sp_access_slot r = Some 0 /\ at_place [Member "scope"] (sp_body r) = Some (JString "offline")
     /\ ResponseSpec.hides "codex" policy 3 (raw_answer "{}") r parsed (fst done))
  /\ (let done := sanitize_exchange_response (raw_answer "[]") "codex" policy 3 capture 0 (io_context 1000 false) polling_device in
   exists r parsed, snd done = Ok (r, Some 1)
     /\ ResponseSpec.exchange_kept policy Code (er_redirect_uri capture) 0 parsed polling_device (fst done) 1).
Proof.
  cbv zeta. split.
  - destruct (sanitize_response (raw_answer "{}") "codex" policy 3 waiting) as [h' o] eqn:E.
    assert (O : exists r, o = Ok r /\ sp_access_slot r = Some 0 /\ at_place [Member "scope"] (sp_body r) = Some (JString "offline")).
    { eexists. pose proof (f_equal snd E) as F; cbn [snd] in F. split; [rewrite <-F; vm_compute; reflexivity|]. by split. }
    destruct O as (r & -> & A & B).
    destruct (proj1 (ResponseSpec.answers_hide_their_secrets "codex" policy 3 (raw_answer "{}") waiting (holding_wf _) ltac:(discriminate))
      h' r E) as (parsed & P & Hd).
    exists r, parsed. vm_compute in P. injection P as <-. split_and!; [reflexivity|reflexivity|exact A|exact B|exact Hd].
  - destruct (sanitize_exchange_response (raw_answer "[]") "codex" policy 3 capture 0 (io_context 1000 false) polling_device) as [h' o] eqn:E.
    assert (O : exists r, o = Ok (r, Some 1)).
    { eexists. pose proof (f_equal snd E) as F; cbn [snd] in F. rewrite <-F. vm_compute. reflexivity. }
    destruct O as (r & ->).
    destruct (proj2 (ResponseSpec.answers_hide_their_secrets "codex" policy 3 (raw_answer "[]") polling_device (holding_wf _) ltac:(discriminate))
      capture 0 (io_context 1000 false) h' r (Some 1) (holding_valid _) E) as (parsed & _ & _ & K).
    exists r, parsed. split; [reflexivity|]. exact (K 1 eq_refl).
Defined.

Lemma callback_accepts_only_its_state_witness :
  let done := callback_wait_inner (Some policy) (Here 0) true waiting in
  snd done = Ok 0 /\ RequestSpec.takes 0 CallbackFlag waiting (fst done)
  /\ exists n input code, callback_wait_one n None = Ok input /\ CallbackSpec.input_parts input = Some ("state-1", code).
Proof.
  cbv zeta. destruct (callback_wait_inner (Some policy) (Here 0) true waiting) as [h' o] eqn:E.
  assert (O : o = Ok 0) by (pose proof (f_equal snd E) as F; cbn [snd] in F; rewrite <-F; vm_compute; reflexivity). subst o.
  destruct (CallbackSpec.callback_accepts_only_its_state (Some policy) 0 0 true waiting h' (holding_wf _) (holding_valid _) E)
    as (_ & T & n & input & state & code & A & B & C & _).
  split; [reflexivity|]. split; [exact T|]. exists n, input, code. split; [exact A|]. rewrite B, (C (fun _ _ => eq_refl)). reflexivity.
Defined.

End OAuthExample.
